(* ===== verification/_CoqProject ===== *)
-Q . S2P
Prelude.v
FractionalIndex.v
JsMap.v
Types.v
Util.v
Json.v
Scheduling.v
Threads.v
Dates.v
Storage.v
StorageFacts.v
Conflict.v
ConflictFacts.v
Maintenance.v
MaintenanceFacts.v
Crypto.v
CryptoFacts.v
Engine.v
EngineUploadFacts.v
EngineDownload.v
EngineDownloadFacts.v
EngineCycle.v
EngineCycleFacts.v
EngineExample.v
RestorePoints.v
RestorePointsFacts.v
Planner.v
PlannerFacts.v
RestoreJob.v
EngineKeeps.v
RestoreJobFacts.v
RestoreExample.v
Bookmarks.v
BookmarkReadFacts.v
FakeBookmarks.v
BookmarkApply.v
RestoreTriggers.v
RestoreJobExample.v
BookmarkCapture.v
BookmarkBackfillFacts.v
BookmarkImportFacts.v
BookmarkMoveFacts.v
FakeBookmarksFacts.v
BookmarkRetryFacts.v
BookmarkExample.v
ApiClient.v
ApiPool.v
ApiPoolFacts.v
ApiExample.v
History.v
HistoryEnumFacts.v
HistoryPagingFacts.v
HistoryUploadFacts.v
HistoryBulkFacts.v
HistoryExample.v
HistoryReplay.v
HistoryEchoFacts.v
HistoryReplayFacts.v
HistorySync.v
HistorySyncFacts.v
HistorySyncExample.v
Tabs.v
TabsCapture.v
TabsApply.v
TabsCoalesceFacts.v
TabsFlushFacts.v
TabsRemoteFacts.v
TabsExample.v
WebSocket.v
WebSocketFacts.v
WebSocketOnceFacts.v
Background.v
BackgroundFacts.v
BookmarkListeners.v
DeviceMirror.v
WebCrypto.v
WebPasskey.v
WebClient.v
WebAccount.v
WebAccountFacts.v
