(* ===== verification/Prelude.v ===== *)
(** * HelixSync: a verification library for the browser extension's sync core

    HelixSync keeps bookmarks, tabs and history of several browsers in step.
    Each browser runs the extension (src/extension), which records local
    changes as operations, encrypts them, queues them in IndexedDB, uploads
    them to a server that only orders and stores ciphertexts, downloads what
    the other devices did, resolves conflicts per field, and applies the
    result to the browser. Restore points are encrypted copies of the bookmark
    tree, captured, stored and turned back into operations by a planner.

    ** Parts, files and interaction

    Paths are relative to src/extension/src.

    - Prelude, JsMap, Util, Types, Json, Dates: the ground. JavaScript's string order,
      insertion-ordered [Map] and [Set], [JSON.stringify] and [JSON.parse];
      util/chunk, retention, uuid, url-scheme; the
      records of sync/types.ts; [Date] and util/hour.ts. [M] is the error-and-state monad of every
      [async] function: an exception keeps the state reached.
    - FractionalIndex: util/fractional-index.ts, the position keys that
      RestorePoints and (through it) Planner order siblings by.
    - Storage, StorageFacts: storage/db.ts. The schema is the record [DB] of
      object stores, one definition per store operation, each one readwrite
      transaction.
    - Conflict, ConflictFacts: sync/conflict.ts on top of the [field_state]
      store of Storage.
    - Maintenance, MaintenanceFacts: the operations of db.ts and
      storage/selectors.ts that walk a store in committed chunks.
    - Crypto, CryptoFacts: crypto/index.ts over the class [CryptoLib] of
      primitives, with the laws [CryptoLaws] the ciphers document.
    - Engine, EngineDownload, EngineCycle (and their Facts): sync/engine.ts.
      [World] is the engine's state: the database, the state the appliers act
      on, the server, the caches, and logs of what was exchanged. [EngineEnv]
      is its interface to what is outside: server replies are arbitrary
      functions, appliers arbitrary code bounded only by [AppliersOk] where a
      theorem says so. Engine calls Storage, Crypto; EngineDownload adds pages,
      appliers and snapshots; EngineCycle the cycle loop, cooldown, throttle
      and the sync slot as a step relation over competing tasks.
      EngineExample instantiates all of it.
    - RestorePoints, RestorePointsFacts: restore-points/format.ts and
      snapshot.ts, bookmarks/roots.ts. Uses Crypto for the envelope, Json for
      the plaintext, FractionalIndex for positions.
    - Planner, PlannerFacts: restore-points/planner.ts. RestoreExample
      instantiates the restore point theorems.
    - RestoreJob, RestoreJobFacts, EngineKeeps: create.ts,
      outbox.ts, state.ts and restore.ts of restore-points, over the engine's
      [World]. The class [RestoreEnv] is what these files call elsewhere: the
      server's restore point routes, the live bookmark reader, the message
      bus; [BookmarksLaws] says what the bookmark mirror promises. The worker
      can be stopped at any [await] ([Killed]); [lives] chains the runs of one
      job over such stops. EngineKeeps shows which engine calls leave the job
      record and the created operations alone.
    - RestoreTriggers: triggers.ts and service.ts of restore-points, in the
      monad of RestoreJob with the two values kept in chrome.storage.local. A
      call that is not waited for runs where it is started.
      RestoreJobExample runs a drain, triggers, and a restore stopped half way.
    - Bookmarks, BookmarkApply, BookmarkCapture: bookmarks/index.ts, with
      bookmarks/roots.ts and sync/mapping.ts. chrome.bookmarks is the class
      [ChromeBookmarks] over an abstract browser state, clock and identifiers
      [BookmarkEnv]; [BmApp] is the browser with the adapter's module
      variables, and the state the engine's appliers act on. Bookmarks has the
      root folders, the mappings, reading the live tree and the sweep;
      BookmarkApply what remote operations do to the browser; BookmarkCapture
      how bursts of browser events and the first import become operations,
      over the engine's [World]. A call the code does not wait for
      (a mass delete's restore point) runs at the end.
    - FakeBookmarks: test-support/fake-bookmarks.ts, the tests' browser, an
      instance of [ChromeBookmarks]; FakeBookmarksFacts proves for it the laws
      [ChromeMoveLaws] that the theorems on moves assume. BookmarkExample
      evaluates the adapter on it.
    - BookmarkListeners: the listeners of bookmarks/index.ts with the guard, the
      switch and the queue before them, as a machine on events.
    - BookmarkReadFacts, BookmarkBackfillFacts, BookmarkImportFacts,
      BookmarkMoveFacts, BookmarkRetryFacts: their theorems. The import walk is
      generic in how ids are drawn and nodes emitted, so its theorem is one
      [triple] used by the import over the engine.
    - sync/mapping.ts is in Engine, what client.ts gives the adapters in Types.
    - Scheduling, Threads: sync/micro-batch.ts and suppress.ts, util/keyed-lock,
      single-flight, pace, as state machines on events; what [Promise.all]
      starts, as threads of atomic steps.
    - History, HistoryReplay, HistorySync: history/bulk.ts,
      replay.ts and index.ts. chrome.history is an environment whose answers
      may fail and may change between two calls; [World] gains the checkpoint
      in the device record. HistoryEnumFacts, HistoryPagingFacts,
      HistoryUploadFacts and HistoryBulkFacts prove the import,
      HistoryReplayFacts, HistoryEchoFacts and
      HistorySyncFacts the other direction.
    - Tabs, TabsCapture, TabsApply: tabs/index.ts and groupSync.ts over
      [ChromeTabs]; TabsCoalesceFacts, TabsFlushFacts and TabsRemoteFacts prove
      the coalescing, the two flush paths and the appliers.
    - ApiClient, ApiPool: api/client.ts. A request is a tree of effects; a pool
      runs any number of them in several JavaScript contexts, one effect of one
      call at a time, over a shared device record, session storage and server.
    - WebSocket: api/websocket.ts as a machine whose events are wakes, answers,
      timers, socket events, ends of writes and restarts of the worker.
      WebSocketFacts has its invariant, WebSocketOnceFacts the orderly runs.
    - Background, BackgroundFacts: background/index.ts over the components as
      the class [WorkerParts]; at each wait the popup may act ([elsewhere]).
    - DeviceMirror: getDevice, putDevice and clearAllLocalData of storage/db.ts
      with the encryption of the stored record and its mirrors in session
      storage and in each context's memory, as threads of Threads. Storage's
      [db_device] is the register they refine.
    - WebClient: src/web/src/api/client.ts, every call of the dashboard as a
      tree of the requests it sends. WebAccount: the account's row and the
      approval requests with the routes of src/server/src/auth that read or
      write them, what becomes of a request, and the system of any number of
      pages, devices and the clock as the relation [step]. WebAccountFacts has
      its invariant: [safe] says of a program that every request it sends wraps
      the account key the row's wraps hold. WebPasskey: passkey/index.ts.
    - WebCrypto: src/web/src/crypto/index.ts, the dashboard's keys, recovery
      codes and passkey seals, over the primitives of Crypto and against the
      extension's side of each exchange.

    ** Groups of theorems

    - Order keys: a key between two others exists, is valid, and is found
      (keyBetween); UUIDv7 strings order as their times.
    - Storage: counters are never handed out twice; the bounded queue scan and
      the paged walks return what an unbounded scan would; each prune removes
      exactly the rows it promises to.
    - Conflicts: the batched resolution refines the entry-by-entry one; fields
      converge whatever the order and grouping of deliveries; the liveness
      field does when its lifecycle operations are comparable, a delete beats
      moves, and a three-operation history on which delivery order matters.
    - Encryption: base64url round trip; an envelope opens exactly under the
      label it was sealed for; the key cache is invisible.
    - Engine: what may leave the queue and why; each operation is handed to an
      applier at most once; the cursor never passes what was not received;
      exclusive holders of the sync slot exclude one another, a cycle need not
      respect them; cycles end; local syncs are spaced.
    - Restore points: the validator accepts exactly well-formed trees;
      encoding round-trips under its own id only; positions are repaired to a
      strict order; the capture walk yields every reachable node, parents
      first; an exact plan turns the browser into the point, a merge plan adds
      to it, planning always ends.
    - Restore jobs: a run hands over only a beginning of the plan of the
      authenticated point, after syncing and saving a safety copy; however
      often the worker is stopped and resumed, a job that ends in done leaves
      the point in the browser. The outbox drain removes a point only on a
      final verdict or at the attempt limit.
    - Bookmarks: a read of the live tree yields every linked node once,
      parents first, in the form the planner requires; the import leaves every
      node of the browser with its mapping, queued create and field states
      together, at keys that keep each folder in order; a move lands where its
      position belongs, a batch into ordered folders keeps them ordered, and a
      batch within one folder need not; retrying deferred nodes ends; the
      sweep removes exactly the dead mappings.
    - History: an import enumerates every visit of its window once and sends
      runs of one fixed list of chunks however often it is interrupted;
      importing older history ends; a batch of remote visits is replayed once
      per URL; no replay is captured as a visit and no visit taken for a
      replay.
    - Tabs: coalescing keeps what a burst means; the two flush paths stage the
      same; the batched applier refines the single one and spares the tabs that
      are not the objects'.
    - API client: a refresh always uses the token stored last, in one context.
    - Notification socket: the backoff stays within its bounds, orderly runs
      keep at most one connection, and any state but one can reconnect.
    - Triggers: automatic restore points are quiet and spaced.
    - Worker: maintenance leaves exactly what retention and caps allow; the
      badge shows what the state asks for.
    - Scheduling: the keyed lock runs the tasks of a key one at a time, in
      their order; micro-batches hand over every item once.
    - Bookmark listeners: the bursts handed to the flush are exactly the events
      to capture, in their order.
    - Device record: for calls that do not overlap, one register across restarts
      of contexts and of the browser.
    - Dashboard: a recovery code is read exactly from its spellings; the account
      key an approver sends arrives, and under no other request; a sealed code
      opens for its account and credential only; both front ends derive and
      wrap alike.
    - Account: whatever dashboards and devices do to an account, and whichever
      requests are lost, its row opens to the key of its registration with a
      password the user typed and with a recovery code; a recovery code resets
      the password, and the new code is seen only if the last answer arrives.
    - Passkeys: a sealed recovery code is read back from its record and unseals
      to itself.
    What the model shows to be wrong is a theorem on a concrete run in the
    example files, or in EngineCycleFacts, ConflictFacts, WebSocketOnceFacts,
    BackgroundFacts, DeviceMirror and BookmarkListeners.
    ** Modelling decisions

    Numbers the code computes with are integers of [Z]; none of the modelled
    arithmetic leaves the safe-integer range of a double, except timestamps,
    which are arguments. JavaScript's bitwise operators are written out at 32
    bits (Crypto, WebCrypto). Strings are sequences of bytes (UTF-8), compared
    bytewise: exact for identifiers, position keys and ISO dates, the only
    strings the code compares by order. An [await] inside a function is
    sequencing; interleaving at the awaits is modelled where the code guards
    against it or depends on it: EngineCycle's slot, Scheduling, ApiPool, the
    tab calls of Threads, WebSocket, DeviceMirror, Background's popup.

    Loops without a structural bound run on fuel, and a theorem shows the fuel
    enough: [keyBetween] twice the length of both keys and a constant
    ([keyBetween_terminates]), the chunked walks one step more than the rows
    ([chunked_walk] lemmas), the cycle its own bound of five passes plus one
    per trigger ([runSyncCycle_terminates]), the capture walk one step per
    queued folder ([buildPointNodes_spec]), the planner's walks one step more
    than the nodes ([planRestore_total]), the cascade of deferred bookmarks one
    level more than the waiting objects ([retryDeferredParent_ends]), the walks
    of the browser's tree one step more than its nodes. Numeric limits of the code (chunk
    sizes, attempt limits, page sizes) are the code's own constants.

    The paging loops of History, the drains of the queue and of the outbox and
    the API client's retries run on fuel too and report running out as an error
    of its own, which a theorem excludes or names; older history takes at most
    three passes ([importOlderHistoryBulk_ends]). The socket's machine, the
    pool and the slot need none: they are steps. Visit times are whole
    milliseconds and a search's end time excludes itself. In the pool a step is
    one effect, finer than the event loop. [Promise.all] is taken to report a
    rejection after all its calls have ended. The socket's jitter is a fraction
    of 2^53 and rounded to the whole milliseconds a timer counts; awaiting a
    promise already settled lets no one in. The laws on the primitives,
    [CryptoLaws], [KeyLaws] and the sizes History needs, are used in different
    theorems.

    ** Not modelled

    The popup (popup/main.ts, popup/restore-points.ts) and its translations,
    which render state into the page; of the web dashboard (src/web) the pages
    (but the calls of a reset by two devices), components and translations,
    and the search for the browser's own passkey API; of the server, another
    language, all but the routes of WebAccount: sessions, cookies, rate limits
    and audit (a request turned away is an answer with an error), several
    accounts at once, devices, and sync, which is an arbitrary reply function
    to the extension; a route of WebAccount is one step, as its statement or
    transaction is; chrome.* and IndexedDB themselves,
    alarms and the registration of handlers, compression, keep-alive and
    logging (an elapsed timer is an event); the IndexedDB schema upgrades of
    db.ts. The case mappings and spaces of text outside ASCII are the
    platform's. *)

From Stdlib Require Export ZArith NArith Ascii String Lia.
From stdpp Require Export base tactics list sets strings gmap sorting.

#[export] Set Warnings "-clear-no-such-hyp,-register-all".

(** ** Scope and automation databases *)

Declare Scope js_scope.
Delimit Scope js_scope with js.
Open Scope js_scope.

(** Lemmas that orient JavaScript-level boolean tests into propositions. *)
Create HintDb js discriminated.
(** Facts about the JavaScript string order. *)
Create HintDb str_order discriminated.

(** ** JavaScript string comparison

    [a < b] on strings compares code units lexicographically. Strings are
    modelled with 8-bit code units, which is exact for the identifiers, base-62
    position keys and ISO timestamps the program compares. *)

Fixpoint str_ltb (a b : string) : bool :=
  match a, b with
  | _, EmptyString => false
  | EmptyString, String _ _ => true
  | String x a', String y b' =>
      if N.ltb (N_of_ascii x) (N_of_ascii y) then true
      else if N.eqb (N_of_ascii x) (N_of_ascii y) then str_ltb a' b'
      else false
  end.

Definition str_lt (a b : string) : Prop := str_ltb a b = true.
Definition str_leb (a b : string) : bool := negb (str_ltb b a).
Definition str_le (a b : string) : Prop := str_leb a b = true.

Arguments str_lt : simpl never.
Arguments str_le : simpl never.

Infix "<s" := str_lt (at level 70, no associativity) : js_scope.
Infix "<=s" := str_le (at level 70, no associativity) : js_scope.

#[export] Instance str_lt_dec a b : Decision (a <s b).
Proof. unfold str_lt. apply _. Defined.
#[export] Instance str_le_dec a b : Decision (a <=s b).
Proof. unfold str_le. apply _. Defined.

Lemma N_of_ascii_inj x y : N_of_ascii x = N_of_ascii y -> x = y.
Proof.
  intros H. rewrite <- (ascii_N_embedding x), <- (ascii_N_embedding y).
  by rewrite H.
Qed.

Lemma str_lt_cons x a y b :
  (String x a <s String y b) <->
  (N_of_ascii x < N_of_ascii y)%N \/ (x = y /\ a <s b).
Proof.
  unfold str_lt; simpl.
  destruct (N.ltb_spec (N_of_ascii x) (N_of_ascii y)) as [Hlt|Hge].
  { split; [by left|done]. }
  destruct (N.eqb_spec (N_of_ascii x) (N_of_ascii y)) as [Heq|Hne].
  - split; [intros H; right; split; [by apply N_of_ascii_inj|done]|].
    intros [?|[_ ?]]; [lia|done].
  - split; [done|]. intros [?|[-> _]]; [lia|done].
Qed.

Lemma str_lt_nil_l a : ("" <s a) <-> a <> "".
Proof. destruct a; unfold str_lt; simpl; split; congruence. Qed.

Lemma str_lt_nil_r a : ~ (a <s "").
Proof. destruct a; unfold str_lt; simpl; congruence. Qed.

#[export] Instance str_lt_irrefl : Irreflexive str_lt.
Proof.
  intros a. induction a as [|x a IH]; [apply str_lt_nil_r|].
  intros [?|[_ ?]]%str_lt_cons; [lia|by apply IH].
Qed.

#[export] Instance str_lt_trans : Transitive str_lt.
Proof.
  intros a. induction a as [|x a IH]; intros [|y b] [|z c] H1 H2; try done;
    try (by apply str_lt_nil_r in H1); try (by apply str_lt_nil_r in H2).
  apply str_lt_cons in H1, H2. apply str_lt_cons.
  destruct H1 as [?|[-> ?]], H2 as [?|[-> ?]]; [left; lia..|].
  right. split; [done|]. by eapply IH.
Qed.

#[export] Instance str_lt_strict : StrictOrder str_lt.
Proof. split; apply _. Qed.

Lemma str_lt_trichotomy a b : a <s b \/ a = b \/ b <s a.
Proof.
  revert b. induction a as [|x a IH]; intros [|y b].
  - auto.
  - left. done.
  - do 2 right. done.
  - destruct (N.lt_trichotomy (N_of_ascii x) (N_of_ascii y)) as [?|[?|?]].
    + left. apply str_lt_cons. by left.
    + apply N_of_ascii_inj in H as ->.
      destruct (IH b) as [?|[->|?]]; [left|auto|do 2 right];
        apply str_lt_cons; by right.
    + do 2 right. apply str_lt_cons. by left.
Qed.

Lemma str_le_lt_eq a b : a <=s b <-> a <s b \/ a = b.
Proof.
  unfold str_le, str_leb, str_lt. rewrite negb_true_iff. split.
  - intros H. destruct (str_lt_trichotomy a b) as [?|[?|Hlt]]; auto.
    unfold str_lt in Hlt. congruence.
  - intros [H| ->].
    + destruct (str_ltb b a) eqn:E; [|done].
      exfalso. apply (str_lt_irrefl a). by trans b.
    + destruct (str_ltb b b) eqn:E; [|done]. by destruct (str_lt_irrefl b).
Qed.

Lemma str_not_lt a b : ~ (a <s b) <-> b <=s a.
Proof.
  unfold str_le, str_leb, str_lt. rewrite negb_true_iff.
  destruct (str_ltb a b); split; congruence.
Qed.

Lemma str_lt_asym a b : a <s b -> ~ (b <s a).
Proof. intros H1 H2. apply (str_lt_irrefl a). by trans b. Qed.

#[export] Instance str_le_preorder : PreOrder str_le.
Proof.
  split.
  - intros a. apply str_le_lt_eq. auto.
  - intros a b c [?| ->]%str_le_lt_eq [?| ->]%str_le_lt_eq;
      apply str_le_lt_eq; auto. left. by trans b.
Qed.

#[export] Instance str_le_antisymm : AntiSymm eq str_le.
Proof.
  intros a b [H1|?]%str_le_lt_eq [H2|?]%str_le_lt_eq; auto.
  by destruct (str_lt_asym a b).
Qed.

#[export] Instance str_le_total : Total str_le.
Proof.
  intros a b. rewrite !str_le_lt_eq.
  destruct (str_lt_trichotomy a b) as [?|[?|?]]; auto.
Qed.

Lemma str_le_lt_trans a b c : a <=s b -> b <s c -> a <s c.
Proof. intros [?| ->]%str_le_lt_eq ?; [by trans b|done]. Qed.
Lemma str_lt_le_trans a b c : a <s b -> b <=s c -> a <s c.
Proof. intros ? [?| ->]%str_le_lt_eq; [by trans b|done]. Qed.
Lemma str_lt_le a b : a <s b -> a <=s b.
Proof. intros. apply str_le_lt_eq. by left. Qed.

Lemma str_lt_app_l p a b : (p +:+ a <s p +:+ b) <-> a <s b.
Proof.
  induction p as [|x p IH]; [done|].
  change (String x (p +:+ a) <s String x (p +:+ b) <-> a <s b).
  rewrite str_lt_cons, IH. split; [intros [?|[_ ?]]; [lia|done]|auto].
Qed.

(** ** String append *)

Lemma str_app_nil_r p : p +:+ "" = p.
Proof. induction p as [|x p IH]; [done|]. exact (f_equal (String x) IH). Qed.

Lemma str_app_assoc a b c : (a +:+ b) +:+ c = a +:+ b +:+ c.
Proof. induction a as [|x a IH]; [done|]. exact (f_equal (String x) IH). Qed.

#[export] Hint Resolve str_lt_le str_le_lt_trans str_lt_le_trans : str_order.

(** ** Errors with state

    The TypeScript code threads mutable state (module variables, IndexedDB,
    browser objects) through [async] functions that can throw. A computation
    maps a state to a result and the state left behind: an exception does not
    roll state back. *)

Definition M (S E A : Type) : Type := S -> (E + A) * S.

Section monad.
Context {S E : Type}.

Definition ret {A} (a : A) : M S E A := fun s => (inr a, s).
Definition throw {A} (e : E) : M S E A := fun s => (inl e, s).
Definition bind {A B} (m : M S E A) (k : A -> M S E B) : M S E B := fun s =>
  match m s with
  | (inr a, s') => k a s'
  | (inl e, s') => (inl e, s')
  end.
Definition get : M S E S := fun s => (inr s, s).
Definition modify (f : S -> S) : M S E unit := fun s => (inr tt, f s).
(** [try m catch (e) h] *)
Definition try_catch {A} (m : M S E A) (h : E -> M S E A) : M S E A := fun s =>
  match m s with
  | (inr a, s') => (inr a, s')
  | (inl e, s') => h e s'
  end.
Fixpoint for_each {A} (l : list A) (f : A -> M S E unit) : M S E unit :=
  match l with
  | [] => ret tt
  | a :: l' => bind (f a) (fun _ => for_each l' f)
  end.
End monad.

Notation "'let!' x ':=' m 'in' k" := (bind m (fun x => k))
  (at level 10, x name, m at level 100, k at level 200) : js_scope.
Notation "'do!' m 'in' k" := (bind m (fun _ => k))
  (at level 10, m at level 100, k at level 200) : js_scope.

(** ** JavaScript array helpers *)

(** [arr.slice(i, j)] for [0 <= i] and [0 <= j]. *)
Definition slice {A} (l : list A) (i j : nat) : list A := take (j - i) (drop i l).

(** [arr.findIndex(p)], with [None] for [-1]. *)
Fixpoint find_index {A} (p : A -> bool) (l : list A) : option nat :=
  match l with
  | [] => None
  | a :: l' => if p a then Some 0 else S <$> find_index p l'
  end.

(** ** List facts shared by several components *)

Lemma find_index_Some {A} (p : A -> bool) l i :
  find_index p l = Some i <->
  (exists a, l !! i = Some a /\ p a = true) /\
  (forall j b, (j < i)%nat -> l !! j = Some b -> p b = false).
Proof.
  revert i. induction l as [|a l IH]; intros i; simpl.
  { split; [done|]. by intros [(? & ? & _) _]. }
  destruct (p a) eqn:Ha.
  - split.
    + intros [= <-]. split; [eauto|lia].
    + intros [_ Hmin]. destruct i as [|i]; [done|].
      specialize (Hmin 0 a ltac:(lia) eq_refl). congruence.
  - destruct i as [|i].
    + split; [by destruct (find_index p l)|].
      intros [(b & [= <-] & ?) _]. congruence.
    + split.
      * destruct (find_index p l) as [k|] eqn:E; [|done]. intros [= ->].
        destruct (proj1 (IH i) eq_refl) as [? Hmin]. split; [done|].
        intros [|j] b Hj; simpl; [by intros [= <-]|]. apply Hmin. lia.
      * intros [? Hmin]. assert (find_index p l = Some i) as ->; [|done].
        apply IH. split; [done|]. intros j b Hj. apply (Hmin (S j)). lia.
Qed.

Lemma find_index_None {A} (p : A -> bool) l :
  find_index p l = None <-> Forall (fun a => p a = false) l.
Proof.
  induction l as [|a l IH]; simpl; [by split; constructor|].
  rewrite Forall_cons. destruct (p a), (find_index p l); simpl;
    intuition (try congruence); try done.
Qed.

(** ** Shared tactics *)

(** Case analysis on every boolean or option scrutinee in the goal. *)
Ltac js_cases := repeat case_match; simplify_eq; try done.

(** Turn boolean integer and string tests into propositions. *)
Ltac js_bool :=
  repeat match goal with
  | H : Z.ltb _ _ = true |- _ => apply Z.ltb_lt in H
  | H : Z.ltb _ _ = false |- _ => apply Z.ltb_ge in H
  | H : Z.leb _ _ = true |- _ => apply Z.leb_le in H
  | H : Z.leb _ _ = false |- _ => apply Z.leb_gt in H
  | H : Z.eqb _ _ = true |- _ => apply Z.eqb_eq in H
  | H : Z.eqb _ _ = false |- _ => apply Z.eqb_neq in H
  | H : Nat.ltb _ _ = true |- _ => apply Nat.ltb_lt in H
  | H : Nat.ltb _ _ = false |- _ => apply Nat.ltb_ge in H
  | H : Nat.leb _ _ = true |- _ => apply Nat.leb_le in H
  | H : Nat.leb _ _ = false |- _ => apply Nat.leb_gt in H
  | H : Nat.eqb _ _ = true |- _ => apply Nat.eqb_eq in H
  | H : Nat.eqb _ _ = false |- _ => apply Nat.eqb_neq in H
  | H : String.eqb _ _ = true |- _ => apply String.eqb_eq in H
  | H : String.eqb _ _ = false |- _ => apply String.eqb_neq in H
  | H : bool_decide _ = true |- _ => apply bool_decide_eq_true in H
  | H : bool_decide _ = false |- _ => apply bool_decide_eq_false in H
  | H : andb _ _ = true |- _ => apply andb_true_iff in H as [? ?]
  | H : orb _ _ = false |- _ => apply orb_false_iff in H as [? ?]
  | H : negb _ = true |- _ => apply negb_true_iff in H
  | H : negb _ = false |- _ => apply negb_false_iff in H
  end.

(** ** Filters *)

Lemma filter_true {A} (P : A -> Prop) `{!forall x, Decision (P x)} l : Forall P l -> filter P l = l.
Proof. induction 1; [done|]. rewrite filter_cons, decide_True by done. by f_equal. Qed.
Lemma filter_false {A} (P : A -> Prop) `{!forall x, Decision (P x)} l : Forall (fun x => ~ P x) l -> filter P l = [].
Proof. induction 1; [done|]. by rewrite filter_cons, decide_False. Qed.

Lemma filter_comm {A} (P Q : A -> Prop) `{!forall x, Decision (P x), !forall x, Decision (Q x)} (l : list A) :
  filter P (filter Q l) = filter Q (filter P l).
Proof. rewrite !list_filter_filter. apply list_filter_iff. tauto. Qed.

(** ** Reasoning about computations

    [triple P m Q X]: from a state in [P], [m] returns in [Q] or throws in
    [X]. *)

Section triple.
Context {S E : Type}.

Definition triple {A} (P : S -> Prop) (m : M S E A) (Q : A -> S -> Prop) (X : E -> S -> Prop) : Prop :=
  forall s, P s -> match m s with (inr a, s') => Q a s' | (inl e, s') => X e s' end.

Lemma triple_ret {A} (P : S -> Prop) (a : A) Q X : (forall s, P s -> Q a s) -> triple P (ret a) Q X.
Proof. intros H s Hs. by apply H. Qed.

Lemma triple_throw {A} (P : S -> Prop) (e : E) (Q : A -> S -> Prop) X :
  (forall s, P s -> X e s) -> triple P (throw e) Q X.
Proof. intros H s Hs. by apply H. Qed.

Lemma triple_bind {A B} P (m : M S E A) (k : A -> M S E B) Q R X :
  triple P m Q X -> (forall a, triple (Q a) (k a) R X) -> triple P (bind m k) R X.
Proof.
  intros Hm Hk s Hs. unfold bind. specialize (Hm s Hs). destruct (m s) as [[e|a] s']; [done|].
  by apply Hk.
Qed.

Lemma triple_try_catch {A} P (m : M S E A) h Q X Y :
  triple P m Q X -> (forall e, triple (X e) (h e) Q Y) -> triple P (try_catch m h) Q Y.
Proof.
  intros Hm Hh s Hs. unfold try_catch. specialize (Hm s Hs). destruct (m s) as [[e|a] s']; [|done].
  by apply Hh.
Qed.

Lemma triple_conseq {A} (P P' : S -> Prop) (m : M S E A) Q Q' X X' :
  triple P' m Q' X' -> (forall s, P s -> P' s) -> (forall a s, Q' a s -> Q a s) ->
  (forall e s, X' e s -> X e s) -> triple P m Q X.
Proof.
  intros Hm HP HQ HX s Hs. specialize (Hm s (HP s Hs)). destruct (m s) as [[e|a] s']; auto.
Qed.

Lemma triple_exn {A} P (m : M S E A) Q X X' :
  triple P m Q X' -> (forall e s, X' e s -> X e s) -> triple P m Q X.
Proof. intros Hm HX s Hs. specialize (Hm s Hs). destruct (m s) as [[e|a] s']; auto. Qed.

Lemma triple_modify (P : S -> Prop) (f : S -> S) Q X : (forall s, P s -> Q tt (f s)) -> triple P (modify f) Q X.
Proof. intros H s Hs. by apply H. Qed.

Lemma triple_pure {A} (phi : Prop) P (m : M S E A) Q X :
  (phi -> triple P m Q X) -> triple (fun s => phi /\ P s) m Q X.
Proof. intros H s [Hp Hs]. by apply H. Qed.
End triple.

(** ** Inversion of runs *)

Lemma bind_inv {S E A B} (m : M S E A) (k : A -> M S E B) s r s' : bind m k s = (r, s') ->
  (exists e, m s = (inl e, s') /\ r = inl e) \/ (exists a s1, m s = (inr a, s1) /\ k a s1 = (r, s')).
Proof. unfold bind. destruct (m s) as [[e|a] s1]; intros H; [left|right]; simplify_eq; eauto. Qed.

(** Step into [H : bind m k s = (r, s')]. *)
Ltac binv H Hm := apply bind_inv in H as [(? & Hm & ->)|(? & ? & Hm & H)].
(** The same where [r] is a return; [bok] keeps the first step. *)
Ltac bok H Hm := apply bind_inv in H as [(? & Hm & H)|(? & ? & Hm & H)]; [discriminate H|].
Ltac bret H := apply bind_inv in H as [(? & _ & H)|(? & ? & _ & H)]; [discriminate H|].

(** ** Folds *)

Lemma foldl_inv {A B} (I : A -> Prop) (f : A -> B -> A) l a :
  I a -> (forall a x, x ∈ l -> I a -> I (f a x)) -> I (foldl f a l).
Proof.
  revert a. induction l as [|x l IH]; intros a Ha Hf; [done|]. simpl. apply IH.
  - apply Hf; [by left|done].
  - intros b y Hy. apply Hf. by right.
Qed.
