(* ===== verification/FractionalIndex.v ===== *)
(** * Fractional position keys (extension/src/util/fractional-index.ts)

    [keyBetween lo hi] returns a base-62 key strictly between two sibling
    positions. The loop is translated with its index [i], its reassigned
    bounds [lo] and [hi] and its [-1] sentinels; fuel replaces [for (;;)] and
    [keyBetween_terminates] shows that the fuel chosen is always enough. *)

From S2P Require Import Prelude.

Open Scope Z_scope.
Open Scope js_scope.

(** ** Definitions *)

Definition DIGITS : string :=
  "0123456789ABCDEFGHIJKLMNOPQRSTUVWXYZabcdefghijklmnopqrstuvwxyz".

Definition BASE : Z := Z.of_nat (String.length DIGITS).

Inductive kb_error :=
  | InvalidCharacter (c : ascii)
  | RequiresLoLtHi (lo hi : string)
  | OutOfFuel.

Fixpoint index_of (c : ascii) (s : string) : option Z :=
  match s with
  | EmptyString => None
  | String d s' => if Ascii.eqb c d then Some 0 else Z.succ <$> index_of c s'
  end.

Definition digitIndex (c : ascii) : kb_error + Z :=
  match index_of c DIGITS with
  | None => inl (InvalidCharacter c)
  | Some v => inr v
  end.

(** [DIGITS[n]], a one-character string. *)
Definition digitAt (n : Z) : string :=
  match String.get (Z.to_nat n) DIGITS with
  | Some c => String c EmptyString
  | None => EmptyString
  end.

Definition START_KEY : string := digitAt (BASE / 2).

(** [s.slice(n)] *)
Fixpoint str_drop (n : nat) (s : string) : string :=
  match n, s with
  | O, _ => s
  | S n', EmptyString => EmptyString
  | S n', String _ s' => str_drop n' s'
  end.

Definition loDigitAt (lo : option string) (i : nat) : kb_error + Z :=
  match lo with
  | Some l => match String.get i l with Some c => digitIndex c | None => inr (-1) end
  | None => inr (-1)
  end.

Definition hiDigitAt (hi : option string) (i : nat) : kb_error + Z :=
  match hi with
  | Some h => match String.get i h with Some c => digitIndex c | None => inr (-1) end
  | None => inr BASE
  end.

(** The [for (;;)] loop of [keyBetween]. *)
Fixpoint kb_loop (fuel : nat) (lo hi : option string) (prefix : string) (i : nat) : kb_error + string :=
  match fuel with
  | O => inl OutOfFuel
  | S fuel =>
    match loDigitAt lo i with
    | inl e => inl e
    | inr loDigit =>
      match hiDigitAt hi i with
      | inl e => inl e
      | inr hiDigit =>
        if (loDigit =? -1) && (hiDigit =? -1) then inr (prefix +:+ START_KEY)
        else if loDigit =? -1 then
          if 1 <? hiDigit then inr (prefix +:+ digitAt (hiDigit / 2))
          else if hiDigit =? 1 then inr (prefix +:+ digitAt 0 +:+ START_KEY)
          else kb_loop fuel lo hi (prefix +:+ digitAt 0) (S i)
        else if hiDigit =? -1 then
          let chosen := if loDigit + 1 <? BASE then (loDigit + 1 + BASE) / 2 else loDigit in
          if loDigit <? chosen then inr (prefix +:+ digitAt chosen)
          else kb_loop fuel lo hi (prefix +:+ digitAt loDigit) (S i)
        else if 1 <? hiDigit - loDigit then
          inr (prefix +:+ digitAt (loDigit + (hiDigit - loDigit) / 2))
        else if hiDigit - loDigit =? 1 then
          kb_loop fuel (str_drop (S i) <$> lo) None (prefix +:+ digitAt loDigit) 0
        else kb_loop fuel lo hi (prefix +:+ digitAt loDigit) (S i)
      end
    end
  end.

Definition opt_length (s : option string) : nat :=
  match s with Some s => String.length s | None => O end.

Definition keyBetween (lo hi : option string) : kb_error + string :=
  match lo, hi with
  | None, None => inr START_KEY
  | Some l, Some h =>
      if str_leb h l then inl (RequiresLoLtHi l h)
      else kb_loop (S (opt_length lo + opt_length hi)) lo hi "" 0
  | _, _ => kb_loop (S (opt_length lo + opt_length hi)) lo hi "" 0
  end.

(** ** Well-formed keys

    What every position produced by the program satisfies: base-62 digits, not
    empty, and no trailing ['0'] (which would have no predecessor). *)

Definition is_digit (c : ascii) : bool :=
  match index_of c DIGITS with Some _ => true | None => false end.

Fixpoint good_key (s : string) : bool :=
  match s with
  | EmptyString => true
  | String c s' =>
      is_digit c && (match s' with EmptyString => negb (Ascii.eqb c "0"%char) | _ => true end)
      && good_key s'
  end.

Definition valid_key (s : string) : Prop := s <> "" /\ good_key s = true.

Definition below (lo : option string) (k : string) : Prop :=
  match lo with Some l => l <s k | None => True end.
Definition above (k : string) (hi : option string) : Prop :=
  match hi with Some h => k <s h | None => True end.
Definition valid_opt (s : option string) : Prop :=
  match s with Some s => valid_key s | None => True end.

#[export] Instance valid_key_dec s : Decision (valid_key s).
Proof. unfold valid_key. apply _. Defined.

(** ** Digits *)

Definition digit_code (n : Z) : N :=
  Z.to_N (if n <? 10 then 48 + n else if n <? 36 then 55 + n else 61 + n).

Lemma index_of_DIGITS_spec c n :
  index_of c DIGITS = Some n ->
  0 <= n < 62 /\ N_of_ascii c = digit_code n /\ digitAt n = String c "" /\
  (c = "0"%char <-> n = 0).
Proof.
  destruct c as [[] [] [] [] [] [] [] []]; vm_compute; intros [= <-];
    repeat split; congruence.
Qed.

Lemma digit_code_lt a b : 0 <= a < 62 -> 0 <= b < 62 ->
  (digit_code a < digit_code b)%N <-> a < b.
Proof.
  intros Ha Hb. unfold digit_code.
  destruct (Z.ltb_spec a 10), (Z.ltb_spec a 36), (Z.ltb_spec b 10), (Z.ltb_spec b 36); lia.
Qed.

Lemma digitAt_spec n : 0 <= n < 62 ->
  exists c, digitAt n = String c "" /\ index_of c DIGITS = Some n.
Proof.
  intros Hn.
  assert (forallb (fun k => match String.get k DIGITS with
            | Some c => match index_of c DIGITS with Some v => Z.eqb v (Z.of_nat k) | None => false end
            | None => false end) (List.seq 0 62) = true) as Hall by (vm_compute; reflexivity).
  rewrite forallb_forall in Hall.
  specialize (Hall (Z.to_nat n)). rewrite in_seq in Hall. specialize (Hall ltac:(lia)).
  unfold digitAt. destruct (String.get (Z.to_nat n) DIGITS) as [c|]; [|done].
  exists c. split; [done|].
  destruct (index_of c DIGITS) as [v|]; [|done]. apply Z.eqb_eq in Hall. f_equal. lia.
Qed.

Lemma digit_lt c d m n r s :
  index_of c DIGITS = Some m -> index_of d DIGITS = Some n -> m < n ->
  String c r <s String d s.
Proof.
  intros Hc Hd Hlt. apply index_of_DIGITS_spec in Hc as (? & Hc & _), Hd as (? & Hd & _).
  apply str_lt_cons. left. rewrite Hc, Hd. by apply digit_code_lt.
Qed.

(** ** Suffixes at an index *)

Lemma get_drop i s : String.get i s =
  match str_drop i s with String c _ => Some c | EmptyString => None end.
Proof. revert s. induction i as [|i IH]; intros [|c s]; simpl; auto. Qed.

Lemma str_drop_S i s c r : str_drop i s = String c r -> str_drop (S i) s = r.
Proof.
  revert s. induction i as [|i IH]; intros [|d s]; simpl; try done.
  - by intros [= -> ->].
  - intros H. by apply IH.
Qed.

Lemma str_drop_S_nil i s : str_drop i s = "" -> str_drop (S i) s = "".
Proof.
  revert s. induction i as [|i IH]; intros [|d s]; simpl; try done. intros H. by apply IH.
Qed.

Lemma good_key_cons c s :
  good_key (String c s) = true <->
  (exists n, index_of c DIGITS = Some n /\ (s = "" -> 0 < n)) /\ good_key s = true.
Proof.
  cbn [good_key]. unfold is_digit. destruct (index_of c DIGITS) as [n|] eqn:E.
  - pose proof (index_of_DIGITS_spec _ _ E) as (Hn & _ & _ & H0). split.
    + intros H. js_bool. split; [exists n; split; [done|]; intros ->|done].
      simpl in *. destruct (Ascii.eqb_spec c "0"); [done|]. destruct (decide (n = 0)); [tauto|lia].
    + intros [(m & [= <-] & Hpos) ->]. rewrite andb_true_r. simpl.
      destruct s; [|done]. destruct (Ascii.eqb_spec c "0"); [|done].
      specialize (Hpos eq_refl). assert (n = 0) by tauto. lia.
  - simpl. split; [done|]. by intros [(n & ? & _) _].
Qed.

Lemma good_single n : 0 < n < 62 -> exists c, digitAt n = String c "" /\
  index_of c DIGITS = Some n /\ good_key (String c "") = true.
Proof.
  intros Hn. destruct (digitAt_spec n) as (c & Hc & Hi); [lia|]. exists c.
  split_and!; [done..|]. apply good_key_cons. split; [|done]. exists n. split; [done|lia].
Qed.

Lemma good_cons c k : is_digit c = true -> valid_key k -> valid_key (String c k).
Proof.
  intros Hc [Hne Hk]. split; [done|]. apply good_key_cons. split; [|done].
  unfold is_digit in Hc. destruct (index_of c DIGITS) as [n|]; [|done].
  exists n. split; [done|]. by intros ->.
Qed.

(** ** The loop invariant *)

(** The bound still to be respected at index [i]. *)
Definition lo_at (lo : option string) (i : nat) : string :=
  match lo with Some l => str_drop i l | None => "" end.
Definition hi_at (hi : option string) (i : nat) : option string := str_drop i <$> hi.

Lemma loDigitAt_spec lo i : loDigitAt lo i =
  match lo_at lo i with String c _ => digitIndex c | EmptyString => inr (-1) end.
Proof. destruct lo as [l|]; simpl; [|done]. rewrite get_drop. by destruct (str_drop i l). Qed.

Lemma hiDigitAt_spec hi i : hiDigitAt hi i =
  match hi_at hi i with
  | None => inr BASE
  | Some (String c _) => digitIndex c
  | Some EmptyString => inr (-1)
  end.
Proof. destruct hi as [h|]; simpl; [|done]. rewrite get_drop. by destruct (str_drop i h). Qed.

Definition kb_measure (lo hi : option string) (i : nat) : nat :=
  String.length (lo_at lo i) + opt_length (hi_at hi i).

(** What the loop promises from a state: the prefix extended with a key
    strictly inside the remaining bounds. *)
Definition kb_result (lo : string) (hi : option string) (prefix : string) (r : kb_error + string) : Prop :=
  exists k, r = inr (prefix +:+ k) /\ valid_key k /\ lo <s k /\ above k hi.

Lemma digitIndex_eq c n : index_of c DIGITS = Some n -> digitIndex c = inr n.
Proof. unfold digitIndex. by intros ->. Qed.

(** Prefixing both bounds and the result with one more digit. *)
Lemma kb_result_cons lo hi lo' hi' prefix c n r :
  index_of c DIGITS = Some n ->
  kb_result lo hi (prefix +:+ String c "") r ->
  (forall k, lo <s k -> lo' <s String c k) ->
  (forall k, above k hi -> above (String c k) hi') ->
  kb_result lo' hi' prefix r.
Proof.
  intros Hc (k & -> & Hk & Hlo & Hhi) Hlo' Hhi'. exists (String c k).
  split_and!; auto.
  - f_equal. apply (str_app_assoc _ (String _ "")).
  - apply good_cons; [|done]. unfold is_digit. by rewrite Hc.
Qed.

Lemma kb_result_single lo hi prefix n :
  0 < n < 62 ->
  (forall c, index_of c DIGITS = Some n -> lo <s String c "") ->
  (forall c, index_of c DIGITS = Some n -> above (String c "") hi) ->
  kb_result lo hi prefix (inr (prefix +:+ digitAt n)).
Proof.
  intros Hn Hlo Hhi. destruct (good_single n Hn) as (c & -> & Hc & Hg).
  exists (String c ""). split_and!; auto. split; done.
Qed.

Definition kb_pre (lo hi : option string) (i : nat) : Prop :=
  good_key (lo_at lo i) = true /\
  match hi_at hi i with
  | Some h => good_key h = true /\ lo_at lo i <s h
  | None => True
  end.

Lemma half_bounds n : 1 < n -> 0 < n / 2 < n.
Proof. intros. split; [apply Z.div_str_pos; lia|apply Z.div_lt; lia]. Qed.

Lemma lo_at_S lo i c s : lo_at lo i = String c s -> lo_at lo (S i) = s.
Proof. destruct lo as [l|]; [|done]. by apply str_drop_S. Qed.

Lemma lo_at_S_nil lo i : lo_at lo i = "" -> lo_at lo (S i) = "".
Proof. destruct lo as [l|]; [|done]. by apply str_drop_S_nil. Qed.

Lemma hi_at_S hi i c s : hi_at hi i = Some (String c s) -> hi_at hi (S i) = Some s.
Proof.
  destruct hi as [h|]; [|done]. intros [= H]. unfold hi_at. simpl fmap.
  f_equal. by eapply (str_drop_S i).
Qed.

Lemma eqb_m1 n : 0 <= n -> (n =? -1) = false.
Proof. intros. apply Z.eqb_neq. lia. Qed.

(** One iteration, given that the remaining iterations meet their contract. *)
Section step.
Variable fuel : nat.
Hypothesis IH : forall lo hi prefix i,
  (kb_measure lo hi i < fuel)%nat -> kb_pre lo hi i ->
  kb_result (lo_at lo i) (hi_at hi i) prefix (kb_loop fuel lo hi prefix i).

Variables (lo hi : option string) (prefix : string) (i : nat).
Hypothesis Hfuel : (kb_measure lo hi i < S fuel)%nat.

(** [lo] has no digit at [i]; [hi] has. *)
Lemma kb_step_lo_ended b hs :
  lo_at lo i = "" -> hi_at hi i = Some (String b hs) -> good_key (String b hs) = true ->
  kb_result "" (Some (String b hs)) prefix (kb_loop (S fuel) lo hi prefix i).
Proof using IH Hfuel.
  intros El Eh Hg. unfold kb_measure in Hfuel. rewrite El, Eh in Hfuel. simpl in Hfuel.
  apply good_key_cons in Hg as [(n & Hn & Hpos) Hg].
  cbn [kb_loop]. rewrite loDigitAt_spec, hiDigitAt_spec, El, Eh, (digitIndex_eq _ _ Hn).
  pose proof (index_of_DIGITS_spec _ _ Hn) as (Hr & _ & Hat & _).
  rewrite (eqb_m1 n) by lia. change (-1 =? -1) with true. cbn [andb].
  destruct (Z.ltb_spec 1 n); [|destruct (Z.eqb_spec n 1)].
  - pose proof (half_bounds n ltac:(done)).
    apply kb_result_single; [lia|done|]. intros c Hc. simpl. eapply digit_lt; eauto. lia.
  - subst n. exists (digitAt 0 +:+ START_KEY).
    split_and!; [done|vm_compute; split; congruence|done|].
    simpl. eapply (digit_lt _ _ 0); [vm_compute; reflexivity|done|lia].
  - assert (n = 0) as -> by lia. rewrite Hat.
    eapply (kb_result_cons "" (Some hs)); [done| |done|].
    + rewrite <- (lo_at_S_nil _ _ El), <- (hi_at_S _ _ _ _ Eh). apply IH.
      * unfold kb_measure. rewrite (lo_at_S_nil _ _ El), (hi_at_S _ _ _ _ Eh). simpl. lia.
      * unfold kb_pre. rewrite (lo_at_S_nil _ _ El), (hi_at_S _ _ _ _ Eh).
        split_and!; [done..|]. apply str_lt_nil_l. intros ->. specialize (Hpos eq_refl). lia.
    + intros k Hk. simpl in *. apply str_lt_cons. by right.
Qed.

(** Fixing [lo]'s digit and continuing with no upper bound. *)
Lemma kb_step_unbounded a ls m hi' :
  lo_at lo i = String a ls -> good_key ls = true -> index_of a DIGITS = Some m ->
  (forall k, above (String a k) hi') ->
  kb_result (String a ls) hi' prefix
    (kb_loop fuel (str_drop (S i) <$> lo) None (prefix +:+ digitAt m) 0).
Proof using IH Hfuel.
  intros El Hg Hm Hhi. unfold kb_measure in Hfuel. rewrite El in Hfuel. simpl in Hfuel.
  pose proof (index_of_DIGITS_spec _ _ Hm) as (_ & _ & -> & _).
  assert (lo_at (str_drop (S i) <$> lo) 0 = ls) as El'.
  { rewrite <- (lo_at_S _ _ _ _ El). by destruct lo. }
  eapply (kb_result_cons ls None); [done| |intros k Hk; apply str_lt_cons; by right|done].
  rewrite <- El' at 1. apply (IH _ None).
  - unfold kb_measure. rewrite El'. simpl. lia.
  - unfold kb_pre. by rewrite El'.
Qed.

(** Both have a digit at [i]. *)
Lemma kb_step_both a ls b hs :
  lo_at lo i = String a ls -> hi_at hi i = Some (String b hs) ->
  good_key (String a ls) = true -> good_key (String b hs) = true ->
  String a ls <s String b hs ->
  kb_result (String a ls) (Some (String b hs)) prefix (kb_loop (S fuel) lo hi prefix i).
Proof using IH Hfuel.
  intros El Eh Ha Hb Hlt.
  apply good_key_cons in Ha as [(m & Hm & _) Ha], Hb as [(n & Hn & _) Hb].
  cbn [kb_loop]. rewrite loDigitAt_spec, hiDigitAt_spec, El, Eh.
  rewrite (digitIndex_eq _ _ Hm), (digitIndex_eq _ _ Hn).
  pose proof (index_of_DIGITS_spec _ _ Hm) as (Hrm & Hcm & Hat & _).
  pose proof (index_of_DIGITS_spec _ _ Hn) as (Hrn & Hcn & _).
  rewrite (eqb_m1 m), (eqb_m1 n) by lia. cbn [andb].
  destruct (Z.ltb_spec 1 (n - m)); [|destruct (Z.eqb_spec (n - m) 1)].
  - pose proof (half_bounds (n - m) ltac:(done)).
    apply kb_result_single; [lia| |]; intros c Hc; simpl; eapply digit_lt; eauto; lia.
  - eapply kb_step_unbounded; [done..|]. intros k. simpl. eapply digit_lt; eauto. lia.
  - apply str_lt_cons in Hlt as [Hlt|[-> Hlt]].
    { rewrite Hcm, Hcn in Hlt. apply digit_code_lt in Hlt; lia. }
    rewrite Hat. eapply (kb_result_cons ls (Some hs)); [done| | |].
    + unfold kb_measure in Hfuel. rewrite El, Eh in Hfuel. simpl in Hfuel.
      rewrite <- (lo_at_S _ _ _ _ El), <- (hi_at_S _ _ _ _ Eh). apply IH.
      * unfold kb_measure. rewrite (lo_at_S _ _ _ _ El), (hi_at_S _ _ _ _ Eh). simpl. lia.
      * unfold kb_pre. by rewrite (lo_at_S _ _ _ _ El), (hi_at_S _ _ _ _ Eh).
    + intros k Hk. apply str_lt_cons. by right.
    + intros k Hk. simpl in *. apply str_lt_cons. by right.
Qed.

(** [lo] has a digit at [i]; there is no upper bound. *)
Lemma kb_step_open a ls :
  lo_at lo i = String a ls -> hi_at hi i = None -> good_key (String a ls) = true ->
  kb_result (String a ls) None prefix (kb_loop (S fuel) lo hi prefix i).
Proof using IH Hfuel.
  intros El Eh Ha. apply good_key_cons in Ha as [(m & Hm & _) Ha].
  cbn [kb_loop]. rewrite loDigitAt_spec, hiDigitAt_spec, El, Eh, (digitIndex_eq _ _ Hm).
  pose proof (index_of_DIGITS_spec _ _ Hm) as (Hrm & _ & Hat & _).
  rewrite (eqb_m1 m) by lia. change BASE with 62. change (62 =? -1) with false. cbn [andb].
  destruct (Z.ltb_spec 1 (62 - m)); [|destruct (Z.eqb_spec (62 - m) 1); [|lia]].
  - pose proof (half_bounds (62 - m) ltac:(done)).
    apply kb_result_single; [lia| |done]. intros c Hc. eapply digit_lt; eauto. lia.
  - by eapply kb_step_unbounded.
Qed.
End step.

Lemma kb_loop_spec fuel lo hi prefix i :
  (kb_measure lo hi i < fuel)%nat -> kb_pre lo hi i ->
  kb_result (lo_at lo i) (hi_at hi i) prefix (kb_loop fuel lo hi prefix i).
Proof.
  revert lo hi prefix i.
  induction fuel as [|fuel IH]; intros lo hi prefix i Hfuel [Hlo Hhi]; [lia|].
  destruct (lo_at lo i) as [|a ls] eqn:El, (hi_at hi i) as [[|b hs]|] eqn:Eh.
  - destruct Hhi as [_ Hhi]. by apply str_lt_nil_r in Hhi.
  - destruct Hhi. by eapply kb_step_lo_ended.
  - cbn [kb_loop]. rewrite loDigitAt_spec, hiDigitAt_spec, El, Eh.
    by apply (kb_result_single "" None prefix 31).
  - destruct Hhi as [_ Hhi]. by apply str_lt_nil_r in Hhi.
  - destruct Hhi. by eapply kb_step_both.
  - by eapply kb_step_open.
Qed.

(** ** Termination for arbitrary inputs *)

Lemma digitIndex_range c : (exists e, digitIndex c = inl e /\ e <> OutOfFuel) \/
  exists n, digitIndex c = inr n /\ 0 <= n < 62.
Proof.
  unfold digitIndex. destruct (index_of c DIGITS) as [n|] eqn:E; [right|left; eauto].
  exists n. split; [done|]. by apply index_of_DIGITS_spec in E as [? _].
Qed.

Lemma length_str_drop i s : String.length (str_drop i s) = (String.length s - i)%nat.
Proof. revert s. induction i as [|i IH]; intros [|c s]; simpl; auto. Qed.

Lemma length_lo_at lo i : String.length (lo_at lo i) = (opt_length lo - i)%nat.
Proof. destruct lo; [apply length_str_drop|done]. Qed.

Lemma length_hi_at hi i : opt_length (hi_at hi i) = (opt_length hi - i)%nat.
Proof. destruct hi; [apply length_str_drop|done]. Qed.

Lemma kb_measure_eq lo hi i :
  kb_measure lo hi i = ((opt_length lo - i) + (opt_length hi - i))%nat.
Proof. unfold kb_measure. by rewrite length_lo_at, length_hi_at. Qed.

Lemma opt_length_drop lo i : opt_length (str_drop i <$> lo) = (opt_length lo - i)%nat.
Proof. destruct lo; [apply length_str_drop|done]. Qed.

Lemma loDigitAt_cases lo i :
  (exists e, loDigitAt lo i = inl e /\ e <> OutOfFuel) \/ loDigitAt lo i = inr (-1) \/
  exists n, loDigitAt lo i = inr n /\ 0 <= n < 62 /\ (i < opt_length lo)%nat.
Proof.
  rewrite loDigitAt_spec. pose proof (length_lo_at lo i) as Hl.
  destruct (lo_at lo i) as [|c s]; [auto|]. simpl in Hl.
  destruct (digitIndex_range c) as [(e & -> & ?)|(n & -> & ?)]; [eauto|].
  do 2 right. exists n. split_and!; [done|lia..].
Qed.

Lemma hiDigitAt_cases hi i :
  (exists e, hiDigitAt hi i = inl e /\ e <> OutOfFuel) \/ hiDigitAt hi i = inr (-1) \/
  hiDigitAt hi i = inr BASE \/
  exists n, hiDigitAt hi i = inr n /\ 0 <= n < 62 /\ (i < opt_length hi)%nat.
Proof.
  rewrite hiDigitAt_spec. pose proof (length_hi_at hi i) as Hl.
  destruct (hi_at hi i) as [[|c s]|]; [auto| |auto]. simpl in Hl.
  destruct (digitIndex_range c) as [(e & -> & ?)|(n & -> & ?)]; [eauto|].
  do 3 right. exists n. split_and!; [done|lia..].
Qed.

Lemma kb_loop_fuel fuel lo hi prefix i :
  (kb_measure lo hi i < fuel)%nat -> kb_loop fuel lo hi prefix i <> inl OutOfFuel.
Proof.
  revert lo hi prefix i. induction fuel as [|fuel IH]; intros lo hi prefix i Hm; [lia|].
  rewrite kb_measure_eq in Hm. cbn [kb_loop].
  destruct (loDigitAt_cases lo i) as [(e & -> & ?)|[-> | (m & -> & ?)]]; [congruence|..];
    destruct (hiDigitAt_cases hi i) as [(e' & -> & ?)|[-> | [-> | (n & -> & ?)]]];
    change BASE with 62; try congruence; cbv zeta; repeat case_match; try done;
    js_bool; try lia;
    apply IH; rewrite kb_measure_eq, ?opt_length_drop; simpl; lia.
Qed.

#[local] Arguments kb_loop : simpl never.

Lemma keyBetween_ok lo hi :
  valid_opt lo -> valid_opt hi ->
  match lo, hi with Some l, Some h => l <s h | _, _ => True end ->
  exists k, keyBetween lo hi = inr k /\ valid_key k /\ below lo k /\ above k hi.
Proof.
  intros Hlo Hhi Hlt. unfold keyBetween.
  assert (Hloop : kb_result (lo_at lo 0) (hi_at hi 0) ""
    (kb_loop (S (opt_length lo + opt_length hi)) lo hi "" 0)).
  { apply kb_loop_spec; [unfold kb_measure; destruct lo, hi; simpl; lia|].
    unfold kb_pre. destruct lo as [l|], hi as [h|]; simpl in *; split; try done;
      try apply Hlo; (split; [apply Hhi|]); [done|]. apply str_lt_nil_l, Hhi. }
  destruct lo as [l|], hi as [h|]; simpl in Hloop |- *.
  - unfold str_leb. rewrite (Hlt : str_ltb l h = true). destruct Hloop as (k & ? & ? & ? & ?). eauto.
  - destruct Hloop as (k & ? & ? & ? & ?). eauto.
  - destruct Hloop as (k & ? & ? & ? & ?). eauto.
  - exists START_KEY. split_and!; try done; vm_compute; congruence.
Qed.

(** C1. [keyBetween] meets its contract: for well-formed siblings [lo < hi]
    (either may be absent) it returns a well-formed key strictly between them,
    so keys can be inserted forever without renumbering siblings. *)
Theorem keyBetween_between lo hi :
  valid_opt lo -> valid_opt hi ->
  match lo, hi with Some l, Some h => l <s h | _, _ => True end ->
  exists k, keyBetween lo hi = inr k /\ valid_key k /\ below lo k /\ above k hi.
Proof. apply keyBetween_ok. Qed.

Lemma keyBetween_between_witness :
  valid_key "Vz" /\ valid_key "W" /\ "Vz" <s "W" /\
  exists k, keyBetween (Some "Vz") (Some "W") = inr k /\ valid_key k /\ "Vz" <s k /\ k <s "W".
Proof.
  split_and!; [split; [done|reflexivity]..|reflexivity|].
  apply (keyBetween_between (Some "Vz") (Some "W")); (split; [done|reflexivity]) || reflexivity.
Defined.

(** [keyBetween] terminates on every input, well-formed or not: the fuel
    never runs out; and it refuses [lo >= hi]. *)
Theorem keyBetween_terminates lo hi :
  keyBetween lo hi <> inl OutOfFuel /\
  (forall l h, lo = Some l -> hi = Some h -> h <=s l -> keyBetween lo hi = inl (RequiresLoLtHi l h)).
Proof.
  split.
  - unfold keyBetween. destruct lo as [l|], hi as [h|]; try done;
      try (destruct (str_leb h l); [done|]); apply kb_loop_fuel; unfold kb_measure; simpl; lia.
  - intros l h -> -> Hle. simpl. unfold str_le in Hle. by rewrite Hle.
Qed.

(** A bound ending in ['0'] leaves no room below it. The loop's last-resort
    return, commented as reachable only when [lo === hi], is reached and gives
    a key above [hi]. *)
Example keyBetween_trailing_zero :
  "a" <s "a0" /\ keyBetween (Some "a") (Some "a0") = inr "a0V" /\ "a0" <s "a0V".
Proof. by vm_compute. Qed.
