(* ===== verification/JsMap.v ===== *)
(** * JavaScript [Map] and [Set]

    Both iterate in insertion order, and the program relies on that order
    (write order of a batch, eviction of the oldest entry, listing groups), so
    they are insertion-ordered association lists, not finite maps. [Map.set] on
    a present key keeps its place. The lemmas relate them to lookup, and
    [jm_wf] (distinct keys) is the invariant every operation preserves. *)

From S2P Require Import Prelude.

Definition jmap (K V : Type) : Type := list (K * V).
Definition jset (K : Type) : Type := list K.

Section jmap.
Context {K V : Type} `{EqDecision K}.
Implicit Types (m : jmap K V) (k : K) (v : V).

Fixpoint jm_get m k : option V :=
  match m with
  | [] => None
  | (k', v) :: m' => if decide (k = k') then Some v else jm_get m' k
  end.

Definition jm_has m k : bool := match jm_get m k with Some _ => true | None => false end.

Fixpoint jm_set m k v : jmap K V :=
  match m with
  | [] => [(k, v)]
  | (k', v') :: m' => if decide (k = k') then (k, v) :: m' else (k', v') :: jm_set m' k v
  end.

Fixpoint jm_delete m k : jmap K V :=
  match m with
  | [] => []
  | (k', v') :: m' => if decide (k = k') then m' else (k', v') :: jm_delete m' k
  end.

Definition jm_keys m : list K := m.*1.
Definition jm_values m : list V := m.*2.
Definition jm_of_list (l : list (K * V)) : jmap K V :=
  foldl (fun m kv => jm_set m kv.1 kv.2) [] l.

Definition jm_wf m : Prop := NoDup (jm_keys m).

Lemma jm_get_set m k k' v :
  jm_get (jm_set m k v) k' = if decide (k = k') then Some v else jm_get m k'.
Proof.
  induction m as [|[k'' v''] m IH]; simpl; [by repeat case_decide|].
  destruct (decide (k = k'')) as [->|]; simpl.
  - by repeat case_decide.
  - rewrite IH. by repeat case_decide; subst.
Qed.

Lemma jm_get_set_eq m k v : jm_get (jm_set m k v) k = Some v.
Proof. rewrite jm_get_set. by rewrite decide_True. Qed.
Lemma jm_get_set_ne m k k' v : k <> k' -> jm_get (jm_set m k v) k' = jm_get m k'.
Proof. intros. rewrite jm_get_set. by rewrite decide_False. Qed.

Lemma jm_get_None m k : jm_get m k = None <-> k ∉ jm_keys m.
Proof.
  induction m as [|[k' v'] m IH]; simpl; [split; [intros _; apply not_elem_of_nil|done]|].
  rewrite not_elem_of_cons. case_decide; [|tauto]. split; [done|tauto].
Qed.

Lemma jm_get_Some_elem m k v : jm_get m k = Some v -> (k, v) ∈ m.
Proof.
  induction m as [|[k' v'] m IH]; simpl; [done|]. case_decide as Hk.
  - intros [= ->]. subst. by left.
  - intros H. right. auto.
Qed.

Lemma jm_get_elem m k v : jm_wf m -> (k, v) ∈ m -> jm_get m k = Some v.
Proof.
  unfold jm_wf, jm_keys. induction m as [|[k' v'] m IH]; simpl.
  { intros _ H. by apply not_elem_of_nil in H. }
  intros [Hnin Hnd]%NoDup_cons [[= -> ->]|H]%elem_of_cons; [by rewrite decide_True|].
  rewrite decide_False; [auto|]. intros ->. apply Hnin.
  apply list_elem_of_fmap. by exists (k', v).
Qed.

Lemma jm_keys_set m k v :
  jm_keys (jm_set m k v) = if decide (k ∈ jm_keys m) then jm_keys m else jm_keys m ++ [k].
Proof.
  induction m as [|[k' v'] m IH].
  - done.
  - unfold jm_keys in *. cbn [jm_set]. destruct (decide (k = k')) as [->|]; rewrite !fmap_cons; cbn [fst].
    + clear IH. case_decide as Hk; [done|set_solver].
    + rewrite IH. repeat case_decide; try done; set_solver.
Qed.

Lemma jm_set_wf m k v : jm_wf m -> jm_wf (jm_set m k v).
Proof.
  unfold jm_wf. rewrite jm_keys_set. case_decide; [done|]. intros Hnd.
  apply NoDup_app. split_and!; [done| |apply NoDup_singleton]. set_solver.
Qed.

Lemma jm_get_delete m k k' : jm_wf m ->
  jm_get (jm_delete m k) k' = if decide (k = k') then None else jm_get m k'.
Proof.
  unfold jm_wf, jm_keys. induction m as [|[k'' v''] m IH]; simpl; [by case_decide|].
  intros [Hnin Hnd]%NoDup_cons. destruct (decide (k = k'')) as [->|]; simpl.
  - case_decide as Hk; [subst|by rewrite decide_False].
    by apply jm_get_None.
  - rewrite IH by done. repeat case_decide; by subst.
Qed.

Lemma jm_keys_delete_sub m k : jm_keys (jm_delete m k) `sublist_of` jm_keys m.
Proof.
  unfold jm_keys. induction m as [|[k' v'] m IH]; simpl; [done|].
  case_decide; simpl; [by apply sublist_cons|by apply sublist_skip].
Qed.

Lemma jm_delete_wf m k : jm_wf m -> jm_wf (jm_delete m k).
Proof. unfold jm_wf. intros H. eapply sublist_NoDup; [done|apply jm_keys_delete_sub]. Qed.

Lemma jm_nil_wf : jm_wf [].
Proof. apply NoDup_nil_2. Qed.

Lemma jm_of_list_wf_aux l m : jm_wf m -> jm_wf (foldl (fun m kv => jm_set m kv.1 kv.2) m l).
Proof. revert m. induction l; simpl; auto using jm_set_wf. Qed.
Lemma jm_of_list_wf l : jm_wf (jm_of_list l).
Proof. apply jm_of_list_wf_aux, jm_nil_wf. Qed.
End jmap.

Section jset.
Context {K : Type} `{EqDecision K}.
Implicit Types (s : jset K) (k : K).

Definition js_has s k : bool := bool_decide (k ∈ s).
Definition js_add s k : jset K := if decide (k ∈ s) then s else s ++ [k].
Definition js_of_list (l : list K) : jset K := foldl js_add [] l.

Lemma js_add_elem s k k' : k' ∈ js_add s k <-> k' ∈ s \/ k' = k.
Proof. unfold js_add. case_decide; set_solver. Qed.

Lemma js_add_NoDup s k : NoDup s -> NoDup (js_add s k).
Proof.
  unfold js_add. case_decide; [done|]. intros. apply NoDup_app.
  split_and!; [done|set_solver|apply NoDup_singleton].
Qed.

Lemma js_foldl_add l s k : k ∈ foldl js_add s l <-> k ∈ s \/ k ∈ l.
Proof.
  revert s. induction l as [|a l IH]; intros s; simpl; [set_solver|].
  rewrite IH, js_add_elem. set_solver.
Qed.

Lemma js_of_list_elem l k : k ∈ js_of_list l <-> k ∈ l.
Proof. unfold js_of_list. rewrite js_foldl_add. set_solver. Qed.

Lemma js_foldl_NoDup l s : NoDup s -> NoDup (foldl js_add s l).
Proof. revert s. induction l; simpl; auto using js_add_NoDup. Qed.
Lemma js_of_list_NoDup l : NoDup (js_of_list l).
Proof. apply js_foldl_NoDup, NoDup_nil_2. Qed.
End jset.

#[export] Hint Resolve jm_set_wf jm_delete_wf jm_nil_wf jm_of_list_wf js_add_NoDup js_of_list_NoDup : js.
