(* ===== verification/Types.v ===== *)
(** * Wire types (extension/src/sync/types.ts)

    The enumerations and interfaces that cross the wire, and [jsval], the
    model of TypeScript's [unknown]: what [JSON.parse] or structured cloning
    can produce, plus [undefined]. Numbers in [jsval] are integers, the only
    ones the modelled code computes with. *)

From S2P Require Import Prelude JsMap.

Open Scope Z_scope.

(** ** Dynamically typed values *)

Inductive jsval :=
  | JUndef
  | JNull
  | JBool (b : bool)
  | JNum (n : Z)
  | JStr (s : string)
  | JArr (l : list jsval)
  | JObj (fs : list (string * jsval)).

(** [o[k]] on an object value; [undefined] on a missing property. *)
Definition jget (v : jsval) (k : string) : jsval :=
  match v with JObj fs => default JUndef (jm_get fs k) | _ => JUndef end.

Lemma jget_here k v fs : jget (JObj ((k, v) :: fs)) k = v.
Proof. unfold jget. simpl. by rewrite decide_True. Qed.
Lemma jget_skip k k' v fs : String.eqb k k' = false -> jget (JObj ((k', v) :: fs)) k = jget (JObj fs) k.
Proof. intros H%String.eqb_neq. unfold jget. simpl. by rewrite decide_False. Qed.

(** Reads of literal properties off a literal object. *)
Ltac jget_simpl :=
  repeat first [rewrite jget_here | rewrite jget_skip by reflexivity].

(** [typeof v === "object" && v !== null] *)
Definition is_object (v : jsval) : bool :=
  match v with JArr _ | JObj _ => true | _ => false end.
Definition is_string (v : jsval) : bool := match v with JStr _ => true | _ => false end.
Definition is_number (v : jsval) : bool := match v with JNum _ => true | _ => false end.
Definition is_array (v : jsval) : bool := match v with JArr _ => true | _ => false end.
Definition as_string (v : jsval) : option string := match v with JStr s => Some s | _ => None end.

(** [v === s] for a string [s]. *)
Definition js_eq_str (v : jsval) (s : string) : bool :=
  match v with JStr s' => String.eqb s' s | _ => false end.

(** [v === n] for a number [n]. *)
Definition js_eq_num (v : jsval) (n : Z) : bool :=
  match v with JNum n' => Z.eqb n' n | _ => false end.

(** Truthiness, as in [if (v)] or [!!v]. *)
Definition truthy (v : jsval) : bool :=
  match v with
  | JUndef | JNull => false
  | JBool b => b
  | JNum n => negb (n =? 0)
  | JStr s => negb (String.eqb s "")
  | JArr _ | JObj _ => true
  end.

(** A string or [undefined] / [null], as a value. *)
Definition of_opt_str (o : option string) : jsval := from_option JStr JUndef o.
Definition of_null_str (o : option string) : jsval := from_option JStr JNull o.

(** ** Enumerations *)

Inductive ObjectType :=
  | OtBookmark | OtBookmarkFolder | OtHistoryVisit | OtTab | OtWindow | OtTabGroup
  | OtExtensionMeta | OtExtensionStorageEntry.

Inductive OperationType :=
  | OpCreate | OpUpdate | OpMove | OpDelete | OpRestore | OpVisit | OpBulkImport
  | OpClose | OpActivate | OpObserve | OpSet.

#[export] Instance ObjectType_eq_dec : EqDecision ObjectType.
Proof. solve_decision. Defined.
#[export] Instance OperationType_eq_dec : EqDecision OperationType.
Proof. solve_decision. Defined.

Definition ObjectType_str (t : ObjectType) : string :=
  match t with
  | OtBookmark => "bookmark" | OtBookmarkFolder => "bookmarkFolder"
  | OtHistoryVisit => "historyVisit" | OtTab => "tab" | OtWindow => "window"
  | OtTabGroup => "tabGroup" | OtExtensionMeta => "extensionMeta"
  | OtExtensionStorageEntry => "extensionStorageEntry"
  end.

Definition OperationType_str (t : OperationType) : string :=
  match t with
  | OpCreate => "create" | OpUpdate => "update" | OpMove => "move" | OpDelete => "delete"
  | OpRestore => "restore" | OpVisit => "visit" | OpBulkImport => "bulkImport"
  | OpClose => "close" | OpActivate => "activate" | OpObserve => "observe" | OpSet => "set"
  end.

#[export] Instance ObjectType_str_inj : Inj (=) (=) ObjectType_str.
Proof. intros [] []; simpl; congruence. Qed.
#[export] Instance OperationType_str_inj : Inj (=) (=) OperationType_str.
Proof. intros [] []; simpl; congruence. Qed.

(** ** Operations *)

Record OperationOut := mkOperationOut {
  out_operationId : string;
  out_deviceId : string;
  out_deviceSequence : Z;
  out_lamportTimestamp : Z;
  out_objectType : ObjectType;
  out_objectId : string;
  out_operationType : OperationType;
  out_encryptionVersion : Z;
  out_payload : jsval;
  out_serverCursor : Z;
  out_createdAt : string;
}.

(** A locally-created operation, pre-upload. *)
Record LocalOperation := mkLocalOperation {
  operationId : string;
  deviceSequence : Z;
  lamportTimestamp : Z;
  objectType : ObjectType;
  objectId : string;
  operationType : OperationType;
  encryptionVersion : Z;
  payload : jsval;
  visitCount : option Z;
  visitHours : option (jmap string Z);
}.

(** ** Upload, download and snapshot messages *)

Record UploadRejection := mkUploadRejection {
  rej_operationId : string;
  rej_reason : string;
}.

Record UploadResponse := mkUploadResponse {
  accepted : list string;
  duplicate : list string;
  rejected : list UploadRejection;
  up_serverCursor : Z;
}.

Record DownloadResponse := mkDownloadResponse {
  down_operations : list OperationOut;
  down_nextCursor : Z;
  down_hasMore : bool;
}.

(** The ordering key fields are optional: an older server omits them. *)
Record SnapshotObject := mkSnapshotObject {
  so_objectType : ObjectType;
  so_objectId : string;
  so_operationType : OperationType;
  so_encryptionVersion : Z;
  so_payload : jsval;
  so_lamportTimestamp : option Z;
  so_deviceId : option string;
  so_operationId : option string;
}.

Record SnapshotTombstone := mkSnapshotTombstone {
  st_objectType : ObjectType;
  st_objectId : string;
}.

Record SnapshotResponse := mkSnapshotResponse {
  snapshotCursor : Z;
  sn_objects : list SnapshotObject;
  sn_tombstones : list SnapshotTombstone;
}.

(** ** Payloads *)

Record BookmarkPayload := mkBookmarkPayload {
  bp_title : string;
  bp_url : option string;     (** [null] for folders *)
  bp_parent : option string;  (** objectId of the parent folder *)
  bp_position : string;       (** fractional index key *)
}.

Record TabPayload := mkTabPayload {
  tp_url : string;
  tp_title : option string;
  tp_pinned : bool;
  tp_index : Z;
  tp_windowObjectId : string;
  tp_active : bool;
  tp_groupObjectId : option (option string);  (** absent, [null] or an objectId *)
}.

Record WindowPayload := mkWindowPayload {
  wp_focused : bool;
  wp_incognito : bool;
  wp_state : option string;
}.

Record TabGroupPayload := mkTabGroupPayload {
  gp_title : option string;
  gp_color : option string;
  gp_collapsed : bool;
}.

#[export] Instance BookmarkPayload_eq_dec : EqDecision BookmarkPayload.
Proof. solve_decision. Defined.
#[export] Instance TabPayload_eq_dec : EqDecision TabPayload.
Proof. solve_decision. Defined.
#[export] Instance TabGroupPayload_eq_dec : EqDecision TabGroupPayload.
Proof. solve_decision. Defined.

(** One URL's visits inside a v2 bulk segment. *)
Record BulkVisitGroup := mkBulkVisitGroup {
  bg_u : string;
  bg_t : option string;
  bg_v : list Z;
}.

(** The value a bookmark payload is sent and stored as. *)
Definition bookmark_jsval (p : BookmarkPayload) : jsval :=
  JObj [("title", JStr (bp_title p)); ("url", of_null_str (bp_url p));
        ("parent", of_null_str (bp_parent p)); ("position", JStr (bp_position p))].

(** The value of a bookmark's ["move"] field. *)
Definition move_jsval (parent : option string) (position : string) : jsval :=
  JObj [("parent", of_null_str parent); ("position", JStr position)].

(** ** Bulk containers (extension/src/sync/bulk-container.ts) *)

Definition isBulkContainer (p : jsval) : bool :=
  is_object p &&
  ((js_eq_num (jget p "bulkVersion") 1 || js_eq_num (jget p "bulkVersion") 2) &&
   is_number (jget p "visitCount") && is_array (jget p "segments")).

(** * The account's settings (extension/src/api/client.ts)

    What the API client gives the adapters, and the request they make. *)

(** As the server sent them: what an older server leaves out is [None]. *)
Record UserSettingsDto := mkSettings {
  syncBookmarks : option bool;
  syncHistory : option bool;
  syncTabs : option bool;
  syncTabGroups : option bool;
  syncExtensions : option bool;
  tabRestorePolicy : option string;
  historyRetention : option string;
  requireEncryption : option bool;
  restorePointsAutomatic : option bool;
}.

(** [fetchSettings({ fresh })], as a call from a component with state [St] and
    errors [E]. ApiClient has the request itself. *)
Class SettingsApi (E St : Type) := {
  fetchSettings : bool -> St -> (E + UserSettingsDto) * St;
}.

(** [fetchTabRestorePolicy()] *)
Class PolicyApi (E St : Type) := {
  fetchTabRestorePolicy : St -> (E + option string) * St;
}.

(** [flag !== false] *)
Definition not_off (flag : option bool) : bool := default true flag.
