(* ===== verification/Util.v ===== *)
(** * Small utilities (extension/src/util: chunk, retention, uuid, url-scheme)

    [slices] is the [for (i = 0; i < n; i += size) ... slice(i, i + size)] loop
    that [chunk] and most batched database code share. *)

From S2P Require Import Prelude JsMap Types.

Open Scope Z_scope.
Open Scope js_scope.

(** ** chunk.ts *)

Fixpoint slices_from {A} (fuel : nat) (l : list A) (size i : nat) : list (list A) :=
  match fuel with
  | O => []
  | S fuel =>
      if Nat.ltb i (length l) then slice l i (i + size) :: slices_from fuel l size (i + size)
      else []
  end.

Definition slices {A} (l : list A) (size : nat) : list (list A) :=
  slices_from (length l) l size 0.

Inductive chunk_error := ChunkSizeNotPositive (size : Z).

Definition chunk {A} (items : list A) (size : Z) : chunk_error + list (list A) :=
  if size <=? 0 then inl (ChunkSizeNotPositive size)
  else inr (slices items (Z.to_nat size)).

Lemma slices_from_concat {A} fuel (l : list A) size i :
  (0 < size)%nat -> (length l - i <= fuel)%nat ->
  concat (slices_from fuel l size i) = drop i l.
Proof.
  intros Hs. revert i. induction fuel as [|fuel IH]; intros i Hf; simpl.
  - rewrite drop_ge; [done|lia].
  - destruct (Nat.ltb_spec i (length l)) as [Hi|Hi]; [|by rewrite drop_ge].
    simpl. rewrite IH by lia. unfold slice.
    replace (i + size - i)%nat with size by lia.
    rewrite <- (take_drop size (drop i l)) at 2. by rewrite drop_drop.
Qed.

Lemma slices_concat {A} (l : list A) size : (0 < size)%nat -> concat (slices l size) = l.
Proof. intros. unfold slices. rewrite slices_from_concat by (done || lia). done. Qed.

Lemma slices_from_length {A} fuel (l : list A) size i s :
  (0 < size)%nat -> s ∈ slices_from fuel l size i -> (0 < length s <= size)%nat.
Proof.
  intros Hs. revert i. induction fuel as [|fuel IH]; intros i; simpl; [by intros ?%not_elem_of_nil|].
  destruct (Nat.ltb_spec i (length l)) as [Hi|Hi]; [|by intros ?%not_elem_of_nil].
  intros [->|?]%elem_of_cons; [|eauto].
  unfold slice. rewrite length_take, length_drop. lia.
Qed.

(** Folding slice by slice is folding the whole list. *)
Lemma foldl_slices {A B} (f : B -> A -> B) (l : list A) size b :
  (0 < size)%nat -> foldl (foldl f) b (slices l size) = foldl f b l.
Proof.
  intros Hs. rewrite <- (slices_concat l size Hs) at 2. generalize (slices l size) as ls.
  intros ls. revert b. induction ls as [|x ls IH]; intros b; simpl; [done|].
  by rewrite foldl_app, IH.
Qed.

(** ** retention.ts *)

Definition retentionDays (retention : option string) : option Z :=
  match retention with
  | Some r =>
      if String.eqb r "7d" then Some 7 else if String.eqb r "30d" then Some 30
      else if String.eqb r "90d" then Some 90 else if String.eqb r "1y" then Some 365 else None
  | None => None
  end.

Definition retentionCutoffMs (now : Z) (retention : option string) : Z :=
  match retentionDays retention with
  | None => 0
  | Some days => now - days * 24 * 60 * 60 * 1000
  end.

(** ** url-scheme.ts

    The WHATWG URL parser is the platform's: [url_protocol] and [url_href] are
    [new URL(u).protocol] and [new URL(u).href], [None] when it throws. *)

Class UrlParser := {
  url_protocol : string -> option string;
  url_href : string -> option string;
}.

Definition isSyncableUrl `{UrlParser} (url : string) : bool :=
  match url_protocol url with
  | Some p => String.eqb p "http:" || String.eqb p "https:"
  | None => false
  end.

(** A parser good enough to evaluate examples: it recognises the two schemes. *)
Definition example_url_parser : UrlParser := {|
  url_protocol u := if String.prefix "https://" u then Some "https:"
                    else if String.prefix "http://" u then Some "http:" else None;
  url_href u := Some u;
|}.

(** ** uuid.ts *)

Definition HEX_DIGITS : string := "0123456789abcdef".
Definition hex_digit (n : Z) : string :=
  match String.get (Z.to_nat n) HEX_DIGITS with Some c => String c EmptyString | None => EmptyString end.

(** [HEX_TABLE[b]] *)
Definition HEX_TABLE (b : Z) : string := hex_digit (b / 16) +:+ hex_digit (b mod 16).

Definition byte_at (bytes : list Z) (i : nat) : Z := nth i bytes 0.

Definition bytesToUuidHex (bytes : list Z) : string :=
  let h i := HEX_TABLE (byte_at bytes i) in
  h 0%nat +:+ h 1%nat +:+ h 2%nat +:+ h 3%nat +:+ "-" +:+ h 4%nat +:+ h 5%nat +:+ "-" +:+
  h 6%nat +:+ h 7%nat +:+ "-" +:+ h 8%nat +:+ h 9%nat +:+ "-" +:+
  h 10%nat +:+ h 11%nat +:+ h 12%nat +:+ h 13%nat +:+ h 14%nat +:+ h 15%nat.

(** [random] is what [crypto.getRandomValues] filled the buffer with, [now] is
    [Date.now()]. *)
Definition uuidv7_bytes (random : list Z) (now : Z) : list Z :=
  [ Z.land (Z.shiftr now 40) 255; Z.land (Z.shiftr now 32) 255; Z.land (Z.shiftr now 24) 255;
    Z.land (Z.shiftr now 16) 255; Z.land (Z.shiftr now 8) 255; Z.land now 255;
    Z.lor 112 (Z.land (byte_at random 6) 15); byte_at random 7;
    Z.lor 128 (Z.land (byte_at random 8) 63); byte_at random 9;
    byte_at random 10; byte_at random 11; byte_at random 12; byte_at random 13;
    byte_at random 14; byte_at random 15 ].

Definition uuidv7 (random : list Z) (now : Z) : string := bytesToUuidHex (uuidv7_bytes random now).

(** [digest] is [crypto.subtle.digest("SHA-256", utf8(data))]. *)
Definition deterministicUuid (digest : string -> list Z) (parts : list string) : string :=
  let data := String.concat (String "000"%char EmptyString) parts in
  let bytes := take 16 (digest data) in
  bytesToUuidHex (<[8%nat := Z.lor 128 (Z.land (byte_at bytes 8) 63)]>
    (<[6%nat := Z.lor 80 (Z.land (byte_at bytes 6) 15)]> bytes)).

(** *** Hex digits and their order *)

Definition is_byte (b : Z) : Prop := 0 <= b < 256.

Lemma hex_digit_spec n : 0 <= n < 16 ->
  exists c, hex_digit n = String c "" /\ N_of_ascii c = Z.to_N (if n <? 10 then 48 + n else 87 + n).
Proof.
  intros Hn.
  assert (forallb (fun k => match hex_digit (Z.of_nat k) with
     | String c "" => N.eqb (N_of_ascii c) (Z.to_N (if Z.of_nat k <? 10 then 48 + Z.of_nat k else 87 + Z.of_nat k))
     | _ => false end) (List.seq 0 16) = true) as Hall by (vm_compute; reflexivity).
  rewrite forallb_forall in Hall. specialize (Hall (Z.to_nat n)). rewrite in_seq in Hall.
  rewrite Z2Nat.id in Hall by lia. specialize (Hall ltac:(lia)).
  destruct (hex_digit n) as [|c [|]]; try done. exists c. split; [done|]. by apply N.eqb_eq.
Qed.

Lemma hex_digit_lt m n s t : 0 <= m < 16 -> 0 <= n < 16 -> m < n ->
  hex_digit m +:+ s <s hex_digit n +:+ t.
Proof.
  intros Hm Hn Hlt. destruct (hex_digit_spec m Hm) as (c & -> & Hc).
  destruct (hex_digit_spec n Hn) as (d & -> & Hd).
  apply str_lt_cons. left. rewrite Hc, Hd.
  destruct (Z.ltb_spec m 10), (Z.ltb_spec n 10); lia.
Qed.

Lemma byte_nibbles b : is_byte b -> 0 <= b / 16 < 16 /\ 0 <= b mod 16 < 16.
Proof.
  unfold is_byte. intros. split; [|apply Z.mod_pos_bound; lia].
  split; [apply Z.div_pos; lia|apply Z.div_lt_upper_bound; lia].
Qed.

Lemma HEX_TABLE_lt a b s t : is_byte a -> is_byte b -> a < b ->
  HEX_TABLE a +:+ s <s HEX_TABLE b +:+ t.
Proof.
  intros Ha Hb Hlt. destruct (byte_nibbles a Ha), (byte_nibbles b Hb).
  unfold HEX_TABLE. rewrite !str_app_assoc.
  pose proof (Z.div_mod a 16 ltac:(lia)). pose proof (Z.div_mod b 16 ltac:(lia)).
  destruct (decide (a / 16 = b / 16)) as [E|]; [|apply hex_digit_lt; lia].
  rewrite E. apply str_lt_app_l, hex_digit_lt; lia.
Qed.

Lemma HEX_TABLE_app_inj a b s t : is_byte a -> is_byte b ->
  HEX_TABLE a +:+ s = HEX_TABLE b +:+ t -> a = b /\ s = t.
Proof.
  intros Ha Hb Heq. destruct (Z.lt_trichotomy a b) as [H|[->|H]].
  - pose proof (HEX_TABLE_lt a b s t Ha Hb H) as Hl. rewrite Heq in Hl. by destruct (str_lt_irrefl _ Hl).
  - split; [done|]. revert Heq. destruct (byte_nibbles b Hb) as [H1 H2]. unfold HEX_TABLE.
    destruct (hex_digit_spec _ H1) as (c & -> & _), (hex_digit_spec _ H2) as (d & -> & _).
    intros E. exact (f_equal (fun x => match x with String _ (String _ r) => r | _ => "" end) E).
  - pose proof (HEX_TABLE_lt b a t s Hb Ha H) as Hl. rewrite Heq in Hl. by destruct (str_lt_irrefl _ Hl).
Qed.

Lemma byte_shift_is_byte n k : is_byte (Z.land (Z.shiftr n k) 255).
Proof. unfold is_byte. change 255 with (Z.ones 8). rewrite Z.land_ones by lia. apply Z.mod_pos_bound. lia. Qed.
Lemma byte_land_is_byte n : is_byte (Z.land n 255).
Proof. rewrite <- (Z.shiftr_0_r n). apply byte_shift_is_byte. Qed.

(** Bytes [k] of a 48-bit timestamp, by division. *)
Lemma byte_of_shift n k : 0 <= k -> Z.land (Z.shiftr n k) 255 = (n / 2 ^ k) mod 256.
Proof. intros. change 255 with (Z.ones 8). rewrite Z.land_ones, Z.shiftr_div_pow2 by lia. done. Qed.

(** Two timestamps that agree on every byte above position [k] and whose byte
    at [k] differs compare as that byte does. *)
Lemma div_step n k : 0 <= k -> n / 2 ^ k = 256 * (n / 2 ^ (k + 8)) + (n / 2 ^ k) mod 256.
Proof.
  intros. rewrite Z.pow_add_r, <- Z.div_div by lia. change (2 ^ 8) with 256. apply Z.div_mod. lia.
Qed.

(** Compare the next byte of two ids: decided by it, or equal and dropped. *)
Ltac uuid_byte Hb k :=
  match goal with
  | |- HEX_TABLE (?B ?t1 k) +:+ ?s <s HEX_TABLE (?B ?t2 k) +:+ ?t =>
      destruct (Z.lt_trichotomy (B t1 k) (B t2 k)) as [?|[?|?]];
      [apply HEX_TABLE_lt; [apply Hb|apply Hb|done]|replace (B t1 k) with (B t2 k) by done; apply str_lt_app_l|exfalso; lia]
  end.

(** UUIDv7 identifiers sort by creation time: of two ids minted at
    different milliseconds (below 2^48), the later one is the larger string,
    whatever the random bits are. *)
Theorem uuidv7_time_ordered r1 r2 t1 t2 :
  0 <= t1 -> t1 < t2 -> t2 < 2 ^ 48 -> uuidv7 r1 t1 <s uuidv7 r2 t2.
Proof.
  intros H0 Hlt Hmax. unfold uuidv7, bytesToUuidHex, uuidv7_bytes, byte_at. cbn [nth].
  set (B t k := Z.land (Z.shiftr t k) 255).
  assert (Hb : forall t k, is_byte (B t k)) by (intros; apply byte_shift_is_byte).
  repeat match goal with |- context [Z.land (Z.shiftr ?t ?k) 255] => change (Z.land (Z.shiftr t k) 255) with (B t k) end.
  change (Z.land t1 255) with (B t1 0). change (Z.land t2 255) with (B t2 0).
  set (Q t k := t / 2 ^ k).
  assert (HB : forall t k, 0 <= k -> Q t k = 256 * Q t (k + 8) + B t k).
  { intros. unfold Q, B. rewrite byte_of_shift by done. by apply div_step. }
  assert (HQ1 : Q t1 0 = t1 /\ Q t1 48 = 0) by (unfold Q; rewrite Z.div_1_r, Z.div_small by lia; done).
  assert (HQ2 : Q t2 0 = t2 /\ Q t2 48 = 0) by (unfold Q; rewrite Z.div_1_r, Z.div_small by lia; done).
  clearbody B Q.
  pose proof (HB t1 0 ltac:(done)). pose proof (HB t2 0 ltac:(done)).
  pose proof (HB t1 8 ltac:(done)). pose proof (HB t2 8 ltac:(done)).
  pose proof (HB t1 16 ltac:(done)). pose proof (HB t2 16 ltac:(done)).
  pose proof (HB t1 24 ltac:(done)). pose proof (HB t2 24 ltac:(done)).
  pose proof (HB t1 32 ltac:(done)). pose proof (HB t2 32 ltac:(done)).
  pose proof (HB t1 40 ltac:(done)). pose proof (HB t2 40 ltac:(done)).
  change (0 + 8) with 8 in *. change (8 + 8) with 16 in *. change (16 + 8) with 24 in *.
  change (24 + 8) with 32 in *. change (32 + 8) with 40 in *. change (40 + 8) with 48 in *.
  assert (Hk : forall k, 0 <= B t1 k < 256 /\ 0 <= B t2 k < 256) by (split; apply Hb).
  pose proof (Hk 0). pose proof (Hk 8). pose proof (Hk 16). pose proof (Hk 24). pose proof (Hk 32). pose proof (Hk 40).
  uuid_byte Hb 40. uuid_byte Hb 32. uuid_byte Hb 24. uuid_byte Hb 16. apply (str_lt_app_l "-").
  uuid_byte Hb 8. uuid_byte Hb 0. exfalso. lia.
Qed.

Lemma uuidv7_time_ordered_witness :
  uuidv7 [] 1000 <s uuidv7 (repeat 255 16) 1001.
Proof. apply (uuidv7_time_ordered [] (repeat 255 16) 1000 1001); vm_compute; congruence. Defined.

Definition byte_list (l : list Z) : Prop := length l = 16%nat /\ Forall is_byte l.

(** Printing sixteen bytes as a UUID loses nothing. *)
Lemma bytesToUuidHex_inj l1 l2 : byte_list l1 -> byte_list l2 ->
  bytesToUuidHex l1 = bytesToUuidHex l2 -> l1 = l2.
Proof.
  intros [Hl1 Hb1] [Hl2 Hb2].
  do 16 (destruct l1 as [|? l1]; [done|]). destruct l1; [|done].
  do 16 (destruct l2 as [|? l2]; [done|]). destruct l2; [|done].
  rewrite !Forall_cons in Hb1, Hb2. destruct_and!.
  unfold bytesToUuidHex, byte_at. cbn [nth]. intros Heq.
  repeat first
    [ apply HEX_TABLE_app_inj in Heq; [|assumption..]; destruct Heq as [-> Heq]
    | apply (inj (String.append "-")) in Heq ].
  rewrite <- (str_app_nil_r (HEX_TABLE _)), <- (str_app_nil_r (HEX_TABLE z30)) in Heq.
  apply HEX_TABLE_app_inj in Heq as [-> _]; done.
Qed.
