(* ===== verification/Json.v ===== *)
(** * JSON (the language's [JSON.stringify] and [JSON.parse])

    The wire, the ciphertexts and the restore points carry JSON text. A string
    is its UTF-8 bytes. Numbers are the integers of [jsval]: a text with a
    fraction or an exponent has no value here. The order of integer-like
    property names, which JavaScript moves to the front, is not modelled. *)

From S2P Require Import Prelude JsMap Types Util.

Open Scope Z_scope.
Open Scope js_scope.

Definition ascii_byte (c : ascii) : Z := Z.of_N (N_of_ascii c).
Definition byte_ascii (b : Z) : ascii := ascii_of_N (Z.to_N b).

(** ** [JSON.stringify] *)

Definition hex4 (n : Z) : string := "00" +:+ HEX_TABLE n.

Definition dquote : string := String (ascii_of_nat 34) "".

Definition json_escape (c : ascii) : string :=
  let n := ascii_byte c in
  if n =? 34 then "\" +:+ dquote
  else if n =? 92 then "\\"
  else if n =? 8 then "\b" else if n =? 9 then "\t" else if n =? 10 then "\n"
  else if n =? 12 then "\f" else if n =? 13 then "\r"
  else if n <? 32 then "\u" +:+ hex4 n
  else String c "".

Fixpoint json_chars (s : string) : string :=
  match s with
  | "" => ""
  | String c s => json_escape c +:+ json_chars s
  end.

Definition json_string (s : string) : string := dquote +:+ json_chars s +:+ dquote.

Definition digit_ascii (d : Z) : ascii := byte_ascii (48 + d).
Fixpoint json_nat (fuel : nat) (n : Z) (acc : string) : string :=
  match fuel with
  | O => acc
  | S fuel =>
      let acc := String (digit_ascii (n mod 10)) acc in
      if n <? 10 then acc else json_nat fuel (n / 10) acc
  end.
Definition json_num (n : Z) : string :=
  if n <? 0 then "-" +:+ json_nat 400 (- n) "" else json_nat 400 n "".

Definition sep (first : bool) : string := if first then "" else ",".

(** [undefined] is [null] inside an array and left out of an object. *)
Fixpoint JSON_stringify (v : jsval) : string :=
  match v with
  | JUndef | JNull => "null"
  | JBool b => if b then "true" else "false"
  | JNum n => json_num n
  | JStr s => json_string s
  | JArr l =>
      "[" +:+ (fix go (first : bool) l := match l with
               | [] => ""
               | v :: l => sep first +:+ JSON_stringify v +:+ go false l
               end) true l +:+ "]"
  | JObj fs =>
      "{" +:+ (fix go (first : bool) fs := match fs with
               | [] => ""
               | (k, JUndef) :: fs => go first fs
               | (k, v) :: fs => sep first +:+ json_string k +:+ ":" +:+ JSON_stringify v +:+ go false fs
               end) true fs +:+ "}"
  end.

(** ** [JSON.parse] *)

Definition is_ws (c : ascii) : bool :=
  let n := ascii_byte c in (n =? 32) || (n =? 9) || (n =? 10) || (n =? 13).

Fixpoint skip_ws (s : string) : string :=
  match s with
  | String c s' => if is_ws c then skip_ws s' else s
  | "" => ""
  end.

(** *** Strings *)

Definition hex_value (c : ascii) : option Z :=
  let n := ascii_byte c in
  if (48 <=? n) && (n <=? 57) then Some (n - 48)
  else if (97 <=? n) && (n <=? 102) then Some (n - 87)
  else if (65 <=? n) && (n <=? 70) then Some (n - 55)
  else None.

Definition hex4_value (a b c d : ascii) : option Z :=
  match hex_value a, hex_value b, hex_value c, hex_value d with
  | Some a, Some b, Some c, Some d => Some (((a * 16 + b) * 16 + c) * 16 + d)
  | _, _, _, _ => None
  end.

Definition simple_escape (c : ascii) : option ascii :=
  let n := ascii_byte c in
  if (n =? 34) || (n =? 92) || (n =? 47) then Some c
  else if n =? 98 then Some (byte_ascii 8) else if n =? 116 then Some (byte_ascii 9)
  else if n =? 110 then Some (byte_ascii 10) else if n =? 102 then Some (byte_ascii 12)
  else if n =? 114 then Some (byte_ascii 13) else None.

(** A character as written, or an escaped UTF-16 code unit. *)
Inductive junit := Raw (c : ascii) | Code (n : Z).

(** The characters of a string whose opening quote is behind us. *)
Fixpoint parse_units (s : string) : option (list junit * string) :=
  match s with
  | "" => None
  | String c s =>
      if ascii_byte c =? 34 then Some ([], s)
      else if ascii_byte c =? 92 then
        match s with
        | "" => None
        | String e s =>
            if ascii_byte e =? 117 then
              match s with
              | String h1 (String h2 (String h3 (String h4 s))) =>
                  match hex4_value h1 h2 h3 h4, parse_units s with
                  | Some n, Some (us, r) => Some (Code n :: us, r)
                  | _, _ => None
                  end
              | _ => None
              end
            else match simple_escape e, parse_units s with
                 | Some c, Some (us, r) => Some (Raw c :: us, r)
                 | _, _ => None
                 end
        end
      else if ascii_byte c <? 32 then None
      else match parse_units s with
           | Some (us, r) => Some (Raw c :: us, r)
           | None => None
           end
  end.

Definition utf8_of_code (n : Z) : string :=
  string_of_list_ascii (map byte_ascii
    (if n <? 128 then [n]
     else if n <? 2048 then [192 + n / 64; 128 + n mod 64]
     else if n <? 65536 then [224 + n / 4096; 128 + n / 64 mod 64; 128 + n mod 64]
     else [240 + n / 262144; 128 + n / 4096 mod 64; 128 + n / 64 mod 64; 128 + n mod 64])).

Definition is_high (n : Z) : bool := (55296 <=? n) && (n <? 56320).
Definition is_low (n : Z) : bool := (56320 <=? n) && (n <? 57344).

(** A surrogate pair is one character. *)
Fixpoint units_string (us : list junit) : string :=
  match us with
  | [] => ""
  | Raw c :: us => String c (units_string us)
  | Code n :: ((Code m :: us'') as us') =>
      if is_high n && is_low m
      then utf8_of_code (65536 + (n - 55296) * 1024 + (m - 56320)) +:+ units_string us''
      else utf8_of_code n +:+ units_string us'
  | Code n :: us => utf8_of_code n +:+ units_string us
  end.

Definition parse_string (s : string) : option (string * string) :=
  match parse_units s with Some (us, r) => Some (units_string us, r) | None => None end.

(** *** Numbers *)

Definition digit_value (c : ascii) : option Z :=
  let n := ascii_byte c in if (48 <=? n) && (n <=? 57) then Some (n - 48) else None.

Fixpoint parse_digits (acc : Z) (s : string) : Z * string :=
  match s with
  | String c s' => match digit_value c with Some d => parse_digits (acc * 10 + d) s' | None => (acc, s) end
  | "" => (acc, s)
  end.

(** A fraction or an exponent follows. *)
Definition not_integral (s : string) : bool :=
  match s with
  | String c _ => let n := ascii_byte c in (n =? 46) || (n =? 101) || (n =? 69)
  | "" => false
  end.

Definition parse_nat (s : string) : option (Z * string) :=
  match s with
  | String c s =>
      match digit_value c with
      | Some d =>
          let '(n, r) := if d =? 0 then (0, s) else parse_digits d s in
          if not_integral r then None else Some (n, r)
      | None => None
      end
  | "" => None
  end.

Definition parse_number (s : string) : option (Z * string) :=
  match s with
  | String c s' =>
      if ascii_byte c =? 45
      then match parse_nat s' with Some (n, r) => Some (- n, r) | None => None end
      else parse_nat s
  | "" => None
  end.

(** *** Numbers as such *)

(** [Number(s)] on a string that is no plain decimal integer, [None] where that
    is not a whole number. *)
Class NumberParser := { number_other : string -> option Z }.
Definition js_Number `{NumberParser} (s : string) : option Z :=
  match parse_number s with Some (n, "") => Some n | _ => number_other s end.

(** *** Values *)

(** The rest of [s] after the literal [p]. *)
Fixpoint expect (p s : string) : option string :=
  match p, s with
  | "", _ => Some s
  | String a p, String b s => if Ascii.eqb a b then expect p s else None
  | String _ _, "" => None
  end.

Definition literal (p : string) (v : jsval) (s : string) : option (jsval * string) :=
  match expect p s with Some r => Some (v, r) | None => None end.

(** The elements up to "]", and the members up to "}", of which there is at
    least one. A member set twice keeps its first place and its last value. *)
Fixpoint parse_value (fuel : nat) (s : string) : option (jsval * string) :=
  match fuel with
  | O => None
  | S fuel =>
      let s := skip_ws s in
      match s with
      | "" => None
      | String c s' =>
          let n := ascii_byte c in
          if n =? 110 then literal "null" JNull s
          else if n =? 116 then literal "true" (JBool true) s
          else if n =? 102 then literal "false" (JBool false) s
          else if n =? 34 then
            match parse_string s' with Some (x, r) => Some (JStr x, r) | None => None end
          else if n =? 91 then
            match expect "]" (skip_ws s') with
            | Some r => Some (JArr [], r)
            | None => match parse_elems fuel s' with Some (l, r) => Some (JArr l, r) | None => None end
            end
          else if n =? 123 then
            match expect "}" (skip_ws s') with
            | Some r => Some (JObj [], r)
            | None => match parse_members fuel [] s' with Some (fs, r) => Some (JObj fs, r) | None => None end
            end
          else match parse_number s with Some (x, r) => Some (JNum x, r) | None => None end
      end
  end
with parse_elems (fuel : nat) (s : string) : option (list jsval * string) :=
  match fuel with
  | O => None
  | S fuel =>
      match parse_value fuel s with
      | Some (v, r) =>
          match expect "," (skip_ws r) with
          | Some r => match parse_elems fuel r with Some (l, r) => Some (v :: l, r) | None => None end
          | None => match expect "]" (skip_ws r) with Some r => Some ([v], r) | None => None end
          end
      | None => None
      end
  end
with parse_members (fuel : nat) (fs : list (string * jsval)) (s : string) : option (list (string * jsval) * string) :=
  match fuel with
  | O => None
  | S fuel =>
      match skip_ws s with
      | String c s =>
          if ascii_byte c =? 34 then
            match parse_string s with
            | Some (k, r) =>
                match expect ":" (skip_ws r) with
                | Some r =>
                    match parse_value fuel r with
                    | Some (v, r) =>
                        let fs := jm_set fs k v in
                        match expect "," (skip_ws r) with
                        | Some r => parse_members fuel fs r
                        | None => match expect "}" (skip_ws r) with Some r => Some (fs, r) | None => None end
                        end
                    | None => None
                    end
                | None => None
                end
            | None => None
            end
          else None
      | "" => None
      end
  end.

(** [None] where it throws. *)
Definition JSON_parse (s : string) : option jsval :=
  match parse_value (2 * String.length s + 2)%nat s with
  | Some (v, r) => if String.eqb (skip_ws r) "" then Some v else None
  | None => None
  end.

(** ** The values that survive *)

Definition MAX_SAFE : Z := 2 ^ 53 - 1.

(** No [undefined], no repeated property, safe integers. *)
Fixpoint json_clean (v : jsval) : bool :=
  match v with
  | JUndef => false
  | JNull | JBool _ | JStr _ => true
  | JNum n => Z.abs n <=? MAX_SAFE
  | JArr l => forallb json_clean l
  | JObj fs => bool_decide (NoDup (map fst fs)) && forallb (fun kv => json_clean kv.2) fs
  end.

(** ** Round trip *)

Section jsval_induction.
Context (P : jsval -> Prop).
Hypothesis P_undef : P JUndef.
Hypothesis P_null : P JNull.
Hypothesis P_bool : forall b, P (JBool b).
Hypothesis P_num : forall n, P (JNum n).
Hypothesis P_str : forall s, P (JStr s).
Hypothesis P_arr : forall l, Forall P l -> P (JArr l).
Hypothesis P_obj : forall fs, Forall (fun kv => P kv.2) fs -> P (JObj fs).

Fixpoint jsval_nested_ind (v : jsval) : P v :=
  match v with
  | JUndef => P_undef
  | JNull => P_null
  | JBool b => P_bool b
  | JNum n => P_num n
  | JStr s => P_str s
  | JArr l => P_arr l ((fix go l : Forall P l := match l with
      | [] => List.Forall_nil _
      | v :: l => List.Forall_cons _ _ _ (jsval_nested_ind v) (go l) end) l)
  | JObj fs => P_obj fs ((fix go fs : Forall (fun kv => P kv.2) fs := match fs with
      | [] => List.Forall_nil _
      | (k, v) :: fs => List.Forall_cons _ (k, v) _ (jsval_nested_ind v) (go fs) end) fs)
  end.
End jsval_induction.

(** *** Strings *)

Definition unit_of (c : ascii) : junit :=
  let n := ascii_byte c in
  if (n <? 32) && negb ((n =? 8) || (n =? 9) || (n =? 10) || (n =? 12) || (n =? 13)) then Code n else Raw c.

Lemma parse_units_escape c r :
  parse_units (json_escape c +:+ r) =
  match parse_units r with Some (us, r') => Some (unit_of c :: us, r') | None => None end.
Proof. destruct c as [[] [] [] [] [] [] [] []]; reflexivity. Qed.

Lemma units_string_unit c us : units_string (unit_of c :: us) = String c (units_string us).
Proof.
  unfold unit_of. destruct ((ascii_byte c <? 32) && _) eqn:E; [|done].
  apply andb_true_iff in E as [Hlt%Z.ltb_lt _].
  assert (0 <= ascii_byte c) by (unfold ascii_byte; lia).
  assert (utf8_of_code (ascii_byte c) = String c "") as Hu.
  { unfold utf8_of_code. rewrite (proj2 (Z.ltb_lt _ 128)) by lia. cbn.
    unfold byte_ascii, ascii_byte. by rewrite N2Z.id, ascii_N_embedding. }
  assert (is_high (ascii_byte c) = false) as Hh.
  { unfold is_high. rewrite (proj2 (Z.leb_gt 55296 _)) by lia. done. }
  cbn [units_string]. rewrite Hh, Hu. cbn [andb]. by destruct us as [|[]].
Qed.

Lemma parse_units_chars s r :
  parse_units (json_chars s +:+ dquote +:+ r) = Some (map unit_of (list_ascii_of_string s), r).
Proof.
  induction s as [|c s IH]; [reflexivity|]. cbn [json_chars list_ascii_of_string map].
  by rewrite str_app_assoc, parse_units_escape, IH.
Qed.

Lemma parse_string_chars s r : parse_string (json_chars s +:+ dquote +:+ r) = Some (s, r).
Proof.
  unfold parse_string. rewrite parse_units_chars. f_equal. f_equal.
  induction s as [|c s IH]; [done|]. cbn [list_ascii_of_string map]. by rewrite units_string_unit, IH.
Qed.

(** *** Numbers *)

(** What may follow a value inside a text: nothing, a comma or a bracket. *)
Definition ends (r : string) : bool :=
  match r with
  | "" => true
  | String c _ => let n := ascii_byte c in (n =? 44) || (n =? 93) || (n =? 125)
  end.

Lemma ends_digits a r : ends r = true -> parse_digits a r = (a, r).
Proof.
  destruct r as [|c r]; [done|]. cbn. unfold digit_value. intros H.
  destruct ((48 <=? ascii_byte c) && (ascii_byte c <=? 57)) eqn:E; [|done]. exfalso.
  apply andb_true_iff in E as [? ?]. apply orb_true_iff in H as [[H|H]%orb_true_iff|H]; lia.
Qed.

Lemma ends_integral r : ends r = true -> not_integral r = false.
Proof.
  destruct r as [|c r]; [done|]. cbn. intros H.
  repeat (apply orb_true_iff in H as [H|H]); apply Z.eqb_eq in H; by rewrite H.
Qed.

Lemma digit_value_ascii d : 0 <= d < 10 -> digit_value (digit_ascii d) = Some d.
Proof.
  intros Hd. unfold digit_value, digit_ascii, ascii_byte, byte_ascii.
  rewrite N_ascii_embedding, Z2N.id by lia.
  rewrite (proj2 (Z.leb_le 48 _)), (proj2 (Z.leb_le _ 57)) by lia. cbn [andb]. f_equal. lia.
Qed.

Lemma json_nat_digits fuel n acc : 0 <= n < 10 ^ Z.of_nat (S fuel) ->
  exists c s d, json_nat (S fuel) n acc = String c s /\ digit_value c = Some d /\ (d = 0 -> n = 0 /\ s = acc) /\
    parse_digits d s = parse_digits n acc.
Proof.
  revert n acc. induction fuel as [|fuel IH]; intros n acc Hn.
  - change (10 ^ Z.of_nat 1) with 10 in Hn. exists (digit_ascii n), acc, n. cbn [json_nat]. rewrite Z.mod_small by lia.
    rewrite (proj2 (Z.ltb_lt n 10)) by lia. split_and!; [done|by apply digit_value_ascii|done|done].
  - remember (S fuel) as f. cbn [json_nat]. destruct (Z.ltb_spec n 10) as [Hlt|Hge]; subst f.
    + exists (digit_ascii n), acc, n. rewrite Z.mod_small by lia.
      split_and!; [done|apply digit_value_ascii; lia|done|done].
    + rewrite (Nat2Z.inj_succ (S fuel)), Z.pow_succ_r in Hn by apply Nat2Z.is_nonneg.
      destruct (IH (n / 10) (String (digit_ascii (n mod 10)) acc)) as (c & s & d & -> & Hc & Hd & Hp).
      { split; [apply Z.div_pos; lia|]. by apply Z.div_lt_upper_bound, Hn. }
      exists c, s, d. split_and!; [done|done| |].
      * intros [? _]%Hd. pose proof (Z.div_mod n 10). pose proof (Z.mod_pos_bound n 10). lia.
      * rewrite Hp. cbn [parse_digits].
        rewrite digit_value_ascii by (apply Z.mod_pos_bound; lia). f_equal.
        pose proof (Z.div_mod n 10). lia.
Qed.

Lemma json_nat_app fuel n acc r : json_nat fuel n acc +:+ r = json_nat fuel n (acc +:+ r).
Proof.
  revert n acc. induction fuel as [|fuel IH]; intros n acc; [done|]. cbn [json_nat].
  destruct (n <? 10); [done|]. by rewrite IH.
Qed.

Lemma parse_nat_json n r : 0 <= n <= MAX_SAFE -> ends r = true ->
  parse_nat (json_nat 400 n "" +:+ r) = Some (n, r).
Proof.
  intros Hn Hr. rewrite json_nat_app. change ("" +:+ r) with r.
  destruct (json_nat_digits 399 n r) as (c & s & d & -> & Hc & Hd & Hp).
  { unfold MAX_SAFE in Hn. split; [lia|]. change (Z.of_nat 400) with 400.
    assert (2 ^ 53 < 10 ^ 400) by (vm_compute; done). lia. }
  cbn [parse_nat]. rewrite Hc. rewrite (ends_digits n r Hr) in Hp. destruct (Z.eqb_spec d 0) as [->|].
  - destruct (Hd eq_refl) as [-> ->]. by rewrite ends_integral.
  - by rewrite Hp, ends_integral.
Qed.

(** The first character of a number decides how it is read. *)
Definition starts_number (s : string) : Prop :=
  exists c s', s = String c s' /\ is_ws c = false /\
    Forall (fun n => ascii_byte c <> n) [110; 116; 102; 34; 91; 123; 93].

Lemma digit_starts c s d : digit_value c = Some d -> starts_number (String c s) /\ ascii_byte c <> 45.
Proof.
  unfold digit_value. destruct ((48 <=? ascii_byte c) && (ascii_byte c <=? 57)) eqn:E; [|done]. intros _.
  apply andb_true_iff in E as [?%Z.leb_le ?%Z.leb_le]. split; [|lia]. exists c, s. split_and!; [done| |].
  - unfold is_ws. repeat (rewrite (proj2 (Z.eqb_neq _ _)); [|lia]). done.
  - repeat constructor; lia.
Qed.

Lemma parse_number_minus x :
  parse_number ("-" +:+ x) = match parse_nat x with Some (n, r) => Some (- n, r) | None => None end /\
  starts_number ("-" +:+ x).
Proof. split; [done|]. exists "-"%char, x. split_and!; [done|done|]. repeat constructor; done. Qed.

Lemma parse_number_json n r : Z.abs n <= MAX_SAFE -> ends r = true ->
  parse_number (json_num n +:+ r) = Some (n, r) /\ starts_number (json_num n +:+ r).
Proof.
  intros Hn Hr. unfold json_num. destruct (Z.ltb_spec n 0) as [Hlt|Hge].
  - rewrite str_app_assoc. destruct (parse_number_minus (json_nat 400 (- n) "" +:+ r)) as [-> Hs].
    rewrite parse_nat_json by (try done; lia). by rewrite Z.opp_involutive.
  - pose proof (parse_nat_json n r ltac:(lia) Hr) as Hp. revert Hp. rewrite json_nat_app.
    destruct (json_nat_digits 399 n ("" +:+ r)) as (c & s & d & -> & Hc & _).
    { unfold MAX_SAFE in Hn. split; [lia|]. change (Z.of_nat 400) with 400.
      assert (2 ^ 53 < 10 ^ 400) by (vm_compute; done). lia. }
    intros Hp. destruct (digit_starts c s d Hc) as [Hs Hm]. split; [|done]. cbn [parse_number].
    by rewrite (proj2 (Z.eqb_neq _ _) Hm).
Qed.

(** *** Values *)

Fixpoint json_elems (first : bool) (l : list jsval) : string :=
  match l with
  | [] => ""
  | v :: l => sep first +:+ JSON_stringify v +:+ json_elems false l
  end.
Fixpoint json_members (first : bool) (fs : list (string * jsval)) : string :=
  match fs with
  | [] => ""
  | (k, JUndef) :: fs => json_members first fs
  | (k, v) :: fs => sep first +:+ json_string k +:+ ":" +:+ JSON_stringify v +:+ json_members false fs
  end.

Lemma stringify_arr l : JSON_stringify (JArr l) = "[" +:+ json_elems true l +:+ "]".
Proof. reflexivity. Qed.
Lemma stringify_obj fs : JSON_stringify (JObj fs) = "{" +:+ json_members true fs +:+ "}".
Proof. reflexivity. Qed.
Lemma members_cons k v first fs : json_clean v = true ->
  json_members first ((k, v) :: fs) =
  sep first +:+ json_string k +:+ ":" +:+ JSON_stringify v +:+ json_members false fs.
Proof. by destruct v. Qed.

Lemma str_length_app a b : String.length (a +:+ b) = (String.length a + String.length b)%nat.
Proof. induction a as [|c a IH]; [done|]. exact (f_equal S IH). Qed.

Lemma jm_set_fresh {V} (m : jmap string V) k v : k ∉ jm_keys m -> jm_set m k v = m ++ [(k, v)].
Proof.
  unfold jm_keys. induction m as [|[k' v'] m IH]; [done|]. cbn. intros [Hne Hni]%not_elem_of_cons.
  rewrite decide_False by done. by rewrite IH.
Qed.

(** A value's text starts with a visible character other than "]". *)
Lemma stringify_head v : json_clean v = true ->
  exists c s, JSON_stringify v = String c s /\ is_ws c = false /\ Ascii.eqb "]" c = false.
Proof.
  destruct v as [| |[]|n|s|l|fs]; intros Hv; try done; try (eexists _, _; split_and!; reflexivity).
  apply Z.leb_le in Hv. cbn [JSON_stringify].
  destruct (parse_number_json n "" Hv eq_refl) as [_ (c & s & E & Hc & Hn)]. rewrite str_app_nil_r in E.
  exists c, s. split_and!; [done|done|]. apply Ascii.eqb_neq. intros <-.
  by eapply Forall_forall in Hn; [apply Hn|do 6 right; left].
Qed.

Lemma stringify_pos v : json_clean v = true -> (0 < String.length (JSON_stringify v))%nat.
Proof. intros (c & s & -> & _)%stringify_head. cbn. lia. Qed.

Lemma skip_ws_value v r : json_clean v = true ->
  skip_ws (JSON_stringify v +:+ r) = JSON_stringify v +:+ r /\ expect "]" (JSON_stringify v +:+ r) = None.
Proof.
  intros (c & s & -> & Hc & He)%stringify_head. change (String c s +:+ r) with (String c (s +:+ r)).
  cbn [skip_ws expect]. by rewrite Hc, He.
Qed.

Definition parses (v : jsval) : Prop := forall fuel r,
  (String.length (JSON_stringify v) <= fuel)%nat -> ends r = true ->
  parse_value fuel (JSON_stringify v +:+ r) = Some (v, r).

Lemma parses_num n : Z.abs n <= MAX_SAFE -> parses (JNum n).
Proof.
  intros Hn fuel r Hf Hr. pose proof (stringify_pos (JNum n) ltac:(by apply Z.leb_le)).
  destruct fuel as [|fuel]; [lia|]. cbn [JSON_stringify] in *.
  destruct (parse_number_json n r Hn Hr) as [Hp (c & s & E & Hc & Hne)]. rewrite E in *.
  cbn [parse_value skip_ws]. rewrite Hc. rewrite !Forall_cons in Hne.
  destruct Hne as (H1 & H2 & H3 & H4 & H5 & H6 & _). apply Z.eqb_neq in H1, H2, H3, H4, H5, H6.
  by rewrite H1, H2, H3, H4, H5, H6, Hp.
Qed.

Lemma parse_value_quote fuel x : parse_value (S fuel) (dquote +:+ x) =
  match parse_string x with Some (y, r) => Some (JStr y, r) | None => None end.
Proof. reflexivity. Qed.

Lemma parses_str s : parses (JStr s).
Proof.
  intros fuel r Hf Hr. pose proof (stringify_pos (JStr s) eq_refl). destruct fuel as [|fuel]; [lia|].
  cbn [JSON_stringify]. unfold json_string. rewrite !str_app_assoc.
  by rewrite parse_value_quote, parse_string_chars.
Qed.

Lemma parse_elems_json l fuel r :
  l <> [] -> Forall parses l -> forallb json_clean l = true ->
  (String.length (json_elems true l) < fuel)%nat ->
  parse_elems fuel (json_elems true l +:+ "]" +:+ r) = Some (l, r).
Proof.
  intros Hne Hp. revert fuel. induction Hp as [|v l Hv Hl IH]; intros fuel Hc Hf; [done|].
  cbn [forallb json_elems sep] in *. apply andb_true_iff in Hc as [Hcv Hcl].
  change ("" +:+ ?x) with x in *. rewrite str_length_app in Hf.
  pose proof (stringify_pos v Hcv). destruct fuel as [|fuel]; [lia|]. cbn [parse_elems]. rewrite str_app_assoc.
  destruct l as [|v' l].
  - rewrite (Hv fuel) by (done || lia). done.
  - cbn [json_elems sep] in *. rewrite (Hv fuel); [|lia|done].
    change ("" +:+ ?x) with x in IH.
    change (expect "," (skip_ws (("," +:+ ?x) +:+ ?y))) with (Some (x +:+ y)). cbv beta iota.
    rewrite IH; [done|done|done|]. change (String.length ("," +:+ ?x)) with (S (String.length x)) in Hf. lia.
Qed.

Lemma parse_members_step fuel acc k v y :
  parses v -> (String.length (JSON_stringify v) <= fuel)%nat -> ends y = true -> k ∉ jm_keys acc ->
  parse_members (S fuel) acc (json_string k +:+ ":" +:+ JSON_stringify v +:+ y) =
  match expect "," (skip_ws y) with
  | Some r => parse_members fuel (acc ++ [(k, v)]) r
  | None => match expect "}" (skip_ws y) with Some r => Some (acc ++ [(k, v)], r) | None => None end
  end.
Proof.
  intros Hv Hf Hy Hk. cbn [parse_members]. unfold json_string. rewrite !str_app_assoc.
  pose proof (parse_string_chars k (":" +:+ JSON_stringify v +:+ y)) as Hs. revert Hs.
  generalize (json_chars k +:+ dquote +:+ ":" +:+ JSON_stringify v +:+ y). intros x Hx.
  change (skip_ws (dquote +:+ x)) with (String (ascii_of_nat 34) x). cbv iota.
  change (ascii_byte (ascii_of_nat 34) =? 34) with true. cbv iota. rewrite Hx.
  change (expect ":" (skip_ws (":" +:+ ?z))) with (Some z). cbv iota.
  rewrite (Hv fuel) by done. by rewrite jm_set_fresh.
Qed.

Lemma parse_members_json fs acc fuel r :
  fs <> [] -> Forall (fun kv => parses kv.2) fs -> forallb (fun kv => json_clean kv.2) fs = true ->
  NoDup (acc.*1 ++ fs.*1) -> (String.length (json_members true fs) < fuel)%nat ->
  parse_members fuel acc (json_members true fs +:+ "}" +:+ r) = Some (acc ++ fs, r).
Proof.
  intros Hne Hp. revert acc fuel. induction Hp as [|[k v] fs Hv Hl IH]; intros acc fuel Hc Hnd Hf; [done|].
  cbn [forallb snd fmap list_fmap fst] in *. apply andb_true_iff in Hc as [Hcv Hcl].
  rewrite members_cons in * by done. cbn [sep] in *. change ("" +:+ ?x) with x in *.
  rewrite !str_length_app in Hf. change (String.length ":") with 1%nat in Hf.
  destruct fuel as [|fuel]; [lia|]. rewrite !str_app_assoc.
  assert (k ∉ jm_keys acc) as Hfresh.
  { unfold jm_keys. apply NoDup_app in Hnd as (_ & Hd & _). intros Hin. apply (Hd k Hin). by left. }
  destruct fs as [|[k' v'] fs].
  - rewrite parse_members_step by (done || lia). done.
  - cbn [forallb snd] in Hcl. apply andb_true_iff in Hcl as [Hcv' Hcl].
    rewrite (members_cons k' v' false) in * by done. cbn [sep] in *.
    rewrite str_app_assoc, parse_members_step by (done || lia).
    change (expect "," (skip_ws ("," +:+ ?x))) with (Some x). cbv iota.
    rewrite (members_cons k' v' true) in IH by done. cbn [sep] in IH. change ("" +:+ ?x) with x in IH.
    rewrite IH; [by rewrite <- app_assoc|done|cbn [forallb snd]; by rewrite Hcv'| |].
    + rewrite fmap_app, <- app_assoc. done.
    + rewrite str_length_app in Hf. change (String.length ",") with 1%nat in Hf. lia.
Qed.

Lemma parses_arr l : forallb json_clean l = true -> Forall parses l -> parses (JArr l).
Proof.
  intros Hc Hl fuel r Hf Hr. rewrite stringify_arr in *. rewrite !str_length_app in Hf. cbn [String.length] in Hf.
  destruct fuel as [|fuel]; [lia|]. rewrite !str_app_assoc. destruct l as [|v l]; [done|].
  pose proof (parse_elems_json (v :: l) fuel r ltac:(done) Hl Hc ltac:(lia)) as Hp.
  assert (expect "]" (skip_ws (json_elems true (v :: l) +:+ "]" +:+ r)) = None) as He.
  { cbn [json_elems sep forallb] in *. apply andb_true_iff in Hc as [Hcv _]. change ("" +:+ ?x) with x.
    rewrite str_app_assoc. by destruct (skip_ws_value v (json_elems false l +:+ "]" +:+ r) Hcv) as [-> ->]. }
  revert Hp He. generalize (json_elems true (v :: l) +:+ "]" +:+ r). intros x Hp He.
  change (parse_value (S fuel) ("[" +:+ x)) with
    (match expect "]" (skip_ws x) with
     | Some r => Some (JArr [], r)
     | None => match parse_elems fuel x with Some (l, r) => Some (JArr l, r) | None => None end
     end). by rewrite He, Hp.
Qed.

Lemma parses_obj fs : NoDup fs.*1 -> forallb (fun kv => json_clean kv.2) fs = true ->
  Forall (fun kv => parses kv.2) fs -> parses (JObj fs).
Proof.
  intros Hnd Hc Hl fuel r Hf Hr. rewrite stringify_obj in *. rewrite !str_length_app in Hf. cbn [String.length] in Hf.
  destruct fuel as [|fuel]; [lia|]. rewrite !str_app_assoc. destruct fs as [|[k v] fs]; [done|].
  pose proof (parse_members_json ((k, v) :: fs) [] fuel r ltac:(done) Hl Hc Hnd ltac:(lia)) as Hp.
  assert (expect "}" (skip_ws (json_members true ((k, v) :: fs) +:+ "}" +:+ r)) = None) as He.
  { cbn [forallb snd] in Hc. apply andb_true_iff in Hc as [Hcv _]. rewrite members_cons by done. reflexivity. }
  revert Hp He. generalize (json_members true ((k, v) :: fs) +:+ "}" +:+ r). intros x Hp He.
  change (parse_value (S fuel) ("{" +:+ x)) with
    (match expect "}" (skip_ws x) with
     | Some r => Some (JObj [], r)
     | None => match parse_members fuel [] x with Some (fs, r) => Some (JObj fs, r) | None => None end
     end). by rewrite He, Hp.
Qed.

Lemma parses_clean v : json_clean v = true -> parses v.
Proof.
  induction v as [| |b|n|s|l IH|fs IH] using jsval_nested_ind; cbn [json_clean]; intros Hc.
  - done.
  - intros [|[|[|[|f]]]] r Hf Hr; cbn in Hf; try lia. done.
  - destruct b; intros [|f] r Hf Hr; cbn in Hf; try lia; done.
  - by apply parses_num, Z.leb_le.
  - apply parses_str.
  - apply parses_arr; [done|]. rewrite forallb_forall in Hc. apply Forall_forall. intros v Hv.
    rewrite Forall_forall in IH. apply IH; [done|]. by apply Hc, list_elem_of_In.
  - apply andb_true_iff in Hc as [Hnd%bool_decide_eq_true Hc]. apply parses_obj; [done|done|].
    rewrite forallb_forall in Hc. apply Forall_forall. intros kv Hv.
    rewrite Forall_forall in IH. apply IH; [done|]. by apply Hc, list_elem_of_In.
Qed.

(** [JSON.parse] undoes [JSON.stringify]. *)
Lemma JSON_parse_stringify v : json_clean v = true -> JSON_parse (JSON_stringify v) = Some v.
Proof.
  intros Hv. unfold JSON_parse. pose proof (parses_clean v Hv (2 * String.length (JSON_stringify v) + 2)%nat "" ltac:(lia) eq_refl) as Hp.
  rewrite str_app_nil_r in Hp. by rewrite Hp.
Qed.

(** ** What survives the wire *)

(** [undefined] members are gone after a round trip, [undefined] elements are
    [null]. *)
Fixpoint json_strip (v : jsval) : jsval :=
  match v with
  | JUndef => JNull
  | JArr l => JArr (map json_strip l)
  | JObj fs =>
      JObj ((fix go fs := match fs with
             | [] => []
             | (k, JUndef) :: fs => go fs
             | (k, v) :: fs => (k, json_strip v) :: go fs
             end) fs)
  | _ => v
  end.

Lemma stringify_strip v : JSON_stringify (json_strip v) = JSON_stringify v.
Proof.
  induction v as [| | | | |l IH|fs IH] using jsval_nested_ind; try done.
  - cbn [json_strip]. rewrite !stringify_arr. f_equal. f_equal. generalize true.
    induction IH as [|v l Hv _ IHl]; intros first; [done|]. cbn [map json_elems]. by rewrite Hv, IHl.
  - cbn [json_strip]. rewrite !stringify_obj. f_equal. f_equal. generalize true.
    induction IH as [|[k v] fs Hv _ IHl]; intros first; [done|]. cbn [snd] in Hv.
    destruct v; cbn [json_members]; try apply IHl; rewrite <- Hv, <- IHl; done.
Qed.

Lemma JSON_parse_strip v : json_clean (json_strip v) = true -> JSON_parse (JSON_stringify v) = Some (json_strip v).
Proof. intros H. rewrite <- stringify_strip. by apply JSON_parse_stringify. Qed.
