(* ===== verification/Scheduling.v ===== *)
(** * Scheduling helpers (extension/src/sync, extension/src/util)

    The micro-batch queue (micro-batch.ts), the suppression guard
    (suppress.ts), single flight (single-flight.ts), the keyed lock
    (keyed-lock.ts) and pacing (pace.ts), each as the state its closure keeps
    and one function per call, timer or settled promise; what may interleave
    is a list of such events. *)

From S2P Require Import Prelude JsMap.

Open Scope Z_scope.

(** ** micro-batch.ts *)

Section micro_batch.
Context {T : Type}.

Record MicroBatch := mkMicroBatch {
  mb_queue : list T;
  mb_timer : bool;                      (** a timer is armed *)
}.

Definition emptyQueue : MicroBatch := mkMicroBatch [] false.

Definition enqueue (item : T) (q : MicroBatch) : MicroBatch := mkMicroBatch (mb_queue q ++ [item]) true.

(** [flushNow] up to its [flush]: the batch handed over, if any. *)
Definition flushNow (q : MicroBatch) : option (list T) * MicroBatch :=
  match mb_queue q with
  | [] => (None, mkMicroBatch [] false)
  | batch => (Some batch, mkMicroBatch [] false)
  end.

Inductive batch_event :=
  | Enqueued (item : T)
  | TimerFired
  | Flushed.                            (** from [onSuspend], or awaited *)

(** A timer only fires while armed; firing leaves none. *)
Definition batch_step (q : MicroBatch) (e : batch_event) : option (list T) * MicroBatch :=
  match e with
  | Enqueued item => (None, enqueue item q)
  | TimerFired => if mb_timer q then flushNow q else (None, q)
  | Flushed => flushNow q
  end.

Fixpoint batch_run (q : MicroBatch) (es : list batch_event) : list (list T) * MicroBatch :=
  match es with
  | [] => ([], q)
  | e :: es =>
      let '(batch, q1) := batch_step q e in
      let '(batches, q2) := batch_run q1 es in
      (match batch with Some b => b :: batches | None => batches end, q2)
  end.

Definition enqueued (es : list batch_event) : list T :=
  omap (fun e => match e with Enqueued item => Some item | _ => None end) es.

Definition armed (q : MicroBatch) : Prop := mb_timer q = true <-> mb_queue q <> [].

Lemma batch_step_spec q e : armed q ->
  default [] (batch_step q e).1 ++ mb_queue (batch_step q e).2 = mb_queue q ++ enqueued [e] /\
  armed (batch_step q e).2 /\ (batch_step q e).1 <> Some [].
Proof.
  unfold armed. destruct q as [queue timer]. cbn [mb_queue mb_timer]. intros Ha. destruct e; cbn.
  - split_and!; [done| |done]. split; [|done]. by destruct queue.
  - destruct timer; cbn; [|by rewrite app_nil_r]. destruct queue; cbn; [by split_and!|]. by rewrite !app_nil_r.
  - destruct queue; cbn; [by split_and!|]. by rewrite !app_nil_r.
Qed.

(** Nothing queued is dropped, merged or reordered: whatever the timers
    and the external flushes do, the batches handed to [flush], one after the
    other, and what is still queued, are the items in the order they were
    queued; no batch is empty, and a timer is armed exactly while something
    waits. *)
Theorem micro_batch_exact es : let '(batches, q) := batch_run emptyQueue es in
  concat batches ++ mb_queue q = enqueued es /\ Forall (fun b => b <> []) batches /\ armed q.
Proof.
  assert (forall q, armed q -> let '(batches, q') := batch_run q es in
    concat batches ++ mb_queue q' = mb_queue q ++ enqueued es /\ Forall (fun b => b <> []) batches /\ armed q') as H.
  { induction es as [|e es IH]; intros q Ha; cbn [batch_run].
    - cbn. rewrite app_nil_r. split_and!; [done|constructor|done].
    - destruct (batch_step_spec q e Ha) as (E & Ha' & Hne). destruct (batch_step q e) as [batch q1]. cbn [fst snd] in *.
      specialize (IH q1 Ha'). destruct (batch_run q1 es) as [batches q2]. destruct IH as (IH1 & IH2 & IH3).
      assert (enqueued (e :: es) = enqueued [e] ++ enqueued es) as Hes by by destruct e.
      rewrite Hes, app_assoc, <- E, <- app_assoc, <- IH1. destruct batch as [b|]; cbn; [|done]. rewrite <- !app_assoc.
      split_and!; [done| |done]. constructor; [congruence|done]. }
  by apply (H emptyQueue).
Qed.
End micro_batch.
Arguments MicroBatch : clear implicits.
Arguments batch_event : clear implicits.

(** ** suppress.ts *)

Record SuppressionGuard := mkGuard { depth : Z }.
Definition createSuppressionGuard : SuppressionGuard := mkGuard 0.
Definition isSuppressed (g : SuppressionGuard) : bool := 0 <? depth g.

(** [run] up to calling [fn], and its [finally], however [fn] ended. *)
Inductive guard_event := RunStarted | RunEnded.
Definition guard_step (g : SuppressionGuard) (e : guard_event) : SuppressionGuard :=
  match e with RunStarted => mkGuard (depth g + 1) | RunEnded => mkGuard (depth g - 1) end.

(** ** single-flight.ts

    A run is named by its number; [sf_started] counts the calls of [fn]. *)
Record SingleFlight := mkFlight { sf_inFlight : option nat; sf_started : nat }.
Definition idle_flight : SingleFlight := mkFlight None 0.

(** The run whose promise the caller gets. *)
Definition sf_call (s : SingleFlight) : nat * SingleFlight :=
  match sf_inFlight s with
  | Some run => (run, s)
  | None => (sf_started s, mkFlight (Some (sf_started s)) (S (sf_started s)))
  end.

(** The [finally] of the run in flight. *)
Definition sf_settle (s : SingleFlight) : SingleFlight := mkFlight None (sf_started s).

(** ** keyed-lock.ts

    [queues] maps a key to its last [tracked] promise, named by its task. *)
Inductive TaskStatus := Waiting | Running | Settled | Cleaned.
#[global] Instance TaskStatus_dec : EqDecision TaskStatus.
Proof. solve_decision. Defined.

Record Task := mkTask { tk_key : string; tk_prior : option nat; tk_status : TaskStatus }.

Record KeyedLock := mkLock {
  queues : jmap string nat;
  lk_tasks : list Task;                 (** by number, in call order *)
}.
Definition createKeyedLock : KeyedLock := mkLock [] [].

Definition is_settled (l : KeyedLock) (task : nat) : bool :=
  match lk_tasks l !! task with
  | Some t => match tk_status t with Settled | Cleaned => true | _ => false end
  | None => false
  end.

(** [run] up to its [await]. *)
Definition lock_run (key : string) (l : KeyedLock) : KeyedLock :=
  mkLock (jm_set (queues l) key (length (lk_tasks l))) (lk_tasks l ++ [mkTask key (jm_get (queues l) key) Waiting]).

Definition set_status (task : nat) (s : TaskStatus) (l : KeyedLock) : list Task :=
  alter (fun t => mkTask (tk_key t) (tk_prior t) s) task (lk_tasks l).

(** Steps of the event loop: [prior.then(fn, fn)] calls [fn] once [prior] has
    settled; [fn] settles; the [finally] runs. *)
Inductive lock_step : KeyedLock -> KeyedLock -> Prop :=
  | ls_run key l : lock_step l (lock_run key l)
  | ls_start task t l : lk_tasks l !! task = Some t -> tk_status t = Waiting ->
      match tk_prior t with Some p => is_settled l p = true | None => True end ->
      lock_step l (mkLock (queues l) (set_status task Running l))
  | ls_settle task t l : lk_tasks l !! task = Some t -> tk_status t = Running ->
      lock_step l (mkLock (queues l) (set_status task Settled l))
  | ls_finally task t l : lk_tasks l !! task = Some t -> tk_status t = Settled ->
      lock_step l (mkLock
        (if decide (jm_get (queues l) (tk_key t) = Some task) then jm_delete (queues l) (tk_key t) else queues l)
        (set_status task Cleaned l)).

(** ** pace.ts

    The fraction is [1 / paceDivisor]: the default 0.1 divides by 10. *)
Definition PACE_MAX_SLEEP_MS : Z := 5000.
Definition paceForWork (paceDivisor workMs : Z) : Z :=
  if workMs <=? 0 then 0
  else let sleepMs := Z.min (workMs * (paceDivisor - 1)) PACE_MAX_SLEEP_MS in
       if sleepMs <=? 0 then 0 else sleepMs.

(** ** The lock's order *)

Definition over (t : Task) : Prop := tk_status t = Settled \/ tk_status t = Cleaned.

(** Every earlier task of the key is over. *)
Definition earlier_over (l : KeyedLock) (key : string) (task : nat) : Prop :=
  forall i t, (i < task)%nat -> lk_tasks l !! i = Some t -> tk_key t = key -> over t.

Record lock_inv (l : KeyedLock) : Prop := {
  li_wf : jm_wf (queues l);
  (** The entry is the key's last task; without one, all its tasks are over. *)
  li_queue : forall key, match jm_get (queues l) key with
    | Some last => (exists t, lk_tasks l !! last = Some t /\ tk_key t = key /\ tk_status t <> Cleaned) /\
        forall i t, lk_tasks l !! i = Some t -> tk_key t = key -> (i <= last)%nat
    | None => earlier_over l key (length (lk_tasks l))
    end;
  (** A task waits for the one before it. *)
  li_prior : forall task t, lk_tasks l !! task = Some t ->
    match tk_prior t with
    | Some p => forall i t', (p < i < task)%nat -> lk_tasks l !! i = Some t' -> tk_key t' <> tk_key t
    | None => earlier_over l (tk_key t) task
    end;
  li_prior_key : forall task t p, lk_tasks l !! task = Some t -> tk_prior t = Some p ->
    (p < task)%nat /\ exists t', lk_tasks l !! p = Some t' /\ tk_key t' = tk_key t;
  li_order : forall task t, lk_tasks l !! task = Some t -> tk_status t <> Waiting -> earlier_over l (tk_key t) task;
}.

Lemma set_status_lookup task s l i t : set_status task s l !! i = Some t -> exists t0, lk_tasks l !! i = Some t0 /\
  tk_key t = tk_key t0 /\ tk_prior t = tk_prior t0 /\ tk_status t = if decide (i = task) then s else tk_status t0.
Proof.
  unfold set_status. destruct (decide (i = task)) as [->|Hne].
  - rewrite list_lookup_alter_eq. destruct (lk_tasks l !! task) as [t0|]; [|done]. intros [= <-]. by exists t0.
  - rewrite list_lookup_alter_ne by done. intros E. by exists t.
Qed.

(** A status only ever moves on. *)
Definition moves_on (s s' : TaskStatus) : Prop :=
  match s, s' with
  | Waiting, Running | Running, Settled | Settled, Cleaned => True
  | _, _ => False
  end.

Lemma earlier_over_set task t s l key n : lk_tasks l !! task = Some t -> moves_on (tk_status t) s ->
  earlier_over l key n -> earlier_over (mkLock (queues l) (set_status task s l)) key n.
Proof.
  intros Ht Hs He i t' Hi Hl Hk. apply set_status_lookup in Hl as (t0 & Hl & Hk0 & _ & Hs'). rewrite Hk0 in Hk.
  specialize (He i t0 Hi Hl Hk). unfold over in *. rewrite Hs'. case_decide as Hd; [|done]. subst i. rewrite Ht in Hl. injection Hl as <-.
  destruct (tk_status t), s, He; done || tauto.
Qed.

Lemma set_status_same task s l i t0 : lk_tasks l !! i = Some t0 ->
  exists t, set_status task s l !! i = Some t /\ tk_key t = tk_key t0 /\ tk_status t = if decide (i = task) then s else tk_status t0.
Proof.
  intros Hl. unfold set_status. destruct (decide (i = task)) as [->|Hne].
  - rewrite list_lookup_alter_eq, Hl. by eexists.
  - rewrite list_lookup_alter_ne by done. by exists t0.
Qed.

(** Everything but the queue map, when a status moves on. *)
Lemma inv_set q task t s l : lock_inv l -> lk_tasks l !! task = Some t -> moves_on (tk_status t) s ->
  (tk_status t = Waiting -> earlier_over l (tk_key t) task) -> jm_wf q ->
  (forall key, match jm_get q key with
    | Some last => (exists t, set_status task s l !! last = Some t /\ tk_key t = key /\ tk_status t <> Cleaned) /\
        forall i t, set_status task s l !! i = Some t -> tk_key t = key -> (i <= last)%nat
    | None => earlier_over (mkLock q (set_status task s l)) key (length (set_status task s l))
    end) -> lock_inv (mkLock q (set_status task s l)).
Proof.
  intros [_ _ Hp Hpk Ho] Ht Hm Hstart Hwf Hq.
  assert (forall key n, earlier_over l key n -> earlier_over (mkLock q (set_status task s l)) key n) as Hmono.
  { intros key n He. by apply (earlier_over_set task t s l key n). }
  split; cbn [lk_tasks queues]; [done|exact Hq| | |].
  - intros i t' Hl. apply set_status_lookup in Hl as (t0 & Hl & Hk & Hpr & _). specialize (Hp i t0 Hl). rewrite Hpr, Hk.
    destruct (tk_prior t0) as [p|]; [|by apply Hmono]. intros j tj Hj Hlj. apply set_status_lookup in Hlj as (t1 & Hlj & -> & _).
    by apply (Hp j t1).
  - intros i t' p Hl Hpr. apply set_status_lookup in Hl as (t0 & Hl & Hk & Hpr0 & _). rewrite Hpr0 in Hpr.
    destruct (Hpk i t0 p Hl Hpr) as (Hlt & t1 & Hl1 & Hk1). split; [done|].
    destruct (set_status_same task s l p t1 Hl1) as (t2 & Hl2 & Hk2 & _). exists t2. split; [done|]. congruence.
  - intros i t' Hl Hs. apply set_status_lookup in Hl as (t0 & Hl & Hk & _ & Hs0). rewrite Hk. apply Hmono. rewrite Hs0 in Hs.
    case_decide as Hi; [|by apply Ho]. subst i. rewrite Ht in Hl. injection Hl as <-.
    destruct (decide (tk_status t = Waiting)) as [Hw|Hw]; [by apply Hstart|by apply Ho].
Qed.

(** The queue map is right as it was, unless the key's last task is cleaned. *)
Lemma inv_set_queue task t s l : lock_inv l -> lk_tasks l !! task = Some t -> moves_on (tk_status t) s -> s <> Cleaned ->
  forall key, match jm_get (queues l) key with
    | Some last => (exists t, set_status task s l !! last = Some t /\ tk_key t = key /\ tk_status t <> Cleaned) /\
        forall i t, set_status task s l !! i = Some t -> tk_key t = key -> (i <= last)%nat
    | None => earlier_over (mkLock (queues l) (set_status task s l)) key (length (set_status task s l))
    end.
Proof.
  intros [_ Hq _ _ _] Ht Hm Hs key. specialize (Hq key). destruct (jm_get _ _) as [last|].
  - destruct Hq as [(t0 & Hl & Hk & Hc) Hlast]. split.
    + destruct (set_status_same task s l last t0 Hl) as (t1 & Hl1 & Hk1 & Hs1). exists t1. split_and!; [done|congruence|].
      rewrite Hs1. by case_decide.
    + intros i t' Hli Hki. apply set_status_lookup in Hli as (t1 & Hli & Hk1 & _). apply (Hlast i t1); [done|congruence].
  - unfold set_status at 2. rewrite length_alter. by apply (earlier_over_set task t s l).
Qed.

Lemma inv_run key l : lock_inv l -> lock_inv (lock_run key l).
Proof.
  intros [Hwf Hq Hp Hpk Ho]. set (new := mkTask key (jm_get (queues l) key) Waiting).
  assert (forall i t, (lk_tasks l ++ [new]) !! i = Some t -> lk_tasks l !! i = Some t \/ (i = length (lk_tasks l) /\ t = new)) as Hsplit.
  { intros i t [Hl|[Hi Hl]]%lookup_app_Some; [by left|right]. apply list_lookup_singleton_Some in Hl as [? <-]. split; [lia|done]. }
  assert (forall key' n, (n <= length (lk_tasks l))%nat -> earlier_over l key' n -> earlier_over (lock_run key l) key' n) as Hmono.
  { intros key' n Hn He i t Hi Hl. destruct (Hsplit i t Hl) as [Hl'|[-> _]]; [exact (He i t Hi Hl')|lia]. }
  split; unfold lock_run; cbn [queues lk_tasks]; fold new.
  - by apply jm_set_wf.
  - intros key'. rewrite jm_get_set. case_decide as E.
    + subst key'. split; [exists new; split; [by rewrite lookup_app_r, Nat.sub_diag by lia|done]|]. intros i t Hl _.
      destruct (Hsplit i t Hl) as [Hl'|[-> _]]; [apply lookup_lt_Some in Hl'; lia|lia].
    + specialize (Hq key'). destruct (jm_get _ key') as [last|].
      * destruct Hq as [(t0 & Hl & Hk & Hc) Hlast]. split; [exists t0; split_and!; [by apply lookup_app_l_Some|done|done]|].
        intros i t Hli Hki. destruct (Hsplit i t Hli) as [Hl'|[-> ->]]; [by apply (Hlast i t)|done].
      * intros i t Hi Hl Hk. destruct (Hsplit i t Hl) as [Hl'|[_ ->]]; [|done]. apply (Hq i t); [by apply lookup_lt_Some in Hl'|done|done].
  - intros i t Hl. destruct (Hsplit i t Hl) as [Hl'|[-> ->]].
    + specialize (Hp i t Hl'). destruct (tk_prior t) as [p|].
      * intros j t' Hj Hlj. destruct (Hsplit j t' Hlj) as [Hlj'|[-> _]]; [by apply (Hp j)|]. apply lookup_lt_Some in Hl'. lia.
      * apply Hmono; [apply lookup_lt_Some in Hl'; lia|done].
    + cbn [tk_prior tk_key]. unfold new. cbn [tk_prior tk_key]. specialize (Hq key). destruct (jm_get _ key) as [last|]; [|intros j t' Hj Hlj Hk; destruct (Hsplit j t' Hlj) as [Hlj'|[-> _]]; [by apply (Hq j t')|lia]].
      intros j t' Hj Hlj Hk. destruct (Hsplit j t' Hlj) as [Hlj'|[-> _]]; [|lia]. destruct Hq as [_ Hlast]. specialize (Hlast j t' Hlj' Hk). lia.
  - intros i t p Hl Hpr. destruct (Hsplit i t Hl) as [Hl'|[-> ->]].
    + destruct (Hpk i t p Hl' Hpr) as (Hlt & t' & Hl2 & Hk2). split; [done|]. exists t'. split; [by apply lookup_app_l_Some|done].
    + unfold new in Hpr. cbn in Hpr. specialize (Hq key). rewrite Hpr in Hq. destruct Hq as [(t0 & Hl0 & Hk0 & _) _].
      split; [by apply lookup_lt_Some in Hl0|]. exists t0. split; [by apply lookup_app_l_Some|done].
  - intros i t Hl Hs. destruct (Hsplit i t Hl) as [Hl'|[-> ->]]; [|done]. apply Hmono; [apply lookup_lt_Some in Hl'; lia|by apply Ho].
Qed.

(** What a task waited for being over, so are all the key's earlier tasks. *)
Lemma prior_settled l task t : lock_inv l -> lk_tasks l !! task = Some t ->
  match tk_prior t with Some p => is_settled l p = true | None => True end -> earlier_over l (tk_key t) task.
Proof.
  intros [_ _ Hp Hpk Ho] Ht Hsettled. specialize (Hp task t Ht). destruct (tk_prior t) as [p|] eqn:Ep; [|done].
  destruct (Hpk task t p Ht Ep) as (Hlt & tp & Hlp & Hkp). unfold is_settled in Hsettled. rewrite Hlp in Hsettled.
  assert (over tp) as Hover by (unfold over; destruct (tk_status tp); [done|done|by left|by right]).
  intros i t' Hi Hl Hk. destruct (Nat.lt_trichotomy i p) as [Hip|[->|Hip]].
  - rewrite <- Hkp in Hk. apply (Ho p tp Hlp) with (i := i); [|done..]. unfold over in Hover. by destruct Hover as [-> | ->].
  - rewrite Hlp in Hl. by injection Hl as <-.
  - by destruct (Hp i t' ltac:(lia) Hl).
Qed.

Lemma inv_finally task t l : lock_inv l -> lk_tasks l !! task = Some t -> tk_status t = Settled ->
  lock_inv (mkLock (if decide (jm_get (queues l) (tk_key t) = Some task) then jm_delete (queues l) (tk_key t) else queues l)
    (set_status task Cleaned l)).
Proof.
  intros Hi Ht Hs. pose proof Hi as [Hwf Hq Hp Hpk Ho].
  apply (inv_set _ task t); [done|done|by rewrite Hs|by rewrite Hs|case_decide; [by apply jm_delete_wf|done]|].
  assert (forall key n, earlier_over l key n -> forall q, earlier_over (mkLock q (set_status task Cleaned l)) key n) as Hmono.
  { intros key n He q. apply (earlier_over_set task t Cleaned l key n); [done|by rewrite Hs|done]. }
  intros key. specialize (Hq key). case_decide as Hlast.
  - rewrite jm_get_delete by done. case_decide as Hk.
    + subst key. rewrite Hlast in Hq. destruct Hq as [_ Hmax]. intros i t' Hlt Hl Hk'. cbn in Hl.
      apply set_status_lookup in Hl as (t0 & Hl & Hk0 & _ & Hs0). unfold over. rewrite Hs0. case_decide as Hit; [by right|].
      rewrite Hk0 in Hk'. pose proof (Hmax i t0 Hl Hk'). apply (Ho task t Ht) with (i := i); [by rewrite Hs|lia|done|done].
    + destruct (jm_get (queues l) key) as [last|] eqn:El.
      * destruct Hq as [(t0 & Hl & Hkl & Hc) Hmax]. split.
        -- destruct (set_status_same task Cleaned l last t0 Hl) as (t1 & Hl1 & Hk1 & Hs1). exists t1. split_and!; [done|congruence|].
           rewrite Hs1. case_decide as Hd; [|done]. subst last. rewrite Ht in Hl. injection Hl as <-. done.
        -- intros i t' Hli Hki. apply set_status_lookup in Hli as (t1 & Hli & Hk1 & _). apply (Hmax i t1); [done|congruence].
      * unfold set_status at 2. rewrite length_alter. by apply Hmono.
  - destruct (jm_get (queues l) key) as [last|] eqn:El.
    + destruct Hq as [(t0 & Hl & Hkl & Hc) Hmax]. split.
      * destruct (set_status_same task Cleaned l last t0 Hl) as (t1 & Hl1 & Hk1 & Hs1). exists t1. split_and!; [done|congruence|].
        rewrite Hs1. case_decide as Hd; [|done]. subst last. rewrite Ht in Hl. injection Hl as <-. destruct Hlast. by rewrite Hkl.
      * intros i t' Hli Hki. apply set_status_lookup in Hli as (t1 & Hli & Hk1 & _). apply (Hmax i t1); [done|congruence].
    + unfold set_status at 2. rewrite length_alter. by apply Hmono.
Qed.

Lemma lock_step_inv l l' : lock_step l l' -> lock_inv l -> lock_inv l'.
Proof.
  destruct 1 as [key l|task t l Ht Hs Hp|task t l Ht Hs|task t l Ht Hs]; intros Hi.
  - by apply inv_run.
  - apply (inv_set _ task t); [done|done|by rewrite Hs| |apply Hi|apply (inv_set_queue task t); [done|done|by rewrite Hs|done]].
    intros _. by apply prior_settled.
  - apply (inv_set _ task t); [done|done|by rewrite Hs|by rewrite Hs|apply Hi|apply (inv_set_queue task t); [done|done|by rewrite Hs|done]].
  - by apply inv_finally.
Qed.

Lemma lock_inv_start : lock_inv createKeyedLock.
Proof.
  split; cbn; [apply jm_nil_wf| | | |]; try (intros; by rewrite lookup_nil in *).
  intros key i t _ Hl. cbn in Hl. by rewrite lookup_nil in Hl.
Qed.

(** C34. The keyed lock serialises each key in call order, and leaks nothing:
    in every reachable state, once a task has started all earlier tasks of its
    key have settled (so no two of them ever run together, and none overtakes
    another), a key has an entry only while a task of it is unfinished, and
    without unfinished tasks no entry is left. *)
Theorem keyed_lock_serialises l : rtc lock_step createKeyedLock l ->
  (forall i j ti tj, (i < j)%nat -> lk_tasks l !! i = Some ti -> lk_tasks l !! j = Some tj -> tk_key ti = tk_key tj ->
    tk_status tj <> Waiting -> over ti) /\
  (forall key last, jm_get (queues l) key = Some last -> exists t, lk_tasks l !! last = Some t /\ tk_key t = key /\ tk_status t <> Cleaned) /\
  (Forall (fun t => tk_status t = Cleaned) (lk_tasks l) -> queues l = []).
Proof.
  intros Hrun. assert (lock_inv l) as Hi.
  { revert Hrun. generalize lock_inv_start. generalize createKeyedLock. intros l0 H0 Hrun. induction Hrun as [|x y z Hs _ IH]; [done|].
    by apply IH, (lock_step_inv _ _ Hs). }
  assert (forall key last, jm_get (queues l) key = Some last -> exists t, lk_tasks l !! last = Some t /\ tk_key t = key /\ tk_status t <> Cleaned) as Hq.
  { intros key last E. pose proof (li_queue l Hi key) as Hq. rewrite E in Hq. apply Hq. }
  split_and!; [|exact Hq|].
  - intros i j ti tj Hij Hl1 Hl2 Hk Hs. by apply (li_order l Hi j tj Hl2 Hs i ti).
  - intros Hall. destruct (queues l) as [|[key last] q] eqn:E; [done|]. destruct (Hq key last) as (t & Hl & _ & Hc); [cbn; by rewrite decide_True|].
    rewrite Forall_forall in Hall. destruct Hc. by eapply Hall, list_elem_of_lookup_2.
Qed.

(** Two tasks of one key and one of another: the second waits. *)
Definition lock_example : KeyedLock :=
  mkLock [("k", 1%nat); ("j", 2%nat)] [mkTask "k" None Running; mkTask "k" (Some 0%nat) Waiting; mkTask "j" None Running].

Lemma lock_example_reached : rtc lock_step createKeyedLock lock_example.
Proof.
  apply (rtc_l _ _ (lock_run "k" createKeyedLock)); [apply ls_run|].
  apply (rtc_l _ _ (lock_run "k" (lock_run "k" createKeyedLock))); [apply ls_run|].
  apply (rtc_l _ _ (lock_run "j" (lock_run "k" (lock_run "k" createKeyedLock)))); [apply ls_run|].
  eapply rtc_l; [by apply (ls_start 0%nat (mkTask "k" None Waiting))|].
  eapply rtc_l; [by apply (ls_start 2%nat (mkTask "j" None Waiting))|]. apply rtc_refl.
Qed.

Lemma keyed_lock_serialises_witness :
  (forall i j ti tj, (i < j)%nat -> lk_tasks lock_example !! i = Some ti -> lk_tasks lock_example !! j = Some tj -> tk_key ti = tk_key tj ->
    tk_status tj <> Waiting -> over ti) /\
  (forall key last, jm_get (queues lock_example) key = Some last ->
    exists t, lk_tasks lock_example !! last = Some t /\ tk_key t = key /\ tk_status t <> Cleaned) /\
  (Forall (fun t => tk_status t = Cleaned) (lk_tasks lock_example) -> queues lock_example = []).
Proof. apply (keyed_lock_serialises lock_example), lock_example_reached. Defined.
