(* ===== verification/Threads.v ===== *)
(** * Asynchronous calls in flight together

    What [Promise.all] starts: each call a thread of atomic steps over a shared
    state, one step up to the next [await] that lets others in. A step may have
    to wait ([None]). *)

From S2P Require Import Prelude.

Open Scope js_scope.

Section threads.
Context {S E : Type}.

Inductive thread :=
  | TDone (r : E + unit)
  | TStep (f : S -> option (thread * S)).

Lemma thread_steps_ind (P : thread -> Prop) : (forall r, P (TDone r)) ->
  (forall f, (forall s t s', f s = Some (t, s') -> P t) -> P (TStep f)) -> forall t, P t.
Proof.
  intros Hd Hs. fix IH 1. intros [r|f]; [apply Hd|]. apply Hs. intros s.
  destruct (f s) as [[t1 s1]|]; [pose proof (IH t1) as Ht|]; intros t s' [=]. by subst.
Qed.

(** A computation of a thread, by what follows it. *)
Definition Th (A : Type) : Type := (E + A -> thread) -> thread.

Definition th_ret {A} (a : A) : Th A := fun k => k (inr a).
Definition th_throw {A} (e : E) : Th A := fun k => k (inl e).
Definition th_bind {A B} (m : Th A) (f : A -> Th B) : Th B := fun k =>
  m (fun r => match r with inl e => k (inl e) | inr a => f a k end).
(** [try { m } finally { fin }] *)
Definition th_finally {A} (m : Th A) (fin : Th unit) : Th A := fun k =>
  m (fun r => fin (fun r' => k (match r' with inl e => inl e | inr _ => r end))).

(** One step. *)
Definition th_do {A} (m : M S E A) : Th A := fun k => TStep (fun s => let '(r, s') := m s in Some (k r, s')).
(** One step, once [ready]. *)
Definition th_when (ready : S -> bool) (f : S -> S) : Th unit := fun k =>
  TStep (fun s => if ready s then Some (k (inr tt), f s) else None).

Definition spawn (m : Th unit) : thread := m TDone.

(** ** Running

    The threads, what they share, and the first rejection. *)
Record Crowd := mkCrowd { cr_threads : list thread; cr_state : S; cr_rejected : option E }.

Definition note_rejection (t : thread) (r : option E) : option E :=
  match r, t with
  | None, TDone (inl e) => Some e
  | _, _ => r
  end.

Definition step_crowd (i : nat) (c : Crowd) : option Crowd :=
  match cr_threads c !! i with
  | Some (TStep f) =>
      match f (cr_state c) with
      | Some (t, s) => Some (mkCrowd (<[i := t]> (cr_threads c)) s (note_rejection t (cr_rejected c)))
      | None => None
      end
  | _ => None
  end.

Inductive crowd_step : Crowd -> Crowd -> Prop :=
  | crowd_steps i c c' : step_crowd i c = Some c' -> crowd_step c c'.

(** A step that is not possible is skipped. *)
Definition run_schedule (schedule : list nat) (c : Crowd) : Crowd :=
  foldl (fun c i => default c (step_crowd i c)) c schedule.

(** One thread as far as it gets by itself. *)
Fixpoint run_alone (i : nat) (t : thread) (c : Crowd) : Crowd :=
  match t with
  | TDone r => c
  | TStep f =>
      match f (cr_state c) with
      | Some (t, s) => run_alone i t (mkCrowd (<[i := t]> (cr_threads c)) s (note_rejection t (cr_rejected c)))
      | None => c
      end
  end.

(** Every thread in turn, as often as there are threads: one that waits for
    another gets its chance after it. *)
Definition run_round (c : Crowd) : Crowd :=
  foldl (fun c i => match cr_threads c !! i with Some t => run_alone i t c | None => c end) c (seq 0 (length (cr_threads c))).
Definition run_rest (c : Crowd) : Crowd := Nat.iter (length (cr_threads c)) run_round c.

Definition all_done (c : Crowd) : bool :=
  forallb (fun t => match t with TDone _ => true | TStep _ => false end) (cr_threads c).

(** [await Promise.all(...)], the steps in the order [schedule] gives and then
    one thread after the other. A rejection is reported once all have ended. *)
Definition promise_all (schedule : list nat) (stuck : E) (calls : list (Th unit)) : M S E unit := fun s =>
  let c := run_rest (run_schedule schedule (mkCrowd (map spawn calls) s None)) in
  (if all_done c then match cr_rejected c with Some e => inl e | None => inr tt end else inl stuck, cr_state c).

(** ** Invariants of a crowd *)

Lemma run_schedule_steps schedule c : rtc crowd_step c (run_schedule schedule c).
Proof.
  revert c. induction schedule as [|i l IH]; intros c; [apply rtc_refl|]. cbn.
  destruct (step_crowd i c) as [c'|] eqn:Hs; [|apply IH]. eapply rtc_l; [by econstructor|apply IH].
Qed.

Lemma run_alone_steps i t c : cr_threads c !! i = Some t -> rtc crowd_step c (run_alone i t c).
Proof.
  revert c. induction t as [r|f IH] using thread_steps_ind; intros c Hi; cbn; [apply rtc_refl|].
  destruct (f (cr_state c)) as [[t s]|] eqn:Hf; [|apply rtc_refl]. eapply rtc_l.
  - apply (crowd_steps i). unfold step_crowd. rewrite Hi, Hf. done.
  - apply (IH _ _ _ Hf). cbn. rewrite list_lookup_insert_eq; [done|by eapply lookup_lt_Some].
Qed.

Lemma run_round_steps c : rtc crowd_step c (run_round c).
Proof.
  unfold run_round. generalize (seq 0 (length (cr_threads c))). intros l. revert c.
  induction l as [|i l IH]; intros c; [apply rtc_refl|]. cbn. destruct (cr_threads c !! i) as [t|] eqn:Hi; [|apply IH].
  etransitivity; [by apply run_alone_steps|apply IH].
Qed.

Lemma run_rest_steps c : rtc crowd_step c (run_rest c).
Proof.
  unfold run_rest. generalize (length (cr_threads c)). intros n. induction n as [|n IH]; [apply rtc_refl|].
  cbn. etransitivity; [exact IH|apply run_round_steps].
Qed.

(** What every step of every thread keeps holds after [Promise.all]. *)
Lemma promise_all_steps schedule stuck calls s : exists c, rtc crowd_step (mkCrowd (map spawn calls) s None) c /\
  (promise_all schedule stuck calls s).2 = cr_state c /\
  forall u, (promise_all schedule stuck calls s).1 = inr u -> cr_rejected c = None /\ all_done c = true.
Proof.
  exists (run_rest (run_schedule schedule (mkCrowd (map spawn calls) s None))). split_and!; [|done|].
  - etransitivity; [apply run_schedule_steps|apply run_rest_steps].
  - cbn. intros u. destruct (all_done _); [|done]. by destruct (cr_rejected _).
Qed.

Section keeping.
Variable I : S -> Prop.

(** No step breaks the invariant, whatever the others do between the steps as
    long as they do not break it. *)
Inductive safe : thread -> Prop :=
  | safe_done r : safe (TDone r)
  | safe_step f : (forall s t s', I s -> f s = Some (t, s') -> I s' /\ safe t) -> safe (TStep f).

(** A computation whose result satisfies [Q]. *)
Definition th_safe {A} (m : Th A) (Q : E + A -> Prop) : Prop :=
  forall k, (forall r, Q r -> safe (k r)) -> safe (m k).

Lemma th_safe_weaken {A} (m : Th A) (Q Q' : E + A -> Prop) : (forall r, Q r -> Q' r) -> th_safe m Q -> th_safe m Q'.
Proof. intros H Hm k Hk. apply Hm. auto. Qed.
Lemma th_safe_ret {A} (a : A) (Q : E + A -> Prop) : Q (inr a) -> th_safe (th_ret a) Q.
Proof. intros H k Hk. by apply Hk. Qed.
Lemma th_safe_throw {A} e (Q : E + A -> Prop) : Q (inl e) -> th_safe (th_throw e) Q.
Proof. intros H k Hk. by apply Hk. Qed.

Lemma th_safe_bind {A B} (m : Th A) (f : A -> Th B) (R : E + A -> Prop) (Q : E + B -> Prop) :
  th_safe m R -> (forall e, R (inl e) -> Q (inl e)) -> (forall a, R (inr a) -> th_safe (f a) Q) -> th_safe (th_bind m f) Q.
Proof. intros Hm He Hf k Hk. apply Hm. intros [e|a] Hr; [by apply Hk, He|]. by apply (Hf a). Qed.

Lemma th_safe_finally {A} (m : Th A) (fin : Th unit) (Q : E + A -> Prop) :
  th_safe m Q -> th_safe fin (fun r => r = inr tt) -> th_safe (th_finally m fin) Q.
Proof. intros Hm Hf k Hk. apply Hm. intros r Hr. apply Hf. intros r' ->. by apply Hk. Qed.

Lemma th_safe_do {A} (m : M S E A) (Q : E + A -> Prop) : (forall s, I s -> I (m s).2 /\ Q (m s).1) -> th_safe (th_do m) Q.
Proof.
  intros Hm k Hk. apply safe_step. intros s t s' Hi. specialize (Hm s Hi). destruct (m s) as [r s1]. intros [= <- <-].
  destruct Hm as [Hi' Hq]. auto.
Qed.

Lemma th_safe_when ready f : (forall s, I s -> I (f s)) -> th_safe (th_when ready f) (fun r => r = inr tt).
Proof. intros Hf k Hk. apply safe_step. intros s t s' Hi. destruct (ready s); [|done]. intros [= <- <-]. auto. Qed.

Lemma crowd_safe c c' : rtc crowd_step c c' -> I (cr_state c) -> Forall safe (cr_threads c) -> I (cr_state c') /\ Forall safe (cr_threads c').
Proof.
  induction 1 as [|c c1 c2 Hstep1 _ IH]; intros Hi Ht; [done|]. destruct Hstep1 as [i c c1 Hs]. unfold step_crowd in Hs.
  destruct (cr_threads c !! i) as [[r|f]|] eqn:Hl; [done| |done]. destruct (f (cr_state c)) as [[t s]|] eqn:Hf; [|done]. injection Hs as <-.
  pose proof (proj1 (Forall_lookup _ _) Ht _ _ Hl) as Hsafe. inversion Hsafe as [|f' Hstep]; subst. destruct (Hstep _ _ _ Hi Hf) as [Hi' Ht'].
  apply IH; [exact Hi'|]. cbn. by apply Forall_insert.
Qed.

Lemma promise_all_safe schedule stuck calls s : I s -> Forall (fun m => th_safe m (fun _ => True)) calls ->
  I (promise_all schedule stuck calls s).2.
Proof.
  intros Hi Hc. destruct (promise_all_steps schedule stuck calls s) as (c & Hsteps & -> & _).
  eapply crowd_safe; [exact Hsteps|exact Hi|]. cbn. apply Forall_fmap. eapply Forall_impl; [exact Hc|].
  intros m Hm. apply (Hm TDone). intros r _. apply safe_done.
Qed.
End keeping.
End threads.
