(* ===== verification/Dates.v ===== *)
(** * Dates (JavaScript's [Date], and extension/src/util/hour.ts)

    Instants are whole milliseconds since 1970. [toISOString] and the ISO part
    of [Date.parse] are ECMAScript's, over the proleptic Gregorian calendar;
    which other strings [Date.parse] reads is up to the platform. *)

From S2P Require Import Prelude JsMap Types Util Json.

Open Scope Z_scope.
Open Scope js_scope.

(** ** The calendar *)

(** Years start in March here, so that the leap day is the last one. An era is
    400 years; [doe] counts the days of an era. *)
Definition DAYS_PER_ERA : Z := 146097.
Definition EPOCH_DAYS : Z := 719468.

(** (year of the era, month from March, day of the month) *)
Definition civil_of_doe (doe : Z) : Z * Z * Z :=
  let yoe := (doe - doe / 1460 + doe / 36524 - doe / 146096) / 365 in
  let doy := doe - (365 * yoe + yoe / 4 - yoe / 100) in
  let mp := (5 * doy + 2) / 153 in
  (yoe, mp, doy - (153 * mp + 2) / 5 + 1).

Definition doe_of_civil (yoe mp d : Z) : Z :=
  yoe * 365 + yoe / 4 - yoe / 100 + ((153 * mp + 2) / 5 + d - 1).

Definition month_of (mp : Z) : Z := if mp <? 10 then mp + 3 else mp - 9.

(** (year, month, day) of a day counted from 1970-01-01. *)
Definition civil_of_days (days : Z) : Z * Z * Z :=
  let z := days + EPOCH_DAYS in
  let '(yoe, mp, d) := civil_of_doe (z mod DAYS_PER_ERA) in
  let m := month_of mp in
  (yoe + z / DAYS_PER_ERA * 400 + (if m <=? 2 then 1 else 0), m, d).

Definition days_of_civil (y m d : Z) : Z :=
  let y' := if m <=? 2 then y - 1 else y in
  y' / 400 * DAYS_PER_ERA + doe_of_civil (y' mod 400) ((m + 9) mod 12) d - EPOCH_DAYS.

(** ** [Date.prototype.toISOString] *)

Definition MS_PER_DAY : Z := 86400000.
Definition MAX_TIME : Z := 8640000000000000.

Definition dig (n k : Z) : ascii := digit_ascii (n / k mod 10).
Definition digits2 (n : Z) : list ascii := [dig n 10; dig n 1].
Definition digits3 (n : Z) : list ascii := dig n 100 :: digits2 n.
Definition digits4 (n : Z) : list ascii := dig n 1000 :: digits3 n.

Definition iso_year (y : Z) : list ascii :=
  if (0 <=? y) && (y <=? 9999) then digits4 y
  else (if y <? 0 then "-"%char else "+"%char) :: dig (Z.abs y) 100000 :: dig (Z.abs y) 10000 :: digits4 (Z.abs y).

Definition iso_chars (t : Z) : list ascii :=
  let '(y, m, d) := civil_of_days (t / MS_PER_DAY) in
  let r := t mod MS_PER_DAY in
  iso_year y ++ "-"%char :: digits2 m ++ "-"%char :: digits2 d ++ "T"%char ::
  digits2 (r / 3600000) ++ ":"%char :: digits2 (r / 60000 mod 60) ++ ":"%char ::
  digits2 (r / 1000 mod 60) ++ "."%char :: digits3 (r mod 1000) ++ ["Z"%char].

(** [new Date(t).toISOString()]; [None] where it throws a [RangeError]. *)
Definition toISOString (t : Z) : option string :=
  if Z.abs t <=? MAX_TIME then Some (string_of_list_ascii (iso_chars t)) else None.

(** ** [Date.parse] *)

Definition read_digits (cs : list ascii) : option Z :=
  foldl (fun acc c => match acc, digit_value c with Some a, Some d => Some (a * 10 + d) | _, _ => None end) (Some 0) cs.

(** The instant a string of [toISOString]'s format and year range denotes. *)
Definition iso_instant (cs : list ascii) : option Z :=
  match cs with
  | [y1; y2; y3; y4; _; m1; m2; _; d1; d2; _; h1; h2; _; n1; n2; _; s1; s2; _; f1; f2; f3; _] =>
      match read_digits [y1; y2; y3; y4], read_digits [m1; m2], read_digits [d1; d2], read_digits [h1; h2],
            read_digits [n1; n2], read_digits [s1; s2], read_digits [f1; f2; f3] with
      | Some y, Some m, Some d, Some h, Some n, Some s, Some f =>
          Some (days_of_civil y m d * MS_PER_DAY + h * 3600000 + n * 60000 + s * 1000 + f)
      | _, _, _, _, _, _, _ => None
      end
  | _ => None
  end.

(** What [Date.parse] makes of any other string; [None] is [NaN]. *)
Class DatePlatform := { parse_other : string -> option Z }.

Definition Date_parse `{DatePlatform} (s : string) : option Z :=
  match iso_instant (list_ascii_of_string s) with
  | Some t => if bool_decide (toISOString t = Some s) then Some t else parse_other s
  | None => parse_other s
  end.

(** ** hour.ts *)

Definition MS_PER_HOUR : Z := 3600000.
Definition hourKey (ms : Z) : option string := toISOString (ms / MS_PER_HOUR * MS_PER_HOUR).

(** ** The calendar is one *)

Fixpoint all_from (n : nat) (i : Z) (f : Z -> bool) : bool :=
  match n with
  | O => true
  | S n => if f i then all_from n (i + 1) f else false
  end.

Lemma all_from_spec n i f : all_from n i f = true -> forall j, i <= j < i + Z.of_nat n -> f j = true.
Proof.
  revert i. induction n as [|n IH]; intros i H j Hj; [lia|]. cbn [all_from] in H.
  destruct (f i) eqn:E; [|done]. destruct (decide (j = i)) as [->|]; [done|]. apply (IH _ H). lia.
Qed.

Definition yoe_of (doe : Z) : Z := (doe - doe / 1460 + doe / 36524 - doe / 146096) / 365.
Definition year_start (yoe : Z) : Z := 365 * yoe + yoe / 4 - yoe / 100.

(** Every day of the year [yoe] is read as one of that year: the first and the
    last are, and the year never goes down. *)
Definition year_ok (yoe : Z) : bool :=
  (yoe_of (year_start yoe) =? yoe) &&
  (yoe_of (if yoe =? 399 then 146096 else year_start (yoe + 1) - 1) =? yoe) &&
  (year_start (yoe + 1) - year_start yoe <=? 366).

Definition day_ok (doy : Z) : bool :=
  let mp := (5 * doy + 2) / 153 in
  (0 <=? mp) && (mp <? 12) && (1 <=? doy - (153 * mp + 2) / 5 + 1) && (doy - (153 * mp + 2) / 5 + 1 <=? 31) &&
  ((306 <=? doy) || (mp <? 10)).

Lemma years_ok yoe : 0 <= yoe < 400 -> year_ok yoe = true.
Proof. intros H. apply (all_from_spec 400 0); [vm_compute; reflexivity|lia]. Qed.
Lemma days_ok doy : 0 <= doy <= 366 -> day_ok doy = true.
Proof. intros H. apply (all_from_spec 367 0); [vm_compute; reflexivity|lia]. Qed.

Lemma yoe_of_mono a b : 0 <= a -> a <= b -> b < DAYS_PER_ERA -> yoe_of a <= yoe_of b.
Proof.
  unfold DAYS_PER_ERA. intros Ha Hab Hb. unfold yoe_of. apply Z.div_le_mono; [done|].
  destruct (decide (b = 146096)) as [->|].
  - change (146096 / 1460) with 100. change (146096 / 36524) with 4. change (146096 / 146096) with 1.
    destruct (decide (a = 146096)) as [->|]; [done|].
    rewrite (Z.div_small a 146096) by lia.
    pose proof (Z.mul_div_le a 36524 ltac:(lia)). pose proof (Z.div_mod a 1460 ltac:(done)).
    pose proof (Z.mod_pos_bound a 1460 ltac:(done)). lia.
  - rewrite (Z.div_small a 146096), (Z.div_small b 146096) by lia.
    pose proof (Z.div_le_mono a b 36524 ltac:(done) Hab).
    pose proof (Z.div_mod a 1460 ltac:(done)). pose proof (Z.mod_pos_bound a 1460 ltac:(done)).
    pose proof (Z.div_mod b 1460 ltac:(done)). pose proof (Z.mod_pos_bound b 1460 ltac:(done)). lia.
Qed.

Lemma yoe_of_spec doe : 0 <= doe < DAYS_PER_ERA ->
  0 <= yoe_of doe < 400 /\ 0 <= doe - year_start (yoe_of doe) < 366 /\
  (yoe_of doe = 399 -> doe - year_start 399 < 306 -> doe <= 146036).
Proof.
  unfold DAYS_PER_ERA. intros Hd.
  assert (0 <= yoe_of doe < 400) as Hy.
  { pose proof (yoe_of_mono 0 doe ltac:(lia) ltac:(lia) ltac:(unfold DAYS_PER_ERA; lia)) as H0.
    pose proof (yoe_of_mono doe 146096 ltac:(lia) ltac:(lia) ltac:(unfold DAYS_PER_ERA; lia)) as H1.
    change (yoe_of 0) with 0 in H0. change (yoe_of 146096) with 399 in H1. lia. }
  assert (year_start (yoe_of doe) <= doe) as Hlo.
  { destruct (Z.le_gt_cases (year_start (yoe_of doe)) doe) as [|Hlt]; [done|exfalso].
    destruct (decide (yoe_of doe = 0)) as [E|Hne]; [rewrite E in Hlt; change (year_start 0) with 0 in Hlt; lia|].
    pose proof (years_ok (yoe_of doe - 1) ltac:(lia)) as Hok. unfold year_ok in Hok. js_bool.
    replace (yoe_of doe - 1 + 1) with (yoe_of doe) in * by lia.
    rewrite (proj2 (Z.eqb_neq _ _)) in * by lia.
    pose proof (yoe_of_mono doe (year_start (yoe_of doe) - 1) ltac:(lia) ltac:(lia)) as Hm.
    assert (year_start (yoe_of doe) <= 146097) by (unfold year_start; Z.to_euclidean_division_equations; lia).
    unfold DAYS_PER_ERA in Hm. lia. }
  pose proof (years_ok (yoe_of doe) Hy) as Hok. unfold year_ok in Hok. js_bool.
  split_and!; try lia.
  - destruct (decide (yoe_of doe = 399)) as [E|Hne].
    + rewrite E in *. change (year_start 399) with 145731 in *. lia.
    + rewrite (proj2 (Z.eqb_neq _ _)) in * by lia.
      destruct (Z.lt_ge_cases doe (year_start (yoe_of doe + 1))) as [|Hge]; [lia|exfalso].
      pose proof (years_ok (yoe_of doe + 1) ltac:(lia)) as Hok. unfold year_ok in Hok. js_bool.
      pose proof (yoe_of_mono (year_start (yoe_of doe + 1)) doe ltac:(unfold year_start; Z.to_euclidean_division_equations; lia) Hge ltac:(unfold DAYS_PER_ERA; lia)). lia.
  - intros _. change (year_start 399) with 145731. lia.
Qed.

Lemma civil_of_doe_spec doe : 0 <= doe < DAYS_PER_ERA ->
  let '(yoe, mp, d) := civil_of_doe doe in
  0 <= yoe < 400 /\ 0 <= mp < 12 /\ 1 <= d <= 31 /\ doe_of_civil yoe mp d = doe /\
  (doe <= 146036 -> yoe = 399 -> mp < 10).
Proof.
  intros Hd. unfold civil_of_doe. change ((doe - doe / 1460 + doe / 36524 - doe / 146096) / 365) with (yoe_of doe).
  change (365 * yoe_of doe + yoe_of doe / 4 - yoe_of doe / 100) with (year_start (yoe_of doe)).
  destruct (yoe_of_spec doe Hd) as (Hy & Hdoy & _). pose proof (days_ok (doe - year_start (yoe_of doe)) ltac:(lia)) as Hok.
  cbv zeta. unfold day_ok in Hok. apply andb_true_iff in Hok as [Hok Hm]. js_bool. split_and!; try lia.
  - unfold doe_of_civil, year_start. lia.
  - intros Hle Hy9. rewrite Hy9 in Hm |- *. change (year_start 399) with 145731 in *.
    apply orb_true_iff in Hm as [Hm|Hm]; js_bool; lia.
Qed.

Definition YEAR_10000 : Z := 253402300800000.

Lemma civil_of_days_spec days : 0 <= days < YEAR_10000 / MS_PER_DAY ->
  let '(y, m, d) := civil_of_days days in
  0 <= y <= 9999 /\ 1 <= m <= 12 /\ 1 <= d <= 31 /\ days_of_civil y m d = days.
Proof.
  change (YEAR_10000 / MS_PER_DAY) with 2932897. intros Hd. unfold civil_of_days.
  pose proof (Z.mod_pos_bound (days + EPOCH_DAYS) DAYS_PER_ERA ltac:(done)) as Hm.
  pose proof (Z.div_mod (days + EPOCH_DAYS) DAYS_PER_ERA ltac:(done)) as Hdm.
  pose proof (civil_of_doe_spec _ Hm) as Hok. revert Hok Hm Hdm.
  generalize ((days + EPOCH_DAYS) mod DAYS_PER_ERA) as doe. generalize ((days + EPOCH_DAYS) / DAYS_PER_ERA) as era.
  intros era doe. destruct (civil_of_doe doe) as [[yoe mp] d]. unfold DAYS_PER_ERA, EPOCH_DAYS.
  intros (Hy1 & Hm1 & Hd1 & Hdoe & Hlast) Hm Hdm.
  assert (0 <= era <= 24) as Hera by lia.
  assert ((month_of mp + 9) mod 12 = mp /\ 1 <= month_of mp <= 12) as [Hmp Hmo].
  { unfold month_of. destruct (Z.ltb_spec mp 10); split; try lia.
    - replace (mp + 3 + 9) with (mp + 1 * 12) by lia. rewrite Z.mod_add by done. apply Z.mod_small. lia.
    - replace (mp - 9 + 9) with mp by lia. apply Z.mod_small. lia. }
  assert ((if month_of mp <=? 2 then yoe + era * 400 + (if month_of mp <=? 2 then 1 else 0) - 1
           else yoe + era * 400 + (if month_of mp <=? 2 then 1 else 0)) = yoe + era * 400) as Hy.
  { destruct (month_of mp <=? 2); lia. }
  split_and!; try lia.
  - destruct (month_of mp <=? 2); lia.
  - assert (era = 24 -> yoe = 399 -> mp < 10) by (intros; apply Hlast; lia).
    unfold month_of in *. destruct (Z.leb_spec (if mp <? 10 then mp + 3 else mp - 9) 2), (Z.ltb_spec mp 10); lia.
  - unfold days_of_civil. rewrite Hy, Z.div_add, (Z.div_small yoe), Z.mod_add, (Z.mod_small yoe), Hmp by lia. unfold DAYS_PER_ERA, EPOCH_DAYS. lia.
Qed.

(** ** Printing and reading *)

Lemma digit_value_dig n k : digit_value (dig n k) = Some (n / k mod 10).
Proof. apply digit_value_ascii, Z.mod_pos_bound. done. Qed.

Lemma read_digits_cons c cs acc d : digit_value c = Some d ->
  foldl (fun acc c => match acc, digit_value c with Some a, Some d => Some (a * 10 + d) | _, _ => None end) (Some acc) (c :: cs) =
  foldl (fun acc c => match acc, digit_value c with Some a, Some d => Some (a * 10 + d) | _, _ => None end) (Some (acc * 10 + d)) cs.
Proof. intros H. cbn [foldl]. by rewrite H. Qed.

Ltac read_digits_tac :=
  unfold read_digits; repeat (rewrite (read_digits_cons _ _ _ _ (digit_value_dig _ _))); cbn [foldl]; f_equal;
  Z.to_euclidean_division_equations; lia.

Lemma read_digits2 n : 0 <= n < 100 -> read_digits [dig n 10; dig n 1] = Some n.
Proof. intros. read_digits_tac. Qed.
Lemma read_digits3 n : 0 <= n < 1000 -> read_digits [dig n 100; dig n 10; dig n 1] = Some n.
Proof. intros. read_digits_tac. Qed.
Lemma read_digits4 n : 0 <= n <= 9999 -> read_digits [dig n 1000; dig n 100; dig n 10; dig n 1] = Some n.
Proof. intros. read_digits_tac. Qed.

Lemma day_parts r : 0 <= r < MS_PER_DAY ->
  0 <= r / 3600000 < 24 /\ 0 <= r / 60000 mod 60 < 60 /\ 0 <= r / 1000 mod 60 < 60 /\ 0 <= r mod 1000 < 1000 /\
  r / 3600000 * 3600000 + r / 60000 mod 60 * 60000 + r / 1000 mod 60 * 1000 + r mod 1000 = r.
Proof. unfold MS_PER_DAY. intros. Z.to_euclidean_division_equations. lia. Qed.

Lemma iso_instant_chars t : 0 <= t < YEAR_10000 -> iso_instant (iso_chars t) = Some t.
Proof.
  intros Ht. unfold iso_chars.
  assert (0 <= t / MS_PER_DAY < YEAR_10000 / MS_PER_DAY) as Hday.
  { split; [apply Z.div_pos; [lia|done]|]. apply Z.div_lt_upper_bound; [done|]. 
    change (MS_PER_DAY * (YEAR_10000 / MS_PER_DAY)) with YEAR_10000. lia. }
  pose proof (civil_of_days_spec _ Hday) as Hc. destruct (civil_of_days _) as [[y m] d]. destruct Hc as (Hy & Hm & Hd & Hdays).
  destruct (day_parts (t mod MS_PER_DAY) ltac:(by apply Z.mod_pos_bound)) as (H1 & H2 & H3 & H4 & Hr).
  unfold iso_year. rewrite (proj2 (Z.leb_le 0 y)), (proj2 (Z.leb_le y 9999)) by lia. cbn [andb].
  cbn [digits4 digits3 digits2 app]. cbn [iso_instant].
  rewrite read_digits4, !read_digits2, read_digits3 by lia. f_equal. rewrite Hdays, <- !Z.add_assoc, !Z.add_assoc.
  pose proof (Z.div_mod t MS_PER_DAY ltac:(done)). lia.
Qed.

(** What [toISOString] prints, [Date.parse] reads back. *)
Lemma Date_parse_toISOString `{DatePlatform} t s : 0 <= t < YEAR_10000 -> toISOString t = Some s -> Date_parse s = Some t.
Proof.
  intros Ht Hs. unfold Date_parse. pose proof Hs as Hs'. unfold toISOString in Hs'. destruct (_ <=? _); [|done].
  injection Hs' as <-. rewrite list_ascii_of_string_of_list_ascii, iso_instant_chars by done. by rewrite bool_decide_eq_true_2.
Qed.

Lemma toISOString_total t : 0 <= t < YEAR_10000 -> exists s, toISOString t = Some s.
Proof. intros Ht. unfold toISOString. assert (Z.abs t <= MAX_TIME) as H by (unfold YEAR_10000, MAX_TIME in *; lia).
  apply Z.leb_le in H. rewrite H. eauto. Qed.

Lemma hour_start_range t : 0 <= t < YEAR_10000 -> 0 <= t / MS_PER_HOUR * MS_PER_HOUR < YEAR_10000.
Proof.
  unfold YEAR_10000, MS_PER_HOUR. intros. pose proof (Z.div_mod t 3600000 ltac:(done)).
  pose proof (Z.mod_pos_bound t 3600000 ltac:(done)). lia.
Qed.

(** Two instants of the years up to 9999 share an hour key exactly when
    they lie in the same hour, and the key is the ISO form of an instant of
    that hour: reading it back gives the hour's start. *)
Theorem hourKey_same_hour `{DatePlatform} t1 t2 : 0 <= t1 < YEAR_10000 -> 0 <= t2 < YEAR_10000 ->
  (hourKey t1 = hourKey t2 <-> t1 / MS_PER_HOUR = t2 / MS_PER_HOUR) /\
  exists key, hourKey t1 = Some key /\ Date_parse key = Some (t1 - t1 mod MS_PER_HOUR).
Proof.
  intros H1 H2. unfold hourKey. pose proof (hour_start_range t1 H1) as R1. pose proof (hour_start_range t2 H2) as R2.
  destruct (toISOString_total _ R1) as [s1 E1], (toISOString_total _ R2) as [s2 E2].
  pose proof (Date_parse_toISOString _ _ R1 E1) as P1. pose proof (Date_parse_toISOString _ _ R2 E2) as P2.
  pose proof (Z.div_mod t1 MS_PER_HOUR ltac:(done)). split.
  - split; [|by intros ->]. rewrite E1, E2. intros [= ->]. rewrite P1 in P2. injection P2. unfold MS_PER_HOUR. lia.
  - exists s1. split; [done|]. rewrite P1. f_equal. lia.
Qed.

(** Agrees with the platform on the dates that matter most. *)
Example iso_examples :
  toISOString 0 = Some "1970-01-01T00:00:00.000Z" /\
  toISOString 1709210096789 = Some "2024-02-29T12:34:56.789Z" /\
  toISOString (-1) = Some "1969-12-31T23:59:59.999Z" /\
  toISOString (-62198755200000) = Some "-000001-01-01T00:00:00.000Z" /\
  toISOString MAX_TIME = Some "+275760-09-13T00:00:00.000Z" /\
  toISOString (MAX_TIME + 1) = None /\
  hourKey 1790156832345 = Some "2026-09-23T09:00:00.000Z".
Proof. vm_compute. done. Qed.
