(* ===== verification/Storage.v ===== *)
(** * IndexedDB storage (extension/src/storage/db.ts)

    The schema as a record of object stores and one definition per storage
    operation. A store is a [gmap] from primary key to record; an index cursor
    walks the records sorted by (index key, primary key), as IndexedDB
    specifies. Each operation runs in one readwrite transaction, so it is one
    function on the database. [now] arguments are [Date.now()] (or its ISO
    form, a string) at the call. *)

From S2P Require Import Prelude JsMap Types Util.

Open Scope Z_scope.
Open Scope js_scope.

(** ** Records *)

Inductive PendingState := LOCAL_QUEUED | UPLOAD_IN_FLIGHT.
#[export] Instance PendingState_eq_dec : EqDecision PendingState.
Proof. solve_decision. Defined.

Record PendingOperationRecord := mkPending {
  operation : LocalOperation;
  state : PendingState;
  po_createdAt : string;
  attempts : Z;
}.

Record DeviceRecord := mkDevice {
  serverUrl : string;
  deviceId : string;
  userId : string;
  email : string;
  accessToken : string;
  accessTokenExpiresAt : string;
  refreshToken : string;
  accountKey : string;
  accountKeyVersion : Z;
  initialImportCompletedAt : option string;
  historyBulkCutoffMs : option Z;
  historyBulkEndMs : option Z;
  historyBulkOperationId : option string;
  historyBulkObjectId : option string;
  historyBulkUploadedChunks : option Z;
  historyBulkUploadedVisits : option Z;
  historyOlderCutoffMs : option Z;
  historyOlderEndMs : option Z;
  historyOlderUploadedChunks : option Z;
  historyOlderUploadedVisits : option Z;
}.

Record SyncStateRecord := mkSyncState {
  cursor : Z;
  lamportClock : Z;
  ss_deviceSequence : Z;
  lastSyncAt : option string;
  lastMaintenanceAt : option string;
}.

Definition initialSyncState : SyncStateRecord := mkSyncState 0 0 0 None None.

Record ObjectMappingRecord := mkMapping {
  om_key : string;
  om_objectType : ObjectType;
  chromiumLocalId : string;
  om_objectId : string;
}.

Record ConflictRecord := mkConflict {
  cf_objectType : ObjectType;
  cf_objectId : string;
  description : string;
  cf_createdAt : string;
  resolved : bool;
}.

Record DeferredMaterializationRecord := mkDeferred {
  df_objectId : string;
  df_objectType : ObjectType;
  waitingOnParent : string;
  df_createdAt : string;
}.

Record RemoteObjectRecord := mkRemote {
  ro_objectId : string;
  ro_objectType : ObjectType;
  originDeviceId : string;
  ro_payload : jsval;
  deleted : bool;
  updatedAt : string;
}.

Record FieldStateRecord := mkFieldState {
  fs_key : string;
  fs_objectId : string;
  fs_field : string;
  fs_lamportTimestamp : Z;
  fs_deviceId : string;
  fs_operationId : string;
  fs_operationType : OperationType;
  fs_value : jsval;
  recordedAt : option Z;
}.

Record RestorePointOutboxRecord := mkOutbox {
  ob_id : string;
  ob_kind : string;
  ob_bookmarkCount : Z;
  ob_encryptionVersion : Z;
  ob_codec : bool;
  ob_envelope : jsval;
  ob_createdAt : string;
  ob_attempts : Z;
}.

Inductive RestoreMode := Merge | Exact.
Inductive RestoreScope := ScopeAll | ScopeFolder (id : string).
Inductive RestorePhase := JobPreparing | JobApplying | JobFinishing.
#[export] Instance RestoreMode_eq_dec : EqDecision RestoreMode.
Proof. solve_decision. Defined.
#[export] Instance RestoreScope_eq_dec : EqDecision RestoreScope.
Proof. solve_decision. Defined.

Record RestoreJobRecord := mkRestoreJob {
  rj_pointId : string;
  rj_mode : RestoreMode;
  rj_scope : RestoreScope;
  preRestorePointId : string;
  startedAt : string;
  rj_applied : Z;
  rj_total : Z;
  rj_phase : RestorePhase;
}.

(** ** The database *)

Record DB := mkDB {
  db_device : option DeviceRecord;
  sync_state : option SyncStateRecord;
  pending_operations : gmap string PendingOperationRecord;
  applied_operations : gmap string string;      (** operationId -> appliedAt *)
  object_mappings : gmap string ObjectMappingRecord;
  conflicts : list (Z * ConflictRecord);        (** in key order *)
  conflicts_next : Z;                           (** the autoIncrement generator *)
  field_state : gmap string FieldStateRecord;
  remote_objects : gmap string RemoteObjectRecord;
  deferred_materializations : gmap string DeferredMaterializationRecord;
  restore_point_outbox : gmap string RestorePointOutboxRecord;
  restore_job : option RestoreJobRecord;
}.

Definition emptyDB : DB := mkDB None None ∅ ∅ ∅ [] 1 ∅ ∅ ∅ ∅ None.

Definition set_device (d : option DeviceRecord) (s : DB) : DB :=
  mkDB d (sync_state s) (pending_operations s) (applied_operations s) (object_mappings s)
    (conflicts s) (conflicts_next s) (field_state s) (remote_objects s)
    (deferred_materializations s) (restore_point_outbox s) (restore_job s).
Definition set_sync_state (x : SyncStateRecord) (s : DB) : DB :=
  mkDB (db_device s) (Some x) (pending_operations s) (applied_operations s) (object_mappings s)
    (conflicts s) (conflicts_next s) (field_state s) (remote_objects s)
    (deferred_materializations s) (restore_point_outbox s) (restore_job s).
Definition set_pending (x : gmap string PendingOperationRecord) (s : DB) : DB :=
  mkDB (db_device s) (sync_state s) x (applied_operations s) (object_mappings s)
    (conflicts s) (conflicts_next s) (field_state s) (remote_objects s)
    (deferred_materializations s) (restore_point_outbox s) (restore_job s).
Definition set_applied (x : gmap string string) (s : DB) : DB :=
  mkDB (db_device s) (sync_state s) (pending_operations s) x (object_mappings s)
    (conflicts s) (conflicts_next s) (field_state s) (remote_objects s)
    (deferred_materializations s) (restore_point_outbox s) (restore_job s).
Definition set_mappings (x : gmap string ObjectMappingRecord) (s : DB) : DB :=
  mkDB (db_device s) (sync_state s) (pending_operations s) (applied_operations s) x
    (conflicts s) (conflicts_next s) (field_state s) (remote_objects s)
    (deferred_materializations s) (restore_point_outbox s) (restore_job s).
Definition set_conflicts (x : list (Z * ConflictRecord)) (n : Z) (s : DB) : DB :=
  mkDB (db_device s) (sync_state s) (pending_operations s) (applied_operations s) (object_mappings s)
    x n (field_state s) (remote_objects s)
    (deferred_materializations s) (restore_point_outbox s) (restore_job s).
Definition set_field_state (x : gmap string FieldStateRecord) (s : DB) : DB :=
  mkDB (db_device s) (sync_state s) (pending_operations s) (applied_operations s) (object_mappings s)
    (conflicts s) (conflicts_next s) x (remote_objects s)
    (deferred_materializations s) (restore_point_outbox s) (restore_job s).
Definition set_remote (x : gmap string RemoteObjectRecord) (s : DB) : DB :=
  mkDB (db_device s) (sync_state s) (pending_operations s) (applied_operations s) (object_mappings s)
    (conflicts s) (conflicts_next s) (field_state s) x
    (deferred_materializations s) (restore_point_outbox s) (restore_job s).
Definition set_deferred (x : gmap string DeferredMaterializationRecord) (s : DB) : DB :=
  mkDB (db_device s) (sync_state s) (pending_operations s) (applied_operations s) (object_mappings s)
    (conflicts s) (conflicts_next s) (field_state s) (remote_objects s)
    x (restore_point_outbox s) (restore_job s).
Definition set_outbox (x : gmap string RestorePointOutboxRecord) (s : DB) : DB :=
  mkDB (db_device s) (sync_state s) (pending_operations s) (applied_operations s) (object_mappings s)
    (conflicts s) (conflicts_next s) (field_state s) (remote_objects s)
    (deferred_materializations s) x (restore_job s).
Definition set_restore_job (x : option RestoreJobRecord) (s : DB) : DB :=
  mkDB (db_device s) (sync_state s) (pending_operations s) (applied_operations s) (object_mappings s)
    (conflicts s) (conflicts_next s) (field_state s) (remote_objects s)
    (deferred_materializations s) (restore_point_outbox s) x.

(** ** Keys *)

Definition mappingKey (t : ObjectType) (id : string) : string :=
  ObjectType_str t +:+ ":" +:+ id.
Definition fieldStateKey (objectId field : string) : string :=
  objectId +:+ ":" +:+ field.

(** ** Batched requests

    [IDB_BATCH_CHUNK] requests are issued at a time within the transaction. *)

Definition IDB_BATCH_CHUNK : nat := 200.

Definition putAllChunked {A} (puts : list (A -> A)) (store : A) : A :=
  foldl (foldl (fun st f => f st)) store (slices puts IDB_BATCH_CHUNK).

(** The found records in the order of their ids; a [Map] keyed by id. *)
Definition getAllChunked {A} (ids : list string) (get : string -> option A) : jmap string A :=
  foldl (foldl (fun found id => match get id with Some r => jm_set found id r | None => found end))
    [] (slices ids IDB_BATCH_CHUNK).

(** ** Index cursors *)

(** Records in primary-key order. *)
Definition row_le {A} (r1 r2 : string * A) : Prop := r1.1 <=s r2.1.
#[export] Instance row_le_dec {A} (r1 r2 : string * A) : Decision (row_le r1 r2).
Proof. unfold row_le. apply _. Defined.
Definition rows {A} (m : gmap string A) : list (string * A) := merge_sort row_le (map_to_list m).

(** Records in (integer index key, primary key) order. *)
Definition zrow_le {A} (f : A -> Z) (r1 r2 : string * A) : Prop :=
  f r1.2 < f r2.2 \/ (f r1.2 = f r2.2 /\ r1.1 <=s r2.1).
#[export] Instance zrow_le_dec {A} (f : A -> Z) (r1 r2 : string * A) : Decision (zrow_le f r1 r2).
Proof. unfold zrow_le. apply _. Defined.
Definition zindex {A} (f : A -> Z) (m : gmap string A) : list (string * A) :=
  merge_sort (zrow_le f) (map_to_list m).

(** Records in (string index key, primary key) order. *)
Definition srow_le {A} (f : A -> string) (r1 r2 : string * A) : Prop :=
  f r1.2 <s f r2.2 \/ (f r1.2 = f r2.2 /\ r1.1 <=s r2.1).
#[export] Instance srow_le_dec {A} (f : A -> string) (r1 r2 : string * A) : Decision (srow_le f r1 r2).
Proof. unfold srow_le. apply _. Defined.
Definition sindex {A} (f : A -> string) (m : gmap string A) : list (string * A) :=
  merge_sort (srow_le f) (map_to_list m).

(** ** Sync state and counters *)

(** [(await store.get("self")) ?? initialSyncState()] *)
Definition sync_or_initial (s : DB) : SyncStateRecord := default initialSyncState (sync_state s).

Definition getSyncState (s : DB) : SyncStateRecord * DB :=
  match sync_state s with
  | Some x => (x, s)
  | None => (initialSyncState, set_sync_state initialSyncState s)
  end.

(** [Partial<Pick<SyncStateRecord, "cursor" | "lastSyncAt" | "lastMaintenanceAt">>] *)
Record SyncStatePatch := mkPatch {
  patch_cursor : option Z;
  patch_lastSyncAt : option string;
  patch_lastMaintenanceAt : option string;
}.

Definition or_else {A} (x y : option A) : option A := match x with Some _ => x | None => y end.

Definition updateSyncState (patch : SyncStatePatch) (s : DB) : DB :=
  let st := sync_or_initial s in
  set_sync_state (mkSyncState (default (cursor st) (patch_cursor patch)) (lamportClock st)
    (ss_deviceSequence st) (or_else (patch_lastSyncAt patch) (lastSyncAt st))
    (or_else (patch_lastMaintenanceAt patch) (lastMaintenanceAt st))) s.

Definition tickLamportClock (observed : option Z) (s : DB) : Z * DB :=
  let st := sync_or_initial s in
  let clock := Z.max (lamportClock st) (default 0 observed) + 1 in
  (clock, set_sync_state (mkSyncState (cursor st) clock (ss_deviceSequence st) (lastSyncAt st)
    (lastMaintenanceAt st)) s).

(** Returns (startDeviceSequence, startLamport). *)
Definition reserveSequenceBatch (count : Z) (s : DB) : (Z * Z) * DB :=
  let st := sync_or_initial s in
  ((ss_deviceSequence st, lamportClock st),
   set_sync_state (mkSyncState (cursor st) (lamportClock st + count) (ss_deviceSequence st + count)
     (lastSyncAt st) (lastMaintenanceAt st)) s).

(** ** The upload queue *)

Definition queued (op : LocalOperation) (createdAt : string) : PendingOperationRecord :=
  mkPending op LOCAL_QUEUED createdAt 0.

Definition put_queued (createdAt : string) (op : LocalOperation)
    (m : gmap string PendingOperationRecord) : gmap string PendingOperationRecord :=
  <[operationId op := queued op createdAt]> m.

Definition enqueueOperationsBatch (ops : list LocalOperation) (createdAt : string) (s : DB) : DB :=
  set_pending (putAllChunked (map (put_queued createdAt) ops) (pending_operations s)) s.

Definition MAX_SAFE_INTEGER : Z := 2 ^ 53 - 1.

(** The cursor loop shared by both index paths of [getPendingOperations]. *)
Fixpoint scan_pending (rs : list (string * PendingOperationRecord))
    (accept : PendingOperationRecord -> bool) (limit maxScan : nat)
    (results : list PendingOperationRecord) (scanned : nat) : list PendingOperationRecord :=
  match rs with
  | [] => results
  | (_, r) :: rs' =>
      if Nat.ltb (length results) limit && Nat.ltb scanned maxScan then
        scan_pending rs' accept limit maxScan
          (if accept r then results ++ [r] else results) (S scanned)
      else results
  end.

Definition excluded (excludeIds : option (jset string)) (r : PendingOperationRecord) : bool :=
  match excludeIds with Some ids => js_has ids (operationId (operation r)) | None => false end.

Definition sequence_of (r : PendingOperationRecord) : Z := deviceSequence (operation r).

(** [hasStateIndex] is whether "by-state-sequence" exists (databases from v7
    on); without it the [catch] branch walks "by-sequence". *)
Definition getPendingOperations (hasStateIndex : bool) (limit : nat)
    (excludeIds : option (jset string)) (s : DB) : list PendingOperationRecord :=
  let maxScan := (limit + match excludeIds with Some ids => length ids | None => 0 end + 500)%nat in
  if hasStateIndex then
    scan_pending
      (filter (fun r => state r.2 = LOCAL_QUEUED /\
                        0 <= sequence_of r.2 <= MAX_SAFE_INTEGER)
         (zindex sequence_of (pending_operations s)))
      (fun r => negb (excluded excludeIds r)) limit maxScan [] 0
  else
    scan_pending (zindex sequence_of (pending_operations s))
      (fun r => bool_decide (state r = LOCAL_QUEUED) && negb (excluded excludeIds r)) limit maxScan [] 0.

Definition set_state (st : PendingState) (r : PendingOperationRecord) : PendingOperationRecord :=
  mkPending (operation r) st (po_createdAt r) (attempts r).

Definition resetInFlightOperations (s : DB) : DB :=
  set_pending ((fun r => if decide (state r = UPLOAD_IN_FLIGHT) then set_state LOCAL_QUEUED r else r)
               <$> pending_operations s) s.

Definition countPendingOperations (s : DB) : Z := Z.of_nat (size (pending_operations s)).

Definition put_pending (r : PendingOperationRecord) (m : gmap string PendingOperationRecord) :
    gmap string PendingOperationRecord :=
  <[operationId (operation r) := r]> m.

(** The record objects a caller holds after reading the queue. [update] mutates
    the object itself before it is stored, so a record named twice is updated
    twice; an object is known by its operation id. *)
Definition record_heap := jmap string PendingOperationRecord.

Definition heap_of (records : list PendingOperationRecord) : record_heap :=
  jm_of_list (map (fun r => (operationId (operation r), r)) records).

Definition rewrite_record (update : PendingOperationRecord -> PendingOperationRecord) (ref : string)
    (hm : record_heap * gmap string PendingOperationRecord) :
    record_heap * gmap string PendingOperationRecord :=
  match jm_get hm.1 ref with
  | Some r => (jm_set hm.1 ref (update r), put_pending (update r) hm.2)
  | None => hm
  end.

Definition rewritePendingRecords (refs : list string)
    (update : PendingOperationRecord -> PendingOperationRecord) (heap : record_heap) (s : DB) :
    record_heap * DB :=
  match refs with
  | [] => (heap, s)
  | _ => let '(h, m) := putAllChunked (map (rewrite_record update) refs) (heap, pending_operations s) in
         (h, set_pending m s)
  end.

Definition replaceQueuedOperations (removeIds : list string) (added : list LocalOperation)
    (createdAt : string) (s : DB) : DB :=
  set_pending
    (putAllChunked (map (put_queued createdAt) added)
       (putAllChunked (map (fun id m => delete id m) removeIds) (pending_operations s))) s.

Definition markUploadInFlightRecords (refs : list string) (heap : record_heap) (s : DB) : record_heap * DB :=
  rewritePendingRecords refs (set_state UPLOAD_IN_FLIGHT) heap s.

Definition requeue_record (incrementAttempts : bool) (r : PendingOperationRecord) : PendingOperationRecord :=
  mkPending (operation r) LOCAL_QUEUED (po_createdAt r)
    (if incrementAttempts then attempts r + 1 else attempts r).

Definition requeueInFlightRecords (refs : list string) (incrementAttempts : bool) (heap : record_heap) (s : DB) :
    record_heap * DB :=
  rewritePendingRecords refs (requeue_record incrementAttempts) heap s.

Definition removeFromQueue (operationIds : list string) (s : DB) : DB :=
  set_pending (putAllChunked (map (fun id m => delete id m) operationIds) (pending_operations s)) s.

(** ** Applied operations *)

Definition getAppliedOperationIds (operationIds : list string) (s : DB) : jset string :=
  match operationIds with
  | [] => []
  | _ => jm_keys (getAllChunked operationIds (fun id => applied_operations s !! id))
  end.

Definition markAppliedBatch (operationIds : list string) (appliedAt : string) (s : DB) : DB :=
  match operationIds with
  | [] => s
  | _ => set_applied (putAllChunked (map (fun id m => <[id := appliedAt]> m) operationIds)
           (applied_operations s)) s
  end.

(** ** Object mappings *)

Definition getMappingByLocalId (t : ObjectType) (id : string) (s : DB) : option ObjectMappingRecord :=
  object_mappings s !! mappingKey t id.

(** The first record of the "by-object-id" index under [objectId]. *)
Definition getMappingByObjectId (objectId : string) (s : DB) : option ObjectMappingRecord :=
  snd <$> head (filter (fun r => om_objectId r.2 = objectId) (rows (object_mappings s))).

Definition getMappingsByObjectIds (objectIds : list string) (s : DB) : jmap string ObjectMappingRecord :=
  match objectIds with
  | [] => []
  | _ => getAllChunked objectIds (fun id => getMappingByObjectId id s)
  end.

Definition getMappingsByLocalIds (t : ObjectType) (ids : list string) (s : DB) : jmap string ObjectMappingRecord :=
  match ids with
  | [] => []
  | _ => getAllChunked ids (fun id => object_mappings s !! mappingKey t id)
  end.

Definition put_mapping (r : ObjectMappingRecord) (m : gmap string ObjectMappingRecord) :=
  <[om_key r := r]> m.

Definition putMapping (r : ObjectMappingRecord) (s : DB) : DB :=
  set_mappings (put_mapping r (object_mappings s)) s.

Definition putMappingsBatch (records : list ObjectMappingRecord) (s : DB) : DB :=
  match records with
  | [] => s
  | _ => set_mappings (putAllChunked (map put_mapping records) (object_mappings s)) s
  end.

Definition deleteMappingsBatch (t : ObjectType) (ids : list string) (s : DB) : DB :=
  match ids with
  | [] => s
  | _ => set_mappings (putAllChunked (map (fun id m => delete (mappingKey t id) m) ids) (object_mappings s)) s
  end.

Definition deleteMappingByLocalId (t : ObjectType) (id : string) (s : DB) : DB :=
  set_mappings (delete (mappingKey t id) (object_mappings s)) s.

(** ** Field states *)

(** [Omit<FieldStateRecord, "key">], with [recordedAt] overwritten on write. *)
Definition put_field_state (now : Z) (r : FieldStateRecord) (m : gmap string FieldStateRecord) :=
  let key := fieldStateKey (fs_objectId r) (fs_field r) in
  <[key := mkFieldState key (fs_objectId r) (fs_field r) (fs_lamportTimestamp r) (fs_deviceId r)
     (fs_operationId r) (fs_operationType r) (fs_value r) (Some now)]> m.

Definition getFieldState (objectId field : string) (s : DB) : option FieldStateRecord :=
  field_state s !! fieldStateKey objectId field.

Definition getFieldStatesForObjects (objectIds : list string) (field : string) (s : DB) :
    jmap string FieldStateRecord :=
  match objectIds with
  | [] => []
  | _ => getAllChunked objectIds (fun id => field_state s !! fieldStateKey id field)
  end.

Definition putFieldState (now : Z) (r : FieldStateRecord) (s : DB) : DB :=
  set_field_state (put_field_state now r (field_state s)) s.

Definition putFieldStatesBatch (now : Z) (records : list FieldStateRecord) (s : DB) : DB :=
  match records with
  | [] => s
  | _ => set_field_state (putAllChunked (map (put_field_state now) records) (field_state s)) s
  end.

Definition clearFieldState (s : DB) : DB := set_field_state ∅ s.

(** ** Bookmark backfill commit: three stores, one transaction *)

Record BookmarkBackfillBatch := mkBackfill {
  bb_mappings : list ObjectMappingRecord;
  bb_operations : list LocalOperation;
  bb_fieldStates : list FieldStateRecord;
}.

Definition commitBookmarkBackfillBatch (batch : BookmarkBackfillBatch) (createdAt : string) (now : Z)
    (s : DB) : DB :=
  match bb_mappings batch, bb_operations batch, bb_fieldStates batch with
  | [], [], [] => s
  | _, _, _ =>
      let s1 := set_mappings (putAllChunked (map put_mapping (bb_mappings batch)) (object_mappings s)) s in
      let s2 := set_pending (putAllChunked (map (put_queued createdAt) (bb_operations batch)) (pending_operations s1)) s1 in
      set_field_state (putAllChunked (map (put_field_state now) (bb_fieldStates batch)) (field_state s2)) s2
  end.

(** ** Conflicts log *)

Definition recordConflict (c : ConflictRecord) (s : DB) : DB :=
  set_conflicts (conflicts s ++ [(conflicts_next s, c)]) (conflicts_next s + 1) s.

(** Deletes from the oldest key on. *)
Definition pruneConflicts (maxCount : nat) (s : DB) : DB :=
  let total := length (conflicts s) in
  let toDelete := (total - maxCount)%nat in
  set_conflicts (drop toDelete (conflicts s)) (conflicts_next s) s.

(** ** Deferred materializations *)

Definition putDeferredMaterialization (r : DeferredMaterializationRecord) (s : DB) : DB :=
  set_deferred (<[df_objectId r := r]> (deferred_materializations s)) s.

Definition putDeferredMaterializationsBatch (records : list DeferredMaterializationRecord) (s : DB) : DB :=
  match records with
  | [] => s
  | _ => set_deferred (putAllChunked (map (fun r m => <[df_objectId r := r]> m) records)
           (deferred_materializations s)) s
  end.

(** [getAllFromIndex]: in primary-key order. *)
Definition getDeferredMaterializationsWaitingOn (parent : string) (s : DB) :
    list DeferredMaterializationRecord :=
  (filter (fun r => waitingOnParent r.2 = parent) (rows (deferred_materializations s))).*2.

Definition deleteDeferredMaterialization (objectId : string) (s : DB) : DB :=
  set_deferred (delete objectId (deferred_materializations s)) s.

Definition deleteDeferredMaterializationsBatch (ids : list string) (s : DB) : DB :=
  match ids with
  | [] => s
  | _ => set_deferred (putAllChunked (map (fun id m => delete id m) ids) (deferred_materializations s)) s
  end.

(** ** Remote objects *)

Definition putRemoteObject (r : RemoteObjectRecord) (s : DB) : DB :=
  set_remote (<[ro_objectId r := r]> (remote_objects s)) s.

Definition putRemoteObjectsBatch (records : list RemoteObjectRecord) (s : DB) : DB :=
  match records with
  | [] => s
  | _ => set_remote (putAllChunked (map (fun r m => <[ro_objectId r := r]> m) records) (remote_objects s)) s
  end.

Definition getActiveRemoteObjectsByType (t : ObjectType) (s : DB) : list RemoteObjectRecord :=
  (filter (fun r => ro_objectType r.2 = t /\ deleted r.2 = false) (rows (remote_objects s))).*2.

(** ** Restore points *)

Definition putRestorePointOutbox (r : RestorePointOutboxRecord) (s : DB) : DB :=
  set_outbox (<[ob_id r := r]> (restore_point_outbox s)) s.

(** [getAll] followed by a stable sort on [createdAt]. *)
Definition getRestorePointOutbox (s : DB) : list RestorePointOutboxRecord :=
  (sindex ob_createdAt (restore_point_outbox s)).*2.

Definition deleteRestorePointOutbox (id : string) (s : DB) : DB :=
  set_outbox (delete id (restore_point_outbox s)) s.

Definition getRestoreJob (s : DB) : option RestoreJobRecord := restore_job s.
Definition putRestoreJob (r : RestoreJobRecord) (s : DB) : DB := set_restore_job (Some r) s.
Definition deleteRestoreJob (s : DB) : DB := set_restore_job None s.

(** ** Disconnect *)

Definition clearAllLocalData (s : DB) : DB :=
  mkDB None None ∅ ∅ ∅ [] (conflicts_next s) ∅ ∅ ∅ ∅ None.
