(* ===== verification/StorageFacts.v ===== *)
(** * Facts about the storage operations

    Batched requests are plain folds, index cursors are sorted permutations of
    the store, the counters of [sync_state] are never handed out twice, and
    the upload queue is read in device-sequence order. *)

From S2P Require Import Prelude JsMap Types Util Storage.
From Stdlib Require Import Sorted.

Open Scope Z_scope.
Open Scope js_scope.

(** ** Batched requests *)

Lemma putAllChunked_foldl {A} (puts : list (A -> A)) st :
  putAllChunked puts st = foldl (fun st f => f st) st puts.
Proof. unfold putAllChunked. apply foldl_slices. unfold IDB_BATCH_CHUNK. lia. Qed.

Lemma putAllChunked_map {A B} (f : B -> A -> A) l st :
  putAllChunked (map f l) st = foldl (fun st b => f b st) st l.
Proof. rewrite putAllChunked_foldl. revert st. by induction l as [|b l IH]; intros st; simpl. Qed.

Lemma getAllChunked_foldl {A} ids (get : string -> option A) :
  getAllChunked ids get =
  foldl (fun found id => match get id with Some r => jm_set found id r | None => found end) [] ids.
Proof. unfold getAllChunked. apply foldl_slices. unfold IDB_BATCH_CHUNK. lia. Qed.

Lemma getAllChunked_aux {A} ids (get : string -> option A) acc id :
  jm_get (foldl (fun found id => match get id with Some r => jm_set found id r | None => found end) acc ids) id =
  if decide (id ∈ ids) then or_else (get id) (jm_get acc id) else jm_get acc id.
Proof.
  revert acc. induction ids as [|i ids IH]; intros acc; [done|].
  cbn [foldl]. rewrite IH. clear IH.
  destruct (decide (id = i)) as [->|Hne].
  - rewrite (decide_True (P := i ∈ i :: ids)) by set_solver.
    destruct (get i) as [r|] eqn:Hg; [rewrite jm_get_set_eq|]; simpl; by case_decide.
  - assert (jm_get (match get i with Some r => jm_set acc i r | None => acc end) id = jm_get acc id) as ->.
    { destruct (get i); [by rewrite jm_get_set_ne|done]. }
    destruct (decide (id ∈ ids)), (decide (id ∈ i :: ids)); try done; set_solver.
Qed.

Lemma getAllChunked_get {A} ids (get : string -> option A) id :
  jm_get (getAllChunked ids get) id = if decide (id ∈ ids) then get id else None.
Proof.
  rewrite getAllChunked_foldl, getAllChunked_aux. case_decide; [|done]. by destruct (get id).
Qed.

Lemma getAllChunked_wf {A} ids (get : string -> option A) : jm_wf (getAllChunked ids get).
Proof.
  rewrite getAllChunked_foldl. generalize (jm_nil_wf : jm_wf (@nil (string * A))).
  generalize (@nil (string * A)). induction ids as [|i ids IH]; intros acc Hwf; simpl; [done|].
  apply IH. destruct (get i); auto with js.
Qed.

(** Deleting or inserting a list of keys. *)
Lemma lookup_foldl_delete {A} ids (m : gmap string A) k :
  foldl (fun m id => delete id m) m ids !! k = if decide (k ∈ ids) then None else m !! k.
Proof.
  revert m. induction ids as [|i ids IH]; intros m; [done|]. cbn [foldl]. rewrite IH. clear IH.
  destruct (decide (k = i)) as [->|].
  - rewrite (decide_True (P := i ∈ i :: ids)) by set_solver. case_decide; [done|apply lookup_delete_eq].
  - rewrite lookup_delete_ne by done.
    destruct (decide (k ∈ ids)), (decide (k ∈ i :: ids)); try done; set_solver.
Qed.

Lemma lookup_removeFromQueue ids s k :
  pending_operations (removeFromQueue ids s) !! k =
  if decide (k ∈ ids) then None else pending_operations s !! k.
Proof. unfold removeFromQueue. simpl. rewrite putAllChunked_map. apply lookup_foldl_delete. Qed.

Lemma lookup_foldl_insert {A B} (key : B -> string) (val : B -> A) l (m : gmap string A) k :
  foldl (fun m b => <[key b := val b]> m) m l !! k =
  or_else (val <$> last (filter (fun b => key b = k) l)) (m !! k).
Proof.
  revert m. induction l as [|b l IH]; intros m; [done|]. cbn [foldl]. rewrite IH. clear IH.
  rewrite filter_cons. case_decide as Hk.
  - subst. rewrite lookup_insert_eq, last_cons.
    by destruct (last (filter _ l)).
  - rewrite lookup_insert_ne by done. done.
Qed.

(** ** Index cursors *)

#[export] Instance row_le_total {A} : Total (@row_le A).
Proof. intros r1 r2. apply str_le_total. Qed.
#[export] Instance row_le_trans {A} : Transitive (@row_le A).
Proof. intros r1 r2 r3. unfold row_le. intros. by trans (r2.1). Qed.

#[export] Instance zrow_le_total {A} (f : A -> Z) : Total (zrow_le f).
Proof.
  intros [k1 r1] [k2 r2]. unfold zrow_le; simpl.
  destruct (Z.lt_trichotomy (f r1) (f r2)) as [?|[?|?]]; [auto| |auto].
  destruct (str_le_total k1 k2); auto.
Qed.
#[export] Instance zrow_le_trans {A} (f : A -> Z) : Transitive (zrow_le f).
Proof.
  intros [k1 r1] [k2 r2] [k3 r3]. unfold zrow_le; simpl.
  intros [?|[E1 ?]] [?|[E2 ?]]; [left; lia..|]. right. split; [congruence|]. by trans k2.
Qed.

#[export] Instance srow_le_total {A} (f : A -> string) : Total (srow_le f).
Proof.
  intros [k1 r1] [k2 r2]. unfold srow_le; simpl.
  destruct (str_lt_trichotomy (f r1) (f r2)) as [?|[?|?]]; [auto| |auto].
  destruct (str_le_total k1 k2); auto.
Qed.
#[export] Instance srow_le_trans {A} (f : A -> string) : Transitive (srow_le f).
Proof.
  intros [k1 r1] [k2 r2] [k3 r3]. unfold srow_le; simpl.
  intros [?|[E1 ?]] [?|[E2 ?]]; [left; by trans (f r2)|left; congruence|left; congruence|].
  right. split; [congruence|]. by trans k2.
Qed.

Lemma rows_perm {A} (m : gmap string A) : rows m ≡ₚ map_to_list m.
Proof. apply merge_sort_Permutation. Qed.
Lemma zindex_perm {A} f (m : gmap string A) : zindex f m ≡ₚ map_to_list m.
Proof. apply merge_sort_Permutation. Qed.
Lemma sindex_perm {A} f (m : gmap string A) : sindex f m ≡ₚ map_to_list m.
Proof. apply merge_sort_Permutation. Qed.

Lemma rows_sorted {A} (m : gmap string A) : StronglySorted row_le (rows m).
Proof. apply StronglySorted_merge_sort; apply _. Qed.
Lemma zindex_sorted {A} f (m : gmap string A) : StronglySorted (zrow_le f) (zindex f m).
Proof. apply StronglySorted_merge_sort; apply _. Qed.
Lemma sindex_sorted {A} f (m : gmap string A) : StronglySorted (srow_le f) (sindex f m).
Proof. apply StronglySorted_merge_sort; apply _. Qed.

Lemma index_elem {A} (l : list (string * A)) (m : gmap string A) k r :
  l ≡ₚ map_to_list m -> (k, r) ∈ l <-> m !! k = Some r.
Proof. intros ->. apply elem_of_map_to_list. Qed.

Lemma index_NoDup {A} (l : list (string * A)) (m : gmap string A) :
  l ≡ₚ map_to_list m -> NoDup l.*1.
Proof. intros ->. apply NoDup_fst_map_to_list. Qed.

Lemma StronglySorted_filter {A} (R : relation A) (P : A -> Prop) `{!forall x, Decision (P x)} l :
  StronglySorted R l -> StronglySorted R (filter P l).
Proof.
  induction 1 as [|a l Hs IH Hall]; [constructor|]. rewrite filter_cons.
  case_decide; [|done]. constructor; [done|].
  rewrite Forall_forall in *. intros x [_ Hx]%list_elem_of_filter. by apply Hall.
Qed.

Lemma StronglySorted_take {A} (R : relation A) n l : StronglySorted R l -> StronglySorted R (take n l).
Proof.
  intros H. revert n. induction H as [|a l Hs IH Hall]; intros n; [rewrite take_nil; constructor|].
  destruct n; simpl; constructor; [apply IH|by apply Forall_take].
Qed.

(** ** Store invariants

    Every record sits under its own key path. *)

Record db_wf (s : DB) : Prop := {
  wf_pending : forall k r, pending_operations s !! k = Some r -> operationId (operation r) = k;
  wf_deferred : forall k r, deferred_materializations s !! k = Some r -> df_objectId r = k;
  wf_remote : forall k r, remote_objects s !! k = Some r -> ro_objectId r = k;
  wf_field : forall k r, field_state s !! k = Some r -> fs_key r = k;
  wf_mapping : forall k r, object_mappings s !! k = Some r -> om_key r = k;
  wf_outbox : forall k r, restore_point_outbox s !! k = Some r -> ob_id r = k;
}.

Lemma emptyDB_wf : db_wf emptyDB.
Proof. split; simpl; intros k r H; by rewrite lookup_empty in H. Qed.

(** A property of every record survives a batch of inserts that satisfy it. *)
Lemma foldl_insert_inv {A B} (P : string -> A -> Prop) (key : B -> string) (val : B -> A) l (m : gmap string A) :
  (forall b, P (key b) (val b)) -> (forall k r, m !! k = Some r -> P k r) ->
  forall k r, foldl (fun m b => <[key b := val b]> m) m l !! k = Some r -> P k r.
Proof.
  intros Hv. revert m. induction l as [|b l IH]; intros m Hm; simpl; [done|].
  apply IH. intros k r. rewrite lookup_insert. case_decide; [intros [= <-]; by subst|apply Hm].
Qed.

Lemma foldl_delete_inv {A} (P : string -> A -> Prop) ids (m : gmap string A) :
  (forall k r, m !! k = Some r -> P k r) ->
  forall k r, foldl (fun m id => delete id m) m ids !! k = Some r -> P k r.
Proof. intros Hm k r. rewrite lookup_foldl_delete. case_decide; [done|apply Hm]. Qed.

Lemma enqueue_wf ops at_ s : db_wf s -> db_wf (enqueueOperationsBatch ops at_ s).
Proof.
  intros []. split; auto. simpl. rewrite putAllChunked_map.
  by apply (foldl_insert_inv (fun k r => operationId (operation r) = k) operationId (fun op => queued op at_)).
Qed.

Lemma removeFromQueue_wf ids s : db_wf s -> db_wf (removeFromQueue ids s).
Proof.
  intros []. split; auto. simpl. rewrite putAllChunked_map.
  by apply (foldl_delete_inv (fun k r => operationId (operation r) = k)).
Qed.

Lemma replaceQueued_wf ids ops at_ s : db_wf s -> db_wf (replaceQueuedOperations ids ops at_ s).
Proof.
  intros []. split; auto. simpl. rewrite !putAllChunked_map.
  apply (foldl_insert_inv (fun k r => operationId (operation r) = k) operationId (fun op => queued op at_)); [done|].
  by apply (foldl_delete_inv (fun k r => operationId (operation r) = k)).
Qed.

(** Every held object is known by its operation's id. *)
Definition heap_wf (h : record_heap) : Prop := forall k r, jm_get h k = Some r -> operationId (operation r) = k.

Lemma rewritePending_foldl refs f h s :
  rewritePendingRecords refs f h s =
  let '(h', m) := foldl (fun hm ref => rewrite_record f ref hm) (h, pending_operations s) refs in
  (h', set_pending m s).
Proof.
  unfold rewritePendingRecords. rewrite putAllChunked_map. destruct refs; [|done]. by destruct s.
Qed.

Lemma rewritePending_wf refs f h s :
  (forall r, operation (f r) = operation r) -> heap_wf h -> db_wf s ->
  heap_wf (rewritePendingRecords refs f h s).1 /\ db_wf (rewritePendingRecords refs f h s).2.
Proof.
  intros Hf Hh Hwf. rewrite rewritePending_foldl.
  assert (forall m, (forall k r, m !! k = Some r -> operationId (operation r) = k) ->
    let '(h', m') := foldl (fun hm ref => rewrite_record f ref hm) (h, m) refs in
    heap_wf h' /\ forall k r, m' !! k = Some r -> operationId (operation r) = k) as H.
  { revert h Hh. induction refs as [|ref refs IH]; intros h Hh m Hm; [done|]. cbn [foldl].
    unfold rewrite_record at 2. cbn [fst snd]. destruct (jm_get h ref) as [r|] eqn:E; [|by apply IH].
    apply IH.
    - intros k r'. rewrite jm_get_set. case_decide; [|apply Hh]. intros [= <-]. rewrite Hf. subst. by apply Hh.
    - unfold put_pending. intros k r'. rewrite lookup_insert. case_decide; [intros [= <-]; by subst|apply Hm]. }
  specialize (H (pending_operations s) (wf_pending s Hwf)).
  destruct (foldl _ _ _) as [h' m']. destruct H as [? Hm]. split; [done|]. destruct Hwf. by split.
Qed.

#[export] Hint Resolve emptyDB_wf enqueue_wf removeFromQueue_wf replaceQueued_wf : js.

(** ** The counters of sync_state *)

(** The three operations that write the record, in any order: the sync engine
    and the capture modules interleave at every [await]. *)
Inductive sync_op :=
  | SUpdate (patch : SyncStatePatch)
  | STick (observed : option Z)
  | SReserve (count : nat).

(** The device sequences and Lamport values one operation hands out. *)
Definition run_sync_op (o : sync_op) (s : DB) : (list Z * list Z) * DB :=
  match o with
  | SUpdate p => (([], []), updateSyncState p s)
  | STick ob => let '(c, s') := tickLamportClock ob s in (([], [c]), s')
  | SReserve n =>
      let '((sd, sl), s') := reserveSequenceBatch (Z.of_nat n) s in
      ((seqZ (sd + 1) (Z.of_nat n), seqZ (sl + 1) (Z.of_nat n)), s')
  end.

Fixpoint run_sync_ops (os : list sync_op) (s : DB) : (list Z * list Z) * DB :=
  match os with
  | [] => (([], []), s)
  | o :: os =>
      let '((ds, ls), s1) := run_sync_op o s in
      let '((ds', ls'), s2) := run_sync_ops os s1 in
      ((ds ++ ds', ls ++ ls'), s2)
  end.

Definition seq_of (s : DB) : Z := ss_deviceSequence (sync_or_initial s).
Definition clock_of (s : DB) : Z := lamportClock (sync_or_initial s).

Lemma StronglySorted_app {A} (R : relation A) l1 l2 :
  StronglySorted R l1 -> StronglySorted R l2 -> (forall x y, x ∈ l1 -> y ∈ l2 -> R x y) ->
  StronglySorted R (l1 ++ l2).
Proof.
  induction 1 as [|a l Hs IH Hall]; intros Hs2 Hx; simpl; [done|]. constructor.
  - apply IH; [done|]. intros. apply Hx; [by right|done].
  - apply Forall_app. split; [done|]. apply Forall_forall. intros. apply Hx; [by left|done].
Qed.

Lemma StronglySorted_seqZ a n : StronglySorted Z.lt (seqZ a n).
Proof.
  destruct (Z.le_gt_cases n 0) as [?|Hn]; [rewrite seqZ_nil by lia; constructor|].
  rewrite <- (Z2Nat.id n) by lia. generalize (Z.to_nat n) as m. clear. intros m. revert a.
  induction m as [|m IH]; intros a; [constructor|].
  rewrite seqZ_cons by lia. replace (Z.pred (Z.of_nat (S m))) with (Z.of_nat m) by lia.
  constructor; [apply IH|]. apply Forall_forall. intros x Hx%elem_of_seqZ. lia.
Qed.

Lemma run_sync_op_spec o s ds ls s' :
  run_sync_op o s = ((ds, ls), s') ->
  StronglySorted Z.lt ds /\ StronglySorted Z.lt ls /\
  Forall (fun x => seq_of s < x <= seq_of s') ds /\ Forall (fun x => clock_of s < x <= clock_of s') ls /\
  seq_of s <= seq_of s' /\ clock_of s <= clock_of s'.
Proof.
  destruct o as [p|ob|n]; simpl; intros [= <- <- <-]; unfold seq_of, clock_of; simpl.
  - split_and!; try constructor; lia.
  - split_and!; repeat constructor; simpl; lia.
  - split_and!; try apply StronglySorted_seqZ; try lia;
      apply Forall_forall; intros x Hx%elem_of_seqZ; lia.
Qed.

Lemma run_sync_ops_spec os s ds ls s' :
  run_sync_ops os s = ((ds, ls), s') ->
  StronglySorted Z.lt ds /\ StronglySorted Z.lt ls /\
  Forall (fun x => seq_of s < x <= seq_of s') ds /\ Forall (fun x => clock_of s < x <= clock_of s') ls /\
  seq_of s <= seq_of s' /\ clock_of s <= clock_of s'.
Proof.
  revert s ds ls. induction os as [|o os IH]; intros s ds ls; simpl.
  { intros [= <- <- <-]. split_and!; try constructor; lia. }
  destruct (run_sync_op o s) as [[d1 l1] s1] eqn:E1.
  destruct (run_sync_ops os s1) as [[d2 l2] s2] eqn:E2. intros [= <- <- <-].
  apply run_sync_op_spec in E1 as (? & ? & Hd1 & Hl1 & ? & ?).
  apply IH in E2 as (? & ? & Hd2 & Hl2 & ? & ?).
  rewrite !Forall_forall in *. split_and!; try lia.
  - apply StronglySorted_app; [done..|]. intros x y ?%Hd1 ?%Hd2. lia.
  - apply StronglySorted_app; [done..|]. intros x y ?%Hl1 ?%Hl2. lia.
  - intros x [?%Hd1|?%Hd2]%elem_of_app; lia.
  - intros x [?%Hl1|?%Hl2]%elem_of_app; lia.
Qed.



(** ** Reading the queue *)

(** What [getPendingOperations] promises: the first [limit] eligible rows. *)
Definition eligible (excludeIds : option (jset string)) (r : string * PendingOperationRecord) : Prop :=
  state r.2 = LOCAL_QUEUED /\ 0 <= sequence_of r.2 <= MAX_SAFE_INTEGER /\ excluded excludeIds r.2 = false.
#[export] Instance eligible_dec ex r : Decision (eligible ex r).
Proof. unfold eligible. apply _. Defined.

Definition exclude_size (excludeIds : option (jset string)) : nat :=
  match excludeIds with Some ids => length ids | None => 0 end.

(** Rows scanned so far are the accepted ones and distinct excluded ones, so
    the scan cap is out of reach. *)
Lemma scan_pending_spec rs accept limit maxScan results scanned (budget : nat) :
  (length (filter (fun r => accept r.2 = false) rs) <= budget)%nat ->
  (scanned + budget + (limit - length results) <= maxScan)%nat ->
  scan_pending rs accept limit maxScan results scanned =
  results ++ take (limit - length results) (filter (fun r => accept r.2 = true) rs).*2.
Proof.
  revert results scanned budget. induction rs as [|[k r] rs IH]; intros results scanned budget Hb Hm.
  { simpl. by rewrite take_nil, app_nil_r. }
  cbn [scan_pending]. destruct (Nat.ltb_spec (length results) limit) as [Hl|Hl]; simpl andb.
  2:{ replace (limit - length results)%nat with 0%nat by lia. by rewrite take_0, app_nil_r. }
  rewrite filter_cons in Hb |- *. simpl in *.
  destruct (accept r) eqn:Ha; simpl in *; rewrite ?decide_True, ?decide_False in * by done.
  - replace (scanned <? maxScan)%nat with true by (symmetry; apply Nat.ltb_lt; lia).
    rewrite (IH _ _ budget) by (rewrite ?length_app; simpl; done || lia).
    rewrite length_app. simpl. rewrite <- app_assoc. f_equal.
    replace (limit - length results)%nat with (S (limit - (length results + 1)))%nat by lia. done.
  - simpl in Hb. replace (scanned <? maxScan)%nat with true by (symmetry; apply Nat.ltb_lt; lia).
    rewrite (IH _ _ (budget - 1)%nat) by lia. done.
Qed.

Lemma filter_excluded_length (rs : list (string * PendingOperationRecord)) ids :
  NoDup rs.*1 -> (forall k r, (k, r) ∈ rs -> operationId (operation r) = k) ->
  (length (filter (fun r => negb (excluded (Some ids) r.2) = false) rs) <= length ids)%nat.
Proof.
  intros Hnd Hkey.
  set (l := filter _ rs).
  assert (length l = length l.*1) as -> by (symmetry; apply length_fmap).
  apply submseteq_length, NoDup_submseteq.
  - eapply sublist_NoDup; [done|]. apply fmap_sublist, sublist_filter.
  - intros k ([k' r] & -> & [Hex Hin]%list_elem_of_filter)%list_elem_of_fmap. simpl in *.
    apply negb_false_iff, bool_decide_eq_true in Hex. by rewrite (Hkey k' r Hin) in Hex.
Qed.

(** The upload queue is read in order: [getPendingOperations] returns
    exactly the first [limit] queued, non-excluded operations in
    (device sequence, operation id) order, whatever [excludeIds] holds. The
    [maxScan] cap of the cursor loop therefore never hides an operation. *)
Theorem getPendingOperations_first_eligible limit ex s :
  db_wf s ->
  getPendingOperations true limit ex s =
  take limit (filter (eligible ex) (zindex sequence_of (pending_operations s))).*2.
Proof.
  intros Hwf. unfold getPendingOperations. cbn zeta iota.
  set (l := filter _ (zindex _ _)).
  assert (NoDup l.*1) as Hnd.
  { eapply sublist_NoDup; [apply (index_NoDup _ _ (zindex_perm sequence_of (pending_operations s)))|].
    apply fmap_sublist, sublist_filter. }
  assert (forall k r, (k, r) ∈ l -> operationId (operation r) = k) as Hkey.
  { intros k r [_ Hin]%list_elem_of_filter. eapply (wf_pending _ Hwf), index_elem; [|done].
    apply zindex_perm. }
  rewrite (scan_pending_spec _ _ _ _ _ _ (exclude_size ex)).
  - rewrite app_nil_l, Nat.sub_0_r. f_equal. unfold l. rewrite list_filter_filter.
    f_equal. apply list_filter_iff. intros [k r]. unfold eligible. simpl.
    rewrite negb_true_iff. tauto.
  - destruct ex as [ids|]; [by apply filter_excluded_length|].
    simpl. rewrite (list_filter_iff _ (fun _ => False)) by (intros [] ; simpl; by split).
    clear. by induction l.
  - destruct ex; simpl; lia.
Qed.

Lemma getPendingOperations_first_eligible_witness :
  let op i n := mkLocalOperation i n n OtTab "t" OpUpdate 1 JNull None None in
  map (fun r => operationId (operation r))
    (getPendingOperations true 2 (Some ["b"])
       (enqueueOperationsBatch [op "b" 1; op "c" 3; op "a" 2; op "d" 4] "now" emptyDB)) = ["a"; "c"].
Proof.
  intros op. rewrite (getPendingOperations_first_eligible 2 (Some ["b"])
    (enqueueOperationsBatch [op "b" 1; op "c" 3; op "a" 2; op "d" 4] "now" emptyDB)).
  - vm_compute. reflexivity.
  - apply enqueue_wf, emptyDB_wf.
Defined.

(** ** What a read of the queue returns *)

Lemma scan_pending_elem rs accept limit maxScan results scanned r :
  r ∈ scan_pending rs accept limit maxScan results scanned ->
  r ∈ results \/ exists k, (k, r) ∈ rs /\ accept r = true.
Proof.
  revert results scanned. induction rs as [|[k r'] rs IH]; intros results scanned; cbn [scan_pending]; [auto|].
  destruct (_ && _); [|auto]. intros [H|(k' & Hk & Ha)]%IH.
  - destruct (accept r') eqn:E; [|auto]. apply elem_of_app in H as [?| ->%list_elem_of_singleton]; [auto|].
    right. exists k. split; [by left|done].
  - right. exists k'. split; [by right|done].
Qed.

Definition pending_wf (m : gmap string PendingOperationRecord) : Prop :=
  forall k r, m !! k = Some r -> operationId (operation r) = k.

Lemma getPendingOperations_elem limit ex s r :
  pending_wf (pending_operations s) -> r ∈ getPendingOperations true limit ex s ->
  pending_operations s !! operationId (operation r) = Some r /\ excluded ex r = false /\ state r = LOCAL_QUEUED.
Proof.
  intros Hwf [[]%not_elem_of_nil|(k & [[Hst _] Hin]%list_elem_of_filter & Ha)]%scan_pending_elem.
  apply (index_elem _ (pending_operations s)) in Hin; [|apply zindex_perm].
  rewrite (Hwf k r Hin). split_and!; [done|by apply negb_true_iff|done].
Qed.

(** A rewrite changes only the named rows, to updated held objects. *)
Lemma rewritePending_lookup (Q : string -> PendingOperationRecord -> Prop) refs f h s :
  (forall id r, jm_get h id = Some r -> Q id r) ->
  (forall id r, id ∈ refs -> Q id r -> Q id (f r)) -> (forall id r, Q id r -> operationId (operation r) = id) ->
  let hs := rewritePendingRecords refs f h s in
  (forall id r, jm_get hs.1 id = Some r -> Q id r) /\
  forall k, pending_operations hs.2 !! k = pending_operations s !! k \/
            (k ∈ refs /\ exists r, pending_operations hs.2 !! k = Some (f r) /\ Q k r).
Proof.
  intros Hh Hf Hid. rewrite rewritePending_foldl.
  pose proof (foldl_inv (fun hm : record_heap * gmap string PendingOperationRecord =>
    (forall id r, jm_get hm.1 id = Some r -> Q id r) /\
    forall k, hm.2 !! k = pending_operations s !! k \/ (k ∈ refs /\ exists r, hm.2 !! k = Some (f r) /\ Q k r))
    (fun hm ref => rewrite_record f ref hm) refs (h, pending_operations s)) as H.
  destruct (foldl _ _ _) as [h' m']. cbn [fst snd pending_operations set_pending] in *.
  apply H; [by auto|]. clear H. intros [h1 m1] ref Href [H1 H2]. unfold rewrite_record. cbn [fst snd] in *.
  destruct (jm_get h1 ref) as [r|] eqn:E; [|done]. specialize (H1 ref r E) as Hr. split.
  - intros id r'. cbn [fst]. rewrite jm_get_set. case_decide; [intros [= <-]; subst; auto|auto].
  - intros k. cbn [snd]. unfold put_pending. rewrite (Hid ref (f r)) by auto.
    destruct (decide (ref = k)) as [->|]; [rewrite lookup_insert_eq; eauto|by rewrite lookup_insert_ne].
Qed.

(** ** Keys and batched reads *)

Lemma chars_append a b : String.list_ascii_of_string (a +:+ b) = String.list_ascii_of_string a ++ String.list_ascii_of_string b.
Proof. induction a as [|c a IH]; [done|]. change (String c a +:+ b) with (String c (a +:+ b)). cbn. by rewrite IH. Qed.

Lemma chars_inj a b : String.list_ascii_of_string a = String.list_ascii_of_string b -> a = b.
Proof.
  intros H. rewrite <- (String.string_of_list_ascii_of_string a), H. apply String.string_of_list_ascii_of_string.
Qed.

Lemma mappingKey_inj t i j : mappingKey t i = mappingKey t j -> i = j.
Proof.
  unfold mappingKey. intros H. apply (f_equal String.list_ascii_of_string) in H. rewrite !chars_append in H.
  apply app_inv_head, app_inv_head in H. by apply chars_inj.
Qed.

(** Every mapping sits under its own key. *)
Definition mappings_wf (db : DB) : Prop := forall k r, object_mappings db !! k = Some r ->
  k = mappingKey (om_objectType r) (chromiumLocalId r).

Lemma mappingKey_type_inj t u i j : mappingKey t i = mappingKey u j -> t = u.
Proof.
  unfold mappingKey. intros H. apply (f_equal String.list_ascii_of_string) in H. rewrite !chars_append in H.
  destruct t, u; cbn in H; first [done | discriminate H].
Qed.

Lemma getMappingsByLocalIds_get t ids db i :
  jm_get (getMappingsByLocalIds t ids db) i = if decide (i ∈ ids) then object_mappings db !! mappingKey t i else None.
Proof.
  unfold getMappingsByLocalIds. destruct ids; [by rewrite decide_False by apply not_elem_of_nil|]. apply (getAllChunked_get _ (fun id => object_mappings db !! mappingKey t id)).
Qed.
Lemma getMappingsByLocalIds_wf t ids db : jm_wf (getMappingsByLocalIds t ids db).
Proof. unfold getMappingsByLocalIds. destruct ids; [apply jm_nil_wf|apply getAllChunked_wf]. Qed.

Lemma getFieldStatesForObjects_get ids field db i :
  jm_get (getFieldStatesForObjects ids field db) i = if decide (i ∈ ids) then field_state db !! fieldStateKey i field else None.
Proof.
  unfold getFieldStatesForObjects. destruct ids; [by rewrite decide_False by apply not_elem_of_nil|]. apply (getAllChunked_get _ (fun id => field_state db !! fieldStateKey id field)).
Qed.
Lemma getFieldStatesForObjects_wf ids field db : jm_wf (getFieldStatesForObjects ids field db).
Proof. unfold getFieldStatesForObjects. destruct ids; [apply jm_nil_wf|apply getAllChunked_wf]. Qed.
