(* ===== verification/ConflictFacts.v ===== *)
(** * Properties of conflict resolution

    The ordering key is a total order; a batch resolves as its entries would
    one by one; deliveries of the same operations converge. *)

From S2P Require Import Prelude JsMap Types Util Storage StorageFacts Conflict.

Open Scope Z_scope.
Open Scope js_scope.

(** ** The ordering key is a total order *)

Definition okey_le (a b : OrderingKey) : Prop := compareOrderingKey a b <= 0.

(** The lexicographic order it decides. *)
Definition okey_lt (a b : OrderingKey) : Prop :=
  ok_lamportTimestamp a < ok_lamportTimestamp b \/
  (ok_lamportTimestamp a = ok_lamportTimestamp b /\
   (ok_deviceId a <s ok_deviceId b \/
    (ok_deviceId a = ok_deviceId b /\ ok_operationId a <s ok_operationId b))).

Lemma str_ltb_cases a b (r : Z) :
  (if negb (String.eqb a b) then if str_ltb a b then -1 else 1 else r) =
  if decide (a = b) then r else if decide (a <s b) then -1 else 1.
Proof.
  destruct (String.eqb_spec a b); simpl; destruct (decide (a = b)); try done.
  destruct (decide (a <s b)) as [H|H]; unfold str_lt in H;
    [by rewrite H|by rewrite (not_true_is_false _ H)].
Qed.

Lemma compareOrderingKey_lt a b : compareOrderingKey a b < 0 <-> okey_lt a b.
Proof.
  unfold compareOrderingKey, okey_lt. rewrite !str_ltb_cases.
  destruct (Z.eqb_spec (ok_lamportTimestamp a) (ok_lamportTimestamp b)) as [E|E]; simpl.
  2:{ split; [left; lia|intros [?|[? _]]; lia]. }
  destruct (decide (ok_deviceId a = ok_deviceId b)) as [Ed|Ed].
  - destruct (decide (ok_operationId a = ok_operationId b)) as [Eo|Eo].
    + split; [lia|]. intros [?|[_ [H|[_ H]]]]; [lia| |]; [rewrite Ed in H|rewrite Eo in H];
        by apply (irreflexivity str_lt) in H.
    + destruct (decide (ok_operationId a <s ok_operationId b)); split; try lia.
      * intros _. auto.
      * intros [?|[_ [H|[_ H]]]]; [lia| |done]. rewrite Ed in H. by apply (irreflexivity str_lt) in H.
  - destruct (decide (ok_deviceId a <s ok_deviceId b)); split; try lia; auto.
    intros [?|[_ [H|[? _]]]]; [lia|done..].
Qed.

Lemma compareOrderingKey_antisym a b : Z.sgn (compareOrderingKey b a) = - Z.sgn (compareOrderingKey a b).
Proof.
  unfold compareOrderingKey. rewrite !str_ltb_cases.
  rewrite (Z.eqb_sym (ok_lamportTimestamp b)).
  destruct (Z.eqb_spec (ok_lamportTimestamp a) (ok_lamportTimestamp b)); simpl; [|lia].
  pose proof (str_lt_trichotomy (ok_deviceId a) (ok_deviceId b)) as Td.
  pose proof (str_lt_trichotomy (ok_operationId a) (ok_operationId b)) as To.
  repeat case_decide; try done; try congruence; exfalso.
  all: try (eapply str_lt_asym; eassumption).
  all: destruct Td as [?|[?|?]], To as [?|[?|?]]; congruence.
Qed.

Lemma compareOrderingKey_0 a b : compareOrderingKey a b = 0 <-> a = b.
Proof.
  split.
  - unfold compareOrderingKey. rewrite !str_ltb_cases.
    destruct (Z.eqb_spec (ok_lamportTimestamp a) (ok_lamportTimestamp b)); simpl; [|lia].
    repeat case_decide; intros; try done. destruct a, b; simpl in *; congruence.
  - intros ->. unfold compareOrderingKey. rewrite !str_ltb_cases, Z.eqb_refl. simpl.
    by rewrite !decide_True.
Qed.

#[export] Instance okey_lt_trans : Transitive okey_lt.
Proof.
  intros a b c. unfold okey_lt.
  intros [?|[? [?|[? ?]]]] [?|[? [?|[? ?]]]]; try (left; lia); right; (split; [lia|]).
  - left. by trans (ok_deviceId b).
  - left. congruence.
  - left. congruence.
  - right. split; [congruence|]. by trans (ok_operationId b).
Qed.

Lemma okey_le_lt a b : okey_le a b <-> okey_lt a b \/ a = b.
Proof.
  unfold okey_le. rewrite <- compareOrderingKey_lt, <- compareOrderingKey_0. lia.
Qed.

Lemma okey_gt a b : 0 < compareOrderingKey a b <-> okey_lt b a.
Proof. rewrite <- compareOrderingKey_lt. pose proof (compareOrderingKey_antisym a b). lia. Qed.

Lemma okey_not_gt a b : ~ 0 < compareOrderingKey a b <-> okey_le a b.
Proof. unfold okey_le. lia. Qed.

#[export] Instance okey_le_preorder : PreOrder okey_le.
Proof.
  split.
  - intros a. apply okey_le_lt. auto.
  - intros a b c. rewrite !okey_le_lt. intros [H1|<-] [H2|<-]; auto. left. by trans b.
Qed.
#[export] Instance okey_le_antisymm : AntiSymm (=) okey_le.
Proof.
  intros a b Hab Hba. apply compareOrderingKey_0. pose proof (compareOrderingKey_antisym a b).
  unfold okey_le in *. lia.
Qed.
#[export] Instance okey_le_total : Total okey_le.
Proof. intros a b. pose proof (compareOrderingKey_antisym a b). unfold okey_le. lia. Qed.

Lemma okey_lt_le a b : okey_lt a b -> okey_le a b.
Proof. rewrite okey_le_lt. auto. Qed.
Lemma okey_lt_not_le a b : okey_lt a b <-> ~ okey_le b a.
Proof. rewrite <- okey_gt. unfold okey_le. lia. Qed.

#[export] Hint Resolve okey_lt_le : js.

(** ** A batch is the sequence of its entries *)

(** The effect of one entry on the store and its result. *)
Definition store_step (now : Z) (m : gmap string FieldStateRecord) (e : BatchFieldResolution) :
    gmap string FieldStateRecord :=
  match (arbitrateField (m !! entry_key e) (en_objectId e) (en_field e) (en_incoming e) now).2 with
  | Some n => <[entry_key e := n]> m
  | None => m
  end.
Definition store_result (now : Z) (m : gmap string FieldStateRecord) (e : BatchFieldResolution) :
    ResolveResult :=
  (arbitrateField (m !! entry_key e) (en_objectId e) (en_field e) (en_incoming e) now).1.

Fixpoint store_results (now : Z) (m : gmap string FieldStateRecord) (es : list BatchFieldResolution) :
    list ResolveResult :=
  match es with [] => [] | e :: es => store_result now m e :: store_results now (store_step now m e) es end.

Lemma arbitrate_next cur o f inc now n :
  (arbitrateField cur o f inc now).2 = Some n -> n = buildNextState o f inc now.
Proof.
  unfold arbitrateField. destruct cur; [|by intros [= <-]].
  repeat match goal with |- context [if ?b then _ else _] => destruct b end; by intros [= <-].
Qed.

Lemma fetchCurrent_get ks store k :
  k ∈ ks -> default None (jm_get (fetchCurrent ks store) k) = store !! k.
Proof.
  unfold fetchCurrent. rewrite foldl_slices by (unfold IDB_BATCH_CHUNK; lia).
  assert (forall acc, jm_get (foldl (fun m k => jm_set m k (store !! k)) acc ks) k =
    if decide (k ∈ ks) then Some (store !! k) else jm_get acc k) as Hget.
  { induction ks as [|k' ks IH]; intros acc; [done|]. cbn [foldl]. rewrite IH, jm_get_set.
    clear IH. destruct (decide (k ∈ ks)), (decide (k ∈ k' :: ks)), (decide (k' = k)); subst; try done; set_solver. }
  intros Hk. by rewrite Hget, decide_True.
Qed.

(** The walk's maps against the store they stand for. *)
Record walk_inv (ks : list string) (m0 m : gmap string FieldStateRecord) (w : Walk) : Prop := {
  wi_current : forall k, k ∈ ks -> default None (jm_get (currentByKey w) k) = m !! k;
  wi_pending : forall k, m !! k = or_else (jm_get (pendingWrites w) k) (m0 !! k);
  wi_wf : jm_wf (pendingWrites w);
  wi_keys : forall k r, (k, r) ∈ pendingWrites w -> fs_key r = k;
}.

Lemma jm_set_elem {V} (m : jmap string V) k v k' v' :
  (k', v') ∈ jm_set m k v -> (k' = k /\ v' = v) \/ (k', v') ∈ m.
Proof.
  induction m as [|[k1 v1] m IH]; simpl.
  - intros [= -> ->]%list_elem_of_singleton. auto.
  - case_decide; subst.
    + intros [[= -> ->]|?]%elem_of_cons; [auto|right; by right].
    + intros [[= -> ->]|?%IH]%elem_of_cons; [right; by left|]. set_solver.
Qed.

Lemma walk_entry_inv now ks m0 m w e :
  entry_key e ∈ ks -> walk_inv ks m0 m w ->
  walk_inv ks m0 (store_step now m e) (walk_entry now w e) /\
  results (walk_entry now w e) = results w ++ [store_result now m e].
Proof.
  intros Hk [Hcur Hpend Hwf Hkeys]. unfold walk_entry, store_step, store_result.
  rewrite (Hcur _ Hk).
  destruct (arbitrateField _ _ _ _ _) as [res [n|]] eqn:Ha; simpl; [|by split].
  assert (n = buildNextState (en_objectId e) (en_field e) (en_incoming e) now) as Hn.
  { eapply arbitrate_next. by rewrite Ha. }
  split; [|done]. split; simpl.
  - intros k Hin. rewrite jm_get_set, lookup_insert. case_decide; [done|auto].
  - intros k. rewrite jm_get_set, lookup_insert. case_decide; [done|auto].
  - auto with js.
  - intros k r [[-> ->]|?]%jm_set_elem; [by rewrite Hn|auto].
Qed.

Lemma walk_inv_foldl now es ks m0 m w :
  (forall e, e ∈ es -> entry_key e ∈ ks) -> walk_inv ks m0 m w ->
  walk_inv ks m0 (foldl (store_step now) m es) (foldl (walk_entry now) w es) /\
  results (foldl (walk_entry now) w es) = results w ++ store_results now m es.
Proof.
  revert m w. induction es as [|e es IH]; intros m w Hks Hinv; simpl; [by rewrite app_nil_r|].
  destruct (walk_entry_inv now ks m0 m w e) as [Hinv' Hres]; [apply Hks; by left|done|].
  destruct (IH (store_step now m e) (walk_entry now w e)) as [? Hr]; [intros; apply Hks; by right|done|].
  split; [done|]. rewrite Hr, Hres, <- app_assoc. done.
Qed.

(** Writing the values of a map keyed by their own keys. *)
Lemma foldl_put_values (l : jmap string FieldStateRecord) (m0 : gmap string FieldStateRecord) k :
  jm_wf l -> (forall k r, (k, r) ∈ l -> fs_key r = k) ->
  foldl (fun m r => <[fs_key r := r]> m) m0 (jm_values l) !! k = or_else (jm_get l k) (m0 !! k).
Proof.
  revert m0. induction l as [|[k' r'] l IH]; intros m0 Hwf Hkeys; [done|].
  apply NoDup_cons in Hwf as [Hnin Hwf]. assert (fs_key r' = k') as Hk by (apply Hkeys; by left).
  cbn [jm_values fmap list_fmap foldl snd]. rewrite IH; [|done|intros; apply Hkeys; by right].
  rewrite Hk, lookup_insert. simpl. destruct (decide (k' = k)) as [->|].
  - rewrite (decide_True (P := k = k)) by done. by assert (jm_get l k = None) as -> by (by apply jm_get_None).
  - by rewrite (decide_False (P := k = k')) by congruence.
Qed.

Lemma resolveEntriesInTx_spec now es s :
  resolveEntriesInTx now es s =
  (store_results now (field_state s) es,
   set_field_state (foldl (store_step now) (field_state s) es) s).
Proof.
  unfold resolveEntriesInTx.
  set (ks := js_of_list (map entry_key es)).
  destruct (walk_inv_foldl now es ks (field_state s) (field_state s)
    (mkWalk [] (fetchCurrent ks (field_state s)) [])) as [[_ Hp Hwf Hkeys] Hres].
  - intros e He. apply js_of_list_elem, list_elem_of_fmap. by exists e.
  - split; simpl; [intros k Hk; by apply fetchCurrent_get|done|apply jm_nil_wf|].
    intros k r H. by apply not_elem_of_nil in H.
  - rewrite Hres. simpl. f_equal. f_equal. apply map_eq. intros k.
    rewrite putAllChunked_map, Hp. by apply foldl_put_values.
Qed.

(** The entries resolved by one call of [resolveField] each. *)
Fixpoint resolve_each (now : Z) (es : list BatchFieldResolution) (s : DB) : list ResolveResult * DB :=
  match es with
  | [] => ([], s)
  | e :: es =>
      let '(r, s1) := resolveField now (en_objectId e) (en_field e) (en_incoming e) s in
      let '(rs, s2) := resolve_each now es s1 in
      (match r with Some r => r :: rs | None => rs end, s2)
  end.

Lemma set_field_state_idem m1 m2 s : set_field_state m1 (set_field_state m2 s) = set_field_state m1 s.
Proof. done. Qed.
Lemma set_field_state_eta s : set_field_state (field_state s) s = s.
Proof. by destruct s. Qed.

(** C2. Batched resolution has the results and the final store of resolving
    the entries one at a time, in order, a transaction each: reading all the
    slots once up front and writing only the final winners is invisible, also
    when a slot occurs several times in the batch. *)
Theorem resolveFieldsBatch_sequential now es s :
  resolveFieldsBatch now es s = resolve_each now es s.
Proof.
  assert (resolveFieldsBatch now es s = (store_results now (field_state s) es,
   set_field_state (foldl (store_step now) (field_state s) es) s)) as ->.
  { destruct es; [by rewrite <- (set_field_state_eta s) at 1|apply resolveEntriesInTx_spec]. }
  revert s. induction es as [|e es IH]; intros s; cbn [store_results resolve_each foldl].
  { by rewrite set_field_state_eta. }
  unfold resolveField. rewrite resolveEntriesInTx_spec. destruct e as [o f inc]. simpl.
  rewrite <- IH. done.
Qed.

(** ** Convergence *)

(** Batches as they are delivered, each with its own wall clock. *)
Definition deliver (batches : list (Z * list BatchFieldResolution)) (s : DB) : DB :=
  foldl (fun s b => (resolveFieldsBatch b.1 b.2 s).2) s batches.

Definition delivered (batches : list (Z * list BatchFieldResolution)) : list (Z * BatchFieldResolution) :=
  batches ≫= fun b => map (pair b.1) b.2.

(** A slot's provenance and value; [recordedAt] only ages records for GC. *)
Definition provenance (r : FieldStateRecord) : OrderingKey * OperationType * jsval :=
  (record_key r, fs_operationType r, fs_value r).
Definition provenances (s : DB) : gmap string (OrderingKey * OperationType * jsval) :=
  provenance <$> field_state s.

Definition slot_step (cur : option FieldStateRecord) (x : Z * BatchFieldResolution) : option FieldStateRecord :=
  or_else (arbitrateField cur (en_objectId x.2) (en_field x.2) (en_incoming x.2) x.1).2 cur.

Definition built (x : Z * BatchFieldResolution) : FieldStateRecord :=
  buildNextState (en_objectId x.2) (en_field x.2) (en_incoming x.2) x.1.

Definition ekey (e : BatchFieldResolution) : OrderingKey := in_key (en_incoming e).

Lemma record_key_built x : record_key (built x) = ekey x.2.
Proof. unfold ekey. by destruct x as [? [? ? [[] ? ?]]]. Qed.

Lemma store_step_lookup x m k :
  store_step x.1 m x.2 !! k = if decide (entry_key x.2 = k) then slot_step (m !! k) x else m !! k.
Proof.
  unfold store_step, slot_step. case_decide as Hk.
  - subst. destruct (arbitrateField _ _ _ _ _).2; simpl; [by rewrite lookup_insert_eq|done].
  - destruct (arbitrateField _ _ _ _ _).2; simpl; [by rewrite lookup_insert_ne|done].
Qed.

Lemma store_steps_lookup xs m k :
  foldl (fun m x => store_step x.1 m x.2) m xs !! k =
  foldl slot_step (m !! k) (filter (fun x => entry_key x.2 = k) xs).
Proof.
  revert m. induction xs as [|x xs IH]; intros m; [done|]. cbn [foldl].
  rewrite IH, store_step_lookup, filter_cons. clear IH. by case_decide.
Qed.

Lemma deliver_spec batches s :
  deliver batches s =
  set_field_state (foldl (fun m x => store_step x.1 m x.2) (field_state s) (delivered batches)) s.
Proof.
  unfold deliver. revert s. induction batches as [|[now es] bs IH]; intros s; cbn [foldl delivered mbind list_bind].
  { by rewrite set_field_state_eta. }
  rewrite IH. clear IH. cbn [fst snd].
  assert ((resolveFieldsBatch now es s).2 = set_field_state (foldl (store_step now) (field_state s) es) s) as ->.
  { destruct es; [symmetry; apply set_field_state_eta|]. unfold resolveFieldsBatch. by rewrite resolveEntriesInTx_spec. }
  rewrite set_field_state_idem. f_equal. cbn [field_state]. rewrite foldl_app. f_equal.
  generalize (field_state s). induction es as [|e es IH]; intros m; [done|]. cbn [map foldl]. apply IH.
Qed.

(** Last-writer-wins on one slot. [good] entries and [held] records are those
    between which the code compares ordering keys only. *)
Section lww.
Context (good : BatchFieldResolution -> Prop) (held : FieldStateRecord -> Prop).
Hypothesis lww_step : forall c x, held c -> good x.2 ->
  slot_step (Some c) x =
  Some (if 0 <? compareOrderingKey (ekey x.2) (record_key c) then built x else c).
Hypothesis lww_built : forall x, good x.2 -> held (built x).

(** What last-writer-wins leaves in a slot: the greatest key seen, the
    record already there on a tie. *)
Record winner (cur : option FieldStateRecord) (l : list (Z * BatchFieldResolution)) (r : FieldStateRecord) : Prop := {
  win_from : cur = Some r \/ exists x, x ∈ l /\ r = built x;
  win_above : forall x, x ∈ l -> okey_le (ekey x.2) (record_key r);
  win_cur : forall c, cur = Some c -> okey_le (record_key c) (record_key r) /\
              (record_key c = record_key r -> r = c);
}.

Lemma slot_step_None x : slot_step None x = Some (built x).
Proof. done. Qed.

Lemma slot_steps_winner cur l :
  (forall c, cur = Some c -> held c) -> Forall (fun x => good x.2) l ->
  match foldl slot_step cur l with
  | None => cur = None /\ l = []
  | Some r => winner cur l r /\ held r
  end.
Proof.
  intros Hcur. induction l as [|x l IH] using rev_ind; intros Hgood.
  { simpl. destruct cur as [c|]; [|done]. split; [|auto]. split; [by left| |].
    - intros x H. by apply not_elem_of_nil in H.
    - intros c' [= ->]. done. }
  rewrite foldl_app. apply Forall_app in Hgood as [Hl [Hx _]%Forall_cons].
  specialize (IH Hl). destruct (foldl slot_step cur l) as [r|]; cbn [foldl].
  2:{ destruct IH as [-> ->]. rewrite slot_step_None. split; [|by apply lww_built]. split.
      - right. exists x. split; [by left|done].
      - intros y ->%list_elem_of_singleton. by rewrite record_key_built.
      - done. }
  destruct IH as [[Hfrom Habove Hc] Hr]. rewrite lww_step by done.
  destruct (Z.ltb_spec 0 (compareOrderingKey (ekey x.2) (record_key r))) as [Hlt|Hge].
  - rewrite okey_gt in Hlt. split; [|by apply lww_built]. split.
    + right. exists x. split; [set_solver|done].
    + intros y [Hy| ->%list_elem_of_singleton]%elem_of_app; rewrite record_key_built; [|done].
      trans (record_key r); auto with js.
    + intros c Hcc. destruct (Hc c Hcc) as [Hle _]. rewrite record_key_built. split.
      * trans (record_key r); auto with js.
      * intros E. rewrite E in Hle. by apply okey_lt_not_le in Hlt.
  - split; [|done]. split; [|intros y [Hy| ->%list_elem_of_singleton]%elem_of_app; auto|done].
    destruct Hfrom as [?|(y & ? & ?)]; [by left|right; exists y; split; [set_solver|done]].
Qed.

(** Two deliveries of the same entries leave the same provenance. *)
Lemma winner_unique cur l1 l2 r1 r2 :
  (forall x1 x2, x1 ∈ l1 -> x2 ∈ l2 -> ekey x1.2 = ekey x2.2 -> x1.2 = x2.2) ->
  (forall e, e ∈ l1.*2 <-> e ∈ l2.*2) ->
  winner cur l1 r1 -> winner cur l2 r2 -> provenance r1 = provenance r2.
Proof.
  intros Hkeys Hsame [F1 A1 C1] [F2 A2 C2].
  assert (forall x, x ∈ l1 -> okey_le (ekey x.2) (record_key r2)) as A1'.
  { intros x Hx. assert (x.2 ∈ l2.*2) as ([] & Hy & ?)%list_elem_of_fmap by (apply Hsame; by apply list_elem_of_fmap_2).
    rewrite Hy. by apply (A2 (_, _)). }
  assert (forall x, x ∈ l2 -> okey_le (ekey x.2) (record_key r1)) as A2'.
  { intros x Hx. assert (x.2 ∈ l1.*2) as ([] & Hy & ?)%list_elem_of_fmap by (apply Hsame; by apply list_elem_of_fmap_2).
    rewrite Hy. by apply (A1 (_, _)). }
  assert (record_key r1 = record_key r2) as Hr.
  { apply (anti_symm okey_le).
    - destruct F1 as [->|(x & Hx & ->)]; [by apply C2|rewrite record_key_built; auto].
    - destruct F2 as [->|(x & Hx & ->)]; [by apply C1|rewrite record_key_built; auto]. }
  destruct F1 as [->|(x1 & Hx1 & ->)].
  { by rewrite (proj2 (C2 r1 eq_refl)). }
  destruct F2 as [->|(x2 & Hx2 & ->)].
  { by rewrite (proj2 (C1 r2 eq_refl)). }
  rewrite !record_key_built in Hr. destruct x1 as [n1 e1], x2 as [n2 e2].
  specialize (Hkeys _ _ Hx1 Hx2 Hr). simpl in Hkeys. by subst.
Qed.

Lemma lww_converges cur l1 l2 :
  (forall c, cur = Some c -> held c) -> Forall (fun x => good x.2) l1 -> Forall (fun x => good x.2) l2 ->
  (forall x1 x2, x1 ∈ l1 -> x2 ∈ l2 -> ekey x1.2 = ekey x2.2 -> x1.2 = x2.2) ->
  (forall e, e ∈ l1.*2 <-> e ∈ l2.*2) ->
  provenance <$> foldl slot_step cur l1 = provenance <$> foldl slot_step cur l2.
Proof.
  intros Hcur H1 H2 Hkeys Hsame.
  pose proof (slot_steps_winner cur l1 Hcur H1) as W1.
  pose proof (slot_steps_winner cur l2 Hcur H2) as W2.
  destruct (foldl slot_step cur l1) as [r1|], (foldl slot_step cur l2) as [r2|]; simpl; [|exfalso..|done].
  - f_equal. eapply winner_unique; [exact Hkeys|exact Hsame|apply W1|apply W2].
  - destruct W2 as [-> ->], W1 as [[[?|(x & Hx & _)] _ _] _]; [done|].
    assert (x.2 ∈ ([] : list (Z * BatchFieldResolution)).*2) as H by (apply Hsame; by apply list_elem_of_fmap_2).
    by apply not_elem_of_nil in H.
  - destruct W1 as [-> ->], W2 as [[[?|(x & Hx & _)] _ _] _]; [done|].
    assert (x.2 ∈ ([] : list (Z * BatchFieldResolution)).*2) as H by (apply Hsame; by apply list_elem_of_fmap_2).
    by apply not_elem_of_nil in H.
Qed.
End lww.

(** *** Every field but "liveness" *)

Definition entries (batches : list (Z * list BatchFieldResolution)) : list BatchFieldResolution :=
  batches ≫= snd.

Lemma delivered_snd batches : (delivered batches).*2 = entries batches.
Proof.
  unfold delivered, entries. induction batches as [|[now es] bs IH]; [done|].
  cbn [mbind list_bind fst snd]. rewrite fmap_app. f_equal; [|done].
  clear. induction es as [|e es IH]; simpl; [done|by f_equal].
Qed.

Lemma delivered_elem batches x : x ∈ delivered batches -> x.2 ∈ entries batches.
Proof. intros H. rewrite <- delivered_snd. by apply list_elem_of_fmap_2. Qed.

Lemma filter_slot_elem k (l : list (Z * BatchFieldResolution)) e :
  e ∈ (filter (fun x => entry_key x.2 = k) l).*2 <-> entry_key e = k /\ e ∈ l.*2.
Proof.
  rewrite !list_elem_of_fmap. split.
  - intros (x & -> & [? ?]%list_elem_of_filter). eauto.
  - intros [HP (x & -> & ?)]. exists x. split; [done|]. by apply list_elem_of_filter.
Qed.

(** Two entries of one slot with one ordering key are one operation's. *)
Definition keys_identify (es : list BatchFieldResolution) : Prop :=
  forall e1 e2, e1 ∈ es -> e2 ∈ es -> entry_key e1 = entry_key e2 -> ekey e1 = ekey e2 -> e1 = e2.

Lemma plain_lww_step c x :
  en_field x.2 <> "liveness" ->
  slot_step (Some c) x =
  Some (if 0 <? compareOrderingKey (ekey x.2) (record_key c) then built x else c).
Proof.
  intros Hf. unfold slot_step, arbitrateField. apply String.eqb_neq in Hf. rewrite Hf. simpl.
  by destruct (0 <? _).
Qed.


(** *** The "liveness" field *)

(** The entries the appliers build for this field. *)
Definition live_entry (o : string) (e : BatchFieldResolution) : Prop :=
  en_objectId e = o /\ en_field e = "liveness" /\
  in_value (en_incoming e) =
    JStr (if decide (in_operationType (en_incoming e) = OpDelete) then "deleted" else "live").

Definition etype (e : BatchFieldResolution) : OperationType := in_operationType (en_incoming e).

(** Creations, updates and restores precede every deletion of the object. *)
Definition revivals_below_deletes (es : list BatchFieldResolution) : Prop :=
  forall e1 e2, e1 ∈ es -> e2 ∈ es -> etype e1 <> OpDelete -> etype e1 <> OpMove -> etype e2 = OpDelete ->
  okey_lt (ekey e1) (ekey e2).

Lemma live_step c o x :
  live_entry o x.2 ->
  slot_step (Some c) x =
  Some (if bool_decide (etype x.2 = OpDelete) && bool_decide (fs_operationType c = OpMove) then built x
        else if bool_decide (etype x.2 = OpMove) && js_eq_str (fs_value c) "deleted" then c
        else if 0 <? compareOrderingKey (ekey x.2) (record_key c) then built x else c).
Proof.
  intros (_ & Hf & _). unfold slot_step, arbitrateField, built. rewrite Hf. simpl.
  fold (etype x.2). fold (ekey x.2).
  destruct (bool_decide _ && bool_decide _); [done|].
  destruct (bool_decide _ && js_eq_str _ _); [done|]. by destruct (0 <? _).
Qed.

Lemma built_type x : fs_operationType (built x) = etype x.2.
Proof. done. Qed.
Lemma built_value o x : live_entry o x.2 ->
  js_eq_str (fs_value (built x)) "deleted" = bool_decide (etype x.2 = OpDelete).
Proof.
  intros (_ & _ & Hv). unfold built, buildNextState. cbn [fs_value]. rewrite Hv. fold (etype x.2).
  destruct (decide (etype x.2 = OpDelete)) as [E|E]; [by rewrite E|by rewrite bool_decide_false].
Qed.

Definition is_del (x : Z * BatchFieldResolution) : Prop := etype x.2 = OpDelete.
#[export] Instance is_del_dec x : Decision (is_del x).
Proof. unfold is_del. apply _. Defined.

(** Without deletions the field is plain last-writer-wins. *)
Lemma live_step_no_delete o c x :
  js_eq_str (fs_value c) "deleted" = false -> live_entry o x.2 /\ ~ is_del x ->
  slot_step (Some c) x =
  Some (if 0 <? compareOrderingKey (ekey x.2) (record_key c) then built x else c).
Proof.
  intros Hc [Hx Hd]. rewrite (live_step _ o) by done. rewrite bool_decide_false by done.
  by rewrite Hc, andb_false_r.
Qed.

(** So it is without moves. *)
Lemma live_step_no_move o c x :
  fs_operationType c <> OpMove -> live_entry o x.2 /\ etype x.2 <> OpMove ->
  slot_step (Some c) x =
  Some (if 0 <? compareOrderingKey (ekey x.2) (record_key c) then built x else c).
Proof.
  intros Hc [Hx Hd]. rewrite (live_step _ o) by done.
  rewrite (bool_decide_false (fs_operationType c = OpMove)), andb_false_r by done.
  by rewrite bool_decide_false.
Qed.

(** With a deletion, and revivals below deletions, the greatest deletion is
    left, wherever the moves arrived. *)
Lemma winner_single x : winner None [x] (built x).
Proof.
  split; [right; exists x; split; [by left|done]| |done].
  intros y ->%list_elem_of_singleton. by rewrite record_key_built.
Qed.

Lemma winner_snoc l r x :
  winner None l r -> winner None (l ++ [x]) (if 0 <? compareOrderingKey (ekey x.2) (record_key r) then built x else r).
Proof.
  intros Hw.
  destruct Hw as [[?|(x0 & Hx0 & Hr)] Ha _]; [done|].
  destruct (Z.ltb_spec 0 (compareOrderingKey (ekey x.2) (record_key r))) as [Hlt|Hge].
  - rewrite okey_gt in Hlt. split; [right; exists x; split; [set_solver|done]| |done].
    intros y [Hy| ->%list_elem_of_singleton]%elem_of_app; rewrite record_key_built; [|done].
    trans (record_key r); auto with js.
  - split; [right; exists x0; split; [set_solver|done]| |done].
    intros y [Hy| ->%list_elem_of_singleton]%elem_of_app; auto.
Qed.

Lemma live_first_delete o l x :
  Forall (fun x => live_entry o x.2) l -> live_entry o x.2 -> is_del x -> filter is_del l = [] ->
  (forall y, y ∈ l -> etype y.2 <> OpMove -> okey_lt (ekey y.2) (ekey x.2)) ->
  slot_step (foldl slot_step None l) x = Some (built x).
Proof.
  intros Hl Hx Hd Hnil Hlow.
  pose proof (slot_steps_winner (fun e => live_entry o e /\ etype e <> OpDelete)
    (fun r => js_eq_str (fs_value r) "deleted" = false)
    (fun c x => live_step_no_delete o c x)) as W.
  specialize (W (fun x '(conj Hx Hd) => eq_trans (built_value o x Hx) (bool_decide_eq_false_2 _ Hd)) None l).
  destruct (foldl slot_step None l) as [r|]; [|done].
  destruct W as [[[?|(y & Hy & ->)] _ _] _]; [done| |done|].
  { apply Forall_forall. intros y Hy. split; [by eapply Forall_forall in Hl|].
    intros E. assert (y ∈ filter is_del l) as Hin by by apply list_elem_of_filter.
    rewrite Hnil in Hin. by apply not_elem_of_nil in Hin. }
  rewrite (live_step _ o) by done. rewrite bool_decide_true, built_type by done. simpl.
  destruct (decide (etype y.2 = OpMove)) as [Hm|Hm]; [by rewrite bool_decide_true|].
  rewrite bool_decide_false, (bool_decide_false (etype x.2 = OpMove)) by (unfold is_del in Hd; congruence).
  simpl. specialize (Hlow y Hy Hm). rewrite <- okey_gt in Hlow.
  by rewrite record_key_built, (proj2 (Z.ltb_lt _ _) Hlow).
Qed.

Lemma live_after_delete o l r x :
  winner None (filter is_del l) r -> live_entry o x.2 -> Forall (fun x => live_entry o x.2) l ->
  (etype x.2 <> OpDelete -> etype x.2 <> OpMove -> okey_le (ekey x.2) (record_key r)) ->
  slot_step (Some r) x =
  Some (if decide (is_del x) then if 0 <? compareOrderingKey (ekey x.2) (record_key r) then built x else r else r).
Proof.
  intros [[?|(y & [Hyd Hy]%list_elem_of_filter & ->)] Ha _] Hx Hl Hlow; [done|].
  rewrite Forall_forall in Hl. rewrite (live_step _ o) by done.
  rewrite (built_value o) by auto. rewrite (bool_decide_true (etype y.2 = OpDelete)) by done.
  rewrite built_type, (bool_decide_false (etype y.2 = OpMove)), andb_false_r, andb_true_r by (unfold is_del in Hyd; congruence).
  case_decide as Hd.
  - by rewrite (bool_decide_false (etype x.2 = OpMove)) by (unfold is_del in Hd; congruence).
  - destruct (decide (etype x.2 = OpMove)) as [Hm|Hm]; [by rewrite bool_decide_true|].
    rewrite bool_decide_false by done. specialize (Hlow Hd Hm).
    apply okey_not_gt, Z.ltb_nlt in Hlow. by rewrite Hlow.
Qed.

(** The slot after a delivery with revivals below deletions. *)
Lemma live_deletes_win o l :
  Forall (fun x => live_entry o x.2) l -> revivals_below_deletes l.*2 -> filter is_del l <> [] ->
  exists r, foldl slot_step None l = Some r /\ winner None (filter is_del l) r.
Proof.
  induction l as [|x l IH] using rev_ind; intros Hl Hrev Hne; [done|].
  apply Forall_app in Hl as [Hl [Hx _]%Forall_cons].
  assert (forall y z, y ∈ l ++ [x] -> z ∈ l ++ [x] -> etype y.2 <> OpDelete -> etype y.2 <> OpMove -> is_del z ->
    okey_lt (ekey y.2) (ekey z.2)) as Hlow.
  { intros y z Hy Hz. apply Hrev; by apply list_elem_of_fmap_2. }
  rewrite foldl_app. cbn [foldl]. rewrite filter_app, filter_cons, filter_nil in Hne |- *.
  destruct (decide (filter is_del l = [])) as [Hnil|Hnn].
  - rewrite Hnil in Hne |- *. destruct (decide (is_del x)) as [Hd|Hd]; [|done].
    exists (built x). split; [|apply winner_single]. apply (live_first_delete o l); [done..|].
    intros y Hy Hm. apply Hlow; [set_solver..| |done|done].
    intros E. assert (y ∈ filter is_del l) as Hin by by apply list_elem_of_filter.
    rewrite Hnil in Hin. by apply not_elem_of_nil in Hin.
  - destruct IH as (r & Hr & Hw); [done| |done|].
    { intros e1 e2 H1 H2. apply Hrev; rewrite fmap_app; by apply elem_of_app; left. }
    rewrite Hr, (live_after_delete o l r x); [|done..|].
    + eexists. split; [done|]. case_decide; [by apply winner_snoc|by rewrite app_nil_r].
    + intros Hd Hm. destruct Hw as [[?|(z & [Hzd Hz]%list_elem_of_filter & ->)] _ _]; [done|].
      rewrite record_key_built. apply okey_lt_le, Hlow; [set_solver..|done].
Qed.

Lemma live_entry_key o e : live_entry o e -> entry_key e = fieldStateKey o "liveness".
Proof. intros (Ho & Hf & _). unfold entry_key. by rewrite Ho, Hf. Qed.

(** A delivery confined to one liveness slot. *)
Lemma deliver_live o b s k :
  Forall (live_entry o) (entries b) ->
  field_state (deliver b s) !! k =
  if decide (k = fieldStateKey o "liveness")
  then foldl slot_step (field_state s !! k) (delivered b) else field_state s !! k.
Proof.
  intros Hl. rewrite deliver_spec. cbn [field_state set_field_state]. rewrite store_steps_lookup.
  rewrite Forall_forall in Hl. case_decide as Hk.
  - rewrite filter_true; [done|]. apply Forall_forall. intros x Hx. subst.
    by apply live_entry_key, Hl, delivered_elem.
  - rewrite filter_false; [done|]. apply Forall_forall. intros x Hx E. apply Hk. subst.
    by apply live_entry_key, Hl, delivered_elem.
Qed.

Lemma live_delivered o b : Forall (live_entry o) (entries b) -> Forall (fun x => live_entry o x.2) (delivered b).
Proof. rewrite !Forall_forall. intros Hl x Hx. by apply Hl, delivered_elem. Qed.

Lemma live_no_move_converges o l1 l2 :
  Forall (fun x => live_entry o x.2) l1 -> Forall (fun e => etype e <> OpMove) l1.*2 ->
  (forall x1 x2, x1 ∈ l1 -> x2 ∈ l2 -> ekey x1.2 = ekey x2.2 -> x1.2 = x2.2) ->
  (forall e, e ∈ l1.*2 <-> e ∈ l2.*2) ->
  provenance <$> foldl slot_step None l1 = provenance <$> foldl slot_step None l2.
Proof.
  intros Hl Hm Hk Hsame. rewrite Forall_forall in Hl. rewrite Forall_forall in Hm.
  apply (lww_converges (fun e => live_entry o e /\ etype e <> OpMove) (fun r => fs_operationType r <> OpMove)).
  - apply live_step_no_move.
  - intros x [_ Hx]. by rewrite built_type.
  - done.
  - apply Forall_forall. intros x Hx. split; [auto|]. by apply Hm, list_elem_of_fmap_2.
  - apply Forall_forall. intros x Hx. assert (x.2 ∈ l1.*2) as Hin by by apply Hsame, list_elem_of_fmap_2.
    split; [|by apply Hm]. apply list_elem_of_fmap in Hin as (y & -> & ?). auto.
  - done.
  - done.
Qed.

Lemma live_no_delete_converges o l1 l2 :
  Forall (fun x => live_entry o x.2) l1 -> filter is_del l1 = [] ->
  (forall x1 x2, x1 ∈ l1 -> x2 ∈ l2 -> ekey x1.2 = ekey x2.2 -> x1.2 = x2.2) ->
  (forall e, e ∈ l1.*2 <-> e ∈ l2.*2) ->
  provenance <$> foldl slot_step None l1 = provenance <$> foldl slot_step None l2.
Proof.
  intros Hl Hnil Hk Hsame. rewrite Forall_forall in Hl.
  assert (forall x, x ∈ l1 -> live_entry o x.2 /\ etype x.2 <> OpDelete) as Hg.
  { intros x Hx. split; [auto|]. intros E. assert (x ∈ filter is_del l1) as Hin by by apply list_elem_of_filter.
    rewrite Hnil in Hin. by apply not_elem_of_nil in Hin. }
  apply (lww_converges (fun e => live_entry o e /\ etype e <> OpDelete)
           (fun r => js_eq_str (fs_value r) "deleted" = false)).
  - intros c x. by apply live_step_no_delete.
  - intros x [Hx Hd]. by rewrite (built_value o), bool_decide_false.
  - done.
  - by apply Forall_forall.
  - apply Forall_forall. intros x Hx. assert (x.2 ∈ l1.*2) as Hin by by apply Hsame, list_elem_of_fmap_2.
    apply list_elem_of_fmap in Hin as (y & -> & ?). auto.
  - done.
  - done.
Qed.

Lemma filter_del_snd l e : e ∈ (filter is_del l).*2 <-> etype e = OpDelete /\ e ∈ l.*2.
Proof.
  rewrite !list_elem_of_fmap. split.
  - intros (x & -> & [? ?]%list_elem_of_filter). eauto.
  - intros [HP (x & -> & ?)]. exists x. split; [done|]. by apply list_elem_of_filter.
Qed.

Lemma live_converges o l1 l2 :
  Forall (fun x => live_entry o x.2) l1 -> Forall (fun x => live_entry o x.2) l2 ->
  (forall x1 x2, x1 ∈ l1 -> x2 ∈ l2 -> ekey x1.2 = ekey x2.2 -> x1.2 = x2.2) ->
  (forall e, e ∈ l1.*2 <-> e ∈ l2.*2) ->
  Forall (fun e => etype e <> OpMove) l1.*2 \/ revivals_below_deletes l1.*2 ->
  provenance <$> foldl slot_step None l1 = provenance <$> foldl slot_step None l2.
Proof.
  intros H1 H2 Hk Hsame [Hm|Hr]; [by eapply live_no_move_converges|].
  destruct (decide (filter is_del l1 = [])) as [E|E]; [by eapply live_no_delete_converges|].
  assert (filter is_del l2 <> []) as E2.
  { destruct (filter is_del l1) as [|x l] eqn:Hf; [done|]. intros E2.
    assert (x.2 ∈ (filter is_del l1).*2) as Hin by (rewrite Hf; by left).
    rewrite filter_del_snd, Hsame, <- filter_del_snd, E2 in Hin. by apply not_elem_of_nil in Hin. }
  destruct (live_deletes_win o l1) as (r1 & -> & W1); [done..|].
  destruct (live_deletes_win o l2) as (r2 & -> & W2); [done| |done|].
  { intros e1 e2 He1 He2. apply Hr; by apply Hsame. }
  simpl. f_equal. eapply winner_unique; [| |exact W1|exact W2].
  - intros x1 x2 [_ ?]%list_elem_of_filter [_ ?]%list_elem_of_filter. auto.
  - intros e. by rewrite !filter_del_snd, Hsame.
Qed.

(** Convergence of "liveness": deliveries of the same operations on an
    object agree on whether it is live and on the operation that decided it,
    provided there are no moves among them, or no creation, update or restore
    ranks above a deletion. *)
Theorem liveness_converges o b1 b2 s :
  field_state s !! fieldStateKey o "liveness" = None ->
  Forall (live_entry o) (entries b1) -> keys_identify (entries b1) ->
  (forall e, e ∈ entries b1 <-> e ∈ entries b2) ->
  Forall (fun e => etype e <> OpMove) (entries b1) \/ revivals_below_deletes (entries b1) ->
  provenances (deliver b1 s) = provenances (deliver b2 s).
Proof.
  intros Hs H1 Hkeys Hsame Hreg.
  assert (Forall (live_entry o) (entries b2)) as H2.
  { rewrite Forall_forall in *. intros e He. by apply H1, Hsame. }
  unfold provenances. apply map_eq. intros k. rewrite !lookup_fmap, !(deliver_live o) by done.
  case_decide as Hk; [|done]. subst. rewrite Hs.
  apply (live_converges o); rewrite ?delivered_snd; auto using live_delivered.
  rewrite Forall_forall in H1.
  intros x1 x2 Hx1%delivered_elem Hx2%delivered_elem. rewrite <- Hsame in Hx2.
  apply Hkeys; [done..|]. by rewrite !(live_entry_key o) by auto.
Qed.

(** Delete beats move, and a move never revives a deleted object: once
    one of the delivered operations deletes the object and no creation,
    update or restore ranks above a deletion, the slot reads "deleted",
    whatever moves were delivered before, between or after. *)
Theorem liveness_delete_beats_moves o b s e :
  field_state s !! fieldStateKey o "liveness" = None ->
  Forall (live_entry o) (entries b) -> revivals_below_deletes (entries b) ->
  e ∈ entries b -> etype e = OpDelete ->
  fs_value <$> getFieldState o "liveness" (deliver b s) = Some (JStr "deleted").
Proof.
  intros Hs Hl Hr He Hd. unfold getFieldState. rewrite (deliver_live o), decide_True, Hs by done.
  destruct (live_deletes_win o (delivered b)) as (r & -> & [[?|(x & Hx & ->)] _ _]); [..|done|].
  - by apply live_delivered.
  - by rewrite delivered_snd.
  - intros E. assert (e ∈ (filter is_del (delivered b)).*2) as Hin by by rewrite filter_del_snd, delivered_snd.
    rewrite E in Hin. by apply not_elem_of_nil in Hin.
  - apply list_elem_of_filter in Hx as [Hxd Hx]. rewrite Forall_forall in Hl.
    destruct (Hl x.2) as (_ & _ & Hv); [by apply delivered_elem|]. cbn.
    f_equal. rewrite Hv. unfold is_del, etype in Hxd. by rewrite decide_True.
Qed.

(** ** Concrete deliveries *)

Definition ex_entry (field : string) (t : OperationType) (lamport : Z) (v : string) : BatchFieldResolution :=
  mkEntry "o" field (mkIncoming (mkOrderingKey lamport "dev" (String (ascii_of_nat (Z.to_nat (65 + lamport))) "")) t (JStr v)).

Definition ex_live (t : OperationType) (lamport : Z) : BatchFieldResolution :=
  ex_entry "liveness" t lamport (if decide (t = OpDelete) then "deleted" else "live").

(** Without that proviso the order of delivery shows: a deletion at 5, a
    restore at 7 and a move at 10 leave the bookmark deleted when the deletion
    comes last and live when it comes first. *)
Theorem liveness_depends_on_order :
  let d := ex_live OpDelete 5 in let r := ex_live OpRestore 7 in let m := ex_live OpMove 10 in
  fs_value <$> getFieldState "o" "liveness" (deliver [(0, [r; m; d])] emptyDB) = Some (JStr "deleted") /\
  fs_value <$> getFieldState "o" "liveness" (deliver [(0, [d; r; m])] emptyDB) = Some (JStr "live").
Proof. vm_compute. done. Qed.

Lemma keys_identify_nodup es : NoDup (map ekey es) -> keys_identify es.
Proof.
  intros Hnd e1 e2 H1 H2 _ He. apply list_elem_of_lookup in H1 as [i Hi], H2 as [j Hj].
  assert (i = j) as -> by (eapply (NoDup_lookup _ i j); [done|by rewrite list_lookup_fmap, Hi|by rewrite list_lookup_fmap, Hj, He]).
  congruence.
Qed.

#[export] Instance OrderingKey_eq_dec : EqDecision OrderingKey.
Proof. solve_decision. Defined.


Lemma liveness_converges_witness :
  let c := ex_live OpCreate 1 in let m := ex_live OpMove 10 in let d := ex_live OpDelete 5 in
  provenances (deliver [(0, [c; m; d])] emptyDB) = provenances (deliver [(1, [d; m]); (2, [c])] emptyDB).
Proof.
  intros c m d. apply (liveness_converges "o" [(0, [c; m; d])] [(1, [d; m]); (2, [c])] emptyDB).
  - reflexivity.
  - repeat constructor.
  - apply keys_identify_nodup, (bool_decide_unpack _). vm_compute. exact I.
  - cbn. set_solver.
  - right. unfold revivals_below_deletes, entries, c, m, d. cbn.
    intros e1 e2 H1 H2. repeat setoid_rewrite elem_of_cons in H1. repeat setoid_rewrite elem_of_cons in H2.
    destruct H1 as [->|[->|[->|[]%not_elem_of_nil]]], H2 as [->|[->|[->|[]%not_elem_of_nil]]];
      cbn; intros; try congruence. left. reflexivity.
Defined.

Lemma liveness_delete_beats_moves_witness :
  fs_value <$> getFieldState "o" "liveness"
    (deliver [(0, [ex_live OpMove 10; ex_live OpDelete 5; ex_live OpMove 12])] emptyDB) = Some (JStr "deleted").
Proof.
  apply (liveness_delete_beats_moves "o" [(0, [ex_live OpMove 10; ex_live OpDelete 5; ex_live OpMove 12])]
           emptyDB (ex_live OpDelete 5)).
  - reflexivity.
  - repeat constructor.
  - unfold revivals_below_deletes. cbn. intros e1 e2 H1 _ H3 H4 _. exfalso.
    repeat setoid_rewrite elem_of_cons in H1.
    destruct H1 as [->|[->|[->|[]%not_elem_of_nil]]]; cbn in *; congruence.
  - cbn. set_solver.
  - reflexivity.
Defined.
