(* ===== verification/Maintenance.v ===== *)
(** * Storage maintenance and chunked walks (extension/src/storage/db.ts, selectors.ts)

    The operations that walk a whole store in committed chunks, each chunk in
    its own transaction with the cursor reopened after the last row visited,
    and the pure selectors they use. The walks are shown to visit every row
    exactly once, in key order, and the prunes to remove exactly the rows they
    are meant to. Between two chunks other contexts may run; the model takes
    the store as unchanged there. *)

From S2P Require Import Prelude JsMap Types Util Storage StorageFacts.

Open Scope Z_scope.
Open Scope js_scope.

(** ** Selectors *)

Definition isPendingTabRestore (record : RemoteObjectRecord) (materializedObjectIds : jset string) : bool :=
  bool_decide (ro_objectType record = OtTab) && negb (deleted record) && truthy (ro_payload record)
  && negb (js_has materializedObjectIds (ro_objectId record)).

Record PendingTabRestore := mkPendingTabRestore {
  ptr_objectId : string;
  ptr_payload : jsval;
}.

Definition selectPendingTabRestores (records : list RemoteObjectRecord) (materialized : jset string) :
    list PendingTabRestore :=
  map (fun r => mkPendingTabRestore (ro_objectId r) (ro_payload r))
    (filter (fun r => isPendingTabRestore r materialized = true) records).

Definition isGcCandidate (cutoffMs : Z) (r : FieldStateRecord) : bool :=
  String.eqb (fs_field r) "liveness" && js_eq_str (fs_value r) "deleted"
  && match recordedAt r with Some at_ => at_ <? cutoffMs | None => false end.

Definition selectFieldStateGcCandidates (records : list FieldStateRecord) (cutoffMs : Z) : list string :=
  foldl (fun ids r => if isGcCandidate cutoffMs r then js_add ids (fs_objectId r) else ids) [] records.

(** [parseDate] is [new Date(s).getTime()], [None] for [NaN]. *)
Definition isStale (parseDate : string -> option Z) (cutoffMs : Z) (createdAt : string) : bool :=
  match parseDate createdAt with Some created => created <? cutoffMs | None => false end.

Definition selectStaleDeferredMaterializations (parseDate : string -> option Z)
    (records : list DeferredMaterializationRecord) (cutoffMs : Z) : list string :=
  foldl (fun ids r => if isStale parseDate cutoffMs (df_createdAt r) then js_add ids (df_objectId r) else ids)
    [] records.

(** ** Reopening a cursor *)

(** [IDBKeyRange.lowerBound(last, true)] over the rows of a store. *)
Definition open_above {A} (last : option string) (rs : list (string * A)) : list (string * A) :=
  match last with
  | Some l => filter (fun r => l <s r.1) rs
  | None => rs
  end.

(** [continuePrimaryKey]: on to the first row at or after the key. *)
Fixpoint continuePrimaryKey {A} (key : string) (rs : list (string * A)) : list (string * A) :=
  match rs with
  | r :: rs' => if str_ltb r.1 key then continuePrimaryKey key rs' else rs
  | [] => []
  end.

(** The resume-after rule of [getMappedChromiumIdsByType]. *)
Definition resume_after {A} (last : option string) (rs : list (string * A)) : list (string * A) :=
  match last, rs with
  | Some l, (k, _) :: _ =>
      let cursor := if str_ltb k l then continuePrimaryKey l rs else rs in
      match cursor with
      | (k', _) :: rest => if String.eqb k' l then rest else cursor
      | [] => []
      end
  | _, _ => rs
  end.

(** ** Chunked walks *)

(** The scanning loop all walks share: up to [size] rows from a reopened
    cursor, handed to [visit] once the chunk has committed; a short chunk ends
    the walk. [None] is running out of fuel. *)
Fixpoint chunked_walk {A St} (reopen : option string -> list (string * A)) (size : nat)
    (visit : St -> list A -> St) (fuel : nat) (last : option string) (acc : St) : option St :=
  match fuel with
  | O => None
  | S fuel =>
      let scanned := take size (reopen last) in
      let acc' := visit acc scanned.*2 in
      if Nat.ltb (length scanned) size then Some acc'
      else chunked_walk reopen size visit fuel (or_else (fst <$> list.last scanned) last) acc'
  end.

Definition MAINTENANCE_DELETE_CHUNK : nat := 500.

(** One chunk per [size] rows, and one more to see the end. *)
Definition walk_fuel {A} (m : gmap string A) : nat := S (size m).

Definition getMappedChromiumIdsByType (t : ObjectType) (s : DB) : option (jset string) :=
  let index := filter (fun r => om_objectType r.2 = t) (rows (object_mappings s)) in
  chunked_walk (fun last => resume_after last index) IDB_BATCH_CHUNK
    (foldl (fun ids r => js_add ids (chromiumLocalId r))) (walk_fuel (object_mappings s)) None [].

Definition forEachLiveRemoteTab {St} (visit : St -> RemoteObjectRecord -> St) (s : DB) (init : St) : option St :=
  let index := filter (fun r => ro_objectType r.2 = OtTab /\ deleted r.2 = false) (rows (remote_objects s)) in
  chunked_walk (fun last => resume_after last index) IDB_BATCH_CHUNK
    (foldl visit) (walk_fuel (remote_objects s)) None init.

Definition getMaterializedTabObjectIds (s : DB) : jset string :=
  js_of_list (map (fun r => om_objectId r.2)
    (filter (fun r => om_objectType r.2 = OtTab) (rows (object_mappings s)))).

Definition getPendingTabRestores (s : DB) : list PendingTabRestore :=
  selectPendingTabRestores (getActiveRemoteObjectsByType OtTab s) (getMaterializedTabObjectIds s).

Definition countPendingTabRestores (s : DB) : option Z :=
  let materialized := getMaterializedTabObjectIds s in
  forEachLiveRemoteTab (fun count r => if isPendingTabRestore r materialized then count + 1 else count) s 0.

Definition getPendingTabRestoresPage (limit : nat) (s : DB) : option (list PendingTabRestore * Z) :=
  let materialized := getMaterializedTabObjectIds s in
  forEachLiveRemoteTab (fun '(items, total) r =>
    if isPendingTabRestore r materialized then
      (if Nat.ltb (length items) limit
       then items ++ [mkPendingTabRestore (ro_objectId r) (ro_payload r)] else items, total + 1)
    else (items, total)) s ([], 0).

(** ** Prunes *)

Definition delete_rows {A B} (rs : list (string * A)) (m : gmap string B) : gmap string B :=
  foldl (fun m r => delete r.1 m) m rs.

Definition APPLIED_OPERATIONS_RETENTION_MS : Z := 14 * 24 * 60 * 60 * 1000.

(** [cutoff] is the ISO form of [now - APPLIED_OPERATIONS_RETENTION_MS]. *)
Fixpoint prune_applied_loop (cutoff : string) (fuel : nat) (m : gmap string string) : option (gmap string string) :=
  match fuel with
  | O => None
  | S fuel =>
      let range := filter (fun r => r.2 <=s cutoff) (sindex id m) in
      let deleted := take MAINTENANCE_DELETE_CHUNK range in
      let m' := delete_rows deleted m in
      if Nat.ltb (length deleted) MAINTENANCE_DELETE_CHUNK then Some m'
      else prune_applied_loop cutoff fuel m'
  end.

Definition pruneAppliedOperations (toISOString : Z -> string) (now : Z) (s : DB) : option DB :=
  let cutoff := toISOString (now - APPLIED_OPERATIONS_RETENTION_MS) in
  (fun m => set_applied m s) <$>
    prune_applied_loop cutoff (walk_fuel (applied_operations s)) (applied_operations s).

(** The "by-type-updated" index under one type, oldest first. *)
Definition by_type_updated (t : ObjectType) (m : gmap string RemoteObjectRecord) :
    list (string * RemoteObjectRecord) :=
  filter (fun r => ro_objectType r.2 = t) (sindex updatedAt m).

Fixpoint prune_remote_loop (t : ObjectType) (fuel toDelete : nat) (m : gmap string RemoteObjectRecord) :
    option (gmap string RemoteObjectRecord) :=
  match fuel with
  | O => None
  | S fuel =>
      if Nat.ltb 0 toDelete then
        let batchSize := Nat.min MAINTENANCE_DELETE_CHUNK toDelete in
        let victims := take batchSize (by_type_updated t m) in
        let m' := delete_rows victims m in
        if Nat.eqb (length victims) 0 then Some m'
        else prune_remote_loop t fuel (toDelete - length victims) m'
      else Some m
  end.

Definition pruneRemoteObjectsByType (t : ObjectType) (maxCount : nat) (s : DB) : option DB :=
  let toDelete := (length (by_type_updated t (remote_objects s)) - maxCount)%nat in
  (fun m => set_remote m s) <$> prune_remote_loop t (S toDelete) toDelete (remote_objects s).

Definition pruneDeferredMaterializations (parseDate : string -> option Z) (now maxAgeMs : Z) (s : DB) :
    option DB :=
  let cutoff := now - maxAgeMs in
  (fun stale => foldl (fun s ids => deleteDeferredMaterializationsBatch ids s) s
                  (slices stale MAINTENANCE_DELETE_CHUNK)) <$>
  chunked_walk (fun last => open_above last (rows (deferred_materializations s))) MAINTENANCE_DELETE_CHUNK
    (fun stale scanChunk => stale ++ selectStaleDeferredMaterializations parseDate scanChunk cutoff)
    (walk_fuel (deferred_materializations s)) None [].

Definition FIELD_STATE_GC_RETENTION_MS : Z := 30 * 24 * 60 * 60 * 1000.

(** Deleting everything "by-object-id" yields for an id. *)
Definition delete_field_states (objectId : string) (m : gmap string FieldStateRecord) :
    gmap string FieldStateRecord :=
  delete_rows (filter (fun r => fs_objectId r.2 = objectId) (rows m)) m.

Definition gcFieldStates (now : Z) (s : DB) : option DB :=
  let cutoffMs := now - FIELD_STATE_GC_RETENTION_MS in
  (fun objectIds =>
     set_field_state (foldl (foldl (fun m id => delete_field_states id m)) (field_state s)
                        (slices objectIds MAINTENANCE_DELETE_CHUNK)) s) <$>
  chunked_walk (fun last => open_above last (rows (field_state s))) MAINTENANCE_DELETE_CHUNK
    (fun ids scanChunk => foldl js_add ids (selectFieldStateGcCandidates scanChunk cutoffMs))
    (walk_fuel (field_state s)) None [].
