(* ===== verification/MaintenanceFacts.v ===== *)
(** * Properties of maintenance

    A chunked walk visits what a single scan would, in the same order; the
    prunes remove exactly the rows they promise to. *)

From S2P Require Import Prelude JsMap Types Util Storage StorageFacts Maintenance.

Open Scope Z_scope.
Open Scope js_scope.

(** ** Reopened cursors *)

Definition key_sorted {A} (rs : list (string * A)) : Prop := StronglySorted (fun r1 r2 => r1.1 <s r2.1) rs.

Lemma key_sorted_of {A} (rs : list (string * A)) :
  StronglySorted row_le rs -> NoDup rs.*1 -> key_sorted rs.
Proof.
  induction 1 as [|r rs Hs IH Hall]; [constructor|]. rewrite fmap_cons. intros [Hnin Hnd]%NoDup_cons.
  constructor; [by apply IH|]. rewrite Forall_forall in *. intros x Hx.
  destruct (proj1 (str_le_lt_eq _ _) (Hall x Hx)) as [?|E]; [done|].
  exfalso. apply Hnin. rewrite E. by apply list_elem_of_fmap_2.
Qed.

Lemma key_sorted_filter {A} (P : string * A -> Prop) `{!forall x, Decision (P x)} rs :
  key_sorted rs -> key_sorted (filter P rs).
Proof. apply StronglySorted_filter. Qed.

Lemma rows_key_sorted {A} (m : gmap string A) : key_sorted (rows m).
Proof. apply key_sorted_of; [apply rows_sorted|apply (index_NoDup _ m), rows_perm]. Qed.

Lemma key_sorted_split {A} (pre : list (string * A)) x suf :
  key_sorted (pre ++ x :: suf) ->
  Forall (fun r => r.1 <s x.1) pre /\ Forall (fun r => x.1 <s r.1) suf.
Proof.
  intros H. induction pre as [|r pre IH].
  - inversion H; subst. done.
  - inversion H; subst. destruct IH as [? ?]; [done|]. split; [|done].
    constructor; [|done]. rewrite Forall_forall in *. set_solver.
Qed.

Lemma open_above_suffix {A} (pre : list (string * A)) x suf :
  key_sorted (pre ++ x :: suf) -> open_above (Some x.1) (pre ++ x :: suf) = suf.
Proof.
  intros [Hpre Hsuf]%key_sorted_split. simpl. rewrite filter_app, filter_cons.
  rewrite decide_False by apply str_lt_irrefl. rewrite filter_false, filter_true; [done..|].
  eapply Forall_impl; [exact Hpre|]. intros r Hr. by apply str_lt_asym.
Qed.

Lemma continuePrimaryKey_suffix {A} (pre : list (string * A)) x suf :
  key_sorted (pre ++ x :: suf) -> continuePrimaryKey x.1 (pre ++ x :: suf) = x :: suf.
Proof.
  intros [Hpre Hsuf]%key_sorted_split. induction Hpre as [|r pre Hr Hpre IH]; simpl.
  - destruct (str_ltb x.1 x.1) eqn:E; [|done]. by destruct (str_lt_irrefl x.1).
  - unfold str_lt in Hr. by rewrite Hr.
Qed.

Lemma resume_after_suffix {A} (pre : list (string * A)) x suf :
  key_sorted (pre ++ x :: suf) -> resume_after (Some x.1) (pre ++ x :: suf) = suf.
Proof.
  intros Hs. pose proof (continuePrimaryKey_suffix _ _ _ Hs) as Hc.
  apply key_sorted_split in Hs as [Hpre _]. destruct x as [kx ax]. simpl in *.
  destruct pre as [|[k a] pre]; simpl in *.
  - assert (str_ltb kx kx = false) as -> by (destruct (str_ltb kx kx) eqn:Hk; [by destruct (str_lt_irrefl kx)|done]).
    by rewrite String.eqb_refl.
  - apply Forall_cons in Hpre as [Hk _]. unfold str_lt in Hk. simpl in Hk. rewrite Hk in Hc |- *.
    rewrite Hc. by rewrite String.eqb_refl.
Qed.

(** ** A chunked walk is one scan *)

Section walk.
Context {A St : Type} (rs : list (string * A)) (reopen : option string -> list (string * A)) (size : nat).
Context (visit : St -> list A -> St).
Hypothesis size_pos : (0 < size)%nat.
Hypothesis reopen_None : reopen None = rs.
Hypothesis reopen_Some : forall pre x suf, rs = pre ++ x :: suf -> reopen (Some x.1) = suf.
Hypothesis visit_app : forall acc l1 l2, visit acc (l1 ++ l2) = visit (visit acc l1) l2.

Lemma chunked_walk_suffix fuel pre suf lst acc :
  rs = pre ++ suf -> reopen lst = suf -> (length suf < fuel)%nat ->
  chunked_walk reopen size visit fuel lst acc = Some (visit acc suf.*2).
Proof.
  revert pre suf lst acc. induction fuel as [|fuel IH]; intros pre suf lst acc Hrs Hre Hlen; [lia|].
  cbn [chunked_walk]. rewrite Hre. destruct (Nat.ltb_spec (length (take size suf)) size) as [Hlt|Hge].
  { rewrite length_take in Hlt. by rewrite take_ge by lia. }
  destruct (list.last (take size suf)) as [x0|] eqn:Ht.
  2:{ apply last_None in Ht. rewrite Ht in Hge. simpl in Hge. lia. }
  apply last_Some in Ht as [l0 Ht].
  pose proof (take_drop size suf) as Hsplit. rewrite Ht in Hsplit.
  rewrite length_take in Hge. rewrite Ht. cbn [fmap option_fmap option_map or_else].
  rewrite (IH (pre ++ l0 ++ [x0]) (drop size suf)).
  - assert (suf.*2 = (l0 ++ [x0]).*2 ++ (drop size suf).*2) as -> by (by rewrite <- fmap_app, Hsplit).
    by rewrite visit_app.
  - by rewrite Hrs, <- app_assoc, Hsplit.
  - apply (reopen_Some (pre ++ l0)). rewrite Hrs.
    trans (pre ++ ((l0 ++ [x0]) ++ drop size suf)); [by rewrite Hsplit|by rewrite <- !app_assoc].
  - rewrite length_drop. lia.
Qed.

Lemma chunked_walk_all fuel acc :
  (length rs < fuel)%nat -> chunked_walk reopen size visit fuel None acc = Some (visit acc rs.*2).
Proof. intros. by apply (chunked_walk_suffix _ []). Qed.
End walk.

Lemma walk_resume {A St} (rs : list (string * A)) n (visit : St -> list A -> St) fuel acc :
  (0 < n)%nat -> key_sorted rs -> (length rs < fuel)%nat ->
  (forall acc l1 l2, visit acc (l1 ++ l2) = visit (visit acc l1) l2) ->
  chunked_walk (fun lst => resume_after lst rs) n visit fuel None acc = Some (visit acc rs.*2).
Proof.
  intros Hn Hs Hf Hv. eapply chunked_walk_all; [exact Hn|done| |exact Hv|exact Hf].
  intros pre x suf ->. by apply resume_after_suffix.
Qed.

Lemma walk_above {A St} (rs : list (string * A)) n (visit : St -> list A -> St) fuel acc :
  (0 < n)%nat -> key_sorted rs -> (length rs < fuel)%nat ->
  (forall acc l1 l2, visit acc (l1 ++ l2) = visit (visit acc l1) l2) ->
  chunked_walk (fun lst => open_above lst rs) n visit fuel None acc = Some (visit acc rs.*2).
Proof.
  intros Hn Hs Hf Hv. eapply chunked_walk_all; [exact Hn|done| |exact Hv|exact Hf].
  intros pre x suf ->. by apply open_above_suffix.
Qed.

Lemma length_rows {A} (m : gmap string A) : length (rows m) = size m.
Proof. rewrite (rows_perm m). apply length_map_to_list. Qed.

Lemma length_rows_filter {A} (P : string * A -> Prop) `{!forall x, Decision (P x)} (m : gmap string A) :
  (length (filter P (rows m)) < walk_fuel m)%nat.
Proof. unfold walk_fuel. rewrite <- length_rows. pose proof (length_filter P (rows m)). lia. Qed.

(** ** The remote-tab walks *)

Lemma forEachLiveRemoteTab_all {St} (visit : St -> RemoteObjectRecord -> St) s init :
  forEachLiveRemoteTab visit s init = Some (foldl visit init (getActiveRemoteObjectsByType OtTab s)).
Proof.
  unfold forEachLiveRemoteTab. apply walk_resume.
  - unfold IDB_BATCH_CHUNK. lia.
  - apply key_sorted_filter, rows_key_sorted.
  - apply length_rows_filter.
  - intros. apply foldl_app.
Qed.

Lemma page_foldl limit materialized rs items total :
  foldl (fun '(items, total) r =>
    if isPendingTabRestore r materialized then
      (if Nat.ltb (length items) limit
       then items ++ [mkPendingTabRestore (ro_objectId r) (ro_payload r)] else items, total + 1)
    else (items, total)) (items, total) rs =
  (items ++ take (limit - length items) (selectPendingTabRestores rs materialized),
   total + Z.of_nat (length (selectPendingTabRestores rs materialized))).
Proof.
  unfold selectPendingTabRestores. revert items total. induction rs as [|r rs IH]; intros items total.
  { cbn. by rewrite take_nil, app_nil_r, Z.add_0_r. }
  cbn [foldl]. rewrite filter_cons.
  destruct (isPendingTabRestore r materialized) eqn:Hp; rewrite IH; clear IH; simpl; [|done].
  rewrite Nat2Z.inj_succ. f_equal; [|lia].
  destruct (Nat.ltb_spec (length items) limit).
  - rewrite length_app. simpl. replace (limit - length items)%nat with (S (limit - (length items + 1))) by lia.
    simpl. by rewrite <- app_assoc.
  - by replace (limit - length items)%nat with 0%nat by lia.
Qed.

(** The popup's page of pending restores, computed in one chunked walk
    that deserialises a row at a time, is the head of the list of all pending
    restores, and its total is that list's length. *)
Theorem getPendingTabRestoresPage_spec limit s :
  getPendingTabRestoresPage limit s =
  Some (take limit (getPendingTabRestores s), Z.of_nat (length (getPendingTabRestores s))).
Proof.
  unfold getPendingTabRestoresPage. rewrite forEachLiveRemoteTab_all, page_foldl.
  by rewrite Nat.sub_0_r.
Qed.

(** ** Prunes *)

Lemma delete_rows_lookup {A B} (rs : list (string * A)) (m : gmap string B) k :
  delete_rows rs m !! k = if decide (k ∈ rs.*1) then None else m !! k.
Proof.
  unfold delete_rows. rewrite <- lookup_foldl_delete. f_equal.
  revert m. by induction rs as [|r rs IH]; intros m; simpl.
Qed.

(** The rows deleted from an index leave the rest of it, in order. *)
Lemma map_to_list_delete_rows {A B} (rs : list (string * B)) (m : gmap string A) :
  map_to_list (delete_rows rs m) ≡ₚ filter (fun r => r.1 ∉ rs.*1) (map_to_list m).
Proof.
  apply NoDup_Permutation.
  - apply NoDup_map_to_list.
  - apply NoDup_filter, NoDup_map_to_list.
  - intros [k r]. rewrite list_elem_of_filter, !elem_of_map_to_list, delete_rows_lookup. simpl.
    case_decide; [|tauto]. split; [done|tauto].
Qed.

Lemma sindex_delete_rows {A B} f (rs : list (string * B)) (m : gmap string A) :
  sindex f (delete_rows rs m) = filter (fun r => r.1 ∉ rs.*1) (sindex f m).
Proof.
  apply (StronglySorted_unique_strong (srow_le f)).
  - intros [k1 r1] [k2 r2] H1 [_ H2]%list_elem_of_filter Hle1 Hle2.
    apply (index_elem _ _ _ _ (sindex_perm f _)) in H1. rewrite delete_rows_lookup in H1.
    apply (index_elem _ _ _ _ (sindex_perm f _)) in H2. case_decide; [done|].
    assert (k1 = k2) as ->; [|congruence]. unfold srow_le in *. simpl in *.
    destruct Hle1 as [Hf1|[E1 Hf1]], Hle2 as [Hf2|[E2 Hf2]].
    + by apply str_lt_asym in Hf1.
    + rewrite E2 in Hf1. by apply str_lt_irrefl in Hf1.
    + rewrite E1 in Hf2. by apply str_lt_irrefl in Hf2.
    + by apply (anti_symm str_le).
  - apply sindex_sorted.
  - apply StronglySorted_filter, sindex_sorted.
  - by rewrite !sindex_perm, map_to_list_delete_rows.
Qed.

Lemma filter_notin_take {A} n (l : list (string * A)) :
  NoDup l.*1 -> filter (fun r => r.1 ∉ (take n l).*1) l = drop n l.
Proof.
  intros Hnd. rewrite <- (take_drop n l) in Hnd. rewrite fmap_app in Hnd.
  apply NoDup_app in Hnd as (_ & Hdisj & _). 
  trans (filter (fun r => r.1 ∉ (take n l).*1) (take n l ++ drop n l)); [by rewrite take_drop|].
  rewrite filter_app.
  rewrite filter_false, filter_true; [done|..]; apply Forall_forall; intros r Hr.
  - intros Hin. by eapply Hdisj, list_elem_of_fmap_2.
  - intros Hnin. by apply Hnin, list_elem_of_fmap_2.
Qed.

Lemma index_filter_NoDup {A} (P : string * A -> Prop) `{!forall x, Decision (P x)} l (m : gmap string A) :
  l ≡ₚ map_to_list m -> NoDup (filter P l).*1.
Proof.
  intros Hl. eapply sublist_NoDup; [by eapply (index_NoDup l m)|]. apply fmap_sublist, sublist_filter.
Qed.

(** *** Applied operations *)

Lemma prune_applied_step cutoff m :
  let range := filter (fun r => r.2 <=s cutoff) (sindex id m) in
  filter (fun r => r.2 <=s cutoff) (sindex id (delete_rows (take MAINTENANCE_DELETE_CHUNK range) m)) =
  drop MAINTENANCE_DELETE_CHUNK range.
Proof.
  intros range. rewrite sindex_delete_rows, filter_comm. fold range.
  apply filter_notin_take, (index_filter_NoDup _ _ m), sindex_perm.
Qed.

Lemma delete_range_lookup cutoff n (m : gmap string string) k a :
  delete_rows (take n (filter (fun r => r.2 <=s cutoff) (sindex id m))) m !! k = Some a ->
  m !! k = Some a.
Proof. rewrite delete_rows_lookup. by case_decide. Qed.

Lemma prune_applied_loop_spec cutoff fuel m :
  (length (filter (fun r => r.2 <=s cutoff) (sindex id m)) < fuel)%nat ->
  exists m', prune_applied_loop cutoff fuel m = Some m' /\
    forall k a, m' !! k = Some a <-> m !! k = Some a /\ cutoff <s a.
Proof.
  revert m. induction fuel as [|fuel IH]; intros m Hf; [lia|]. cbn [prune_applied_loop].
  pose proof (prune_applied_step cutoff m) as Hstep. cbn zeta in Hstep.
  set (range := filter _ (sindex id m)) in *.
  assert (forall k a, m !! k = Some a -> cutoff <s a -> k ∉ (take MAINTENANCE_DELETE_CHUNK range).*1) as Hkeep.
  { intros k a Hk Ha ([k' a'] & -> & Hin)%list_elem_of_fmap.
    apply elem_of_take in Hin as (i & Hi & _). apply list_elem_of_lookup_2 in Hi.
    apply list_elem_of_filter in Hi as [Hle Hi]. apply (index_elem _ m) in Hi; [|apply sindex_perm].
    simpl in *. rewrite Hk in Hi. injection Hi as ->. by apply str_not_lt in Hle. }
  destruct (Nat.ltb_spec (length (take MAINTENANCE_DELETE_CHUNK range)) MAINTENANCE_DELETE_CHUNK) as [Hlt|Hge].
  - eexists. split; [done|]. intros k a. rewrite delete_rows_lookup. rewrite length_take in Hlt.
    case_decide as Hk.
    + split; [done|]. intros [Hm Ha]. by eapply Hkeep in Ha.
    + split; [|tauto]. intros Hm. split; [done|]. apply dec_stable. intros Hn. apply Hk.
      rewrite take_ge by lia. apply list_elem_of_fmap. exists (k, a). split; [done|].
      apply list_elem_of_filter. split; [by apply str_not_lt|]. by apply (index_elem _ m), Hm; apply sindex_perm.
  - destruct (IH (delete_rows (take MAINTENANCE_DELETE_CHUNK range) m)) as (m' & Hm' & Hspec).
    + rewrite Hstep, length_drop. rewrite length_take in Hge. unfold MAINTENANCE_DELETE_CHUNK in *. lia.
    + exists m'. split; [done|]. intros k a. rewrite Hspec, delete_rows_lookup. case_decide as Hk; [|done].
      split; [by intros [? _]|]. intros [Hm Ha]. by eapply Hkeep in Ha.
Qed.

(** Pruning the applied-operation guard terminates and keeps exactly the
    rows younger than the retention cutoff, however many chunks it takes. *)
Theorem pruneAppliedOperations_exact toISOString now s :
  exists m, pruneAppliedOperations toISOString now s = Some (set_applied m s) /\
    forall k a, m !! k = Some a <->
      applied_operations s !! k = Some a /\ toISOString (now - APPLIED_OPERATIONS_RETENTION_MS) <s a.
Proof.
  unfold pruneAppliedOperations.
  edestruct prune_applied_loop_spec as (m' & -> & Hspec); [|by eexists].
  unfold walk_fuel. rewrite <- length_map_to_list, <- (sindex_perm id).
  pose proof (length_filter (fun r => r.2 <=s toISOString (now - APPLIED_OPERATIONS_RETENTION_MS))
    (sindex id (applied_operations s))). lia.
Qed.

(** *** Remote objects *)

Lemma by_type_delete t n m :
  by_type_updated t (delete_rows (take n (by_type_updated t m)) m) = drop n (by_type_updated t m).
Proof.
  unfold by_type_updated at 1. rewrite sindex_delete_rows, filter_comm.
  apply filter_notin_take, (index_filter_NoDup _ _ m), sindex_perm.
Qed.

Lemma delete_rows_app {A B} (l1 l2 : list (string * A)) (m : gmap string B) :
  delete_rows l2 (delete_rows l1 m) = delete_rows (l1 ++ l2) m.
Proof. unfold delete_rows. by rewrite foldl_app. Qed.

Lemma prune_remote_loop_spec t fuel n m :
  (n <= length (by_type_updated t m))%nat -> (n < fuel)%nat ->
  prune_remote_loop t fuel n m = Some (delete_rows (take n (by_type_updated t m)) m).
Proof.
  revert n m. induction fuel as [|fuel IH]; intros n m Hn Hf; [lia|]. cbn [prune_remote_loop].
  destruct (Nat.ltb_spec 0 n) as [Hpos|H0]; [|by replace n with 0%nat by lia].
  set (b := Nat.min MAINTENANCE_DELETE_CHUNK n).
  assert (0 < b <= n)%nat as Hb by (unfold b, MAINTENANCE_DELETE_CHUNK; lia).
  assert (length (take b (by_type_updated t m)) = b) as -> by (rewrite length_take; lia).
  destruct (Nat.eqb_spec b 0); [lia|]. rewrite IH, by_type_delete; rewrite ?by_type_delete, ?length_drop; [|lia..].
  f_equal. rewrite delete_rows_app, take_take_drop. by replace (b + (n - b))%nat with n by lia.
Qed.

(** Pruning tracked remote objects keeps the [maxCount] newest rows of
    the type, in their order, and touches no other type's. *)
Theorem pruneRemoteObjectsByType_exact t maxCount s :
  exists m, pruneRemoteObjectsByType t maxCount s = Some (set_remote m s) /\
    by_type_updated t m =
      drop (length (by_type_updated t (remote_objects s)) - maxCount) (by_type_updated t (remote_objects s)) /\
    forall k r, ro_objectType r <> t -> m !! k = Some r <-> remote_objects s !! k = Some r.
Proof.
  unfold pruneRemoteObjectsByType. rewrite prune_remote_loop_spec by lia. eexists. split; [done|].
  cbn [remote_objects set_remote]. split; [apply by_type_delete|]. intros k r Hr.
  rewrite delete_rows_lookup. case_decide as Hk; [|done]. split; [done|]. intros Hm. exfalso.
  apply list_elem_of_fmap in Hk as ([k' r'] & -> & (i & Hi & _)%elem_of_take).
  apply list_elem_of_lookup_2, list_elem_of_filter in Hi as [Ht Hi].
  apply (index_elem _ (remote_objects s)) in Hi; [|apply sindex_perm]. simpl in *. congruence.
Qed.

(** *** Field states *)

Lemma foldl_js_add_add (acc S : list string) x :
  foldl js_add acc (js_add S x) = js_add (foldl js_add acc S) x.
Proof.
  unfold js_add at 2 3. case_decide as Hx.
  - rewrite decide_True; [done|]. apply js_foldl_add. auto.
  - rewrite foldl_app. done.
Qed.

Lemma gc_visit_foldl cutoff acc l :
  foldl js_add acc (selectFieldStateGcCandidates l cutoff) =
  foldl (fun ids r => if isGcCandidate cutoff r then js_add ids (fs_objectId r) else ids) acc l.
Proof.
  unfold selectFieldStateGcCandidates. revert acc. induction l as [|r l IH] using rev_ind; intros acc; [done|].
  rewrite !foldl_app. cbn [foldl]. destruct (isGcCandidate cutoff r); [|apply IH].
  by rewrite foldl_js_add_add, IH.
Qed.

Lemma gc_select_elem cutoff acc l id :
  id ∈ foldl (fun ids r => if isGcCandidate cutoff r then js_add ids (fs_objectId r) else ids) acc l <->
  id ∈ acc \/ exists r, r ∈ l /\ isGcCandidate cutoff r = true /\ fs_objectId r = id.
Proof.
  revert acc. induction l as [|r l IH]; intros acc; simpl.
  { split; [auto|]. intros [?|(? & []%not_elem_of_nil & _)]; done. }
  rewrite IH. destruct (isGcCandidate cutoff r) eqn:Hr.
  - rewrite js_add_elem. split.
    + intros [[?| ->]|(r' & ? & ?)]; [auto|right; exists r; split_and!; [by left|done..]|right; exists r'; set_solver].
    + intros [?|(r' & [->|?]%elem_of_cons & ? & <-)]; [auto|auto|right; eauto].
  - split.
    + intros [?|(r' & ? & ?)]; [auto|right; exists r'; set_solver].
    + intros [?|(r' & [->|?]%elem_of_cons & ? & <-)]; [auto|congruence|right; eauto].
Qed.

Lemma delete_field_states_lookup ids m k :
  foldl (fun m id => delete_field_states id m) m ids !! k =
  match m !! k with Some r => if decide (fs_objectId r ∈ ids) then None else Some r | None => None end.
Proof.
  revert m. induction ids as [|id ids IH]; intros m.
  { cbn [foldl]. destruct (m !! k); [|done]. by rewrite decide_False by apply not_elem_of_nil. }
  cbn [foldl]. rewrite IH. clear IH. unfold delete_field_states. rewrite delete_rows_lookup.
  assert (k ∈ (filter (fun r => fs_objectId r.2 = id) (rows m)).*1 <-> exists r, m !! k = Some r /\ fs_objectId r = id) as Hk.
  { rewrite list_elem_of_fmap. split.
    - intros ([k' r] & -> & [Hid Hin]%list_elem_of_filter). apply (index_elem _ m) in Hin; [eauto|apply rows_perm].
    - intros (r & Hr & Hid). exists (k, r). split; [done|]. apply list_elem_of_filter. split; [done|].
      apply (index_elem _ m), Hr. apply rows_perm. }
  destruct (decide (k ∈ _)) as [Hin|Hin]; rewrite Hk in Hin; clear Hk.
  - destruct Hin as (r & -> & Hid). by rewrite decide_True by (rewrite Hid; by left).
  - destruct (m !! k) as [r|]; [|done].
    destruct (decide (fs_objectId r ∈ ids)), (decide (fs_objectId r ∈ id :: ids)) as [Hd|Hd]; try done; [set_solver|].
    apply elem_of_cons in Hd as [?|?]; [|done]. exfalso. eauto.
Qed.

(** The objects whose field state is to be collected. *)
Definition gc_object (cutoffMs : Z) (m : gmap string FieldStateRecord) (id : string) : Prop :=
  exists k r, m !! k = Some r /\ fs_objectId r = id /\ fs_field r = "liveness" /\
    js_eq_str (fs_value r) "deleted" = true /\ exists at_, recordedAt r = Some at_ /\ at_ < cutoffMs.

Lemma gc_ids_spec cutoff m id :
  id ∈ foldl (fun ids r => if isGcCandidate cutoff r then js_add ids (fs_objectId r) else ids) [] (rows m).*2 <->
  gc_object cutoff m id.
Proof.
  rewrite gc_select_elem. unfold gc_object. split.
  - intros [[]%not_elem_of_nil|(r' & ([k' r''] & -> & Hin)%list_elem_of_fmap & Hc & Hid)].
    apply (index_elem _ m) in Hin; [|apply rows_perm]. exists k', r''. split; [done|].
    unfold isGcCandidate in Hc. apply andb_true_iff in Hc as [[Hf Hv]%andb_true_iff Ha]. simpl in *.
    destruct (recordedAt r'') as [at_|] eqn:E; [|done]. split_and!; [done|by apply String.eqb_eq|done|].
    exists at_. split; [done|]. by apply Z.ltb_lt.
  - intros (k' & r' & Hin & Hid & Hf & Hv & at_ & Ha & Hlt). right. exists r'. split_and!; [| |done].
    + apply list_elem_of_fmap. exists (k', r'). split; [done|].
      apply (index_elem _ m), Hin. apply rows_perm.
    + unfold isGcCandidate. rewrite Hf, Hv, Ha. simpl. by apply Z.ltb_lt.
Qed.

(** Field-state collection removes exactly the provenance of objects
    whose "liveness" has read "deleted" since before the retention cutoff:
    a deleted object inside the retention window, or one of unknown age, keeps
    all of its slots, so a late operation cannot resurrect it. *)
Theorem gcFieldStates_exact now s :
  exists m, gcFieldStates now s = Some (set_field_state m s) /\
    forall k r, m !! k = Some r <->
      field_state s !! k = Some r /\
      ~ gc_object (now - FIELD_STATE_GC_RETENTION_MS) (field_state s) (fs_objectId r).
Proof.
  unfold gcFieldStates. rewrite walk_above.
  - eexists. split; [done|]. intros k r. cbn [field_state set_field_state].
    rewrite foldl_slices, delete_field_states_lookup by (unfold MAINTENANCE_DELETE_CHUNK; lia).
    rewrite gc_visit_foldl, <- gc_ids_spec. set (ids := foldl _ _ _).
    destruct (field_state s !! k) as [r0|]; [|by split; [|intros []]].
    case_decide; (split; [try done; intros [= <-]|intros [[= <-] ?]]); done.
  - unfold MAINTENANCE_DELETE_CHUNK. lia.
  - apply rows_key_sorted.
  - rewrite length_rows. unfold walk_fuel. lia.
  - intros acc l1 l2. by rewrite !gc_visit_foldl, foldl_app.
Qed.

(** ** Deferred materializations *)

(** Two walks of the same rows end together, in related states. *)
Lemma chunked_walk_related {A St St'} (R : St -> St' -> Prop) (reopen : option string -> list (string * A)) size visit visit' fuel last acc acc' r' :
  (forall l a a', R a a' -> R (visit a l) (visit' a' l)) -> R acc acc' ->
  chunked_walk reopen size visit' fuel last acc' = Some r' -> exists r, chunked_walk reopen size visit fuel last acc = Some r /\ R r r'.
Proof.
  intros Hv. revert last acc acc'. induction fuel as [|fuel IH]; intros last acc acc' Hr; cbn [chunked_walk]; [done|].
  destruct (Nat.ltb _ _); [intros [= <-]; eexists; split; [done|by apply Hv]|]. intros Hw. eapply IH; [|exact Hw]. by apply Hv.
Qed.

Lemma stale_elem parse records cutoff id : id ∈ selectStaleDeferredMaterializations parse records cutoff <->
  exists r, r ∈ records /\ isStale parse cutoff (df_createdAt r) = true /\ df_objectId r = id.
Proof.
  unfold selectStaleDeferredMaterializations. induction records as [|r l IH] using rev_ind; cbn.
  - split; [by intros ?%not_elem_of_nil|by intros (? & ?%not_elem_of_nil & _)].
  - rewrite foldl_app. cbn [foldl]. destruct (isStale parse cutoff (df_createdAt r)) eqn:Hs.
    + rewrite js_add_elem. rewrite IH. split.
      * intros [(r0 & ? & ? & ?)| ->]; [exists r0; set_solver|exists r; set_solver].
      * intros (r0 & [Hin|<-%list_elem_of_singleton]%elem_of_app & H1 & H2); [left; by exists r0|by right].
    + rewrite IH. split; intros (r0 & Hin & H1 & H2); exists r0; [set_solver|].
      apply elem_of_app in Hin as [?| ->%list_elem_of_singleton]; [done|congruence].
Qed.

(** The prune of deferred rows removes exactly the rows of objects with a stale
    row, and touches no other store. *)
Theorem pruneDeferredMaterializations_exact parse now age s :
  exists m, pruneDeferredMaterializations parse now age s = Some (set_deferred m s) /\
    forall k r, m !! k = Some r <-> deferred_materializations s !! k = Some r /\
      ~ exists r0, r0 ∈ (rows (deferred_materializations s)).*2 /\ isStale parse (now - age) (df_createdAt r0) = true /\ df_objectId r0 = k.
Proof.
  unfold pruneDeferredMaterializations. set (visit := fun (stale : list string) (scanChunk : list DeferredMaterializationRecord) => stale ++ selectStaleDeferredMaterializations parse scanChunk (now - age)).
  set (visit' := fun (acc : list DeferredMaterializationRecord) l => acc ++ l).
  destruct (chunked_walk_related (fun (stale : list string) rs => forall id, id ∈ stale <-> exists r, r ∈ rs /\ isStale parse (now - age) (df_createdAt r) = true /\ df_objectId r = id)
    (fun last => open_above last (rows (deferred_materializations s))) MAINTENANCE_DELETE_CHUNK visit visit'
    (walk_fuel (deferred_materializations s)) None [] [] (rows (deferred_materializations s)).*2) as (stale & -> & Hst).
  - intros l a a' Ha id. unfold visit, visit'. rewrite elem_of_app, Ha, stale_elem. set_solver.
  - intros id. set_solver.
  - rewrite walk_above; [done|unfold MAINTENANCE_DELETE_CHUNK; lia|apply rows_key_sorted|rewrite length_rows; unfold walk_fuel; lia|].
    intros acc l1 l2. unfold visit'. by rewrite app_assoc.
  - cbn [fmap option_fmap option_map].
    assert (forall chunks db, foldl (fun s ids => deleteDeferredMaterializationsBatch ids s) db chunks =
      set_deferred (foldl (fun m id => delete id m) (deferred_materializations db) (concat chunks)) db) as Hfold.
    { intros chunks. induction chunks as [|ids chunks IH]; intros db; cbn; [by destruct db|]. rewrite IH, foldl_app.
      destruct ids as [|i ids]; [done|]. cbn [deleteDeferredMaterializationsBatch deferred_materializations set_deferred].
      rewrite putAllChunked_map. by destruct db. }
    rewrite Hfold, slices_concat by (unfold MAINTENANCE_DELETE_CHUNK; lia). eexists. split; [reflexivity|]. intros k r.
    rewrite lookup_foldl_delete. case_decide as Hk; rewrite Hst in Hk; (split; [|intros [Hr Hn]]); try done; by intros Hr.
Qed.
