(* ===== verification/Crypto.v ===== *)
(** * End-to-end encryption (extension/src/crypto/index.ts)

    The codecs, envelopes, key cache and parameter checks around the
    cryptographic libraries. The ciphers, hashes and random bytes themselves
    are third-party code: they are the fields of [CryptoLib], with the laws
    their documentation gives. Bytes are integers in [0, 256); a string is its
    UTF-8 bytes, so [TextEncoder] and [TextDecoder] only change the type. *)

From S2P Require Import Prelude JsMap Types Util Json.

Open Scope Z_scope.
Open Scope js_scope.

(** ** Third-party primitives *)

Definition bytes := list Z.

Class CryptoLib := {
  (** XChaCha20-Poly1305: key, nonce, associated data, text. *)
  aead_encrypt : bytes -> bytes -> bytes -> bytes -> bytes;
  aead_decrypt : bytes -> bytes -> bytes -> bytes -> option bytes;
  (** HKDF-SHA256: input key, info, length in bits. *)
  hkdf : bytes -> string -> Z -> bytes;
  sha256 : bytes -> bytes;
  (** Argon2id: password, salt, t, m, p. *)
  argon2id : string -> bytes -> Z -> Z -> Z -> bytes;
  (** ECDH P-256: private key, peer's raw public key. *)
  ecdh : bytes -> bytes -> bytes;
  ecdh_public : bytes -> bytes;
}.

(** The cipher's documented contract: what was sealed opens under the same
    associated data and under no other, and a ciphertext is made of bytes. *)
Class CryptoLaws `{CryptoLib} : Prop := {
  aead_opens k n a p : aead_decrypt k n a (aead_encrypt k n a p) = Some p;
  aead_rejects k n a a' p : a <> a' -> aead_decrypt k n a' (aead_encrypt k n a p) = None;
  aead_bytes k n a p : Forall is_byte a -> Forall is_byte p -> Forall is_byte (aead_encrypt k n a p);
}.

(** [TextEncoder.encode] and [TextDecoder.decode]. *)
Definition utf8_encode (s : string) : bytes := map ascii_byte (list_ascii_of_string s).
Definition utf8_decode (b : bytes) : string := string_of_list_ascii (map byte_ascii b).

(** ** base64url *)

Definition B64_STD : list ascii :=
  list_ascii_of_string "ABCDEFGHIJKLMNOPQRSTUVWXYZabcdefghijklmnopqrstuvwxyz0123456789+/".

Definition b64_char (n : Z) : ascii := nth (Z.to_nat n) B64_STD "="%char.

(** [btoa]: three bytes to four characters, padded with "=". *)
Fixpoint btoa (b : bytes) : list ascii :=
  match b with
  | [] => []
  | [x] => [b64_char (x / 4); b64_char (x mod 4 * 16); "="%char; "="%char]
  | [x; y] => [b64_char (x / 4); b64_char (x mod 4 * 16 + y / 16); b64_char (y mod 16 * 4); "="%char]
  | x :: y :: z :: b =>
      b64_char (x / 4) :: b64_char (x mod 4 * 16 + y / 16) :: b64_char (y mod 16 * 4 + z / 64)
      :: b64_char (z mod 64) :: btoa b
  end.

Definition b64_value (c : ascii) : option Z :=
  Z.of_nat <$> find_index (fun d => Ascii.eqb c d) B64_STD.

(** Dropping at most [n] trailing "=". *)
Fixpoint strip_pad (n : nat) (rev_chars : list ascii) : list ascii :=
  match n, rev_chars with
  | S n, c :: cs => if Ascii.eqb c "=" then strip_pad n cs else rev_chars
  | _, _ => rev_chars
  end.

Fixpoint atob_values (vs : list Z) : option bytes :=
  match vs with
  | [] => Some []
  | [_] => None
  | [a; b] => Some [a * 4 + b / 16]
  | [a; b; c] => Some [a * 4 + b / 16; b mod 16 * 16 + c / 4]
  | a :: b :: c :: d :: vs =>
      (fun r => a * 4 + b / 16 :: b mod 16 * 16 + c / 4 :: c mod 4 * 64 + d :: r) <$> atob_values vs
  end.

(** [atob]; [None] where it throws. *)
Definition atob (cs : list ascii) : option bytes :=
  let cs := if Nat.eqb (length cs mod 4) 0 then rev (strip_pad 2 (rev cs)) else cs in
  mapM b64_value cs ≫= atob_values.

Definition url_char (c : ascii) : ascii :=
  if Ascii.eqb c "+" then "-"%char else if Ascii.eqb c "/" then "_"%char else c.
Definition std_char (c : ascii) : ascii :=
  if Ascii.eqb c "-" then "+"%char else if Ascii.eqb c "_" then "/"%char else c.

Definition base64UrlEncode (binary : bytes) : string :=
  let cs := map url_char (btoa binary) in
  string_of_list_ascii (rev (strip_pad (length cs) (rev cs))).

Definition B64_CHUNK_SIZE : nat := Z.to_nat 8192.

(** [String.fromCharCode] over the bytes, in chunks when there are many. *)
Definition toB64Fallback (b : bytes) : string :=
  if Nat.leb (length b) B64_CHUNK_SIZE then base64UrlEncode b
  else base64UrlEncode (foldl (fun binary c => binary ++ c) [] (slices b B64_CHUNK_SIZE)).

Definition fromB64Fallback (value : string) : option bytes :=
  let normalized := map std_char (list_ascii_of_string value) in
  let n := length normalized in
  atob (normalized ++ replicate ((4 - n mod 4) mod 4) "="%char).

(** A native codec, where the platform has one. *)
Record NativeB64 := mkNativeB64 {
  toBase64 : bytes -> string;
  fromBase64 : string -> option bytes;
}.

Definition B64_CONFORMANCE_VECTORS : list (bytes * string) := [
  ([], ""); ([0], "AA"); ([0; 0], "AAA"); ([0; 0; 0], "AAAA");
  ([251; 239; 190], "----"); ([255; 255; 255], "____");
  ([72; 101; 108; 105; 120; 83; 121; 110; 99], "SGVsaXhTeW5j");
  ([0; 1; 2; 3; 4; 5; 6; 7; 8; 9; 10; 11; 12; 13; 14; 15], "AAECAwQFBgcICQoLDA0ODw");
  ([240; 241; 242; 243; 244; 245; 246; 247; 248; 249; 250; 251; 252; 253; 254; 255],
   "8PHy8_T19vf4-fr7_P3-_w")].

Definition nativeB64Conforms (native : option NativeB64) : bool :=
  match native with
  | None => false
  | Some c =>
      forallb (fun v => String.eqb (toBase64 c v.1) v.2 &&
                        bool_decide (fromBase64 c v.2 = Some v.1)) B64_CONFORMANCE_VECTORS
  end.

Definition toB64 (native : option NativeB64) (b : bytes) : string :=
  match native with
  | Some c => if nativeB64Conforms native then toBase64 c b else toB64Fallback b
  | None => toB64Fallback b
  end.
Definition fromB64 (native : option NativeB64) (s : string) : option bytes :=
  match native with
  | Some c => if nativeB64Conforms native then fromBase64 c s else fromB64Fallback s
  | None => fromB64Fallback s
  end.

(** ** Errors *)

Inductive crypto_error :=
  | UnsupportedEnvelopeVersionError (v : Z)
  | MalformedEnvelope
  | AuthenticationFailed
  | UnsafeKdfParams
  | UnsupportedAccountKey.

(** ** Envelope versions *)

Definition ENVELOPE_VERSION : Z := 2.

Definition assertSupportedEnvelopeVersion (envelope : jsval) : crypto_error + unit :=
  if is_object envelope then
    match jget envelope "v" with
    | JNum v => if v =? ENVELOPE_VERSION then inr tt else inl (UnsupportedEnvelopeVersionError v)
    | _ => inr tt
    end
  else inr tt.

(** ** Key derivation parameters *)

Record KdfParams := mkKdfParams { kdf_m : Z; kdf_t : Z; kdf_p : Z }.
Definition DEFAULT_KDF_PARAMS : KdfParams := mkKdfParams 19456 2 1.

Definition assertSaneKdfParams (k : KdfParams) (salt : bytes) : crypto_error + unit :=
  let n := Z.of_nat (length salt) in
  if (19456 <=? kdf_m k) && (kdf_m k <=? 262144) && (2 <=? kdf_t k) && (kdf_t k <=? 10)
     && (1 <=? kdf_p k) && (kdf_p k <=? 4) && (16 <=? n) && (n <=? 64)
  then inr tt else inl UnsafeKdfParams.

(** ** The associated data of an operation *)

Definition buildOperationAad (objectType objectId operationType : string) : bytes :=
  utf8_encode (JSON_stringify (JArr [JStr objectType; JStr objectId; JStr operationType])).

(** ** SDEK cache *)

Definition MAX_SDEK_CACHE_SIZE : nat := 8.
Definition sdek_cache := jmap string bytes.
Definition sdekCacheKey (akB64 : string) (keyVersion : Z) : string := akB64 +:+ ":" +:+ json_num keyVersion.

Definition is_some {A} (o : option A) : bool := match o with Some _ => true | None => false end.

Section primitives.
Context `{CryptoLib} (native : option NativeB64).

Definition deriveMasterKey (password kdfSaltB64 : string) (k : KdfParams) : crypto_error + bytes :=
  match fromB64 native kdfSaltB64 with
  | None => inl MalformedEnvelope
  | Some salt =>
      match assertSaneKdfParams k salt with
      | inl e => inl e
      | inr _ => inr (argon2id password salt (kdf_t k) (kdf_m k) (kdf_p k))
      end
  end.

Definition deriveAuthKey (masterKey : bytes) : string := toB64 native (hkdf masterKey "helixsync-auth-v1" 256).
Definition deriveKek (masterKey : bytes) : bytes := hkdf masterKey "helixsync-kek-v1" 256.

(** [nonce] is [randomBytes(24)]. *)
Definition wrapAccountKey (nonce kek accountKey : bytes) : string :=
  JSON_stringify (JObj [("v", JNum 1); ("alg", JStr "xchacha20poly1305");
    ("nonce", JStr (toB64 native nonce)); ("ciphertext", JStr (toB64 native (aead_encrypt kek nonce [] accountKey)))]).

(** The two base64 strings of an envelope. *)
Definition envelope_bytes (envelope : jsval) : option (bytes * bytes) :=
  match jget envelope "nonce", jget envelope "ciphertext" with
  | JStr n, JStr c =>
      match fromB64 native n, fromB64 native c with
      | Some nonce, Some ciphertext => Some (nonce, ciphertext)
      | _, _ => None
      end
  | _, _ => None
  end.

Definition open_envelope (key aad : bytes) (envelope : jsval) : crypto_error + bytes :=
  match envelope_bytes envelope with
  | None => inl MalformedEnvelope
  | Some (nonce, ciphertext) =>
      match aead_decrypt key nonce aad ciphertext with
      | Some plain => inr plain
      | None => inl AuthenticationFailed
      end
  end.

Definition unwrapAccountKey (kek : bytes) (wrapped : string) : crypto_error + bytes :=
  match JSON_parse wrapped with
  | None => inl MalformedEnvelope
  | Some envelope => open_envelope kek [] envelope
  end.

(** The cached or derived key; [None] if the account key is not base64. *)
Definition getSdek (akB64 : string) (keyVersion : Z) (cache : sdek_cache) : option (bytes * sdek_cache) :=
  let cacheKey := sdekCacheKey akB64 keyVersion in
  match jm_get cache cacheKey with
  | Some cached => Some (cached, cache)
  | None =>
      match fromB64 native akB64 with
      | None => None
      | Some ak =>
          let sdek := hkdf ak ("helixsync-sdek-v" +:+ json_num keyVersion) 256 in
          let cache1 :=
            if Nat.leb MAX_SDEK_CACHE_SIZE (length cache) then
              match jm_keys cache with oldest :: _ => jm_delete cache oldest | [] => cache end
            else cache in
          Some (sdek, jm_set cache1 cacheKey sdek)
      end
  end.

Definition encryptBytesWithSdek (nonce plaintext sdek : bytes) (keyVersion : Z) (aad : bytes) : jsval :=
  JObj [("v", JNum ENVELOPE_VERSION); ("keyVersion", JNum keyVersion); ("alg", JStr "xchacha20poly1305");
    ("nonce", JStr (toB64 native nonce)); ("ciphertext", JStr (toB64 native (aead_encrypt sdek nonce aad plaintext)))].

Definition decryptBytesWithSdek (envelope : jsval) (sdek aad : bytes) : crypto_error + bytes :=
  match assertSupportedEnvelopeVersion envelope with
  | inl e => inl e
  | inr _ =>
      if js_eq_num (jget envelope "v") ENVELOPE_VERSION then open_envelope sdek aad envelope
      else inl MalformedEnvelope
  end.

Definition encryptWithSdek (nonce : bytes) (plaintext : jsval) (sdek : bytes) (keyVersion : Z) (aad : bytes) : jsval :=
  encryptBytesWithSdek nonce (utf8_encode (JSON_stringify plaintext)) sdek keyVersion aad.

Definition decryptWithSdek (envelope : jsval) (sdek aad : bytes) : crypto_error + jsval :=
  match decryptBytesWithSdek envelope sdek aad with
  | inl e => inl e
  | inr b => match JSON_parse (utf8_decode b) with Some v => inr v | None => inl MalformedEnvelope end
  end.

(** ** Login with device *)

Definition AUTH_REQUEST_LABEL : string := "helixsync-auth-request-v1".
Definition CROCKFORD_ALPHABET : list ascii := list_ascii_of_string "0123456789ABCDEFGHJKMNPQRSTVWXYZ".

(** JavaScript's bitwise operators work on 32 bits: [<<] and [|] give a
    signed result, [>>>] an unsigned one. *)
Definition to_uint32 (z : Z) : Z := Z.land z (Z.ones 32).
Definition to_int32 (z : Z) : Z :=
  let u := to_uint32 z in if Z.testbit u 31 then u - 2 ^ 32 else u.
Definition shl32 (a k : Z) : Z := to_int32 (Z.shiftl (to_int32 a) k).
Definition or32 (a b : Z) : Z := to_int32 (Z.lor (to_int32 a) (to_int32 b)).
Definition ushr32 (a k : Z) : Z := Z.shiftr (to_uint32 a) k.

Definition crockford_char (n : Z) : ascii := nth (Z.to_nat n) CROCKFORD_ALPHABET "?"%char.

(** The [while (bits >= 5)] loop: at most two characters per byte. *)
Fixpoint crock_emit (fuel : nat) (bits value : Z) (text : list ascii) : Z * list ascii :=
  match fuel with
  | O => (bits, text)
  | S fuel =>
      if 5 <=? bits then
        crock_emit fuel (bits - 5) value
          (text ++ [crockford_char (Z.land (ushr32 value (bits - 5)) 31)])
      else (bits, text)
  end.

Definition crock_byte (st : Z * Z * list ascii) (byte : Z) : Z * Z * list ascii :=
  let '(bits, value, text) := st in
  let value := or32 (shl32 value 8) byte in
  let '(bits, text) := crock_emit 3 (bits + 8) value text in
  (bits, value, text).

(** [text.match(/.{4}/g).join("-")] *)
Fixpoint groups4 (cs : list ascii) : list (list ascii) :=
  match cs with
  | a :: b :: c :: d :: cs => [a; b; c; d] :: groups4 cs
  | _ => []
  end.

Definition crockfordPhrase (b : bytes) : string :=
  let '(_, _, text) := foldl crock_byte (0, 0, []) (take 10 b) in
  String.concat "-" (map string_of_list_ascii (groups4 text)).

Definition authRequestFingerprint (publicKeyB64 : string) : option string :=
  (fun publicKey => crockfordPhrase (sha256 (utf8_encode AUTH_REQUEST_LABEL ++ publicKey)))
    <$> fromB64 native publicKeyB64.

Definition accountKeyCheckPhrase (accountKey : bytes) : string :=
  crockfordPhrase (hkdf accountKey "helixsync-key-check-v1" 80).

Definition authRequestKey (privateKey : bytes) (peerPublicKeyB64 : string) : option bytes :=
  (fun peer => hkdf (ecdh privateKey peer) AUTH_REQUEST_LABEL 256) <$> fromB64 native peerPublicKeyB64.

(** [approver] is the freshly generated one-time private key. Returns
    (encryptedAccountKey, approverPublicKey). *)
Definition encryptAccountKeyForRequest (approver nonce : bytes)
    (accountKeyB64 requesterPublicKeyB64 requestId : string) : option (string * string) :=
  match authRequestKey approver requesterPublicKeyB64, fromB64 native accountKeyB64 with
  | Some key, Some ak =>
      Some (JSON_stringify (JObj [("v", JNum 1); ("alg", JStr "xchacha20poly1305");
              ("nonce", JStr (toB64 native nonce));
              ("ciphertext", JStr (toB64 native (aead_encrypt key nonce (utf8_encode requestId) ak)))]),
            toB64 native (ecdh_public approver))
  | _, _ => None
  end.

Definition decryptAccountKeyFromApproval (privateKey : bytes)
    (approverPublicKeyB64 encryptedAccountKey requestId : string) : crypto_error + bytes :=
  match authRequestKey privateKey approverPublicKeyB64, JSON_parse encryptedAccountKey with
  | Some key, Some envelope =>
      if negb (js_eq_num (jget envelope "v") 1) || negb (js_eq_str (jget envelope "alg") "xchacha20poly1305")
      then inl UnsupportedAccountKey
      else open_envelope key (utf8_encode requestId) envelope
  | _, _ => inl MalformedEnvelope
  end.
End primitives.
