(* ===== verification/CryptoFacts.v ===== *)
(** * Properties of the encryption layer

    base64url round trip, unambiguous associated data, authenticated
    envelopes, the key cache and the bounds on server-supplied KDF
    parameters. *)

From S2P Require Import Prelude JsMap Types Util Json Crypto.

Open Scope Z_scope.
Open Scope js_scope.

(** ** base64url *)

Definition sextet (n : Z) : Prop := 0 <= n < 64.

(** A property of the 64 sextets, checked by evaluation. *)
Lemma sextet_ind (P : Z -> bool) :
  forallb P (seqZ 0 64) = true -> forall n, sextet n -> P n = true.
Proof.
  intros H n Hn. rewrite forallb_forall in H. apply H, list_elem_of_In, elem_of_seqZ.
  unfold sextet in Hn. lia.
Qed.

Lemma b64_char_spec n : sextet n ->
  b64_value (b64_char n) = Some n /\ b64_char n <> "="%char /\
  std_char (url_char (b64_char n)) = b64_char n /\ url_char (b64_char n) <> "="%char.
Proof.
  intros Hn.
  pose proof (sextet_ind (fun n => bool_decide (b64_value (b64_char n) = Some n) &&
    negb (Ascii.eqb (b64_char n) "=") && Ascii.eqb (std_char (url_char (b64_char n))) (b64_char n) &&
    negb (Ascii.eqb (url_char (b64_char n)) "="))) as H.
  specialize (H ltac:(vm_compute; reflexivity) n Hn).
  rewrite !andb_true_iff, !negb_true_iff, bool_decide_eq_true in H.
  destruct H as [[[? ?%Ascii.eqb_neq] ?%Ascii.eqb_eq] ?%Ascii.eqb_neq]. done.
Qed.

(** The characters of [btoa] without their padding. *)
Fixpoint sextets (b : bytes) : list Z :=
  match b with
  | [] => []
  | [x] => [x / 4; x mod 4 * 16]
  | [x; y] => [x / 4; x mod 4 * 16 + y / 16; y mod 16 * 4]
  | x :: y :: z :: b => x / 4 :: x mod 4 * 16 + y / 16 :: y mod 16 * 4 + z / 64 :: z mod 64 :: sextets b
  end.

Definition padding (b : bytes) : nat := (3 - length b mod 3) mod 3.

(** Induction three bytes at a time. *)
Lemma bytes_ind3 (P : bytes -> Prop) :
  P [] -> (forall x, P [x]) -> (forall x y, P [x; y]) ->
  (forall x y z b, P b -> P (x :: y :: z :: b)) -> forall b, P b.
Proof.
  intros H0 H1 H2 H3. fix IH 1. intros [|x [|y [|z b]]]; [exact H0|apply H1|apply H2|apply H3, IH].
Qed.

Lemma length_mod3 {A} (x y z : A) b : (length (x :: y :: z :: b) mod 3 = length b mod 3)%nat.
Proof. cbn [length]. replace (S (S (S (length b)))) with (length b + 1 * 3)%nat by lia. apply Nat.Div0.mod_add. Qed.

Lemma btoa_sextets b :
  btoa b = map b64_char (sextets b) ++ replicate (padding b) "="%char.
Proof.
  induction b as [|x|x y|x y z b IH] using bytes_ind3; [done..|].
  cbn [btoa sextets map app]. rewrite IH. unfold padding. by rewrite length_mod3.
Qed.

Lemma sextets_range (b : bytes) : Forall is_byte b -> Forall sextet (sextets b).
Proof.
  unfold is_byte, sextet. induction b as [|x|x y|x y z b IH] using bytes_ind3; intros H; cbn [sextets].
  - constructor.
  - inversion H; subst. repeat constructor; try Z.to_euclidean_division_equations; lia.
  - inversion H as [|? ? ? H']; inversion H'; subst.
    repeat constructor; Z.to_euclidean_division_equations; lia.
  - rewrite !Forall_cons in H. destruct H as (? & ? & ? & ?).
    repeat constructor; [..|by apply IH]; Z.to_euclidean_division_equations; lia.
Qed.

Lemma sextets_padding (b : bytes) : (padding b = (4 - length (sextets b) mod 4) mod 4)%nat /\ (padding b <= 2)%nat.
Proof.
  induction b as [|x|x y|x y z b [IH1 IH2]] using bytes_ind3; try (split; [done|cbn; lia]).
  unfold padding in *. rewrite length_mod3. cbn [sextets length].
  replace (S (S (S (S (length (sextets b)))))) with (length (sextets b) + 1 * 4)%nat by lia.
  by rewrite Nat.Div0.mod_add.
Qed.

Lemma atob_values_sextets (b : bytes) : Forall is_byte b -> atob_values (sextets b) = Some b.
Proof.
  unfold is_byte. induction b as [|x|x y|x y z b IH] using bytes_ind3; intros H; [done|..].
  - inversion H; subst. cbn. do 2 f_equal. Z.to_euclidean_division_equations; lia.
  - rewrite !Forall_cons in H. destruct H as (? & ? & _). cbn.
    do 2 f_equal; [|f_equal]; Z.to_euclidean_division_equations; lia.
  - rewrite !Forall_cons in H. destruct H as (? & ? & ? & Hb). cbn [sextets atob_values]. rewrite IH by done.
    cbn. do 2 f_equal; [|f_equal; [|f_equal]]; Z.to_euclidean_division_equations; lia.
Qed.

Lemma strip_pad_replicate n p l :
  (p <= n)%nat -> (forall c, head l = Some c -> c <> "="%char) ->
  strip_pad n (replicate p "="%char ++ l) = l.
Proof.
  revert n. induction p as [|p IH]; intros n Hp Hl; simpl.
  - destruct n, l as [|c l]; simpl; try done.
    destruct (Ascii.eqb_spec c "="); [|done]. by destruct (Hl c).
  - destruct n; [lia|]. simpl. apply IH; [lia|done].
Qed.

(** Stripping the padding off the encoded sextets. *)
Lemma strip_encoded (f : ascii -> ascii) n p l :
  (p <= n)%nat -> f "="%char = "="%char -> Forall (fun c => f c <> "="%char) l ->
  rev (strip_pad n (rev (map f (l ++ replicate p "="%char)))) = map f l.
Proof.
  intros Hp Hf Hl. rewrite map_app, rev_app_distr.
  assert (rev (map f (replicate p "="%char)) = replicate p "="%char) as ->.
  { assert (map f (replicate p "="%char) = replicate p "="%char) as -> by (clear -Hf; induction p; simpl; congruence).
    rewrite rev_alt. apply reverse_replicate. }
  rewrite strip_pad_replicate, rev_involutive; [done..|].
  intros c Hc. rewrite <- map_rev in Hc. destruct (rev l) as [|c' l'] eqn:E; [done|].
  injection Hc as <-. rewrite Forall_forall in Hl. apply Hl. rewrite <- (rev_involutive l), E.
  simpl. set_solver.
Qed.

Lemma mapM_b64_value sx : Forall sextet sx -> mapM b64_value (map b64_char sx) = Some sx.
Proof.
  induction 1 as [|n sx Hn Hsx IH]; [done|]. simpl. destruct (b64_char_spec n Hn) as [-> _]. cbn.
  by rewrite IH.
Qed.

Lemma base64UrlEncode_sextets b :
  Forall is_byte b -> base64UrlEncode b = string_of_list_ascii (map url_char (map b64_char (sextets b))).
Proof.
  intros Hb. unfold base64UrlEncode. rewrite btoa_sextets. f_equal.
  apply strip_encoded; [|done|].
  - rewrite length_map, length_app, length_replicate. lia.
  - apply Forall_map, (Forall_impl _ _ _ (sextets_range b Hb)). intros n Hn. by apply b64_char_spec.
Qed.

Lemma toB64Fallback_encode b : toB64Fallback b = base64UrlEncode b.
Proof.
  unfold toB64Fallback. destruct (Nat.leb _ _); [done|]. f_equal.
  assert (forall acc (l : list bytes), foldl (fun binary c => binary ++ c) acc l = acc ++ concat l) as H.
  { intros acc l. revert acc. induction l as [|c l IH]; intros acc; simpl; [by rewrite app_nil_r|].
    by rewrite IH, app_assoc. }
  rewrite H. apply slices_concat. unfold B64_CHUNK_SIZE. lia.
Qed.

Lemma pad_mod4 n : ((n + (4 - n mod 4) mod 4) mod 4 = 0)%nat.
Proof.
  pose proof (Nat.mod_upper_bound n 4) as Hr. pose proof (Nat.div_mod_eq n 4) as Hn.
  set (q := (n / 4)%nat) in *. set (r := (n mod 4)%nat) in *. clearbody q r. subst n.
  destruct r as [|[|[|[|r]]]]; [..|lia].
  - change ((4 - 0) mod 4)%nat with 0%nat. replace (4 * q + 0 + 0)%nat with (q * 4)%nat by lia. apply Nat.Div0.mod_mul.
  - change ((4 - 1) mod 4)%nat with 3%nat. replace (4 * q + 1 + 3)%nat with ((q + 1) * 4)%nat by lia. apply Nat.Div0.mod_mul.
  - change ((4 - 2) mod 4)%nat with 2%nat. replace (4 * q + 2 + 2)%nat with ((q + 1) * 4)%nat by lia. apply Nat.Div0.mod_mul.
  - change ((4 - 3) mod 4)%nat with 1%nat. replace (4 * q + 3 + 1)%nat with ((q + 1) * 4)%nat by lia. apply Nat.Div0.mod_mul.
Qed.

Lemma fromB64Fallback_toB64Fallback b : Forall is_byte b -> fromB64Fallback (toB64Fallback b) = Some b.
Proof.
  intros Hb. pose proof (sextets_range b Hb) as Hs.
  rewrite toB64Fallback_encode, base64UrlEncode_sextets by done. unfold fromB64Fallback.
  rewrite list_ascii_of_string_of_list_ascii.
  assert (map std_char (map url_char (map b64_char (sextets b))) = map b64_char (sextets b)) as ->.
  { rewrite !map_map. apply map_ext_Forall, (Forall_impl _ _ _ Hs). intros n Hn. by apply b64_char_spec. }
  rewrite length_map. destruct (sextets_padding b) as [<- Hp]. unfold atob.
  assert (length (map b64_char (sextets b) ++ replicate (padding b) "="%char) mod 4 = 0)%nat as ->.
  { rewrite length_app, length_map, length_replicate. destruct (sextets_padding b) as [-> _]. apply pad_mod4. }
  cbn [Nat.eqb].
  pose proof (strip_encoded id 2 (padding b) (map b64_char (sextets b)) Hp eq_refl) as Hstrip.
  unfold id in Hstrip. rewrite !map_id in Hstrip. rewrite Hstrip.
  - rewrite mapM_b64_value by done. by apply atob_values_sextets.
  - apply Forall_map, (Forall_impl _ _ _ Hs). intros n Hn. by apply b64_char_spec.
Qed.

(** base64url: decoding what the fallback codec encoded gives the bytes
    back, at every length and across its 8192-byte chunks. *)
Theorem fromB64_toB64 b : Forall is_byte b -> fromB64Fallback (toB64Fallback b) = Some b.
Proof. apply fromB64Fallback_toB64Fallback. Qed.

Lemma fromB64_toB64_witness :
  fromB64Fallback (toB64Fallback [251; 255; 0; 7]) = Some [251; 255; 0; 7].
Proof. apply (fromB64_toB64 [251; 255; 0; 7]). repeat constructor; lia. Defined.

(** ** JSON strings are self-delimiting *)

Lemma str_app_prefix s1 s2 x y :
  s1 +:+ x = s2 +:+ y -> String.prefix s1 s2 = true \/ String.prefix s2 s1 = true.
Proof.
  revert s2. induction s1 as [|c s1 IH]; intros [|d s2] H; [auto..|].
  injection H as -> H. cbn [String.prefix]. destruct (ascii_dec d d); [|done]. by apply IH.
Qed.

Definition all_ascii : list ascii := map ascii_of_nat (seq 0 256).
Lemma all_ascii_elem c : In c all_ascii.
Proof.
  apply in_map_iff. exists (nat_of_ascii c). split; [apply ascii_nat_embedding|].
  apply in_seq. pose proof (nat_ascii_bounded c). lia.
Qed.

(** No escape is a prefix of another, and none starts with the quote. *)
Lemma json_escape_prefix c d : String.prefix (json_escape c) (json_escape d) = true -> c = d.
Proof.
  assert (forallb (fun c => forallb (fun d =>
    implb (String.prefix (json_escape c) (json_escape d)) (Ascii.eqb c d)) all_ascii) all_ascii = true) as H
    by (vm_compute; reflexivity).
  rewrite forallb_forall in H. specialize (H c (all_ascii_elem c)).
  rewrite forallb_forall in H. specialize (H d (all_ascii_elem d)).
  intros Hp. rewrite Hp in H. by apply Ascii.eqb_eq.
Qed.

Lemma json_escape_quote c x y : json_escape c +:+ x <> dquote +:+ y.
Proof.
  assert (forallb (fun c => match json_escape c with
    | String d _ => negb (Ascii.eqb d (ascii_of_nat 34)) | "" => false end) all_ascii = true) as H
    by (vm_compute; reflexivity).
  rewrite forallb_forall in H. specialize (H c (all_ascii_elem c)).
  destruct (json_escape c) as [|d s]; [done|]. intros E. injection E as E _.
  apply negb_true_iff, Ascii.eqb_neq in H. done.
Qed.

Lemma json_chars_delim s1 s2 x y :
  json_chars s1 +:+ dquote +:+ x = json_chars s2 +:+ dquote +:+ y -> s1 = s2 /\ x = y.
Proof.
  revert s2. induction s1 as [|c s1 IH]; intros [|d s2] H; cbn [json_chars] in H.
  - split; [done|]. by apply (inj (String.append dquote)) in H.
  - rewrite str_app_assoc in H. symmetry in H. by apply json_escape_quote in H.
  - rewrite str_app_assoc in H. by apply json_escape_quote in H.
  - rewrite !str_app_assoc in H. assert (c = d) as ->.
    { destruct (str_app_prefix _ _ _ _ H) as [Hp|Hp]; apply json_escape_prefix in Hp; congruence. }
    apply (inj (String.append (json_escape d))) in H. apply IH in H as [-> ->]. done.
Qed.

Lemma json_string_delim s1 s2 x y :
  json_string s1 +:+ x = json_string s2 +:+ y -> s1 = s2 /\ x = y.
Proof.
  unfold json_string. rewrite !str_app_assoc. intros H.
  apply (inj (String.append dquote)) in H. by apply json_chars_delim in H.
Qed.

Lemma ascii_byte_inj c d : ascii_byte c = ascii_byte d -> c = d.
Proof. unfold ascii_byte. intros H. apply N_of_ascii_inj. lia. Qed.

Lemma utf8_decode_encode s : utf8_decode (utf8_encode s) = s.
Proof.
  unfold utf8_decode, utf8_encode. rewrite map_map, (map_ext _ id).
  - by rewrite map_id, string_of_list_ascii_of_string.
  - intros c. unfold byte_ascii, ascii_byte, id. by rewrite N2Z.id, ascii_N_embedding.
Qed.

Lemma utf8_encode_inj s1 s2 : utf8_encode s1 = utf8_encode s2 -> s1 = s2.
Proof. intros H. by rewrite <- (utf8_decode_encode s1), H, utf8_decode_encode. Qed.

Lemma utf8_encode_bytes s : Forall is_byte (utf8_encode s).
Proof.
  apply Forall_map, Forall_forall. intros c _. unfold is_byte, ascii_byte.
  pose proof (N_ascii_bounded c). lia.
Qed.

(** Associated data determines the three fields it binds. *)
Lemma buildOperationAad_inj t o p t' o' p' :
  buildOperationAad t o p = buildOperationAad t' o' p' -> t = t' /\ o = o' /\ p = p'.
Proof.
  unfold buildOperationAad. intros H%utf8_encode_inj. cbn [JSON_stringify sep] in H.
  rewrite !str_app_assoc in H. apply (inj (String.append "[")), (inj (String.append "")) in H.
  apply json_string_delim in H as [-> H]. apply (inj (String.append ",")) in H.
  apply json_string_delim in H as [-> H]. apply (inj (String.append ",")) in H.
  apply json_string_delim in H as [-> _]. done.
Qed.

(** ** Authenticated envelopes *)

Lemma decryptBytes_encryptBytes `{CryptoLaws} nonce plain sdek kv aad aad' :
  Forall is_byte nonce -> Forall is_byte plain -> Forall is_byte aad ->
  decryptBytesWithSdek None (encryptBytesWithSdek None nonce plain sdek kv aad) sdek aad' =
  if decide (aad = aad') then inr plain else inl AuthenticationFailed.
Proof.
  intros Hn Hp Ha. unfold decryptBytesWithSdek, encryptBytesWithSdek.
  unfold assertSupportedEnvelopeVersion, open_envelope, envelope_bytes. jget_simpl.
  cbn [is_object js_eq_num ENVELOPE_VERSION Z.eqb Pos.eqb toB64 fromB64].
  rewrite (fromB64Fallback_toB64Fallback nonce), fromB64Fallback_toB64Fallback by (try done; by apply aead_bytes).
  cbv beta iota. case_decide as E.
  - subst. by rewrite aead_opens.
  - by rewrite aead_rejects.
Qed.

Lemma buildOperationAad_bytes t o p : Forall is_byte (buildOperationAad t o p).
Proof. apply utf8_encode_bytes. Qed.

(** C25. Relabelling fails: an operation's ciphertext decrypts, to exactly the
    payload that was encrypted, under its own (object type, object id,
    operation type) and under no other triple. *)
Theorem decrypt_iff_same_label `{CryptoLaws} nonce v sdek kv t o p t' o' p' :
  Forall is_byte nonce -> json_clean v = true ->
  decryptWithSdek None (encryptWithSdek None nonce v sdek kv (buildOperationAad t o p))
    sdek (buildOperationAad t' o' p') =
  if decide ((t, o, p) = (t', o', p')) then inr v else inl AuthenticationFailed.
Proof.
  intros Hn Hv. unfold decryptWithSdek, encryptWithSdek.
  rewrite decryptBytes_encryptBytes by (try done; apply utf8_encode_bytes).
  case_decide as E; case_decide as E'; try done.
  - by rewrite utf8_decode_encode, JSON_parse_stringify.
  - exfalso. by apply buildOperationAad_inj in E as (-> & -> & ->).
  - exfalso. by injection E' as -> -> ->.
Qed.

(** *** A cipher with these laws, for evaluation *)

(** It sends the text in the clear behind a length-prefixed copy of the
    associated data. *)
Definition toy_header (a : bytes) : bytes := replicate (length a) 1 ++ 0 :: a.
#[local] Instance toy_crypto : CryptoLib := {|
  aead_encrypt _ _ a p := toy_header a ++ p;
  aead_decrypt _ _ a c :=
    if bool_decide (take (length (toy_header a)) c = toy_header a) then Some (drop (length (toy_header a)) c) else None;
  hkdf k info _ := k ++ utf8_encode info;
  sha256 b := b;
  argon2id p salt _ _ _ := utf8_encode p ++ salt;
  ecdh a b := a ++ b;
  ecdh_public a := a;
|}.

Lemma toy_opens k n a p : aead_decrypt k n a (aead_encrypt k n a p) = Some p.
Proof. cbn. by rewrite take_app_length, bool_decide_true, drop_app_length. Qed.

Lemma toy_header_inj a a' p : take (length (toy_header a')) (toy_header a ++ p) = toy_header a' -> a = a'.
Proof.
  intros E. pose proof (take_drop (length (toy_header a')) (toy_header a ++ p)) as Hq. rewrite E in Hq.
  revert Hq. generalize (drop (length (toy_header a')) (toy_header a ++ p)) as q. intros q Hq.
  unfold toy_header in Hq. rewrite <- !app_assoc in Hq. symmetry in Hq.
  assert (forall m m' (l l' : list Z), replicate m 1 ++ 0 :: l = replicate m' 1 ++ 0 :: l' -> m = m' /\ l = l') as H.
  { induction m as [|m IH]; intros [|m'] l l' H; simpl in H; [by injection H|done..|].
    injection H as H. apply IH in H as [-> ->]. done. }
  apply H in Hq as [Hl Hq]. by apply app_inj_1 in Hq as [? _].
Qed.

Lemma toy_rejects k n a a' p : a <> a' -> aead_decrypt k n a' (aead_encrypt k n a p) = None.
Proof. intros Hne. cbn. rewrite bool_decide_false; [done|]. intros E. by apply toy_header_inj in E. Qed.

Lemma toy_bytes k n a p : Forall is_byte a -> Forall is_byte p -> Forall is_byte (aead_encrypt k n a p).
Proof.
  intros Ha Hp. cbn. unfold toy_header. rewrite !Forall_app, Forall_cons. split_and!; try done.
  apply Forall_replicate. unfold is_byte. lia.
Qed.

#[local] Instance toy_laws : CryptoLaws.
Proof. split; [apply toy_opens|apply toy_rejects|apply toy_bytes]. Qed.

Lemma decrypt_iff_same_label_witness :
  decryptWithSdek None (encryptWithSdek None [7; 9] JNull [1] 1 (buildOperationAad "tab" "o" "create"))
    [1] (buildOperationAad "bookmark" "o" "create") = inl AuthenticationFailed.
Proof.
  rewrite (decrypt_iff_same_label [7; 9] JNull [1] 1
    "tab" "o" "create" "bookmark" "o" "create").
  - reflexivity.
  - repeat constructor; lia.
  - reflexivity.
Defined.

(** ** The SDEK cache *)

Fixpoint str_has (c : ascii) (s : string) : bool :=
  match s with "" => false | String d s => Ascii.eqb c d || str_has c s end.

Lemma split_last sep a b x y :
  str_has sep x = false -> str_has sep y = false ->
  a +:+ String sep x = b +:+ String sep y -> a = b /\ x = y.
Proof.
  intros Hx Hy. revert b.
  assert (forall b z, str_has sep (b +:+ String sep z) = true) as Hin.
  { clear. intros b z. induction b as [|c b IH]; cbn [String.append str_has]; apply orb_true_iff; [left; apply Ascii.eqb_refl|by right]. }
  induction a as [|c a IH]; intros [|d b] H; cbn [String.append] in H; injection H; clear H.
  - intros H. split; [done|exact H].
  - intros H _. by rewrite H, Hin in Hx.
  - intros H _. by rewrite <- H, Hin in Hy.
  - intros H ->. apply IH in H as [-> ->]. done.
Qed.
Lemma split_last_colon a b x y :
  str_has ":" x = false -> str_has ":" y = false ->
  a +:+ ":" +:+ x = b +:+ ":" +:+ y -> a = b /\ x = y.
Proof. apply split_last. Qed.

Lemma digit_not_colon d : 0 <= d < 10 -> digit_ascii d <> ":"%char.
Proof.
  intros Hd H. unfold digit_ascii, byte_ascii in H. apply (f_equal N_of_ascii) in H.
  rewrite N_ascii_embedding in H by lia. cbn in H. lia.
Qed.

Lemma json_nat_no_colon fuel n acc :
  0 <= n -> str_has ":" acc = false -> str_has ":" (json_nat fuel n acc) = false.
Proof.
  revert n acc. induction fuel as [|fuel IH]; intros n acc Hn Ha; [done|]. cbn [json_nat].
  assert (str_has ":" (String (digit_ascii (n mod 10)) acc) = false) as H.
  { cbn [str_has]. rewrite Ha, orb_false_r. apply Ascii.eqb_neq. intros E. symmetry in E.
    apply digit_not_colon in E; [done|]. apply Z.mod_pos_bound. lia. }
  destruct (n <? 10); [done|]. apply IH; [|done]. apply Z.div_pos; lia.
Qed.

Lemma json_num_no_colon n : str_has ":" (json_num n) = false.
Proof.
  unfold json_num. destruct (Z.ltb_spec n 0); [|by apply json_nat_no_colon].
  exact (json_nat_no_colon 400 (- n) "" ltac:(lia) eq_refl).
Qed.

Section cache.
Context `{CryptoLib}.

(** What the cache stands for: the derivation it saves. *)
Definition deriveSdek (akB64 : string) (keyVersion : Z) : option bytes :=
  (fun ak => hkdf ak ("helixsync-sdek-v" +:+ json_num keyVersion) 256) <$> fromB64 None akB64.

Record cache_ok (c : sdek_cache) : Prop := {
  ck_wf : jm_wf c;
  ck_size : (length c <= MAX_SDEK_CACHE_SIZE)%nat;
  ck_sound : forall k b, jm_get c k = Some b ->
    exists ak kv, k = sdekCacheKey ak kv /\ deriveSdek ak kv = Some b;
}.

Lemma deriveSdek_key ak kv ak' kv' :
  sdekCacheKey ak kv = sdekCacheKey ak' kv' -> deriveSdek ak kv = deriveSdek ak' kv'.
Proof.
  unfold sdekCacheKey, deriveSdek. intros E.
  apply split_last_colon in E as [-> ->]; [done|apply json_num_no_colon..].
Qed.

Lemma length_jm_set {V} (m : jmap string V) k v : (length (jm_set m k v) <= S (length m))%nat.
Proof. induction m as [|[k' v'] m IH]; simpl; [lia|]. case_decide; simpl; lia. Qed.

Lemma evict_ok c :
  cache_ok c ->
  let c' := if Nat.leb MAX_SDEK_CACHE_SIZE (length c) then
              match jm_keys c with oldest :: _ => jm_delete c oldest | [] => c end else c in
  jm_wf c' /\ (length c' < MAX_SDEK_CACHE_SIZE)%nat /\ forall k b, jm_get c' k = Some b -> jm_get c k = Some b.
Proof.
  intros [Hwf Hsz Hs] c'. unfold c'. destruct (Nat.leb_spec MAX_SDEK_CACHE_SIZE (length c)) as [Hf|Hf]; [|done].
  destruct c as [|[k v] c]; simpl in *; [unfold MAX_SDEK_CACHE_SIZE in Hf; lia|].
  rewrite decide_True by done. apply NoDup_cons in Hwf as [Hnin Hnd]. split_and!; [done|lia|].
  intros k' b Hg. rewrite decide_False; [done|]. intros ->.
  assert (jm_get c k = None) by (by apply jm_get_None). congruence.
Qed.

Lemma getSdek_spec ak kv c :
  cache_ok c ->
  match getSdek None ak kv c with
  | Some (sdek, c') => deriveSdek ak kv = Some sdek /\ cache_ok c'
  | None => deriveSdek ak kv = None
  end.
Proof.
  intros Hok. unfold getSdek. destruct (jm_get c (sdekCacheKey ak kv)) as [b|] eqn:E.
  - split; [|done]. destruct (ck_sound c Hok _ _ E) as (ak' & kv' & Hk & <-). by apply deriveSdek_key.
  - unfold deriveSdek at 1 2. destruct (fromB64 None ak) as [k|] eqn:Hk; [|done]. split; [done|].
    pose proof (evict_ok c Hok) as (Hwf & Hlen & Hsub). cbn zeta in *.
    set (c1 := if Nat.leb _ _ then _ else _) in *. split.
    + auto with js.
    + pose proof (length_jm_set c1 (sdekCacheKey ak kv) (hkdf k ("helixsync-sdek-v" +:+ json_num kv) 256)). lia.
    + intros k' b. rewrite jm_get_set. case_decide as Hd.
      * intros [= <-]. exists ak, kv. split; [done|]. unfold deriveSdek. by rewrite Hk.
      * intros Hg. by apply (ck_sound c Hok), Hsub.
Qed.

(** The SDEK cache never changes a key and never grows past eight: from
    an empty cache on, [getSdek] returns exactly what deriving afresh would,
    fails exactly when that fails, and evicting before each insertion keeps
    the bound. *)
Theorem getSdek_is_derivation ak kv c :
  cache_ok c ->
  match getSdek None ak kv c with
  | Some (sdek, c') => deriveSdek ak kv = Some sdek /\ cache_ok c'
  | None => deriveSdek ak kv = None
  end.
Proof. apply getSdek_spec. Qed.
End cache.

Lemma empty_cache_ok `{CryptoLib} : cache_ok [].
Proof. split; [apply jm_nil_wf|simpl; lia|done]. Qed.

Lemma getSdek_is_derivation_witness :
  exists sdek c', getSdek None "AAAA" 1 [] = Some (sdek, c') /\ deriveSdek "AAAA" 1 = Some sdek /\ cache_ok c'.
Proof.
  pose proof (getSdek_is_derivation "AAAA" 1 [] empty_cache_ok) as H.
  eexists _, _. split; [vm_compute; reflexivity|]. vm_compute getSdek in H. exact H.
Defined.
