(* ===== verification/Engine.v ===== *)
(** * The sync engine: its world, local operations and upload
    (extension/src/sync/engine.ts)

    The engine runs in a state of local database, in-memory caches and
    counters, the server behind the API client, and whatever the appliers act
    on. What it cannot compute (clock, identifiers, random bytes, the network)
    comes from [EngineEnv]; [w_entropy] counts the reads. A server reply is an
    arbitrary function of the server state: nothing is assumed of it here. *)

From S2P Require Import Prelude JsMap Types Util Storage StorageFacts Conflict Crypto.

Open Scope Z_scope.
Open Scope js_scope.

(** ** Errors *)

Inductive sync_error :=
  | ApiError (status : Z) (code : option string) (retryAfterSeconds : option Z)
  | NetworkError
  | UnsupportedEnvelope (v : Z)
  | NoDevice
  | OtherError (message : string).

Definition syncErrorCode (err : sync_error) : option string :=
  match err with
  | ApiError status code _ => if status =? 429 then Some "rate_limited" else code
  | NetworkError => Some "network"
  | _ => None
  end.

(** ** Environment and world *)

Class EngineEnv (Srv App : Type) := {
  env_crypto :: CryptoLib;
  env_uuid : nat -> string;
  env_nonce : nat -> bytes;
  env_now : nat -> Z;
  env_iso : nat -> string;
  uploadOperations : Srv -> list LocalOperation -> (sync_error + UploadResponse) * Srv;
  downloadChanges : Srv -> Z -> (sync_error + DownloadResponse) * Srv;
  fetchSnapshot : Srv -> (sync_error + SnapshotResponse) * Srv;
  (** The registered appliers: per operation, and per batch of one type. They
      see the database and their own state. *)
  appliers : ObjectType -> option (OperationOut -> jsval -> DB * App -> (sync_error + unit) * (DB * App));
  batchAppliers : ObjectType -> option (list (OperationOut * jsval) -> DB * App -> (sync_error + unit) * (DB * App));
  preSnapshotHooks : list (DB * App -> (sync_error + unit) * (DB * App));
}.

Section engine.
Context {Srv App : Type} `{Env : EngineEnv Srv App}.

Record World := mkWorld {
  w_db : DB;
  w_app : App;
  w_server : Srv;
  w_sdek : sdek_cache;
  w_entropy : nat;
  cycleMovedOps : Z;
  cycleMovedSignificantOps : Z;
  w_responses : list UploadResponse;   (** upload replies received, oldest first *)
  w_dispatched : list string;          (** operations handed to an applier, oldest first *)
  w_received : list (DownloadResponse + SnapshotResponse);  (** pages and snapshots received *)
}.

Definition set_db (x : DB) (w : World) : World :=
  mkWorld x (w_app w) (w_server w) (w_sdek w) (w_entropy w) (cycleMovedOps w) (cycleMovedSignificantOps w) (w_responses w) (w_dispatched w) (w_received w).
Definition set_server (x : Srv) (w : World) : World :=
  mkWorld (w_db w) (w_app w) x (w_sdek w) (w_entropy w) (cycleMovedOps w) (cycleMovedSignificantOps w) (w_responses w) (w_dispatched w) (w_received w).
Definition set_sdek (x : sdek_cache) (w : World) : World :=
  mkWorld (w_db w) (w_app w) (w_server w) x (w_entropy w) (cycleMovedOps w) (cycleMovedSignificantOps w) (w_responses w) (w_dispatched w) (w_received w).
Definition bump_entropy (w : World) : World :=
  mkWorld (w_db w) (w_app w) (w_server w) (w_sdek w) (S (w_entropy w)) (cycleMovedOps w) (cycleMovedSignificantOps w) (w_responses w) (w_dispatched w) (w_received w).
Definition add_moved (ops significant : Z) (w : World) : World :=
  mkWorld (w_db w) (w_app w) (w_server w) (w_sdek w) (w_entropy w) (cycleMovedOps w + ops) (cycleMovedSignificantOps w + significant) (w_responses w) (w_dispatched w) (w_received w).
Definition log_response (r : UploadResponse) (w : World) : World :=
  mkWorld (w_db w) (w_app w) (w_server w) (w_sdek w) (w_entropy w) (cycleMovedOps w) (cycleMovedSignificantOps w) (w_responses w ++ [r]) (w_dispatched w) (w_received w).
Definition set_db_app (x : DB * App) (w : World) : World :=
  mkWorld x.1 x.2 (w_server w) (w_sdek w) (w_entropy w) (cycleMovedOps w) (cycleMovedSignificantOps w) (w_responses w) (w_dispatched w) (w_received w).
Definition log_dispatched (ids : list string) (w : World) : World :=
  mkWorld (w_db w) (w_app w) (w_server w) (w_sdek w) (w_entropy w) (cycleMovedOps w) (cycleMovedSignificantOps w) (w_responses w) (w_dispatched w ++ ids) (w_received w).

Definition log_received (r : DownloadResponse + SnapshotResponse) (w : World) : World :=
  mkWorld (w_db w) (w_app w) (w_server w) (w_sdek w) (w_entropy w) (cycleMovedOps w) (cycleMovedSignificantOps w) (w_responses w) (w_dispatched w) (w_received w ++ [r]).

Definition Sync (A : Type) : Type := M World sync_error A.

(** ** Primitives *)

Definition db_update (f : DB -> DB) : Sync unit := modify (fun w => set_db (f (w_db w)) w).
Definition db_run {A} (f : DB -> A * DB) : Sync A := fun w =>
  let '(a, s) := f (w_db w) in (inr a, set_db s w).
Definition db_read {A} (f : DB -> A) : Sync A := fun w => (inr (f (w_db w)), w).

Definition fresh {A} (f : nat -> A) : Sync A := fun w => (inr (f (w_entropy w)), bump_entropy w).
Definition uuidv7_next : Sync string := fresh env_uuid.
Definition nonce_next : Sync bytes := fresh env_nonce.
Definition now_next : Sync Z := fresh env_now.
Definition iso_next : Sync string := fresh env_iso.

(** An array, each element computed in turn. *)
Fixpoint map_m {A B} (f : A -> Sync B) (l : list A) : Sync (list B) :=
  match l with
  | [] => ret []
  | a :: l => let! b := f a in let! bs := map_m f l in ret (b :: bs)
  end.

Definition getSdekM (akB64 : string) (keyVersion : Z) : Sync bytes := fun w =>
  match getSdek None akB64 keyVersion (w_sdek w) with
  | Some (sdek, cache) => (inr sdek, set_sdek cache w)
  | None => (inl (OtherError "atob"), w)
  end.

(** ** Local operations *)

Record PendingLocalOperation := mkPendingLocal {
  pl_objectType : ObjectType;
  pl_objectId : string;
  pl_operationType : OperationType;
  pl_payload : jsval;
  pl_visitHours : option (jmap string Z);
}.

Definition encryptOperation (sdek : bytes) (keyVersion : Z) (t : ObjectType) (o : string) (ot : OperationType)
    (p : jsval) : Sync jsval :=
  let! nonce := nonce_next in
  ret (encryptWithSdek None nonce p sdek keyVersion
         (buildOperationAad (ObjectType_str t) o (OperationType_str ot))).

Definition makeOperation (device : DeviceRecord) (sdek : bytes) (startDeviceSequence startLamport : Z)
    (ii : Z * PendingLocalOperation) : Sync LocalOperation :=
  let '(i, item) := ii in
  let! wirePayload := encryptOperation sdek (accountKeyVersion device) (pl_objectType item)
                        (pl_objectId item) (pl_operationType item) (pl_payload item) in
  let! operationId := uuidv7_next in
  ret (mkLocalOperation operationId (startDeviceSequence + i + 1) (startLamport + i + 1)
         (pl_objectType item) (pl_objectId item) (pl_operationType item) 1 wirePayload None (pl_visitHours item)).

Fixpoint indexed_from {A} (i : Z) (l : list A) : list (Z * A) :=
  match l with [] => [] | a :: l => (i, a) :: indexed_from (i + 1) l end.

(** Returns the operations and the device id they carry. *)
Definition createLocalOperationsBatch (items : list PendingLocalOperation) (enqueue : bool) :
    Sync (list (LocalOperation * string)) :=
  match items with
  | [] => ret []
  | _ =>
      let! device := db_read db_device in
      match device with
      | None => throw NoDevice
      | Some device =>
          let! start := db_run (reserveSequenceBatch (Z.of_nat (length items))) in
          let! sdek := getSdekM (accountKey device) (accountKeyVersion device) in
          let! operations := map_m (makeOperation device sdek start.1 start.2) (indexed_from 0 items) in
          do! (if enqueue then let! at_ := iso_next in db_update (enqueueOperationsBatch operations at_)
               else ret tt) in
          ret (map (fun op => (op, deviceId device)) operations)
      end
  end.

(** ** Upload *)

Definition MAX_UPLOAD_BATCH : nat := 500.
Definition MAX_BATCHES_PER_CYCLE : nat := 50.
Definition MAX_UPLOAD_ATTEMPTS : Z := 20.

Definition is_not_found (r : UploadRejection) : bool := String.eqb (rej_reason r) "object_not_found".

(** (toRequeue, toRemove) *)
Definition classifyRejections (rejected : list UploadRejection) : list string * list string :=
  foldl (fun '(toRequeue, toRemove) r =>
    if is_not_found r then (toRequeue ++ [rej_operationId r], toRemove)
    else (toRequeue, toRemove ++ [rej_operationId r])) ([], []) rejected.

Definition isBookmarkRestore (op : LocalOperation) : bool :=
  bool_decide (operationType op = OpRestore) &&
  (bool_decide (objectType op = OtBookmark) || bool_decide (objectType op = OtBookmarkFolder)).

(** [createSdekResolver]: one derivation per key version. *)
Definition resolver := jmap Z bytes.
Definition resolveSdek (akB64 : string) (keyVersion : Z) (memo : resolver) : Sync (bytes * resolver) :=
  match jm_get memo keyVersion with
  | Some sdek => ret (sdek, memo)
  | None => let! sdek := getSdekM akB64 keyVersion in ret (sdek, jm_set memo keyVersion sdek)
  end.

(** The decryption both [reissueRestoresAsCreate] and the download use, inside
    its [try]: an envelope without a numeric key version cannot be opened. *)
Definition decryptEnvelope (akB64 : string) (memo : resolver) (t : ObjectType) (o : string) (ot : OperationType)
    (envelope : jsval) : Sync (option jsval * resolver) :=
  match jget envelope "keyVersion" with
  | JNum kv => fun w =>
      match resolveSdek akB64 kv memo w with
      | (inr (sdek, memo'), w') =>
          (inr (match decryptWithSdek None envelope sdek
                        (buildOperationAad (ObjectType_str t) o (OperationType_str ot)) with
                | inr v => Some v
                | inl _ => None
                end, memo'), w')
      | (inl _, w') => (inr (None, memo), w')
      end
  | _ => ret (None, memo)
  end.

(** (decoded, unreadable) *)
Fixpoint decodeRestores (akB64 : string) (memo : resolver) (records : list PendingOperationRecord) :
    Sync (list (PendingOperationRecord * jsval) * list string) :=
  match records with
  | [] => ret ([], [])
  | r :: rs =>
      let op := operation r in
      let! dm := decryptEnvelope akB64 memo (objectType op) (objectId op) OpRestore (payload op) in
      let! rest := decodeRestores akB64 dm.2 rs in
      ret (match dm.1 with
           | Some p => ((r, p) :: rest.1, rest.2)
           | None => (rest.1, operationId op :: rest.2)
           end)
  end.

Definition makeReplacement (device : DeviceRecord) (sdek : bytes) (startDeviceSequence startLamport : Z)
    (ip : Z * (PendingOperationRecord * jsval)) : Sync LocalOperation :=
  let '(i, (record, p)) := ip in
  let op := operation record in
  let! id := uuidv7_next in
  let! wire := encryptOperation sdek (accountKeyVersion device) (objectType op) (objectId op) OpCreate p in
  ret (mkLocalOperation id (startDeviceSequence + i + 1) (startLamport + i + 1)
         (objectType op) (objectId op) OpCreate 1 wire None None).

Definition replacementFieldStates (device : DeviceRecord) (op : LocalOperation) (p : jsval) :
    list LocalFieldStateEntry :=
  let key := mkOrderingKey (lamportTimestamp op) (deviceId device) (operationId op) in
  let entry field v := mkLocalFieldState (objectId op) field key OpCreate v in
  [entry "liveness" (JStr "live"); entry "title" (jget p "title"); entry "url" (jget p "url");
   entry "move" (JObj [("parent", jget p "parent"); ("position", jget p "position")])].

Definition reissueRestoresAsCreate (records : list PendingOperationRecord) : Sync unit :=
  let! device := db_read db_device in
  match device with
  | None => ret tt
  | Some device =>
      let! sdek := getSdekM (accountKey device) (accountKeyVersion device) in
      let! du := decodeRestores (accountKey device) [] records in
      let '(decoded, unreadable) := du in
      match decoded with
      | [] => db_update (removeFromQueue unreadable)
      | _ =>
          let! start := db_run (reserveSequenceBatch (Z.of_nat (length decoded))) in
          let! replacements := map_m (makeReplacement device sdek start.1 start.2) (indexed_from 0 decoded) in
          let! at_ := iso_next in
          do! db_update (replaceQueuedOperations (map (fun r => operationId (operation r)) records) replacements at_) in
          let! now := now_next in
          db_update (recordLocalFieldStatesBatch now
            (zip_with (fun op dp => replacementFieldStates device op dp.2) replacements decoded ≫= id))
      end
  end.

Definition uploadM (ops : list LocalOperation) : Sync UploadResponse := fun w =>
  let '(r, srv) := uploadOperations (w_server w) ops in
  match r with
  | inl e => (inl e, set_server srv w)
  | inr resp => (inr resp, log_response resp (set_server srv w))
  end.

Definition count_in (significant : jset string) (ids : list string) : Z :=
  Z.of_nat (length (filter (fun id => js_has significant id = true) ids)).

(** What one batch decides for the loop. *)
Record BatchVerdict := mkVerdict {
  bv_heap : record_heap;
  bv_requeued : jset string;
  bv_progressed : bool;
  bv_reissued : bool;
}.

Definition rewriteM (f : record_heap -> DB -> record_heap * DB) (heap : record_heap) : Sync record_heap :=
  db_run (f heap).

(** The [try] block: upload, then act on every verdict. *)
Definition uploadBatch (retryable : list PendingOperationRecord) (heap : record_heap)
    (requeuedThisCycle : jset string) (progressed : bool) : Sync BatchVerdict :=
  let! response := uploadM (map operation retryable) in
  let resolved := accepted response ++ duplicate response in
  do! db_update (removeFromQueue resolved) in
  let progressed := progressed || Nat.ltb 0 (length resolved) in
  let significantIds := map (fun p => operationId (operation p))
    (filter (fun p => objectType (operation p) <> OtHistoryVisit) retryable) in
  do! modify (add_moved (Z.of_nat (length resolved + length (rejected response)))
        (count_in significantIds resolved + count_in significantIds (map rej_operationId (rejected response)))) in
  let '(toRequeue, toRemove) := classifyRejections (rejected response) in
  let unknownRestores := filter (fun r => isBookmarkRestore (operation r) = true)
    (omap (jm_get heap) toRequeue) in
  do! (match unknownRestores with [] => ret tt | _ => reissueRestoresAsCreate unknownRestores end) in
  let reissued := Nat.ltb 0 (length unknownRestores) in
  let reissuedIds := map (fun r => operationId (operation r)) unknownRestores in
  let waiting := filter (fun id => js_has reissuedIds id = false) toRequeue in
  let! heap' := rewriteM (requeueInFlightRecords waiting true) heap in
  do! (match toRemove with [] => ret tt | _ => db_update (removeFromQueue toRemove) end) in
  ret (mkVerdict heap' (foldl js_add requeuedThisCycle waiting)
         (progressed || reissued || Nat.ltb 0 (length waiting) || Nat.ltb 0 (length toRemove)) reissued).

Definition record_id (r : PendingOperationRecord) : string := operationId (operation r).

(** The batch loop of [uploadPending]; [batches] counts down from
    [MAX_BATCHES_PER_CYCLE]. *)
Fixpoint upload_loop (batches : nat) (requeuedThisCycle : jset string) (lastBatchFull : bool) : Sync bool :=
  match batches with
  | O => ret lastBatchFull
  | S batches =>
      let! pending := db_read (getPendingOperations true MAX_UPLOAD_BATCH (Some requeuedThisCycle)) in
      match pending with
      | [] => ret false
      | _ =>
          let full := Nat.leb MAX_UPLOAD_BATCH (length pending) in
          let stuck := filter (fun p => MAX_UPLOAD_ATTEMPTS <= attempts p) pending in
          do! (match stuck with [] => ret tt | _ => db_update (removeFromQueue (map record_id stuck)) end) in
          let retryable := filter (fun p => attempts p < MAX_UPLOAD_ATTEMPTS /\
                                            js_has requeuedThisCycle (record_id p) = false) pending in
          match retryable with
          | [] =>
              if Nat.eqb (length stuck) 0 || negb full then ret false
              else upload_loop batches requeuedThisCycle full
          | _ =>
              let ids := map record_id retryable in
              let! heap := rewriteM (markUploadInFlightRecords ids) (heap_of retryable) in
              let! v := try_catch (uploadBatch retryable heap requeuedThisCycle (Nat.ltb 0 (length stuck)))
                          (fun err => do! rewriteM (requeueInFlightRecords ids false) heap in throw err) in
              if negb (bv_progressed v) then ret false
              else if negb full && negb (bv_reissued v) then ret false
              else upload_loop batches (bv_requeued v) full
          end
      end
  end.

Definition uploadPending : Sync bool := upload_loop MAX_BATCHES_PER_CYCLE [] false.
End engine.

Arguments World : clear implicits.
Arguments Sync : clear implicits.

(** * Object mappings (extension/src/sync/mapping.ts)

    Browser ids to object ids, for the bookmark and the tab adapter. An
    adapter's computations run over the database and its own state. *)

Section mapping.
Context {App : Type}.
Abbreviation Ad := (M (DB * App) sync_error).

Definition saveMapping (t : ObjectType) (chromiumLocalId objectId : string) : Ad unit :=
  modify (fun s => (putMapping (mkMapping (ObjectType_str t +:+ ":" +:+ chromiumLocalId) t chromiumLocalId objectId) s.1, s.2)).

(** [uuid]: what [uuidv7()] gives. *)
Definition getOrCreateObjectId (uuid : Ad string) (t : ObjectType) (chromiumLocalId : string) : Ad string :=
  let! existing := (fun s => (inr (getMappingByLocalId t chromiumLocalId s.1), s)) in
  match existing with
  | Some r => ret (om_objectId r)
  | None => let! objectId := uuid in do! saveMapping t chromiumLocalId objectId in ret objectId
  end.

Definition lookupObjectId (t : ObjectType) (chromiumLocalId : string) : Ad (option string) := fun s =>
  (inr (om_objectId <$> getMappingByLocalId t chromiumLocalId s.1), s).

Definition lookupChromiumLocalId (objectId : string) : Ad (option string) := fun s =>
  (inr (Storage.chromiumLocalId <$> getMappingByObjectId objectId s.1), s).

Definition forgetMapping (t : ObjectType) (chromiumLocalId : string) : Ad unit :=
  modify (fun s => (deleteMappingByLocalId t chromiumLocalId s.1, s.2)).

Definition establishMapping (t : ObjectType) (chromiumLocalId objectId : string) : Ad unit :=
  saveMapping t chromiumLocalId objectId.
End mapping.
