(* ===== verification/EngineUploadFacts.v ===== *)
(** * Properties of upload

    What can happen to a queued operation during [uploadPending], whatever the
    server answers. *)

From S2P Require Import Prelude JsMap Types Util Storage StorageFacts Conflict Crypto Engine.

Open Scope Z_scope.
Open Scope js_scope.

(** ** Verdicts *)

Definition judged (id : string) (resp : UploadResponse) : Prop :=
  id ∈ accepted resp \/ id ∈ duplicate resp \/ id ∈ map rej_operationId (rejected resp).

Definition not_found (id : string) (resp : UploadResponse) : Prop :=
  exists r, r ∈ rejected resp /\ is_not_found r = true /\ rej_operationId r = id.

Lemma not_found_judged id resp : not_found id resp -> judged id resp.
Proof. intros (r & Hr & _ & <-). right. right. by apply list_elem_of_fmap_2. Qed.

Lemma classifyRejections_elem rejected id :
  (id ∈ (classifyRejections rejected).1 <-> exists r, r ∈ rejected /\ is_not_found r = true /\ rej_operationId r = id) /\
  (id ∈ (classifyRejections rejected).2 <-> exists r, r ∈ rejected /\ is_not_found r = false /\ rej_operationId r = id).
Proof.
  unfold classifyRejections. induction rejected as [|r rs [IH1 IH2]] using rev_ind.
  { simpl. split; (split; [intros []%not_elem_of_nil|intros (? & []%not_elem_of_nil & _)]). }
  rewrite foldl_app. cbn [foldl]. destruct (foldl _ _ rs) as [q m]. simpl in IH1, IH2.
  assert (forall b, (exists r', r' ∈ rs ++ [r] /\ is_not_found r' = b /\ rej_operationId r' = id) <->
    (exists r', r' ∈ rs /\ is_not_found r' = b /\ rej_operationId r' = id) \/ (is_not_found r = b /\ rej_operationId r = id)) as Hsplit.
  { intros b. split.
    - intros (r' & [?| ->%list_elem_of_singleton]%elem_of_app & ?); [left; eauto|by right].
    - intros [(r' & ? & ?)|?]; [exists r'|exists r]; (split; [set_solver|done]). }
  rewrite !Hsplit, <- IH1, <- IH2. destruct (is_not_found r); simpl; rewrite elem_of_app, list_elem_of_singleton;
    split; split; intros H; destruct_or?; destruct_and?; auto; done.
Qed.

Section upload.
Context {Srv App : Type} `{Env : EngineEnv Srv App}.

(** The queue when the call started, and the replies received before it. *)
Context (p0 : gmap string PendingOperationRecord) (log0 : list UploadResponse).
Hypothesis uuid_fresh : forall n, p0 !! env_uuid n = None.

(** What may have become of an operation of [p0], given the replies [log]
    and the operations already requeued. *)
Definition fate (req : jset string) (log : list UploadResponse) (id : string)
    (r0 : PendingOperationRecord) (o : option PendingOperationRecord) : Prop :=
  match o with
  | Some r => operation r = operation r0 /\
      (attempts r = attempts r0 \/ (id ∈ req /\ exists resp, resp ∈ log /\ not_found id resp))
  | None => (exists resp, resp ∈ log /\ judged id resp) \/ MAX_UPLOAD_ATTEMPTS <= attempts r0
  end.

Definition fates (req : jset string) (log : list UploadResponse) (m : gmap string PendingOperationRecord) : Prop :=
  forall id r0, p0 !! id = Some r0 -> fate req log id r0 (m !! id).

Definition pending_of (w : World Srv App) := pending_operations (w_db w).

Definition Inv (req : jset string) (log : list UploadResponse) (w : World Srv App) : Prop :=
  pending_wf (pending_of w) /\ w_responses w = log0 ++ log /\ fates req log (pending_of w).

Lemma fate_mono req req' log log' id r0 o :
  req ⊆ req' -> log ⊆ log' -> fate req log id r0 o -> fate req' log' id r0 o.
Proof.
  intros Hr Hl. unfold fate. destruct o as [r|].
  - intros [? [?|(? & resp & ? & ?)]]; (split; [done|]); [by left|right]. split; [by apply Hr|]. exists resp. auto.
  - intros [(resp & ? & ?)|?]; [left; exists resp; auto|by right].
Qed.

(** Computations that touch neither the queue nor the replies. *)
Definition keeps_view {A} (m : Sync Srv App A) : Prop :=
  forall w, pending_of (m w).2 = pending_of w /\ w_responses (m w).2 = w_responses w.

Lemma keeps_bind {A B} (m : Sync Srv App A) (k : A -> Sync Srv App B) :
  keeps_view m -> (forall a, keeps_view (k a)) -> keeps_view (bind m k).
Proof.
  intros Hm Hk w. unfold bind. specialize (Hm w). destruct (m w) as [[e|a] w']; [done|].
  destruct (Hk a w') as [-> ->]. done.
Qed.
Lemma keeps_ret {A} (a : A) : keeps_view (ret a).
Proof. done. Qed.
Lemma keeps_fresh {A} (f : nat -> A) : keeps_view (fresh f).
Proof. done. Qed.
Lemma keeps_db_read {A} (f : DB -> A) : keeps_view (db_read f).
Proof. done. Qed.
Lemma keeps_getSdekM ak kv : keeps_view (getSdekM ak kv).
Proof. intros w. unfold getSdekM. by destruct (getSdek _ _ _ _) as [[? ?]|]. Qed.
Lemma keeps_reserve n : keeps_view (db_run (reserveSequenceBatch n)).
Proof. done. Qed.
Lemma keeps_map_m {A B} (f : A -> Sync Srv App B) l : (forall a, keeps_view (f a)) -> keeps_view (map_m f l).
Proof.
  intros Hf. induction l as [|a l IH]; [apply keeps_ret|]. cbn [map_m].
  apply keeps_bind; [done|]. intros b. apply keeps_bind; [done|]. intros. apply keeps_ret.
Qed.
Lemma keeps_resolveSdek ak kv memo : keeps_view (resolveSdek ak kv memo).
Proof.
  unfold resolveSdek. destruct (jm_get memo kv); [apply keeps_ret|].
  apply keeps_bind; [apply keeps_getSdekM|intros; apply keeps_ret].
Qed.
Lemma keeps_decryptEnvelope ak memo t o ot env : keeps_view (decryptEnvelope ak memo t o ot env).
Proof.
  unfold decryptEnvelope. destruct (jget env "keyVersion"); try apply keeps_ret. intros w.
  pose proof (keeps_resolveSdek ak n memo w) as H. by destruct (resolveSdek ak n memo w) as [[e|[sdek memo']] w'].
Qed.
Lemma keeps_decodeRestores ak memo rs : keeps_view (decodeRestores ak memo rs).
Proof.
  revert memo. induction rs as [|r rs IH]; intros memo; [apply keeps_ret|]. cbn [decodeRestores].
  apply keeps_bind; [apply keeps_decryptEnvelope|]. intros dm.
  apply keeps_bind; [apply IH|]. intros. apply keeps_ret.
Qed.
Lemma keeps_makeReplacement device sdek a b ip : keeps_view (makeReplacement device sdek a b ip).
Proof.
  destruct ip as [i [r p]]. unfold makeReplacement, encryptOperation, uuidv7_next, nonce_next.
  apply keeps_bind; [apply keeps_fresh|]. intros. apply keeps_bind; [|intros; apply keeps_ret].
  apply keeps_bind; [apply keeps_fresh|]. intros. apply keeps_ret.
Qed.

Lemma Inv_view req log w w' :
  pending_of w' = pending_of w -> w_responses w' = w_responses w -> Inv req log w -> Inv req log w'.
Proof. unfold Inv. by intros -> ->. Qed.

Lemma triple_keeps {A} req log (m : Sync Srv App A) :
  keeps_view m -> triple (Inv req log) m (fun _ => Inv req log) (fun _ => Inv req log).
Proof.
  intros Hm w Hw. destruct (Hm w) as [Hp Hr]. destruct (m w) as [[e|a] w']; by eapply Inv_view.
Qed.

(** Removing judged or worn-out operations. *)
Lemma remove_fates req log m ids :
  fates req log m ->
  (forall id r0, id ∈ ids -> p0 !! id = Some r0 -> fate req log id r0 None) ->
  fates req log (foldl (fun m id => delete id m) m ids).
Proof. intros Hm Hids id r0 H0. rewrite lookup_foldl_delete. case_decide; auto. Qed.

Lemma triple_remove req log ids X :
  (forall id r0, id ∈ ids -> p0 !! id = Some r0 -> fate req log id r0 None) ->
  triple (Inv req log) (db_update (removeFromQueue ids)) (fun _ => Inv req log) X.
Proof.
  intros Hids. apply triple_modify. intros w (Hwf & Hlog & Hf). split_and!; [|done|].
  - intros k r. unfold pending_of. cbn. rewrite putAllChunked_map.
    apply (foldl_delete_inv (fun k r => operationId (operation r) = k)). exact Hwf.
  - unfold pending_of. cbn. rewrite putAllChunked_map. by apply remove_fates.
Qed.

(** *** Re-issued restores *)

Definition fresh_ids (ops : list LocalOperation) : Prop :=
  forall op, op ∈ ops -> p0 !! operationId op = None.

Lemma makeReplacement_fresh device sdek a b ip w :
  match makeReplacement device sdek a b ip w with
  | (inr op, _) => p0 !! operationId op = None
  | (inl _, _) => True
  end.
Proof. destruct ip as [i [r p]]. apply uuid_fresh. Qed.

Lemma map_m_elem {A B} (f : A -> Sync Srv App B) (P : B -> Prop) l w :
  (forall a w, match f a w with (inr b, _) => P b | (inl _, _) => True end) ->
  match map_m f l w with (inr bs, _) => forall b, b ∈ bs -> P b | (inl _, _) => True end.
Proof.
  intros Hf. revert w. induction l as [|a l IH]; intros w; cbn [map_m].
  { intros b []%not_elem_of_nil. }
  unfold bind at 1. specialize (Hf a w). destruct (f a w) as [[e|b] w1]; [done|].
  unfold bind. specialize (IH w1). destruct (map_m f l w1) as [[e|bs] w2]; [done|].
  intros b' [->|?]%elem_of_cons; auto.
Qed.

Lemma triple_replacements req log device sdek a b l :
  triple (Inv req log) (map_m (makeReplacement device sdek a b) l)
    (fun ops w => fresh_ids ops /\ Inv req log w) (fun _ => Inv req log).
Proof.
  intros w Hw.
  pose proof (keeps_map_m (makeReplacement device sdek a b) l (keeps_makeReplacement device sdek a b) w) as [Hp Hr].
  pose proof (map_m_elem (makeReplacement device sdek a b) (fun op => p0 !! operationId op = None) l w
    (makeReplacement_fresh device sdek a b)) as Hf.
  destruct (map_m _ l w) as [[e|ops] w']; [by eapply Inv_view|]. split; [done|by eapply Inv_view].
Qed.

Lemma triple_replace req log ids ops at_ :
  fresh_ids ops -> (forall id r0, id ∈ ids -> p0 !! id = Some r0 -> fate req log id r0 None) ->
  triple (Inv req log) (db_update (replaceQueuedOperations ids ops at_)) (fun _ => Inv req log) (fun _ => Inv req log).
Proof.
  intros Hfresh Hids. apply triple_modify. intros w (Hwf & Hlog & Hf).
  unfold Inv, pending_of. cbn. rewrite !putAllChunked_map. split_and!; [|done|].
  - exact (foldl_insert_inv (fun k r => operationId (operation r) = k) operationId (fun op => queued op at_) ops _
      (fun _ => eq_refl) (foldl_delete_inv (fun k r => operationId (operation r) = k) ids _ Hwf)).
  - intros id r0 H0.
    pose proof (lookup_foldl_insert operationId (fun op => queued op at_) ops
      (foldl (fun m id => delete id m) (pending_operations (w_db w)) ids) id) as E.
    change (foldl (fun st b => put_queued at_ b st) ?start ops) with
      (foldl (fun m b => <[operationId b := queued b at_]> m) start ops). rewrite E.
    rewrite filter_false; [by apply (remove_fates req log _ ids Hf Hids)|].
    apply Forall_forall. intros op Hop <-. apply Hfresh in Hop. congruence.
Qed.

Lemma decodeRestores_ids ak memo rs w :
  match decodeRestores ak memo rs w with
  | (inr du, _) => forall id, id ∈ du.2 -> id ∈ map record_id rs
  | (inl _, _) => True
  end.
Proof.
  revert memo w. induction rs as [|r rs IH]; intros memo w; [by intros id []%not_elem_of_nil|].
  cbn [decodeRestores]. unfold bind at 1.
  destruct (decryptEnvelope _ _ _ _ _ _ w) as [[e|[o memo']] w1]; [done|].
  unfold bind. specialize (IH memo' w1). cbn [fst snd] in *.
  destruct (decodeRestores ak memo' rs w1) as [[e|du] w2]; [done|]. intros id Hid. cbn [map].
  destruct o as [p|]; cbn [fst snd] in Hid; [right; auto|].
  apply elem_of_cons in Hid as [->|?]; [by left|right; auto].
Qed.

Lemma pending_recordLocal now es s :
  pending_operations (recordLocalFieldStatesBatch now es s) = pending_operations s.
Proof. by destruct es. Qed.

Lemma triple_reissue req log records :
  (forall r r0, r ∈ records -> p0 !! record_id r = Some r0 -> fate req log (record_id r) r0 None) ->
  triple (Inv req log) (reissueRestoresAsCreate records) (fun _ => Inv req log) (fun _ => Inv req log).
Proof.
  intros Hrec. unfold reissueRestoresAsCreate.
  eapply triple_bind; [apply triple_keeps, keeps_db_read|]. intros [device|]; [|by apply triple_ret].
  eapply triple_bind; [apply triple_keeps, keeps_getSdekM|]. intros sdek. cbn beta.
  eapply triple_bind.
  { instantiate (1 := fun du w => (forall id, id ∈ du.2 -> id ∈ map record_id records) /\ Inv req log w).
    intros w Hw. pose proof (keeps_decodeRestores (accountKey device) [] records w) as [Hp Hr].
    pose proof (decodeRestores_ids (accountKey device) [] records w) as Hids.
    destruct (decodeRestores _ _ _ _) as [[e|du] w']; [by eapply Inv_view|]. split; [done|by eapply Inv_view]. }
  intros [decoded unreadable]. apply triple_pure. cbn [snd]. intros Hun.
  assert (forall id r0, id ∈ map record_id records -> p0 !! id = Some r0 -> fate req log id r0 None) as Hids.
  { intros id r0 (r & -> & Hr)%list_elem_of_fmap. by apply Hrec. }
  destruct decoded as [|d0 decoded]; [apply triple_remove; auto|]. set (dec := d0 :: decoded).
  eapply triple_bind; [apply triple_keeps, keeps_reserve|]. intros start.
  eapply triple_bind; [apply triple_replacements|]. intros ops. apply triple_pure. intros Hfresh.
  eapply triple_bind; [apply triple_keeps, keeps_fresh|]. intros at_.
  eapply triple_bind; [by apply triple_replace|]. intros [].
  eapply triple_bind; [apply triple_keeps, keeps_fresh|]. intros now.
  apply triple_keeps. intros w. split; [|done]. apply pending_recordLocal.
Qed.

(** *** One batch *)

(** The objects held for a batch: as in the queue at the start of the call. *)
Definition held (id : string) (r : PendingOperationRecord) : Prop :=
  record_id r = id /\ forall r0, p0 !! id = Some r0 -> operation r = operation r0 /\ attempts r = attempts r0.

Definition held_op (id : string) (r : PendingOperationRecord) : Prop :=
  record_id r = id /\ forall r0, p0 !! id = Some r0 -> operation r = operation r0.

(** Writing held objects back, under any requeued set that grows with them. *)
Lemma rewrite_fates (Q : string -> PendingOperationRecord -> Prop) req req' log refs f heap w :
  (forall (id : string) r, jm_get heap id = Some r -> Q id r) ->
  (forall (id : string) r, id ∈ refs -> Q id r -> Q id (f r)) -> (forall id r, Q id r -> record_id r = id) ->
  (forall r, record_id (f r) = record_id r) ->
  req ⊆ req' ->
  (forall (id : string) r r0, id ∈ refs -> Q id r -> p0 !! id = Some r0 -> fate req' log id r0 (Some (f r))) ->
  Inv req log w ->
  let hs := rewritePendingRecords refs f heap (w_db w) in
  (forall (id : string) r, jm_get hs.1 id = Some r -> Q id r) /\ Inv req' log (set_db hs.2 w).
Proof.
  intros Hh Hf Hid Hfid Hreq Hfate (Hwf & Hlog & Hfs). cbn zeta.
  destruct (rewritePending_lookup Q refs f heap (w_db w) Hh Hf Hid) as [H1 H2].
  destruct (rewritePendingRecords refs f heap (w_db w)) as [h' s']. cbn [fst snd] in *.
  split; [done|]. unfold Inv, pending_of. cbn [w_db set_db w_responses]. split_and!; [|done|].
  - intros k r Hk. destruct (H2 k) as [E|(_ & r' & E & HQ)]; rewrite E in Hk; [by apply Hwf|].
    injection Hk as <-. change (record_id (f r') = k). rewrite Hfid. by apply Hid.
  - intros id r0 H0. destruct (H2 id) as [E|(Hin & r' & E & HQ)]; rewrite E; [|by apply Hfate].
    apply (fate_mono req req' log log); [done|done|by apply Hfs].
Qed.

Lemma heap_of_get l id r : jm_get (heap_of l) id = Some r -> r ∈ l /\ record_id r = id.
Proof.
  unfold heap_of, jm_of_list.
  apply (foldl_inv (fun m : record_heap => jm_get m id = Some r -> r ∈ l /\ record_id r = id)); [done|].
  intros m [k r'] (x & [= -> ->] & Hx)%list_elem_of_fmap IH. cbn [fst snd]. rewrite jm_get_set.
  case_decide; [intros [= <-]; by subst|done].
Qed.

Definition InvSome (req : jset string) (w : World Srv App) : Prop := exists log, Inv req log w.

Lemma Inv_Some req log w : Inv req log w -> InvSome req w.
Proof. by exists log. Qed.

Lemma triple_uploadM req log ops :
  triple (Inv req log) (uploadM ops) (fun resp => Inv req (log ++ [resp])) (fun _ => Inv req log).
Proof.
  intros w Hw. unfold uploadM. destruct (uploadOperations (w_server w) ops) as [[e|resp] srv]; [done|].
  destruct Hw as (Hwf & Hlog & Hf). split_and!; [done| |].
  - cbn. by rewrite Hlog, <- app_assoc.
  - intros id r0 H0. eapply fate_mono; [done| |by apply Hf]. set_solver.
Qed.

(** A verdict in the log is reason enough to drop. *)
Lemma fate_judged req log resp id r0 :
  resp ∈ log -> judged id resp -> fate req log id r0 None.
Proof. intros. left. eauto. Qed.

Lemma triple_requeue_waiting req log resp waiting heap X :
  (forall (id : string) r, jm_get heap id = Some r -> held id r) ->
  resp ∈ log -> (forall id, id ∈ waiting -> not_found id resp) ->
  triple (Inv req log) (rewriteM (requeueInFlightRecords waiting true) heap)
    (fun _ => Inv (foldl js_add req waiting) log) X.
Proof.
  intros Hheap Hin Hnf w Hw. unfold rewriteM, db_run.
  destruct (rewrite_fates held_op req (foldl js_add req waiting) log waiting (requeue_record true) heap w) as [_ H].
  - intros id r Hr. destruct (Hheap id r Hr) as [? Hop]. split; [done|]. intros r0 H0. by apply Hop.
  - intros id r _ Hr. exact Hr.
  - by intros id r [? _].
  - done.
  - intros x Hx. apply js_foldl_add. auto.
  - intros id r r0 Hid [_ Hop] H0. split; [by apply Hop|]. right. split; [apply js_foldl_add; auto|].
    exists resp. split; [done|]. by apply Hnf.
  - done.
  - unfold requeueInFlightRecords. by destruct (rewritePendingRecords _ _ _ _) as [h' s'].
Qed.

(** Writing the held objects back without counting an attempt. *)
Lemma rewrite_held req log refs f heap w :
  (forall (id : string) r, jm_get heap id = Some r -> held id r) ->
  (forall r, operation (f r) = operation r) -> (forall r, attempts (f r) = attempts r) ->
  Inv req log w ->
  let hs := rewritePendingRecords refs f heap (w_db w) in
  (forall (id : string) r, jm_get hs.1 id = Some r -> held id r) /\ Inv req log (set_db hs.2 w).
Proof.
  intros Hheap Hop Hat Hw. apply (rewrite_fates held req req); try done.
  - intros id r _ [Hid Hr]. split; [unfold record_id; by rewrite Hop|]. intros r0 H0. rewrite Hop, Hat. auto.
  - by intros id r [? _].
  - intros r. unfold record_id. by rewrite Hop.
  - intros id r r0 _ [_ Hr] H0. destruct (Hr r0 H0) as [Ho Ha]. split; [by rewrite Hop|]. left. by rewrite Hat.
Qed.

Lemma triple_uploadBatch retryable heap req progressed log :
  (forall (id : string) r, jm_get heap id = Some r -> held id r) ->
  triple (Inv req log) (uploadBatch retryable heap req progressed)
    (fun v => InvSome (bv_requeued v)) (fun _ => InvSome req).
Proof.
  intros Hheap. unfold uploadBatch.
  eapply triple_bind; [eapply triple_exn; [apply triple_uploadM|intros ? ? Hx; exact (Inv_Some _ _ _ Hx)]|].
  intros resp. set (log' := log ++ [resp]). assert (resp ∈ log') as Hin by (unfold log'; set_solver).
  eapply triple_bind; [apply (triple_remove req log')|].
  { intros id r0 [?|?]%elem_of_app _; apply (fate_judged _ _ resp); unfold judged; auto. }
  intros []. eapply triple_bind; [apply (triple_modify _ _ (fun _ => Inv req log')); by intros w Hw|].
  intros []. pose proof (classifyRejections_elem (rejected resp)) as Hcl.
  destruct (classifyRejections (rejected resp)) as [toRequeue toRemove]. cbn [fst snd] in Hcl.
  set (unknown := filter _ (omap (jm_get heap) toRequeue)). cbn beta.
  assert (forall r, r ∈ unknown -> record_id r ∈ toRequeue) as Hunk.
  { intros r [_ (id & Hid & Hg)%list_elem_of_omap]%list_elem_of_filter. apply Hheap in Hg as [Hr _]. by rewrite Hr. }
  eapply triple_bind.
  { instantiate (1 := fun _ => Inv req log'). destruct unknown as [|u us]; [by apply triple_ret|].
    eapply triple_exn; [apply (triple_reissue req log')|intros ? ? Hx; exact (Inv_Some _ _ _ Hx)].
    intros r r0 Hr _. apply (fate_judged _ _ resp); [done|]. by apply not_found_judged, Hcl, Hunk. }
  intros []. set (waiting := filter _ toRequeue).
  eapply triple_bind; [apply (triple_requeue_waiting req log' resp); [exact Hheap|done|]|].
  { intros id Hid. apply Hcl. by apply list_elem_of_filter in Hid as [_ ?]. }
  intros heap'. eapply triple_bind with (Q := fun _ => Inv (foldl js_add req waiting) log').
  { destruct toRemove as [|id0 ids] eqn:Hrm; [by apply triple_ret|]. rewrite <- Hrm in *.
    apply triple_remove. intros id r0 Hid _. apply (fate_judged _ _ resp); [done|]. right. right.
    apply Hcl in Hid as (r & Hr & _ & <-). by apply list_elem_of_fmap_2. }
  intros []. apply triple_ret. intros w Hw. by exists log'.
Qed.

(** *** The batch loop *)

Lemma pending_elem req log w r :
  Inv req log w -> r ∈ getPendingOperations true MAX_UPLOAD_BATCH (Some req) (w_db w) ->
  held (record_id r) r /\ record_id r ∉ req.
Proof.
  intros (Hwf & _ & Hf) (Hr & Hex & _)%getPendingOperations_elem; [|done].
  assert (record_id r ∉ req) as Hnin.
  { intros Hin. by apply bool_decide_eq_false in Hex. }
  split; [|done]. split; [done|]. intros r0 H0. specialize (Hf _ _ H0). unfold pending_of in Hf.
  unfold record_id in Hf at 2. rewrite Hr in Hf. destruct Hf as [? [?|[? _]]]; done.
Qed.

Lemma triple_uploadTry retryable heap req progressed ids :
  (forall (id : string) r, jm_get heap id = Some r -> held id r) ->
  triple (InvSome req)
    (try_catch (uploadBatch retryable heap req progressed)
       (fun err => do! rewriteM (requeueInFlightRecords ids false) heap in throw err))
    (fun v => InvSome (bv_requeued v)) (fun _ => InvSome req).
Proof.
  intros Hheap. eapply triple_try_catch.
  - intros w [log Hw]. by apply (triple_uploadBatch retryable heap req progressed log Hheap).
  - intros err. eapply triple_bind with (Q := fun _ => InvSome req); [|intros; by apply triple_throw].
    intros w [log Hw]. unfold rewriteM, db_run.
    destruct (rewrite_held req log ids (requeue_record false) heap w) as [_ H]; [done..|].
    unfold requeueInFlightRecords. destruct (rewritePendingRecords _ _ _ _) as [h' s']. by exists log.
Qed.

Lemma triple_upload_loop n req full :
  triple (InvSome req) (upload_loop n req full)
    (fun _ w => exists req', InvSome req' w) (fun _ w => exists req', InvSome req' w).
Proof.
  revert req full. induction n as [|n IH]; intros req full; cbn [upload_loop]; [apply triple_ret; eauto|].
  eapply triple_bind with (Q := fun pending w => (forall r, r ∈ pending -> held (record_id r) r) /\ InvSome req w).
  { intros w [log Hw]. split; [|by exists log]. intros r Hr. by eapply pending_elem. }
  intros pending. apply triple_pure. intros Hpend.
  destruct pending as [|r0 rest]; [apply triple_ret; eauto|]. set (pending := r0 :: rest) in *.
  set (stuck := filter (fun p => MAX_UPLOAD_ATTEMPTS <= attempts p) pending).
  eapply triple_bind with (Q := fun _ => InvSome req).
  { destruct stuck as [|p ps] eqn:Hst; [by apply triple_ret|]. rewrite <- Hst.
    intros w [log Hw]. exists log. apply (triple_remove req log _ (fun _ _ => False)); [|done].
    intros id r (p' & -> & Hp)%list_elem_of_fmap H0. right. unfold stuck in Hp.
    apply list_elem_of_filter in Hp as [Hat Hp]. destruct (Hpend p' Hp) as [_ Hh].
    by rewrite <- (proj2 (Hh r H0)). }
  intros []. set (retryable := filter _ pending). clearbody stuck.
  destruct retryable as [|q qs] eqn:Hret.
  { destruct (_ || _); [apply triple_ret; eauto|apply IH]. }
  rewrite <- Hret. assert (forall r, r ∈ retryable -> held (record_id r) r) as Hheld.
  { intros r [_ Hr]%list_elem_of_filter. auto. }
  clearbody retryable. clear Hret.
  eapply triple_bind with (Q := fun heap w => (forall (id : string) r, jm_get heap id = Some r -> held id r) /\ InvSome req w).
  { intros w [log Hw]. unfold rewriteM, db_run.
    destruct (rewrite_held req log (map record_id retryable) (set_state UPLOAD_IN_FLIGHT) (heap_of retryable) w) as [Hh H].
    - intros id r [Hr <-]%heap_of_get. auto.
    - done.
    - done.
    - done.
    - unfold markUploadInFlightRecords. destruct (rewritePendingRecords _ _ _ _) as [h' s']. split; [done|by exists log]. }
  intros heap. apply triple_pure. intros Hheap.
  eapply triple_bind; [eapply triple_exn; [by apply triple_uploadTry|intros ? ? Hx; exact (ex_intro _ req Hx)]|]. intros v.
  destruct (negb (bv_progressed v)); [apply triple_ret; eauto|].
  destruct (_ && _); [apply triple_ret; eauto|apply IH].
Qed.
End upload.

(** ** The fate of queued operations *)

(** C14. No local change is lost in an upload: whatever the server answers,
    and whether [uploadPending] returns or throws, an operation that was queued
    is still queued, unchanged, unless a reply received during this call
    reported it accepted, duplicate or rejected, or it had already used up
    its attempts; and its attempt count moves only if a reply rejected it as
    unknown. In particular request failures alone drop nothing and count
    nothing. *)
Theorem uploadPending_fates `{Env : EngineEnv Srv App} (w : World Srv App) :
  pending_wf (pending_operations (w_db w)) ->
  (forall n, pending_operations (w_db w) !! env_uuid n = None) ->
  let w' := (uploadPending w).2 in
  exists log, w_responses w' = w_responses w ++ log /\
  forall id r0, pending_operations (w_db w) !! id = Some r0 ->
    match pending_operations (w_db w') !! id with
    | Some r => operation r = operation r0 /\
        (attempts r = attempts r0 \/ exists resp, resp ∈ log /\ not_found id resp)
    | None => (exists resp, resp ∈ log /\ judged id resp) \/ MAX_UPLOAD_ATTEMPTS <= attempts r0
    end.
Proof.
  intros Hwf Huuid. cbn zeta.
  pose proof (triple_upload_loop (pending_operations (w_db w)) (w_responses w) Huuid MAX_BATCHES_PER_CYCLE [] false w) as H.
  unfold uploadPending. destruct (upload_loop MAX_BATCHES_PER_CYCLE [] false w) as [res w'].
  assert (exists req, InvSome (pending_operations (w_db w)) (w_responses w) req w') as (req & log & _ & Hlog & Hf).
  { destruct res; apply H; exists []; (split_and!; [done|by rewrite app_nil_r|]);
      intros id r0 H0; unfold pending_of; rewrite H0; (split; [done|by left]). }
  exists log. split; [done|]. intros id r0 H0. specialize (Hf id r0 H0). unfold pending_of in Hf. cbn [snd].
  destruct (pending_operations (w_db w') !! id); [|done]. destruct Hf as [? [?|[_ ?]]]; auto.
Qed.
