(* ===== verification/EngineDownload.v ===== *)
(** * The sync engine: download and snapshot resync
    (extension/src/sync/engine.ts)

    A page is decrypted operation by operation, dispatched to the registered
    appliers singly or in per-type batches, and recorded in
    [applied_operations]; only then does the cursor move. Tombstones of a
    snapshot, which the code applies ten at a time concurrently, are applied
    here in order. *)

From S2P Require Import Prelude JsMap Types Util Storage StorageFacts Conflict Crypto Engine.

Open Scope Z_scope.
Open Scope js_scope.

Definition MAX_DOWNLOAD_PAGES_PER_CYCLE : nat := 50.
Definition MARK_APPLIED_CHUNK : nat := 50.
Definition SNAPSHOT_DISPATCH_CHUNK : nat := 500.
Definition TOMBSTONE_APPLY_CONCURRENCY : nat := 10.
Definition SNAPSHOT_DEVICE_ID : string := "00000000-0000-0000-0000-000000000000".

Definition isBulkImportOp (t : ObjectType) (ot : OperationType) : bool :=
  bool_decide (t = OtHistoryVisit) && bool_decide (ot = OpBulkImport).

Definition version_error (e : crypto_error) : sync_error :=
  match e with
  | UnsupportedEnvelopeVersionError v => UnsupportedEnvelope v
  | _ => OtherError "crypto"
  end.

(** The first unsupported version among some envelopes. *)
Fixpoint assertSupportedAll (envelopes : list jsval) : sync_error + unit :=
  match envelopes with
  | [] => inr tt
  | e :: es => match assertSupportedEnvelopeVersion e with
               | inl err => inl (version_error err)
               | inr _ => assertSupportedAll es
               end
  end.

Definition segments_of (container : jsval) : list jsval :=
  match jget container "segments" with JArr l => l | _ => [] end.

Definition assertEnvelopeVersionsSupported (t : ObjectType) (ot : OperationType) (payload : jsval) :
    sync_error + unit :=
  if isBulkImportOp t ot then
    if isBulkContainer payload then assertSupportedAll (segments_of payload) else inr tt
  else assertSupportedAll [payload].

Definition TERMINAL_OPERATION_TYPE (t : ObjectType) : option OperationType :=
  match t with
  | OtBookmark | OtBookmarkFolder => Some OpDelete
  | OtTab | OtWindow => Some OpClose
  | OtTabGroup | OtExtensionStorageEntry => Some OpDelete
  | _ => None
  end.

Section download.
Context {Srv App : Type} `{Env : EngineEnv Srv App}.
Abbreviation Sync := (Sync Srv App).
Abbreviation World := (World Srv App).

Definition lift {A} (r : sync_error + A) : Sync A := fun w => (r, w).

(** [None] for an operation to skip. *)
Definition decryptWithResolver (akB64 : string) (memo : resolver) (op : OperationOut) :
    Sync (option jsval * resolver) :=
  if out_encryptionVersion op <? 1 then ret (None, memo)
  else
    do! lift (assertEnvelopeVersionsSupported (out_objectType op) (out_operationType op) (out_payload op)) in
    if isBulkImportOp (out_objectType op) (out_operationType op) then
      ret (if isBulkContainer (out_payload op) then Some (out_payload op) else None, memo)
    else decryptEnvelope akB64 memo (out_objectType op) (out_objectId op) (out_operationType op) (out_payload op).

(** ** Dispatch *)

Definition run_app (f : DB * App -> (sync_error + unit) * (DB * App)) : Sync unit := fun w =>
  let '(r, x) := f (w_db w, w_app w) in (r, set_db_app x w).

Definition dispatchToApplier (op : OperationOut) (payload : jsval) : Sync unit :=
  do! modify (log_dispatched [out_operationId op]) in
  match appliers (out_objectType op) with
  | None => ret tt
  | Some applier => run_app (applier op payload)
  end.

Definition DecryptedItem : Type := OperationOut * jsval.
Definition item_id (i : DecryptedItem) : string := out_operationId i.1.

Definition runBatchApplier (f : list DecryptedItem -> DB * App -> (sync_error + unit) * (DB * App))
    (items : list DecryptedItem) : Sync unit :=
  do! modify (log_dispatched (map item_id items)) in run_app (f items).

Definition pushToGroup (groups : jmap ObjectType (list DecryptedItem)) (item : DecryptedItem) :
    jmap ObjectType (list DecryptedItem) :=
  let t := out_objectType item.1 in
  jm_set groups t (default [] (jm_get groups t) ++ [item]).

(** ** One page *)

(** The buffers of a page. *)
Record PageState := mkPage {
  appliedBuffer : list string;
  batchBuffers : jmap ObjectType (list DecryptedItem);
  ps_memo : resolver;
}.

Definition flushAppliedBuffer (ps : PageState) : Sync PageState :=
  match appliedBuffer ps with
  | [] => ret ps
  | ids =>
      let! at_ := iso_next in
      do! db_update (markAppliedBatch ids at_) in
      ret (mkPage [] (batchBuffers ps) (ps_memo ps))
  end.

Definition markApplied (ps : PageState) (operationId : string) : Sync PageState :=
  let ps' := mkPage (appliedBuffer ps ++ [operationId]) (batchBuffers ps) (ps_memo ps) in
  if Nat.leb MARK_APPLIED_CHUNK (length (appliedBuffer ps')) then flushAppliedBuffer ps' else ret ps'.

Fixpoint markAppliedAll (ps : PageState) (ids : list string) : Sync PageState :=
  match ids with
  | [] => ret ps
  | id :: ids => let! ps' := markApplied ps id in markAppliedAll ps' ids
  end.

Definition flushBatchBuffer (ps : PageState) (t : ObjectType) : Sync PageState :=
  match jm_get (batchBuffers ps) t with
  | None | Some [] => ret ps
  | Some items =>
      let ps' := mkPage (appliedBuffer ps) (jm_set (batchBuffers ps) t []) (ps_memo ps) in
      match batchAppliers t with
      | None => throw (OtherError "not a function")
      | Some f => do! runBatchApplier f items in markAppliedAll ps' (map item_id items)
      end
  end.

Fixpoint flushBatchBuffers (ps : PageState) (ts : list ObjectType) : Sync PageState :=
  match ts with
  | [] => ret ps
  | t :: ts => let! ps' := flushBatchBuffer ps t in flushBatchBuffers ps' ts
  end.

Definition flushAllBatchBuffers (ps : PageState) : Sync PageState :=
  flushBatchBuffers ps (jm_keys (batchBuffers ps)).

Definition is_unsupported (e : sync_error) : bool :=
  match e with UnsupportedEnvelope _ => true | _ => false end.

(** One operation that was not applied before. *)
Definition applyOperation (device : DeviceRecord) (op : OperationOut) (ps : PageState) : Sync PageState :=
  if bool_decide (out_objectType op = OtHistoryVisit) && String.eqb (out_deviceId op) (deviceId device)
  then markApplied ps (out_operationId op)
  else
    let! dm := try_catch (decryptWithResolver (accountKey device) (ps_memo ps) op) (fun err =>
        if is_unsupported err then
          let! ps' := flushAllBatchBuffers ps in
          do! flushAppliedBuffer ps' in throw err
        else throw err) in
    let ps := mkPage (appliedBuffer ps) (batchBuffers ps) dm.2 in
    match dm.1 with
    | None => markApplied ps (out_operationId op)
    | Some payload =>
        match batchAppliers (out_objectType op) with
        | Some _ =>
            let buffers := pushToGroup (batchBuffers ps) (op, payload) in
            let ps := mkPage (appliedBuffer ps) buffers (ps_memo ps) in
            if Nat.leb MARK_APPLIED_CHUNK (length (default [] (jm_get buffers (out_objectType op))))
            then flushBatchBuffer ps (out_objectType op) else ret ps
        | None => do! dispatchToApplier op payload in markApplied ps (out_operationId op)
        end
    end.

Fixpoint applyOperations (device : DeviceRecord) (alreadyApplied : jset string) (ops : list OperationOut)
    (ps : PageState) : Sync PageState :=
  match ops with
  | [] => ret ps
  | op :: ops =>
      if js_has alreadyApplied (out_operationId op) then applyOperations device alreadyApplied ops ps
      else let! ps' := applyOperation device op ps in applyOperations device alreadyApplied ops ps'
  end.

(** Everything a page does before its cursor is persisted. *)
Definition applyPage (device : DeviceRecord) (memo : resolver) (ops : list OperationOut) : Sync resolver :=
  let! alreadyApplied := db_read (getAppliedOperationIds (map out_operationId ops)) in
  let! ps := applyOperations device alreadyApplied ops (mkPage [] [] memo) in
  let! ps := flushAllBatchBuffers ps in
  let! ps := flushAppliedBuffer ps in
  ret (ps_memo ps).

(** ** Snapshots *)

Definition opt_truthy_num (n : option Z) : bool := match n with Some n => negb (n =? 0) | None => false end.
Definition opt_truthy_str (s : option string) : bool := match s with Some s => negb (String.eqb s "") | None => false end.

Definition syntheticSnapshotOp (snapshot : SnapshotResponse) (lamport : Z) (o : SnapshotObject) :
    Sync OperationOut :=
  let keepKey := opt_truthy_num (so_lamportTimestamp o) && opt_truthy_str (so_deviceId o)
                 && opt_truthy_str (so_operationId o) && negb (bool_decide (so_objectType o = OtHistoryVisit)) in
  let! id := (if keepKey then ret (default "" (so_operationId o)) else uuidv7_next) in
  let! createdAt := iso_next in
  ret (mkOperationOut id
         (if keepKey then default "" (so_deviceId o) else SNAPSHOT_DEVICE_ID) 0
         (if keepKey then default 0 (so_lamportTimestamp o) else lamport)
         (so_objectType o) (so_objectId o) (so_operationType o) (so_encryptionVersion o) (so_payload o)
         (snapshotCursor snapshot) createdAt).

(** Before anything is cleared: every encrypted object must be readable. *)
Definition snapshotReadable (snapshot : SnapshotResponse) : sync_error + unit :=
  foldl (fun r o => match r with
    | inl e => inl e
    | inr _ => if 1 <=? so_encryptionVersion o
               then assertEnvelopeVersionsSupported (so_objectType o) (so_operationType o) (so_payload o)
               else inr tt
    end) (inr tt) (sn_objects snapshot).

Definition runPreSnapshotHook (hook : DB * App -> (sync_error + unit) * (DB * App)) : Sync unit :=
  try_catch (run_app hook) (fun _ => ret tt).

Fixpoint decryptSnapshotChunk (snapshot : SnapshotResponse) (lamport : Z) (akB64 : string) (memo : resolver)
    (groups : jmap ObjectType (list DecryptedItem)) (objs : list SnapshotObject) :
    Sync (jmap ObjectType (list DecryptedItem) * resolver) :=
  match objs with
  | [] => ret (groups, memo)
  | o :: objs =>
      let! op := syntheticSnapshotOp snapshot lamport o in
      let! dm := decryptWithResolver akB64 memo op in
      decryptSnapshotChunk snapshot lamport akB64 dm.2
        (match dm.1 with Some payload => pushToGroup groups (op, payload) | None => groups end) objs
  end.

Definition dispatchGroup (g : ObjectType * list DecryptedItem) : Sync unit :=
  match batchAppliers g.1 with
  | Some f => runBatchApplier f g.2
  | None => for_each g.2 (fun i => dispatchToApplier i.1 i.2)
  end.

Fixpoint applySnapshotChunks (snapshot : SnapshotResponse) (lamport : Z) (akB64 : string) (memo : resolver)
    (chunks : list (list SnapshotObject)) : Sync unit :=
  match chunks with
  | [] => ret tt
  | c :: chunks =>
      let! gm := decryptSnapshotChunk snapshot lamport akB64 memo [] c in
      do! for_each gm.1 dispatchGroup in
      applySnapshotChunks snapshot lamport akB64 gm.2 chunks
  end.

Definition applyTombstone (snapshot : SnapshotResponse) (lamport : Z) (t : SnapshotTombstone) : Sync unit :=
  let! op := syntheticSnapshotOp snapshot lamport
    (mkSnapshotObject (st_objectType t) (st_objectId t)
       (default OpDelete (TERMINAL_OPERATION_TYPE (st_objectType t))) 0 (JObj []) None None None) in
  dispatchToApplier op (out_payload op).

Definition newest_of (lamports : list Z) : Z := foldl Z.max 0 lamports.

Definition applySnapshot (snapshot : SnapshotResponse) (device : DeviceRecord) : Sync unit :=
  do! lift (snapshotReadable snapshot) in
  do! for_each preSnapshotHooks runPreSnapshotHook in
  do! db_update clearFieldState in
  let! lamport := db_run (tickLamportClock
    (Some (newest_of (map (fun o => default 0 (so_lamportTimestamp o)) (sn_objects snapshot))))) in
  do! applySnapshotChunks snapshot lamport (accountKey device) []
        (slices (sn_objects snapshot) SNAPSHOT_DISPATCH_CHUNK) in
  do! for_each (slices (sn_tombstones snapshot) TOMBSTONE_APPLY_CONCURRENCY)
        (fun batch => for_each batch (applyTombstone snapshot lamport)) in
  let! at_ := iso_next in
  db_update (updateSyncState (mkPatch (Some (snapshotCursor snapshot)) (Some at_) None)).

(** ** The page loop *)

Definition downloadM (cursor : Z) : Sync (sync_error + DownloadResponse) := fun w =>
  let '(r, srv) := downloadChanges (w_server w) cursor in
  match r with
  | inl e => (inr (inl e), set_server srv w)
  | inr page => (inr (inr page), log_received (inl page) (set_server srv w))
  end.

Definition fetchSnapshotM : Sync SnapshotResponse := fun w =>
  let '(r, srv) := fetchSnapshot (w_server w) in
  match r with
  | inl e => (inl e, set_server srv w)
  | inr sn => (inr sn, log_received (inr sn) (set_server srv w))
  end.

Definition is_cursor_too_old (e : sync_error) : bool :=
  match e with ApiError _ (Some code) _ => String.eqb code "cursor_too_old" | _ => false end.

Definition count_significant {A} (f : A -> ObjectType) (l : list A) : Z :=
  Z.of_nat (length (filter (fun a => f a <> OtHistoryVisit) l)).

Fixpoint download_loop (pages : nat) (device : DeviceRecord) (memo : resolver) (snapshotTaken : bool) : Sync bool :=
  match pages with
  | O => ret true
  | S pages =>
      let! state := db_run getSyncState in
      let! response := downloadM (cursor state) in
      match response with
      | inl err =>
          if is_cursor_too_old err && negb snapshotTaken then
            let! snapshot := fetchSnapshotM in
            do! applySnapshot snapshot device in
            do! modify (add_moved (Z.of_nat (length (sn_objects snapshot) + length (sn_tombstones snapshot)))
                  (count_significant so_objectType (sn_objects snapshot)
                   + Z.of_nat (length (sn_tombstones snapshot)))) in
            download_loop pages device memo true
          else throw err
      | inr response =>
          let ops := down_operations response in
          do! modify (add_moved (Z.of_nat (length ops)) (count_significant out_objectType ops)) in
          let newestReceived := newest_of (map out_lamportTimestamp ops) in
          do! (if 0 <? newestReceived
               then let! _ := db_run (tickLamportClock (Some newestReceived)) in ret tt else ret tt) in
          let! memo := applyPage device memo ops in
          do! (if Nat.ltb 0 (length ops) || negb (down_nextCursor response =? cursor state)
               then let! at_ := iso_next in
                    db_update (updateSyncState (mkPatch (Some (down_nextCursor response)) (Some at_) None))
               else ret tt) in
          if negb (down_hasMore response) then ret false
          else download_loop pages device memo snapshotTaken
      end
  end.

Definition downloadAndApply : Sync bool :=
  let! device := db_read db_device in
  match device with
  | None => ret false
  | Some device => download_loop MAX_DOWNLOAD_PAGES_PER_CYCLE device [] false
  end.
End download.
