(* ===== verification/EngineDownloadFacts.v ===== *)
(** * Properties of download

    At-most-once application, complete recording, and a cursor that never
    passes an operation that was not applied. The appliers are arbitrary code
    that leaves the engine's own bookkeeping alone. *)

From S2P Require Import Prelude JsMap Types Util Storage StorageFacts Conflict Crypto Engine EngineDownload.

Open Scope Z_scope.
Open Scope js_scope.

Definition stored_cursor (s : DB) : Z := cursor (sync_or_initial s).

(** What an applier may not touch: the applied-operation guard and the
    cursor. Every envelope an applier opens has had its version checked. *)
Definition applier_ok {App} (f : DB * App -> (sync_error + unit) * (DB * App)) : Prop :=
  forall x, applied_operations (f x).2.1 = applied_operations x.1 /\
            stored_cursor (f x).2.1 = stored_cursor x.1 /\
            forall e, (f x).1 = inl e -> is_unsupported e = false.

Definition appliers_ok {Srv App} (Env : EngineEnv Srv App) : Prop :=
  (forall t f op p, appliers t = Some f -> applier_ok (f op p)) /\
  (forall t f items, batchAppliers t = Some f -> applier_ok (f items)) /\
  (forall f, f ∈ preSnapshotHooks -> applier_ok f).

Lemma lookup_markApplied ids at_ s k :
  applied_operations (markAppliedBatch ids at_ s) !! k =
  if decide (k ∈ ids) then Some at_ else applied_operations s !! k.
Proof.
  assert (applied_operations (markAppliedBatch ids at_ s) =
    foldl (fun m id => <[id := at_]> m) (applied_operations s) ids) as ->.
  { destruct ids; [done|]. cbn [markAppliedBatch applied_operations set_applied]. by rewrite putAllChunked_map. }
  rewrite (lookup_foldl_insert (fun id => id) (fun _ => at_)).
  destruct (decide (k ∈ ids)) as [Hk|Hk].
  - assert (k ∈ filter (fun b => b = k) ids) as Hin by by apply list_elem_of_filter.
    destruct (last (filter (fun b => b = k) ids)) eqn:E; [done|]. apply last_None in E.
    rewrite E in Hin. by apply not_elem_of_nil in Hin.
  - rewrite filter_false; [done|]. apply Forall_forall. by intros x Hx ->.
Qed.

Section download.
Context {Srv App : Type} `{Env : EngineEnv Srv App}.
Hypothesis Happ : appliers_ok Env.

Definition applied_of (w : World Srv App) := applied_operations (w_db w).
Definition is_applied (w : World Srv App) (id : string) : Prop := is_Some (applied_of w !! id).

(** *** One page *)

Section page.
Context (A0 : gmap string string) (D0 : list string).

Definition dispatched_from (done : list string) (w : World Srv App) : Prop :=
  exists l, w_dispatched w = D0 ++ l /\ forall id, id ∈ l -> A0 !! id = None /\ id ∈ done.

(** Nothing but [done] has been recorded since the page began. *)
Definition recorded_within (done : list string) (w : World Srv App) : Prop :=
  (forall id, is_applied w id -> is_Some (A0 !! id) \/ id ∈ done) /\
  (forall id, is_Some (A0 !! id) -> is_applied w id).

Definition buffered (ps : PageState) (id : string) : Prop :=
  id ∈ appliedBuffer ps \/ exists t items, jm_get (batchBuffers ps) t = Some items /\ id ∈ map item_id items.

(** The invariant of the page loop: only [done] is recorded or buffered, and
    all of [cov] is. *)
Record page_inv (done cov : list string) (ps : PageState) (w : World Srv App) : Prop := {
  pi_recorded : recorded_within done w;
  pi_covered : forall id, id ∈ cov -> is_applied w id \/ buffered ps id;
  pi_buffered : forall id, buffered ps id -> id ∈ done;
  pi_items : forall t items id, jm_get (batchBuffers ps) t = Some items -> id ∈ map item_id items -> A0 !! id = None;
  pi_dispatched : dispatched_from done w;
}.

(** Where an exception leaves the page. *)
Definition page_exn (done disp : list string) (e : sync_error) (w : World Srv App) : Prop :=
  recorded_within done w /\ dispatched_from disp w /\ is_unsupported e = false.

Lemma dispatched_mono done done' w : done ⊆ done' -> dispatched_from done w -> dispatched_from done' w.
Proof. intros Hd (l & Hl & Hin). exists l. split; [done|]. intros id [? ?]%Hin. auto. Qed.

Lemma recorded_mono done done' w : done ⊆ done' -> recorded_within done w -> recorded_within done' w.
Proof. intros Hd [H1 H2]. split; [|done]. intros id [?|?]%H1; auto. Qed.

(** A step that leaves the guard and the dispatch log alone. *)
Lemma page_inv_same done cov ps w w' :
  applied_of w' = applied_of w -> w_dispatched w' = w_dispatched w -> page_inv done cov ps w -> page_inv done cov ps w'.
Proof.
  intros Ha Hd []. split; try done; unfold recorded_within, is_applied, dispatched_from in *;
    by rewrite ?Ha, ?Hd.
Qed.

Lemma triple_flushApplied done cov ps X :
  triple (page_inv done cov ps) (flushAppliedBuffer ps)
    (fun ps' w => page_inv done cov ps' w /\ appliedBuffer ps' = [] /\ batchBuffers ps' = batchBuffers ps) X.
Proof.
  intros w Hw. unfold flushAppliedBuffer. destruct (appliedBuffer ps) as [|i0 rest] eqn:E; [done|].
  rewrite <- E. cbn -[markAppliedBatch]. split; [|done]. destruct Hw as [[Hr1 Hr2] Hc Hb Hi Hd].
  assert (forall id, is_applied (set_db (markAppliedBatch (appliedBuffer ps) (env_iso (w_entropy w)) (w_db w)) (bump_entropy w)) id <->
    id ∈ appliedBuffer ps \/ is_applied w id) as Hap.
  { intros id. unfold is_applied, applied_of. cbn [w_db set_db]. rewrite lookup_markApplied.
    case_decide; (split; [by auto|]); [by eauto|by intros [?|?]]. }
  split; cbn [batchBuffers appliedBuffer].
  - split; intros id; rewrite Hap; [intros [?|?]; [right; apply Hb; by left|auto]|auto].
  - intros id Hid. rewrite Hap. destruct (Hc id Hid) as [?|[?|?]]; [auto..|]. right. by right.
  - intros id [[]%not_elem_of_nil|?]. apply Hb. by right.
  - done.
  - exact Hd.
Qed.

Lemma triple_markApplied done cov ps id X :
  triple (page_inv done cov ps) (markApplied ps id)
    (fun ps' w => page_inv (done ++ [id]) (cov ++ [id]) ps' w /\ batchBuffers ps' = batchBuffers ps) X.
Proof.
  unfold markApplied. set (ps' := mkPage _ _ _).
  assert (forall w, page_inv done cov ps w -> page_inv (done ++ [id]) (cov ++ [id]) ps' w) as Hinv.
  { intros w [Hr Hc Hb Hi Hd]. split.
    - eapply recorded_mono; [|done]. set_solver.
    - intros id' [Hin| ->%list_elem_of_singleton]%elem_of_app.
      + destruct (Hc id' Hin) as [?|[?|?]]; [auto|right; left; cbn; set_solver|right; by right].
      + right. left. cbn. set_solver.
    - intros id' [Hin|?]; [|apply elem_of_app; left; apply Hb; by right]. cbn in Hin.
      apply elem_of_app in Hin as [?|?]; apply elem_of_app; [left; apply Hb; by left|auto].
    - done.
    - eapply dispatched_mono; [|done]. set_solver. }
  destruct (Nat.leb _ _).
  - intros w Hw. pose proof (triple_flushApplied (done ++ [id]) (cov ++ [id]) ps' X w (Hinv w Hw)) as H.
    destruct (flushAppliedBuffer ps' w) as [[e|ps''] w']; [done|]. destruct H as (? & _ & ?). done.
  - apply triple_ret. auto.
Qed.

Lemma page_inv_weaken done done' cov cov' ps w :
  done ⊆ done' -> cov' ⊆ cov -> page_inv done cov ps w -> page_inv done' cov' ps w.
Proof.
  intros Hd Hc []. split; [by eapply recorded_mono|auto|auto|done|by eapply dispatched_mono].
Qed.

Lemma triple_markAppliedAll done cov ps ids X :
  triple (page_inv done cov ps) (markAppliedAll ps ids)
    (fun ps' w => page_inv (done ++ ids) (cov ++ ids) ps' w /\ batchBuffers ps' = batchBuffers ps) X.
Proof.
  revert done cov ps. induction ids as [|id ids IH]; intros done cov ps; cbn [markAppliedAll].
  { apply triple_ret. intros w Hw. by rewrite !app_nil_r. }
  intros w Hw. unfold bind. pose proof (triple_markApplied done cov ps id X w Hw) as H1.
  destruct (markApplied ps id w) as [[e|ps1] w1]; [done|]. destruct H1 as [H1 Hb1].
  pose proof (IH _ _ ps1 w1 H1) as H2. destruct (markAppliedAll ps1 ids w1) as [[e|ps2] w2]; [done|].
  destruct H2 as [H2 Hb2]. rewrite <- !app_assoc in H2. split; [done|congruence].
Qed.

(** Handing operations of [disp] to an applier. *)
Lemma triple_run_app done cov ps f ids :
  applier_ok f -> (forall id, id ∈ ids -> A0 !! id = None /\ id ∈ done) ->
  triple (page_inv done cov ps) (do! modify (log_dispatched ids) in run_app f)
    (fun _ => page_inv done cov ps) (page_exn done done).
Proof.
  intros Hf Hids w [[Hr1 Hr2] Hc Hb Hi (l & Hl & Hin)]. cbn. unfold run_app. cbn.
  destruct (Hf (w_db w, w_app w)) as (Ha & _ & He). cbn in Ha.
  destruct (f (w_db w, w_app w)) as [[e|[]] [s a]] eqn:E; cbn in Ha, He |- *.
  - split_and!; [|exists (l ++ ids)|by apply He].
    + unfold recorded_within, is_applied, applied_of in *. cbn. rewrite Ha. done.
    + cbn. rewrite Hl, <- app_assoc. split; [done|]. intros id [?|?]%elem_of_app; auto.
  - unfold is_applied, applied_of in *. split; unfold recorded_within, is_applied, applied_of; cbn; rewrite ?Ha; try done.
    exists (l ++ ids). cbn. rewrite Hl, <- app_assoc. split; [done|]. intros id [?|?]%elem_of_app; auto.
Qed.

(** A buffer taken out of the page, before its operations are marked. *)
Lemma page_inv_clear done ps t items w :
  jm_get (batchBuffers ps) t = Some items -> page_inv done done ps w ->
  page_inv done (filter (fun id => id ∉ map item_id items) done)
    (mkPage (appliedBuffer ps) (jm_set (batchBuffers ps) t []) (ps_memo ps)) w.
Proof.
  intros E [Hr Hc Hb Hi Hd]. split; try done.
  - intros id [Hnin Hid]%list_elem_of_filter. destruct (Hc id Hid) as [?|[?|(t' & its & Ht & Hin)]];
      [auto|right; by left|]. right. right. cbn. destruct (decide (t' = t)) as [->|].
    + exfalso. apply Hnin. congruence.
    + exists t', its. by rewrite jm_get_set_ne by congruence.
  - intros id [?|(t' & its & Ht & Hin)]; [apply Hb; by left|]. cbn in Ht. rewrite jm_get_set in Ht.
    case_decide; [injection Ht as <-; by apply not_elem_of_nil in Hin|]. apply Hb. right. eauto.
  - intros t' its id Ht. cbn in Ht. rewrite jm_get_set in Ht. case_decide; [|by eapply Hi].
    injection Ht as <-. by intros []%not_elem_of_nil.
Qed.

Lemma triple_flushBatchBuffer done ps t :
  triple (page_inv done done ps) (flushBatchBuffer ps t)
    (fun ps' w => page_inv done done ps' w /\
       forall t', default [] (jm_get (batchBuffers ps') t') =
                  if decide (t' = t) then [] else default [] (jm_get (batchBuffers ps) t'))
    (page_exn done done).
Proof.
  unfold flushBatchBuffer. destruct (jm_get (batchBuffers ps) t) as [[|i0 rest]|] eqn:E.
  - apply triple_ret. intros w Hw. split; [done|]. intros t'. case_decide; subst; by rewrite ?E.
  - set (items := i0 :: rest) in *. set (ids := map item_id items). set (ps' := mkPage _ _ _).
    set (cov := filter (fun id => id ∉ ids) done).
    destruct (batchAppliers t) as [f|] eqn:Ef; [|apply triple_throw].
    2:{ intros w [Hr _ _ _ Hd]. done. }
    intros w Hw.
    pose proof (page_inv_clear done ps t items w E Hw) as Hw1.
    assert (forall id, id ∈ ids -> A0 !! id = None /\ id ∈ done) as Hids.
    { intros id Hid. destruct Hw as [_ _ Hb Hi _]. split; [by eapply Hi|]. apply Hb. right. eauto. }
    unfold bind at 1. pose proof (triple_run_app done cov ps' (f items) ids (proj1 (proj2 Happ) t f items Ef) Hids w Hw1) as H.
    unfold runBatchApplier. fold ids. destruct (bind (modify _) _ w) as [[e|[]] w1]; [done|].
    pose proof (triple_markAppliedAll done cov ps' ids (page_exn done done) w1 H) as H2.
    destruct (markAppliedAll ps' ids w1) as [[e|ps2] w2]; [done|]. destruct H2 as [H2 Hb2]. split.
    + eapply page_inv_weaken; [| |done]; intros id Hid.
      * apply elem_of_app in Hid as [?|?]; [done|by apply Hids].
      * apply elem_of_app. destruct (decide (id ∈ ids)); [auto|]. left. by apply list_elem_of_filter.
    + intros t'. rewrite Hb2. cbn. rewrite jm_get_set. repeat case_decide; by subst.
  - apply triple_ret. intros w Hw. split; [done|]. intros t'. case_decide; subst; by rewrite ?E.
Qed.

Lemma triple_flushBatchBuffers done ps ts :
  triple (page_inv done done ps) (flushBatchBuffers ps ts)
    (fun ps' w => page_inv done done ps' w /\
       forall t', default [] (jm_get (batchBuffers ps') t') =
                  if decide (t' ∈ ts) then [] else default [] (jm_get (batchBuffers ps) t'))
    (page_exn done done).
Proof.
  revert ps. induction ts as [|t ts IH]; intros ps; cbn [flushBatchBuffers]; [by apply triple_ret|].
  intros w Hw. unfold bind. pose proof (triple_flushBatchBuffer done ps t w Hw) as H1.
  destruct (flushBatchBuffer ps t w) as [[e|ps1] w1]; [done|]. destruct H1 as [H1 Hb1].
  pose proof (IH ps1 w1 H1) as H2. destruct (flushBatchBuffers ps1 ts w1) as [[e|ps2] w2]; [done|].
  destruct H2 as [H2 Hb2]. split; [done|]. intros t'. rewrite Hb2, Hb1. clear.
  destruct (decide (t' ∈ ts)), (decide (t' = t)), (decide (t' ∈ t :: ts)); subst; try done; set_solver.
Qed.

(** Everything of the page so far is recorded. *)
Lemma triple_flushAll done ps :
  triple (page_inv done done ps)
    (let! ps' := flushAllBatchBuffers ps in flushAppliedBuffer ps')
    (fun _ w => recorded_within done w /\ dispatched_from done w /\ forall id, id ∈ done -> is_applied w id)
    (page_exn done done).
Proof.
  intros w Hw. unfold bind, flushAllBatchBuffers.
  pose proof (triple_flushBatchBuffers done ps (jm_keys (batchBuffers ps)) w Hw) as H1.
  destruct (flushBatchBuffers _ _ w) as [[e|ps1] w1]; [done|]. destruct H1 as [H1 Hb1].
  pose proof (triple_flushApplied done done ps1 (page_exn done done) w1 H1) as H2.
  destruct (flushAppliedBuffer ps1 w1) as [[e|ps2] w2]; [done|]. destruct H2 as ([Hr Hc _ _ Hd] & Ha & Hb2).
  split_and!; [done..|]. intros id Hid. destruct (Hc id Hid) as [?|[Hin|(t & items & Ht & Hin)]]; [done| |].
  - rewrite Ha in Hin. by apply not_elem_of_nil in Hin.
  - exfalso. specialize (Hb1 t). rewrite Hb2 in Ht. rewrite Ht in Hb1. cbn in Hb1. subst items.
    case_decide as Hk; [by apply not_elem_of_nil in Hin|].
    assert (jm_get (batchBuffers ps) t = None) as E by by apply jm_get_None.
    rewrite E in Hin. by apply not_elem_of_nil in Hin.
Qed.

(** Decryption changes no more than the key cache. *)
Definition only_sdek {A} (m : Sync Srv App A) : Prop := forall w, exists c, (m w).2 = set_sdek c w.

Lemma set_sdek_eta w : set_sdek (w_sdek w) w = w :> World Srv App.
Proof. by destruct w. Qed.

Lemma only_sdek_ret {A} (r : sync_error + A) : only_sdek (fun w => (r, w)).
Proof. intros w. exists (w_sdek w). by rewrite set_sdek_eta. Qed.

Lemma only_sdek_resolve ak kv memo : only_sdek (resolveSdek ak kv memo).
Proof.
  intros w. unfold resolveSdek. destruct (jm_get memo kv); [apply only_sdek_ret|].
  unfold bind, getSdekM. destruct (getSdek _ _ _ _) as [[sdek c]|]; cbn; [by exists c|].
  exists (w_sdek w). by rewrite set_sdek_eta.
Qed.

Lemma only_sdek_decryptEnvelope ak memo t o ot env : only_sdek (decryptEnvelope ak memo t o ot env).
Proof.
  unfold decryptEnvelope. destruct (jget env "keyVersion"); try apply only_sdek_ret. intros w.
  destruct (only_sdek_resolve ak n memo w) as [c Hc].
  destruct (resolveSdek ak n memo w) as [[e|[sdek memo']] w']; cbn in *; eauto.
Qed.

Lemma only_sdek_decrypt ak memo op : only_sdek (decryptWithResolver ak memo op).
Proof.
  intros w. unfold decryptWithResolver. destruct (_ <? _); [apply only_sdek_ret|].
  unfold bind, lift. destruct (assertEnvelopeVersionsSupported _ _ _) as [e|[]].
  { exists (w_sdek w). by rewrite set_sdek_eta. }
  destruct (isBulkImportOp _ _); [apply only_sdek_ret|apply only_sdek_decryptEnvelope].
Qed.

(** Where an operation's exception leaves the page: had it come from an
    envelope version, everything before is recorded and nothing else is. *)
Definition op_exn (done : list string) (id : string) (e : sync_error) (w : World Srv App) : Prop :=
  recorded_within (done ++ [id]) w /\ dispatched_from (done ++ [id]) w /\
  (is_unsupported e = true -> recorded_within done w /\ forall id', id' ∈ done -> is_applied w id').

Lemma page_op_exn done done' id e w : done' ⊆ done ++ [id] -> page_exn done' done' e w -> op_exn done id e w.
Proof.
  intros Hd (Hr & Hdi & He). split_and!; [by eapply recorded_mono|by eapply dispatched_mono|].
  by rewrite He.
Qed.

Lemma page_inv_memo done cov ps memo w :
  page_inv done cov ps w -> page_inv done cov (mkPage (appliedBuffer ps) (batchBuffers ps) memo) w.
Proof. intros []. by split. Qed.

(** Reading one operation; on an unreadable version, the page so far is
    written out before the exception goes on. *)
Lemma triple_decryptStep done ps device op :
  triple (page_inv done done ps)
    (try_catch (decryptWithResolver (accountKey device) (ps_memo ps) op) (fun err =>
        if is_unsupported err then
          let! ps' := flushAllBatchBuffers ps in
          do! flushAppliedBuffer ps' in throw err
        else throw err))
    (fun _ => page_inv done done ps) (op_exn done (out_operationId op)).
Proof.
  apply triple_try_catch with (X := fun _ => page_inv done done ps).
  - intros w Hw. destruct (only_sdek_decrypt (accountKey device) (ps_memo ps) op w) as [c Hc].
    destruct (decryptWithResolver _ _ _ w) as [[e|dm] w']; cbn in Hc; subst w'; by apply (page_inv_same _ _ _ w).
  - intros e. destruct (is_unsupported e) eqn:He.
    + intros w Hw. pose proof (triple_flushAll done ps w Hw) as H. unfold bind in H |- *.
      destruct (flushAllBatchBuffers ps w) as [[e'|ps1] w1].
      { eapply page_op_exn; [|done]. set_solver. }
      destruct (flushAppliedBuffer ps1 w1) as [[e'|ps2] w2].
      { eapply page_op_exn; [|done]. set_solver. }
      destruct H as (Hr & Hd & Hall). split_and!; [eapply recorded_mono; [|done]; set_solver| |done].
      eapply dispatched_mono; [|done]. set_solver.
    + apply triple_throw. intros w [Hr _ _ _ Hd].
      split_and!; [eapply recorded_mono; [|done]; set_solver|eapply dispatched_mono; [|done]; set_solver|].
      by rewrite He.
Qed.

(** Buffering an operation for its batch applier. *)
Lemma page_inv_push done ps op payload w :
  A0 !! out_operationId op = None -> page_inv done done ps w ->
  page_inv (done ++ [out_operationId op]) (done ++ [out_operationId op])
    (mkPage (appliedBuffer ps) (pushToGroup (batchBuffers ps) (op, payload)) (ps_memo ps)) w.
Proof.
  intros HA [Hr Hc Hb Hi Hd]. unfold pushToGroup. cbn [fst].
  set (t := out_objectType op). set (old := default [] (jm_get (batchBuffers ps) t)).
  assert (forall id, id ∈ map item_id old -> exists items, jm_get (batchBuffers ps) t = Some items /\ id ∈ map item_id items) as Hold.
  { intros id Hid. unfold old in Hid. destruct (jm_get (batchBuffers ps) t) as [items|]; [eauto|].
    by apply not_elem_of_nil in Hid. }
  split.
  - eapply recorded_mono; [|done]. set_solver.
  - intros id [Hin| ->%list_elem_of_singleton]%elem_of_app.
    + destruct (Hc id Hin) as [?|[?|(t' & items & Ht & Hit)]]; [auto|right; by left|]. right. right. cbn.
      destruct (decide (t' = t)) as [->|].
      * exists t, (old ++ [(op, payload)]). rewrite jm_get_set_eq. split; [done|]. unfold old. rewrite Ht.
        rewrite map_app. apply elem_of_app. by left.
      * exists t', items. by rewrite jm_get_set_ne by congruence.
    + right. right. cbn. exists t, (old ++ [(op, payload)]). rewrite jm_get_set_eq, map_app. split; [done|].
      apply elem_of_app. right. by left.
  - intros id [?|(t' & items & Ht & Hit)]; [apply elem_of_app; left; apply Hb; by left|]. cbn in Ht.
    rewrite jm_get_set in Ht. apply elem_of_app. case_decide; [|left; apply Hb; right; eauto].
    injection Ht as <-. rewrite map_app in Hit. apply elem_of_app in Hit as [Hit|Hit]; [|by right].
    apply Hold in Hit as (items & ? & ?). left. apply Hb. right. eauto.
  - intros t' items id Ht Hit. cbn in Ht. rewrite jm_get_set in Ht. case_decide; [|by eapply Hi].
    injection Ht as <-. rewrite map_app in Hit. apply elem_of_app in Hit as [Hit|Hit].
    + apply Hold in Hit as (items & ? & ?). by eapply Hi.
    + by apply list_elem_of_singleton in Hit as ->.
  - eapply dispatched_mono; [|done]. set_solver.
Qed.

Lemma triple_applyOperation done ps device op :
  A0 !! out_operationId op = None ->
  triple (page_inv done done ps) (applyOperation device op ps)
    (fun ps' => page_inv (done ++ [out_operationId op]) (done ++ [out_operationId op]) ps')
    (op_exn done (out_operationId op)).
Proof.
  intros HA. unfold applyOperation. set (id := out_operationId op) in *.
  assert (forall ps, triple (page_inv done done ps) (markApplied ps id)
    (fun ps' => page_inv (done ++ [id]) (done ++ [id]) ps') (op_exn done id)) as Hmark.
  { intros ps0. eapply triple_conseq; [apply triple_markApplied|done|by intros ? ? [? _]|done]. }
  destruct (_ && _); [apply Hmark|].
  eapply triple_bind; [apply triple_decryptStep|]. intros [o memo]. cbn [fst snd].
  apply triple_conseq with (P' := page_inv done done (mkPage (appliedBuffer ps) (batchBuffers ps) memo))
    (Q' := fun ps' => page_inv (done ++ [id]) (done ++ [id]) ps') (X' := op_exn done id);
    [|intros w Hw; by apply page_inv_memo|done..].
  destruct o as [payload|]; [|apply Hmark]. set (ps1 := mkPage _ _ memo).
  destruct (batchAppliers (out_objectType op)) as [f|].
  - set (ps2 := mkPage _ _ _). destruct (Nat.leb _ _).
    + eapply triple_conseq; [apply (triple_flushBatchBuffer (done ++ [id]) ps2)| | |].
      * intros w Hw. by apply (page_inv_push done ps1).
      * by intros ? ? [? _].
      * intros e w Hx. by eapply page_op_exn.
    + apply triple_ret. intros w Hw. by apply (page_inv_push done ps1).
  - eapply triple_bind with (Q := fun _ w => page_inv (done ++ [id]) done ps1 w).
    + unfold dispatchToApplier. destruct (appliers (out_objectType op)) as [f|] eqn:Ef.
      * eapply triple_conseq; [apply (triple_run_app (done ++ [id]) done ps1 (f op payload) [id])| |done|].
        -- by eapply (proj1 Happ).
        -- intros x ->%list_elem_of_singleton. split; [done|]. set_solver.
        -- intros w Hw. eapply page_inv_weaken; [|done|done]. set_solver.
        -- intros e w Hx. by eapply page_op_exn.
      * intros w [Hr Hc Hb Hi (l & Hl & Hin)]. cbn. split; try done.
        -- eapply recorded_mono; [|done]. set_solver.
        -- intros x Hx. apply elem_of_app. left. by apply Hb.
        -- exists (l ++ [id]). cbn. rewrite Hl, <- app_assoc. split; [done|].
           intros x [[? ?]%Hin| ->%list_elem_of_singleton]%elem_of_app; (split; [done|]); set_solver.
    + intros []. eapply triple_conseq; [apply (triple_markApplied (done ++ [id]) done ps1 id)|done| |done].
      intros ps' w [Hw _]. eapply page_inv_weaken; [|done|done]. set_solver.
Qed.

Definition ids_of (ops : list OperationOut) : list string := map out_operationId ops.

Definition page_fail (done : list string) (ops : list OperationOut) (e : sync_error) (w : World Srv App) : Prop :=
  recorded_within (done ++ ids_of ops) w /\ dispatched_from (done ++ ids_of ops) w /\
  (is_unsupported e = true -> exists pre op post, ops = pre ++ op :: post /\
     recorded_within (done ++ ids_of pre) w /\ forall id, id ∈ done ++ ids_of pre -> is_applied w id).

Lemma page_fail_cons done op ops e w :
  page_fail (done ++ [out_operationId op]) ops e w -> page_fail done (op :: ops) e w.
Proof.
  intros (Hr & Hd & Hu). rewrite <- app_assoc in Hr, Hd. split_and!; [done..|].
  intros (pre & op' & post & -> & Hrp & Hap)%Hu. rewrite <- app_assoc in Hrp, Hap.
  by exists (op :: pre), op', post.
Qed.

Lemma triple_applyOperations done ps device already ops :
  (forall op, op ∈ ops -> js_has already (out_operationId op) = true <-> is_Some (A0 !! out_operationId op)) ->
  triple (page_inv done done ps) (applyOperations device already ops ps)
    (fun ps' => page_inv (done ++ ids_of ops) (done ++ ids_of ops) ps') (page_fail done ops).
Proof.
  revert done ps. induction ops as [|op ops IH]; intros done ps Hal; cbn [applyOperations].
  { apply triple_ret. intros w Hw. cbn. by rewrite app_nil_r. }
  set (id := out_operationId op).
  assert (forall ps1, triple (page_inv (done ++ [id]) (done ++ [id]) ps1) (applyOperations device already ops ps1)
    (fun ps' => page_inv (done ++ ids_of (op :: ops)) (done ++ ids_of (op :: ops)) ps') (page_fail done (op :: ops))) as Hrest.
  { intros ps1. eapply triple_conseq; [apply (IH (done ++ [id]) ps1)|done| |].
    - intros op' Hop. apply Hal. by right.
    - intros ps' w. by rewrite <- app_assoc.
    - intros e w. apply page_fail_cons. }
  destruct (js_has already id) eqn:Ej.
  - eapply triple_conseq; [apply (Hrest ps)| |done|done]. intros w [Hr Hc Hb Hi Hd].
    assert (is_applied w id) as Hid by (apply Hr, Hal; [by left|done]). split.
    + eapply recorded_mono; [|done]. set_solver.
    + intros x [?| ->%list_elem_of_singleton]%elem_of_app; auto.
    + intros x Hx. apply elem_of_app. left. by apply Hb.
    + done.
    + eapply dispatched_mono; [|done]. set_solver.
  - eapply triple_bind; [|apply Hrest]. eapply triple_exn; [apply triple_applyOperation|].
    + destruct (A0 !! out_operationId op) eqn:E; [|done]. exfalso.
      assert (js_has already id = true) by (apply Hal; [by left|by rewrite E]). congruence.
    + intros e w (Hr & Hd & Hu). split_and!.
      * eapply recorded_mono; [|done]. set_solver.
      * eapply dispatched_mono; [|done]. set_solver.
      * intros He. destruct (Hu He). exists [], op, ops. cbn. by rewrite app_nil_r.
Qed.
End page.

Lemma getAppliedOperationIds_has ids s id :
  id ∈ ids -> js_has (getAppliedOperationIds ids s) id = true <-> is_Some (applied_operations s !! id).
Proof.
  intros Hid. unfold getAppliedOperationIds. destruct ids as [|i0 rest]; [by apply not_elem_of_nil in Hid|].
  set (ids := i0 :: rest) in *. unfold js_has. rewrite bool_decide_eq_true.
  pose proof (getAllChunked_get ids (fun id => applied_operations s !! id) id) as Hg. rewrite decide_True in Hg by done.
  rewrite <- Hg. destruct (jm_get (getAllChunked ids _) id) as [at_|] eqn:E.
  - split; [eauto|]. intros _. apply jm_get_Some_elem in E. by apply (list_elem_of_fmap_2 fst) in E.
  - apply jm_get_None in E. split; [done|by intros []].
Qed.

(** The page after its operations. *)
Definition page_done (w0 : World Srv App) (ops : list OperationOut) (w : World Srv App) : Prop :=
  (forall id, is_applied w id <-> is_applied w0 id \/ id ∈ ids_of ops) /\
  exists l, w_dispatched w = w_dispatched w0 ++ l /\ forall id, id ∈ l -> ~ is_applied w0 id /\ id ∈ ids_of ops.

Lemma applyPage_spec device memo ops w :
  match applyPage device memo ops w with
  | (inr _, w') => page_done w ops w'
  | (inl e, w') => page_fail (applied_of w) (w_dispatched w) [] ops e w'
  end.
Proof.
  unfold applyPage. set (A0 := applied_of w). set (D0 := w_dispatched w).
  unfold bind at 1, db_read at 1. set (already := getAppliedOperationIds _ _).
  assert (page_inv A0 D0 [] [] (mkPage [] [] memo) w) as Hw.
  { split.
    - split; [auto|done].
    - intros id []%not_elem_of_nil.
    - intros id [[]%not_elem_of_nil|(t & items & Ht & _)]. done.
    - done.
    - exists []. rewrite app_nil_r. split; [done|]. intros id []%not_elem_of_nil. }
  pose proof (triple_applyOperations A0 D0 [] (mkPage [] [] memo) device already ops) as H.
  assert (forall op, op ∈ ops -> js_has already (out_operationId op) = true <-> is_Some (A0 !! out_operationId op)) as Hal.
  { intros op Hop. apply getAppliedOperationIds_has. by apply list_elem_of_fmap_2. }
  specialize (H Hal w Hw). unfold bind at 1. destruct (applyOperations device already ops _ w) as [[e|ps1] w1]; [done|].
  cbn [app] in H. pose proof (triple_flushAll A0 D0 (ids_of ops) ps1 w1 H) as H2. unfold bind in H2 |- *.
  assert (forall e w', page_exn A0 D0 (ids_of ops) (ids_of ops) e w' -> page_fail A0 D0 [] ops e w') as Hx.
  { intros e w' (Hr & Hd & He). split_and!; [done..|]. by rewrite He. }
  destruct (flushAllBatchBuffers ps1 w1) as [[e|ps2] w2]; [by apply Hx|].
  destruct (flushAppliedBuffer ps2 w2) as [[e|ps3] w3]; [by apply Hx|].
  destruct H2 as ([Hr1 Hr2] & (l & Hl & Hin) & Hall). split.
  - intros id. split; [intros [?|?]%Hr1; auto|intros [?|?]; auto].
  - exists l. split; [done|]. intros id [Hn Hid]%Hin. split; [|done]. unfold is_applied. intros [x Hx']. 
    unfold A0 in Hn. congruence.
Qed.
End download.


(** ** The cursor *)

Section cursor.
Context {Srv App : Type} `{Env : EngineEnv Srv App}.
Hypothesis Happ : appliers_ok Env.

(** The record only grows; the cursor and the replies received stay. *)
Definition extends (w w' : World Srv App) : Prop :=
  stored_cursor (w_db w') = stored_cursor (w_db w) /\ w_received w' = w_received w /\
  forall id, is_applied w id -> is_applied w' id.

#[local] Instance extends_preorder : PreOrder extends.
Proof.
  split; [done|]. intros w1 w2 w3 (Hc1 & Hr1 & Ha1) (Hc2 & Hr2 & Ha2). split_and!; [congruence..|auto].
Qed.

Definition keeps {A} (m : Sync Srv App A) : Prop := forall w, extends w (m w).2.

Lemma keeps_ret' {A} (a : A) : keeps (ret a).
Proof. intros w. reflexivity. Qed.
Lemma keeps_throw {A} e : keeps (throw e : Sync Srv App A).
Proof. intros w. reflexivity. Qed.
Lemma keeps_bind' {A B} (m : Sync Srv App A) (k : A -> Sync Srv App B) :
  keeps m -> (forall a, keeps (k a)) -> keeps (bind m k).
Proof.
  intros Hm Hk w. unfold bind. specialize (Hm w). destruct (m w) as [[e|a] w']; [done|].
  etrans; [exact Hm|apply Hk].
Qed.
Lemma keeps_try {A} (m : Sync Srv App A) h : keeps m -> (forall e, keeps (h e)) -> keeps (try_catch m h).
Proof.
  intros Hm Hh w. unfold try_catch. specialize (Hm w). destruct (m w) as [[e|a] w']; [|done].
  etrans; [exact Hm|apply Hh].
Qed.
Lemma keeps_for_each {A} (l : list A) (f : A -> Sync Srv App unit) : (forall a, a ∈ l -> keeps (f a)) -> keeps (for_each l f).
Proof.
  induction l as [|a l IH]; intros Hf; cbn [for_each]; [apply keeps_ret'|].
  apply keeps_bind'; [apply Hf; by left|]. intros _. apply IH. intros. apply Hf. by right.
Qed.
Lemma keeps_fresh' {A} (f : nat -> A) : keeps (fresh f).
Proof. done. Qed.
Lemma keeps_lift {A} (r : sync_error + A) : keeps (lift r).
Proof. done. Qed.
Lemma keeps_read {A} (f : DB -> A) : keeps (db_read f).
Proof. done. Qed.
Lemma keeps_only_sdek {A} (m : Sync Srv App A) : only_sdek m -> keeps m.
Proof. intros Hm w. by destruct (Hm w) as [c ->]. Qed.
Lemma keeps_tick ob : keeps (db_run (tickLamportClock ob)).
Proof. done. Qed.
Lemma keeps_getSyncState : keeps (db_run getSyncState).
Proof.
  intros w. unfold db_run, getSyncState. destruct (sync_state (w_db w)) eqn:E; [by destruct w|].
  split_and!; [|done|done]. unfold stored_cursor, sync_or_initial. cbn. by rewrite E.
Qed.
Lemma keeps_clear : keeps (db_update clearFieldState).
Proof. done. Qed.
Lemma keeps_mark ids at_ : keeps (db_update (markAppliedBatch ids at_)).
Proof.
  intros w. split_and!; [by destruct ids|done|]. intros id Hid. unfold is_applied, applied_of in *. cbn.
  rewrite lookup_markApplied. case_decide; eauto.
Qed.
Lemma keeps_app f : applier_ok f -> keeps (run_app f).
Proof.
  intros Hf w. unfold run_app. destruct (Hf (w_db w, w_app w)) as (Ha & Hc & _).
  destruct (f (w_db w, w_app w)) as [r x]. split_and!; [done|done|].
  intros id. unfold is_applied, applied_of. cbn in *. by rewrite Ha.
Qed.
Lemma keeps_log ids : keeps (modify (log_dispatched ids)).
Proof. done. Qed.

Create HintDb keeps.
#[local] Hint Resolve keeps_ret' keeps_throw keeps_bind' keeps_try keeps_fresh' keeps_lift keeps_read keeps_tick
  keeps_clear keeps_mark keeps_log keeps_only_sdek only_sdek_decrypt : keeps.

Lemma keeps_dispatch op payload : keeps (dispatchToApplier op payload).
Proof.
  unfold dispatchToApplier. apply keeps_bind'; [auto with keeps|]. intros _.
  destruct (appliers (out_objectType op)) as [f|] eqn:E; [|auto with keeps].
  apply keeps_app. by eapply (proj1 Happ).
Qed.
Lemma keeps_runBatch t f items : batchAppliers t = Some f -> keeps (runBatchApplier f items).
Proof.
  intros Hf. unfold runBatchApplier. apply keeps_bind'; [auto with keeps|]. intros _.
  apply keeps_app. by eapply (proj1 (proj2 Happ)).
Qed.
Lemma keeps_flushApplied ps : keeps (flushAppliedBuffer ps).
Proof. unfold flushAppliedBuffer. destruct (appliedBuffer ps); [auto with keeps|]. unfold iso_next. auto with keeps. Qed.
#[local] Hint Resolve keeps_dispatch keeps_flushApplied : keeps.
Lemma keeps_markApplied ps id : keeps (markApplied ps id).
Proof. unfold markApplied. destruct (Nat.leb _ _); auto with keeps. Qed.
#[local] Hint Resolve keeps_markApplied : keeps.
Lemma keeps_markAppliedAll ps ids : keeps (markAppliedAll ps ids).
Proof. revert ps. induction ids; intros ps; cbn [markAppliedAll]; auto with keeps. Qed.
#[local] Hint Resolve keeps_markAppliedAll : keeps.
Lemma keeps_flushBatch ps t : keeps (flushBatchBuffer ps t).
Proof.
  unfold flushBatchBuffer. destruct (jm_get _ t) as [[|i items]|]; [auto with keeps| |auto with keeps].
  destruct (batchAppliers t) as [f|] eqn:E; [|auto with keeps].
  apply keeps_bind'; [by eapply keeps_runBatch|auto with keeps].
Qed.
#[local] Hint Resolve keeps_flushBatch : keeps.
Lemma keeps_flushBatches ps ts : keeps (flushBatchBuffers ps ts).
Proof. revert ps. induction ts; intros ps; cbn [flushBatchBuffers]; auto with keeps. Qed.
Lemma keeps_flushAll ps : keeps (flushAllBatchBuffers ps).
Proof. apply keeps_flushBatches. Qed.
#[local] Hint Resolve keeps_flushAll : keeps.

Lemma keeps_applyOperation device op ps : keeps (applyOperation device op ps).
Proof.
  unfold applyOperation. destruct (_ && _); [auto with keeps|]. apply keeps_bind'.
  - apply keeps_try; [auto with keeps|]. intros e. destruct (is_unsupported e); auto 6 with keeps.
  - intros [[payload|] memo]; cbn [fst snd]; [|auto with keeps].
    destruct (batchAppliers (out_objectType op)); [destruct (Nat.leb _ _)|]; auto with keeps.
Qed.
Lemma keeps_applyOperations device already ops ps : keeps (applyOperations device already ops ps).
Proof.
  revert ps. induction ops as [|op ops IH]; intros ps; cbn [applyOperations]; [auto with keeps|].
  destruct (js_has already _); [apply IH|]. apply keeps_bind'; [apply keeps_applyOperation|done].
Qed.
Lemma keeps_applyPage device memo ops : keeps (applyPage device memo ops).
Proof.
  unfold applyPage. apply keeps_bind'; [auto with keeps|]. intros already.
  apply keeps_bind'; [apply keeps_applyOperations|]. auto with keeps.
Qed.

(** *** Snapshots *)

Lemma keeps_synthetic sn l o : keeps (syntheticSnapshotOp sn l o).
Proof.
  unfold syntheticSnapshotOp. apply keeps_bind'; [|intros; unfold iso_next; auto with keeps].
  unfold uuidv7_next. destruct (_ && _); auto with keeps.
Qed.
#[local] Hint Resolve keeps_synthetic : keeps.
Lemma keeps_decryptChunk sn l ak memo groups objs : keeps (decryptSnapshotChunk sn l ak memo groups objs).
Proof. revert memo groups. induction objs; intros; cbn [decryptSnapshotChunk]; auto 6 with keeps. Qed.
Lemma keeps_dispatchGroup g : keeps (dispatchGroup g).
Proof.
  unfold dispatchGroup. destruct (batchAppliers g.1) as [f|] eqn:E; [by eapply keeps_runBatch|].
  apply keeps_for_each. auto with keeps.
Qed.
Lemma keeps_snapshotChunks sn l ak memo chunks : keeps (applySnapshotChunks sn l ak memo chunks).
Proof.
  revert memo. induction chunks as [|c chunks IH]; intros memo; cbn [applySnapshotChunks]; [auto with keeps|].
  apply keeps_bind'; [apply keeps_decryptChunk|]. intros gm. apply keeps_bind'; [|auto].
  apply keeps_for_each. intros. apply keeps_dispatchGroup.
Qed.

(** All of a snapshot but its last write. *)
Definition snapshotBody (sn : SnapshotResponse) (device : DeviceRecord) : Sync Srv App unit :=
  do! lift (snapshotReadable sn) in
  do! for_each preSnapshotHooks runPreSnapshotHook in
  do! db_update clearFieldState in
  let! lamport := db_run (tickLamportClock
    (Some (newest_of (map (fun o => default 0 (so_lamportTimestamp o)) (sn_objects sn))))) in
  do! applySnapshotChunks sn lamport (accountKey device) [] (slices (sn_objects sn) SNAPSHOT_DISPATCH_CHUNK) in
  for_each (slices (sn_tombstones sn) TOMBSTONE_APPLY_CONCURRENCY)
    (fun batch => for_each batch (applyTombstone sn lamport)).

Lemma keeps_snapshotBody sn device : keeps (snapshotBody sn device).
Proof.
  unfold snapshotBody. apply keeps_bind'; [auto with keeps|]. intros _. apply keeps_bind'.
  { apply keeps_for_each. intros f Hf. apply keeps_try; [|auto with keeps]. by apply keeps_app, Happ. }
  intros _. apply keeps_bind'; [auto with keeps|]. intros _. apply keeps_bind'; [auto with keeps|]. intros lamport.
  apply keeps_bind'; [apply keeps_snapshotChunks|]. intros _. apply keeps_for_each. intros b _.
  apply keeps_for_each. intros t _. unfold applyTombstone. auto with keeps.
Qed.

Lemma bind_assoc {A B C} (m : Sync Srv App A) (k : A -> Sync Srv App B) (h : B -> Sync Srv App C) w :
  bind m (fun a => bind (k a) h) w = bind (bind m k) h w.
Proof. unfold bind. by destruct (m w) as [[e|a] w']. Qed.

Lemma applySnapshot_body sn device w :
  applySnapshot sn device w =
  (do! snapshotBody sn device in
   let! at_ := iso_next in
   db_update (updateSyncState (mkPatch (Some (snapshotCursor sn)) (Some at_) None))) w.
Proof.
  unfold applySnapshot, snapshotBody. unfold bind.
  repeat match goal with |- context [match ?m ?w with (pair _ _) => _ end] =>
    destruct (m w) as [[?|?] ?]; [done|]; cbv beta iota end. done.
Qed.

(** *** The page loop *)

(** The cursor is where it was, or at the end of a page received whose every
    operation is recorded, or at a snapshot received. *)
Definition cursor_ok (c0 : Z) (w : World Srv App) : Prop :=
  stored_cursor (w_db w) = c0 \/
  (exists page, inl page ∈ w_received w /\ stored_cursor (w_db w) = down_nextCursor page /\
     forall op, op ∈ down_operations page -> is_applied w (out_operationId op)) \/
  (exists sn, inr sn ∈ w_received w /\ stored_cursor (w_db w) = snapshotCursor sn).

Lemma cursor_ok_extends c0 w w' : extends w w' -> cursor_ok c0 w -> cursor_ok c0 w'.
Proof.
  intros (Hc & Hr & Ha) [?|[(page & ? & ? & Hp)|(sn & ? & ?)]]; unfold cursor_ok; rewrite Hc, Hr.
  - by left.
  - right. left. exists page. split_and!; [done..|]. intros op Hop. by apply Ha, Hp.
  - right. right. by exists sn.
Qed.

Lemma triple_keeps_cursor {A} c0 (m : Sync Srv App A) :
  keeps m -> triple (cursor_ok c0) m (fun _ => cursor_ok c0) (fun _ => cursor_ok c0).
Proof.
  intros Hm w Hw. specialize (Hm w). destruct (m w) as [[e|a] w']; by eapply cursor_ok_extends.
Qed.

Lemma triple_snapshot c0 device :
  triple (cursor_ok c0) (let! sn := fetchSnapshotM in do! applySnapshot sn device in ret sn)
    (fun _ => cursor_ok c0) (fun _ => cursor_ok c0).
Proof.
  apply triple_bind with (Q := fun sn w => cursor_ok c0 w /\ inr sn ∈ w_received w).
  { intros w Hw. unfold fetchSnapshotM. destruct (fetchSnapshot (w_server w)) as [[e|sn] srv]; [done|].
    split; [|cbn; set_solver]. destruct Hw as [?|[(page & ? & ? & ?)|(sn' & ? & ?)]]; [by left|right; left|right; right].
    - exists page. cbn. split_and!; [set_solver|done..].
    - exists sn'. cbn. split; [set_solver|done]. }
  intros sn. apply triple_bind with (Q := fun _ => cursor_ok c0); [|intros; by apply triple_ret].
  intros w [Hw Hin]. rewrite applySnapshot_body. unfold bind.
  pose proof (keeps_snapshotBody sn device w) as Hk.
  destruct (snapshotBody sn device w) as [[e|[]] w1]; cbn in Hk; [by eapply cursor_ok_extends|].
  destruct Hk as (_ & Hr & _). right. right. exists sn. cbn. rewrite Hr. done.
Qed.

Lemma triple_downloadM c0 c :
  triple (cursor_ok c0) (downloadM c)
    (fun r w => match r with inl _ => True | inr page => inl page ∈ w_received w end /\ cursor_ok c0 w)
    (fun _ => cursor_ok c0).
Proof.
  intros w Hw. unfold downloadM. destruct (downloadChanges (w_server w) c) as [[e|page] srv]; [done|].
  split; [cbn; set_solver|]. destruct Hw as [?|[(page' & ? & ? & ?)|(sn' & ? & ?)]]; [by left|right; left|right; right].
  - exists page'. cbn. split_and!; [set_solver|done..].
  - exists sn'. cbn. split; [set_solver|done].
Qed.

Lemma triple_applyPage c0 device memo page :
  triple (fun w => inl page ∈ w_received w /\ cursor_ok c0 w) (applyPage device memo (down_operations page))
    (fun _ w => (inl page ∈ w_received w /\ forall op, op ∈ down_operations page -> is_applied w (out_operationId op))
                /\ cursor_ok c0 w)
    (fun _ => cursor_ok c0).
Proof.
  intros w [Hin Hw]. pose proof (keeps_applyPage device memo (down_operations page) w) as Hk.
  pose proof (applyPage_spec Happ device memo (down_operations page) w) as Hs.
  destruct (applyPage _ _ _ w) as [[e|memo'] w1]; cbn in Hk; [by eapply cursor_ok_extends|].
  destruct Hs as [Hap _]. split; [split|by eapply cursor_ok_extends].
  - by rewrite (proj1 (proj2 Hk)).
  - intros op Hop. apply Hap. right. by apply list_elem_of_fmap_2.
Qed.

Lemma triple_moved c0 (phi : World Srv App -> Prop) a b (X : sync_error -> World Srv App -> Prop) :
  (forall w, phi w -> phi (add_moved a b w)) ->
  triple (fun w => phi w /\ cursor_ok c0 w) (modify (add_moved a b)) (fun _ w => phi w /\ cursor_ok c0 w) X.
Proof. intros Hphi. apply triple_modify. intros w [? ?]. split; [auto|done]. Qed.

Lemma triple_download_loop c0 n device memo taken :
  triple (cursor_ok c0) (download_loop n device memo taken) (fun _ => cursor_ok c0) (fun _ => cursor_ok c0).
Proof.
  revert memo taken. induction n as [|n IH]; intros memo taken; cbn [download_loop]; [by apply triple_ret|].
  eapply triple_bind; [apply triple_keeps_cursor, keeps_getSyncState|]. intros state. cbn beta.
  eapply triple_bind; [apply triple_downloadM|]. intros [err|page].
  - destruct (_ && _); [|apply triple_throw; by intros w [_ ?]].
    intros w [_ Hw].
    pose proof (triple_snapshot c0 device w Hw) as H. unfold bind in H |- *.
    destruct (fetchSnapshotM w) as [[e|sn] w1]; [done|].
    destruct (applySnapshot sn device w1) as [[e|[]] w2]; [done|]. cbn in H.
    apply (IH memo true (add_moved _ _ w2)), H.
  - eapply triple_bind; [apply (triple_moved c0 (fun w => inl page ∈ w_received w)); by intros w|]. intros [].
    eapply triple_bind with (Q := fun _ w => inl page ∈ w_received w /\ cursor_ok c0 w).
    { destruct (0 <? _); [|by apply triple_ret]. intros w [Hin Hw]. split; [done|].
      by apply (cursor_ok_extends c0 w). }
    intros []. eapply triple_bind; [apply triple_applyPage|]. intros memo'.
    eapply triple_bind with (Q := fun _ => cursor_ok c0).
    + destruct (_ || _); [|apply triple_ret; by intros w [_ ?]].
      intros w [[Hin Hap] Hw]. right. left. exists page. split_and!; [done|done|]. intros op Hop. by apply Hap.
    + intros []. destruct (negb _); [by apply triple_ret|apply IH].
Qed.
End cursor.

(** C28. The cursor never passes an operation that was not applied: however
    [downloadAndApply] ends, by returning or by any exception, the stored
    cursor is the one it started from, or the end of a page it received all of
    whose operations are recorded as applied, or that of a snapshot it
    received. *)
Theorem downloadAndApply_cursor_safe `{Env : EngineEnv Srv App} (w : World Srv App) :
  appliers_ok Env -> cursor_ok (stored_cursor (w_db w)) (downloadAndApply w).2.
Proof.
  intros Happ. unfold downloadAndApply, bind, db_read. destruct (db_device (w_db w)) as [device|]; [|by left].
  pose proof (triple_download_loop Happ (stored_cursor (w_db w)) MAX_DOWNLOAD_PAGES_PER_CYCLE device [] false w) as H.
  specialize (H ltac:(by left)). by destruct (download_loop _ _ _ _ w) as [[e|b] w'].
Qed.
