(* ===== verification/EngineCycle.v ===== *)
(** * The sync engine: cycles, cooldown and throttle
    (extension/src/sync/engine.ts)

    The module variables around a sync cycle as a record, the cycle loop with
    the triggers that arrive during it as an input, the rate-limit cooldown,
    the local-sync throttle, and the sync slot as a step relation over the
    tasks that compete for it. A timer is its due time. *)

From S2P Require Import Prelude JsMap Types Util Storage StorageFacts Conflict Crypto Engine EngineDownload.

Open Scope Z_scope.
Open Scope js_scope.

(** ** Constants and pure decisions *)

Definition DEFAULT_RATE_LIMIT_COOLDOWN_SECONDS : Z := 30.
Definition SHORT_COOLDOWN_HOLD_MS : Z := 60000.
Definition MAX_CHAINED_CYCLES : Z := 4.
Definition MAX_CHAINED_CYCLE_MS : Z := 60000.
Definition DOWNLOAD_SKIP_WINDOW_MS : Z := 15 * 60000.
Definition LOCAL_SYNC_DEBOUNCE_MS : Z := 250.
Definition LOCAL_SYNC_MIN_INTERVAL_MS : Z := 10000.
Definition LOCAL_SYNC_MAX_INTERVAL_MS : Z := 60000.
Definition SHORT_LOCAL_SYNC_HOLD_MS : Z := 30000.

Definition shouldChainAnotherCycle (moreBacklog : bool) (chainedCycles chainStartMs nowMs : Z) : bool :=
  moreBacklog && (chainedCycles <? MAX_CHAINED_CYCLES) && (nowMs - chainStartMs <? MAX_CHAINED_CYCLE_MS).

Inductive SyncStatus := StIdle | StSyncing | StError | StNeedsReauth.

(** The interval for a streak of empty cycles. *)
Definition local_sync_interval (emptyCycleStreak : Z) : Z :=
  let doublings := emptyCycleStreak / 2 in
  Z.min (LOCAL_SYNC_MIN_INTERVAL_MS * 2 ^ doublings) LOCAL_SYNC_MAX_INTERVAL_MS.

Section cycle.
Context {Srv App : Type} `{Env : EngineEnv Srv App}.

Record Cycle := mkCycle {
  cy_world : World Srv App;
  syncBlockedUntil : Z;
  syncBlockedHydrated : bool;
  storedBlockedUntil : option Z;       (** chrome.storage.session *)
  cooldownRetryTimer : option Z;
  syncInFlight : bool;
  rerunRequested : bool;
  peerNotified : bool;
  lastEmptyPollAt : Z;
  emptyCycleStreak : Z;
  lastLocalSyncFire : Z;
  localSyncTimer : option Z;
  statuses : list (SyncStatus * option string);   (** emitted, oldest first *)
}.

Definition set_world (x : World Srv App) (c : Cycle) : Cycle :=
  mkCycle x (syncBlockedUntil c) (syncBlockedHydrated c) (storedBlockedUntil c) (cooldownRetryTimer c) (syncInFlight c) (rerunRequested c) (peerNotified c) (lastEmptyPollAt c) (emptyCycleStreak c) (lastLocalSyncFire c) (localSyncTimer c) (statuses c).
Definition set_blocked (x : Z) (h : bool) (st : option Z) (c : Cycle) : Cycle :=
  mkCycle (cy_world c) x h st (cooldownRetryTimer c) (syncInFlight c) (rerunRequested c) (peerNotified c) (lastEmptyPollAt c) (emptyCycleStreak c) (lastLocalSyncFire c) (localSyncTimer c) (statuses c).
Definition set_retry (x : option Z) (c : Cycle) : Cycle :=
  mkCycle (cy_world c) (syncBlockedUntil c) (syncBlockedHydrated c) (storedBlockedUntil c) x (syncInFlight c) (rerunRequested c) (peerNotified c) (lastEmptyPollAt c) (emptyCycleStreak c) (lastLocalSyncFire c) (localSyncTimer c) (statuses c).
Definition set_slot (inFlight rerun : bool) (c : Cycle) : Cycle :=
  mkCycle (cy_world c) (syncBlockedUntil c) (syncBlockedHydrated c) (storedBlockedUntil c) (cooldownRetryTimer c) inFlight rerun (peerNotified c) (lastEmptyPollAt c) (emptyCycleStreak c) (lastLocalSyncFire c) (localSyncTimer c) (statuses c).
Definition set_poll (notified : bool) (at_ : Z) (c : Cycle) : Cycle :=
  mkCycle (cy_world c) (syncBlockedUntil c) (syncBlockedHydrated c) (storedBlockedUntil c) (cooldownRetryTimer c) (syncInFlight c) (rerunRequested c) notified at_ (emptyCycleStreak c) (lastLocalSyncFire c) (localSyncTimer c) (statuses c).
Definition set_streak (x : Z) (c : Cycle) : Cycle :=
  mkCycle (cy_world c) (syncBlockedUntil c) (syncBlockedHydrated c) (storedBlockedUntil c) (cooldownRetryTimer c) (syncInFlight c) (rerunRequested c) (peerNotified c) (lastEmptyPollAt c) x (lastLocalSyncFire c) (localSyncTimer c) (statuses c).
Definition set_local (fire : Z) (timer : option Z) (c : Cycle) : Cycle :=
  mkCycle (cy_world c) (syncBlockedUntil c) (syncBlockedHydrated c) (storedBlockedUntil c) (cooldownRetryTimer c) (syncInFlight c) (rerunRequested c) (peerNotified c) (lastEmptyPollAt c) (emptyCycleStreak c) fire timer (statuses c).
Definition emitStatus (s : SyncStatus) (code : option string) (c : Cycle) : Cycle :=
  mkCycle (cy_world c) (syncBlockedUntil c) (syncBlockedHydrated c) (storedBlockedUntil c) (cooldownRetryTimer c) (syncInFlight c) (rerunRequested c) (peerNotified c) (lastEmptyPollAt c) (emptyCycleStreak c) (lastLocalSyncFire c) (localSyncTimer c) (statuses c ++ [(s, code)]).

(** [Date.now()] *)
Definition date_now (c : Cycle) : Z * Cycle :=
  (env_now (w_entropy (cy_world c)), set_world (bump_entropy (cy_world c)) c).

(** ** Rate-limit cooldown *)

Definition ensureSyncBlockedUntilHydrated (c : Cycle) : Cycle :=
  if syncBlockedHydrated c then c
  else set_blocked (default (syncBlockedUntil c) (storedBlockedUntil c)) true (storedBlockedUntil c) c.

Definition setSyncBlockedUntil (value : Z) (c : Cycle) : Cycle :=
  set_blocked value (syncBlockedHydrated c) (Some value) c.

(** [now] is [Date.now()] at the call; a timer in the past fires next tick. *)
Definition scheduleCooldownRetry (now : Z) (c : Cycle) : Cycle :=
  match cooldownRetryTimer c with
  | Some _ => c
  | None =>
      let remaining := syncBlockedUntil c - now in
      if SHORT_COOLDOWN_HOLD_MS <? remaining then c else set_retry (Some (now + remaining)) c
  end.

Definition clearSyncBlockedState (c : Cycle) : Cycle := setSyncBlockedUntil 0 (set_retry None c).

(** ** The cycle *)

Definition notifyPeerChanges (c : Cycle) : Cycle := set_poll true (lastEmptyPollAt c) c.

Definition shouldSkipDownload (connected : bool) (c : Cycle) : bool * Cycle :=
  if peerNotified c then (false, c)
  else if negb connected then (false, c)
  else let '(now, c) := date_now c in (now - lastEmptyPollAt c <? DOWNLOAD_SKIP_WINDOW_MS, c).

Definition reset_moved (w : World Srv App) : World Srv App :=
  add_moved (- cycleMovedOps w) (- cycleMovedSignificantOps w) w.

(** Upload, then download unless there is nothing to ask for. Returns
    (moreUpload, moreDownload). *)
Definition uploadThenDownload (connected : bool) (c : Cycle) : (sync_error + bool * bool) * Cycle :=
  let '(r, w) := uploadPending (cy_world c) in
  let c := set_world w c in
  match r with
  | inl e => (inl e, c)
  | inr moreUpload =>
      let '(skip, c) :=
        if negb moreUpload && (countPendingOperations (w_db w) =? 0)
        then shouldSkipDownload connected c else (false, c) in
      if skip then (inr (moreUpload, false), emitStatus StIdle None c)
      else
        let c := set_poll false (lastEmptyPollAt c) c in
        let '(r, w) := downloadAndApply (cy_world c) in
        let c := set_world w c in
        match r with
        | inl e => (inl e, c)
        | inr moreDownload =>
            let c := emitStatus StIdle None c in
            let c := if (cycleMovedOps w =? 0) && negb moreDownload
                     then let '(now, c) := date_now c in set_poll (peerNotified c) now c else c in
            (inr (moreUpload, moreDownload), c)
        end
  end.

Definition cooldown_after (err : sync_error) (c : Cycle) : Cycle :=
  match err with
  | ApiError status _ retryAfterSeconds =>
      if status =? 429 then
        let '(now, c) := date_now c in
        let c := setSyncBlockedUntil
          (now + default DEFAULT_RATE_LIMIT_COOLDOWN_SECONDS retryAfterSeconds * 1000) c in
        let '(now, c) := date_now c in scheduleCooldownRetry now c
      else c
  | _ => c
  end.

(** One pass of the do-while loop. [triggered] is whether another trigger
    arrived while it ran. [None] is the [break] of the catch block. *)
Definition cycle_pass (triggered connected : bool) (chainedCycles chainStartMs : Z) (c : Cycle) :
    option Z * Cycle :=
  let c := set_slot (syncInFlight c) false c in
  let c := set_world (reset_moved (cy_world c)) c in
  let c := emitStatus StSyncing None c in
  let '(r, c) := uploadThenDownload connected c in
  let c := if triggered then set_slot (syncInFlight c) true c else c in
  match r with
  | inl err =>
      let c := cooldown_after err c in
      let c := emitStatus StError (syncErrorCode err) c in
      let c := set_streak (emptyCycleStreak c + 1) c in
      (None, set_slot (syncInFlight c) false c)
  | inr (moreUpload, moreDownload) =>
      let c := set_streak (if cycleMovedSignificantOps (cy_world c) =? 0 then emptyCycleStreak c + 1 else 0) c in
      if moreUpload || moreDownload then
        let chainedCycles := chainedCycles + 1 in
        let '(now, c) := date_now c in
        (Some chainedCycles,
         if shouldChainAnotherCycle true chainedCycles chainStartMs now
         then set_slot (syncInFlight c) true c else c)
      else (Some chainedCycles, c)
  end.

(** [triggers] says of each pass whether a trigger arrived during it; none
    arrives after the list ends. [None]: out of fuel. *)
Fixpoint cycle_loop (fuel : nat) (triggers : list bool) (connected : bool) (chainedCycles chainStartMs : Z)
    (c : Cycle) : option Cycle :=
  match fuel with
  | O => None
  | S fuel =>
      match cycle_pass (default false (head triggers)) connected chainedCycles chainStartMs c with
      | (None, c) => Some c
      | (Some chainedCycles, c) =>
          if rerunRequested c then cycle_loop fuel (tail triggers) connected chainedCycles chainStartMs c
          else Some c
      end
  end.

Definition releaseSyncSlot (c : Cycle) : Cycle := set_slot false (rerunRequested c) c.

Definition runSyncCycle (fuel : nat) (triggers : list bool) (connected : bool) (c : Cycle) : option Cycle :=
  if syncInFlight c then Some (set_slot true true c)
  else
    let c := ensureSyncBlockedUntilHydrated c in
    let '(now, c) := date_now c in
    if now <? syncBlockedUntil c then
      let '(now, c) := date_now c in Some (scheduleCooldownRetry now c)
    else
      let c := set_slot true (rerunRequested c) c in
      let '(chainStartMs, c) := date_now c in
      (fun c => let '(now, c) := date_now c in
                releaseSyncSlot (set_local now (localSyncTimer c) c)) <$>
        cycle_loop fuel triggers connected 0 chainStartMs c.

(** ** The local-sync throttle *)

Definition effectiveLocalSyncIntervalMs (c : Cycle) : Z := local_sync_interval (emptyCycleStreak c).

Definition scheduleLocalSync (delayMs now : Z) (c : Cycle) : Cycle :=
  let minInterval := effectiveLocalSyncIntervalMs c in
  if now - lastLocalSyncFire c <? minInterval then
    match localSyncTimer c with
    | Some _ => c
    | None =>
        let delayMs := Z.max delayMs (minInterval - (now - lastLocalSyncFire c)) in
        if SHORT_LOCAL_SYNC_HOLD_MS <? delayMs then c
        else set_local (lastLocalSyncFire c) (Some (now + delayMs)) c
    end
  else set_local (lastLocalSyncFire c) (Some (now + delayMs)) c.

(** The timer's callback, up to the cycle it starts. *)
Definition fireLocalSync (now : Z) (c : Cycle) : Cycle := set_local now None c.
End cycle.

Arguments Cycle : clear implicits.

(** ** The sync slot

    [runSyncCycle], [downloadEverything] and [runExclusive] share the slot
    [syncInFlight]. A task runs without interruption from one [await] to the
    next; its program counter says which await it stands at. *)

Inductive TaskKind := RunCycle | RunEverything | RunExclusive.

Inductive TaskPc :=
  | Hydrating        (** past the [syncInFlight] test, at [ensureSyncBlockedUntilHydrated] *)
  | Waiting          (** in [syncSlotWaiters] *)
  | Woken            (** resolved, about to test [syncInFlight] again *)
  | Holding          (** doing its work, with [syncInFlight] set by it *)
  | Finished.

#[export] Instance TaskKind_eq_dec : EqDecision TaskKind.
Proof. solve_decision. Defined.
#[export] Instance TaskPc_eq_dec : EqDecision TaskPc.
Proof. solve_decision. Defined.

Record Slot := mkSlot {
  sl_inFlight : bool;
  sl_rerun : bool;
  sl_tasks : list (TaskKind * TaskPc);
}.

Definition initial_slot : Slot := mkSlot false false [].

(** The test at the head of each function, up to its first await. *)
Definition enter (k : TaskKind) (s : Slot) : TaskPc * bool * bool :=
  match k with
  | RunCycle => if sl_inFlight s then (Finished, true, true) else (Hydrating, false, sl_rerun s)
  | RunEverything => if sl_inFlight s then (Waiting, true, sl_rerun s) else (Hydrating, false, sl_rerun s)
  | RunExclusive => if sl_inFlight s then (Waiting, true, sl_rerun s) else (Holding, true, sl_rerun s)
  end.

Definition call (k : TaskKind) (s : Slot) : Slot :=
  let '(pc, inFlight, rerun) := enter k s in mkSlot inFlight rerun (sl_tasks s ++ [(k, pc)]).

(** [releaseSyncSlot]: every waiter's promise resolves. *)
Definition release (s : Slot) : Slot :=
  mkSlot false (sl_rerun s)
    (map (fun t => (t.1, if decide (t.2 = Waiting) then Woken else t.2)) (sl_tasks s)).

Definition set_pc (i : nat) (pc : TaskPc) (s : Slot) : Slot :=
  mkSlot (sl_inFlight s) (sl_rerun s) (alter (fun t => (t.1, pc)) i (sl_tasks s)).

(** The [finally] of a holder. *)
Definition finish (k : TaskKind) (i : nat) (s : Slot) : Slot :=
  let s := release (set_pc i Finished s) in
  match k with
  | RunCycle => s
  | _ => if sl_rerun s then call RunCycle (mkSlot (sl_inFlight s) false (sl_tasks s)) else s
  end.

(** Task [i] runs on to its next await. [blocked] is the outcome of the
    cooldown test. *)
Definition resume (blocked : bool) (i : nat) (s : Slot) : option Slot :=
  match sl_tasks s !! i with
  | Some (k, Hydrating) =>
      Some (if blocked then set_pc i Finished s
            else let s := set_pc i Holding s in mkSlot true (sl_rerun s) (sl_tasks s))
  | Some (k, Woken) =>
      let '(pc, inFlight, rerun) := enter k s in
      let s := set_pc i pc s in Some (mkSlot inFlight rerun (sl_tasks s))
  | Some (k, Holding) => Some (finish k i s)
  | _ => None
  end.

Inductive slot_step (kinds : TaskKind -> Prop) : Slot -> Slot -> Prop :=
  | step_call k s : kinds k -> slot_step kinds s (call k s)
  | step_resume blocked i s s' : resume blocked i s = Some s' -> slot_step kinds s s'.

Definition holders (s : Slot) : nat := length (filter (fun t => t.2 = Holding) (sl_tasks s)).
