(* ===== verification/EngineCycleFacts.v ===== *)
(** * Properties of sync cycles

    Who can hold the sync slot, that a cycle ends, and the spacing of locally
    triggered cycles. *)

From S2P Require Import Prelude JsMap Types Util Storage StorageFacts Conflict Crypto Engine EngineDownload EngineCycle.

Open Scope Z_scope.
Open Scope js_scope.

(** ** The slot *)

Lemma length_filter_app {A} (P : A -> Prop) `{!forall x, Decision (P x)} (l1 l2 : list A) :
  length (filter P (l1 ++ l2)) = (length (filter P l1) + length (filter P l2))%nat.
Proof. by rewrite filter_app, length_app. Qed.

Definition is_holding (t : TaskKind * TaskPc) : Prop := t.2 = Holding.
#[local] Instance is_holding_dec t : Decision (is_holding t).
Proof. unfold is_holding. apply _. Defined.

Definition one (P : Prop) `{Decision P} : nat := if decide P then 1%nat else 0%nat.

Lemma holders_alter f (l : list (TaskKind * TaskPc)) i t :
  l !! i = Some t ->
  (length (filter is_holding (alter f i l)) + one (is_holding t) = length (filter is_holding l) + one (is_holding (f t)))%nat.
Proof.
  revert i. induction l as [|x l IH]; intros [|i] H; [done..| |].
  - injection H as ->. cbn [alter list_alter]. rewrite !filter_cons. unfold one.
    destruct (decide (is_holding t)), (decide (is_holding (f t))); simpl; lia.
  - specialize (IH i H). change (alter f (S i) (x :: l)) with (x :: alter f i l). rewrite !filter_cons.
    destruct (decide (is_holding x)); simpl; lia.
Qed.

Lemma holders_wake (l : list (TaskKind * TaskPc)) :
  length (filter is_holding (map (fun t => (t.1, if decide (t.2 = Waiting) then Woken else t.2)) l)) =
  length (filter is_holding l).
Proof.
  induction l as [|[k pc] l IH]; [done|]. cbn [map fst snd]. rewrite !filter_cons.
  assert (is_holding (k, if decide (pc = Waiting) then Woken else pc) <-> is_holding (k, pc)) as E
    by (unfold is_holding; cbn; by destruct pc).
  destruct (decide (is_holding (k, pc))) as [Hh|Hh], (decide (is_holding (k, if decide (pc = Waiting) then Woken else pc))) as [Hh'|Hh'];
    simpl; try lia; exfalso; tauto.
Qed.

(** Slots that only [runExclusive] competes for. *)
Record exclusive_inv (s : Slot) : Prop := {
  xi_kinds : Forall (fun t => t.1 = RunExclusive /\ t.2 <> Hydrating) (sl_tasks s);
  xi_rerun : sl_rerun s = false;
  xi_holders : length (filter is_holding (sl_tasks s)) = if sl_inFlight s then 1%nat else 0%nat;
}.

Lemma set_pc_kinds i pc (l : list (TaskKind * TaskPc)) :
  pc <> Hydrating -> Forall (fun t => t.1 = RunExclusive /\ t.2 <> Hydrating) l ->
  Forall (fun t => t.1 = RunExclusive /\ t.2 <> Hydrating) (alter (fun t => (t.1, pc)) i l).
Proof.
  intros Hpc H. revert i. induction H as [|t l [? ?] Hl IH]; intros [|i]; cbn; constructor; done.
Qed.

Lemma exclusive_call s : exclusive_inv s -> exclusive_inv (call RunExclusive s).
Proof.
  intros [Hk Hr Hh]. unfold call, enter. destruct (sl_inFlight s) eqn:E; split; cbn [sl_tasks sl_rerun sl_inFlight];
    try done; try (apply Forall_app; split; [done|by repeat constructor]); by rewrite length_filter_app, Hh.
Qed.

Lemma exclusive_resume blocked i s s' : exclusive_inv s -> resume blocked i s = Some s' -> exclusive_inv s'.
Proof.
  intros [Hk Hr Hh]. unfold resume. destruct (sl_tasks s !! i) as [[k pc]|] eqn:E; [|done].
  pose proof (Forall_lookup_1 _ _ _ _ Hk E) as [Hk1 Hk2]. cbn in Hk1, Hk2. subst k.
  destruct pc; try done.
  - (* woken *)
    destruct (sl_inFlight s) eqn:Ef; cbn -[alter]; rewrite Ef; intros [= <-]; split; cbn -[alter]; try done;
      try by apply set_pc_kinds.
    + pose proof (holders_alter (fun t => (t.1, Waiting)) _ _ _ E) as H. cbn in H. unfold one in H.
      rewrite !decide_False in H by done. lia.
    + pose proof (holders_alter (fun t => (t.1, Holding)) _ _ _ E) as H. unfold one in H.
      rewrite decide_False, decide_True in H by done. lia.
  - (* holding *)
    intros [= <-]. unfold finish, release, set_pc. cbn -[alter]. rewrite Hr. cbn -[alter].
    split; cbn -[alter]; try done.
    + apply Forall_map. eapply Forall_impl; [by apply (set_pc_kinds i Finished)|].
      intros [k pc] [? ?]. cbn in *. by destruct pc.
    + rewrite holders_wake. pose proof (holders_alter (fun t => (t.1, Finished)) _ _ _ E) as H. unfold one in H.
      rewrite decide_True, decide_False in H by done. destruct (sl_inFlight s); lia.
Qed.



(** [runSyncCycle] can enter an occupied slot. It tests [syncInFlight],
    awaits the stored cooldown, and sets the flag without testing again: when
    a holder finishes while another [runExclusive] waits and a trigger has
    asked for a rerun, the rerun passes the test first, the waiter then takes
    the slot, and the rerun takes it again. The waiter's work and a whole sync
    cycle run at once. *)
Theorem cycle_overlaps_exclusive :
  exists s, rtc (slot_step (fun _ => True)) initial_slot s /\
    (RunExclusive, Holding) ∈ sl_tasks s /\ (RunCycle, Holding) ∈ sl_tasks s /\ holders s = 2%nat.
Proof.
  eexists. split.
  - eapply rtc_l; [by apply (step_call _ RunExclusive)|].
    eapply rtc_l; [by apply (step_call _ RunExclusive)|].
    eapply rtc_l; [by apply (step_call _ RunCycle)|].
    eapply rtc_l; [by apply (step_resume _ false 0%nat)|].
    eapply rtc_l; [by apply (step_resume _ false 1%nat)|].
    eapply rtc_l; [by apply (step_resume _ false 3%nat)|]. apply rtc_refl.
  - cbn. split_and!; [set_solver|set_solver|reflexivity].
Qed.

(** ** Termination of a cycle *)

Section cycle.
Context {Srv App : Type} `{Env : EngineEnv Srv App}.

Lemma shouldSkipDownload_rerun connected (c : Cycle Srv App) :
  rerunRequested (shouldSkipDownload connected c).2 = rerunRequested c.
Proof. unfold shouldSkipDownload, date_now. by destruct (peerNotified c), connected. Qed.

(** Uploading and downloading leave the rerun flag alone. *)
Lemma uploadThenDownload_rerun connected (c : Cycle Srv App) r c' :
  uploadThenDownload connected c = (r, c') -> rerunRequested c' = rerunRequested c.
Proof.
  unfold uploadThenDownload. destruct (uploadPending (cy_world c)) as [[e|more] w]; [by intros [= <- <-]|].
  set (q := if negb more && _ then _ else _).
  assert (rerunRequested q.2 = rerunRequested c) as Hq.
  { unfold q. destruct (negb more && _); [|done]. by rewrite shouldSkipDownload_rerun. }
  destruct q as [[] c1]; cbn in Hq; [by intros [= <- <-]|].
  destruct (downloadAndApply _) as [[e|md] w']; [by intros [= <- <-]|].
  destruct (_ && negb md); by intros [= <- <-].
Qed.

(** A pass asks for another one only for a trigger or within the chain. *)
Lemma cycle_pass_rerun triggered connected n t0 (c : Cycle Srv App) n' c' :
  cycle_pass triggered connected n t0 c = (Some n', c') ->
  n <= n' /\ (rerunRequested c' = true -> triggered = true \/ (n' = n + 1 /\ n' < MAX_CHAINED_CYCLES)).
Proof.
  unfold cycle_pass. set (c1 := emitStatus _ _ _).
  assert (rerunRequested c1 = false) as H1 by done.
  assert (forall r c2, uploadThenDownload connected c1 = (r, c2) -> rerunRequested c2 = false) as H2.
  { intros r c2 E. by rewrite (uploadThenDownload_rerun _ _ _ _ E). }
  destruct (uploadThenDownload connected c1) as [r c2] eqn:Eu. specialize (H2 r c2 eq_refl).
  clearbody c1. set (c3 := if triggered then _ else _).
  assert (rerunRequested c3 = true -> triggered = true) as H3.
  { unfold c3. destruct triggered; [done|]. congruence. }
  destruct r as [err|[mu md]]; [done|].
  destruct (mu || md); intros [= <- <-].
  - split; [lia|]. intros Hr. destruct (shouldChainAnotherCycle _ _ _ _) eqn:Es; [right|left; by apply H3].
    unfold shouldChainAnotherCycle in Es. apply andb_true_iff in Es as [[_ Es]%andb_true_iff _]. lia.
  - split; [lia|]. intros Hr. left. by apply H3.
Qed.

Lemma cycle_loop_fuel fuel triggers connected n t0 (c : Cycle Srv App) :
  0 <= n -> Z.of_nat (length triggers) + Z.max 0 (MAX_CHAINED_CYCLES - n) < Z.of_nat fuel ->
  exists c', cycle_loop fuel triggers connected n t0 c = Some c'.
Proof.
  revert triggers n c. induction fuel as [|fuel IH]; intros triggers n c Hn Hf; [lia|]. cbn [cycle_loop].
  destruct (cycle_pass _ _ _ _ c) as [[n'|] c'] eqn:E; [|eauto].
  apply cycle_pass_rerun in E as [Hle Hr]. destruct (rerunRequested c') eqn:Er; [|eauto].
  apply IH; [lia|]. destruct triggers as [|b triggers]; cbn in *.
  - destruct (Hr eq_refl) as [?|[? ?]]; [done|]. lia.
  - lia.
Qed.
End cycle.

(** A sync cycle ends: with [n] triggers arriving during it, [n + 5]
    passes are enough, whatever the server keeps offering, because backlog
    alone chains at most four. *)
Theorem runSyncCycle_terminates `{Env : EngineEnv Srv App} triggers connected (c : Cycle Srv App) :
  exists c', runSyncCycle (length triggers + 5) triggers connected c = Some c'.
Proof.
  unfold runSyncCycle. destruct (syncInFlight c); [eauto|]. cbn -[cycle_loop Nat.add].
  destruct (_ <? _); [eauto|]. cbn -[cycle_loop Nat.add].
  match goal with |- context [cycle_loop ?f triggers connected 0 ?t ?c0] =>
    destruct (cycle_loop_fuel f triggers connected 0 t c0) as [c' ->] end; [lia| |by eexists].
  unfold MAX_CHAINED_CYCLES. lia.
Qed.

(** ** The throttle *)

Lemma local_sync_interval_bounds n : 0 <= n ->
  LOCAL_SYNC_MIN_INTERVAL_MS <= local_sync_interval n <= LOCAL_SYNC_MAX_INTERVAL_MS.
Proof.
  intros Hn. unfold local_sync_interval, LOCAL_SYNC_MIN_INTERVAL_MS, LOCAL_SYNC_MAX_INTERVAL_MS.
  assert (0 < 2 ^ (n / 2)) by (apply Z.pow_pos_nonneg; [lia|apply Z.div_pos; lia]). lia.
Qed.

(** Locally triggered cycles are spaced: a timer newly armed by
    [scheduleLocalSync] never fires before the throttle interval (between ten
    and sixty seconds) has passed since the last cycle, nor later than asked
    for or thirty seconds from now, whichever is later; and while one is
    armed inside the interval, further changes arm nothing. *)
Theorem scheduleLocalSync_spaced `{Env : EngineEnv Srv App} delay now (c : Cycle Srv App) :
  0 <= emptyCycleStreak c -> 0 <= delay ->
  let interval := effectiveLocalSyncIntervalMs c in
  10000 <= interval <= 60000 /\
  match localSyncTimer (scheduleLocalSync delay now c) with
  | Some t => localSyncTimer c = Some t \/
              (lastLocalSyncFire c + interval <= t /\ now <= t <= now + Z.max delay 30000)
  | None => localSyncTimer c = None
  end.
Proof.
  intros Hs Hd interval. pose proof (local_sync_interval_bounds _ Hs) as Hb. fold (effectiveLocalSyncIntervalMs c) in Hb.
  fold interval in Hb. unfold LOCAL_SYNC_MIN_INTERVAL_MS, LOCAL_SYNC_MAX_INTERVAL_MS in Hb. split; [done|].
  unfold scheduleLocalSync. fold interval. destruct (Z.ltb_spec (now - lastLocalSyncFire c) interval) as [Hlt|Hge].
  - destruct (localSyncTimer c) as [t|] eqn:Et; [rewrite Et; auto|].
    destruct (Z.ltb_spec SHORT_LOCAL_SYNC_HOLD_MS (Z.max delay (interval - (now - lastLocalSyncFire c)))); [by rewrite Et|].
    cbn. right. unfold SHORT_LOCAL_SYNC_HOLD_MS in *. lia.
  - cbn. right. lia.
Qed.
