(* ===== verification/EngineExample.v ===== *)
(** * A concrete engine environment

    A server that accepts every upload but the operation "late", and serves one
    page of two operations, the second from a newer client; appliers that
    succeed. The engine's theorems are instantiated on it. *)

From S2P Require Import Prelude JsMap Types Util Storage StorageFacts Conflict Json Crypto CryptoFacts Engine EngineUploadFacts EngineDownload EngineDownloadFacts EngineCycle EngineCycleFacts.

Open Scope Z_scope.
Open Scope js_scope.

Definition ex_page : DownloadResponse := {|
  down_operations := [
    mkOperationOut "x1" "peer" 1 5 OtTab "t1" OpUpdate 0 JNull 1 "now";
    mkOperationOut "x2" "peer" 2 6 OtTab "t2" OpUpdate 1 (JObj [("v", JNum 3)]) 2 "now"];
  down_nextCursor := 2;
  down_hasMore := false;
|}.

#[local] Instance ex_env : EngineEnv unit unit := {|
  env_crypto := toy_crypto;
  env_uuid n := "u" +:+ json_num (Z.of_nat n);
  env_nonce n := [Z.of_nat n];
  env_now n := Z.of_nat n;
  env_iso n := "now";
  uploadOperations srv ops :=
    (inr (mkUploadResponse
       (filter (fun id => id <> "late") (map operationId ops)) []
       (map (fun id => mkUploadRejection id "object_not_found") (filter (fun id => id = "late") (map operationId ops))) 7), srv);
  downloadChanges srv c := (inr ex_page, srv);
  fetchSnapshot srv := (inl NetworkError, srv);
  appliers t := Some (fun _ _ x => (inr tt, x));
  batchAppliers t := match t with OtBookmark => Some (fun _ x => (inr tt, x)) | _ => None end;
  preSnapshotHooks := [];
|}.

Definition ex_device : DeviceRecord :=
  mkDevice "" "me" "" "" "" "" "" "AAAA" 1 None None None None None None None None None None None.

Definition ex_op (id : string) (n : Z) : LocalOperation :=
  mkLocalOperation id n n OtTab "t" OpUpdate 1 JNull None None.

Definition ex_world : World unit unit :=
  mkWorld (set_device (Some ex_device) (enqueueOperationsBatch [ex_op "a" 1; ex_op "late" 2] "now" emptyDB))
    tt tt [] 0 0 0 [] [] [].

Lemma ex_appliers_ok : appliers_ok ex_env.
Proof.
  split_and!.
  - by intros t f op p [= <-].
  - intros t f items H. destruct t; try done. by injection H as <-.
  - by intros f []%not_elem_of_nil.
Qed.

(** Both requests' outcomes at once: "a" leaves the queue, "late" stays with
    one attempt. *)
Example ex_upload :
  let w' := (uploadPending ex_world).2 in
  (attempts <$> pending_operations (w_db w') !! "late") = Some 1 /\
  pending_operations (w_db w') !! "a" = None.
Proof. vm_compute. done. Qed.

Lemma uploadPending_fates_witness :
  exists log, w_responses (uploadPending ex_world).2 = w_responses ex_world ++ log /\
  forall id r0, pending_operations (w_db ex_world) !! id = Some r0 ->
    match pending_operations (w_db (uploadPending ex_world).2) !! id with
    | Some r => operation r = operation r0 /\
        (attempts r = attempts r0 \/ exists resp, resp ∈ log /\ not_found id resp)
    | None => (exists resp, resp ∈ log /\ judged id resp) \/ MAX_UPLOAD_ATTEMPTS <= attempts r0
    end.
Proof.
  apply (uploadPending_fates ex_world).
  - exact (wf_pending _ (enqueue_wf [ex_op "a" 1; ex_op "late" 2] "now" emptyDB emptyDB_wf)).
  - intros n. unfold ex_world. cbn [w_db set_device pending_operations enqueueOperationsBatch set_pending].
    rewrite putAllChunked_map. cbn [foldl emptyDB pending_operations]. unfold put_queued.
    rewrite !lookup_insert_ne by discriminate. apply lookup_empty.
Defined.


Lemma downloadAndApply_cursor_safe_witness :
  cursor_ok (stored_cursor (w_db ex_world)) (downloadAndApply ex_world).2.
Proof. apply (downloadAndApply_cursor_safe ex_world), ex_appliers_ok. Defined.

(** The cycle stops at the newer envelope: "x1" is recorded, "x2" is not, and
    the cursor stays. *)
Example ex_download :
  (downloadAndApply ex_world).1 = inl (UnsupportedEnvelope 3) /\
  is_some (applied_operations (w_db (downloadAndApply ex_world).2) !! "x1") = true /\
  is_some (applied_operations (w_db (downloadAndApply ex_world).2) !! "x2") = false /\
  stored_cursor (w_db (downloadAndApply ex_world).2) = 0.
Proof. vm_compute. done. Qed.

(** An engine that fired at 1000, after four empty cycles. *)
Definition ex_cycle : Cycle unit unit :=
  mkCycle ex_world 0 true None None false false false 0 4 1000 None [].

(** At 15000 the 40 s interval has 26 s left: the 250 ms debounce is stretched
    to it. At 3000, with 38 s left, nothing is armed. *)
Example ex_throttle :
  localSyncTimer (scheduleLocalSync LOCAL_SYNC_DEBOUNCE_MS 15000 ex_cycle) = Some 41000 /\
  localSyncTimer (scheduleLocalSync LOCAL_SYNC_DEBOUNCE_MS 3000 ex_cycle) = None.
Proof. vm_compute. done. Qed.

Lemma scheduleLocalSync_spaced_witness :
  let c := ex_cycle in
  let interval := effectiveLocalSyncIntervalMs c in
  10000 <= interval <= 60000 /\
  match localSyncTimer (scheduleLocalSync LOCAL_SYNC_DEBOUNCE_MS 15000 c) with
  | Some t => localSyncTimer c = Some t \/
              (lastLocalSyncFire c + interval <= t /\ 15000 <= t <= 15000 + Z.max LOCAL_SYNC_DEBOUNCE_MS 30000)
  | None => localSyncTimer c = None
  end.
Proof. apply (scheduleLocalSync_spaced LOCAL_SYNC_DEBOUNCE_MS 15000 ex_cycle); discriminate. Defined.
