(* ===== verification/RestorePoints.v ===== *)
(** * Restore points: format and capture
    (extension/src/restore-points/format.ts, snapshot.ts; bookmarks/roots.ts)

    The plaintext of a restore point, its encryption and validation, and the
    walk that builds its nodes from the live bookmark tree. The walk's stack
    loop runs on fuel; [buildPointNodes_spec] shows it is always enough. *)

From S2P Require Import Prelude FractionalIndex JsMap Types Util Json Crypto.

Open Scope Z_scope.
Open Scope js_scope.

(** ** Built-in roots (bookmarks/roots.ts) *)

Definition ROOT_OBJECT_IDS : jmap string string :=
  [("0", "00000000-0000-7000-8000-000000000000"); ("1", "00000000-0000-7000-8000-000000000001");
   ("2", "00000000-0000-7000-8000-000000000002"); ("3", "00000000-0000-7000-8000-000000000003")].

Definition ROOT_IDS : jset string := js_of_list (jm_values ROOT_OBJECT_IDS).

(** ** Nodes and points *)

Inductive NodeKind := KBookmark | KFolder.
#[export] Instance NodeKind_eq_dec : EqDecision NodeKind.
Proof. solve_decision. Defined.

Definition NodeKind_str (k : NodeKind) : string := match k with KBookmark => "b" | KFolder => "f" end.

Record PointNode := mkPointNode {
  pn_o : string;          (** objectId *)
  pn_k : NodeKind;
  pn_t : string;          (** title *)
  pn_u : option string;   (** url, bookmarks only *)
  pn_p : string;          (** parent objectId *)
  pn_x : string;          (** fractional position *)
}.
#[export] Instance PointNode_eq_dec : EqDecision PointNode.
Proof. solve_decision. Defined.

Inductive RestorePointKind := RkManual | RkScheduled | RkPreRestore | RkPreImport | RkPreResync | RkMassDelete.
Definition RestorePointKind_str (k : RestorePointKind) : string :=
  match k with
  | RkManual => "manual" | RkScheduled => "scheduled" | RkPreRestore => "pre_restore"
  | RkPreImport => "pre_import" | RkPreResync => "pre_resync" | RkMassDelete => "mass_delete"
  end.

Definition POINT_VERSION : Z := 1.

(** [v] is [POINT_VERSION] and so not a field. *)
Record PointPlaintext := mkPoint {
  pt_createdAt : string;
  pt_deviceId : string;
  pt_kind : RestorePointKind;
  pt_nodes : list PointNode;
}.

Inductive point_error :=
  | UnreadableRestorePointError (reason : string)
  | UnsupportedRestorePointVersionError (v : Z)
  | PointEnvelopeVersion (v : Z).

(** ** Validation (format.ts) *)

Definition is_hex (c : ascii) : bool := match hex_value c with Some _ => true | None => false end.

(** The groups of [UUID], of the given lengths, joined by hyphens. *)
Fixpoint hex_groups (groups : list nat) (cs : list ascii) : bool :=
  match groups with
  | [] => false
  | [n] => Nat.eqb (length cs) n && forallb is_hex cs
  | n :: groups =>
      Nat.eqb (length (take n cs)) n && forallb is_hex (take n cs) &&
      match drop n cs with
      | c :: cs => Ascii.eqb c "-" && hex_groups groups cs
      | [] => false
      end
  end.
Definition is_uuid (s : string) : bool := hex_groups [8; 4; 4; 4; 12]%nat (list_ascii_of_string s).

Definition KINDS : list RestorePointKind :=
  [RkManual; RkScheduled; RkPreRestore; RkPreImport; RkPreResync; RkMassDelete].
Definition kind_of_str (s : string) : option RestorePointKind :=
  head (filter (fun k => RestorePointKind_str k = s) KINDS).

(** One node, given the ids seen so far. *)
Definition validateNode (seen : jset string) (raw : jsval) : point_error + PointNode :=
  let fail reason := inl (UnreadableRestorePointError reason) in
  if negb (is_object raw) then fail "bad node"
  else match jget raw "o" with
  | JStr o =>
    if negb (is_uuid o) then fail "bad node id"
    else if js_has ROOT_IDS o || js_has seen o then fail "duplicate or root node"
    else
      let k := jget raw "k" in
      if negb (js_eq_str k "b") && negb (js_eq_str k "f") then fail "bad node kind"
      else match jget raw "t" with
      | JStr t =>
        match jget raw "x" with
        | JStr x =>
          if String.eqb x "" then fail "bad position"
          else match jget raw "p" with
          | JStr p =>
            if negb (js_has ROOT_IDS p || js_has seen p) then fail "bad parent"
            else if js_eq_str k "b" then
              match jget raw "u" with
              | JStr u => inr (mkPointNode o KBookmark t (Some u) p x)
              | _ => fail "bookmark without a url"
              end
            else
              match jget raw "u" with
              | JUndef => inr (mkPointNode o KFolder t None p x)
              | _ => fail "folder with a url"
              end
          | _ => fail "bad parent"
          end
        | _ => fail "bad position"
        end
      | _ => fail "bad title"
      end
  | _ => fail "bad node id"
  end.

Fixpoint validateNodes (seen : jset string) (raws : list jsval) : point_error + list PointNode :=
  match raws with
  | [] => inr []
  | raw :: raws =>
      match validateNode seen raw with
      | inl e => inl e
      | inr n =>
          match validateNodes (js_add seen (pn_o n)) raws with
          | inl e => inl e
          | inr ns => inr (n :: ns)
          end
      end
  end.

(** [Number.isNaN(Date.parse(s))]: beyond the ISO format, which strings parse
    is up to the platform. *)
Class DateParser := { date_parses : string -> bool }.

Section format.
Context `{DateParser}.

Definition validatePoint (value : jsval) : point_error + PointPlaintext :=
  let fail reason := inl (UnreadableRestorePointError reason) in
  if negb (is_object value) then fail "not an object"
  else match jget value "v" with
  | JNum v =>
    if negb (v =? POINT_VERSION) then inl (UnsupportedRestorePointVersionError v)
    else match jget value "createdAt" with
    | JStr createdAt =>
      if negb (date_parses createdAt) then fail "bad date"
      else match jget value "deviceId" with
      | JStr deviceId =>
        match jget value "kind" with
        | JStr kind =>
          match kind_of_str kind with
          | Some kind =>
            match jget value "nodes" with
            | JArr raws =>
              match validateNodes [] raws with
              | inl e => inl e
              | inr nodes => inr (mkPoint createdAt deviceId kind nodes)
              end
            | _ => fail "no nodes"
            end
          | None => fail "bad kind"
          end
        | _ => fail "bad kind"
        end
      | _ => fail "bad device"
      end
    | _ => fail "bad date"
    end
  | _ => fail "missing version"
  end.

(** ** Encoding (format.ts) *)

(** The objects the code builds and stringifies. *)
Definition node_jsval (n : PointNode) : jsval :=
  JObj ([("o", JStr (pn_o n)); ("k", JStr (NodeKind_str (pn_k n))); ("t", JStr (pn_t n))]
        ++ match pn_u n with Some u => [("u", JStr u)] | None => [] end
        ++ [("p", JStr (pn_p n)); ("x", JStr (pn_x n))]).

Definition point_jsval (p : PointPlaintext) : jsval :=
  JObj [("v", JNum POINT_VERSION); ("createdAt", JStr (pt_createdAt p)); ("deviceId", JStr (pt_deviceId p));
        ("kind", JStr (RestorePointKind_str (pt_kind p))); ("nodes", JArr (map node_jsval (pt_nodes p)))].

Definition RESTORE_POINT_AAD_OBJECT_TYPE : string := "bookmarkRestorePoint".
Definition RESTORE_POINT_AAD_OPERATION_TYPE : string := "snapshot".
Definition pointAad (pointId : string) : bytes :=
  buildOperationAad RESTORE_POINT_AAD_OBJECT_TYPE pointId RESTORE_POINT_AAD_OPERATION_TYPE.
End format.

(** The platform's [CompressionStream] and [DecompressionStream]
    (util/compression.ts): [inflateRaw] rejects invalid data. *)
Class Deflate := {
  supportsDeflateRaw : bool;
  deflateRaw : bytes -> bytes;
  inflateRaw : bytes -> option bytes;
}.

Section encoding.
Context `{DateParser, Deflate, CryptoLib} (native : option NativeB64).

(** The envelope, and whether it carries the codec marker. *)
Definition encodePoint (nonce : bytes) (point : PointPlaintext) (pointId : string) (sdek : bytes) (keyVersion : Z) :
    jsval * bool :=
  let json := utf8_encode (JSON_stringify (point_jsval point)) in
  let codec := supportsDeflateRaw in
  let b := if codec then deflateRaw json else json in
  (encryptBytesWithSdek native nonce b sdek keyVersion (pointAad pointId), codec).

Definition decodePoint (envelope : jsval) (codec : bool) (pointId : string) (resolveSdek : Z -> option bytes) :
    point_error + PointPlaintext :=
  match assertSupportedEnvelopeVersion envelope with
  | inl (UnsupportedEnvelopeVersionError v) => inl (PointEnvelopeVersion v)
  | inl _ => inl (UnreadableRestorePointError "malformed envelope")
  | inr _ =>
    match jget envelope "keyVersion" with
    | JNum keyVersion =>
      match (match resolveSdek keyVersion with
             | Some sdek => match decryptBytesWithSdek native envelope sdek (pointAad pointId) with
                            | inr plain => Some plain
                            | inl _ => None
                            end
             | None => None
             end) with
      | None => inl (UnreadableRestorePointError "it failed authentication")
      | Some plain =>
        match (match (if codec then inflateRaw plain else Some plain) with
               | Some b => JSON_parse (utf8_decode b)
               | None => None
               end) with
        | None => inl (UnreadableRestorePointError "it is not valid data")
        | Some parsed => validatePoint parsed
        end
      end
    | _ => inl (UnreadableRestorePointError "malformed envelope")
    end
  end.
End encoding.

(** ** Capture (snapshot.ts) *)

Record LiveBookmarkNode := mkLive {
  lb_chromiumId : string;
  lb_objectId : string;
  lb_kind : NodeKind;
  lb_title : string;
  lb_url : option string;
  lb_parentObjectId : string;
  lb_position : option string;
  lb_unmodifiable : bool;
}.
#[export] Instance LiveBookmarkNode_eq_dec : EqDecision LiveBookmarkNode.
Proof. solve_decision. Defined.

(** [Object.keys(ROOT_OBJECT_IDS).sort()]: the keys are "0" to "3". *)
Definition ROOT_ORDER : list string := omap (jm_get ROOT_OBJECT_IDS) ["0"; "1"; "2"; "3"].

Definition after (prev : option string) (x : string) : bool :=
  match prev with Some p => str_ltb p x | None => true end.

(** A sibling's own position, if it is usable and comes after [prev]. *)
Definition usable_after (prev : option string) (n : LiveBookmarkNode) : option string :=
  match lb_position n with
  | Some own => if negb (String.eqb own "") && after prev own then Some own else None
  | None => None
  end.

(** The inner [for] loop: the first usable later position. *)
Definition next_usable (prev : option string) (later : list LiveBookmarkNode) : option string :=
  head (omap (usable_after prev) later).

Fixpoint normalizePositions (prev : option string) (siblings : list LiveBookmarkNode) : kb_error + list string :=
  match siblings with
  | [] => inr []
  | n :: later =>
      match (match usable_after prev n with
             | Some own => inr own
             | None => keyBetween prev (next_usable prev later)
             end) with
      | inl e => inl e
      | inr key =>
          match normalizePositions (Some key) later with
          | inl e => inl e
          | inr positions => inr (key :: positions)
          end
      end
  end.

Definition add_child (childrenOf : jmap string (list LiveBookmarkNode)) (n : LiveBookmarkNode) :=
  jm_set childrenOf (lb_parentObjectId n) (default [] (jm_get childrenOf (lb_parentObjectId n)) ++ [n]).

(** [list.splice(at, 0, node)], or a push where no sibling is found. *)
Definition insert_removed (l : list LiveBookmarkNode) (n : LiveBookmarkNode) : list LiveBookmarkNode :=
  match (match lb_position n with
         | None => None
         | Some x => find_index (fun s => match lb_position s with Some y => str_ltb x y | None => false end) l
         end) with
  | None => l ++ [n]
  | Some i => take i l ++ n :: drop i l
  end.

Definition add_removed (liveIds : jset string) (childrenOf : jmap string (list LiveBookmarkNode))
    (n : LiveBookmarkNode) : jmap string (list LiveBookmarkNode) :=
  if js_has liveIds (lb_objectId n) then childrenOf
  else jm_set childrenOf (lb_parentObjectId n)
         (insert_removed (default [] (jm_get childrenOf (lb_parentObjectId n))) n).

Definition children_map (live extra : list LiveBookmarkNode) : jmap string (list LiveBookmarkNode) :=
  foldl (add_removed (js_of_list (map lb_objectId live))) (foldl add_child [] live) extra.

(** A stack frame: the siblings not yet visited, with their positions. *)
Definition Frame : Type := list (LiveBookmarkNode * string).

Definition push_children (childrenOf : jmap string (list LiveBookmarkNode)) (parentId : string)
    (stack : list Frame) : kb_error + list Frame :=
  match filter (fun n => lb_unmodifiable n = false) (default [] (jm_get childrenOf parentId)) with
  | [] => inr stack
  | siblings =>
      match normalizePositions None siblings with
      | inl e => inl e
      | inr positions => inr (zip siblings positions :: stack)
      end
  end.

Definition point_node (n : LiveBookmarkNode) (x : string) : PointNode :=
  mkPointNode (lb_objectId n) (lb_kind n) (lb_title n)
    (match lb_kind n with KBookmark => lb_url n | KFolder => None end) (lb_parentObjectId n) x.

(** The [while (stack.length > 0)] loop; the head of the list is the top. *)
Fixpoint build_loop (fuel : nat) (childrenOf : jmap string (list LiveBookmarkNode)) (stack : list Frame)
    (out : list PointNode) : kb_error + list PointNode :=
  match fuel with
  | O => inl OutOfFuel
  | S fuel =>
      match stack with
      | [] => inr out
      | [] :: stack => build_loop fuel childrenOf stack out
      | ((n, x) :: rest) :: stack =>
          let stack := rest :: stack in
          match (if bool_decide (lb_kind n = KFolder) then push_children childrenOf (lb_objectId n) stack
                 else inr stack) with
          | inl e => inl e
          | inr stack => build_loop fuel childrenOf stack (out ++ [point_node n x])
          end
      end
  end.

Fixpoint push_roots (childrenOf : jmap string (list LiveBookmarkNode)) (roots : list string) (stack : list Frame) :
    kb_error + list Frame :=
  match roots with
  | [] => inr stack
  | r :: roots =>
      match push_children childrenOf r stack with
      | inl e => inl e
      | inr stack => push_roots childrenOf roots stack
      end
  end.

Definition buildPointNodes (live extra : list LiveBookmarkNode) : kb_error + list PointNode :=
  let childrenOf := children_map live extra in
  match push_roots childrenOf (rev ROOT_ORDER) [] with
  | inl e => inl e
  | inr stack => build_loop (2 * (length live + length extra) + 5) childrenOf stack []
  end.

(** What [captureNodes] captures, given what [readLiveBookmarks] returned. *)
Inductive CaptureMode := CaptureFull | CaptureMappedOnly | CapturePlusRemoved (removed : list LiveBookmarkNode).

Inductive capture_error := BookmarksNotReadyError (unmapped : Z) | CapturePosition (e : kb_error).

Definition captureNodes (mode : CaptureMode) (nodes : list LiveBookmarkNode) (unmapped : Z) :
    capture_error + list PointNode :=
  match mode with
  | CaptureFull => if 0 <? unmapped then inl (BookmarksNotReadyError unmapped) else
      match buildPointNodes nodes [] with inl e => inl (CapturePosition e) | inr ns => inr ns end
  | CaptureMappedOnly => match buildPointNodes nodes [] with inl e => inl (CapturePosition e) | inr ns => inr ns end
  | CapturePlusRemoved removed =>
      match buildPointNodes nodes removed with inl e => inl (CapturePosition e) | inr ns => inr ns end
  end.

(** Hex of the digest of the nodes' JSON. *)
Definition hashNodes `{CryptoLib} (nodes : list PointNode) : string :=
  String.concat "" (map HEX_TABLE (sha256 (utf8_encode (JSON_stringify (JArr (map node_jsval nodes)))))).
