(* ===== verification/RestorePointsFacts.v ===== *)
(** * Properties of restore points

    Validation accepts exactly well-formed trees, decoding undoes encoding and
    nothing else opens a point, positions are made strictly increasing, and
    the capture walk yields a valid tree of everything reachable. *)

From S2P Require Import Prelude FractionalIndex JsMap Types Util Json Crypto CryptoFacts RestorePoints.

Open Scope Z_scope.
Open Scope js_scope.

#[local] Opaque ROOT_IDS.

(** ** Well-formed points *)

Definition node_ok (n : PointNode) : Prop :=
  is_uuid (pn_o n) = true /\ (pn_o n ∉ ROOT_IDS) /\ pn_x n <> "" /\
  match pn_k n with KBookmark => pn_u n <> None | KFolder => pn_u n = None end.

(** Parents first, after the ids in [seen]. *)
Fixpoint forest (seen : list string) (ns : list PointNode) : Prop :=
  match ns with
  | [] => True
  | n :: ns =>
      node_ok n /\ (pn_o n ∉ seen) /\ (pn_p n ∈ ROOT_IDS \/ pn_p n ∈ seen) /\ forest (pn_o n :: seen) ns
  end.

Lemma forest_seen s s' ns : (forall x, x ∈ s <-> x ∈ s') -> forest s ns -> forest s' ns.
Proof.
  revert s s'. induction ns as [|n ns IH]; intros s s' H; [done|]. cbn. intros (? & ? & ? & Hf).
  split_and!; [done|by rewrite <- H|by rewrite <- H|]. eapply IH, Hf. intros x. rewrite !elem_of_cons. by rewrite H.
Qed.

Lemma forest_app seen ns ns' :
  forest seen (ns ++ ns') <-> forest seen ns /\ forest (map pn_o ns ++ seen) ns'.
Proof.
  revert seen. induction ns as [|n ns IH]; intros seen; cbn; [tauto|]. rewrite IH.
  assert (forest (map pn_o ns ++ pn_o n :: seen) ns' <-> forest (pn_o n :: map pn_o ns ++ seen) ns') as ->; [|tauto].
  split; apply forest_seen; intros x; rewrite !elem_of_cons, !elem_of_app, ?elem_of_cons; tauto.
Qed.

(** The same without the accumulator: ids are unique, and each parent is a
    root or stands earlier. *)
Definition point_tree (ns : list PointNode) : Prop :=
  NoDup (map pn_o ns) /\
  forall i n, ns !! i = Some n ->
    node_ok n /\ (pn_p n ∈ ROOT_IDS \/ exists j m, (j < i)%nat /\ ns !! j = Some m /\ pn_o m = pn_p n).

Lemma forest_tree ns : forest [] ns <-> point_tree ns.
Proof.
  induction ns as [|n ns IH] using rev_ind.
  { split; [|done]. intros _. split; [apply NoDup_nil_2|done]. }
  rewrite forest_app, IH. unfold point_tree. rewrite map_app, NoDup_app. cbn [map forest]. split.
  - intros [[Hnd Ht] (Hok & Hns & Hp & _)]. split.
    + split_and!; [done| |apply NoDup_singleton]. set_solver.
    + intros i m. rewrite lookup_app_Some. intros [Hi|[Hi Hm]].
      * destruct (Ht _ _ Hi) as [? [?|(j & m' & ? & Hj & ?)]]; split; auto. right. exists j, m'.
        split_and!; [done| |done]. by apply lookup_app_l_Some.
      * destruct (i - length ns)%nat eqn:E; [|done]. injection Hm as <-. split; [done|].
        destruct Hp as [?|Hp]; [by left|right]. rewrite app_nil_r in Hp.
        apply list_elem_of_fmap in Hp as (m' & Hm' & [j Hj]%list_elem_of_lookup). exists j, m'.
        pose proof (lookup_lt_Some _ _ _ Hj). split_and!; [lia| |done]. by apply lookup_app_l_Some.
  - intros [(Hnd & Hd & _) Ht]. split; [split; [done|]|split; [|split; [|split; [|done]]]].
    + intros i m Hi. destruct (Ht i m) as [? [?|(j & m' & Hj & Hm' & ?)]]; [by apply lookup_app_l_Some|auto|].
      split; [done|]. right. exists j, m'. pose proof (lookup_lt_Some _ _ _ Hi).
      rewrite lookup_app_l in Hm' by lia. done.
    + apply (Ht (length ns) n). by rewrite list_lookup_middle.
    + rewrite app_nil_r. intros Hin. apply (Hd _ Hin). by left.
    + rewrite app_nil_r. destruct (Ht (length ns) n) as [_ [?|(j & m & Hj & Hm & <-)]]; [by rewrite list_lookup_middle|by left|].
      right. rewrite lookup_app_l in Hm by done. apply list_elem_of_fmap. exists m. split; [done|by eapply list_elem_of_lookup_2].
Qed.

(** ** Validation *)

Lemma js_has_true {K} `{EqDecision K} (s : jset K) k : js_has s k = true <-> k ∈ s.
Proof. unfold js_has. by rewrite bool_decide_eq_true. Qed.
Lemma js_has_false {K} `{EqDecision K} (s : jset K) k : js_has s k = false <-> k ∉ s.
Proof. unfold js_has. by rewrite bool_decide_eq_false. Qed.

Lemma validateNode_sound seen raw n : validateNode seen raw = inr n ->
  node_ok n /\ (pn_o n ∉ seen) /\ (pn_p n ∈ ROOT_IDS \/ pn_p n ∈ seen).
Proof.
  unfold validateNode, node_ok. destruct (negb (is_object raw)); [done|].
  destruct (jget raw "o") as [| | | |o| |]; try done. destruct (is_uuid o) eqn:Eu; [|done]. cbn [negb].
  destruct (js_has ROOT_IDS o || js_has seen o) eqn:Es; [done|].
  apply orb_false_iff in Es as [Hr%js_has_false Hs%js_has_false].
  destruct (negb (js_eq_str (jget raw "k") "b") && _); [done|].
  destruct (jget raw "t"); try done. destruct (jget raw "x") as [| | | |x| |]; try done.
  destruct (String.eqb_spec x ""); [done|]. destruct (jget raw "p") as [| | | |p| |]; try discriminate.
  destruct (js_has ROOT_IDS p || js_has seen p) eqn:Ep; [|done]. cbn [negb].
  rewrite orb_true_iff, !js_has_true in Ep.
  destruct (js_eq_str (jget raw "k") "b"), (jget raw "u"); try done; by intros [= <-].
Qed.

Lemma validateNodes_sound seen raws ns : validateNodes seen raws = inr ns -> forest seen ns.
Proof.
  revert seen ns. induction raws as [|raw raws IH]; intros seen ns; cbn; [by intros [= <-]|].
  destruct (validateNode seen raw) as [e|n] eqn:En; [done|].
  destruct (validateNodes _ raws) as [e|ns'] eqn:E; [done|]. intros [= <-].
  apply validateNode_sound in En as (? & ? & ?). cbn. split_and!; [done..|].
  eapply forest_seen, IH, E. intros x. rewrite js_add_elem, elem_of_cons. tauto.
Qed.

Lemma validateNode_complete seen n :
  node_ok n -> pn_o n ∉ seen -> pn_p n ∈ ROOT_IDS \/ pn_p n ∈ seen -> validateNode seen (node_jsval n) = inr n.
Proof.
  intros (Hu & Hr & Hx & Hk) Hs Hp. unfold validateNode, node_jsval. cbn [is_object negb app].
  destruct n as [o k t u p x]. cbn [pn_o pn_k pn_t pn_u pn_p pn_x] in *.
  assert (js_has ROOT_IDS o || js_has seen o = false) as Ho by (apply orb_false_iff; by rewrite !js_has_false).
  assert (js_has ROOT_IDS p || js_has seen p = true) as Hp' by (by rewrite orb_true_iff, !js_has_true).
  apply String.eqb_neq in Hx.
  destruct u as [u|], k; try congruence; cbn [app NodeKind_str]; jget_simpl; rewrite Hu, Ho, Hp', Hx; reflexivity.
Qed.

Lemma validateNodes_complete seen ns : forest seen ns -> validateNodes seen (map node_jsval ns) = inr ns.
Proof.
  revert seen. induction ns as [|n ns IH]; intros seen; cbn [map validateNodes forest]; [done|].
  intros (? & ? & ? & Hf). rewrite validateNode_complete by done. rewrite IH; [done|].
  eapply forest_seen, Hf. intros x. rewrite js_add_elem, elem_of_cons. tauto.
Qed.

Lemma kind_of_str_str k : kind_of_str (RestorePointKind_str k) = Some k.
Proof. by destruct k. Qed.

Section points.
Context `{DateParser}.

Definition wf_point (p : PointPlaintext) : Prop :=
  date_parses (pt_createdAt p) = true /\ point_tree (pt_nodes p).

Lemma validatePoint_complete p : wf_point p -> validatePoint (point_jsval p) = inr p.
Proof.
  intros [Hd Ht%forest_tree]. unfold validatePoint, point_jsval. cbn [is_object negb]. jget_simpl.
  cbn [Z.eqb POINT_VERSION negb Pos.eqb]. rewrite Hd, kind_of_str_str, validateNodes_complete by done.
  by destruct p.
Qed.

Lemma validatePoint_sound v p : validatePoint v = inr p -> wf_point p.
Proof.
  unfold validatePoint. destruct (negb (is_object v)); [done|]. destruct (jget v "v"); try done.
  destruct (negb _); [done|]. destruct (jget v "createdAt") as [| | | |d| |]; try done.
  destruct (date_parses d) eqn:Ed; [|done]. cbn [negb]. destruct (jget v "deviceId"); try done.
  destruct (jget v "kind") as [| | | |k| |]; try done. destruct (kind_of_str k); [|done].
  destruct (jget v "nodes") as [| | | | |raws|]; try done.
  destruct (validateNodes [] raws) as [e|ns] eqn:E; [done|]. intros [= <-].
  split; [done|]. by apply forest_tree, (validateNodes_sound [] raws).
Qed.
End points.


(** ** Encoding *)

Lemma node_clean n : json_clean (node_jsval n) = true.
Proof. destruct n as [? ? ? [u|] ? ?]; reflexivity. Qed.

Lemma point_clean p : json_clean (point_jsval p) = true.
Proof.
  assert (forallb json_clean (map node_jsval (pt_nodes p)) = true) as Hn.
  { apply forallb_forall. intros v (n & <- & _)%in_map_iff. apply node_clean. }
  unfold point_jsval. cbn [json_clean map forallb fst snd]. rewrite Hn. reflexivity.
Qed.

Lemma parse_point p : JSON_parse (utf8_decode (utf8_encode (JSON_stringify (point_jsval p)))) = Some (point_jsval p).
Proof. rewrite utf8_decode_encode. apply JSON_parse_stringify, point_clean. Qed.

Lemma pointAad_inj i i' : pointAad i = pointAad i' -> i = i'.
Proof. unfold pointAad. intros H. apply buildOperationAad_inj in H. apply H. Qed.

#[local] Opaque buildOperationAad.

Lemma pointAad_bytes i : Forall is_byte (pointAad i).
Proof. unfold pointAad. apply buildOperationAad_bytes. Qed.

Lemma pointAad_operation i t o ot :
  pointAad i <> buildOperationAad (ObjectType_str t) o (OperationType_str ot).
Proof. unfold pointAad. intros E. apply buildOperationAad_inj in E as [E _]. by destruct t. Qed.

#[local] Opaque pointAad.

Lemma encrypt_header `{CryptoLib} nonce b sdek kv aad :
  assertSupportedEnvelopeVersion (encryptBytesWithSdek None nonce b sdek kv aad) = inr tt /\
  jget (encryptBytesWithSdek None nonce b sdek kv aad) "keyVersion" = JNum kv.
Proof. split; reflexivity. Qed.

(** C33. Restore points round trip and are bound to their id: decoding the
    encoded point gives it back under its own id and fails authentication
    under any other, and no operation label opens it either. *)
Theorem decodePoint_encodePoint `{DateParser, Deflate, CryptoLaws} nonce p id id' sdek kv resolveSdek :
  (forall b, Forall is_byte b -> inflateRaw (deflateRaw b) = Some b /\ Forall is_byte (deflateRaw b)) ->
  Forall is_byte nonce -> wf_point p -> resolveSdek kv = Some sdek ->
  let '(envelope, codec) := encodePoint None nonce p id sdek kv in
  decodePoint None envelope codec id' resolveSdek =
    (if decide (id = id') then inr p else inl (UnreadableRestorePointError "it failed authentication")) /\
  forall t o ot, decryptBytesWithSdek None envelope sdek
    (buildOperationAad (ObjectType_str t) o (OperationType_str ot)) = inl AuthenticationFailed.
Proof.
  intros Hdef Hn Hwf Hsdek. unfold encodePoint. set (json := utf8_encode _).
  assert (Forall is_byte json) as Hj by apply utf8_encode_bytes.
  assert (JSON_parse (utf8_decode json) = Some (point_jsval p)) as Hparse by apply parse_point.
  clearbody json.
  set (b := if supportsDeflateRaw then _ else _).
  assert (Forall is_byte b) as Hb by (unfold b; destruct supportsDeflateRaw; [by apply Hdef|done]).
  split.
  - unfold decodePoint. destruct (encrypt_header nonce b sdek kv (pointAad id)) as [-> ->]. rewrite Hsdek.
    rewrite decryptBytes_encryptBytes by (assumption || apply pointAad_bytes).
    case_decide as E; case_decide as E'; [| | |reflexivity].
    + assert ((if supportsDeflateRaw then inflateRaw b else Some b) = Some json) as ->.
      { unfold b. destruct supportsDeflateRaw; [by apply Hdef|done]. }
      rewrite Hparse. by apply validatePoint_complete.
    + by apply pointAad_inj in E.
    + by subst.
  - intros t o ot. rewrite decryptBytes_encryptBytes by (assumption || apply pointAad_bytes).
    rewrite decide_False; [done|]. apply pointAad_operation.
Qed.

(** ** Sibling positions *)

(** A position as the program stores it: absent, empty or a valid key. *)
Definition position_ok (n : LiveBookmarkNode) : Prop :=
  match lb_position n with Some x => x = "" \/ valid_key x | None => True end.

Lemma after_spec prev x : after prev x = true <-> below prev x.
Proof. by destruct prev. Qed.

Lemma usable_after_spec prev n x : position_ok n -> usable_after prev n = Some x ->
  lb_position n = Some x /\ valid_key x /\ below prev x.
Proof.
  unfold position_ok, usable_after. destruct (lb_position n) as [own|]; [|done].
  destruct (String.eqb_spec own ""); [done|]. cbn [negb andb]. destruct (after prev own) eqn:Ea; [|done].
  intros [?|?] [= <-]; [done|]. split_and!; [done..|]. by apply after_spec.
Qed.

Lemma next_usable_spec prev later x : Forall position_ok later -> next_usable prev later = Some x ->
  valid_key x /\ below prev x.
Proof.
  unfold next_usable. induction 1 as [|n later Hn Hl IH]; [done|]. cbn [omap list_omap].
  destruct (usable_after prev n) as [own|] eqn:E; [|done]. intros [= <-].
  by apply usable_after_spec in E as (_ & ? & ?).
Qed.

Lemma normalizePositions_spec prev siblings : valid_opt prev -> Forall position_ok siblings ->
  exists ps, normalizePositions prev siblings = inr ps /\ length ps = length siblings /\
    Forall valid_key ps /\ StronglySorted str_lt ps /\ Forall (below prev) ps.
Proof.
  intros Hp Hs. revert prev Hp. induction Hs as [|n later Hn Hl IH]; intros prev Hp.
  { exists []. split_and!; try done; constructor. }
  assert (exists key, (match usable_after prev n with Some own => inr own
      | None => keyBetween prev (next_usable prev later) end) = inr key /\ valid_key key /\ below prev key) as (key & Hk & Hv & Hb).
  { destruct (usable_after prev n) as [own|] eqn:E.
    - apply usable_after_spec in E as (_ & ? & ?); [|done]. eauto.
    - pose proof (next_usable_spec prev later) as Hnext.
      destruct (keyBetween_ok prev (next_usable prev later)) as (key & Hk & ? & ? & _); [done| | |eauto].
      + destruct (next_usable prev later); [by apply Hnext|done].
      + destruct prev, (next_usable _ later); try done. by apply Hnext. }
  destruct (IH (Some key) Hv) as (ps & Hps & Hlen & Hval & Hsort & Hbelow).
  exists (key :: ps). cbn [normalizePositions]. rewrite Hk, Hps. split_and!; [done|cbn; by rewrite Hlen| | |].
  - by constructor.
  - by constructor.
  - constructor; [done|]. eapply Forall_impl; [exact Hbelow|]. intros x Hx. destruct prev; [|done]. cbn in *. by trans key.
Qed.

Lemma normalizePositions_id prev siblings ps :
  map lb_position siblings = map Some ps -> Forall (fun x => x <> "") ps ->
  StronglySorted str_lt ps -> Forall (below prev) ps ->
  normalizePositions prev siblings = inr ps.
Proof.
  intros Hm Hne Hs. revert prev siblings Hm. induction Hs as [|x ps Hs IH Hx]; intros prev [|n l] Hm Hb; try done.
  injection Hm as Hn Hm. inversion Hne as [|? ? Hnx Hne']; subst. inversion Hb as [|? ? Hbx Hb']; subst.
  cbn [normalizePositions]. unfold usable_after. rewrite Hn. apply String.eqb_neq in Hnx. rewrite Hnx.
  apply after_spec in Hbx. rewrite Hbx. cbn [negb andb]. by rewrite IH.
Qed.

(** Normalised positions: for siblings whose recorded positions are valid
    keys, missing or empty, one valid key each comes out, strictly increasing
    in the browser's order; and positions that already were strictly
    increasing are kept. *)
Theorem normalizePositions_sorted siblings :
  Forall position_ok siblings ->
  exists ps, normalizePositions None siblings = inr ps /\ length ps = length siblings /\
    Forall valid_key ps /\ StronglySorted str_lt ps /\
    forall own, map lb_position siblings = map Some own -> Forall (fun x => x <> "") own ->
      StronglySorted str_lt own -> ps = own.
Proof.
  intros Hs. destruct (normalizePositions_spec None siblings I Hs) as (ps & Hps & ? & ? & ? & _).
  exists ps. split_and!; try done. intros own Hm Hne Hsort.
  assert (normalizePositions None siblings = inr own) as E; [|congruence].
  apply normalizePositions_id; try done. by apply Forall_true.
Qed.

(** ** Capture *)

(** Everything a capture may hold: the live nodes, then the removed ones that
    are not live. *)
Definition captured (live extra : list LiveBookmarkNode) : list LiveBookmarkNode :=
  live ++ filter (fun n => js_has (js_of_list (map lb_objectId live)) (lb_objectId n) = false) extra.

Definition kids (childrenOf : jmap string (list LiveBookmarkNode)) (p : string) : list LiveBookmarkNode :=
  default [] (jm_get childrenOf p).

Definition under (p : string) (ns : list LiveBookmarkNode) : list LiveBookmarkNode :=
  filter (fun n => lb_parentObjectId n = p) ns.

Lemma under_app p a b : under p (a ++ b) = under p a ++ under p b.
Proof. apply filter_app. Qed.

Lemma kids_add_child m n p : kids (add_child m n) p = kids m p ++ under p [n].
Proof.
  unfold kids, add_child, under. rewrite jm_get_set, filter_cons, filter_nil.
  repeat case_decide; subst; try done. by rewrite app_nil_r.
Qed.

Lemma insert_removed_perm l n : insert_removed l n ≡ₚ l ++ [n].
Proof.
  unfold insert_removed. destruct (match lb_position n with None => None | Some _ => _ end) as [i|]; [|done].
  rewrite <- (take_drop i l) at 3. rewrite <- app_assoc. f_equiv. apply Permutation_cons_append.
Qed.

Lemma kids_add_removed ids m n p : kids (add_removed ids m n) p ≡ₚ
  kids m p ++ under p (filter (fun n => js_has ids (lb_objectId n) = false) [n]).
Proof.
  unfold kids, add_removed, under. rewrite filter_cons, filter_nil.
  destruct (js_has ids (lb_objectId n)); cbn [decide].
  { rewrite decide_False by done. by rewrite filter_nil, app_nil_r. }
  rewrite decide_True by done. rewrite jm_get_set, filter_cons, filter_nil. cbn [default].
  repeat case_decide; subst; try done; [apply insert_removed_perm|by rewrite app_nil_r].
Qed.

Lemma kids_children live extra p : kids (children_map live extra) p ≡ₚ under p (captured live extra).
Proof.
  unfold children_map, captured. set (ids := js_of_list _). clearbody ids.
  assert (forall m, kids (foldl add_child m live) p ≡ₚ kids m p ++ under p live) as Hl.
  { induction live as [|n live IH]; intros m; cbn [foldl]; [by rewrite app_nil_r|].
    rewrite IH, kids_add_child, <- app_assoc. f_equiv. by rewrite <- under_app. }
  assert (forall m, kids (foldl (add_removed ids) m extra) p ≡ₚ
    kids m p ++ under p (filter (fun n => js_has ids (lb_objectId n) = false) extra)) as He.
  { induction extra as [|n extra IH]; intros m; cbn [foldl]; [by rewrite app_nil_r|].
    rewrite IH, kids_add_removed, <- app_assoc. f_equiv. rewrite <- under_app, <- filter_app. done. }
  by rewrite He, Hl, under_app.
Qed.

(** What a capture assumes of the nodes it reads. *)
Definition live_ok (n : LiveBookmarkNode) : Prop :=
  is_uuid (lb_objectId n) = true /\ (lb_objectId n ∉ ROOT_IDS) /\ position_ok n /\
  (lb_kind n = KBookmark -> lb_url n <> None).

(** In the tree: under a root through modifiable folders only. *)
Inductive reachable (ns : list LiveBookmarkNode) : LiveBookmarkNode -> Prop :=
  | reach_root n : n ∈ ns -> lb_unmodifiable n = false -> lb_parentObjectId n ∈ ROOT_IDS -> reachable ns n
  | reach_child m n : reachable ns m -> lb_kind m = KFolder -> n ∈ ns -> lb_unmodifiable n = false ->
      lb_parentObjectId n = lb_objectId m -> reachable ns n.

Lemma reachable_elem ns n : reachable ns n -> n ∈ ns /\ lb_unmodifiable n = false.
Proof. by destruct 1. Qed.

Section walk.
Variables (childrenOf : jmap string (list LiveBookmarkNode)) (ns : list LiveBookmarkNode).
Hypothesis Hkids : forall p, kids childrenOf p ≡ₚ under p ns.
Hypothesis Hnd : NoDup (map lb_objectId ns).
Hypothesis Hok : Forall live_ok ns.

Lemma ns_same n m : n ∈ ns -> m ∈ ns -> lb_objectId n = lb_objectId m -> n = m.
Proof using Hnd.
  intros [i Hi]%list_elem_of_lookup [j Hj]%list_elem_of_lookup E.
  assert (i = j) as ->; [|congruence]. change (map lb_objectId ns) with (lb_objectId <$> ns) in Hnd.
  apply (NoDup_lookup _ _ _ (lb_objectId n) Hnd); rewrite list_lookup_fmap.
  - by rewrite Hi.
  - by rewrite Hj, E.
Qed.

(** A pending or emitted entry: parent, position. *)
Definition entry_of (e : LiveBookmarkNode * string) : string * string := (lb_parentObjectId e.1, e.2).
Definition emitted_entry (n : PointNode) : string * string := (pn_p n, pn_x n).
Definition keys_under (q : string) (es : list (string * string)) : list string :=
  map snd (filter (fun e => e.1 = q) es).

Record walk_inv (stack : list Frame) (out : list PointNode) : Prop := {
  wi_nodup : NoDup (map pn_o out ++ map (lb_objectId ∘ fst) (concat stack));
  wi_pending : Forall (fun e => reachable ns e.1 /\ valid_key e.2 /\
                 (lb_parentObjectId e.1 ∈ ROOT_IDS \/ lb_parentObjectId e.1 ∈ map pn_o out)) (concat stack);
  wi_out : Forall (fun n => exists m x, reachable ns m /\ n = point_node m x) out;
  wi_forest : forest [] out;
  wi_closed : forall n, n ∈ ns -> lb_unmodifiable n = false ->
    (lb_parentObjectId n ∈ ROOT_IDS \/ exists m, m ∈ out /\ pn_k m = KFolder /\ pn_o m = lb_parentObjectId n) ->
    (exists x, point_node n x ∈ out) \/ n ∈ map fst (concat stack);
  wi_sorted : forall q, StronglySorted str_lt
    (keys_under q (map emitted_entry out ++ map entry_of (concat stack)));
}.

(** Pushing the children of a parent not pushed before. *)
Lemma push_children_spec p stack : exists front, push_children childrenOf p stack = inr (front ++ stack) /\
  (length front <= 1)%nat /\
  map fst (concat front) ≡ₚ filter (fun n => lb_unmodifiable n = false) (under p ns) /\
  Forall (fun e => valid_key e.2) (concat front) /\
  StronglySorted str_lt (map snd (concat front)).
Proof using Hkids Hok.
  unfold push_children. change (default [] (jm_get childrenOf p)) with (kids childrenOf p).
  assert (filter (fun n => lb_unmodifiable n = false) (kids childrenOf p) ≡ₚ
          filter (fun n => lb_unmodifiable n = false) (under p ns)) as Hperm by (by rewrite Hkids).
  revert Hperm. generalize (filter (fun n => lb_unmodifiable n = false) (kids childrenOf p)). intros sibs Hperm.
  destruct (normalizePositions_spec None sibs I) as (ps & Hps & Hlen & Hval & Hsort & _).
  { apply Forall_forall. intros n Hn. rewrite Hperm in Hn. apply list_elem_of_filter in Hn as [_ [_ Hn]%list_elem_of_filter].
    rewrite Forall_forall in Hok. by apply Hok. }
  destruct sibs as [|n sibs].
  - exists []. split_and!; [done|cbn; lia|done|constructor|constructor].
  - rewrite Hps. exists [zip (n :: sibs) ps]. cbn [concat app length]. rewrite !app_nil_r. split_and!; [done|lia| | |].
    + change (map fst ?l) with (l.*1). rewrite fst_zip by lia. done.
    + apply Forall_forall. intros [m x] Hin. apply elem_of_zip_r in Hin. rewrite Forall_forall in Hval. by apply Hval.
    + change (map snd ?l) with (l.*2). rewrite snd_zip by lia. done.
Qed.

Lemma keys_under_app q a b : keys_under q (a ++ b) = keys_under q a ++ keys_under q b.
Proof. unfold keys_under. by rewrite filter_app, map_app. Qed.
Lemma keys_under_none q es : Forall (fun e => e.1 <> q) es -> keys_under q es = [].
Proof. intros H. unfold keys_under. by rewrite filter_false. Qed.
Lemma keys_under_all q es : Forall (fun e => e.1 = q) es -> keys_under q es = map snd es.
Proof. intros H. unfold keys_under. by rewrite filter_true. Qed.

(** Emitting [n] and pushing the frames [front] of its children. *)
Section emit.
Variables (n : LiveBookmarkNode) (x : string) (rest : Frame) (stack front : list Frame) (out : list PointNode).
Hypothesis Hinv : walk_inv (((n, x) :: rest) :: stack) out.
Hypothesis Hfront : map fst (concat front) ≡ₚ
  if decide (lb_kind n = KFolder) then filter (fun n => lb_unmodifiable n = false) (under (lb_objectId n) ns) else [].
Hypothesis Hvalid : Forall (fun e => valid_key e.2) (concat front).
Hypothesis Hsorted : StronglySorted str_lt (map snd (concat front)).

Let seen := map pn_o out.

Lemma pending_n : reachable ns n /\ valid_key x /\ (lb_parentObjectId n ∈ ROOT_IDS \/ lb_parentObjectId n ∈ seen).
Proof. destruct (Forall_inv (wi_pending _ _ Hinv)) as (? & ? & ?). done. Qed.

Lemma n_ok : live_ok n.
Proof. rewrite Forall_forall in Hok. apply Hok. by apply reachable_elem, pending_n. Qed.

Lemma n_fresh : (lb_objectId n ∉ ROOT_IDS) /\ (lb_objectId n ∉ seen).
Proof.
  split; [apply n_ok|]. intros Hin. destruct (proj1 (NoDup_app _ _) (wi_nodup _ _ Hinv)) as (_ & Hd & _).
  apply (Hd _ Hin). by left.
Qed.

Lemma out_parent pn : pn ∈ out -> pn_p pn ∈ ROOT_IDS \/ pn_p pn ∈ seen.
Proof.
  intros [i Hi]%list_elem_of_lookup. destruct (proj1 (forest_tree out) (wi_forest _ _ Hinv)) as [_ Ht].
  destruct (Ht i pn Hi) as [_ [?|(j & m & _ & Hj & <-)]]; [by left|right].
  apply list_elem_of_fmap. exists m. split; [done|]. by eapply list_elem_of_lookup_2.
Qed.

(** No node under [n] was seen before. *)
Lemma child_fresh m : m ∈ ns -> lb_parentObjectId m = lb_objectId n ->
  lb_objectId m ∉ seen ++ map (lb_objectId ∘ fst) (concat (((n, x) :: rest) :: stack)).
Proof.
  intros Hm Hp. destruct n_fresh as [Hr Hs]. rewrite not_elem_of_app. split; intros Hin.
  - apply list_elem_of_fmap in Hin as (pn & E & Hpn).
    pose proof (wi_out _ _ Hinv) as Hout. rewrite Forall_forall in Hout.
    destruct (Hout _ Hpn) as (m' & x' & Hm' & ->). destruct (reachable_elem _ _ Hm') as [Hm'' _].
    rewrite (ns_same m m') in Hp by done. destruct (out_parent _ Hpn) as [H|H]; cbn in H; rewrite Hp in H; done.
  - apply list_elem_of_fmap in Hin as (e & E & He). pose proof (wi_pending _ _ Hinv) as Hpe. rewrite Forall_forall in Hpe.
    destruct (Hpe _ He) as (Hm' & _ & H). destruct (reachable_elem _ _ Hm') as [Hm'' _].
    rewrite (ns_same m e.1) in Hp by done. rewrite Hp in H. by destruct H.
Qed.

Lemma front_elem e : e ∈ concat front ->
  lb_kind n = KFolder /\ lb_unmodifiable e.1 = false /\ lb_parentObjectId e.1 = lb_objectId n /\ e.1 ∈ ns.
Proof.
  intros He. assert (e.1 ∈ map fst (concat front)) as H by (apply list_elem_of_fmap; by exists e).
  rewrite Hfront in H. case_decide; [|by apply not_elem_of_nil in H].
  apply list_elem_of_filter in H as [? H]. apply list_elem_of_filter in H as [? ?]. done.
Qed.

Lemma emit_nodup : NoDup (map pn_o (out ++ [point_node n x]) ++ map (lb_objectId ∘ fst) (concat (front ++ rest :: stack))).
Proof.
  rewrite map_app, concat_app, map_app. cbn [map concat].
  assert ((map pn_o out ++ [pn_o (point_node n x)]) ++ map (lb_objectId ∘ fst) (concat front) ++ map (lb_objectId ∘ fst) (rest ++ concat stack)
    ≡ₚ map (lb_objectId ∘ fst) (concat front) ++ (seen ++ map (lb_objectId ∘ fst) (concat (((n, x) :: rest) :: stack)))) as ->.
  { cbn [concat app map]. unfold seen. change ((lb_objectId ∘ fst) (n, x)) with (pn_o (point_node n x)).
    solve_Permutation. }
  apply NoDup_app. split_and!; [| |apply (wi_nodup _ _ Hinv)].
  - assert (map (lb_objectId ∘ fst) (concat front) = lb_objectId <$> map fst (concat front)) as -> by
      exact (list_fmap_compose fst lb_objectId (concat front)).
    rewrite Hfront. case_decide; [|apply NoDup_nil_2]. eapply sublist_NoDup; [exact Hnd|].
    apply (fmap_sublist lb_objectId). etrans; apply sublist_filter.
  - intros i (e & -> & He)%list_elem_of_fmap. apply front_elem in He as (_ & _ & Hp & Hm). by apply child_fresh.
Qed.

Lemma emit_pending : Forall (fun e => reachable ns e.1 /\ valid_key e.2 /\
  (lb_parentObjectId e.1 ∈ ROOT_IDS \/ lb_parentObjectId e.1 ∈ map pn_o (out ++ [point_node n x])))
  (concat (front ++ rest :: stack)).
Proof.
  rewrite concat_app, Forall_app, map_app. split.
  - apply Forall_forall. intros e He. pose proof (front_elem e He) as (Hk & Hu & Hp & Hm). split_and!.
    + apply (reach_child ns n); try done. apply pending_n.
    + rewrite Forall_forall in Hvalid. by apply Hvalid.
    + right. rewrite Hp. set_solver.
  - pose proof (wi_pending _ _ Hinv) as H. apply Forall_inv_tail in H. eapply Forall_impl; [exact H|].
    intros e (? & ? & [?|?]); split_and!; try done; [by left|right]. apply elem_of_app. by left.
Qed.

Lemma emit_forest : forest [] (out ++ [point_node n x]).
Proof.
  apply forest_app. split; [apply (wi_forest _ _ Hinv)|]. cbn [forest]. rewrite app_nil_r.
  destruct n_fresh as [Hr Hs], pending_n as (_ & [Hx _] & Hp), n_ok as (Hu & _ & _ & Hl).
  split; [|split; [done|split; [done|done]]]. unfold node_ok, point_node. cbn. split_and!; try done.
  destruct (lb_kind n); [by apply Hl|done].
Qed.

Lemma emit_closed m : m ∈ ns -> lb_unmodifiable m = false ->
  (lb_parentObjectId m ∈ ROOT_IDS \/
   exists f, f ∈ out ++ [point_node n x] /\ pn_k f = KFolder /\ pn_o f = lb_parentObjectId m) ->
  (exists y, point_node m y ∈ out ++ [point_node n x]) \/ m ∈ map fst (concat (front ++ rest :: stack)).
Proof.
  intros Hm Hu Hp. rewrite concat_app, map_app, elem_of_app.
  assert ((exists y, point_node m y ∈ out) \/ m ∈ map fst (concat (((n, x) :: rest) :: stack)) \/
          m ∈ map fst (concat front)) as [[y Hy]|[Hin|Hin]].
  { destruct Hp as [Hp|(f & [Hf|Hf%list_elem_of_singleton]%elem_of_app & Hk & Hp)].
    - destruct (wi_closed _ _ Hinv m Hm Hu) as [?|?]; auto.
    - destruct (wi_closed _ _ Hinv m Hm Hu) as [?|?]; eauto.
    - right; right. subst f. cbn in Hk, Hp. rewrite Hfront, decide_True by done.
      apply list_elem_of_filter. split; [done|]. by apply list_elem_of_filter. }
  - left. exists y. apply elem_of_app. by left.
  - cbn [concat map app fst] in Hin. apply elem_of_cons in Hin as [->|Hin]; [|by right; right].
    left. exists x. apply elem_of_app. right. by left.
  - by right; left.
Qed.

Lemma emit_sorted q : StronglySorted str_lt
  (keys_under q (map emitted_entry (out ++ [point_node n x]) ++ map entry_of (concat (front ++ rest :: stack)))).
Proof.
  pose proof (wi_sorted _ _ Hinv q) as Hold. destruct n_fresh as [Hr Hs].
  change (map entry_of (concat (((n, x) :: rest) :: stack)))
    with ([entry_of (n, x)] ++ map entry_of (rest ++ concat stack)) in Hold.
  rewrite !keys_under_app in Hold. rewrite concat_app, (map_app emitted_entry), (map_app entry_of), !keys_under_app.
  change (concat (rest :: stack)) with (rest ++ concat stack).
  change (map emitted_entry [point_node n x]) with [entry_of (n, x)].
  destruct (decide (q = lb_objectId n)) as [->|Hq].
  - assert (forall p, p ∈ ROOT_IDS \/ p ∈ seen -> p <> lb_objectId n) as Hne by (intros p [?|?] ->; done).
    rewrite (keys_under_all _ (map entry_of (concat front))), (keys_under_none _ (map emitted_entry out)),
      (keys_under_none _ [entry_of (n, x)]), (keys_under_none _ (map entry_of (rest ++ concat stack))).
    + cbn [app]. rewrite app_nil_r, map_map. exact Hsorted.
    + apply Forall_map. pose proof (wi_pending _ _ Hinv) as H. apply Forall_inv_tail in H.
      eapply Forall_impl; [exact H|]. intros e (_ & _ & ?). by apply Hne.
    + constructor; [|done]. apply Hne, pending_n.
    + apply Forall_map, Forall_forall. intros pn Hpn. by apply Hne, out_parent.
    + apply Forall_map, Forall_forall. intros e He. by apply front_elem in He as (_ & _ & ? & _).
  - rewrite (keys_under_none q (map entry_of (concat front))); [by rewrite <- app_assoc|].
    apply Forall_map, Forall_forall. intros e He. apply front_elem in He as (_ & _ & Hp & _). cbn. congruence.
Qed.

Lemma emit_inv : walk_inv (front ++ rest :: stack) (out ++ [point_node n x]).
Proof.
  split; [apply emit_nodup|apply emit_pending| |apply emit_forest|apply emit_closed|apply emit_sorted].
  apply Forall_app. split; [apply (wi_out _ _ Hinv)|]. constructor; [|done]. exists n, x. split; [apply pending_n|done].
Qed.
End emit.

Lemma walk_length stack out : walk_inv stack out -> (length out + length (concat stack) <= length ns)%nat.
Proof.
  intros Hinv. pose proof (wi_nodup _ _ Hinv) as H.
  assert (map pn_o out ++ map (lb_objectId ∘ fst) (concat stack) ⊆ map lb_objectId ns) as Hsub.
  { intros i [Hi|Hi]%elem_of_app.
    - apply list_elem_of_fmap in Hi as (pn & -> & Hpn). pose proof (wi_out _ _ Hinv) as Ho.
      rewrite Forall_forall in Ho. destruct (Ho _ Hpn) as (m & x & Hm & ->).
      apply list_elem_of_fmap. exists m. split; [done|]. by apply reachable_elem.
    - apply list_elem_of_fmap in Hi as (e & -> & He). pose proof (wi_pending _ _ Hinv) as Hp.
      rewrite Forall_forall in Hp. apply list_elem_of_fmap. exists e.1. split; [done|]. by apply reachable_elem, Hp. }
  pose proof (submseteq_length _ _ (NoDup_submseteq _ _ H Hsub)) as Hl. by rewrite length_app, !length_map in Hl.
Qed.

Lemma walk_inv_pop stack out : walk_inv ([] :: stack) out -> walk_inv stack out.
Proof. intros Hinv. split; apply Hinv. Qed.

(** With fuel for every node's visit and every frame's pop, the loop ends. *)
Lemma build_loop_spec fuel stack out : walk_inv stack out ->
  (2 * (length ns - length out) + length stack < fuel)%nat ->
  exists out', build_loop fuel childrenOf stack out = inr out' /\ walk_inv [] out'.
Proof.
  revert stack out. induction fuel as [|fuel IH]; intros stack out Hinv Hf; [lia|]. cbn [build_loop].
  destruct stack as [|[|[n x] rest] stack]; [by exists out| |].
  - apply IH; [by apply walk_inv_pop|]. cbn in Hf. lia.
  - pose proof (walk_length _ _ Hinv) as Hlen. cbn [concat app length] in Hlen, Hf.
    assert (exists front, (if bool_decide (lb_kind n = KFolder) then push_children childrenOf (lb_objectId n) (rest :: stack)
        else inr (rest :: stack)) = inr (front ++ rest :: stack) /\ (length front <= 1)%nat /\
      walk_inv (front ++ rest :: stack) (out ++ [point_node n x])) as (front & -> & Hl & Hinv').
    { case_bool_decide as Hk.
      - destruct (push_children_spec (lb_objectId n) (rest :: stack)) as (front & -> & Hl & Hp & Hv & Hs).
        exists front. split_and!; [done|done|]. eapply emit_inv; try done. by rewrite decide_True.
      - exists []. split_and!; [done|cbn; lia|]. eapply (emit_inv n x rest stack []); try done; [|constructor..].
        by rewrite decide_False. }
    apply IH; [done|]. rewrite !length_app. cbn [length]. unfold Frame in *. lia.
Qed.

(** The initial stack: the children of the given roots. *)
Lemma push_roots_spec roots stack : NoDup roots ->
  exists front, push_roots childrenOf roots stack = inr (front ++ stack) /\ (length front <= length roots)%nat /\
    map fst (concat front) ≡ₚ filter (fun n => lb_unmodifiable n = false /\ lb_parentObjectId n ∈ roots) ns /\
    Forall (fun e => valid_key e.2) (concat front) /\
    forall q, StronglySorted str_lt (keys_under q (map entry_of (concat front))).
Proof.
  intros Hr. revert stack. induction Hr as [|p roots Hp Hr IH]; intros stack; cbn [push_roots].
  { exists []. split_and!; [done|done| |done|constructor]. rewrite filter_false; [done|].
    apply Forall_forall. intros n _ [_ H]. by apply not_elem_of_nil in H. }
  destruct (push_children_spec p stack) as (f1 & -> & Hl1 & Hp1 & Hv1 & Hs1).
  destruct (IH (f1 ++ stack)) as (f2 & -> & Hl2 & Hp2 & Hv2 & Hs2).
  exists (f2 ++ f1). rewrite concat_app, <- app_assoc. split_and!; [done|rewrite length_app; cbn; lia| | |].
  - rewrite map_app, Hp1, Hp2. clear -Hp. induction ns as [|n l IHl]; [done|]. unfold under in *.
    rewrite !filter_cons. repeat case_decide; rewrite ?filter_cons; repeat case_decide; cbn [app];
      try (rewrite <- IHl; try done; by rewrite <- Permutation_middle); exfalso; set_solver.
  - by apply Forall_app.
  - intros q. rewrite map_app, keys_under_app.
    assert (forall (f : list Frame) (roots' : list string), map fst (concat f) ≡ₚ filter (fun n => lb_unmodifiable n = false /\ lb_parentObjectId n ∈ roots') ns ->
      forall e, e ∈ concat f -> lb_parentObjectId e.1 ∈ roots') as Hpar.
    { intros f roots' Hf e He. assert (e.1 ∈ map fst (concat f)) as H by (apply list_elem_of_fmap; by exists e).
      rewrite Hf in H. by apply list_elem_of_filter in H as [[_ ?] _]. }
    assert (forall e, e ∈ concat f1 -> lb_parentObjectId e.1 = p) as Hpar1.
    { intros e He. assert (e.1 ∈ map fst (concat f1)) as H by (apply list_elem_of_fmap; by exists e).
      rewrite Hp1 in H. apply list_elem_of_filter in H as [_ H]. by apply list_elem_of_filter in H as [? _]. }
    destruct (decide (q = p)) as [->|Hq].
    + rewrite (keys_under_none p (map entry_of (concat f2))), (keys_under_all p (map entry_of (concat f1))).
      * cbn [app]. rewrite map_map. exact Hs1.
      * apply Forall_map, Forall_forall. intros e He. by apply Hpar1.
      * apply Forall_map, Forall_forall. intros e He E. cbn in E. apply Hp. rewrite <- E. by apply (Hpar f2).
    + rewrite (keys_under_none q (map entry_of (concat f1))), app_nil_r; [apply Hs2|].
      apply Forall_map, Forall_forall. intros e He E. cbn in E. apply Hq. rewrite <- E. by apply Hpar1.
Qed.
End walk.

Lemma NoDup_captured live extra : NoDup (map lb_objectId live) -> NoDup (map lb_objectId extra) ->
  NoDup (map lb_objectId (captured live extra)).
Proof.
  intros Hl He. unfold captured. rewrite map_app. apply NoDup_app. split_and!; [done| |].
  - intros i Hi (n & -> & Hn)%list_elem_of_fmap. apply list_elem_of_filter in Hn as [Hn _].
    apply js_has_false in Hn. apply Hn. by apply js_of_list_elem.
  - eapply sublist_NoDup; [exact He|]. apply (fmap_sublist lb_objectId), sublist_filter.
Qed.

Lemma length_captured live extra : (length (captured live extra) <= length live + length extra)%nat.
Proof. unfold captured. rewrite length_app. pose proof (length_filter (fun n => js_has (js_of_list (map lb_objectId live)) (lb_objectId n) = false) extra). lia. Qed.

Lemma buildPointNodes_inv live extra :
  NoDup (map lb_objectId live) -> NoDup (map lb_objectId extra) ->
  Forall live_ok live -> Forall live_ok extra ->
  exists out, buildPointNodes live extra = inr out /\ walk_inv (captured live extra) [] out.
Proof.
  intros Hl He Hol Hoe. unfold buildPointNodes.
  pose proof (kids_children live extra) as Hkids. pose proof (NoDup_captured live extra Hl He) as Hnd.
  assert (Forall live_ok (captured live extra)) as Hok.
  { unfold captured. apply Forall_app. split; [done|]. apply Forall_forall. intros n [_ Hn]%list_elem_of_filter.
    rewrite Forall_forall in Hoe. by apply Hoe. }
  assert (NoDup (rev ROOT_ORDER)) as Hroots by (vm_compute; repeat constructor; set_solver).
  assert (forall p, p ∈ rev ROOT_ORDER <-> p ∈ ROOT_IDS) as Hri.
  { intros p. assert (rev ROOT_ORDER ≡ₚ ROOT_IDS) as -> by (vm_compute; solve_Permutation). done. }
  destruct (push_roots_spec _ _ Hkids Hok _ [] Hroots) as (front & -> & Hlen & Hp & Hv & Hs). rewrite app_nil_r.
  apply build_loop_spec; try done.
  - assert (forall e, e ∈ concat front -> e.1 ∈ captured live extra /\ lb_unmodifiable e.1 = false /\
      lb_parentObjectId e.1 ∈ ROOT_IDS) as Hfront.
    { intros e Hin. assert (e.1 ∈ map fst (concat front)) as H by (apply list_elem_of_fmap; by exists e).
      rewrite Hp in H. apply list_elem_of_filter in H as [[? ?%Hri] ?]. done. }
    split; cbn [map app].
    + assert (map (lb_objectId ∘ fst) (concat front) = lb_objectId <$> map fst (concat front)) as -> by
        exact (list_fmap_compose fst lb_objectId (concat front)).
      rewrite Hp. eapply sublist_NoDup; [exact Hnd|]. apply (fmap_sublist lb_objectId), sublist_filter.
    + apply Forall_forall. intros e Hin. destruct (Hfront e Hin) as (? & ? & ?). split_and!; [by apply reach_root| |by left].
      rewrite Forall_forall in Hv. by apply Hv.
    + constructor.
    + done.
    + intros n Hn Hu [Hr|(m & Hm & _)]; [|by apply not_elem_of_nil in Hm]. right. rewrite Hp.
      apply list_elem_of_filter. split; [|done]. split; [done|]. by apply Hri.
    + done.
  - pose proof (length_captured live extra). change (length (rev ROOT_ORDER)) with 4%nat in Hlen. cbn [length]. lia.
Qed.

(** C31. A capture holds exactly what it should: for live and removed nodes
    with unique non-root UUIDs, it terminates without an error, its nodes are
    the ones reachable from a built-in root through modifiable folders,
    parents first, each with a position that increases strictly along its
    siblings, and the validator accepts the point made of them. *)
Theorem buildPointNodes_spec `{DateParser} live extra createdAt deviceId kind :
  NoDup (map lb_objectId live) -> NoDup (map lb_objectId extra) ->
  Forall live_ok live -> Forall live_ok extra -> date_parses createdAt = true ->
  exists out, buildPointNodes live extra = inr out /\
    (forall n, reachable (captured live extra) n <-> exists x, point_node n x ∈ out /\ n ∈ captured live extra) /\
    (forall p, StronglySorted str_lt (map pn_x (filter (fun n => pn_p n = p) out))) /\
    validatePoint (point_jsval (mkPoint createdAt deviceId kind out)) = inr (mkPoint createdAt deviceId kind out).
Proof.
  intros Hl He Hol Hoe Hd. destruct (buildPointNodes_inv live extra Hl He Hol Hoe) as (out & -> & Hinv).
  pose proof (NoDup_captured live extra Hl He) as Hnd.
  exists out. split_and!; [done| | |].
  - intros n. split.
    + intros Hr. induction Hr as [n Hn Hu Hp|m n Hm [x [Hx _]] Hk Hn Hu Hp].
      * destruct (wi_closed _ _ _ Hinv n Hn Hu) as [[x Hx]|Hx]; [by left|eauto|by apply not_elem_of_nil in Hx].
      * destruct (wi_closed _ _ _ Hinv n Hn Hu) as [[y Hy]|Hy]; [|eauto|by apply not_elem_of_nil in Hy].
        right. exists (point_node m x). by rewrite Hp.
    + intros (x & Hx & Hn). pose proof (wi_out _ _ _ Hinv) as Hout. rewrite Forall_forall in Hout.
      destruct (Hout _ Hx) as (m & y & Hm & E). injection E as E _ _ _ _ _.
      by rewrite (ns_same _ Hnd n m) by (try done; by apply reachable_elem).
  - intros p. pose proof (wi_sorted _ _ _ Hinv p) as Hs. cbn [concat map] in Hs. rewrite app_nil_r in Hs.
    assert (keys_under p (map emitted_entry out) = map pn_x (filter (fun n => pn_p n = p) out)) as <-; [|done].
    unfold keys_under. clear. induction out as [|n out IH]; [done|]. cbn [map]. rewrite !filter_cons. cbn [emitted_entry fst].
    case_decide; cbn [map snd emitted_entry]; by rewrite IH.
  - apply validatePoint_complete. split; [done|]. apply forest_tree, (wi_forest _ _ _ Hinv).
Qed.
