(* ===== verification/Planner.v ===== *)
(** * Restore planning (extension/src/restore-points/planner.ts)

    The operations that turn the browser's bookmarks into a restore point's.
    The two subtree walks and the ancestor walk are loops with fuel;
    PlannerFacts shows it is enough for a validated point and a tree read
    parents first. *)

From S2P Require Import Prelude JsMap Types Util Storage RestorePoints.

Open Scope Z_scope.
Open Scope js_scope.

(** [PlannedOperation]'s payload, by operation type. *)
Inductive PlannedPayload :=
  | PRestore (title : string) (url : option string) (parent position : string)
  | PUpdate (title : option string) (url : option (option string))   (** changed fields only *)
  | PMove (parent position : string)
  | PDelete.

Record PlannedOperation := mkPlanned {
  po_objectType : ObjectType;
  po_objectId : string;
  po_payload : PlannedPayload;
  po_title : string;
}.

Definition po_operationType (op : PlannedOperation) : OperationType :=
  match po_payload op with
  | PRestore _ _ _ _ => OpRestore | PUpdate _ _ => OpUpdate | PMove _ _ => OpMove | PDelete => OpDelete
  end.

Record PlanCounts := mkCounts {
  pc_restored : Z; pc_updated : Z; pc_moved : Z; pc_deleted : Z; pc_skipped : Z;
}.

Record RestorePlan := mkPlan {
  plan_operations : list PlannedOperation;
  plan_counts : PlanCounts;
  plan_sample : list string * list string * list string * list string;
}.

Inductive plan_error := UnknownRestoreScopeError | PlanOutOfFuel.

Definition SAMPLE_SIZE : nat := 8.

Definition objectTypeOf (kind : NodeKind) : ObjectType :=
  match kind with KBookmark => OtBookmark | KFolder => OtBookmarkFolder end.

(** ** Indexes *)

Definition pointById (nodes : list PointNode) : jmap string PointNode :=
  foldl (fun m n => jm_set m (pn_o n) n) [] nodes.
Definition pointChildren (nodes : list PointNode) : jmap string (list PointNode) :=
  foldl (fun m n => jm_set m (pn_p n) (default [] (jm_get m (pn_p n)) ++ [n])) [] nodes.
Definition liveById (live : list LiveBookmarkNode) : jmap string LiveBookmarkNode :=
  foldl (fun m n => jm_set m (lb_objectId n) n) [] live.
Definition liveChildren (live : list LiveBookmarkNode) : jmap string (list LiveBookmarkNode) :=
  foldl (fun m n => jm_set m (lb_parentObjectId n) (default [] (jm_get m (lb_parentObjectId n)) ++ [n])) [] live.

(** ** The subtree walk

    [while (stack.length > 0) for (const child of children.get(stack.pop()))]:
    visit each child, then push it if it is a folder. The head of [stack] is
    its top. *)

Section walk.
Context {N S : Type} (childrenOf : string -> list N) (id : N -> string) (folder : N -> bool) (visit : S -> N -> S).

Definition visit_child (st : S * list string) (child : N) : S * list string :=
  (visit st.1 child, if folder child then id child :: st.2 else st.2).

Fixpoint walk_subtree (fuel : nat) (stack : list string) (acc : S) : option S :=
  match stack with
  | [] => Some acc
  | top :: stack =>
      match fuel with
      | O => None
      | Datatypes.S fuel =>
          let '(acc, stack) := foldl visit_child (acc, stack) (childrenOf top) in
          walk_subtree fuel stack acc
      end
  end.
End walk.

Definition is_folder (k : NodeKind) : bool := bool_decide (k = KFolder).

(** Lines 86 to 105: (inScope, ancestorsToRestore). [None] is "all". *)
Fixpoint ancestors (fuel : nat) (byId : jmap string PointNode) (parent : option PointNode) (acc : jset string) :
    option (jset string) :=
  match parent with
  | None => Some acc
  | Some p =>
      match fuel with
      | O => None
      | S fuel => ancestors fuel byId (jm_get byId (pn_p p)) (js_add acc (pn_o p))
      end
  end.

Definition resolve_scope (nodes : list PointNode) (scope : option string) : plan_error + (jset string * jset string) :=
  let byId := pointById nodes in
  match scope with
  | None => inr (jm_keys byId, [])
  | Some scope =>
      match jm_get byId scope with
      | None => inl UnknownRestoreScopeError
      | Some folder =>
          if negb (is_folder (pn_k folder)) then inl UnknownRestoreScopeError
          else
            let fuel := S (length nodes) in
            match walk_subtree (fun p => default [] (jm_get (pointChildren nodes) p)) pn_o
                    (fun n => is_folder (pn_k n)) (fun covered n => js_add covered (pn_o n))
                    fuel [pn_o folder] [pn_o folder],
                  ancestors fuel byId (jm_get byId (pn_p folder)) [] with
            | Some covered, Some above => inr (covered, above)
            | _, _ => inl PlanOutOfFuel
            end
      end
  end.

(** ** Restores, updates and moves *)

Section plan.
Context `{UrlParser}.

Record Acc := mkAcc {
  ac_restores : list PlannedOperation;
  ac_updates : list PlannedOperation;
  ac_moves : list PlannedOperation;
  ac_skipped : Z;
}.

Definition restore_op (n : PointNode) : PlannedOperation :=
  mkPlanned (objectTypeOf (pn_k n)) (pn_o n)
    (PRestore (pn_t n) (match pn_k n with KBookmark => pn_u n | KFolder => None end) (pn_p n) (pn_x n)) (pn_t n).

(** The [changed] object, and whether a URL was skipped. *)
Definition changed_fields (n : PointNode) (existing : LiveBookmarkNode) : option string * option (option string) * bool :=
  let title := if String.eqb (lb_title existing) (pn_t n) then None else Some (pn_t n) in
  match pn_k n with
  | KBookmark =>
      if bool_decide (lb_url existing = pn_u n) then (title, None, false)
      else if isSyncableUrl (default "" (pn_u n)) then (title, Some (pn_u n), false)
      else (title, None, true)
  | KFolder => (title, None, false)
  end.

Definition update_ops (n : PointNode) (existing : LiveBookmarkNode) : list PlannedOperation :=
  match changed_fields n existing with
  | (None, None, _) => []
  | (title, url, _) => [mkPlanned (objectTypeOf (pn_k n)) (pn_o n) (PUpdate title url) (pn_t n)]
  end.

Definition move_ops (n : PointNode) (existing : LiveBookmarkNode) : list PlannedOperation :=
  if String.eqb (lb_parentObjectId existing) (pn_p n) && bool_decide (lb_position existing = Some (pn_x n)) then []
  else [mkPlanned (objectTypeOf (pn_k n)) (pn_o n) (PMove (pn_p n) (pn_x n)) (pn_t n)].

Definition plan_node (inScope ancestorsToRestore : jset string) (byId : jmap string LiveBookmarkNode)
    (a : Acc) (n : PointNode) : Acc :=
  let covered := js_has inScope (pn_o n) in
  if negb covered && negb (js_has ancestorsToRestore (pn_o n)) then a
  else match jm_get byId (pn_o n) with
  | None =>
      if bool_decide (pn_k n = KBookmark) && negb (isSyncableUrl (default "" (pn_u n)))
      then mkAcc (ac_restores a) (ac_updates a) (ac_moves a) (ac_skipped a + 1)
      else mkAcc (ac_restores a ++ [restore_op n]) (ac_updates a) (ac_moves a) (ac_skipped a)
  | Some existing =>
      if negb covered || lb_unmodifiable existing then a
      else
        let skipped := (changed_fields n existing).2 in
        mkAcc (ac_restores a) (ac_updates a ++ update_ops n existing) (ac_moves a ++ move_ops n existing)
          (if skipped then ac_skipped a + 1 else ac_skipped a)
  end.

(** ** Deletes *)

Definition consider (byId : jmap string PointNode) (unwanted : jset string) (n : LiveBookmarkNode) : jset string :=
  if negb (jm_has byId (lb_objectId n)) && negb (lb_unmodifiable n) then js_add unwanted (lb_objectId n) else unwanted.

Definition unwanted_ids (nodes : list PointNode) (live : list LiveBookmarkNode) (scope : option string) :
    option (jset string) :=
  let byId := pointById nodes in
  match scope with
  | None => Some (foldl (consider byId) [] live)
  | Some scope =>
      if jm_has (liveById live) scope then
        walk_subtree (fun p => default [] (jm_get (liveChildren live) p)) lb_objectId
          (fun n => is_folder (lb_kind n)) (consider byId) (S (length live)) [scope] []
      else Some []
  end.

Definition delete_ops (unwanted : jset string) (live : list LiveBookmarkNode) : list PlannedOperation :=
  map (fun n => mkPlanned (objectTypeOf (lb_kind n)) (lb_objectId n) PDelete (lb_title n))
    (filter (fun n => js_has unwanted (lb_objectId n) && negb (js_has unwanted (lb_parentObjectId n))
                      && negb (js_has ROOT_IDS (lb_objectId n)) = true) live).

Definition sample (ops : list PlannedOperation) : list string := map po_title (take SAMPLE_SIZE ops).
Definition count (ops : list PlannedOperation) : Z := Z.of_nat (length ops).

Definition planRestore (nodes : list PointNode) (live : list LiveBookmarkNode) (mode : RestoreMode)
    (scope : option string) : plan_error + RestorePlan :=
  match resolve_scope nodes scope with
  | inl e => inl e
  | inr (inScope, ancestorsToRestore) =>
      let a := foldl (plan_node inScope ancestorsToRestore (liveById live)) (mkAcc [] [] [] 0) nodes in
      match (match mode with
             | Exact => (fun unwanted => delete_ops unwanted live) <$> unwanted_ids nodes live scope
             | Merge => Some []
             end) with
      | None => inl PlanOutOfFuel
      | Some deletes =>
          inr (mkPlan (ac_restores a ++ ac_updates a ++ ac_moves a ++ deletes)
                 (mkCounts (count (ac_restores a)) (count (ac_updates a)) (count (ac_moves a)) (count deletes)
                    (ac_skipped a))
                 (sample (ac_restores a), sample (ac_updates a), sample (ac_moves a), sample deletes))
      end
  end.
End plan.
