(* ===== verification/PlannerFacts.v ===== *)
(** * Properties of restore planning

    The plan of an exact, full restore turns the browser's tree into the
    point's; planning always ends; a tree that already agrees needs nothing. *)

From S2P Require Import Prelude FractionalIndex JsMap Types Util Json Storage Crypto RestorePoints RestorePointsFacts Planner.

Open Scope Z_scope.
Open Scope js_scope.

#[local] Opaque ROOT_IDS.

(** ** What a plan does to a browser

    The browser's managed bookmarks by objectId. A delete takes everything
    below it along; [depth] bounds how far up a node's ancestors are followed. *)

Record BNode := mkBNode {
  b_title : string;
  b_url : option string;
  b_parent : string;
  b_position : option string;
}.

Abbreviation Browser := (gmap string BNode).

Fixpoint descends (depth : nat) (st : Browser) (i ancestor : string) : bool :=
  if decide (i = ancestor) then true
  else match depth, st !! i with
       | S depth, Some b => descends depth st (b_parent b) ancestor
       | _, _ => false
       end.

Lemma descends_self depth st a : descends depth st a a = true.
Proof. destruct depth; cbn [descends]; by rewrite decide_True. Qed.

Lemma descends_up depth st i b a : (0 < depth)%nat -> st !! i = Some b -> descends depth st i a = false ->
  descends (pred depth) st (b_parent b) a = false.
Proof. intros Hd Hi. destruct depth as [|d]; [lia|]. cbn [descends pred]. rewrite Hi. by case_decide. Qed.

Definition edit (p : PlannedPayload) (b : option BNode) : option BNode :=
  match p with
  | PRestore t u p x => Some (mkBNode t u p (Some x))
  | PUpdate t u => (fun b => mkBNode (default (b_title b) t) (default (b_url b) u) (b_parent b) (b_position b)) <$> b
  | PMove p x => (fun b => mkBNode (b_title b) (b_url b) p (Some x)) <$> b
  | PDelete => b
  end.

Definition apply_op (depth : nat) (st : Browser) (op : PlannedOperation) : Browser :=
  match po_payload op with
  | PDelete => filter (fun kv => descends depth st kv.1 (po_objectId op) = false) st
  | p => partial_alter (edit p) (po_objectId op) st
  end.

Definition apply_ops (depth : nat) (st : Browser) (ops : list PlannedOperation) : Browser :=
  foldl (apply_op depth) st ops.

Definition live_view (m : LiveBookmarkNode) : BNode :=
  mkBNode (lb_title m) (lb_url m) (lb_parentObjectId m) (lb_position m).
Definition point_view (n : PointNode) : BNode := mkBNode (pn_t n) (pn_u n) (pn_p n) (Some (pn_x n)).

Definition browser_of (live : list LiveBookmarkNode) : Browser :=
  list_to_map (map (fun m => (lb_objectId m, live_view m)) live).
Definition browser_of_point (nodes : list PointNode) : Browser :=
  list_to_map (map (fun n => (pn_o n, point_view n)) nodes).

(** ** Indexes *)

Lemma jm_get_fold_id {N} (id : N -> string) (l : list N) m i :
  NoDup (map id l) -> jm_get (foldl (fun m n => jm_set m (id n) n) m l) i =
  match find (fun n => bool_decide (id n = i)) l with Some n => Some n | None => jm_get m i end.
Proof.
  revert m. induction l as [|n l IH]; intros m Hnd; [done|]. cbn [map] in Hnd. apply NoDup_cons in Hnd as [Hn Hnd].
  cbn [foldl find]. rewrite IH by done. rewrite jm_get_set. case_bool_decide as E; [|by rewrite decide_False].
  subst i. rewrite decide_True by done. destruct (find _ l) as [n'|] eqn:Ef; [|done].
  apply List.find_some in Ef as [Hin E%bool_decide_eq_true]. exfalso. apply Hn, list_elem_of_fmap. exists n'.
  split; [done|by apply list_elem_of_In].
Qed.

Lemma find_id {N} (id : N -> string) (l : list N) n : NoDup (map id l) -> n ∈ l ->
  find (fun n' => bool_decide (id n' = id n)) l = Some n.
Proof.
  induction l as [|n' l IH]; intros Hnd Hin; [by apply not_elem_of_nil in Hin|].
  cbn [map] in Hnd. apply NoDup_cons in Hnd as [Hn Hnd]. cbn [find]. case_bool_decide as E.
  - apply elem_of_cons in Hin as [->|Hin]; [done|]. exfalso. apply Hn, list_elem_of_fmap. by exists n.
  - apply elem_of_cons in Hin as [->|Hin]; [done|]. by apply IH.
Qed.

Lemma find_id_None {N} (id : N -> string) (l : list N) i : i ∉ map id l ->
  find (fun n' => bool_decide (id n' = i)) l = None.
Proof.
  intros Hni. destruct (find _ l) as [n|] eqn:E; [|done]. exfalso. apply Hni.
  apply List.find_some in E as [Hin <-%bool_decide_eq_true]. apply list_elem_of_fmap. exists n.
  split; [done|by apply list_elem_of_In].
Qed.

Lemma liveById_get live i : NoDup (map lb_objectId live) ->
  jm_get (liveById live) i = find (fun m => bool_decide (lb_objectId m = i)) live.
Proof. intros Hnd. unfold liveById. rewrite jm_get_fold_id by done. by destruct (find _ live). Qed.

Lemma pointById_get nodes i : NoDup (map pn_o nodes) ->
  jm_get (pointById nodes) i = find (fun n => bool_decide (pn_o n = i)) nodes.
Proof. intros Hnd. unfold pointById. rewrite jm_get_fold_id by done. by destruct (find _ nodes). Qed.

Lemma pointById_has nodes i : NoDup (map pn_o nodes) -> jm_has (pointById nodes) i = bool_decide (i ∈ map pn_o nodes).
Proof.
  intros Hnd. unfold jm_has. rewrite pointById_get by done. case_bool_decide as Hi.
  - apply list_elem_of_fmap in Hi as (n & -> & Hn). by rewrite (find_id pn_o).
  - by rewrite (find_id_None pn_o).
Qed.

Lemma pointById_keys nodes i : NoDup (map pn_o nodes) -> i ∈ jm_keys (pointById nodes) <-> i ∈ map pn_o nodes.
Proof.
  intros Hnd. pose proof (pointById_has nodes i Hnd) as H. unfold jm_has in H.
  destruct (jm_get (pointById nodes) i) as [n|] eqn:E.
  - symmetry in H. apply bool_decide_eq_true in H. split; [done|]. intros _.
    apply jm_get_Some_elem in E. apply list_elem_of_fmap. by exists (i, n).
  - symmetry in H. apply bool_decide_eq_false in H. apply jm_get_None in E. done.
Qed.

Lemma children_get {N} (parent : N -> string) (l : list N) m p :
  default [] (jm_get (foldl (fun m n => jm_set m (parent n) (default [] (jm_get m (parent n)) ++ [n])) m l) p) =
  default [] (jm_get m p) ++ filter (fun n => parent n = p) l.
Proof.
  revert m. induction l as [|n l IH]; intros m; cbn [foldl]; [by rewrite filter_nil, app_nil_r|].
  rewrite IH, jm_get_set, filter_cons. case_decide as E; [|done]. subst p. change (default [] (Some ?x)) with x.
  by rewrite <- app_assoc.
Qed.

Lemma browser_of_lookup live i : NoDup (map lb_objectId live) ->
  browser_of live !! i = live_view <$> find (fun m => bool_decide (lb_objectId m = i)) live.
Proof.
  unfold browser_of. induction live as [|m live IH]; intros Hnd; [done|]. cbn [map find] in *.
  apply NoDup_cons in Hnd as [Hn Hnd]. rewrite list_to_map_cons. case_bool_decide as E.
  - subst i. by rewrite lookup_insert_eq.
  - rewrite lookup_insert_ne by done. by apply IH.
Qed.

Lemma browser_of_point_lookup nodes i : NoDup (map pn_o nodes) ->
  browser_of_point nodes !! i = point_view <$> find (fun n => bool_decide (pn_o n = i)) nodes.
Proof.
  unfold browser_of_point. induction nodes as [|m live IH]; intros Hnd; [done|]. cbn [map find] in *.
  apply NoDup_cons in Hnd as [Hn Hnd]. rewrite list_to_map_cons. case_bool_decide as E.
  - subst i. by rewrite lookup_insert_eq.
  - rewrite lookup_insert_ne by done. by apply IH.
Qed.

(** ** The subtree walk ends *)

Section walk.
Context {N : Type} (U : list N) (id parent : N -> string) (folder : N -> bool).
Context {S : Type} (visit : S -> N -> S) (childrenOf : string -> list N).
Hypothesis Hnd : NoDup (map id U).
Hypothesis Hchildren : forall p, childrenOf p = filter (fun n => parent n = p) U.
(** Parents stand earlier. *)
Hypothesis Horder : forall i j n m, U !! i = Some n -> U !! j = Some m -> id m = parent n -> (j < i)%nat.

Lemma U_index n : n ∈ U -> exists k, U !! k = Some n.
Proof. apply list_elem_of_lookup. Qed.

Lemma U_same i j n m : U !! i = Some n -> U !! j = Some m -> id n = id m -> i = j.
Proof using Hnd.
  intros Hi Hj E. change (map id U) with (id <$> U) in Hnd. apply (NoDup_lookup _ _ _ (id n) Hnd); rewrite list_lookup_fmap.
  - by rewrite Hi.
  - by rewrite Hj, E.
Qed.

(** Ids in [done_ ++ stack] after starting from index [k0]: each is the start
    or the child of one that is done. *)
Record walk_ok (k0 : nat) (done_ stack : list string) : Prop := {
  wo_nodup : NoDup (done_ ++ stack);
  wo_parent : forall x, x ∈ done_ ++ stack -> exists k n, U !! k = Some n /\ id n = x /\ (k0 <= k)%nat /\
    (k = k0 \/ parent n ∈ done_);
}.

Definition pushed (p : string) : list string := rev (map id (filter (fun n => folder n = true) (childrenOf p))).

Lemma foldl_visit_stack (cs : list N) (acc : S) stack : (foldl (visit_child id folder visit) (acc, stack) cs).2 =
  rev (map id (filter (fun n => folder n = true) cs)) ++ stack.
Proof.
  revert acc stack. induction cs as [|c cs IH]; intros acc stack; [done|]. cbn [foldl]. unfold visit_child at 2. cbn [fst snd].
  rewrite IH, filter_cons. destruct (folder c) eqn:E; [|by rewrite decide_False].
  rewrite decide_True by done. cbn [map rev]. by rewrite <- app_assoc.
Qed.

Lemma pushed_elem p x : x ∈ pushed p -> exists k n, U !! k = Some n /\ id n = x /\ parent n = p.
Proof using Hchildren.
  unfold pushed. rewrite <- Permutation_rev, Hchildren. intros (n & -> & Hn)%list_elem_of_fmap.
  apply list_elem_of_filter in Hn as [_ [Hp Hn]%list_elem_of_filter]. apply U_index in Hn as [k Hk]. by exists k, n.
Qed.

Lemma walk_ok_step k0 done_ top stack : walk_ok k0 done_ (top :: stack) ->
  walk_ok k0 (done_ ++ [top]) (pushed top ++ stack).
Proof using Hnd Hchildren Horder.
  intros [Hn Hp]. split.
  - rewrite <- app_assoc. cbn [app].
    assert (done_ ++ top :: pushed top ++ stack ≡ₚ pushed top ++ done_ ++ top :: stack) as -> by solve_Permutation.
    apply NoDup_app. split_and!; [| |done].
    + unfold pushed. rewrite <- Permutation_rev. eapply sublist_NoDup; [exact Hnd|]. apply (fmap_sublist id).
      rewrite Hchildren. etrans; apply sublist_filter.
    + intros x (k & n & Hk & <- & Hpar)%pushed_elem Hx. destruct (Hp _ Hx) as (k' & n' & Hk' & E & Hle & Hcase).
      assert (k' = k) as -> by (by eapply U_same). assert (n' = n) as -> by congruence.
      destruct Hcase as [->|Hd].
      * destruct (Hp top) as (kt & nt & Hkt & Et & Hlet & _); [set_solver|].
        pose proof (Horder k0 kt n nt Hk Hkt ltac:(congruence)). lia.
      * rewrite Hpar in Hd. apply NoDup_app in Hn as (_ & Hdis & _). apply (Hdis top Hd). by left.
  - intros x Hx. assert (x ∈ done_ ++ top :: stack \/ x ∈ pushed top) as [Hin|Hin] by set_solver.
    + destruct (Hp _ Hin) as (k & n & ? & ? & ? & [?|?]); exists k, n; split_and!; try done; [by left|right].
      apply elem_of_app. by left.
    + apply pushed_elem in Hin as (k & n & Hk & <- & Hpar). exists k, n. split_and!; [done|done| |right; set_solver].
      destruct (Hp top) as (kt & nt & Hkt & Et & Hlet & _); [set_solver|].
      pose proof (Horder k kt n nt Hk Hkt ltac:(congruence)). lia.
Qed.

Lemma walk_ok_length k0 done_ stack : walk_ok k0 done_ stack -> (length done_ + length stack <= length U)%nat.
Proof.
  intros [Hn Hp]. assert (done_ ++ stack ⊆ map id U) as Hsub.
  { intros x Hx. destruct (Hp x Hx) as (k & n & Hk & <- & _). apply list_elem_of_fmap. exists n.
    split; [done|by eapply list_elem_of_lookup_2]. }
  pose proof (submseteq_length _ _ (NoDup_submseteq _ _ Hn Hsub)) as Hl. by rewrite length_app, length_map in Hl.
Qed.

Lemma walk_subtree_ends fuel k0 done_ stack acc : walk_ok k0 done_ stack ->
  (length U < length done_ + fuel)%nat -> exists r, walk_subtree childrenOf id folder visit fuel stack acc = Some r.
Proof using Hnd Hchildren Horder.
  revert done_ stack acc. induction fuel as [|fuel IH]; intros done_ stack acc Hok Hf.
  - pose proof (walk_ok_length _ _ _ Hok). destruct stack; [by eexists|]. lia.
  - destruct stack as [|top stack]; [by eexists|]. cbn [walk_subtree].
    pose proof (foldl_visit_stack (childrenOf top) acc stack) as E.
    destruct (foldl _ (acc, stack) (childrenOf top)) as [acc' stack']. cbn in E. subst stack'.
    apply (IH (done_ ++ [top])); [by apply walk_ok_step|]. rewrite length_app. cbn. lia.
Qed.
End walk.

(** ** Planning ends *)

Definition live_ordered (live : list LiveBookmarkNode) : Prop :=
  forall i j n m, live !! i = Some n -> live !! j = Some m ->
    lb_objectId m = lb_parentObjectId n -> (j < i)%nat.

Lemma point_ordered nodes i j n m : point_tree nodes -> nodes !! i = Some n -> nodes !! j = Some m ->
  pn_o m = pn_p n -> (j < i)%nat.
Proof.
  intros [Hnd Ht] Hi Hj E. destruct (Ht _ _ Hi) as [_ [Hr|(j' & m' & Hlt & Hj' & E')]].
  - destruct (Ht _ _ Hj) as [(_ & Hm & _) _]. by rewrite E in Hm.
  - assert (j' = j) as <-; [|done]. eapply (U_same nodes pn_o Hnd); [done..|congruence].
Qed.

Lemma find_index_of {N} (id : N -> string) (l : list N) i n :
  find (fun n => bool_decide (id n = i)) l = Some n -> exists k, l !! k = Some n /\ id n = i.
Proof.
  intros [Hin E%bool_decide_eq_true]%List.find_some. apply list_elem_of_In, list_elem_of_lookup in Hin as [k Hk]. eauto.
Qed.

Lemma ancestors_end nodes fuel parent acc : point_tree nodes ->
  match parent with Some p => exists k, nodes !! k = Some p /\ (k < fuel)%nat | None => True end ->
  exists r, ancestors fuel (pointById nodes) parent acc = Some r.
Proof.
  intros Ht. revert parent acc. induction fuel as [|fuel IH]; intros [p|] acc Hp; try (by eexists).
  - destruct Hp as (k & _ & ?). lia.
  - destruct Hp as (k & Hk & Hlt). cbn [ancestors]. apply IH. rewrite pointById_get by apply Ht.
    destruct (find _ nodes) as [q|] eqn:E; [|done]. apply find_index_of in E as (j & Hj & E). exists j.
    split; [done|]. pose proof (point_ordered nodes k j p q Ht Hk Hj E). lia.
Qed.

Lemma walk_start {N} (U : list N) (id parent : N -> string) k n : U !! k = Some n ->
  walk_ok U id parent k [] [id n].
Proof.
  intros Hk. split; [apply NoDup_singleton|]. intros x ->%list_elem_of_singleton. exists k, n.
  split_and!; [done|done|done|by left].
Qed.

Lemma resolve_scope_ends nodes scope : point_tree nodes ->
  match resolve_scope nodes scope with
  | inl e => e = UnknownRestoreScopeError /\ exists s, scope = Some s /\
      forall n, n ∈ nodes -> pn_o n = s -> pn_k n = KBookmark
  | inr _ => True
  end.
Proof.
  intros Ht. unfold resolve_scope. destruct scope as [s|]; [|done]. rewrite pointById_get by apply Ht.
  destruct (find _ nodes) as [f|] eqn:E.
  - apply find_index_of in E as (k & Hk & E). unfold is_folder at 1. case_bool_decide as Hf; cbn [negb].
    + destruct (walk_subtree_ends nodes pn_o pn_p (fun n => is_folder (pn_k n)) (fun covered n => js_add covered (pn_o n))
        (fun p => default [] (jm_get (pointChildren nodes) p)) (proj1 Ht)) with (fuel := S (length nodes)) (k0 := k)
        (done_ := @nil string) (stack := [pn_o f]) (acc := [pn_o f]) as [r ->].
      * intros p. apply (children_get pn_p nodes []).
      * intros i j n m. by apply point_ordered.
      * by apply walk_start.
      * cbn. lia.
      * destruct (ancestors_end nodes (S (length nodes)) (jm_get (pointById nodes) (pn_p f)) [] Ht) as [a ->]; [|done].
        rewrite pointById_get by apply Ht. destruct (find _ nodes) as [q|] eqn:Eq; [|done].
        apply find_index_of in Eq as (j & Hj & _). exists j. split; [done|]. apply lookup_lt_Some in Hj. lia.
    + split; [done|]. exists s. split; [done|]. intros n [j Hj]%list_elem_of_lookup En.
      assert (k = j) as <- by (eapply (U_same nodes pn_o (proj1 Ht)); [done..|congruence]).
      assert (f = n) as <- by congruence. by destruct (pn_k f).
  - split; [done|]. exists s. split; [done|]. intros n Hn <-.
    by rewrite (find_id pn_o nodes n (proj1 Ht) Hn) in E.
Qed.

Lemma unwanted_ends nodes live scope : NoDup (map lb_objectId live) -> live_ordered live ->
  exists u, unwanted_ids nodes live scope = Some u.
Proof.
  intros Hnd Ho. unfold unwanted_ids. destruct scope as [s|]; [|by eexists].
  unfold jm_has. rewrite liveById_get by done. destruct (find _ live) as [f|] eqn:E; [|by eexists].
  apply find_index_of in E as (k & Hk & <-).
  apply (walk_subtree_ends live lb_objectId lb_parentObjectId) with (k0 := k) (done_ := @nil string); try done.
  - intros p. apply (children_get lb_parentObjectId live []).
  - by apply walk_start.
  - cbn. lia.
Qed.

(** Planning always ends: for a validated point over a tree read parents
    first, the walks over the scope, its ancestors and the live subtree run
    out, and the only error is a scope that is not a folder of the point. *)
Theorem planRestore_total `{UrlParser} nodes live mode scope :
  point_tree nodes -> NoDup (map lb_objectId live) -> live_ordered live ->
  match planRestore nodes live mode scope with
  | inr _ => True
  | inl e => e = UnknownRestoreScopeError /\ exists s, scope = Some s /\
      forall n, n ∈ nodes -> pn_o n = s -> pn_k n = KBookmark
  end.
Proof.
  intros Ht Hnd Ho. unfold planRestore. pose proof (resolve_scope_ends nodes scope Ht) as Hs.
  destruct (resolve_scope nodes scope) as [e|[inScope above]]; [done|].
  destruct (unwanted_ends nodes live scope Hnd Ho) as [u Hu]. destruct mode; [done|]. by rewrite Hu.
Qed.

(** ** What the edits do *)

Section edits.
Context `{UrlParser}.
Variables (inScope above : jset string) (byId : jmap string LiveBookmarkNode).

Definition empty_acc : Acc := mkAcc [] [] [] 0.
Definition node_plan (n : PointNode) : Acc := plan_node inScope above byId empty_acc n.

Lemma plan_node_split a n : plan_node inScope above byId a n =
  mkAcc (ac_restores a ++ ac_restores (node_plan n)) (ac_updates a ++ ac_updates (node_plan n))
    (ac_moves a ++ ac_moves (node_plan n)) (ac_skipped a + ac_skipped (node_plan n)).
Proof.
  unfold node_plan, plan_node, empty_acc. destruct a as [r u m s]. cbn [ac_restores ac_updates ac_moves ac_skipped app].
  destruct (negb _ && _); [by rewrite !app_nil_r, Z.add_0_r|]. destruct (jm_get byId (pn_o n)) as [e|].
  - destruct (_ || _); [by rewrite !app_nil_r, Z.add_0_r|]. cbn. rewrite app_nil_r.
    destruct ((changed_fields n e).2); [done|by rewrite Z.add_0_r].
  - destruct (_ && _); cbn; by rewrite !app_nil_r, ?Z.add_0_r.
Qed.

Lemma plan_foldl nodes a : foldl (plan_node inScope above byId) a nodes =
  mkAcc (ac_restores a ++ (nodes ≫= fun n => ac_restores (node_plan n)))
    (ac_updates a ++ (nodes ≫= fun n => ac_updates (node_plan n)))
    (ac_moves a ++ (nodes ≫= fun n => ac_moves (node_plan n)))
    (ac_skipped a + foldr Z.add 0 (map (fun n => ac_skipped (node_plan n)) nodes)).
Proof.
  revert a. induction nodes as [|n nodes IH]; intros a; cbn [foldl mbind list_bind map foldr].
  - rewrite !app_nil_r, Z.add_0_r. by destruct a.
  - rewrite IH, plan_node_split. cbn [ac_restores ac_updates ac_moves ac_skipped].
    by rewrite <- !app_assoc, Z.add_assoc.
Qed.

(** Every operation concerns its node, and none deletes. *)
Definition edits_of (n : PointNode) (op : PlannedOperation) : Prop :=
  po_objectId op = pn_o n /\ po_payload op <> PDelete.

Lemma update_ops_of n e : Forall (edits_of n) (update_ops n e).
Proof. unfold update_ops. destruct (changed_fields n e) as [[[t|] [u|]] s]; repeat constructor; done. Qed.
Lemma move_ops_of n e : Forall (edits_of n) (move_ops n e).
Proof. unfold move_ops. destruct (_ && _); repeat constructor; done. Qed.

Lemma node_plan_of n : Forall (edits_of n) (ac_restores (node_plan n)) /\
  Forall (edits_of n) (ac_updates (node_plan n)) /\ Forall (edits_of n) (ac_moves (node_plan n)).
Proof.
  unfold node_plan, plan_node, empty_acc. destruct (negb _ && _); [split_and!; constructor|].
  destruct (jm_get byId (pn_o n)) as [e|].
  - destruct (_ || _); cbn; split_and!; try constructor; [apply update_ops_of|apply move_ops_of].
  - destruct (_ && _); cbn; split_and!; repeat constructor; done.
Qed.
End edits.

Lemma filter_bind_id (f : PointNode -> list PlannedOperation) nodes n :
  NoDup (map pn_o nodes) -> (forall n, Forall (edits_of n) (f n)) -> n ∈ nodes ->
  filter (fun op => po_objectId op = pn_o n) (nodes ≫= f) = f n.
Proof.
  intros Hnd Hf. induction nodes as [|n' nodes IH]; intros Hn; [by apply not_elem_of_nil in Hn|].
  cbn [mbind list_bind map] in *. apply NoDup_cons in Hnd as [Hn' Hnd]. rewrite filter_app.
  destruct (decide (pn_o n' = pn_o n)) as [E|E].
  - assert (n = n') as ->.
    { apply elem_of_cons in Hn as [->|Hn]; [done|]. exfalso. apply Hn'. rewrite E. apply list_elem_of_fmap. by exists n. }
    rewrite filter_true, filter_false; [by rewrite app_nil_r| |].
    + apply Forall_forall. intros op (m & Hop & Hm)%list_elem_of_bind E'. specialize (Hf m). rewrite Forall_forall in Hf.
      destruct (Hf _ Hop) as [Ho _]. apply Hn'. rewrite <- E', Ho. apply list_elem_of_fmap. by exists m.
    + eapply Forall_impl; [apply Hf|]. by intros op [? _].
  - apply elem_of_cons in Hn as [->|Hn]; [done|]. rewrite filter_false; [by apply IH|].
    eapply Forall_impl; [apply Hf|]. intros op [? _]. congruence.
Qed.

Lemma filter_bind_none (f : PointNode -> list PlannedOperation) nodes i :
  (forall n, Forall (edits_of n) (f n)) -> i ∉ map pn_o nodes ->
  filter (fun op => po_objectId op = i) (nodes ≫= f) = [].
Proof.
  intros Hf Hi. apply filter_false, Forall_forall. intros op (m & Hop & Hm)%list_elem_of_bind <-.
  specialize (Hf m). rewrite Forall_forall in Hf. destruct (Hf _ Hop) as [Ho _]. apply Hi. rewrite Ho.
  apply list_elem_of_fmap. by exists m.
Qed.

Lemma apply_edits_lookup depth ops st i : Forall (fun op => po_payload op <> PDelete) ops ->
  apply_ops depth st ops !! i =
  foldl (fun b op => edit (po_payload op) b) (st !! i) (filter (fun op => po_objectId op = i) ops).
Proof.
  unfold apply_ops. revert st. induction ops as [|op ops IH]; intros st Ho; [done|]. inversion Ho as [|? ? Hd Ho']; subst.
  cbn [foldl]. rewrite IH, filter_cons by done.
  assert (apply_op depth st op !! i = if decide (po_objectId op = i) then edit (po_payload op) (st !! i) else st !! i) as ->.
  { unfold apply_op. destruct (po_payload op); try done; case_decide as E; subst;
      by rewrite ?lookup_partial_alter_eq, ?lookup_partial_alter_ne. }
  by case_decide.
Qed.

(** ** A full restore *)

Section full.
Context `{UrlParser}.

(** A validated point and a live tree as [readLiveBookmarks] gives it, with
    nothing managed by policy and no URL the extension would not create. *)
Record plan_ready (nodes : list PointNode) (live : list LiveBookmarkNode) : Prop := {
  pr_tree : point_tree nodes;
  pr_nodup : NoDup (map lb_objectId live);
  pr_order : live_ordered live;
  pr_live : forall m, m ∈ live -> (lb_objectId m ∉ ROOT_IDS) /\ lb_unmodifiable m = false /\
    (lb_kind m = KFolder -> lb_url m = None);
  pr_kinds : forall n m, n ∈ nodes -> m ∈ live -> pn_o n = lb_objectId m -> pn_k n = lb_kind m;
  pr_urls : forall n, n ∈ nodes -> pn_k n = KBookmark -> isSyncableUrl (default "" (pn_u n)) = true;
}.

Variables (nodes : list PointNode) (live : list LiveBookmarkNode).
Hypothesis Hready : plan_ready nodes live.

Let ids := map pn_o nodes.
Let inScope : jset string := jm_keys (pointById nodes).
Let node_ops := node_plan inScope [] (liveById live).

Lemma ids_nodup : NoDup (map pn_o nodes).
Proof. apply (pr_tree _ _ Hready). Qed.

Lemma in_scope n : n ∈ nodes -> js_has inScope (pn_o n) = true.
Proof.
  intros Hn. apply js_has_true. apply pointById_keys; [apply ids_nodup|]. apply list_elem_of_fmap. by exists n.
Qed.

Lemma node_syncable n : n ∈ nodes -> bool_decide (pn_k n = KBookmark) && negb (isSyncableUrl (default "" (pn_u n))) = false.
Proof. intros Hn. case_bool_decide as Hk; [|done]. by rewrite (pr_urls _ _ Hready n Hn Hk). Qed.

Lemma live_find n m : find (fun m => bool_decide (lb_objectId m = pn_o n)) live = Some m ->
  m ∈ live /\ lb_objectId m = pn_o n.
Proof. intros (k & Hk & E)%(find_index_of lb_objectId). split; [by eapply list_elem_of_lookup_2|done]. Qed.

(** The changed fields bring an existing node's title and URL to the point's. *)
Lemma changed_fields_spec n m : n ∈ nodes -> m ∈ live -> lb_objectId m = pn_o n ->
  exists title url, changed_fields n m = (title, url, false) /\
    default (lb_title m) title = pn_t n /\ default (lb_url m) url = pn_u n.
Proof.
  intros Hn Hm E. pose proof (pr_kinds _ _ Hready n m Hn Hm (eq_sym E)) as Hk. unfold changed_fields.
  assert (default (lb_title m) (if String.eqb (lb_title m) (pn_t n) then None else Some (pn_t n)) = pn_t n) as Ht.
  { by destruct (String.eqb_spec (lb_title m) (pn_t n)). }
  destruct (pn_k n) eqn:Ek.
  - case_bool_decide as Eu; [by eexists _, _|]. rewrite (pr_urls _ _ Hready n Hn Ek). by eexists _, _.
  - eexists _, _. split_and!; [done|done|]. cbn. destruct (pr_live _ _ Hready m Hm) as (_ & _ & Hf).
    rewrite Hf by done. destruct (proj1 (list_elem_of_lookup _ _) Hn) as [i Hi].
    destruct (proj2 (pr_tree _ _ Hready) i n Hi) as [(_ & _ & _ & Hu) _]. by rewrite Ek in Hu.
Qed.

Definition run_edits (ops : list PlannedOperation) (b : option BNode) : option BNode :=
  foldl (fun b op => edit (po_payload op) b) b ops.

Lemma update_reach n m : n ∈ nodes -> m ∈ live -> lb_objectId m = pn_o n ->
  run_edits (update_ops n m) (Some (live_view m)) =
  Some (mkBNode (pn_t n) (pn_u n) (lb_parentObjectId m) (lb_position m)).
Proof.
  intros Hn Hm E. destruct (changed_fields_spec n m Hn Hm E) as (title & url & Hc & <- & <-).
  unfold update_ops. rewrite Hc. by destruct title, url.
Qed.

Lemma move_reach n m t u :
  run_edits (move_ops n m) (Some (mkBNode t u (lb_parentObjectId m) (lb_position m))) =
  Some (mkBNode t u (pn_p n) (Some (pn_x n))).
Proof.
  unfold move_ops. destruct (String.eqb_spec (lb_parentObjectId m) (pn_p n)) as [->|]; cbn [andb]; [|done].
  case_bool_decide as Ex; [|done]. by rewrite Ex.
Qed.

Lemma edits_reach n : n ∈ nodes ->
  run_edits (ac_restores (node_ops n) ++ ac_updates (node_ops n) ++ ac_moves (node_ops n)) (browser_of live !! pn_o n)
  = Some (point_view n) /\ ac_skipped (node_ops n) = 0.
Proof.
  intros Hn. unfold node_ops, node_plan, plan_node. rewrite in_scope by done. cbn [negb andb orb].
  rewrite liveById_get, browser_of_lookup by apply (pr_nodup _ _ Hready).
  destruct (find _ live) as [m|] eqn:E.
  - apply live_find in E as [Hm E]. destruct (pr_live _ _ Hready m Hm) as (_ & -> & _).
    destruct (changed_fields_spec n m Hn Hm E) as (title & url & Hc & _). rewrite Hc.
    cbn [snd ac_restores ac_updates ac_moves ac_skipped empty_acc app]. split; [|done].
    unfold run_edits. rewrite foldl_app. change (live_view <$> Some m) with (Some (live_view m)).
    pose proof (update_reach n m Hn Hm E) as Hu. unfold run_edits in Hu. rewrite Hu. apply move_reach.
  - rewrite node_syncable by done. cbn [ac_restores ac_updates ac_moves ac_skipped empty_acc app foldl]. split; [|done].
    destruct (proj1 (list_elem_of_lookup _ _) Hn) as [i Hi].
    destruct (proj2 (pr_tree _ _ Hready) i n Hi) as [(_ & _ & _ & Hu) _]. cbn. unfold point_view.
    destruct (pn_k n); [done|]. by rewrite Hu.
Qed.

(** The browser after the restores, updates and moves: the point's nodes are
    the point's, the others untouched. *)
Let edits : list PlannedOperation :=
  (nodes ≫= fun n => ac_restores (node_ops n)) ++ (nodes ≫= fun n => ac_updates (node_ops n)) ++
  (nodes ≫= fun n => ac_moves (node_ops n)).

Lemma edits_lookup depth i : apply_ops depth (browser_of live) edits !! i =
  match find (fun n => bool_decide (pn_o n = i)) nodes with
  | Some n => Some (point_view n)
  | None => browser_of live !! i
  end.
Proof.
  assert (forall n, Forall (edits_of n) (ac_restores (node_ops n))) as H1 by (intros n; apply node_plan_of).
  assert (forall n, Forall (edits_of n) (ac_updates (node_ops n))) as H2 by (intros n; apply node_plan_of).
  assert (forall n, Forall (edits_of n) (ac_moves (node_ops n))) as H3 by (intros n; apply node_plan_of).
  assert (forall f, (forall n, Forall (edits_of n) (f n)) -> Forall (fun op => po_payload op <> PDelete) (nodes ≫= f)) as Hnd.
  { intros f Hf. apply Forall_forall. intros op (n & Hop & _)%list_elem_of_bind. specialize (Hf n).
    rewrite Forall_forall in Hf. by apply Hf. }
  unfold edits. rewrite apply_edits_lookup by (rewrite !Forall_app; auto). rewrite !filter_app.
  destruct (find _ nodes) as [n|] eqn:E.
  - apply (find_index_of pn_o) in E as (k & Hk & <-). apply list_elem_of_lookup_2 in Hk.
    rewrite !filter_bind_id by (apply ids_nodup || done). by apply edits_reach.
  - assert (i ∉ map pn_o nodes) as Hi.
    { intros (n & -> & Hn)%list_elem_of_fmap. by rewrite (find_id pn_o nodes n ids_nodup Hn) in E. }
    by rewrite !filter_bind_none.
Qed.

Lemma skipped_none : foldr Z.add 0 (map (fun n => ac_skipped (node_ops n)) nodes) = 0.
Proof.
  assert (forall l, (forall n, n ∈ l -> n ∈ nodes) -> foldr Z.add 0 (map (fun n => ac_skipped (node_ops n)) l) = 0) as Hl; [|by apply Hl].
  induction l as [|n l IH]; intros Hl; [done|]. cbn [map foldr]. rewrite IH by set_solver.
  destruct (edits_reach n) as [_ ->]; [apply Hl; by left|done].
Qed.

(** *** Deletes *)

Let unwanted : jset string := foldl (consider (pointById nodes)) [] live.

Lemma unwanted_elem i : i ∈ unwanted <-> i ∈ map lb_objectId live /\ i ∉ ids.
Proof.
  unfold unwanted.
  assert (forall l s, (forall m, m ∈ l -> m ∈ live) ->
    i ∈ foldl (consider (pointById nodes)) s l <-> i ∈ s \/ (i ∈ map lb_objectId l /\ i ∉ ids)) as Hfold; [|rewrite Hfold; [set_solver|done]].
  induction l as [|m l IH]; intros s Hl; [cbn; set_solver|]. cbn [foldl map]. rewrite IH by set_solver. unfold consider.
  destruct (pr_live _ _ Hready m) as (_ & -> & _); [apply Hl; by left|].
  rewrite pointById_has, andb_true_r by apply ids_nodup. fold ids. case_bool_decide as Hm; cbn [negb].
  - rewrite elem_of_cons. split; [tauto|]. intros [?|[[Heq|?] ?]]; [tauto|by subst i|tauto].
  - rewrite js_add_elem, elem_of_cons. split; [|tauto]. intros [[?|Heq]|?]; [tauto|subst i; tauto|tauto].
Qed.

Let deletes : list PlannedOperation := delete_ops unwanted live.

Lemma deletes_elem op : op ∈ deletes -> po_payload op = PDelete /\ po_objectId op ∈ unwanted.
Proof.
  unfold deletes, delete_ops. intros (m & -> & Hm)%list_elem_of_fmap. split; [done|].
  apply list_elem_of_filter in Hm as [Hm _]. apply andb_true_iff in Hm as [[Hm _]%andb_true_iff _].
  by apply js_has_true in Hm.
Qed.

Lemma deletes_topmost m : m ∈ live -> lb_objectId m ∈ unwanted -> lb_parentObjectId m ∉ unwanted ->
  exists op, op ∈ deletes /\ po_objectId op = lb_objectId m.
Proof.
  intros Hm Hu Hp. eexists. split; [apply list_elem_of_fmap; exists m; split; [reflexivity|]|done].
  apply list_elem_of_filter. split; [|done]. apply js_has_true in Hu. apply js_has_false in Hp. rewrite Hu, Hp. cbn.
  destruct (pr_live _ _ Hready m Hm) as (Hr & _). apply js_has_false in Hr. by rewrite Hr.
Qed.

(** The browser after the edits, and what holds while it is pruned. *)
Variable depth : nat.
Hypothesis Hdepth : (length live < depth)%nat.
Let edited : Browser := apply_ops depth (browser_of live) edits.

Lemma edited_point n : n ∈ nodes -> edited !! pn_o n = Some (point_view n).
Proof. intros Hn. unfold edited. rewrite edits_lookup. by rewrite (find_id pn_o nodes n ids_nodup Hn). Qed.

Lemma edited_other i b : i ∉ ids -> edited !! i = Some b -> exists k m, live !! k = Some m /\ lb_objectId m = i /\
  b = live_view m.
Proof.
  intros Hi. unfold edited. rewrite edits_lookup, (find_id_None pn_o nodes i Hi).
  rewrite browser_of_lookup by apply (pr_nodup _ _ Hready).
  destruct (find _ live) as [m|] eqn:E; [|done]. intros [= <-].
  apply (find_index_of lb_objectId) in E as (k & Hk & E). by exists k, m.
Qed.

Lemma edited_root i : i ∈ ROOT_IDS -> edited !! i = None.
Proof.
  intros Hi. destruct (edited !! i) as [b|] eqn:E; [|done]. exfalso. destruct (decide (i ∈ ids)) as [Hin|Hin].
  - apply list_elem_of_fmap in Hin as (n & -> & Hn). apply list_elem_of_lookup in Hn as [j Hj].
    by destruct (proj2 (pr_tree _ _ Hready) j n Hj) as [(_ & ? & _) _].
  - apply edited_other in E as (k & m & Hk & <- & _); [|done].
    by destruct (pr_live _ _ Hready m (list_elem_of_lookup_2 _ _ _ Hk)) as [? _].
Qed.

Record pruned (st : Browser) : Prop := {
  pd_sub : forall i b, st !! i = Some b -> edited !! i = Some b;
  pd_point : forall n, n ∈ nodes -> st !! pn_o n = Some (point_view n);
  pd_closed : forall i b, st !! i = Some b -> i ∉ ids -> is_Some (edited !! b_parent b) -> is_Some (st !! b_parent b);
}.

(** No point node lies below an unwanted one. *)
Lemma point_not_below st d fuel n : pruned st -> d ∈ unwanted -> n ∈ nodes -> descends fuel st (pn_o n) d = false.
Proof.
  intros Hst Hd. apply unwanted_elem in Hd as [Hd Hnd]. revert n. induction fuel as [|fuel IH]; intros n Hn; cbn [descends].
  - rewrite decide_False; [done|]. intros <-. apply Hnd, list_elem_of_fmap. by exists n.
  - rewrite decide_False by (intros <-; apply Hnd, list_elem_of_fmap; by exists n).
    rewrite (pd_point _ Hst n Hn). cbn [b_parent point_view].
    apply list_elem_of_lookup in Hn as [i Hi].
    destruct (proj2 (pr_tree _ _ Hready) i n Hi) as [_ [Hr|(j & m & _ & Hj & <-)]].
    + assert (st !! pn_p n = None) as E.
      { apply edited_root in Hr. destruct (st !! pn_p n) eqn:E; [|done]. apply (pd_sub _ Hst) in E. congruence. }
      assert (pn_p n <> d) as Hne.
      { intros <-. apply list_elem_of_fmap in Hd as (m & Em & Hm). destruct (pr_live _ _ Hready m Hm) as [Hm' _]. by rewrite <- Em in Hm'. }
      destruct fuel; cbn [descends]; by rewrite decide_False, ?E.
    + apply IH. by eapply list_elem_of_lookup_2.
Qed.

(** The bound on depth is generous for a live node. *)
Lemma live_below_stable st d k m f1 f2 : pruned st -> d ∈ unwanted -> live !! k = Some m -> lb_objectId m ∉ ids ->
  (k < f1)%nat -> (k < f2)%nat -> descends f1 st (lb_objectId m) d = descends f2 st (lb_objectId m) d.
Proof.
  intros Hst Hd. revert m f1 f2. induction (lt_wf k) as [k _ IH]. intros m f1 f2 Hk Hni H1 H2.
  destruct f1 as [|f1]; [lia|]. destruct f2 as [|f2]; [lia|]. cbn [descends]. case_decide; [done|].
  destruct (st !! lb_objectId m) as [b|] eqn:Eb; [|done].
  destruct (edited_other _ _ Hni (pd_sub _ Hst _ _ Eb)) as (k' & m' & Hk' & E & ->).
  assert (k' = k) as -> by (eapply (U_same live lb_objectId (pr_nodup _ _ Hready)); done).
  assert (m' = m) as -> by congruence. cbn [b_parent live_view].
  destruct (st !! lb_parentObjectId m) as [bp|] eqn:Ep.
  - destruct (decide (lb_parentObjectId m ∈ ids)) as [Hin|Hin].
    + apply list_elem_of_fmap in Hin as (n & -> & Hn). by rewrite !(point_not_below st d).
    + destruct (edited_other _ _ Hin (pd_sub _ Hst _ _ Ep)) as (j & p & Hj & Ejp & _). rewrite <- Ejp in *.
      pose proof (pr_order _ _ Hready k j m p Hk Hj Ejp). apply (IH j); try done; lia.
  - destruct f1, f2; cbn [descends]; by rewrite ?Ep.
Qed.

Lemma pruned_edited : pruned edited.
Proof. split; [done|apply edited_point|done]. Qed.

Lemma pruned_delete st op : pruned st -> op ∈ deletes -> pruned (apply_op depth st op).
Proof.
  intros Hst Hop. apply deletes_elem in Hop as [Hp Hu]. unfold apply_op. rewrite Hp.
  set (d := po_objectId op) in *. split.
  - intros i b [Hi _]%map_lookup_filter_Some. by apply (pd_sub _ Hst).
  - intros n Hn. apply map_lookup_filter_Some. split; [by apply (pd_point _ Hst)|]. by apply point_not_below.
  - intros i b [Hi Hd]%map_lookup_filter_Some Hni Hpar. cbn [fst] in Hd.
    destruct (pd_closed _ Hst i b Hi Hni Hpar) as [bp Hbp]. exists bp. apply map_lookup_filter_Some. split; [done|].
    cbn [fst]. apply (descends_up depth _ _ _ _ ltac:(lia) Hi) in Hd.
    destruct (decide (b_parent b ∈ ids)) as [Hin|Hin].
    + apply list_elem_of_fmap in Hin as (n & -> & Hn). by apply point_not_below.
    + destruct (edited_other _ _ Hin (pd_sub _ Hst _ _ Hbp)) as (j & p & Hj & Ejp & _). rewrite <- Ejp in *.
      pose proof (lookup_lt_Some _ _ _ Hj). rewrite <- Hd. apply (live_below_stable st d j); try done; lia.
Qed.

Lemma pruned_deletes ops st : pruned st -> (forall op, op ∈ ops -> op ∈ deletes) -> pruned (apply_ops depth st ops).
Proof.
  revert st. induction ops as [|op ops IH]; intros st Hst Hops; [done|]. apply IH.
  - apply pruned_delete; [done|]. apply Hops. by left.
  - intros op' Hop'. apply Hops. by right.
Qed.

(** What a delete removes stays removed. *)
Lemma deletes_shrink ops st i : (forall op, op ∈ ops -> op ∈ deletes) -> st !! i = None -> apply_ops depth st ops !! i = None.
Proof.
  revert st. induction ops as [|op ops IH]; intros st Hops Hi; [done|]. apply IH; [set_solver|].
  destruct (deletes_elem op) as [Hp _]; [apply Hops; by left|]. unfold apply_op. rewrite Hp.
  apply map_lookup_filter_None. by left.
Qed.

Lemma deleted_gone op : op ∈ deletes -> apply_ops depth edited deletes !! po_objectId op = None.
Proof.
  intros Hop. destruct (list_elem_of_split _ _ Hop) as (l1 & l2 & E).
  unfold apply_ops. rewrite E, foldl_app. cbn [foldl]. apply deletes_shrink; [rewrite E; set_solver|].
  destruct (deletes_elem op Hop) as [Hp _]. unfold apply_op. rewrite Hp. apply map_lookup_filter_None. right.
  intros b _. cbn [fst]. by rewrite descends_self.
Qed.

Lemma unwanted_gone k m : live !! k = Some m -> lb_objectId m ∉ ids ->
  apply_ops depth edited deletes !! lb_objectId m = None.
Proof.
  revert m. induction (lt_wf k) as [k _ IH]. intros m Hk Hni.
  assert (pruned (apply_ops depth edited deletes)) as Hfin by (apply pruned_deletes; [apply pruned_edited|done]).
  assert (m ∈ live) as Hm by (by eapply list_elem_of_lookup_2).
  assert (forall p, p ∈ live -> lb_objectId p ∉ ids -> lb_objectId p ∈ unwanted) as Hunw.
  { intros p Hp Hpi. apply unwanted_elem. split; [|done]. apply list_elem_of_fmap. by exists p. }
  destruct (decide (lb_parentObjectId m ∈ unwanted)) as [Hp|Hp].
  - destruct (apply_ops depth edited deletes !! lb_objectId m) as [b|] eqn:Eb; [exfalso|done].
    destruct (edited_other _ _ Hni (pd_sub _ Hfin _ _ Eb)) as (k' & m' & Hk' & E & ->).
    assert (k' = k) as -> by (eapply (U_same live lb_objectId (pr_nodup _ _ Hready)); done).
    assert (m' = m) as -> by congruence.
    apply unwanted_elem in Hp as [Hpl Hpi]. apply list_elem_of_fmap in Hpl as (p & Ep & Hpin).
    destruct (proj1 (list_elem_of_lookup _ _) Hpin) as [j Hj].
    assert (is_Some (edited !! lb_parentObjectId m)) as Hsome.
    { unfold edited. rewrite edits_lookup, (find_id_None pn_o nodes) by done. rewrite browser_of_lookup by apply (pr_nodup _ _ Hready).
      rewrite Ep, (find_id lb_objectId live p (pr_nodup _ _ Hready) Hpin). by eexists. }
    destruct (pd_closed _ Hfin _ _ Eb Hni Hsome) as [bp Hbp]. cbn [b_parent live_view] in Hbp. rewrite Ep in Hbp, Hpi.
    rewrite (IH j) in Hbp; [done|by eapply (pr_order _ _ Hready k j m p)|done|done].
  - destruct (deletes_topmost m Hm (Hunw m Hm Hni) Hp) as (op & Hop & <-). by apply deleted_gone.
Qed.

Lemma pruned_final i : apply_ops depth edited deletes !! i = browser_of_point nodes !! i.
Proof.
  assert (pruned (apply_ops depth edited deletes)) as Hfin by (apply pruned_deletes; [apply pruned_edited|done]).
  rewrite browser_of_point_lookup by apply ids_nodup. destruct (decide (i ∈ ids)) as [Hi|Hi].
  - apply list_elem_of_fmap in Hi as (n & -> & Hn). rewrite (find_id pn_o nodes n ids_nodup Hn).
    by apply (pd_point _ Hfin).
  - rewrite (find_id_None pn_o nodes i Hi). destruct (_ !! i) as [b|] eqn:E; [exfalso|done].
    destruct (edited_other _ _ Hi (pd_sub _ Hfin _ _ E)) as (k & m & Hk & <- & _).
    by rewrite (unwanted_gone k m Hk Hi) in E.
Qed.

Lemma plan_full mode : exists plan, planRestore nodes live mode None = inr plan /\
  plan_operations plan = edits ++ (if decide (mode = Exact) then deletes else []) /\ pc_skipped (plan_counts plan) = 0.
Proof.
  unfold planRestore. change (resolve_scope nodes None) with (inr (A := plan_error) (inScope, @nil string)). cbv iota.
  rewrite plan_foldl. cbn [ac_restores ac_updates ac_moves ac_skipped empty_acc app].
  fold node_ops. rewrite skipped_none. destruct mode.
  - eexists. split; [reflexivity|]. cbn [plan_operations plan_counts pc_skipped]. split; [|done].
    rewrite decide_False by done. unfold edits. by rewrite <- !app_assoc.
  - eexists. split; [reflexivity|]. cbn [plan_operations plan_counts pc_skipped]. split; [|done].
    rewrite decide_True by done. unfold edits. by rewrite <- !app_assoc.
Qed.
End full.

(** The plan of a full restore and what applying it leads to, shared with the
    restore job. *)
Lemma plan_applies `{UrlParser} nodes live mode depth : plan_ready nodes live -> (length live < depth)%nat ->
  exists plan, planRestore nodes live mode None = inr plan /\ pc_skipped (plan_counts plan) = 0 /\
    apply_ops depth (browser_of live) (plan_operations plan) =
    match mode with Exact => browser_of_point nodes | Merge => browser_of_point nodes ∪ browser_of live end.
Proof.
  intros Hready Hd. destruct (plan_full nodes live Hready mode) as (plan & Hp & Hops & Hs). exists plan.
  split_and!; [done|done|]. rewrite Hops. destruct mode.
  - rewrite decide_False, app_nil_r by done.
    apply map_eq. intros i. rewrite edits_lookup by done. rewrite lookup_union.
    rewrite browser_of_point_lookup by apply (pr_tree _ _ Hready).
    destruct (find _ nodes) as [n|]; cbn [fmap option_fmap option_map]; by destruct (browser_of live !! i).
  - rewrite decide_True by done. unfold apply_ops. rewrite foldl_app. apply map_eq. intros i. by apply pruned_final.
Qed.

(** C15. An exact restore restores: applying the operations of its plan, in
    order, to the browser's bookmarks gives the restore point's bookmarks,
    whatever was there before: missing nodes come back, titles, URLs, parents
    and positions are the point's, and what the point does not hold is gone,
    although only the topmost unwanted nodes are deleted. Nothing is skipped. *)
Theorem planRestore_exact `{UrlParser} nodes live : plan_ready nodes live ->
  exists plan, planRestore nodes live Exact None = inr plan /\ pc_skipped (plan_counts plan) = 0 /\
    apply_ops (S (length live)) (browser_of live) (plan_operations plan) = browser_of_point nodes.
Proof. intros Hready. apply (plan_applies nodes live Exact); [done|lia]. Qed.

(** A merge restore only adds and corrects: the point's nodes become the
    point's, every other bookmark stays as it is. *)
Theorem planRestore_merge `{UrlParser} nodes live : plan_ready nodes live ->
  exists plan, planRestore nodes live Merge None = inr plan /\ pc_skipped (plan_counts plan) = 0 /\
    apply_ops (S (length live)) (browser_of live) (plan_operations plan) =
    browser_of_point nodes ∪ browser_of live.
Proof. intros Hready. apply (plan_applies nodes live Merge); [done|lia]. Qed.
