(* ===== verification/RestoreJob.v ===== *)
(** * Making and applying restore points
    (extension/src/restore-points: create.ts, outbox.ts, state.ts, restore.ts)

    The functions run over the engine's [World] and the module variables of
    the restore code. [RestoreEnv] is their interface to the server's restore
    point routes and to the bookmark component, both arbitrary. The service
    worker may be stopped at any await of these functions: [await] asks the
    environment, and [Killed] then ends the run; it is no JavaScript exception,
    so no handler runs. *)

From S2P Require Import Prelude JsMap Types Util Storage Json Crypto Engine EngineDownload FractionalIndex RestorePoints Planner.

Open Scope Z_scope.
Open Scope js_scope.

(** ** Errors and progress (state.ts) *)

(** What a request of api/client.ts throws. *)
Inductive api_exn := ApiFailed (e : sync_error) | ReauthRequired.

Inductive RestoreErrorCode :=
  | NotConnected | RestoreUnavailable | RestoreInProgress | Unreadable | UpdateNeeded | SyncFailed
  | BookmarksNotReady | PreRestoreFailed | UnknownScope | DownloadFailed | RestoreFailed.

Inductive restore_exn :=
  | ExApi (e : api_exn)
  | ExRestore (code : RestoreErrorCode)
  | ExCapture (e : capture_error)
  | ExPlan (e : plan_error)
  | ExPoint (e : point_error)
  | ExUnavailable                     (** [RestorePointsUnavailableError] *)
  | ExOther (message : string)
  | Killed.

Inductive ProgressPhase := PhIdle | PhPreparing | PhApplying | PhFinishing | PhDone | PhError.
#[export] Instance ProgressPhase_eq_dec : EqDecision ProgressPhase.
Proof. solve_decision. Defined.

Record RestoreProgress := mkProgress {
  rp_phase : ProgressPhase;
  rp_pointId : option string;
  rp_mode : option RestoreMode;
  rp_applied : Z;
  rp_total : Z;
  rp_counts : option PlanCounts;
  rp_error : option RestoreErrorCode;
}.

Definition IDLE : RestoreProgress := mkProgress PhIdle None None 0 0 None None.

Definition phase_running (p : ProgressPhase) : bool :=
  bool_decide (p = PhPreparing) || bool_decide (p = PhApplying) || bool_decide (p = PhFinishing).

(** ** Environment and state *)

(** The body of an upload request, and the reply to a download. *)
Record RestorePointUpload := mkPointUpload {
  up_id : string;
  up_kind : string;
  up_bookmarkCount : Z;
  up_encryptionVersion : Z;
  up_codec : bool;
  up_envelope : jsval;
}.

Record RestorePointDownload := mkPointDownload {
  dl_id : string;
  dl_codec : bool;
  dl_envelope : jsval;
}.

Class RestoreEnv (Srv App : Type) := {
  re_engine :: EngineEnv Srv App;
  re_dates :: DateParser;
  re_deflate :: Deflate;
  re_urls :: UrlParser;
  (** [Date.parse], [None] for NaN. *)
  re_date_parse : string -> option Z;
  (** Whether the worker is stopped at its n-th await. *)
  re_kills : nat -> bool;
  (** The server; an upload's reply is the id of the stored point. *)
  uploadRestorePoint : Srv -> RestorePointUpload -> (api_exn + string) * Srv;
  downloadRestorePoint : Srv -> string -> (api_exn + RestorePointDownload) * Srv;
  reportRestoreApplied : Srv -> string -> RestoreMode -> bool -> (api_exn + unit) * Srv;
  serverSupportsRestorePoints : Srv -> bool * Srv;
  fetchRestorePointsAutomatic : Srv -> (api_exn + option bool) * Srv;
  (** The bookmark component. *)
  sweepStaleBookmarkMappings : DB * App -> (restore_exn + unit) * (DB * App);
  readLiveBookmarks : DB * App -> (list LiveBookmarkNode * Z) * (DB * App);
  applyRestoreOperations : list (LocalOperation * string) -> list jsval -> DB * App -> (restore_exn + unit) * (DB * App);
}.

(** What happened since the worker started, oldest first. *)
Inductive REvent :=
  | EvUpload (id kind : string) (r : api_exn + string)
  | EvExpired (id : string)
  | EvSynced
  | EvApply (slice : list PlannedOperation)
  | EvScheduleSync.

Record RestoreRequest := mkRequest {
  rq_pointId : string;
  rq_mode : RestoreMode;
  rq_scope : RestoreScope;
}.

Section restore.
Context {Srv App : Type} `{Env : RestoreEnv Srv App}.

Record RState := mkRState {
  rs_world : World Srv App;
  rs_progress : RestoreProgress;
  rs_loaded : option (string * PointPlaintext);   (** [loadedCache] *)
  rs_awaits : nat;
  rs_log : list REvent;
}.

Definition R (A : Type) : Type := M RState restore_exn A.

Definition set_world (w : World Srv App) (s : RState) : RState :=
  mkRState w (rs_progress s) (rs_loaded s) (rs_awaits s) (rs_log s).
Definition set_progress (p : RestoreProgress) (s : RState) : RState :=
  mkRState (rs_world s) p (rs_loaded s) (rs_awaits s) (rs_log s).
Definition set_loaded (l : option (string * PointPlaintext)) (s : RState) : RState :=
  mkRState (rs_world s) (rs_progress s) l (rs_awaits s) (rs_log s).
Definition log_event (e : REvent) (s : RState) : RState :=
  mkRState (rs_world s) (rs_progress s) (rs_loaded s) (rs_awaits s) (rs_log s ++ [e]).

(** ** Primitives *)

Definition await : R unit := fun s =>
  let s' := mkRState (rs_world s) (rs_progress s) (rs_loaded s) (S (rs_awaits s)) (rs_log s) in
  if re_kills (rs_awaits s) then (inl Killed, s') else (inr tt, s').

(** [try m catch (e) h]: a stopped worker runs no handler. *)
Definition catch {A} (m : R A) (h : restore_exn -> R A) : R A :=
  try_catch m (fun e => match e with Killed => throw Killed | e => h e end).

(** [await] on a function of the engine. *)
Definition engine {A} (m : Sync Srv App A) : R A :=
  do! await in fun s =>
    match m (rs_world s) with
    | (inl e, w) => (inl (ExApi (ApiFailed e)), set_world w s)
    | (inr a, w) => (inr a, set_world w s)
    end.

(** [await] on a request to the server. *)
Definition server_call {A} (f : Srv -> (api_exn + A) * Srv) : R A :=
  do! await in fun s =>
    match f (w_server (rs_world s)) with
    | (inl e, srv) => (inl (ExApi e), set_world (set_server srv (rs_world s)) s)
    | (inr a, srv) => (inr a, set_world (set_server srv (rs_world s)) s)
    end.

Definition lookup_server {A} (f : Srv -> A * Srv) : R A :=
  do! await in fun s =>
    let '(a, srv) := f (w_server (rs_world s)) in (inr a, set_world (set_server srv (rs_world s)) s).

(** [await] on a function of the bookmark component. *)
Definition browser {A} (f : DB * App -> (restore_exn + A) * (DB * App)) : R A :=
  do! await in fun s =>
    let '(r, x) := f (w_db (rs_world s), w_app (rs_world s)) in (r, set_world (set_db_app x (rs_world s)) s).

Definition readLive : R (list LiveBookmarkNode * Z) :=
  browser (fun x => let '(l, x) := readLiveBookmarks x in (inr l, x)).

Definition dbDo (f : DB -> DB) : R unit := engine (db_update f).
Definition dbGet {A} (f : DB -> A) : R A := engine (db_read f).

Definition logM (e : REvent) : R unit := modify (log_event e).
Definition setRestoreProgress (p : RestoreProgress) : R unit := modify (set_progress p).
Definition getRestoreProgress : R RestoreProgress := fun s => (inr (rs_progress s), s).

(** [loadedCache = ...] *)
Definition setLoaded (l : option (string * PointPlaintext)) : R unit := modify (set_loaded l).
Definition getLoaded : R (option (string * PointPlaintext)) := fun s => (inr (rs_loaded s), s).
Definition clearLoadedRestorePoint : R unit := setLoaded None.

(** Clock and identifiers are read without an await. *)
Definition sync {A} (m : Sync Srv App A) : R A := fun s =>
  match m (rs_world s) with
  | (inl e, w) => (inl (ExApi (ApiFailed e)), set_world w s)
  | (inr a, w) => (inr a, set_world w s)
  end.

(** ** Making a point (create.ts) *)

Record BuiltPoint := mkBuilt {
  bt_upload : RestorePointUpload;
  bt_treeHash : string;
}.

Definition captureNodesM (mode : CaptureMode) : R (list PointNode) :=
  let! live := readLive in
  match captureNodes mode live.1 live.2 with
  | inl e => throw (ExCapture e)
  | inr nodes => ret nodes
  end.

Definition buildRestorePoint (kind : RestorePointKind) (mode : CaptureMode) : R BuiltPoint :=
  let! device := dbGet db_device in
  match device with
  | None => throw ExUnavailable
  | Some device =>
      let! nodes := captureNodesM mode in
      let! createdAt := sync iso_next in
      let plaintext := mkPoint createdAt (deviceId device) kind nodes in
      let! id := sync uuidv7_next in
      let! sdek := engine (getSdekM (accountKey device) (accountKeyVersion device)) in
      let! nonce := sync nonce_next in
      let '(envelope, codec) := encodePoint None nonce plaintext id sdek (accountKeyVersion device) in
      ret (mkBuilt
        (mkPointUpload id (RestorePointKind_str kind)
           (Z.of_nat (length (filter (fun n => pn_k n = KBookmark) nodes))) 1 codec envelope)
        (hashNodes nodes))
  end.

Definition uploadPointM (u : RestorePointUpload) : R string :=
  do! await in fun s =>
    let '(r, srv) := uploadRestorePoint (w_server (rs_world s)) u in
    let s := log_event (EvUpload (up_id u) (up_kind u) r) (set_world (set_server srv (rs_world s)) s) in
    (match r with inl e => inl (ExApi e) | inr id => inr id end, s).

Definition createUploadedRestorePoint (kind : RestorePointKind) (mode : CaptureMode) : R string :=
  let! built := buildRestorePoint kind mode in
  uploadPointM (bt_upload built).

(** ** The outbox (outbox.ts) *)

Definition DISCARD_CODES : list string :=
  ["restore_point_recent"; "restore_points_disabled"; "restore_point_limit"; "validation_error"; "encryption_required"].
Definition MAX_ATTEMPTS : Z := 20.
Definition MAX_AGE_MS : Z := 7 * 24 * 60 * 60 * 1000.

Definition enqueueRestorePoint (u : RestorePointUpload) : R unit :=
  let! createdAt := sync iso_next in
  dbDo (putRestorePointOutbox (mkOutbox (up_id u) (up_kind u) (up_bookmarkCount u) (up_encryptionVersion u)
    (up_codec u) (up_envelope u) createdAt 0)).

Definition createQueuedRestorePoint (kind : RestorePointKind) (mode : CaptureMode) (skipIfHash : option string) :
    R (option BuiltPoint) :=
  let! built := buildRestorePoint kind mode in
  if bool_decide (skipIfHash = Some (bt_treeHash built)) then ret None
  else do! enqueueRestorePoint (bt_upload built) in ret (Some built).

Definition automaticPointsEnabled : R bool :=
  catch (let! automatic := server_call fetchRestorePointsAutomatic in ret (negb (bool_decide (automatic = Some false))))
    (fun _ => ret true).

(** (id, kind, bookmarkCount, createdAt) *)
Definition listOutbox : R (list (string * string * Z * string)) :=
  let! records := dbGet getRestorePointOutbox in
  ret (map (fun r => (ob_id r, ob_kind r, ob_bookmarkCount r, ob_createdAt r)) records).

Inductive DrainOutcome := Uploaded | Discarded | RetryLater.
Definition DrainResult : Type := jmap string (DrainOutcome * option string).

Definition isPermanent (err : restore_exn) : bool :=
  match err with
  | ExApi (ApiFailed (ApiError status code _)) =>
      match code with Some c => negb (String.eqb c "") && bool_decide (c ∈ DISCARD_CODES) | None => false end
      || (status =? 400) || (status =? 413)
  | _ => false
  end.

Definition api_code (err : restore_exn) : option string :=
  match err with ExApi (ApiFailed (ApiError _ code _)) => code | _ => None end.
Definition is_api_error (err : restore_exn) : bool :=
  match err with ExApi (ApiFailed (ApiError _ _ _)) => true | _ => false end.

Definition expired (now : Z) (record : RestorePointOutboxRecord) : bool :=
  match re_date_parse (ob_createdAt record) with Some t => MAX_AGE_MS <? now - t | None => false end.

Definition outbox_upload (r : RestorePointOutboxRecord) : RestorePointUpload :=
  mkPointUpload (ob_id r) (ob_kind r) (ob_bookmarkCount r) (ob_encryptionVersion r) (ob_codec r) (ob_envelope r).

(** The [catch] block: the outcome, and whether the loop goes on. *)
Definition drain_failed (record : RestorePointOutboxRecord) (err : restore_exn) :
    R (DrainOutcome * option string * bool) :=
  match err with
  | ExApi ReauthRequired => ret (RetryLater, Some "reauth", false)
  | _ =>
      if isPermanent err then
        do! dbDo (deleteRestorePointOutbox (ob_id record)) in ret (Discarded, api_code err, true)
      else
        let attempts := ob_attempts record + 1 in
        if MAX_ATTEMPTS <=? attempts then
          do! dbDo (deleteRestorePointOutbox (ob_id record)) in ret (Discarded, Some "too_many_attempts", false)
        else
          do! dbDo (putRestorePointOutbox (mkOutbox (ob_id record) (ob_kind record) (ob_bookmarkCount record)
                (ob_encryptionVersion record) (ob_codec record) (ob_envelope record) (ob_createdAt record) attempts)) in
          ret (RetryLater, if is_api_error err then api_code err else Some "network", false)
  end.

(** One record. *)
Definition drain_one (record : RestorePointOutboxRecord) : R (DrainOutcome * option string * bool) :=
  let! now := sync now_next in
  if expired now record then
    do! logM (EvExpired (ob_id record)) in
    do! dbDo (deleteRestorePointOutbox (ob_id record)) in
    ret (Discarded, Some "expired", true)
  else
    catch
      (do! uploadPointM (outbox_upload record) in
       do! dbDo (deleteRestorePointOutbox (ob_id record)) in
       ret (Uploaded, None, true))
      (drain_failed record).

Fixpoint drain_loop (records : list RestorePointOutboxRecord) (result : DrainResult) : R DrainResult :=
  match records with
  | [] => ret result
  | record :: records =>
      let! o := drain_one record in
      let '(outcome, code, continue) := o in
      let result := jm_set result (ob_id record) (outcome, code) in
      if (continue : bool) then drain_loop records result else ret result
  end.

(** The function [singleFlight] wraps. *)
Definition drainOutbox : R DrainResult :=
  let! records := dbGet getRestorePointOutbox in drain_loop records [].

(** ** Loading a point (restore.ts) *)

(** [decodePoint] with the key resolver over the engine's key cache. *)
Definition decodeDownloaded (device : DeviceRecord) (d : RestorePointDownload) (pointId : string) :
    R (point_error + PointPlaintext) := fun s =>
  let cache := w_sdek (rs_world s) in
  let resolve kv := fst <$> getSdek None (accountKey device) kv cache in
  let cache' := match assertSupportedEnvelopeVersion (dl_envelope d), jget (dl_envelope d) "keyVersion" with
                | inr _, JNum kv => from_option snd cache (getSdek None (accountKey device) kv cache)
                | _, _ => cache
                end in
  (inr (decodePoint None (dl_envelope d) (dl_codec d) pointId resolve), set_world (set_sdek cache' (rs_world s)) s).

Definition loadRestorePoint (pointId : string) : R PointPlaintext :=
  let! cached := getLoaded in
  match (match cached with Some (id, point) => if String.eqb id pointId then Some point else None | None => None end) with
  | Some point => ret point
  | None =>
      let! device := dbGet db_device in
      match device with
      | None => throw (ExRestore NotConnected)
      | Some device =>
          let! downloaded := catch (server_call (fun srv => downloadRestorePoint srv pointId))
                               (fun _ => throw (ExRestore DownloadFailed)) in
          do! await in
          let! decoded := decodeDownloaded device downloaded pointId in
          match decoded with
          | inl (PointEnvelopeVersion _) | inl (UnsupportedRestorePointVersionError _) => throw (ExRestore UpdateNeeded)
          | inl (UnreadableRestorePointError _) => throw (ExRestore Unreadable)
          | inr point => do! setLoaded (Some (dl_id downloaded, point)) in ret point
          end
      end
  end.

Definition scope_arg (scope : RestoreScope) : option string :=
  match scope with ScopeAll => None | ScopeFolder id => Some id end.

Definition plan_of (request : RestoreRequest) (point : PointPlaintext) (live : list LiveBookmarkNode) :
    plan_error + RestorePlan :=
  planRestore (pt_nodes point) live (rq_mode request) (scope_arg (rq_scope request)).

Definition not_ready (unmapped : Z) : restore_exn := ExCapture (BookmarksNotReadyError unmapped).

Definition previewRestore (request : RestoreRequest) : R RestorePlan :=
  let! point := loadRestorePoint (rq_pointId request) in
  let! live := readLive in
  if 0 <? live.2 then throw (not_ready live.2)
  else match plan_of request point live.1 with
       | inl UnknownRestoreScopeError => throw (ExRestore UnknownScope)
       | inl e => throw (ExPlan e)
       | inr plan => ret plan
       end.

Definition toRestoreError (err : restore_exn) : RestoreErrorCode :=
  match err with
  | ExRestore code => code
  | ExCapture (BookmarksNotReadyError _) => BookmarksNotReady
  | ExPlan UnknownRestoreScopeError => UnknownScope
  | _ => RestoreFailed
  end.

(** ** Applying a plan (restore.ts) *)

Definition RESTORE_CHUNK_SIZE : nat := 500.

(** A planned operation's payload, as it is sent and stored. *)
Definition payload_jsval (p : PlannedPayload) : jsval :=
  match p with
  | PRestore t u p x => JObj [("title", JStr t); ("url", of_null_str u); ("parent", JStr p); ("position", JStr x)]
  | PUpdate t u => JObj (match t with Some t => [("title", JStr t)] | None => [] end ++
                         match u with Some u => [("url", of_opt_str u)] | None => [] end)
  | PMove p x => JObj [("parent", JStr p); ("position", JStr x)]
  | PDelete => JObj []
  end.

Definition pending_of (op : PlannedOperation) : PendingLocalOperation :=
  mkPendingLocal (po_objectType op) (po_objectId op) (po_operationType op) (payload_jsval (po_payload op)) None.

(** What [uploadPreRestorePoint] makes of a failure. *)
Definition pre_restore_failed (err : restore_exn) : R string :=
  match err with
  | ExCapture (BookmarksNotReadyError n) => throw (not_ready n)
  | _ => throw (ExRestore PreRestoreFailed)
  end.

Definition uploadPreRestorePoint : R string :=
  catch (createUploadedRestorePoint RkPreRestore CaptureFull)
    (fun err =>
       if bool_decide (api_code err = Some "restore_points_disabled")
       then catch (createUploadedRestorePoint RkManual CaptureFull) pre_restore_failed
       else pre_restore_failed err).

Definition with_applied (job : RestoreJobRecord) (applied : Z) : RestoreJobRecord :=
  mkRestoreJob (rj_pointId job) (rj_mode job) (rj_scope job) (preRestorePointId job) (startedAt job) applied
    (rj_total job) (rj_phase job).

Definition progress_applied (applied : Z) (p : RestoreProgress) : RestoreProgress :=
  mkProgress (rp_phase p) (rp_pointId p) (rp_mode p) applied (rp_total p) (rp_counts p) (rp_error p).

(** The body of the chunk loop. *)
Definition apply_slice (job : RestoreJobRecord) (applied : Z) (slice : list PlannedOperation) : R Z :=
  let! created := engine (createLocalOperationsBatch (map pending_of slice) true) in
  do! await in
  do! logM (EvApply slice) in
  do! (fun s =>
    let '(r, x) := applyRestoreOperations created (map (fun op => payload_jsval (po_payload op)) slice)
                     (w_db (rs_world s), w_app (rs_world s)) in
    (r, set_world (set_db_app x (rs_world s)) s)) in
  let applied := applied + Z.of_nat (length slice) in
  do! dbDo (putRestoreJob (with_applied job applied)) in
  let! p := getRestoreProgress in
  do! setRestoreProgress (progress_applied applied p) in
  do! await in ret applied.

Fixpoint apply_slices (job : RestoreJobRecord) (applied : Z) (chunks : list (list PlannedOperation)) : R unit :=
  match chunks with
  | [] => ret tt
  | slice :: chunks => let! applied := apply_slice job applied slice in apply_slices job applied chunks
  end.

(** From the plan on: the job is recorded, then the slices applied. *)
Definition run_plan (request : RestoreRequest) (resumeJob : option RestoreJobRecord) (preId : string)
    (plan : RestorePlan) : R RestorePlan :=
  let n := Z.of_nat (length (plan_operations plan)) in
  let total := from_option rj_total n resumeJob in
  let alreadyApplied := from_option (fun _ => Z.max 0 (total - n)) 0 resumeJob in
  let! at_ := (match resumeJob with Some job => ret (startedAt job) | None => sync iso_next end) in
  let job := mkRestoreJob (rq_pointId request) (rq_mode request) (rq_scope request) preId at_ alreadyApplied total
               JobApplying in
  do! dbDo (putRestoreJob job) in
  do! setRestoreProgress (mkProgress PhApplying (Some (rq_pointId request)) (Some (rq_mode request))
        alreadyApplied total (Some (plan_counts plan)) None) in
  do! apply_slices job alreadyApplied (slices (plan_operations plan) RESTORE_CHUNK_SIZE) in
  ret plan.

Definition applyUnderLock (request : RestoreRequest) (point : PointPlaintext) (resumeJob : option RestoreJobRecord) :
    R RestorePlan :=
  do! catch (do! engine uploadPending in do! engine downloadAndApply in logM EvSynced)
        (fun _ => throw (ExRestore SyncFailed)) in
  do! browser sweepStaleBookmarkMappings in
  let! live := readLive in
  if 0 <? live.2 then throw (not_ready live.2)
  else
    let! preId := match resumeJob with
                  | Some job => ret (preRestorePointId job)
                  | None => uploadPreRestorePoint
                  end in
    match plan_of request point live.1 with
    | inl e => throw (ExPlan e)
    | inr plan => run_plan request resumeJob preId plan
    end.

(** ** The job (restore.ts)

    [runExclusive] only waits for the sync slot (EngineCycle); keep-alive is
    the platform's. *)

Definition partial_ (scope : RestoreScope) : bool := negb (bool_decide (scope = ScopeAll)).

Definition finish_restore (request : RestoreRequest) (plan : RestorePlan) : R unit :=
  let! p := getRestoreProgress in
  do! setRestoreProgress (mkProgress PhFinishing (rp_pointId p) (rp_mode p) (rp_applied p) (rp_total p) (rp_counts p) (rp_error p)) in
  do! logM EvScheduleSync in
  do! catch (server_call (fun srv => reportRestoreApplied srv (rq_pointId request) (rq_mode request) (partial_ (rq_scope request))))
        (fun _ => ret tt) in
  do! dbDo deleteRestoreJob in
  let n := Z.of_nat (length (plan_operations plan)) in
  setRestoreProgress (mkProgress PhDone (Some (rq_pointId request)) (Some (rq_mode request)) n n (Some (plan_counts plan)) None).

Definition runRestore (request : RestoreRequest) (resumeJob : option RestoreJobRecord) : R unit :=
  catch
    (let! point := loadRestorePoint (rq_pointId request) in
     do! await in
     let! plan := applyUnderLock request point resumeJob in
     finish_restore request plan)
    (fun err =>
       do! catch (dbDo deleteRestoreJob) (fun _ => ret tt) in
       let! p := getRestoreProgress in
       setRestoreProgress (mkProgress PhError (Some (rq_pointId request)) (Some (rq_mode request))
         (rp_applied p) (rp_total p) None (Some (toRestoreError err)))).

(** [isRestoreRunning] here; the variable [running] is not null exactly while
    a [runRestore] of this worker runs. *)
Definition startRestore (request : RestoreRequest) : R unit :=
  let! p := getRestoreProgress in
  if phase_running (rp_phase p) then throw (ExRestore RestoreInProgress)
  else
    let! device := dbGet db_device in
    match device with
    | None => throw (ExRestore NotConnected)
    | Some _ =>
        let! supported := lookup_server serverSupportsRestorePoints in
        if negb supported then throw (ExRestore RestoreUnavailable)
        else
          do! setRestoreProgress (mkProgress PhPreparing (Some (rq_pointId request)) (Some (rq_mode request)) 0 0 None None) in
          runRestore request None
    end.

Definition job_request (job : RestoreJobRecord) : RestoreRequest :=
  mkRequest (rj_pointId job) (rj_mode job) (rj_scope job).

Definition resumeInterruptedRestore : R unit :=
  let! p := getRestoreProgress in
  if phase_running (rp_phase p) then ret tt
  else
    let! job := dbGet getRestoreJob in
    match job with
    | None => ret tt
    | Some job =>
        do! setRestoreProgress (mkProgress PhPreparing (Some (rj_pointId job)) (Some (rj_mode job)) (rj_applied job)
              (rj_total job) None None) in
        runRestore (job_request job) (Some job)
    end.

(** A worker starts with fresh module variables (and a fresh log). *)
Definition wake (s : RState) : RState :=
  mkRState (set_sdek [] (rs_world s)) IDLE None (rs_awaits s) [].
End restore.

Arguments RState : clear implicits.
Arguments R : clear implicits.
