(* ===== verification/EngineKeeps.v ===== *)
(** * What the engine leaves alone

    [keeps f m]: the computation [m] does not change the part [f] of the
    engine's world. Local operations never touch the bookmark bookkeeping, and
    neither upload nor download touches the restore job. *)

From S2P Require Import Prelude JsMap Types Util Storage StorageFacts Conflict Crypto Engine EngineDownload.

Open Scope Z_scope.
Open Scope js_scope.

Create HintDb keeps discriminated.

Section keeps.
Context {Srv App : Type} `{Env : EngineEnv Srv App} {B : Type} (f : World Srv App -> B).

Definition keeps {A} (m : Sync Srv App A) : Prop := forall w, f (m w).2 = f w.

Lemma keep_ret {A} (a : A) : keeps (ret a).
Proof. done. Qed.
Lemma keep_throw {A} e : keeps (throw e : Sync Srv App A).
Proof. done. Qed.
Lemma keep_bind {A C} (m : Sync Srv App A) (k : A -> Sync Srv App C) :
  keeps m -> (forall a, keeps (k a)) -> keeps (bind m k).
Proof.
  intros Hm Hk w. unfold bind. specialize (Hm w). destruct (m w) as [[e|a] w']; [done|]. cbn in Hm. rewrite <- Hm. apply Hk.
Qed.
Lemma keep_try {A} (m : Sync Srv App A) h : keeps m -> (forall e, keeps (h e)) -> keeps (try_catch m h).
Proof.
  intros Hm Hh w. unfold try_catch. specialize (Hm w). destruct (m w) as [[e|a] w']; [|done]. cbn in Hm. rewrite <- Hm. apply Hh.
Qed.
Lemma keep_modify g : (forall w, f (g w) = f w) -> keeps (modify g).
Proof. intros H w. apply H. Qed.
Lemma keep_for_each {A} (l : list A) (g : A -> Sync Srv App unit) : (forall a, a ∈ l -> keeps (g a)) -> keeps (for_each l g).
Proof.
  induction l as [|a l IH]; intros Hg; [apply keep_ret|]. cbn [for_each]. apply keep_bind; [apply Hg; by left|].
  intros _. apply IH. intros b Hb. apply Hg. by right.
Qed.
Lemma keep_map_m {A C} (g : A -> Sync Srv App C) l : (forall a, keeps (g a)) -> keeps (map_m g l).
Proof.
  intros Hg. induction l as [|a l IH]; [apply keep_ret|]. cbn [map_m].
  apply keep_bind; [done|]. intros b. apply keep_bind; [done|]. intros. apply keep_ret.
Qed.
Lemma keep_db_read {A} (g : DB -> A) : keeps (db_read g).
Proof. done. Qed.
End keeps.

#[export] Hint Resolve keep_ret keep_throw keep_db_read : keeps.

(** Descend through a computation; what is left are its own steps. *)
Ltac keeps_tac :=
  repeat (intros; cbv beta zeta;
    first
      [ solve [auto with keeps]
      | apply keep_bind
      | apply keep_try
      | apply keep_map_m
      | apply keep_for_each
      | match goal with
        | |- keeps _ (match ?x with _ => _ end) => destruct x
        | |- keeps _ (if ?x then _ else _) => destruct x
        end ]).

(** ** Local operations *)

Section local.
Context {Srv App : Type} `{Env : EngineEnv Srv App} {B : Type} (f : World Srv App -> B).

(** [f] does not look at the clocks, the queue, the key cache or the entropy. *)
Record blind : Prop := {
  bl_fresh : forall w, f (bump_entropy w) = f w;
  bl_sdek : forall c w, f (set_sdek c w) = f w;
  bl_sync : forall x w, f (set_db (set_sync_state x (w_db w)) w) = f w;
  bl_pending : forall x w, f (set_db (set_pending x (w_db w)) w) = f w;
}.
Hypothesis Hb : blind.

Lemma keep_fresh {A} (g : nat -> A) : keeps f (fresh g).
Proof. intros w. apply (bl_fresh Hb). Qed.
Lemma keep_getSdekM ak kv : keeps f (getSdekM ak kv).
Proof. intros w. unfold getSdekM. destruct (getSdek _ _ _ _) as [[? ?]|]; [|done]. apply (bl_sdek Hb). Qed.
Lemma keep_reserve n : keeps f (db_run (reserveSequenceBatch n)).
Proof. intros w. unfold db_run, reserveSequenceBatch. cbn. apply (bl_sync Hb). Qed.
End local.
#[export] Hint Resolve keep_fresh keep_getSdekM keep_reserve : keeps.

Section create.
Context {Srv App : Type} `{Env : EngineEnv Srv App} {B : Type} (f : World Srv App -> B).
Hypothesis Hb : blind f.

Lemma keep_encryptOperation sdek kv t o ot p : keeps f (encryptOperation sdek kv t o ot p).
Proof. unfold encryptOperation, nonce_next. keeps_tac. Qed.
Lemma keep_makeOperation device sdek a b ip : keeps f (makeOperation device sdek a b ip).
Proof.
  pose proof keep_encryptOperation as He. unfold makeOperation, uuidv7_next. destruct ip. keeps_tac.
Qed.

Lemma keep_createLocalOperationsBatch items enqueue : keeps f (createLocalOperationsBatch items enqueue).
Proof.
  unfold createLocalOperationsBatch, iso_next. destruct items as [|i items]; [apply keep_ret|].
  pose proof keep_makeOperation as Hm. keeps_tac. intros at_ w. apply (bl_pending _ Hb).
Qed.
End create.

(** The operations that come out carry what went in. *)
Definition created_for (item : PendingLocalOperation) (created : LocalOperation * string) : Prop :=
  objectType created.1 = pl_objectType item /\ objectId created.1 = pl_objectId item /\
  operationType created.1 = pl_operationType item.

Section created.
Context {Srv App : Type} `{Env : EngineEnv Srv App}.

Lemma map_m_Forall2 {A C} (P : A -> C -> Prop) (g : A -> Sync Srv App C) l w :
  (forall a w, match (g a w).1 with inr c => P a c | inl _ => True end) ->
  match (map_m g l w).1 with inr cs => Forall2 P l cs | inl _ => True end.
Proof.
  intros Hg. revert w. induction l as [|a l IH]; intros w; cbn [map_m]; [constructor|]. unfold bind.
  specialize (Hg a w). destruct (g a w) as [[e|c] w']; [done|]. specialize (IH w').
  destruct (map_m g l w') as [[e|cs] w'']; [done|]. by constructor.
Qed.

Lemma indexed_from_snd {A} i (l : list A) : map snd (indexed_from i l) = l.
Proof. revert i. induction l as [|a l IH]; intros i; cbn; [done|]. by rewrite IH. Qed.

Lemma createLocalOperationsBatch_created items enqueue w :
  match (createLocalOperationsBatch items enqueue w).1 with
  | inr created => Forall2 created_for items created
  | inl _ => True
  end.
Proof.
  unfold createLocalOperationsBatch. destruct items as [|i items]; [constructor|]. set (its := i :: items).
  unfold bind at 1, db_read. destruct (db_device _) as [device|]; [|done].
  unfold bind at 1. destruct (db_run _ _) as [[e|start] w1]; [done|]. unfold bind at 1.
  destruct (getSdekM _ _ w1) as [[e|sdek] w2]; [done|]. unfold bind at 1.
  pose proof (map_m_Forall2 (fun ip op => created_for ip.2 (op, deviceId device))
    (makeOperation device sdek start.1 start.2) (indexed_from 0 its) w2) as Hm.
  destruct (map_m _ _ w2) as [[e|ops] w3]; [done|]. cbn [fst] in Hm.
  destruct (bind _ _ w3) as [[e|created] w4] eqn:E; [done|].
  assert (created = map (fun op => (op, deviceId device)) ops) as ->.
  { unfold bind in E. destruct (_ w3) as [[?|[]] w5] in E; [done|]. by injection E as <- _. }
  rewrite <- (indexed_from_snd 0 its). apply Forall2_fmap. apply Hm.
  intros [k item] w'. unfold makeOperation, bind, encryptOperation, fresh. done.
Qed.
End created.

(** ** The restore job *)

Section job.
Context {Srv App : Type} `{Env : EngineEnv Srv App}.

Definition job_of (w : World Srv App) : option RestoreJobRecord := restore_job (w_db w).

Lemma job_blind : blind job_of.
Proof. by split. Qed.

Lemma keep_db_update g : (forall s, restore_job (g s) = restore_job s) -> keeps job_of (db_update g).
Proof. intros H w. apply H. Qed.
Lemma keep_db_run {A} (g : DB -> A * DB) : (forall s, restore_job (g s).2 = restore_job s) -> keeps job_of (db_run g).
Proof. intros H w. unfold db_run. specialize (H (w_db w)). by destruct (g (w_db w)). Qed.
End job.
#[export] Hint Resolve job_blind : keeps.

(** The storage operations of the engine only rewrite their own stores. *)
Ltac job_store := intros ?; first [reflexivity
  | unfold recordLocalFieldStatesBatch, putFieldStatesBatch, markAppliedBatch, getSyncState,
      markUploadInFlightRecords, requeueInFlightRecords, rewritePendingRecords; repeat case_match; reflexivity].
#[export] Hint Extern 4 (keeps job_of (db_update _)) => apply keep_db_update; job_store : keeps.
#[export] Hint Extern 4 (keeps job_of (db_run _)) => apply keep_db_run; job_store : keeps.
#[export] Hint Extern 4 (keeps job_of (modify _)) => intros ?; reflexivity : keeps.

Section job_upload.
Context {Srv App : Type} `{Env : EngineEnv Srv App}.
Abbreviation job_of := (@job_of Srv App).

Lemma job_makeReplacement device sdek a b ip : keeps job_of (makeReplacement device sdek a b ip).
Proof.
  unfold makeReplacement, uuidv7_next. destruct ip as [i [r p]].
  pose proof (fun sdek kv t o ot p => keep_encryptOperation _ job_blind sdek kv t o ot p). keeps_tac.
Qed.
Lemma job_resolveSdek ak kv memo : keeps job_of (resolveSdek ak kv memo).
Proof. unfold resolveSdek. keeps_tac. Qed.
Lemma job_decryptEnvelope ak memo t o ot env : keeps job_of (decryptEnvelope ak memo t o ot env).
Proof.
  unfold decryptEnvelope. destruct (jget env "keyVersion"); try apply keep_ret. intros w.
  pose proof (job_resolveSdek ak n memo w) as H. by destruct (resolveSdek ak n memo w) as [[e|[sdek memo']] w'].
Qed.
Hint Resolve job_makeReplacement job_decryptEnvelope : keeps.
Lemma job_decodeRestores ak memo rs : keeps job_of (decodeRestores ak memo rs).
Proof. revert memo. induction rs as [|r rs IH]; intros memo; cbn [decodeRestores]; keeps_tac. Qed.
Hint Resolve job_decodeRestores : keeps.

Lemma job_reissue records : keeps job_of (reissueRestoresAsCreate records).
Proof. unfold reissueRestoresAsCreate, iso_next, now_next. keeps_tac. Qed.
Hint Resolve job_reissue : keeps.

Lemma job_uploadM ops : keeps job_of (uploadM ops).
Proof. intros w. unfold uploadM. by destruct (uploadOperations _ _) as [[e|r] srv]. Qed.
Hint Resolve job_uploadM : keeps.

Lemma job_uploadBatch retryable heap req p : keeps job_of (uploadBatch retryable heap req p).
Proof. unfold uploadBatch, rewriteM. keeps_tac. Qed.
Hint Resolve job_uploadBatch : keeps.

Lemma job_upload_loop n req full : keeps job_of (upload_loop n req full).
Proof. revert req full. induction n as [|n IH]; intros req full; cbn [upload_loop]; unfold rewriteM; keeps_tac. Qed.

Lemma job_uploadPending : keeps job_of uploadPending.
Proof. apply job_upload_loop. Qed.
End job_upload.
#[export] Hint Resolve job_decryptEnvelope job_uploadPending : keeps.

(** ** Download *)

Section job_download.
Context {Srv App : Type} `{Env : EngineEnv Srv App}.
Abbreviation job_of := (@job_of Srv App).

(** Appliers and hooks leave the restore job alone. *)
Record appliers_keep_job : Prop := {
  ak_applier : forall t f op p x, appliers t = Some f -> restore_job (f op p x).2.1 = restore_job x.1;
  ak_batch : forall t f items x, batchAppliers t = Some f -> restore_job (f items x).2.1 = restore_job x.1;
  ak_hook : forall f x, f ∈ preSnapshotHooks -> restore_job (f x).2.1 = restore_job x.1;
}.
Hypothesis Hkeep : appliers_keep_job.

Lemma job_lift {A} (r : sync_error + A) : keeps job_of (lift r).
Proof. done. Qed.
Lemma job_run_app f : (forall x, restore_job (f x).2.1 = restore_job x.1) -> keeps job_of (run_app f).
Proof. intros H w. unfold run_app. specialize (H (w_db w, w_app w)). by destruct (f _) as [r [db a]]. Qed.
Hint Resolve job_lift : keeps.

Lemma job_dispatch op p : keeps job_of (dispatchToApplier op p).
Proof.
  unfold dispatchToApplier. apply keep_bind; [auto with keeps|]. intros _.
  destruct (appliers _) eqn:E; [|apply keep_ret]. apply job_run_app. intros x. by eapply ak_applier.
Qed.
Lemma job_runBatch t f items : batchAppliers t = Some f -> keeps job_of (runBatchApplier f items).
Proof.
  intros E. unfold runBatchApplier. apply keep_bind; [auto with keeps|]. intros _.
  apply job_run_app. intros x. by eapply ak_batch.
Qed.
Lemma job_decrypt ak memo op : keeps job_of (decryptWithResolver ak memo op).
Proof. unfold decryptWithResolver. keeps_tac. Qed.
Lemma job_flushApplied ps : keeps job_of (flushAppliedBuffer ps).
Proof. unfold flushAppliedBuffer, iso_next. keeps_tac. Qed.
Hint Resolve job_dispatch job_decrypt job_flushApplied : keeps.
Lemma job_markApplied ps id : keeps job_of (markApplied ps id).
Proof. unfold markApplied. keeps_tac. Qed.
Hint Resolve job_markApplied : keeps.
Lemma job_markAppliedAll ps ids : keeps job_of (markAppliedAll ps ids).
Proof. revert ps. induction ids; intros ps; cbn [markAppliedAll]; keeps_tac. Qed.
Hint Resolve job_markAppliedAll : keeps.

Lemma job_flushBatch ps t : keeps job_of (flushBatchBuffer ps t).
Proof.
  unfold flushBatchBuffer. destruct (jm_get _ _) as [[|i l]|]; try apply keep_ret.
  destruct (batchAppliers t) as [f|] eqn:E; [|apply keep_throw].
  apply keep_bind; [by eapply job_runBatch|]. keeps_tac.
Qed.
Hint Resolve job_flushBatch : keeps.
Lemma job_flushBatches ps ts : keeps job_of (flushBatchBuffers ps ts).
Proof. revert ps. induction ts; intros ps; cbn [flushBatchBuffers]; keeps_tac. Qed.
Hint Resolve job_flushBatches : keeps.

Lemma job_applyOperation device op ps : keeps job_of (applyOperation device op ps).
Proof. unfold applyOperation, flushAllBatchBuffers. keeps_tac. Qed.
Hint Resolve job_applyOperation : keeps.
Lemma job_applyOperations device done ops ps : keeps job_of (applyOperations device done ops ps).
Proof. revert ps. induction ops; intros ps; cbn [applyOperations]; keeps_tac. Qed.
Hint Resolve job_applyOperations : keeps.
Lemma job_applyPage device memo ops : keeps job_of (applyPage device memo ops).
Proof. unfold applyPage, flushAllBatchBuffers. keeps_tac. Qed.
Hint Resolve job_applyPage : keeps.

Lemma job_synthetic sn l o : keeps job_of (syntheticSnapshotOp sn l o).
Proof. unfold syntheticSnapshotOp, uuidv7_next, iso_next. keeps_tac. Qed.
Hint Resolve job_synthetic : keeps.
Lemma job_decryptChunk sn l ak memo groups objs : keeps job_of (decryptSnapshotChunk sn l ak memo groups objs).
Proof. revert memo groups. induction objs; intros memo groups; cbn [decryptSnapshotChunk]; keeps_tac. Qed.
Hint Resolve job_decryptChunk : keeps.
Lemma job_dispatchGroup g : keeps job_of (dispatchGroup g).
Proof.
  unfold dispatchGroup. destruct (batchAppliers _) as [f|] eqn:E; [by eapply job_runBatch|]. keeps_tac.
Qed.
Hint Resolve job_dispatchGroup : keeps.
Lemma job_chunks sn l ak memo chunks : keeps job_of (applySnapshotChunks sn l ak memo chunks).
Proof. revert memo. induction chunks; intros memo; cbn [applySnapshotChunks]; keeps_tac. Qed.
Lemma job_tombstone sn l t : keeps job_of (applyTombstone sn l t).
Proof. unfold applyTombstone. keeps_tac. Qed.
Hint Resolve job_chunks job_tombstone : keeps.

Lemma job_applySnapshot sn device : keeps job_of (applySnapshot sn device).
Proof.
  unfold applySnapshot, iso_next. apply keep_bind; [auto with keeps|]. intros _.
  apply keep_bind; [|intros _; keeps_tac]. apply keep_for_each. intros f Hf. unfold runPreSnapshotHook.
  apply keep_try; [|intros; apply keep_ret]. apply job_run_app. intros x. by apply ak_hook.
Qed.
Lemma job_downloadM c : keeps job_of (downloadM c).
Proof. intros w. unfold downloadM. by destruct (downloadChanges _ _) as [[e|p] srv]. Qed.
Lemma job_fetchSnapshotM : keeps job_of fetchSnapshotM.
Proof. intros w. unfold fetchSnapshotM. by destruct (fetchSnapshot _) as [[e|p] srv]. Qed.
Hint Resolve job_applySnapshot job_downloadM job_fetchSnapshotM : keeps.

Lemma job_download_loop n device memo taken : keeps job_of (download_loop n device memo taken).
Proof. revert memo taken. induction n as [|n IH]; intros memo taken; cbn [download_loop]; unfold iso_next; keeps_tac. Qed.

Lemma job_downloadAndApply : keeps job_of downloadAndApply.
Proof. pose proof job_download_loop. unfold downloadAndApply. keeps_tac. Qed.
End job_download.
