(* ===== verification/RestoreJobFacts.v ===== *)
(** * Properties of restoring

    Nothing is applied before the account is in step, a copy of the bookmarks
    is safe on the server and the point has been read; what is applied is the
    plan, in order; and a restore that finishes, however often the worker was
    stopped on the way, leaves the restore point's bookmarks. *)

From S2P Require Import Prelude FractionalIndex JsMap Types Util Json Storage StorageFacts Crypto Engine EngineDownload RestorePoints RestorePointsFacts Planner PlannerFacts RestoreJob EngineKeeps.

Open Scope Z_scope.
Open Scope js_scope.

(** ** What the bookmark component promises

    [bk_view] is the managed bookmarks of a browser, by objectId, as
    PlannerFacts sees them; [bk_idle]: no captured event waits in a queue. *)

Class BookmarksLaws {Srv App : Type} (Env : RestoreEnv Srv App) := {
  bk_view : DB * App -> Browser;
  bk_depth : nat;
  bk_idle : DB * App -> Prop;
  (** Bookmarks live in the browser, the mappings and the field states. *)
  bk_frame : forall db db' a, object_mappings db' = object_mappings db -> field_state db' = field_state db ->
    bk_view (db', a) = bk_view (db, a) /\ (bk_idle (db, a) -> bk_idle (db', a));
  (** Reading flushes the queues; a read without unmapped nodes is complete. *)
  bk_read : forall x live n x', readLiveBookmarks x = ((live, n), x') ->
    bk_idle x' /\ restore_job x'.1 = restore_job x.1 /\
    (n <= 0 -> browser_of live = bk_view x' /\ (length live < bk_depth)%nat);
  bk_reread : forall x, bk_idle x -> bk_view (readLiveBookmarks x).2 = bk_view x;
  (** Operations that are applied are applied. *)
  bk_apply : forall x created slice x', Forall2 created_for (map pending_of slice) created ->
    applyRestoreOperations created (map (fun op => payload_jsval (po_payload op)) slice) x = (inr tt, x') ->
    bk_view x' = apply_ops bk_depth (bk_view x) slice;
  (** The restore job is not theirs. *)
  bk_apply_job : forall created ps x, restore_job (applyRestoreOperations created ps x).2.1 = restore_job x.1;
  bk_sweep_job : forall x, restore_job (sweepStaleBookmarkMappings x).2.1 = restore_job x.1;
  bk_appliers_job : appliers_keep_job;
}.

Section runs.
Context {Srv App : Type} `{Env : RestoreEnv Srv App}.
Abbreviation RState := (RState Srv App).

Definition bookmarks (s : RState) : DB * App := (w_db (rs_world s), w_app (rs_world s)).
Definition job (s : RState) : option RestoreJobRecord := restore_job (w_db (rs_world s)).
Definition phase (s : RState) : ProgressPhase := rp_phase (rs_progress s).

(** The module variables and the log are as they were. *)
Record quiet (s s' : RState) : Prop := {
  q_progress : rs_progress s' = rs_progress s;
  q_loaded : rs_loaded s' = rs_loaded s;
  q_log : rs_log s' = rs_log s;
}.
#[export] Instance quiet_preorder : PreOrder quiet.
Proof. split; [done|]. intros a b c [] []. split; congruence. Qed.

Lemma await_inv s r s' : await s = (r, s') -> quiet s s' /\ rs_world s' = rs_world s /\ (r = inl Killed \/ r = inr tt).
Proof. unfold await. destruct (re_kills _); intros [= <- <-]; split_and!; (done || auto). Qed.

Lemma engine_inv {A} (m : Sync Srv App A) s r s' : engine m s = (r, s') ->
  quiet s s' /\ ((r = inl Killed /\ rs_world s' = rs_world s) \/
    exists x, m (rs_world s) = (x, rs_world s') /\
      r = match x with inl e => inl (ExApi (ApiFailed e)) | inr a => inr a end).
Proof.
  unfold engine. intros H. binv H Ha; apply await_inv in Ha as ([Hp Hl Hg] & Hw & Hr).
  - split; [by split|]. left. by destruct Hr as [?|?]; simplify_eq.
  - rewrite Hw in H. destruct (m (rs_world s)) as [[e|a] w] eqn:E; simplify_eq; cbn in *;
      (split; [by split|right; by eexists]).
Qed.

Lemma browser_inv {A} (f : DB * App -> (restore_exn + A) * (DB * App)) s r s' : browser f s = (r, s') ->
  quiet s s' /\ ((r = inl Killed /\ rs_world s' = rs_world s) \/ (f (bookmarks s) = (r, bookmarks s'))).
Proof.
  unfold browser. intros H. binv H Ha; apply await_inv in Ha as ([Hp Hl Hg] & Hw & Hr).
  - split; [by split|]. left. by destruct Hr as [?|?]; simplify_eq.
  - rewrite Hw in H. unfold bookmarks. destruct (f _) as [r' [db a]] eqn:E. simplify_eq. cbn in *.
    split; [by split|right; done].
Qed.

Lemma sync_inv {A} (m : Sync Srv App A) s r s' : sync m s = (r, s') ->
  quiet s s' /\ exists x, m (rs_world s) = (x, rs_world s') /\
      r = match x with inl e => inl (ExApi (ApiFailed e)) | inr a => inr a end.
Proof. unfold sync. destruct (m (rs_world s)) as [[e|a] w] eqn:E; intros; simplify_eq; (split; [done|by eexists]). Qed.

Lemma catch_inv {A} (m : R Srv App A) h s r s' : catch m h s = (r, s') ->
  (m s = (r, s') /\ (r = inl Killed \/ exists a, r = inr a)) \/
  (exists e s1, m s = (inl e, s1) /\ e <> Killed /\ h e s1 = (r, s')).
Proof.
  unfold catch, try_catch. destruct (m s) as [[e|a] s1] eqn:E; intros H; [|left; split; [done|right; simplify_eq; by eexists]].
  destruct e; try (right; by eexists _, _). left. cbn in H. unfold throw in H. simplify_eq. by split; [|left].
Qed.
End runs.

Section laws.
Context {Srv App : Type} `{Env : RestoreEnv Srv App} {Laws : BookmarksLaws Env}.
Abbreviation RState := (RState Srv App).

Definition view (s : RState) : Browser := bk_view (bookmarks s).

(** What bookmarks are made of. *)
Definition substance (w : World Srv App) :=
  (object_mappings (w_db w), field_state (w_db w), w_app w).

Lemma substance_blind : blind substance.
Proof. by split. Qed.

Lemma view_frame (s s' : RState) : substance (rs_world s') = substance (rs_world s) ->
  view s' = view s /\ (bk_idle (bookmarks s) -> bk_idle (bookmarks s')).
Proof.
  unfold substance, view, bookmarks. intros [= Hm Hf ->]. by apply bk_frame.
Qed.

Lemma dbDo_inv (g : DB -> DB) (s : RState) r s' : dbDo g s = (r, s') ->
  quiet s s' /\ ((r = inl Killed /\ rs_world s' = rs_world s) \/
                 (r = inr tt /\ rs_world s' = set_db (g (w_db (rs_world s))) (rs_world s))).
Proof.
  intros [Hq [?|(x & Hx & ->)]]%engine_inv; (split; [done|]); [by left|right]. cbn in Hx. by injection Hx as <- <-.
Qed.

(** [job] is recorded with the request [rq]. *)
Definition job_is (rq : RestoreRequest) (s : RState) : Prop := job_request <$> job s = Some rq.

Lemma create_inv items (s : RState) r s' : engine (createLocalOperationsBatch items true) s = (r, s') ->
  quiet s s' /\ substance (rs_world s') = substance (rs_world s) /\ job s' = job s /\
  match r with inr created => Forall2 created_for items created | inl _ => True end.
Proof.
  intros [Hq [[-> Hw]|(x & Hx & ->)]]%engine_inv; (split; [done|]); [by rewrite Hw; unfold job; rewrite Hw|].
  pose proof (keep_createLocalOperationsBatch substance substance_blind items true (rs_world s)) as H1.
  pose proof (keep_createLocalOperationsBatch job_of job_blind items true (rs_world s)) as H2.
  pose proof (createLocalOperationsBatch_created items true (rs_world s)) as H3. rewrite Hx in *.
  split_and!; [done|done|]. by destruct x.
Qed.

(** A point of a run: the cached point, the phase, the log so far, what the
    job record satisfies. *)
Record at_ (l : option (string * PointPlaintext)) (ph : ProgressPhase) (g : list REvent)
    (J : option RestoreJobRecord -> Prop) (s : RState) : Prop := {
  at_loaded : rs_loaded s = l;
  at_phase : phase s = ph;
  at_log : rs_log s = g;
  at_job : J (job s);
}.

Lemma at_quiet l ph g J s s' : quiet s s' -> job s' = job s -> at_ l ph g J s -> at_ l ph g J s'.
Proof. intros [Hp Hl Hg] Hj []. unfold phase in *. split; unfold phase; congruence. Qed.

Definition viewing (v : Browser) (P : RState -> Prop) (s : RState) : Prop := P s /\ view s = v.

Lemma triple_await v l ph g J : triple (viewing v (at_ l ph g J)) await (fun _ => viewing v (at_ l ph g J))
  (fun _ => at_ l ph g J).
Proof.
  intros s [Hs Hv]. destruct (await s) as [r s'] eqn:E. apply await_inv in E as (Hq & Hw & Hr).
  assert (at_ l ph g J s') by (eapply at_quiet; [done| |done]; unfold job; by rewrite Hw).
  destruct Hr as [-> | ->]; [done|]. split; [done|]. unfold view, bookmarks in *. by rewrite Hw.
Qed.

Lemma triple_create items v l ph g J : triple (viewing v (at_ l ph g J)) (engine (createLocalOperationsBatch items true))
  (fun created s => Forall2 created_for items created /\ viewing v (at_ l ph g J) s) (fun _ => at_ l ph g J).
Proof.
  intros s [Hs <-]. destruct (engine _ s) as [r s'] eqn:E. apply create_inv in E as (Hq & Hsub & Hj & Hr).
  apply (at_quiet l ph g J) in Hq; [|done..]. destruct r; [done|]. split; [done|]. split; [done|]. by apply view_frame.
Qed.

Lemma triple_log e v l ph g J : triple (viewing v (at_ l ph g J)) (logM e)
  (fun _ => viewing v (at_ l ph (g ++ [e]) J)) (fun _ => at_ l ph g J).
Proof. intros s [[H1 H2 <- H4] Hv]. by split; [split|]. Qed.

Lemma triple_apply created slice v l ph g rq : Forall2 created_for (map pending_of slice) created ->
  triple (viewing v (at_ l ph g (fun o => job_request <$> o = Some rq)))
    (fun s => let '(r, x) := applyRestoreOperations created (map (fun op => payload_jsval (po_payload op)) slice)
                               (w_db (rs_world s), w_app (rs_world s)) in
              (r, set_world (set_db_app x (rs_world s)) s))
    (fun _ => viewing (apply_ops bk_depth v slice) (at_ l ph g (fun o => job_request <$> o = Some rq)))
    (fun _ => at_ l ph g (fun o => job_request <$> o = Some rq)).
Proof.
  intros Hc s [[H1 H2 H3 H4] <-]. fold (bookmarks s).
  pose proof (bk_apply_job created (map (fun op => payload_jsval (po_payload op)) slice) (bookmarks s)) as Hj.
  destruct (applyRestoreOperations _ _ _) as [r x] eqn:E.
  assert (at_ l ph g (fun o => job_request <$> o = Some rq) (set_world (set_db_app x (rs_world s)) s)) as Hat.
  { split; try done. cbn in Hj. unfold job. cbn. by rewrite Hj. }
  destruct r as [e|[]]; [done|]. split; [done|]. unfold view, bookmarks at 1. cbn. rewrite <- surjective_pairing.
  by eapply bk_apply.
Qed.

Lemma triple_putJob j v l ph g J J' : J' (Some j) -> triple (viewing v (at_ l ph g J)) (dbDo (putRestoreJob j))
  (fun _ => viewing v (at_ l ph g J')) (fun e s => e = Killed /\ at_ l ph g J s).
Proof.
  intros HJ s [Hs <-]. destruct (dbDo _ s) as [r s'] eqn:E. apply dbDo_inv in E as (Hq & [[-> Hw]|[-> Hw]]).
  - split; [done|]. eapply at_quiet; [done| |done]. unfold job. by rewrite Hw.
  - destruct Hq as [Hp Hl Hg], Hs. split; [split|].
    + congruence.
    + unfold phase in *. congruence.
    + congruence.
    + unfold job. by rewrite Hw.
    + apply view_frame. by rewrite Hw.
Qed.

Lemma triple_setProgress f v l ph g J : (forall p, rp_phase (f p) = rp_phase p) ->
  triple (viewing v (at_ l ph g J)) getRestoreProgress
    (fun p s => viewing v (at_ l ph g J) s /\ rs_progress s = p) (fun _ => at_ l ph g J) /\
  forall p, triple (fun s => viewing v (at_ l ph g J) s /\ rs_progress s = p) (setRestoreProgress (f p))
    (fun _ => viewing v (at_ l ph g J)) (fun _ => at_ l ph g J).
Proof.
  intros Hf. split; [by intros s|]. intros p s [[[H1 H2 H3 H4] Hv] <-]. split; [split; try done|done].
  unfold phase in *. cbn. by rewrite Hf.
Qed.

(** One slice: nothing, or the slice is handed over; a slice that comes back
    has been applied and counted. *)
Abbreviation for_request rq := (fun o => job_request <$> o = Some rq).

Lemma triple_apply_slice j n slice v l ph g :
  triple (viewing v (at_ l ph g (for_request (job_request j)))) (apply_slice j n slice)
    (fun _ => viewing (apply_ops bk_depth v slice) (at_ l ph (g ++ [EvApply slice]) (for_request (job_request j))))
    (fun _ s => at_ l ph g (for_request (job_request j)) s \/ at_ l ph (g ++ [EvApply slice]) (for_request (job_request j)) s).
Proof.
  set (J := for_request (job_request j)). unfold apply_slice.
  eapply triple_bind; [eapply triple_exn; [apply triple_create|by left]|]. intros created.
  apply triple_pure. intros Hc.
  eapply triple_bind; [eapply triple_exn; [apply triple_await|by left]|]. intros [].
  eapply triple_bind; [eapply triple_exn; [apply triple_log|by left]|]. intros [].
  eapply triple_bind; [eapply triple_exn; [by apply triple_apply|by right]|]. intros [].
  eapply triple_bind; [eapply triple_exn; [by apply (triple_putJob _ _ _ _ _ _ J)|by right; apply H]|]. intros [].
  destruct (triple_setProgress (progress_applied (n + Z.of_nat (length slice))) (apply_ops bk_depth v slice) l ph
    (g ++ [EvApply slice]) J) as [Hget Hset]; [done|].
  eapply triple_bind; [eapply triple_exn; [apply Hget|by right]|]. intros p.
  eapply triple_bind; [eapply triple_exn; [apply Hset|by right]|]. intros [].
  eapply triple_bind; [eapply triple_exn; [apply triple_await|by right]|]. intros [].
  by apply triple_ret.
Qed.

Lemma triple_apply_slices j n chunks v l ph g :
  triple (viewing v (at_ l ph g (for_request (job_request j)))) (apply_slices j n chunks)
    (fun _ => viewing (apply_ops bk_depth v (concat chunks)) (at_ l ph (g ++ map EvApply chunks) (for_request (job_request j))))
    (fun _ s => exists k, at_ l ph (g ++ map EvApply (take k chunks)) (for_request (job_request j)) s).
Proof.
  revert n v g. induction chunks as [|c chunks IH]; intros n v g; cbn [apply_slices concat map].
  - apply triple_ret. intros s Hs. by rewrite app_nil_r.
  - eapply triple_bind.
    + eapply triple_exn; [apply triple_apply_slice|]. intros e s [Hs|Hs]; [exists 0%nat|exists 1%nat]; cbn; by rewrite ?app_nil_r, ?take_0.
    + intros n'. eapply triple_conseq; [apply IH|done| |].
      * intros [] s. unfold apply_ops. by rewrite foldl_app, <- app_assoc.
      * intros e s [k Hk]. exists (S k). cbn. by rewrite <- app_assoc in Hk.
Qed.
(** *** Before the plan *)

Lemma triple_engine {A} (m : Sync Srv App A) l ph g J : keeps job_of m ->
  triple (at_ l ph g J) (engine m) (fun _ => at_ l ph g J) (fun _ => at_ l ph g J).
Proof.
  intros Hm s Hs. destruct (engine m s) as [r s'] eqn:E. apply engine_inv in E as (Hq & E).
  assert (at_ l ph g J s'); [|by destruct r]. eapply at_quiet; [done| |done].
  destruct E as [[_ Hw]|(x & Hx & _)]; unfold job; [by rewrite Hw|]. specialize (Hm (rs_world s)). by rewrite Hx in Hm.
Qed.

Lemma triple_sweep l ph g J :
  triple (at_ l ph g J) (browser sweepStaleBookmarkMappings) (fun _ => at_ l ph g J) (fun _ => at_ l ph g J).
Proof.
  intros s Hs. destruct (browser _ s) as [r s'] eqn:E. apply browser_inv in E as (Hq & E).
  assert (at_ l ph g J s'); [|by destruct r]. eapply at_quiet; [done| |done].
  destruct E as [[_ Hw]|Hx]; unfold job; [by rewrite Hw|]. pose proof (bk_sweep_job (bookmarks s)) as Hj. by rewrite Hx in Hj.
Qed.

(** At a point of a run, with nothing captured waiting and the browser as
    [v]. *)
Definition settled (v : Browser) (P : RState -> Prop) (s : RState) : Prop := viewing v P s /\ bk_idle (bookmarks s).

(** [live] was read whole from some browser. *)
Definition was_read (live : list LiveBookmarkNode) : Prop :=
  exists x n x', readLiveBookmarks x = ((live, n), x') /\ n <= 0.

Lemma readLive_inv (s : RState) r s' : readLive s = (r, s') ->
  quiet s s' /\ ((r = inl Killed /\ rs_world s' = rs_world s) \/
    exists live, r = inr live /\ readLiveBookmarks (bookmarks s) = (live, bookmarks s')).
Proof.
  intros [Hq [?|Hx]]%browser_inv; (split; [done|]); [by left|right].
  destruct (readLiveBookmarks _) as [live x]. injection Hx as <- ->. by eexists.
Qed.

Lemma triple_readLive l ph g J : triple (at_ l ph g J) readLive
  (fun live s => at_ l ph g J s /\ (live.2 <= 0 -> settled (browser_of live.1) (at_ l ph g J) s /\
     (length live.1 < bk_depth)%nat /\ was_read live.1))
  (fun _ => at_ l ph g J).
Proof.
  intros s Hs. destruct (readLive s) as [r s'] eqn:E. apply readLive_inv in E as (Hq & [[-> Hw]|([live n] & -> & Hx)]).
  - eapply at_quiet; [done| |done]. unfold job. by rewrite Hw.
  - destruct (bk_read _ _ _ _ Hx) as (Hi & Hj & Hl). assert (at_ l ph g J s') by (by eapply at_quiet).
    split; [done|]. cbn [fst snd]. intros Hn. destruct (Hl Hn) as [Hb Hd]. split_and!; [|done|by eexists _, _, _].
    split; [by split|done].
Qed.

Lemma triple_reread v l ph g J : triple (settled v (at_ l ph g J)) readLive
  (fun _ => settled v (at_ l ph g J)) (fun _ => settled v (at_ l ph g J)).
Proof.
  intros s [[Hs <-] Hi]. destruct (readLive s) as [r s'] eqn:E. apply readLive_inv in E as (Hq & [[-> Hw]|([live n] & -> & Hx)]).
  - split; [split|].
    + eapply at_quiet; [done| |done]. unfold job. by rewrite Hw.
    + unfold view, bookmarks. by rewrite Hw.
    + unfold bookmarks in *. by rewrite Hw.
  - destruct (bk_read _ _ _ _ Hx) as (Hi' & Hj & _). split; [split|done]; [by eapply at_quiet|].
    pose proof (bk_reread _ Hi) as Hv. by rewrite Hx in Hv.
Qed.

Lemma triple_settled {A} (m : Sync Srv App A) v l ph g J : keeps job_of m -> keeps substance m ->
  triple (settled v (at_ l ph g J)) (engine m) (fun _ => settled v (at_ l ph g J)) (fun _ => settled v (at_ l ph g J)) /\
  triple (settled v (at_ l ph g J)) (sync m) (fun _ => settled v (at_ l ph g J)) (fun _ => settled v (at_ l ph g J)).
Proof.
  intros Hm Hsub. assert (forall s s', quiet s s' -> (rs_world s' = rs_world s \/ exists x, m (rs_world s) = (x, rs_world s')) ->
    settled v (at_ l ph g J) s -> settled v (at_ l ph g J) s') as Hk.
  { intros s s' Hq Hx [[Hs <-] Hi].
    assert (job s' = job s /\ substance (rs_world s') = substance (rs_world s)) as [Hj Hw].
    { destruct Hx as [Hw|(x & Hx)]; [unfold job; by rewrite Hw|]. specialize (Hm (rs_world s)). specialize (Hsub (rs_world s)).
      by rewrite Hx in Hm, Hsub. }
    apply view_frame in Hw as [Hv Hi']. split; [split; [by eapply at_quiet|done]|by apply Hi']. }
  split; intros s Hs.
  - destruct (engine m s) as [r s'] eqn:E. apply engine_inv in E as (Hq & [[-> Hw]|(x & Hx & ->)]).
    + eapply Hk; [done|by left|done].
    + assert (settled v (at_ l ph g J) s') by (eapply Hk; [done|right; by eexists|done]). by destruct x.
  - destruct (sync m s) as [r s'] eqn:E. apply sync_inv in E as (Hq & x & Hx & ->).
    assert (settled v (at_ l ph g J) s') by (eapply Hk; [done|right; by eexists|done]). by destruct x.
Qed.
(** *** The safety copy *)

Lemma triple_same {A} (P : RState -> Prop) (m : R Srv App A) k :
  triple P m (fun _ => P) (fun _ => P) -> (forall a, triple P (k a) (fun (_ : BuiltPoint) => P) (fun _ => P)) ->
  triple P (bind m k) (fun _ => P) (fun _ => P).
Proof. intros Hm Hk. by eapply triple_bind. Qed.

Lemma triple_build kind mode v l ph g J : triple (settled v (at_ l ph g J)) (buildRestorePoint kind mode)
  (fun _ => settled v (at_ l ph g J)) (fun _ => settled v (at_ l ph g J)).
Proof.
  unfold buildRestorePoint, dbGet. apply triple_same; [by apply triple_settled|]. intros [device|]; [|by apply triple_throw].
  apply triple_same.
  { unfold captureNodesM. eapply triple_bind; [apply triple_reread|]. intros live.
    destruct (captureNodes _ _ _); [by apply triple_throw|by apply triple_ret]. }
  intros nodes. apply triple_same; [by apply triple_settled|]. intros createdAt.
  apply triple_same; [by apply triple_settled|]. intros id.
  apply triple_same; [apply triple_settled; apply keep_getSdekM; [apply job_blind|apply substance_blind]|]. intros sdek.
  apply triple_same; [by apply triple_settled|]. intros nonce. destruct (encodePoint _ _ _ _ _ _). by apply triple_ret.
Qed.

Definition is_upload (e : REvent) : Prop := match e with EvUpload _ _ _ => True | _ => False end.

Lemma triple_uploadPoint u v l ph g J : triple (settled v (at_ l ph g J)) (uploadPointM u)
  (fun id => settled v (at_ l ph (g ++ [EvUpload (up_id u) (up_kind u) (inr id)]) J))
  (fun _ s => exists evs, Forall is_upload evs /\ settled v (at_ l ph (g ++ evs) J) s).
Proof.
  intros s [[[H1 H2 H3 H4] Hv] Hi]. unfold uploadPointM, bind, await. destruct (re_kills _); cbn.
  - exists []. rewrite app_nil_r. by repeat split.
  - destruct (uploadRestorePoint _ _) as [[e|id] srv]; cbn; [|repeat split; try done; cbn; by rewrite H3].
    exists [EvUpload (up_id u) (up_kind u) (inl e)]. split; [by repeat constructor|]. repeat split; try done. cbn. by rewrite H3.
Qed.

Lemma triple_createUploaded kind mode v l ph g J :
  triple (settled v (at_ l ph g J)) (createUploadedRestorePoint kind mode)
    (fun id s => exists pid, settled v (at_ l ph (g ++ [EvUpload pid (RestorePointKind_str kind) (inr id)]) J) s)
    (fun _ s => exists evs, Forall is_upload evs /\ settled v (at_ l ph (g ++ evs) J) s).
Proof.
  unfold createUploadedRestorePoint. eapply triple_bind with (Q := fun built s =>
    settled v (at_ l ph g J) s /\ up_kind (bt_upload built) = RestorePointKind_str kind).
  - intros s Hs. pose proof (triple_build kind mode v l ph g J s Hs) as Hb.
    destruct (buildRestorePoint kind mode s) as [[e|b] s'] eqn:E; [by exists []; rewrite app_nil_r|].
    split; [done|]. unfold buildRestorePoint in E. bret E. destruct x as [device|]; [|done].
    do 5 bret E.
    destruct (encodePoint _ _ _ _ _ _). by injection E as <- <-.
  - intros b s [Hs Hk]. pose proof (triple_uploadPoint (bt_upload b) v l ph g J s Hs) as Hu. rewrite Hk in Hu.
    destruct (uploadPointM _ s) as [[e|id] s']; [done|by eexists].
Qed.

Lemma triple_catch {A} P (m : R Srv App A) h Q X Y :
  triple P m Q X -> (forall s, X Killed s -> Y Killed s) -> (forall e, e <> Killed -> triple (X e) (h e) Q Y) ->
  triple P (catch m h) Q Y.
Proof.
  intros Hm HK Hh. unfold catch. eapply triple_try_catch; [done|]. intros e. destruct e; try by apply Hh. by apply triple_throw.
Qed.

(** The kinds a copy made before a restore can have. *)
Definition copy_kinds : list string := ["pre_restore"; "manual"].

Definition saved (evs : list REvent) : Prop :=
  exists ups pid kind id, evs = ups ++ [EvUpload pid kind (inr id)] /\ Forall is_upload ups /\ kind ∈ copy_kinds.

Lemma triple_preRestore v l ph g J : triple (settled v (at_ l ph g J)) uploadPreRestorePoint
  (fun _ s => exists evs, saved evs /\ settled v (at_ l ph (g ++ evs) J) s)
  (fun _ s => exists evs, Forall is_upload evs /\ at_ l ph (g ++ evs) J s).
Proof.
  set (X := fun s => exists evs, Forall is_upload evs /\ settled v (at_ l ph (g ++ evs) J) s).
  assert (forall kind g', kind ∈ [RkPreRestore; RkManual] -> Forall is_upload g' ->
    triple (settled v (at_ l ph (g ++ g') J)) (createUploadedRestorePoint kind CaptureFull)
      (fun _ s => exists evs, saved evs /\ settled v (at_ l ph (g ++ evs) J) s) (fun _ => X)) as Hc.
  { intros kind g' Hk Hg. eapply triple_conseq; [apply triple_createUploaded|done| |].
    - intros id s [pid Hs]. exists (g' ++ [EvUpload pid (RestorePointKind_str kind) (inr id)]). rewrite <- app_assoc in Hs.
      split; [|done]. exists g', pid, (RestorePointKind_str kind), id. split_and!; [done|done|].
      unfold copy_kinds. rewrite !elem_of_cons in *. destruct Hk as [->|[->|[]%not_elem_of_nil]]; cbn; auto.
    - intros e s (evs & He & Hs). exists (g' ++ evs). rewrite <- app_assoc in Hs. split; [by apply Forall_app|done]. }
  assert (forall evs s, Forall is_upload evs -> settled v (at_ l ph (g ++ evs) J) s ->
    exists evs, Forall is_upload evs /\ at_ l ph (g ++ evs) J s) as Hx.
  { intros evs s He [[Hs _] _]. by exists evs. }
  assert (forall e Q, triple X (pre_restore_failed e) Q (fun _ s => exists evs, Forall is_upload evs /\ at_ l ph (g ++ evs) J s)) as Hfail.
  { intros e Q s (evs & He & Hs). unfold pre_restore_failed. destruct e; try by eapply Hx. destruct e; by eapply Hx. }
  unfold uploadPreRestorePoint. eapply (triple_catch _ _ _ _ (fun _ => X)).
  - specialize (Hc RkPreRestore [] ltac:(set_solver) ltac:(constructor)). by rewrite app_nil_r in Hc.
  - intros s (evs & He & Hs). by eapply Hx.
  - intros e _. case_bool_decide; [|apply Hfail]. eapply (triple_catch _ _ _ _ (fun _ => X)); [|intros s (evs & He & Hs); by eapply Hx|intros e' _; apply Hfail].
    intros s (evs & He & Hs). by apply (Hc RkManual evs ltac:(set_solver) He).
Qed.
(** *** Under the lock *)

Definition not_apply (e : REvent) : Prop := match e with EvApply _ => False | _ => True end.

Lemma uploads_not_apply evs : Forall is_upload evs -> Forall not_apply evs.
Proof. intros H. eapply Forall_impl; [exact H|]. by intros []. Qed.

(** What comes before the plan's first slice: a fresh run has saved a copy. *)
Definition prepared (resumed : bool) (pre : list REvent) : Prop :=
  if resumed then pre = [] else saved pre.

Definition plan_slices (plan : RestorePlan) : list (list PlannedOperation) :=
  slices (plan_operations plan) RESTORE_CHUNK_SIZE.

(** The events of a run that has handed over the first [k] slices of [plan]. *)
Definition run_events (pre : list REvent) (plan : RestorePlan) (k : nat) : list REvent :=
  EvSynced :: pre ++ map EvApply (take k (plan_slices plan)).

(** [plan] was made for [request] and [point] from a complete reading. *)
Definition planned (request : RestoreRequest) (point : PointPlaintext) (live : list LiveBookmarkNode)
    (plan : RestorePlan) : Prop :=
  was_read live /\ (length live < bk_depth)%nat /\ plan_of request point live = inr plan.

(** No job, or a job for [request]. *)
Definition job_free (request : RestoreRequest) (o : option RestoreJobRecord) : Prop :=
  o = None \/ job_request <$> o = Some request.

(** Where a run under the lock can end without a result. *)
Definition stopped (request : RestoreRequest) (point : PointPlaintext) (resumed : bool)
    (l : option (string * PointPlaintext)) (ph : ProgressPhase) (g : list REvent) (s : RState) : Prop :=
  (exists evs ph', Forall not_apply evs /\ (ph' = ph \/ ph' = PhApplying) /\ at_ l ph' (g ++ evs) (job_free request) s) \/
  (exists live pre plan k, planned request point live plan /\ prepared resumed pre /\
     at_ l PhApplying (g ++ run_events pre plan k) (for_request request) s).

Lemma stopped_before request point resumed l ph g evs s : Forall not_apply evs ->
  at_ l ph (g ++ evs) (job_free request) s -> stopped request point resumed l ph g s.
Proof. intros He Hs. left. exists evs, ph. by split_and!; [|left|]. Qed.

Lemma triple_sync_iso v l ph g J (o : option RestoreJobRecord) : triple (settled v (at_ l ph g J))
  (match o with Some job => ret (startedAt job) | None => sync iso_next end : R Srv App string)
  (fun _ => settled v (at_ l ph g J)) (fun _ => settled v (at_ l ph g J)).
Proof. destruct o; [by apply triple_ret|]. by apply triple_settled. Qed.

Lemma at_weaken l ph g J J' s : (forall o, J o -> J' o) -> at_ l ph g J s -> at_ l ph g J' s.
Proof. intros HJ []. split; auto. Qed.

Lemma triple_run_plan request point resumeJob preId live plan pre l ph g :
  planned request point live plan -> prepared (bool_decide (is_Some resumeJob)) pre -> Forall not_apply pre ->
  triple (settled (browser_of live) (at_ l ph (g ++ EvSynced :: pre) (job_free request))) (run_plan request resumeJob preId plan)
    (fun plan' s => plan' = plan /\ viewing (apply_ops bk_depth (browser_of live) (plan_operations plan))
         (at_ l PhApplying (g ++ run_events pre plan (length (plan_slices plan))) (for_request request)) s)
    (fun _ => stopped request point (bool_decide (is_Some resumeJob)) l ph g).
Proof.
  intros Hpl Hpre Hna. unfold run_plan. set (V := browser_of live).
  assert (forall s, at_ l ph (g ++ EvSynced :: pre) (job_free request) s ->
    stopped request point (bool_decide (is_Some resumeJob)) l ph g s) as Hbefore.
  { intros s Hs. eapply stopped_before; [|exact Hs]. by constructor. }
  eapply triple_bind; [eapply triple_exn; [apply (triple_sync_iso V)|by intros ? s [[Hs _] _]; apply Hbefore]|].
  intros startedAt. match goal with |- context [putRestoreJob ?j] => set (job := j) end.
  assert (job_request job = request) as Hrq by by destruct request.
  eapply triple_bind with (Q := fun _ => viewing V (at_ l ph (g ++ EvSynced :: pre) (for_request request))).
  { eapply triple_conseq; [apply (triple_putJob job V l ph (g ++ EvSynced :: pre) (job_free request) (for_request request))| | |].
    - cbn. by rewrite Hrq.
    - by intros s [Hs _].
    - done.
    - intros e s [_ Hs]. by apply Hbefore. }
  intros []. eapply triple_bind with (Q := fun _ => viewing V (at_ l PhApplying (g ++ EvSynced :: pre) (for_request request))).
  { intros s [[H1 H2 H3 H4] Hv]. by split; [split|]. }
  intros []. fold (plan_slices plan). eapply triple_bind with (Q := fun _ =>
    viewing (apply_ops bk_depth V (plan_operations plan))
      (at_ l PhApplying (g ++ run_events pre plan (length (plan_slices plan))) (for_request request))).
  - pose proof (triple_apply_slices job (from_option (fun _ => Z.max 0 (from_option rj_total (Z.of_nat (length (plan_operations plan))) resumeJob - Z.of_nat (length (plan_operations plan)))) 0 resumeJob)
      (plan_slices plan) V l PhApplying (g ++ EvSynced :: pre)) as Hs. rewrite Hrq in Hs.
    eapply triple_conseq; [exact Hs|done| |].
    + intros []. unfold run_events, plan_slices. rewrite slices_concat by (unfold RESTORE_CHUNK_SIZE; lia).
      rewrite firstn_all. intros s. by rewrite <- app_assoc.
    + intros e s [k Hk]. right. exists live, pre, plan, k. unfold run_events. by rewrite <- app_assoc in Hk.
  - intros []. by apply triple_ret.
Qed.

Lemma triple_locked request point resumeJob l ph g :
  (forall j, resumeJob = Some j -> job_request j = request) ->
  triple (at_ l ph g (job_free request)) (applyUnderLock request point resumeJob)
    (fun plan s => exists live pre, planned request point live plan /\
       prepared (bool_decide (is_Some resumeJob)) pre /\
       viewing (apply_ops bk_depth (browser_of live) (plan_operations plan))
         (at_ l PhApplying (g ++ run_events pre plan (length (plan_slices plan))) (for_request request)) s)
    (fun _ => stopped request point (bool_decide (is_Some resumeJob)) l ph g).
Proof.
  intros Hrj. unfold applyUnderLock. set (resumed := bool_decide (is_Some resumeJob)).
  assert (forall s, at_ l ph (g ++ [EvSynced]) (job_free request) s -> stopped request point resumed l ph g s) as Hsync.
  { intros s. apply stopped_before. by repeat constructor. }
  eapply triple_bind with (Q := fun _ => at_ l ph (g ++ [EvSynced]) (job_free request)).
  { eapply (triple_catch _ _ _ _ (fun _ => at_ l ph g (job_free request))).
    - eapply triple_bind; [apply triple_engine, job_uploadPending|]. intros ?.
      eapply triple_bind; [apply triple_engine, job_downloadAndApply, bk_appliers_job|]. intros b s [H1 H2 H3 H4]. by split; [| |cbn; by rewrite H3|].
    - intros s Hs. apply (stopped_before _ _ _ _ _ _ []); [constructor|by rewrite app_nil_r].
    - intros e _. apply triple_throw. intros s Hs. apply (stopped_before _ _ _ _ _ _ []); [constructor|by rewrite app_nil_r]. }
  intros []. eapply triple_bind; [eapply triple_exn; [apply triple_sweep|done]|]. intros [].
  eapply triple_bind; [eapply triple_exn; [apply triple_readLive|done]|]. intros [live n]. cbn [fst snd].
  destruct (0 <? n) eqn:En; js_bool; [apply triple_throw; intros s [Hs _]; by apply Hsync|].
  eapply triple_bind with (Q := fun _ s => exists pre, prepared resumed pre /\ Forall not_apply pre /\
    (length live < bk_depth)%nat /\ was_read live /\
    settled (browser_of live) (at_ l ph (g ++ EvSynced :: pre) (job_free request)) s).
  - intros s [Hs Hl]. destruct (Hl En) as (Hset & Hd & Hread). destruct resumeJob as [j|].
    + cbn. exists []. by split_and!.
    + pose proof (triple_preRestore (browser_of live) l ph (g ++ [EvSynced]) (job_free request) s Hset) as Hp.
      destruct (uploadPreRestorePoint s) as [[e|id] s'].
      * destruct Hp as (evs & He & Hp). rewrite <- app_assoc in Hp. eapply stopped_before; [|exact Hp].
        constructor; [done|by apply uploads_not_apply].
      * destruct Hp as (evs & He & Hp). rewrite <- app_assoc in Hp. exists evs. split_and!; try done.
        destruct He as (ups & pid & kind & id' & -> & Hu & _). apply Forall_app. split; [by apply uploads_not_apply|by repeat constructor].
  - intros preId s (pre & Hpre & Hna & Hd & Hread & Hs). destruct (plan_of request point live) as [e|plan] eqn:Ep.
    + destruct Hs as [[Hs _] _]. eapply stopped_before; [|exact Hs]. by constructor.
    + pose proof (triple_run_plan request point resumeJob preId live plan pre l ph g) as Hrun.
      specialize (Hrun ltac:(done) Hpre Hna s Hs). destruct (run_plan _ _ _ _ s) as [[e|plan'] s']; [done|].
      destruct Hrun as [-> Hrun]. by exists live, pre.
Qed.
(** *** The whole run *)

(** [point] was decoded under the id [pointId]. *)
Definition genuine (pointId : string) (point : PointPlaintext) : Prop :=
  exists envelope codec resolve, decodePoint None envelope codec pointId resolve = inr point.

(** Either read from the server, or the one kept under the id. *)
Definition loaded_from (l : option (string * PointPlaintext)) (pointId : string) (point : PointPlaintext) : Prop :=
  l = Some (pointId, point) \/ genuine pointId point.

Lemma triple_await_at l ph g J : triple (at_ l ph g J) await (fun _ => at_ l ph g J) (fun _ => at_ l ph g J).
Proof.
  intros s Hs. pose proof (triple_await (view s) l ph g J s (conj Hs eq_refl)) as Ha.
  by destruct (await s) as [[?|?] ?]; [|destruct Ha].
Qed.

Lemma triple_load pointId l ph g J :
  triple (at_ l ph g J) (loadRestorePoint pointId)
    (fun point s => loaded_from l pointId point /\ exists id, at_ (Some (id, point)) ph g J s)
    (fun _ => at_ l ph g J).
Proof.
  unfold loadRestorePoint. intros s Hs. unfold bind at 1, getLoaded. rewrite (at_loaded _ _ _ _ _ Hs).
  assert (triple (at_ l ph g J) (let! device := dbGet db_device in
      match device with
      | None => throw (ExRestore NotConnected)
      | Some device =>
          let! downloaded := catch (server_call (fun srv => downloadRestorePoint srv pointId))
                               (fun _ => throw (ExRestore DownloadFailed)) in
          do! await in
          let! decoded := decodeDownloaded device downloaded pointId in
          match decoded with
          | inl (PointEnvelopeVersion _) | inl (UnsupportedRestorePointVersionError _) => throw (ExRestore UpdateNeeded)
          | inl (UnreadableRestorePointError _) => throw (ExRestore Unreadable)
          | inr point => do! setLoaded (Some (dl_id downloaded, point)) in ret point
          end
      end) (fun point s => loaded_from l pointId point /\ exists id, at_ (Some (id, point)) ph g J s) (fun _ => at_ l ph g J)) as Hload.
  { eapply triple_bind; [by apply triple_engine|]. intros [device|]; [|by apply triple_throw].
    eapply triple_bind with (Q := fun _ => at_ l ph g J).
    { eapply (triple_catch _ _ _ _ (fun _ => at_ l ph g J)); [|done|intros; by apply triple_throw].
      unfold server_call. eapply triple_bind with (Q := fun _ => at_ l ph g J).
      - apply triple_await_at.
      - intros [] s0 [H1 H2 H3 H4]. destruct (downloadRestorePoint _ _) as [[e|d] srv]; by split. }
    intros d. eapply triple_bind with (Q := fun _ => at_ l ph g J).
    - apply triple_await_at.
    - intros [] s0 [H1 H2 H3 H4]. unfold bind, decodeDownloaded.
      destruct (decodePoint None _ _ _ _) as [[]|point] eqn:Ed; [by split..|]. split; [|by exists (dl_id d); split].
      right. eexists _, _, _. exact Ed. }
  destruct l as [[id point]|]; [|by apply Hload]. destruct (String.eqb_spec id pointId) as [->|]; [|by apply Hload].
  cbn. split; [by left|]. by exists pointId.
Qed.
(** Where a run stands: either nothing was handed over, or the first [k]
    slices of a plan for the loaded point were, after the account was in step
    and a copy was safe. [l]: the point kept from before. *)
Record progress_at (request : RestoreRequest) (resumed : bool) (l : option (string * PointPlaintext)) (g : list REvent)
    (point : PointPlaintext) (live : list LiveBookmarkNode) (plan : RestorePlan) (k : nat) (tail : list REvent) (s : RState) : Prop := {
  pa_loaded : exists id, rs_loaded s = Some (id, point);
  pa_from : loaded_from l (rq_pointId request) point;
  pa_planned : planned request point live plan;
  pa_log : exists pre, prepared resumed pre /\ rs_log s = g ++ run_events pre plan k ++ tail;
}.

Definition unapplied (g : list REvent) (s : RState) : Prop :=
  exists evs, Forall not_apply evs /\ rs_log s = g ++ evs.

(** The end of a completed run: everything was handed over and has arrived. *)
Definition completed (request : RestoreRequest) (resumed : bool) (l : option (string * PointPlaintext)) (g : list REvent)
    (s : RState) : Prop :=
  exists point live plan, progress_at request resumed l g point live plan (length (plan_slices plan)) [EvScheduleSync] s /\
    job s = None /\ view s = apply_ops bk_depth (browser_of live) (plan_operations plan).

(** A run that did not complete: it failed, or the worker was stopped. *)
Definition interrupted (request : RestoreRequest) (resumed : bool) (l : option (string * PointPlaintext)) (g : list REvent)
    (s : RState) : Prop :=
  (unapplied g s /\ job_free request (job s)) \/
  exists point live plan k tail, progress_at request resumed l g point live plan k tail s /\
    Forall not_apply tail /\ job_request <$> job s = Some request.

Lemma stopped_interrupted request point resumed l id ph g s : loaded_from l (rq_pointId request) point ->
  stopped request point resumed (Some (id, point)) ph g s -> interrupted request resumed l g s.
Proof.
  intros Hl [(evs & ph' & He & _ & [H1 H2 H3 H4])|(live & pre & plan & k & Hpl & Hpre & [H1 H2 H3 H4])].
  - left. split; [by exists evs|done].
  - right. exists point, live, plan, k, []. split; [|done]. split; [by exists id|done|done|].
    exists pre. by rewrite app_nil_r.
Qed.

Lemma triple_finish request plan point live pre l id g resumed :
  loaded_from l (rq_pointId request) point -> planned request point live plan -> prepared resumed pre ->
  triple (viewing (apply_ops bk_depth (browser_of live) (plan_operations plan))
      (at_ (Some (id, point)) PhApplying (g ++ run_events pre plan (length (plan_slices plan))) (for_request request)))
    (finish_restore request plan)
    (fun _ s => phase s = PhDone /\ completed request resumed l g s)
    (fun e s => e = Killed /\ phase s = PhFinishing /\ interrupted request resumed l g s).
Proof.
  intros Hl Hpl Hpre. set (v := apply_ops _ _ _). set (g' := g ++ run_events _ _ _). unfold finish_restore.
  assert (forall s, at_ (Some (id, point)) PhFinishing (g' ++ [EvScheduleSync]) (for_request request) s ->
    phase s = PhFinishing /\ interrupted request resumed l g s) as Hx.
  { intros s [H1 H2 H3 H4]. split; [done|right]. exists point, live, plan, (length (plan_slices plan)), [EvScheduleSync].
    split_and!; [|by repeat constructor|done]. split; [by exists id|done|done|]. exists pre. split; [done|].
    unfold g' in H3. by rewrite <- app_assoc in H3. }
  eapply triple_bind with (Q := fun p => viewing v (at_ (Some (id, point)) PhApplying g' (for_request request))); [by intros s|].
  intros p. eapply triple_bind with (Q := fun _ => viewing v (at_ (Some (id, point)) PhFinishing g' (for_request request))).
  { intros s [[H1 H2 H3 H4] Hv]. by split; [split|]. }
  intros []. eapply triple_bind with (Q := fun _ => viewing v (at_ (Some (id, point)) PhFinishing (g' ++ [EvScheduleSync]) (for_request request))).
  { intros s [[H1 H2 <- H4] Hv]. by split; [split|]. }
  intros []. eapply triple_bind with (Q := fun _ => viewing v (at_ (Some (id, point)) PhFinishing (g' ++ [EvScheduleSync]) (for_request request))).
  { eapply (triple_catch _ _ _ _ (fun e s => viewing v (at_ (Some (id, point)) PhFinishing (g' ++ [EvScheduleSync]) (for_request request)) s)).
    - unfold server_call. intros s Hs. unfold bind, await. destruct (re_kills _); [by destruct Hs as [[]]; split; [split|]|].
      cbn. destruct (reportRestoreApplied _ _ _ _) as [[e|[]] srv]; by destruct Hs as [[]]; split; [split|].
    - intros s [Hs _]. by split; [|apply Hx].
    - intros e _. by apply triple_ret. }
  intros []. intros s Hs. unfold bind. destruct (dbDo _ s) as [r s'] eqn:E. apply dbDo_inv in E as (Hq & [[-> Hw]|[-> Hw]]).
  - split; [done|]. apply Hx. destruct Hs as [Hs _]. eapply at_quiet; [done| |done]. unfold job. by rewrite Hw.
  - destruct Hs as [[H1 H2 H3 H4] Hv]. destruct Hq as [Hq1 Hq2 Hq3]. split; [done|]. exists point, live, plan. split_and!.
    + split; [by exists id; cbn; rewrite Hq2|done|done|]. exists pre. split; [done|]. cbn. rewrite Hq3, H3.
      unfold g'. by rewrite <- app_assoc.
    + unfold job. cbn. by rewrite Hw.
    + fold v. rewrite <- Hv. transitivity (view s'); [done|]. apply view_frame. by rewrite Hw.
Qed.
(** What a run may have done when it ends, however it ends. *)
Definition orderly (request : RestoreRequest) (resumed : bool) (l : option (string * PointPlaintext)) (g : list REvent)
    (s : RState) : Prop :=
  unapplied g s \/
  exists point live plan k tail, progress_at request resumed l g point live plan k tail s /\ Forall not_apply tail.

Lemma interrupted_orderly request resumed l g s : interrupted request resumed l g s -> orderly request resumed l g s.
Proof. intros [[? _]|(point & live & plan & k & tail & ? & ? & _)]; [by left|right]. by exists point, live, plan, k, tail. Qed.

Lemma orderly_quiet request resumed l g s s' : rs_loaded s' = rs_loaded s -> rs_log s' = rs_log s ->
  orderly request resumed l g s -> orderly request resumed l g s'.
Proof.
  intros Hl Hg [(evs & He & Hu)|(point & live & plan & k & tail & [(id & H1) H2 H3 H4] & Ht)].
  - left. exists evs. by rewrite Hg.
  - right. exists point, live, plan, k, tail. split; [|done]. split; [exists id; congruence|done|done|by rewrite Hg].
Qed.

Lemma interrupted_quiet request resumed l g s s' : quiet s s' -> job s' = job s ->
  interrupted request resumed l g s -> interrupted request resumed l g s'.
Proof.
  intros [Hp Hl Hg] Hj [[(evs & He & Hu) ?]|(point & live & plan & k & tail & [(id & H1) H2 H3 H4] & ? & ?)].
  - left. split; [exists evs; by rewrite Hg|by rewrite Hj].
  - right. exists point, live, plan, k, tail. rewrite Hj. split; [|done]. split; [exists id; congruence|done|done|by rewrite Hg].
Qed.

Definition resumed_by (o : option RestoreJobRecord) : bool := bool_decide (is_Some o).

Lemma stopped_phase request point resumed l g s : stopped request point resumed l PhPreparing g s ->
  phase s <> PhDone /\ phase s <> PhFinishing.
Proof.
  intros [(evs & ph' & _ & Hph & [_ -> _ _])|(live & pre & plan & k & _ & _ & [_ -> _ _])]; [|done].
  by destruct Hph as [->| ->].
Qed.

(** The [try] block: the worker alone can be stopped in its last part. *)
Lemma triple_try request resumeJob l g :
  (forall j, resumeJob = Some j -> job_request j = request) ->
  triple (at_ l PhPreparing g (job_free request))
    (let! point := loadRestorePoint (rq_pointId request) in
     do! await in
     let! plan := applyUnderLock request point resumeJob in
     finish_restore request plan)
    (fun _ s => phase s = PhDone /\ completed request (resumed_by resumeJob) l g s)
    (fun e s => phase s <> PhDone /\ interrupted request (resumed_by resumeJob) l g s).
Proof.
  intros Hrj. set (resumed := resumed_by resumeJob).
  assert (forall l' s, at_ l' PhPreparing g (job_free request) s -> phase s <> PhDone /\ interrupted request resumed l g s) as Hx.
  { intros l' s [H1 H2 H3 H4]. split; [by rewrite H2|]. left. split; [|done]. exists []. by rewrite app_nil_r. }
  eapply triple_bind; [eapply triple_exn; [apply triple_load|intros e s; apply Hx]|].
  intros point s [Hl [id Hs]]. revert s Hs.
  change (triple (at_ (Some (id, point)) PhPreparing g (job_free request))
    (do! await in let! plan := applyUnderLock request point resumeJob in finish_restore request plan)
    (fun _ s => phase s = PhDone /\ completed request resumed l g s)
    (fun e s => phase s <> PhDone /\ interrupted request resumed l g s)).
  eapply triple_bind; [eapply triple_exn; [apply triple_await_at|intros e s; apply Hx]|]. intros [].
  eapply triple_bind; [eapply triple_exn; [by apply triple_locked|]|].
  - intros e s Hs. split; [apply (stopped_phase _ _ _ _ _ _ Hs)|exact (stopped_interrupted _ _ _ _ _ _ _ _ Hl Hs)].
  - intros plan s (live & pre & Hpl & Hpre & Hv).
    pose proof (triple_finish request plan point live pre l id g resumed Hl Hpl Hpre s Hv) as Hf.
    destruct (finish_restore request plan s) as [[e|[]] s']; [|done]. destruct Hf as (_ & Hf & Hi). by rewrite Hf.
Qed.

Lemma triple_runRestore request resumeJob l g :
  (forall j, resumeJob = Some j -> job_request j = request) ->
  triple (at_ l PhPreparing g (job_free request)) (runRestore request resumeJob)
    (fun _ s => (phase s = PhDone /\ completed request (resumed_by resumeJob) l g s) \/
                (phase s = PhError /\ orderly request (resumed_by resumeJob) l g s /\ job s = None))
    (fun e s => e = Killed /\ phase s <> PhDone /\ interrupted request (resumed_by resumeJob) l g s).
Proof.
  intros Hrj s Hs. pose proof (triple_try request resumeJob l g Hrj s Hs) as Ht. unfold runRestore.
  destruct (catch _ _ s) as [r s'] eqn:E. apply catch_inv in E as [[E Hr]|(e & s1 & E & _ & Hh)]; rewrite E in Ht.
  - destruct Hr as [->|[[] ->]]; [by split|by left].
  - destruct Ht as [Hph Hi]. unfold bind, catch, try_catch in Hh. destruct (dbDo _ s1) as [r1 s2] eqn:Ed.
    apply dbDo_inv in Ed as (Hq & [[-> Hw]|[-> Hw]]); cbn in Hh; injection Hh as <- <-.
    + split; [done|]. split; [unfold phase in *; by rewrite (q_progress _ _ Hq)|].
      eapply interrupted_quiet; [done| |done]. unfold job. by rewrite Hw.
    + right. split_and!; [done| |].
      * eapply orderly_quiet; [| |by apply interrupted_orderly]; apply Hq.
      * unfold job. cbn. by rewrite Hw.
Qed.
(** *** Worker after worker

    [lives request r s]: the user starts the restore in some worker, or, in a
    later worker, startup resumes what the record says; in between anything
    may happen that leaves the record alone. [r] and [s] are how the restore's
    code last ended, and where. *)
Inductive lives (request : RestoreRequest) : restore_exn + unit -> RState -> Prop :=
  | life_start s r s' : phase s = PhIdle -> job s = None -> rs_log s = [] ->
      startRestore request s = (r, s') -> lives request r s'
  | life_wake r0 s0 s r s' : lives request r0 s0 -> job s = job s0 ->
      resumeInterruptedRestore (wake s) = (r, s') -> lives request r s'.

(** What one life leaves. *)
Definition life_ok (request : RestoreRequest) (r : restore_exn + unit) (s : RState) : Prop :=
  job_free request (job s) /\
  exists resumed l, orderly request resumed l [] s /\
    (phase s = PhDone -> completed request resumed l [] s) /\
    (r = inl Killed -> (exists slice, EvApply slice ∈ rs_log s) -> job_request <$> job s = Some request).

Lemma life_idle request r s l ph : ph <> PhDone -> at_ l ph [] (job_free request) s -> life_ok request r s.
Proof.
  intros Hph [H1 H2 H3 H4]. split; [done|]. exists true, l. split_and!.
  - left. exists []. by rewrite H3.
  - by rewrite H2.
  - intros _ [sl Hsl]. rewrite H3 in Hsl. by apply not_elem_of_nil in Hsl.
Qed.

Lemma not_apply_elem evs sl : Forall not_apply evs -> EvApply sl ∉ evs.
Proof. rewrite Forall_forall. intros H Hin. by apply H in Hin. Qed.

Lemma life_run request resumeJob l s r s' : (forall j, resumeJob = Some j -> job_request j = request) ->
  at_ l PhPreparing [] (job_free request) s -> runRestore request resumeJob s = (r, s') -> life_ok request r s'.
Proof.
  intros Hrj Hs E. pose proof (triple_runRestore request resumeJob l [] Hrj s Hs) as H. rewrite E in H.
  destruct r as [e|[]].
  - destruct H as (-> & Hph & Hi). split.
    + destruct Hi as [[_ ?]|(? & ? & ? & ? & ? & _ & _ & ?)]; [done|by right].
    + exists (resumed_by resumeJob), l. split_and!; [by apply interrupted_orderly|done|].
      intros _ [sl Hsl]. destruct Hi as [[(evs & He & Hl) _]|(? & ? & ? & ? & ? & _ & _ & ?)]; [|done].
      rewrite Hl in Hsl. by apply not_apply_elem in Hsl.
  - destruct H as [[Hph Hc]|(Hph & Ho & Hj)].
    + pose proof Hc as (point & live & plan & Hp & Hj & _). split; [by left|]. exists (resumed_by resumeJob), l. split_and!; try done.
      right. exists point, live, plan, (length (plan_slices plan)), [EvScheduleSync]. by split; [|repeat constructor].
    + split; [by left|]. exists (resumed_by resumeJob), l. split_and!; try done. by rewrite Hph.
Qed.

Lemma triple_lookup {A} (f : Srv -> A * Srv) l ph g J :
  triple (at_ l ph g J) (lookup_server f) (fun _ => at_ l ph g J) (fun _ => at_ l ph g J).
Proof.
  unfold lookup_server. eapply triple_bind; [apply triple_await_at|]. intros [] s [H1 H2 H3 H4].
  by destruct (f _) as [a srv].
Qed.

Lemma lives_ok request r s : lives request r s -> life_ok request r s.
Proof.
  induction 1 as [s r s' Hph Hj Hl E|r0 s0 s r s' _ [IH _] Hj E].
  - assert (at_ (rs_loaded s) PhIdle [] (job_free request) s) as Hs by (split; try done; by left).
    unfold startRestore, bind at 1, getRestoreProgress in E. change (rp_phase (rs_progress s)) with (phase s) in E.
    rewrite Hph in E. cbn [phase_running] in E.
    assert (forall (e : restore_exn) s1, at_ (rs_loaded s) PhIdle [] (job_free request) s1 -> life_ok request (inl e) s1) as Hidle.
    { intros e s1. by apply life_idle. }
    pose proof (triple_engine (db_read db_device) (rs_loaded s) PhIdle [] (job_free request) (keep_db_read _ _) s Hs) as Hd.
    binv E Ed; unfold dbGet in Ed; rewrite Ed in Hd; [by apply Hidle|].
    destruct x as [device|]; [|by injection E as <- <-; apply Hidle].
    pose proof (triple_lookup serverSupportsRestorePoints (rs_loaded s) PhIdle [] (job_free request) x0 Hd) as Ha.
    binv E Eb; rewrite Eb in Ha; [by apply Hidle|]. destruct x as [|]; [|injection E as <- <-; by apply Hidle].
    destruct Ha as [H1 H2 H3 H4]. eapply (life_run request None); [done| |exact E]. by split.
  - assert (at_ None PhIdle [] (job_free request) (wake s)) as Hs by (split; try done; unfold job in *; cbn; by rewrite Hj).
    unfold resumeInterruptedRestore, bind at 1, getRestoreProgress in E. cbn [wake rs_progress IDLE rp_phase phase_running] in E.
    binv E Ed; unfold dbGet in Ed; apply engine_inv in Ed as (Hq & [[Hk Hw]|(x' & Hx & Hr)]).
    + eapply life_idle; [|eapply at_quiet; [exact Hq| |exact Hs]]; [done|unfold job; by rewrite Hw].
    + cbn in Hx. injection Hx as <- Hw. done.
    + done.
    + injection Hx as <- Hw. assert (x = job s) as -> by (cbn in Hr; by injection Hr).
      assert (at_ None PhIdle [] (job_free request) x0) as [H1 H2 H3 H4].
      { eapply at_quiet; [exact Hq| |exact Hs]. unfold job. by rewrite <- Hw. }
      destruct (job s) as [j|] eqn:Ejob; [|injection E as <- <-; eapply life_idle; [|by split]; done].
      assert (job_request j = request) as Hjr.
      { rewrite <- Hj in IH. destruct IH as [?|?]; [done|by simplify_option_eq]. }
      rewrite Hjr in E. eapply (life_run request (Some j)); [by intros ? [= <-]| |exact E]. by split.
Qed.
End laws.



(** * Properties of the restore point outbox

    What a drain does to the waiting points, whatever the server answers and
    wherever the worker is stopped. *)

Section outbox.
Context {Srv App : Type} `{Env : RestoreEnv Srv App}.

Definition outbox (s : RState Srv App) : gmap string RestorePointOutboxRecord :=
  restore_point_outbox (w_db (rs_world s)).

Definition more_attempts (r : RestorePointOutboxRecord) : RestorePointOutboxRecord :=
  mkOutbox (ob_id r) (ob_kind r) (ob_bookmarkCount r) (ob_encryptionVersion r) (ob_codec r) (ob_envelope r)
    (ob_createdAt r) (ob_attempts r + 1).

(** The server took the point, or said it never will; or the point is too old. *)
Definition final_event (e : REvent) : Prop :=
  match e with
  | EvUpload _ _ (inr _) | EvExpired _ => True
  | EvUpload _ _ (inl err) => isPermanent (ExApi err) = true
  | _ => False
  end.

(** What one event does to the record it is about. *)
Definition verdict (r : RestorePointOutboxRecord) (e : REvent) : option RestorePointOutboxRecord :=
  match e with
  | EvUpload _ _ (inl ReauthRequired) => Some r
  | EvUpload _ _ (inl err) =>
      if isPermanent (ExApi err) || (MAX_ATTEMPTS <=? ob_attempts r + 1) then None else Some (more_attempts r)
  | _ => None
  end.

Definition about (r : RestorePointOutboxRecord) (e : REvent) : Prop :=
  match e with
  | EvUpload id kind _ => id = ob_id r /\ kind = ob_kind r
  | EvExpired id => id = ob_id r
  | _ => False
  end.

Lemma drain_failed_spec record err s0 s : outbox s !! ob_id record = Some record ->
  rs_log s = s0 ++ [EvUpload (ob_id record) (ob_kind record) (inl err)] ->
  let '(res, s') := drain_failed record (ExApi err) s in
  rs_log s' = s0 ++ [EvUpload (ob_id record) (ob_kind record) (inl err)] /\ about record (EvUpload (ob_id record) (ob_kind record) (inl err)) /\
    ((res = inl Killed /\ outbox s' = outbox s) \/
     (exists o c k, res = inr (o, c, k) /\ (k = true <-> final_event (EvUpload (ob_id record) (ob_kind record) (inl err))) /\
       outbox s' = partial_alter (fun _ => verdict record (EvUpload (ob_id record) (ob_kind record) (inl err))) (ob_id record) (outbox s))).
Proof.
  intros Hr Hl. unfold drain_failed. cbn [verdict final_event about]. destruct err as [e|].
  2:{ cbn. split_and!; try done. right. eexists _, _, _. split_and!; [done..|]. rewrite <- Hr. by rewrite partial_alter_self. }
  destruct (isPermanent _) eqn:Ep; [|cbn [orb]; destruct (_ <=? _) eqn:Em].
  all: unfold dbDo, engine, await, bind, db_update, ret, modify; cbn; destruct (re_kills _); cbn; split_and!; try done; [by left|].
  all: right; eexists _, _, _; split_and!; try done.
Qed.

(** One record: no request, or one event; a worker stopped before it could act
    on the event leaves the record as it was. *)
Lemma drain_one_spec record s : outbox s !! ob_id record = Some record ->
  let '(res, s') := drain_one record s in
  (rs_log s' = rs_log s /\ outbox s' = outbox s /\ res = inl Killed) \/
  exists e, rs_log s' = rs_log s ++ [e] /\ about record e /\
    ((res = inl Killed /\ outbox s' = outbox s) \/
     (exists o c k, res = inr (o, c, k) /\ (k = true <-> final_event e) /\
       outbox s' = partial_alter (fun _ => verdict record e) (ob_id record) (outbox s))).
Proof.
  intros Hr. unfold drain_one, sync, now_next, fresh, bind. cbn -[MAX_AGE_MS].
  destruct (expired _ record).
  { unfold logM, modify, dbDo, engine, await, bind, db_update, ret. cbn.
    destruct (re_kills _); cbn; right; exists (EvExpired (ob_id record)); split_and!; try done; [by left|].
    right. by eexists _, _, _. }
  unfold catch, try_catch, uploadPointM, bind, await. cbn -[drain_failed]. destruct (re_kills _); [by left|].
  destruct (uploadRestorePoint _ _) as [[err|m] srv] eqn:Eu; cbn -[drain_failed].
  - unfold log_event, set_world, set_server, bump_entropy. cbn -[drain_failed].
    match goal with |- context [drain_failed record (ExApi err) ?w] =>
      pose proof (drain_failed_spec record err (rs_log s) w Hr eq_refl) as H end.
    destruct (drain_failed _ _ _) as [res s']. destruct H as (? & ? & ?). right. by eexists.
  - unfold dbDo, engine, await, bind, db_update, ret, modify. cbn.
    destruct (re_kills _); cbn; right; exists (EvUpload (ob_id record) (ob_kind record) (inr m)); split_and!; try done; [by left|].
    right. by eexists _, _, _.
Qed.
(** A drain over [records] from outbox [o]: the events [evs] it logs, one per
    record from the first on, and where each record stands in [o']. *)
Record drained (records : list RestorePointOutboxRecord) (o : gmap string RestorePointOutboxRecord)
    (evs : list REvent) (res : restore_exn + DrainResult) (before : list string)
    (o' : gmap string RestorePointOutboxRecord) : Prop := {
  dr_about : Forall2 about (take (length evs) records) evs;
  dr_final : forall i e, evs !! i = Some e -> (S i < length evs)%nat -> final_event e;
  dr_records : forall i r, records !! i = Some r ->
     match evs !! i with
     | None => o' !! ob_id r = Some r
     | Some e => o' !! ob_id r = verdict r e \/
                 (S i = length evs /\ res = inl Killed /\ o' !! ob_id r = Some r)
     end;
  dr_others : forall id, id ∉ map ob_id records -> o' !! id = o !! id;
  dr_result : match res with
  | inl e => e = Killed
  | inr result => jm_keys result = before ++ map ob_id (take (length evs) records) /\
      (length evs = length records \/ exists e, last evs = Some e /\ ~ final_event e)
  end;
}.

Lemma drained_cons r records o o1 e evs res before o' :
  ob_id r ∉ map ob_id records -> about r e -> final_event e ->
  o1 = partial_alter (fun _ => verdict r e) (ob_id r) o ->
  drained records o1 evs res (before ++ [ob_id r]) o' -> drained (r :: records) o (e :: evs) res before o'.
Proof.
  intros Hr He Hf -> [H1 H2 H3 H4 H5]. split.
  - by constructor.
  - intros [|i] e'; cbn; [by intros [= <-]|]. intros Hi Hl. apply (H2 i); [done|lia].
  - intros [|i] r'; cbn; [intros [= <-]; left|].
    + by rewrite H4, lookup_partial_alter_eq.
    + intros Hi. specialize (H3 i r' Hi). destruct (evs !! i); [|done]. destruct H3 as [?|(? & ? & ?)]; [by left|].
      right. split_and!; [lia|done|done].
  - intros id Hid. cbn in Hid. rewrite H4 by set_solver. apply lookup_partial_alter_ne. set_solver.
  - destruct res as [|result]; [done|]. destruct H5 as [-> H5]. cbn. rewrite <- app_assoc. split; [done|].
    destruct H5 as [->|(e' & Hl & ?)]; [by left|right]. exists e'. split; [|done]. by rewrite last_cons, Hl.
Qed.

Lemma drained_stop r records o e res before o' : NoDup (map ob_id (r :: records)) ->
  (forall r', r' ∈ r :: records -> o !! ob_id r' = Some r') -> about r e ->
  (res = inl Killed /\ o' = o) \/
  (o' = partial_alter (fun _ => verdict r e) (ob_id r) o /\ ~ final_event e /\
   exists result, res = inr result /\ jm_keys result = before ++ [ob_id r]) ->
  drained (r :: records) o [e] res before o'.
Proof.
  intros Hnd Hin He Hcase. cbn [map] in Hnd. apply NoDup_cons in Hnd as [Hr Hnd]. split.
  - by repeat constructor.
  - intros [|i] ? ?; cbn; [lia|done].
  - intros [|i] r' Hi; cbn in *.
    + injection Hi as <-. destruct Hcase as [[-> ->]|(-> & _)]; [right|left; by rewrite lookup_partial_alter_eq].
      split_and!; [done..|]. apply Hin. by left.
    + apply list_elem_of_lookup_2 in Hi. assert (ob_id r <> ob_id r').
      { intros E. apply Hr. rewrite E. by apply list_elem_of_fmap_2. }
      destruct Hcase as [[-> ->]|(-> & _)]; [|rewrite lookup_partial_alter_ne by done]; apply Hin; by right.
  - intros id Hid. cbn in Hid. destruct Hcase as [[-> ->]|(-> & _)]; [done|]. apply lookup_partial_alter_ne. set_solver.
  - destruct Hcase as [[-> ->]|(-> & Hf & result & -> & Hk)]; [done|]. split; [done|]. right. by exists e.
Qed.

Lemma drain_loop_spec records result s :
  NoDup (map ob_id records) -> (forall r, r ∈ records -> outbox s !! ob_id r = Some r) ->
  (forall r, r ∈ records -> ob_id r ∉ jm_keys result) ->
  exists evs, rs_log (drain_loop records result s).2 = rs_log s ++ evs /\
    drained records (outbox s) evs (drain_loop records result s).1 (jm_keys result) (outbox (drain_loop records result s).2).
Proof.
  revert result s. induction records as [|r records IH]; intros result s Hnd Hin Hfresh.
  { exists []. cbn. rewrite app_nil_r. split; [done|]. split; cbn; try done. rewrite app_nil_r. by split; [|left]. }
  cbn [drain_loop]. pose proof (drain_one_spec r s (Hin r ltac:(by left))) as Hone. unfold bind.
  pose proof Hnd as Hnd'. cbn [map] in Hnd'. apply NoDup_cons in Hnd' as [Hr Hnd'].
  assert (forall o c, jm_keys (jm_set result (ob_id r) (o, c)) = jm_keys result ++ [ob_id r]) as Hkeys.
  { intros o c. rewrite jm_keys_set, decide_False; [done|]. apply Hfresh. by left. }
  destruct (drain_one r s) as [res s1]. destruct Hone as [(Hl & Ho & ->)|(e & Hl & He & [[-> Ho]|(o & c & k & -> & Hk & Ho)])].
  - exists []. cbn. rewrite app_nil_r. split; [done|]. rewrite Ho. split; cbn; try done. intros i r' Hi.
    apply Hin. by eapply list_elem_of_lookup_2.
  - exists [e]. cbn. split; [done|]. apply drained_stop; try done. by left.
  - destruct k.
    + destruct (IH (jm_set result (ob_id r) (o, c)) s1) as (evs & Hl' & Hd); [done| | |].
      * intros r' Hr'. rewrite Ho, lookup_partial_alter_ne; [by apply Hin; right|].
        intros E. apply Hr. rewrite E. by apply list_elem_of_fmap_2.
      * intros r' Hr' Hi. rewrite Hkeys in Hi. apply elem_of_app in Hi as [Hi|Hi%list_elem_of_singleton].
        -- by apply (Hfresh r'); [right|].
        -- apply Hr. rewrite <- Hi. by apply list_elem_of_fmap_2.
      * exists (e :: evs). cbn. rewrite Hl', Hl, <- app_assoc. split; [done|]. rewrite Hkeys in Hd.
        eapply drained_cons; [done|done|by apply Hk|done|done].
    + exists [e]. cbn. split; [done|]. apply drained_stop; try done. right. split_and!; [done| |eauto].
      intros Hf%Hk. done.
Qed.

(** The outbox as [putRestorePointOutbox] keeps it: keyed by the points' ids. *)
Definition outbox_keyed (o : gmap string RestorePointOutboxRecord) : Prop :=
  forall id r, o !! id = Some r -> ob_id r = id.

Lemma waiting_records (db : DB) : outbox_keyed (restore_point_outbox db) ->
  NoDup (map ob_id (getRestorePointOutbox db)) /\
  (forall r, r ∈ getRestorePointOutbox db <-> restore_point_outbox db !! ob_id r = Some r).
Proof.
  intros Hk. unfold getRestorePointOutbox. set (m := restore_point_outbox db) in *.
  assert (forall l : list (string * RestorePointOutboxRecord), (forall kr, kr ∈ l -> ob_id kr.2 = kr.1) -> map ob_id l.*2 = l.*1) as Hmap.
  { induction l as [|[k r] l IH]; intros Hl; [done|]. cbn. f_equal; [apply (Hl (k, r)); by left|]. apply IH. set_solver. }
  assert (forall kr, kr ∈ sindex ob_createdAt m <-> m !! kr.1 = Some kr.2) as Hel.
  { intros [k r]. rewrite sindex_perm. apply elem_of_map_to_list. }
  split.
  - rewrite Hmap; [rewrite sindex_perm; apply NoDup_fst_map_to_list|]. intros kr Hkr%Hel. by apply Hk.
  - intros r. rewrite list_elem_of_fmap. split.
    + intros ([k r'] & -> & Hr%Hel). cbn in *. by rewrite (Hk _ _ Hr).
    + intros Hr. exists (ob_id r, r). split; [done|]. by apply Hel.
Qed.
End outbox.

