(* ===== verification/RestoreExample.v ===== *)
(** * Concrete restore points

    A small point and browser on which the theorems about restore points and
    planning are instantiated: a folder "F" with a bookmark "B" in the point;
    in the browser "F" is renamed, "B" is missing, and a folder "X" holding
    "Y" is there instead. *)

From S2P Require Import Prelude FractionalIndex JsMap Types Util Json Storage Crypto CryptoFacts RestorePoints RestorePointsFacts Planner PlannerFacts.

Open Scope Z_scope.
Open Scope js_scope.

#[local] Existing Instances example_url_parser toy_crypto toy_laws.
#[local] Instance example_dates : DateParser := {| date_parses s := negb (String.eqb s "") |}.
(** A codec that marks its output. *)
#[local] Instance example_deflate : Deflate := {|
  supportsDeflateRaw := true;
  deflateRaw b := 0 :: b;
  inflateRaw b := match b with 0 :: b => Some b | _ => None end;
|}.

Definition bar : string := "00000000-0000-7000-8000-000000000001".
Definition uF : string := "0190a000-0000-7000-8000-00000000000f".
Definition uB : string := "0190a000-0000-7000-8000-00000000000b".
Definition uX : string := "0190a000-0000-7000-8000-0000000000a0".
Definition uY : string := "0190a000-0000-7000-8000-0000000000a1".

Definition ex_nodes : list PointNode := [
  mkPointNode uF KFolder "Work" None bar "V";
  mkPointNode uB KBookmark "Docs" (Some "https://docs.example") uF "V"].

Definition ex_live : list LiveBookmarkNode := [
  mkLive "10" uF KFolder "Old" None bar (Some "V") false;
  mkLive "11" uX KFolder "X" None uF (Some "V") false;
  mkLive "12" uY KBookmark "Y" (Some "https://y.example") uX (Some "V") false].

Lemma ex_tree : point_tree ex_nodes.
Proof. apply forest_tree, (validateNodes_sound [] (map node_jsval ex_nodes)). vm_compute. reflexivity. Qed.

Lemma ex_nodup : NoDup (map lb_objectId ex_live).
Proof. by apply (bool_decide_eq_true_1 (NoDup (map lb_objectId ex_live))). Qed.

Lemma ex_ordered : live_ordered ex_live.
Proof.
  intros [|[|[|i]]] [|[|[|j]]] n m Hi Hj E; cbn in Hi, Hj; simplify_eq; try lia; vm_compute in E; discriminate E.
Qed.

Lemma ex_ready : plan_ready ex_nodes ex_live.
Proof.
  split; [apply ex_tree|apply ex_nodup|apply ex_ordered| | |].
  - intros m Hm. repeat (apply elem_of_cons in Hm as [->|Hm]; [split_and!; [|done|done]|]); [..|by apply not_elem_of_nil in Hm];
      by apply (bool_decide_eq_true_1 (_ ∉ ROOT_IDS)).
  - intros n m Hn Hm E. repeat (apply elem_of_cons in Hn as [->|Hn]; [|]); [..|by apply not_elem_of_nil in Hn];
      repeat (apply elem_of_cons in Hm as [->|Hm]; [vm_compute in E; try discriminate E; done|]); by apply not_elem_of_nil in Hm.
  - intros n Hn Hk. repeat (apply elem_of_cons in Hn as [->|Hn]; [done|]). by apply not_elem_of_nil in Hn.
Qed.

(** One restore, one update, no move, and only the topmost unwanted folder
    deleted. *)
Example ex_plan :
  match planRestore ex_nodes ex_live Exact None with
  | inr plan => map (fun op => (po_operationType op, po_objectId op)) (plan_operations plan) =
      [(OpRestore, uB); (OpUpdate, uF); (OpDelete, uX)]
  | inl _ => False
  end.
Proof. vm_compute. reflexivity. Qed.

Lemma planRestore_exact_witness :
  exists plan, planRestore ex_nodes ex_live Exact None = inr plan /\ pc_skipped (plan_counts plan) = 0 /\
    apply_ops 4 (browser_of ex_live) (plan_operations plan) = browser_of_point ex_nodes.
Proof. apply (planRestore_exact ex_nodes ex_live), ex_ready. Defined.

Lemma planRestore_merge_witness :
  exists plan, planRestore ex_nodes ex_live Merge None = inr plan /\ pc_skipped (plan_counts plan) = 0 /\
    apply_ops 4 (browser_of ex_live) (plan_operations plan) = browser_of_point ex_nodes ∪ browser_of ex_live.
Proof. apply (planRestore_merge ex_nodes ex_live), ex_ready. Defined.

Lemma planRestore_total_witness :
  match planRestore ex_nodes ex_live Exact (Some uF) with
  | inr _ => True
  | inl e => e = UnknownRestoreScopeError /\ exists s, Some uF = Some s /\
      forall n, n ∈ ex_nodes -> pn_o n = s -> pn_k n = KBookmark
  end.
Proof. apply (planRestore_total ex_nodes ex_live Exact (Some uF)); [apply ex_tree|apply ex_nodup|apply ex_ordered]. Defined.

Definition ex_point : PointPlaintext := mkPoint "2026-01-01T00:00:00Z" "me" RkManual ex_nodes.

Lemma ex_point_wf : wf_point ex_point.
Proof. split; [done|apply ex_tree]. Qed.

Lemma decodePoint_encodePoint_witness :
  let '(envelope, codec) := encodePoint None [7; 9] ex_point uX [1] 1 in
  decodePoint None envelope codec uY (fun _ => Some [1]) =
    (if decide (uX = uY) then inr ex_point else inl (UnreadableRestorePointError "it failed authentication")) /\
  forall t o ot, decryptBytesWithSdek None envelope [1]
    (buildOperationAad (ObjectType_str t) o (OperationType_str ot)) = inl AuthenticationFailed.
Proof.
  apply (decodePoint_encodePoint [7; 9] ex_point uX uY [1] 1 (fun _ => Some [1])).
  - intros b Hb. split; [done|]. constructor; [|done]. unfold is_byte. lia.
  - repeat constructor; lia.
  - apply ex_point_wf.
  - reflexivity.
Defined.

(** Removed siblings without a usable position between two that have one. *)
Definition ex_siblings : list LiveBookmarkNode := [
  mkLive "1" uB KBookmark "b" (Some "https://b.example") bar (Some "G") false;
  mkLive "2" uX KFolder "x" None bar None false;
  mkLive "3" uY KBookmark "y" (Some "https://y.example") bar (Some "A") false;
  mkLive "4" uF KFolder "f" None bar (Some "V") false].

Lemma ex_positions : Forall position_ok ex_siblings.
Proof. repeat (apply List.Forall_cons; [first [done|right; split; done]|]). apply List.Forall_nil. Qed.

Example ex_normalized : normalizePositions None ex_siblings = inr ["G"; "N"; "R"; "V"].
Proof. vm_compute. reflexivity. Qed.

Lemma normalizePositions_sorted_witness :
  exists ps, normalizePositions None ex_siblings = inr ps /\ length ps = length ex_siblings /\
    Forall valid_key ps /\ StronglySorted str_lt ps /\
    forall own, map lb_position ex_siblings = map Some own -> Forall (fun x => x <> "") own ->
      StronglySorted str_lt own -> ps = own.
Proof. apply (normalizePositions_sorted ex_siblings), ex_positions. Defined.

Lemma ex_live_ok : Forall live_ok ex_live /\ Forall live_ok ex_siblings.
Proof.
  split; repeat (apply List.Forall_cons; [split; [reflexivity|split; [by apply (bool_decide_eq_true_1 (_ ∉ ROOT_IDS))|
    split; [first [done|right; split; done]|done]]]|]); apply List.Forall_nil.
Qed.

Lemma buildPointNodes_spec_witness :
  exists out, buildPointNodes ex_live ex_siblings = inr out /\
    (forall n, reachable (captured ex_live ex_siblings) n <-> exists x, point_node n x ∈ out /\ n ∈ captured ex_live ex_siblings) /\
    (forall p, StronglySorted str_lt (map pn_x (filter (fun n => pn_p n = p) out))) /\
    validatePoint (point_jsval (mkPoint "2026-01-01" "me" RkMassDelete out)) = inr (mkPoint "2026-01-01" "me" RkMassDelete out).
Proof.
  apply (buildPointNodes_spec ex_live ex_siblings "2026-01-01" "me" RkMassDelete).
  - apply ex_nodup.
  - by apply (bool_decide_eq_true_1 (NoDup (map lb_objectId ex_siblings))).
  - apply ex_live_ok.
  - apply ex_live_ok.
  - reflexivity.
Defined.
