(* ===== verification/Bookmarks.v ===== *)
(** * The bookmark adapter: nodes, roots, mappings and reads
    (extension/src/bookmarks/index.ts, bookmarks/roots.ts)

    The browser's bookmarks are behind the class [ChromeBookmarks], one
    function per chrome.bookmarks method over an abstract browser state; a
    rejected promise is a [sync_error]. [BmApp] is that state with the
    adapter's module variables. Every function of the adapter is a
    computation over the database and [BmApp]: the state the engine's appliers
    act on. *)

From S2P Require Import Prelude JsMap Types Util FractionalIndex Storage Maintenance Engine RestorePoints.

Open Scope Z_scope.
Open Scope js_scope.

(** ** chrome.bookmarks *)

(** [children] is absent on a bookmark; every reader treats that as []. *)
Inductive BookmarkTreeNode := mkTreeNode {
  tn_id : string;
  tn_parentId : option string;
  tn_index : Z;
  tn_title : string;
  tn_url : option string;
  tn_unmodifiable : option string;
  tn_children : list BookmarkTreeNode;
}.

Class ChromeBookmarks (Br : Type) := {
  getTree : Br -> option BookmarkTreeNode;
  bm_get : string -> Br -> sync_error + list BookmarkTreeNode;
  getChildren : string -> Br -> sync_error + list BookmarkTreeNode;
  getSubTree : string -> Br -> sync_error + option BookmarkTreeNode;
  bm_create : string -> string -> option string -> option Z -> Br -> (sync_error + BookmarkTreeNode) * Br;
  bm_update : string -> option string -> option string -> Br -> (sync_error + unit) * Br;
  bm_move : string -> string -> option Z -> Br -> (sync_error + unit) * Br;
  bm_remove : string -> Br -> (sync_error + unit) * Br;
  bm_removeTree : string -> Br -> (sync_error + unit) * Br;
}.

(** Clock, identifiers and URL parsing, by the number of reads so far. *)
Class BookmarkEnv (Br : Type) := {
  be_chrome :: ChromeBookmarks Br;
  be_urls :: UrlParser;
  be_uuid : nat -> string;
  be_now : nat -> Z;
  be_iso : nat -> string;
}.

(** ** State *)

Record BookmarkRoots := mkRoots {
  objectIdByChromiumId : jmap string string;
  chromiumIdByObjectId : jmap string string;
  standInIds : jset string;
}.

Section bookmarks.
Context {Br : Type} `{Env : BookmarkEnv Br}.

Record BmApp := mkBmApp {
  ba_browser : Br;
  ba_standIns : gmap string string;      (** chrome.storage.local [bookmarkRootStandIns]: root id -> folder id *)
  ba_sweepDone : bool;                   (** chrome.storage.local [bookmarkMappingSweepDone] *)
  ba_roots : option BookmarkRoots;       (** [rootsPromise], settled *)
  ba_entropy : nat;
  linkExistingBookmarks : bool;
  bookmarkLayoutGeneration : Z;
}.

Definition BmState : Type := DB * BmApp.
Definition Bm (A : Type) : Type := M BmState sync_error A.

Definition set_browser (b : Br) (a : BmApp) : BmApp :=
  mkBmApp b (ba_standIns a) (ba_sweepDone a) (ba_roots a) (ba_entropy a) (linkExistingBookmarks a) (bookmarkLayoutGeneration a).
Definition set_standIns (x : gmap string string) (a : BmApp) : BmApp :=
  mkBmApp (ba_browser a) x (ba_sweepDone a) (ba_roots a) (ba_entropy a) (linkExistingBookmarks a) (bookmarkLayoutGeneration a).
Definition set_sweepDone (x : bool) (a : BmApp) : BmApp :=
  mkBmApp (ba_browser a) (ba_standIns a) x (ba_roots a) (ba_entropy a) (linkExistingBookmarks a) (bookmarkLayoutGeneration a).
Definition set_roots (x : option BookmarkRoots) (a : BmApp) : BmApp :=
  mkBmApp (ba_browser a) (ba_standIns a) (ba_sweepDone a) x (ba_entropy a) (linkExistingBookmarks a) (bookmarkLayoutGeneration a).
Definition bump (a : BmApp) : BmApp :=
  mkBmApp (ba_browser a) (ba_standIns a) (ba_sweepDone a) (ba_roots a) (S (ba_entropy a)) (linkExistingBookmarks a) (bookmarkLayoutGeneration a).
Definition set_link (x : bool) (a : BmApp) : BmApp :=
  mkBmApp (ba_browser a) (ba_standIns a) (ba_sweepDone a) (ba_roots a) (ba_entropy a) x (bookmarkLayoutGeneration a).

(** ** Primitives *)

Definition with_app (f : BmApp -> BmApp) : Bm unit := modify (fun s => (s.1, f s.2)).
Definition get_app {A} (f : BmApp -> A) : Bm A := fun s => (inr (f s.2), s).
Definition store_get {A} (f : DB -> A) : Bm A := fun s => (inr (f s.1), s).
Definition store_put (f : DB -> DB) : Bm unit := modify (fun s => (f s.1, s.2)).
Definition store_run {A} (f : DB -> A * DB) : Bm A := fun s => let '(a, db) := f s.1 in (inr a, (db, s.2)).
(** A chrome.bookmarks read, and a call that changes the tree. *)
Definition chrome_get {A} (f : Br -> sync_error + A) : Bm A := fun s => (f (ba_browser s.2), s).
Definition chrome_do {A} (f : Br -> (sync_error + A) * Br) : Bm A := fun s =>
  let '(r, b) := f (ba_browser s.2) in (r, (s.1, set_browser b s.2)).
Definition draw {A} (f : nat -> A) : Bm A := fun s => (inr (f (ba_entropy s.2)), (s.1, bump s.2)).

(** ** roots.ts *)

Definition STAND_IN_ROOTS : list (string * string) :=
  [("1", "Bookmarks bar"); ("2", "Other bookmarks"); ("3", "Mobile bookmarks")].
Definition HOST_ROOT_PREFERENCE : list string := ["3"; "2"; "1"].
Definition root_object_id (rootId : string) : string := default "" (jm_get ROOT_OBJECT_IDS rootId).

(** [Object.keys(stored)]: integer keys come in ascending order. *)
Definition standInRootObjectId (chromiumId : string) : Bm (option string) :=
  let! stored := get_app ba_standIns in
  ret (root_object_id <$> find (fun id => bool_decide (stored !! id = Some chromiumId)) (map fst STAND_IN_ROOTS)).

Definition invalidateBookmarkRoots : Bm unit := with_app (set_roots None).

Definition bookmarkExists (id : string) : Bm bool :=
  try_catch (let! nodes := chrome_get (bm_get id) in ret (Nat.ltb 0 (length nodes))) (fun _ => ret false).

Definition mergeStandInIntoRoot (standInId rootId : string) : Bm unit :=
  let! children := chrome_get (getChildren standInId) in
  do! for_each children (fun child => chrome_do (bm_move (tn_id child) rootId None)) in
  chrome_do (bm_remove standInId).

(** The variables of the loop of [resolveRoots]. *)
Record ResolveState := mkResolving {
  rv_stored : gmap string string;
  rv_changed : bool;
  rv_objectIds : jmap string string;
  rv_standIns : jset string;
  rv_placed : Z;
}.

Definition resolve_root (shownRootIds : jset string) (hostId : option string) (st : ResolveState)
    (rootId title : string) : Bm ResolveState :=
  let objectId := root_object_id rootId in
  let storedId := rv_stored st !! rootId in
  if js_has shownRootIds rootId then
    let ids := jm_set (rv_objectIds st) rootId objectId in
    match storedId with
    | Some id =>
        if String.eqb id "" then ret (mkResolving (rv_stored st) (rv_changed st) ids (rv_standIns st) (rv_placed st)) else
        let! exists_ := bookmarkExists id in
        do! (if exists_ then mergeStandInIntoRoot id rootId else ret tt) in
        ret (mkResolving (delete rootId (rv_stored st)) true ids (rv_standIns st) (rv_placed st))
    | None => ret (mkResolving (rv_stored st) (rv_changed st) ids (rv_standIns st) (rv_placed st))
    end
  else
    match hostId with
    | None => throw (OtherError "HelixSync: no bookmark root is shown to hold stand-in folders")
    | Some hostId =>
        let! known := (match storedId with
                       | Some id => if String.eqb id "" then ret false else bookmarkExists id
                       | None => ret false
                       end) in
        let! st' :=
          (if known then ret (default "" storedId, rv_stored st, rv_changed st) else
           let! siblings := chrome_get (getChildren hostId) in
           let! folder := chrome_do (bm_create hostId title None
                            (Some (Z.min (rv_placed st) (Z.of_nat (length siblings))))) in
           ret (tn_id folder, <[rootId := tn_id folder]> (rv_stored st), true)) in
        let '(standInId, stored, changed) := st' in
        ret (mkResolving stored changed (jm_set (rv_objectIds st) standInId objectId)
               (js_add (rv_standIns st) standInId) (rv_placed st + 1))
    end.

Fixpoint resolve_loop (shownRootIds : jset string) (hostId : option string) (rs : list (string * string))
    (st : ResolveState) : Bm ResolveState :=
  match rs with
  | [] => ret st
  | (rootId, title) :: rs =>
      let! st := resolve_root shownRootIds hostId st rootId title in
      resolve_loop shownRootIds hostId rs st
  end.

Definition resolveRoots : Bm BookmarkRoots :=
  let! shown := chrome_get (getChildren "0") in
  let shownRootIds := js_of_list (map tn_id shown) in
  let hostId := find (fun id => js_has shownRootIds id) HOST_ROOT_PREFERENCE in
  let! stored := get_app ba_standIns in
  let! st := resolve_loop shownRootIds hostId STAND_IN_ROOTS
               (mkResolving stored false [("0", root_object_id "0")] [] 0) in
  do! (if rv_changed st then with_app (set_standIns (rv_stored st)) else ret tt) in
  ret (mkRoots (rv_objectIds st) (jm_of_list (map (fun kv => (kv.2, kv.1)) (rv_objectIds st))) (rv_standIns st)).

(** Resolved once; a failure leaves the next call to try again. *)
Definition bookmarkRoots : Bm BookmarkRoots :=
  let! cached := get_app ba_roots in
  match cached with
  | Some r => ret r
  | None =>
      let! r := resolveRoots in
      do! with_app (set_roots (Some r)) in ret r
  end.

(** ** Lookups *)

Definition MAP_TYPE : ObjectType := OtBookmark.

Definition has_url (node : BookmarkTreeNode) : bool :=
  match tn_url node with Some u => negb (String.eqb u "") | None => false end.
Definition bookmarkObjectType (node : BookmarkTreeNode) : ObjectType :=
  if has_url node then OtBookmark else OtBookmarkFolder.

(** [sort(byPosition)], a stable sort on the positions. *)
Fixpoint sort_insert {A} (f : A -> string) (x : A) (l : list A) : list A :=
  match l with
  | [] => [x]
  | y :: l' => if str_leb (f x) (f y) then x :: l else y :: sort_insert f x l'
  end.
Definition sort_by {A} (f : A -> string) (l : list A) : list A := foldr (sort_insert f) [] l.

Definition chromiumIdFor (objectId : string) : Bm (option string) :=
  let! roots := bookmarkRoots in
  match jm_get (chromiumIdByObjectId roots) objectId with
  | Some id => ret (Some id)
  | None => lookupChromiumLocalId objectId
  end.

Definition truthy_str (o : option string) : option string :=
  match o with Some s => if String.eqb s "" then None else Some s | None => None end.

Definition chromiumIdsFor (objectIds : list string) : Bm (jmap string string) :=
  let! roots := bookmarkRoots in
  let root_of id := truthy_str (jm_get (chromiumIdByObjectId roots) id) in
  let result := foldl (fun m id => match root_of id with Some r => jm_set m id r | None => m end) [] objectIds in
  let needsLookup := filter (fun id => root_of id = None) objectIds in
  let! mappings := store_get (getMappingsByObjectIds needsLookup) in
  ret (foldl (fun m kv => jm_set m kv.1 (chromiumLocalId kv.2)) result mappings).

(** [(state?.value as { position?: string } | undefined)?.position] *)
Definition position_of_state (r : option FieldStateRecord) : option string :=
  r ≫= fun r => as_string (jget (fs_value r) "position").

(** ** Trees *)

(** Pops from the end, pushes the children in order. *)
Fixpoint descend (fuel : nat) (stack : list BookmarkTreeNode) (ids : list string) : list string :=
  match fuel with
  | O => ids
  | S fuel =>
      match stack with
      | [] => ids
      | next :: stack => descend fuel (rev (tn_children next) ++ stack) (ids ++ [tn_id next])
      end
  end.

Fixpoint tree_size (n : BookmarkTreeNode) : nat :=
  match n with
  | mkTreeNode _ _ _ _ _ _ cs =>
      S ((fix forest (l : list BookmarkTreeNode) : nat :=
            match l with [] => O | c :: l => (tree_size c + forest l)%nat end) cs)
  end.
Definition forest_size (l : list BookmarkTreeNode) : nat := foldr (fun c n => (tree_size c + n)%nat) O l.

(** The stack's top is the last child pushed: here the head of the list. *)
Definition descendantIds (node : BookmarkTreeNode) : list string :=
  descend (S (tree_size node)) (rev (tn_children node)) [].

Definition countSubtree (node : BookmarkTreeNode) : Z := 1 + Z.of_nat (length (descendantIds node)).

(** ** Reading the live tree *)

(** The preorder walk: a node and its parent's chromium id. *)
Fixpoint walk_tree (fuel : nat) (stack walk : list (BookmarkTreeNode * string)) :
    list (BookmarkTreeNode * string) :=
  match fuel with
  | O => walk
  | S fuel =>
      match stack with
      | [] => walk
      | entry :: stack =>
          walk_tree fuel (map (fun c => (c, tn_id entry.1)) (tn_children entry.1) ++ stack) (walk ++ [entry])
      end
  end.

Definition walk_of (tree : option BookmarkTreeNode) : list (BookmarkTreeNode * string) :=
  match tree with
  | None => []
  | Some tree => walk_tree (S (tree_size tree)) (map (fun c => (c, tn_id tree)) (tn_children tree)) []
  end.

(** The loop's variables: nodes, [objectIdOf], unmapped. *)
Record ReadAcc := mkReadAcc {
  ra_nodes : list LiveBookmarkNode;
  ra_objectIdOf : jmap string string;
  ra_unmapped : Z;
}.

Definition live_node (node : BookmarkTreeNode) (objectId parentObjectId : string) (position : option string) :
    LiveBookmarkNode :=
  mkLive (tn_id node) objectId (if has_url node then KBookmark else KFolder) (tn_title node)
    (if has_url node then tn_url node else None) parentObjectId position
    (bool_decide (tn_unmodifiable node = Some "managed")).

Definition read_entry (rootObjectIds : jmap string string) (mappings : jmap string ObjectMappingRecord)
    (moveStates : jmap string FieldStateRecord) (acc : ReadAcc) (entry : BookmarkTreeNode * string) : ReadAcc :=
  let '(node, parentChromiumId) := entry in
  let skip := mkReadAcc (ra_nodes acc) (ra_objectIdOf acc) (ra_unmapped acc + 1) in
  match truthy_str (jm_get rootObjectIds (tn_id node)) with
  | Some root => mkReadAcc (ra_nodes acc) (jm_set (ra_objectIdOf acc) (tn_id node) root) (ra_unmapped acc)
  | None =>
      match truthy_str (jm_get (ra_objectIdOf acc) parentChromiumId) with
      | None => skip
      | Some parentObjectId =>
          match truthy_str (om_objectId <$> jm_get mappings (tn_id node)) with
          | None => skip
          | Some objectId =>
              mkReadAcc (ra_nodes acc ++ [live_node node objectId parentObjectId
                                            (position_of_state (jm_get moveStates objectId))])
                (jm_set (ra_objectIdOf acc) (tn_id node) objectId) (ra_unmapped acc)
          end
      end
  end.

(** [for (const batch of chunk(ids, 5000)) for (const [id, r] of await get(batch)) map.set(id, r)] *)
Definition get_batched {A} (ids : list string) (get : list string -> DB -> jmap string A) (db : DB) : jmap string A :=
  foldl (fun m batch => foldl (fun m kv => jm_set m kv.1 kv.2) m (get batch db)) [] (slices ids 5000).

(** [readLiveBookmarks] once the capture queues are drained. *)
Definition readLiveTree : Bm (list LiveBookmarkNode * Z) :=
  let! roots := bookmarkRoots in
  let rootObjectIds := objectIdByChromiumId roots in
  let! tree := get_app (fun a => getTree (ba_browser a)) in
  let walk := walk_of tree in
  let nonRootIds := filter (fun id => jm_has rootObjectIds id = false) (map (fun e => tn_id e.1) walk) in
  let! mappings := store_get (get_batched nonRootIds (getMappingsByLocalIds MAP_TYPE)) in
  let objectIds := map om_objectId (jm_values mappings) in
  let! moveStates := store_get (get_batched objectIds (fun ids => getFieldStatesForObjects ids "move")) in
  let acc := foldl (read_entry rootObjectIds mappings moveStates) (mkReadAcc [] [] 0) walk in
  ret (ra_nodes acc, ra_unmapped acc).

(** ** Sweeping stale mappings *)

Definition mapped_ids (t : ObjectType) : Bm (jset string) :=
  let! found := store_get (getMappedChromiumIdsByType t) in
  match found with Some ids => ret ids | None => throw (OtherError "out of fuel") end.

Definition present_ids (tree : option BookmarkTreeNode) : list string :=
  match tree with None => [] | Some t => descend (S (tree_size t)) [t] [] end.

(** [sweepStaleBookmarkMappings] once the capture queues are drained. *)
Definition sweepStaleTree : Bm Z :=
  let! mapped := mapped_ids MAP_TYPE in
  let! tree := get_app (fun a => getTree (ba_browser a)) in
  let present := present_ids tree in
  let stale := filter (fun id => js_has (js_of_list present) id = false) mapped in
  do! for_each (slices stale 5000) (fun batch => store_put (deleteMappingsBatch MAP_TYPE batch)) in
  ret (Z.of_nat (length stale)).

End bookmarks.
