(* ===== verification/BookmarkReadFacts.v ===== *)
(** * Properties of resolving the root folders

    Whatever the browser shows and however a stand-in has to be made, the
    resolved roots carry the fixed object ids, and a resolution is remembered
    until it is invalidated. *)

From S2P Require Import Prelude JsMap Types Util Storage StorageFacts Maintenance MaintenanceFacts Engine RestorePoints PlannerFacts Bookmarks.

Open Scope Z_scope.
Open Scope js_scope.

Section roots.
Context {Br : Type} `{Env : BookmarkEnv Br}.
Abbreviation State := (BmState (Br := Br)).

Definition root_valued (ids : jmap string string) : Prop := Forall (fun kv => kv.2 ∈ ROOT_IDS) ids.

Lemma root_valued_set ids k v : root_valued ids -> v ∈ ROOT_IDS -> root_valued (jm_set ids k v).
Proof using Type.
  intros H Hv. induction H as [|[k' v'] ids Hk Hids IH]; cbn; [by constructor|].
  destruct (decide (k = k')); by constructor.
Qed.

Lemma root_object_id_in rootId title : (rootId, title) ∈ STAND_IN_ROOTS -> root_object_id rootId ∈ ROOT_IDS.
Proof using Type.
  intros H. unfold STAND_IN_ROOTS in H. rewrite !elem_of_cons, elem_of_nil in H.
  destruct H as [[= -> _]|[[= -> _]|[[= -> _]|[]]]]; apply (bool_decide_unpack _); vm_compute; exact I.
Qed.

(** What [resolveRoots] may change: the browser and the stored stand-ins. *)
Definition keeps_db {A} (m : Bm (Br := Br) A) : Prop := forall s, (m s).2.1 = s.1.

Lemma keeps_db_ret {A} (a : A) : keeps_db (ret a).
Proof using Type. done. Qed.
Lemma keeps_db_throw {A} e : keeps_db (throw e : Bm A).
Proof using Type. done. Qed.
Lemma keeps_db_bind {A B} (m : Bm A) (k : A -> Bm B) : keeps_db m -> (forall a, keeps_db (k a)) -> keeps_db (bind m k).
Proof using Type.
  intros Hm Hk s. unfold bind. specialize (Hm s). destruct (m s) as [[e|a] s']; [done|]. cbn in Hm. rewrite <- Hm. apply Hk.
Qed.
Lemma keeps_db_try {A} (m : Bm A) h : keeps_db m -> (forall e, keeps_db (h e)) -> keeps_db (try_catch m h).
Proof using Type.
  intros Hm Hh s. unfold try_catch. specialize (Hm s). destruct (m s) as [[e|a] s']; [|done]. cbn in Hm. rewrite <- Hm. apply Hh.
Qed.
Lemma keeps_db_get {A} (f : BmApp -> A) : keeps_db (get_app f).
Proof using Type. done. Qed.
Lemma keeps_db_app f : keeps_db (with_app f).
Proof using Type. done. Qed.
Lemma keeps_db_chrome_get {A} (f : Br -> sync_error + A) : keeps_db (chrome_get f).
Proof using Type. done. Qed.
Lemma keeps_db_chrome_do {A} (f : Br -> (sync_error + A) * Br) : keeps_db (chrome_do f).
Proof using Type. intros s. unfold chrome_do. by destruct (f _). Qed.
Lemma keeps_db_for_each {A} (l : list A) (f : A -> Bm unit) : (forall a, keeps_db (f a)) -> keeps_db (for_each l f).
Proof using Type.
  intros Hf. induction l as [|a l IH]; [apply keeps_db_ret|]. cbn [for_each]. by apply keeps_db_bind.
Qed.
Lemma keeps_db_exists id : keeps_db (bookmarkExists id).
Proof using Type.
  unfold bookmarkExists. apply keeps_db_try; [|intros; apply keeps_db_ret].
  apply keeps_db_bind; [apply keeps_db_chrome_get|]. intros. apply keeps_db_ret.
Qed.
Lemma keeps_db_merge a b : keeps_db (mergeStandInIntoRoot a b).
Proof using Type.
  unfold mergeStandInIntoRoot. apply keeps_db_bind; [apply keeps_db_chrome_get|]. intros.
  apply keeps_db_bind; [apply keeps_db_for_each; intros; apply keeps_db_chrome_do|]. intros. apply keeps_db_chrome_do.
Qed.

Lemma keeps_db_resolve shown host st rootId title : keeps_db (resolve_root shown host st rootId title).
Proof using Type.
  unfold resolve_root. destruct (js_has shown rootId).
  - destruct (rv_stored st !! rootId) as [i|]; [|apply keeps_db_ret]. destruct (String.eqb i ""); [apply keeps_db_ret|].
    apply keeps_db_bind; [apply keeps_db_exists|]. intros []; (apply keeps_db_bind; [|intros; apply keeps_db_ret]);
      [apply keeps_db_merge|apply keeps_db_ret].
  - destruct host as [h|]; [|apply keeps_db_throw]. apply keeps_db_bind.
    + destruct (rv_stored st !! rootId) as [i|]; [|apply keeps_db_ret].
      destruct (String.eqb i ""); [apply keeps_db_ret|apply keeps_db_exists].
    + intros known. apply keeps_db_bind; [|intros [[? ?] ?]; apply keeps_db_ret]. destruct known; [apply keeps_db_ret|].
      apply keeps_db_bind; [apply keeps_db_chrome_get|]. intros. apply keeps_db_bind; [apply keeps_db_chrome_do|].
      intros. apply keeps_db_ret.
Qed.

Lemma keeps_db_loop shown host rs st : keeps_db (resolve_loop shown host rs st).
Proof using Type.
  revert st. induction rs as [|[i t] rs IH]; intros st; [apply keeps_db_ret|]. cbn [resolve_loop].
  apply keeps_db_bind; [apply keeps_db_resolve|done].
Qed.

Lemma keeps_db_roots : keeps_db bookmarkRoots.
Proof using Type.
  unfold bookmarkRoots, resolveRoots. apply keeps_db_bind; [apply keeps_db_get|]. intros [r|]; [apply keeps_db_ret|].
  apply keeps_db_bind; [|intros; apply keeps_db_bind; [apply keeps_db_app|]; intros; apply keeps_db_ret].
  apply keeps_db_bind; [apply keeps_db_chrome_get|]. intros shown. apply keeps_db_bind; [apply keeps_db_get|]. intros stored.
  apply keeps_db_bind; [apply keeps_db_loop|]. intros st. apply keeps_db_bind; [|intros; apply keeps_db_ret].
  destruct (rv_changed st); [apply keeps_db_app|apply keeps_db_ret].
Qed.

(** ** The object ids *)

Lemma resolve_root_valued shown host st rootId title s st' s' : (rootId, title) ∈ STAND_IN_ROOTS ->
  root_valued (rv_objectIds st) -> resolve_root shown host st rootId title s = (inr st', s') -> root_valued (rv_objectIds st').
Proof using Type.
  intros Hin Hv. pose proof (root_object_id_in _ _ Hin) as Hr. unfold resolve_root. destruct (js_has shown rootId).
  - destruct (rv_stored st !! rootId) as [i|]; [|intros [= <- _]; by apply root_valued_set].
    destruct (String.eqb i ""); [intros [= <- _]; by apply root_valued_set|].
    intros H. bok H E. bok H E2. injection H as <- _. by apply root_valued_set.
  - destruct host as [h|]; [|done]. intros H. bok H E. bok H E2. destruct x1 as [[sid stored] ch].
    injection H as <- _. by apply root_valued_set.
Qed.

Lemma resolve_loop_valued shown host rs st s st' s' : (forall x, x ∈ rs -> x ∈ STAND_IN_ROOTS) ->
  root_valued (rv_objectIds st) -> resolve_loop shown host rs st s = (inr st', s') -> root_valued (rv_objectIds st').
Proof using Type.
  revert st s. induction rs as [|[i t] rs IH]; intros st s Hin Hv; cbn [resolve_loop]; [by intros [= <- _]|].
  intros H. bok H E. eapply IH; [intros; apply Hin; by right| |exact H].
  eapply resolve_root_valued; [|exact Hv|exact E]. apply Hin. left.
Qed.

(** The roots the adapter remembers are sound. *)
Definition roots_ok (s : State) : Prop :=
  match ba_roots s.2 with Some r => root_valued (objectIdByChromiumId r) | None => True end.

Lemma bookmarkRoots_ok (s s' : State) r : roots_ok s -> bookmarkRoots s = (inr r, s') ->
  root_valued (objectIdByChromiumId r) /\ s'.1 = s.1 /\ ba_roots s'.2 = Some r.
Proof using Type.
  intros Hok H. pose proof (keeps_db_roots s) as Hdb. rewrite H in Hdb. cbn in Hdb.
  unfold bookmarkRoots in H. bok H E. unfold get_app in E. injection E as <- <-. unfold roots_ok in Hok.
  destruct (ba_roots s.2) as [r0|] eqn:Er.
  { unfold ret in H. injection H as H0 H1. subst. by rewrite Er. }
  bok H E. unfold bind, with_app, modify, ret in H. injection H as H0 H1. subst. split_and!; [|done|done].
  unfold resolveRoots in E. bok E E1. bok E E2. bok E E3. bok E E4. unfold ret in E. injection E as E _. subst.
  cbn [objectIdByChromiumId]. eapply resolve_loop_valued; [| |exact E3]; [done|]. cbn.
  apply Forall_singleton. apply (bool_decide_unpack _). vm_compute. exact I.
Qed.
End roots.

(** * Properties of reading the live bookmarks

    The stack walk, the batched lookups and the id map of [readLiveBookmarks]
    compute a recursive reading of the tree; its rows come parents first, one
    per mapped node that hangs under a root, as the planner and the capture
    need them. *)

(** ** Trees *)

Definition tree_induction (P : BookmarkTreeNode -> Prop)
    (H : forall n, Forall P (tn_children n) -> P n) : forall n, P n :=
  fix rec n := match n with
    mkTreeNode a b c d e f cs => H (mkTreeNode a b c d e f cs)
      ((fix all l : Forall P l := match l with [] => Forall_nil_2 _ | x :: l => Forall_cons_2 _ _ _ (rec x) (all l) end) cs)
  end.

(** A node and everything under it, parents first, siblings in order. *)
Fixpoint preorder (parent : string) (n : BookmarkTreeNode) : list (BookmarkTreeNode * string) :=
  match n with
  | mkTreeNode id _ _ _ _ _ cs => (n, parent) :: concat (map (preorder id) cs)
  end.

Definition entry_id (e : BookmarkTreeNode * string) : string := tn_id e.1.

Fixpoint tree_ids (n : BookmarkTreeNode) : list string :=
  match n with mkTreeNode id _ _ _ _ _ cs => id :: concat (map tree_ids cs) end.

Lemma preorder_unfold p n : preorder p n = (n, p) :: concat (map (preorder (tn_id n)) (tn_children n)).
Proof. by destruct n. Qed.
Lemma tree_ids_unfold n : tree_ids n = tn_id n :: concat (map tree_ids (tn_children n)).
Proof. by destruct n. Qed.
Lemma tree_size_unfold n : tree_size n = S (forest_size (tn_children n)).
Proof. destruct n as [a b c d e f cs]. reflexivity. Qed.

Lemma preorder_ids n p : map entry_id (preorder p n) = tree_ids n.
Proof.
  revert p. induction n as [n IH] using tree_induction. intros p.
  rewrite preorder_unfold, tree_ids_unfold. cbn. f_equal. rewrite concat_map, map_map. f_equal.
  apply map_ext_in. intros c Hc. rewrite Forall_forall in IH. apply IH. by apply list_elem_of_In.
Qed.

Lemma forest_size_app l1 l2 : forest_size (l1 ++ l2) = (forest_size l1 + forest_size l2)%nat.
Proof. unfold forest_size. induction l1 as [|a l1 IH]; cbn; [done|]. rewrite IH. lia. Qed.
Lemma forest_size_rev l : forest_size (rev l) = forest_size l.
Proof.
  induction l as [|a l IH]; [done|]. cbn [rev]. rewrite forest_size_app, IH. unfold forest_size. cbn. lia.
Qed.

(** The walk is the preorder of what is on the stack. *)
Lemma walk_tree_spec fuel stack walk : (forest_size (map fst stack) < fuel)%nat ->
  walk_tree fuel stack walk = walk ++ concat (map (fun e => preorder e.2 e.1) stack).
Proof.
  revert stack walk. induction fuel as [|fuel IH]; intros stack walk Hf; [lia|].
  destruct stack as [|[n p] stack]; cbn [walk_tree]; [by rewrite app_nil_r|].
  cbn [map forest_size foldr fst] in Hf. rewrite tree_size_unfold in Hf.
  rewrite IH; cbn [fst snd].
  - rewrite map_app, concat_app, map_map, <- app_assoc. cbn [map concat fst snd]. by rewrite preorder_unfold.
  - rewrite map_app, map_map, forest_size_app. cbn [fst]. rewrite map_id. unfold forest_size in *. lia.
Qed.

Lemma walk_of_spec tree : walk_of (Some tree) = concat (map (preorder (tn_id tree)) (tn_children tree)).
Proof.
  unfold walk_of. rewrite walk_tree_spec.
  - by rewrite map_map.
  - rewrite map_map. cbn [fst]. rewrite map_id, tree_size_unfold. lia.
Qed.

(** The walk of [descendantIds] visits the same nodes, siblings last first. *)
Lemma descend_perm fuel stack ids : (forest_size stack < fuel)%nat ->
  descend fuel stack ids ≡ₚ ids ++ concat (map tree_ids stack).
Proof.
  revert stack ids. induction fuel as [|fuel IH]; intros stack ids Hf; [lia|].
  destruct stack as [|n stack]; cbn [descend]; [by rewrite app_nil_r|].
  cbn [forest_size foldr] in Hf. rewrite tree_size_unfold in Hf.
  rewrite IH by (rewrite forest_size_app, forest_size_rev; unfold forest_size in *; lia).
  rewrite <- app_assoc. f_equiv. cbn [map concat]. rewrite tree_ids_unfold. cbn. f_equiv.
  rewrite map_app, concat_app. f_equiv. by rewrite (Permutation_rev (tn_children n)) at 2.
Qed.

(** ** The reference reading *)

Section reading.
(** The object id of a root, the mapped object id of another node, and the
    recorded position of an object. *)
Variables (rootId mappedId positionOf : string -> option string).

Definition own_id (parent : option string) (n : BookmarkTreeNode) : option string :=
  match rootId (tn_id n) with
  | Some r => Some r
  | None => match parent with Some _ => mappedId (tn_id n) | None => None end
  end.

Definition own_row (parent : option string) (n : BookmarkTreeNode) : list LiveBookmarkNode :=
  match rootId (tn_id n), parent, mappedId (tn_id n) with
  | None, Some p, Some o => [live_node n o p (positionOf o)]
  | _, _, _ => []
  end.

(** A node without an object id hides itself and the mapped nodes below it. *)
Fixpoint live_rows (parent : option string) (n : BookmarkTreeNode) : list LiveBookmarkNode :=
  match n with
  | mkTreeNode _ _ _ _ _ _ cs => own_row parent n ++ concat (map (live_rows (own_id parent n)) cs)
  end.

Fixpoint hidden (parent : option string) (n : BookmarkTreeNode) : Z :=
  match n with
  | mkTreeNode _ _ _ _ _ _ cs =>
      (if own_id parent n is Some _ then 0 else 1) + foldr Z.add 0 (map (hidden (own_id parent n)) cs)
  end.

Lemma live_rows_unfold p n : live_rows p n = own_row p n ++ concat (map (live_rows (own_id p n)) (tn_children n)).
Proof. by destruct n. Qed.
Lemma hidden_unfold p n : hidden p n =
  (if own_id p n is Some _ then 0 else 1) + foldr Z.add 0 (map (hidden (own_id p n)) (tn_children n)).
Proof. by destruct n. Qed.

(** One step of the loop, with its lookups resolved. *)
Definition read_step (acc : ReadAcc) (e : BookmarkTreeNode * string) : ReadAcc :=
  let '(n, p) := e in
  let parent := truthy_str (jm_get (ra_objectIdOf acc) p) in
  mkReadAcc (ra_nodes acc ++ own_row parent n)
    (match own_id parent n with Some o => jm_set (ra_objectIdOf acc) (tn_id n) o | None => ra_objectIdOf acc end)
    (ra_unmapped acc + (if own_id parent n is Some _ then 0 else 1)).

Hypothesis truthy_root : forall i o, rootId i = Some o -> o <> "".
Hypothesis truthy_mapped : forall i o, mappedId i = Some o -> o <> "".

Definition parent_of (acc : ReadAcc) (p : string) : option string := truthy_str (jm_get (ra_objectIdOf acc) p).

Lemma own_truthy p n : truthy_str (own_id p n) = own_id p n.
Proof using truthy_root truthy_mapped.
  assert (forall o, own_id p n = Some o -> o <> "") as H.
  { unfold own_id. intros o. destruct (rootId (tn_id n)) eqn:E; [intros [= <-]; eauto|]. destruct p; [eauto|done]. }
  destruct (own_id p n) as [o|]; cbn; [|done]. specialize (H _ eq_refl).
  by destruct (String.eqb_spec o "").
Qed.

(** What the entries of a list of trees add. *)
Definition reads (p : string) (l : list BookmarkTreeNode) (acc acc' : ReadAcc) : Prop :=
  ra_nodes acc' = ra_nodes acc ++ concat (map (live_rows (parent_of acc p)) l) /\
  ra_unmapped acc' = ra_unmapped acc + foldr Z.add 0 (map (hidden (parent_of acc p)) l) /\
  (forall i, i ∉ concat (map tree_ids l) -> jm_get (ra_objectIdOf acc') i = jm_get (ra_objectIdOf acc) i).

Definition unread (acc : ReadAcc) (l : list string) : Prop := forall i, i ∈ l -> jm_get (ra_objectIdOf acc) i = None.

Lemma reads_forest p l acc : (p ∉ concat (map tree_ids l)) -> NoDup (concat (map tree_ids l)) ->
  Forall (fun n => forall acc, (p ∉ tree_ids n) -> NoDup (tree_ids n) -> unread acc (tree_ids n) ->
    reads p [n] acc (foldl read_step acc (preorder p n))) l ->
  unread acc (concat (map tree_ids l)) ->
  reads p l acc (foldl read_step acc (concat (map (preorder p) l))).
Proof using Type.
  intros Hp Hnd Hall. revert acc. induction l as [|n l IH]; intros acc Hu; cbn [map concat] in *.
  { cbn. unfold reads. cbn. rewrite app_nil_r. split_and!; [done|lia|done]. }
  apply not_elem_of_app in Hp as [Hpn Hpl]. apply NoDup_app in Hnd as (Hn & Hdis & Hl).
  apply Forall_cons in Hall as [Hhd Htl]. rewrite foldl_app.
  destruct (Hhd acc Hpn Hn) as (H1 & H2 & H3). { intros i Hi. apply Hu. apply elem_of_app. by left. }
  set (acc1 := foldl read_step acc (preorder p n)) in *. cbn [map concat] in H3. rewrite app_nil_r in H3.
  destruct (IH Hpl Hl Htl acc1) as (K1 & K2 & K3).
  { intros i Hi. rewrite H3; [|intros ?; by eapply Hdis]. apply Hu. apply elem_of_app. by right. }
  assert (parent_of acc1 p = parent_of acc p) as Epar by (unfold parent_of; by rewrite H3).
  rewrite Epar in *. unfold reads. cbn [map concat foldr] in *. rewrite app_nil_r in H1. split_and!.
  - rewrite K1, H1. by rewrite app_assoc.
  - rewrite K2, H2. lia.
  - intros i [? ?]%not_elem_of_app. rewrite K3, H3; done.
Qed.

Lemma reads_tree n p acc : (p ∉ tree_ids n) -> NoDup (tree_ids n) -> unread acc (tree_ids n) ->
  reads p [n] acc (foldl read_step acc (preorder p n)).
Proof using truthy_root truthy_mapped.
  revert p acc. induction n as [n IH] using tree_induction. intros p acc Hp Hnd Hu.
  rewrite preorder_unfold, tree_ids_unfold in *. cbn [foldl]. apply NoDup_cons in Hnd as [Hid Hnd].
  set (acc1 := read_step acc (n, p)).
  assert (forall i, i <> tn_id n -> jm_get (ra_objectIdOf acc1) i = jm_get (ra_objectIdOf acc) i) as Hother.
  { intros i Hi. cbn. destruct (own_id _ _); [by rewrite jm_get_set_ne|done]. }
  assert (parent_of acc1 (tn_id n) = own_id (parent_of acc p) n) as Hown.
  { unfold parent_of at 1. cbn. fold (parent_of acc p). destruct (own_id (parent_of acc p) n) as [o|] eqn:E.
    - rewrite jm_get_set_eq, <- E. apply own_truthy.
    - rewrite Hu; [done|left]. }
  destruct (reads_forest (tn_id n) (tn_children n) acc1 Hid Hnd) as (K1 & K2 & K3).
  { rewrite Forall_forall in *. intros c Hc acc' ???. by apply IH. }
  { intros i Hi. rewrite Hother; [|by intros ->]. apply Hu. by right. }
  rewrite Hown in *. unfold reads. cbn [map concat foldr]. rewrite !app_nil_r, live_rows_unfold, hidden_unfold.
  split_and!.
  - rewrite K1. cbn. by rewrite app_assoc.
  - rewrite K2. cbn. fold (parent_of acc p). lia.
  - intros i. rewrite tree_ids_unfold. intros [??]%not_elem_of_cons. rewrite K3 by done. by apply Hother.
Qed.

(** ** The rows *)

(** Each row's parent is one of [P] or an earlier row. *)
Fixpoint rooted (P : string -> Prop) (l : list LiveBookmarkNode) : Prop :=
  match l with
  | [] => True
  | n :: l => P (lb_parentObjectId n) /\ rooted (fun i => P i \/ i = lb_objectId n) l
  end.

Lemma rooted_mono (P Q : string -> Prop) l : (forall i, P i -> Q i) -> rooted P l -> rooted Q l.
Proof using Type.
  revert P Q. induction l as [|n l IH]; intros P Q HPQ; cbn; [done|]. intros [? ?]. split; [eauto|].
  eapply IH; [|done]. intros i [?|?]; eauto.
Qed.

Lemma rooted_app P l1 l2 : rooted P l1 -> rooted P l2 -> rooted P (l1 ++ l2).
Proof using Type.
  revert P. induction l1 as [|n l1 IH]; intros P; cbn; [done|]. intros [? H1] H2. split; [done|].
  apply IH; [done|]. eapply rooted_mono; [|done]. by left.
Qed.

Definition is_root_id (i : string) : Prop := exists c, rootId c = Some i.

Lemma live_rows_rooted parent n (P : string -> Prop) :
  (forall i, is_root_id i -> P i) -> (forall i, parent = Some i -> P i) -> rooted P (live_rows parent n).
Proof using Type.
  revert parent P. induction n as [n IH] using tree_induction. intros parent P Hr Hp. rewrite live_rows_unfold.
  assert (forall Q : string -> Prop, (forall i, is_root_id i -> Q i) -> (forall i, own_id parent n = Some i -> Q i) ->
    rooted Q (concat (map (live_rows (own_id parent n)) (tn_children n)))) as Hcs.
  { intros Q HrQ HoQ. induction IH as [|c cs Hc _ IHcs]; [done|]. cbn. apply rooted_app; [by apply Hc|done]. }
  unfold own_row, own_id in *. destruct (rootId (tn_id n)) as [r|] eqn:Er.
  - apply Hcs; [done|]. intros i [= <-]. apply Hr. by exists (tn_id n).
  - destruct parent as [p|]; [|by apply Hcs]. destruct (mappedId (tn_id n)) as [o|]; [|by apply Hcs].
    cbn. split; [by apply Hp|]. apply Hcs; [by left; apply Hr|]. intros i [= <-]. by right.
Qed.

(** A row comes from a node of the tree that is mapped and not a root. *)
Definition row_of (n : LiveBookmarkNode) : Prop :=
  rootId (lb_chromiumId n) = None /\ mappedId (lb_chromiumId n) = Some (lb_objectId n) /\
  lb_position n = positionOf (lb_objectId n) /\ (lb_kind n = KFolder -> lb_url n = None) /\
  (lb_kind n = KBookmark -> lb_url n <> None).

Lemma live_rows_of parent n : Forall row_of (live_rows parent n).
Proof using Type.
  revert parent. induction n as [n IH] using tree_induction. intros parent. rewrite live_rows_unfold. apply Forall_app. split.
  - unfold own_row. destruct (rootId (tn_id n)) eqn:Er, parent, (mappedId (tn_id n)) eqn:Em; constructor; [|done].
    unfold row_of, live_node, has_url. cbn. rewrite Er, Em. split_and!; [done..| |];
      destruct (tn_url n) as [u|]; try destruct (String.eqb u ""); done.
  - induction IH; cbn; [done|]. by apply Forall_app.
Qed.

Lemma live_rows_sublist parent n : map lb_chromiumId (live_rows parent n) `sublist_of` tree_ids n.
Proof using Type.
  revert parent. induction n as [n IH] using tree_induction. intros parent. rewrite live_rows_unfold, tree_ids_unfold, map_app.
  assert (map lb_chromiumId (concat (map (live_rows (own_id parent n)) (tn_children n)))
    `sublist_of` concat (map tree_ids (tn_children n))) as Hcs.
  { generalize (own_id parent n). intros o. induction IH; cbn; [done|]. rewrite map_app. by apply sublist_app. }
  unfold own_row. destruct (rootId (tn_id n)), parent, (mappedId (tn_id n)); cbn; by constructor.
Qed.

Lemma hidden_nonneg parent n : 0 <= hidden parent n.
Proof using Type.
  revert parent. induction n as [n IH] using tree_induction. intros parent. rewrite hidden_unfold.
  assert (0 <= foldr Z.add 0 (map (hidden (own_id parent n)) (tn_children n))).
  { generalize (own_id parent n). intros o. induction IH as [|c cs Hc _ IHc]; cbn; [lia|]. specialize (Hc o). lia. }
  destruct (own_id parent n); lia.
Qed.

(** Nothing hidden: every node but the roots has its row. *)
Lemma hidden_none parent n : hidden parent n = 0 ->
  map lb_chromiumId (live_rows parent n) = filter (fun i => rootId i = None) (tree_ids n).
Proof using Type.
  revert parent. induction n as [n IH] using tree_induction. intros parent. rewrite live_rows_unfold, hidden_unfold, tree_ids_unfold, map_app.
  assert (forall o, 0 <= foldr Z.add 0 (map (hidden o) (tn_children n)) /\
    (foldr Z.add 0 (map (hidden o) (tn_children n)) = 0 ->
     map lb_chromiumId (concat (map (live_rows o) (tn_children n))) =
       filter (fun i => rootId i = None) (concat (map tree_ids (tn_children n))))) as Hcs.
  { intros o. induction IH as [|c cs Hc _ [IHpos IHc]]; cbn; [done|]. pose proof (hidden_nonneg o c). split; [lia|].
    intros Hz. rewrite map_app, filter_app. f_equal; [apply Hc|apply IHc]; lia. }
  destruct (Hcs (own_id parent n)) as [Hpos Hz]. intros H0. rewrite filter_cons.
  unfold own_row, own_id in *. destruct (rootId (tn_id n)) as [r|] eqn:Er.
  - cbn. rewrite decide_False by done. apply Hz. lia.
  - rewrite decide_True by done. destruct parent as [p|]; [|lia]. destruct (mappedId (tn_id n)) as [o|]; [|lia].
    cbn. f_equal. apply Hz. lia.
Qed.
End reading.

(** ** The batched lookups *)

Lemma jm_get_merge {V} (l m : jmap string V) i : jm_wf l ->
  jm_get (foldl (fun m kv => jm_set m kv.1 kv.2) m l) i = match jm_get l i with Some v => Some v | None => jm_get m i end.
Proof.
  unfold jm_wf. revert m. induction l as [|[k v] l IH]; intros m Hwf; cbn; [done|].
  cbn in Hwf. apply NoDup_cons in Hwf as [Hk Hwf]. rewrite IH by done. rewrite jm_get_set. destruct (decide (k = i)) as [<-|]; [|by rewrite decide_False by done].
  assert (jm_get l k = None) as -> by (by apply jm_get_None). by rewrite decide_True.
Qed.

Lemma get_batched_get {A} (get : list string -> DB -> jmap string A) (f : string -> option A) db ids i :
  (forall l, jm_wf (get l db)) -> (forall l j, jm_get (get l db) j = if decide (j ∈ l) then f j else None) ->
  jm_get (get_batched ids get db) i = if decide (i ∈ ids) then f i else None.
Proof.
  intros Hwf Hget. unfold get_batched.
  assert (forall ls m, jm_get (foldl (fun m batch => foldl (fun m kv => jm_set m kv.1 kv.2) m (get batch db)) m ls) i =
    if decide (i ∈ concat ls) then (match f i with Some v => Some v | None => jm_get m i end) else jm_get m i) as H.
  { induction ls as [|l ls IH]; intros m; cbn [foldl concat]; [by rewrite decide_False by (apply not_elem_of_nil)|].
    rewrite IH, jm_get_merge, Hget by done.
    destruct (decide (i ∈ l)) as [Hl|Hl], (decide (i ∈ concat ls)) as [Hc|Hc], (decide (i ∈ l ++ concat ls)) as [Ha|Ha];
      rewrite elem_of_app in Ha; destruct (f i); tauto. }
  rewrite H, slices_concat by lia. case_decide; [|done]. by destruct (f i).
Qed.

Lemma get_batched_wf {A} (get : list string -> DB -> jmap string A) db ids : jm_wf (get_batched ids get db).
Proof.
  unfold get_batched. generalize (jm_nil_wf : jm_wf (@nil (string * A))). generalize (@nil (string * A)).
  induction (slices ids 5000) as [|l ls IH]; intros m Hm; [done|]. cbn. apply IH. by apply jm_of_list_wf_aux.
Qed.

(** ** readLiveBookmarks *)

Definition root_of (r : BookmarkRoots) (i : string) : option string := truthy_str (jm_get (objectIdByChromiumId r) i).
Definition mapped_of (db : DB) (i : string) : option string :=
  truthy_str (om_objectId <$> object_mappings db !! mappingKey MAP_TYPE i).
Definition recorded_position (db : DB) (o : string) : option string :=
  position_of_state (field_state db !! fieldStateKey o "move").

Lemma truthy_str_ne o s : truthy_str o = Some s -> o = Some s /\ s <> "".
Proof. unfold truthy_str. destruct o as [x|]; [|done]. destruct (String.eqb_spec x ""); [done|]. by intros [= <-]. Qed.

(** The reading of a whole tree: its top-level nodes hang under nothing. *)
Definition live_tree (r : BookmarkRoots) (db : DB) (tree : BookmarkTreeNode) : list LiveBookmarkNode :=
  concat (map (live_rows (root_of r) (mapped_of db) (recorded_position db) None) (tn_children tree)).
Definition hidden_tree (r : BookmarkRoots) (db : DB) (tree : BookmarkTreeNode) : Z :=
  foldr Z.add 0 (map (hidden (root_of r) (mapped_of db) None) (tn_children tree)).

Lemma read_entry_step r db (ids oids : list string) acc e :
  (root_of r (entry_id e) = None -> entry_id e ∈ ids) ->
  (forall o, mapped_of db (entry_id e) = Some o -> root_of r (entry_id e) = None -> o ∈ oids) ->
  forall mappings moves,
  (forall i, jm_get mappings i = if decide (i ∈ ids) then object_mappings db !! mappingKey MAP_TYPE i else None) ->
  (forall o, jm_get moves o = if decide (o ∈ oids) then field_state db !! fieldStateKey o "move" else None) ->
  read_entry (objectIdByChromiumId r) mappings moves acc e =
  read_step (root_of r) (mapped_of db) (recorded_position db) acc e.
Proof.
  destruct e as [n p]. unfold entry_id. cbn [fst]. intros Hid Hoid mappings moves Hm Hs.
  unfold read_entry, read_step, own_row, own_id. fold (root_of r (tn_id n)).
  destruct (root_of r (tn_id n)) as [o|] eqn:Er; [by rewrite app_nil_r, Z.add_0_r|].
  rewrite Hm, decide_True by auto. fold (mapped_of db (tn_id n)).
  destruct (truthy_str (jm_get (ra_objectIdOf acc) p)) as [q|]; [|by rewrite app_nil_r].
  destruct (mapped_of db (tn_id n)) as [o|] eqn:Em; [|by rewrite app_nil_r].
  rewrite Hs, decide_True by auto. by rewrite Z.add_0_r.
Qed.

Lemma foldl_ext_in {A B} (f g : A -> B -> A) l : (forall a b, b ∈ l -> f a b = g a b) -> forall a, foldl f a l = foldl g a l.
Proof.
  induction l as [|b l IH]; intros H a; [done|]. cbn. rewrite H by left. apply IH. intros. apply H. by right.
Qed.

Section read.
Context {Br : Type} `{Env : BookmarkEnv Br}.

Lemma readLiveTree_reference (s s' : BmState (Br := Br)) r tree : bookmarkRoots s = (inr r, s') ->
  getTree (ba_browser s'.2) = Some tree -> NoDup (tree_ids tree) ->
  (forall i, jm_has (objectIdByChromiumId r) i = true -> root_of r i <> None) ->
  readLiveTree s = (inr (live_tree r s'.1 tree, hidden_tree r s'.1 tree), s').
Proof.
  intros Hr Ht Hnd Htruthy. unfold readLiveTree, bind. rewrite Hr. unfold get_app, store_get. cbn [fst snd]. rewrite Ht, walk_of_spec.
  set (walk := concat _). set (ids := filter _ _). set (mappings := get_batched ids _ _).
  set (oids := map om_objectId _). set (moves := get_batched oids _ _). unfold ret. cbn [fst snd].
  assert (forall i, jm_get mappings i = if decide (i ∈ ids) then object_mappings s'.1 !! mappingKey MAP_TYPE i else None) as Hm.
  { intros i. apply (get_batched_get _ (fun i => object_mappings s'.1 !! mappingKey MAP_TYPE i)); intros; [apply getMappingsByLocalIds_wf|apply getMappingsByLocalIds_get]. }
  assert (forall o, jm_get moves o = if decide (o ∈ oids) then field_state s'.1 !! fieldStateKey o "move" else None) as Hs.
  { intros o. apply (get_batched_get _ (fun o => field_state s'.1 !! fieldStateKey o "move")); intros; [apply getFieldStatesForObjects_wf|apply getFieldStatesForObjects_get]. }
  rewrite (foldl_ext_in _ (read_step (root_of r) (mapped_of s'.1) (recorded_position s'.1))).
  2:{ intros acc e He. assert (root_of r (entry_id e) = None -> entry_id e ∈ ids) as Hids.
      { intros Hroot. apply list_elem_of_filter. split; [|by apply (list_elem_of_fmap_2 entry_id)].
        destruct (jm_has _ _) eqn:E; [|done]. by apply Htruthy in E. }
      apply (read_entry_step r s'.1 ids oids); [done| |done..].
      intros o Ho Hroot. apply truthy_str_ne in Ho as [Ho _].
      apply fmap_Some in Ho as (rec & Hrec & ->). apply list_elem_of_fmap_2.
      specialize (Hm (entry_id e)). rewrite decide_True, Hrec in Hm by auto. apply jm_get_Some_elem in Hm.
      by apply (list_elem_of_fmap_2 snd) in Hm. }
  rewrite tree_ids_unfold in Hnd. apply NoDup_cons in Hnd as [Hid Hnd].
  edestruct (reads_forest (root_of r) (mapped_of s'.1) (recorded_position s'.1) (tn_id tree) (tn_children tree)
    (mkReadAcc [] [] 0) Hid Hnd) as (K1 & K2 & _).
  { rewrite Forall_forall. intros c _ acc' ???. apply reads_tree; [..|done|done|done];
      intros i o Ho; by apply truthy_str_ne in Ho as [_ ?]. }
  { intros i _. done. }
  subst walk. rewrite K1, K2. done.
Qed.

(** ** What the capture and the planner may rely on *)

Section rows.
Variables (r : BookmarkRoots) (db : DB) (tree : BookmarkTreeNode).
Hypothesis Hroots : Forall (fun kv => kv.2 ∈ ROOT_IDS) (objectIdByChromiumId r).

Lemma empty_not_root : "" ∉ ROOT_IDS.
Proof using Type. apply (bool_decide_unpack _). vm_compute. exact I. Qed.

Lemma roots_truthy i : jm_has (objectIdByChromiumId r) i = true -> root_of r i <> None.
Proof using Hroots.
  unfold jm_has, root_of. destruct (jm_get _ i) as [o|] eqn:E; [|done]. intros _. apply jm_get_Some_elem in E.
  rewrite Forall_forall in Hroots. apply Hroots in E. cbn [snd truthy_str] in *. destruct (String.eqb_spec o "") as [->|]; [|done].
  by apply empty_not_root in E.
Qed.

Lemma root_of_ids i o : root_of r i = Some o -> o ∈ ROOT_IDS.
Proof using Hroots.
  intros [E _]%truthy_str_ne. apply jm_get_Some_elem in E. rewrite Forall_forall in Hroots. by apply Hroots in E.
Qed.

Lemma live_tree_rooted : rooted (is_root_id (root_of r)) (live_tree r db tree).
Proof using Type.
  unfold live_tree. induction (tn_children tree) as [|c cs IH]; cbn; [done|]. apply rooted_app; [|done].
  by apply live_rows_rooted.
Qed.

Lemma live_tree_rows : Forall (row_of (root_of r) (mapped_of db) (recorded_position db)) (live_tree r db tree).
Proof using Type.
  unfold live_tree. induction (tn_children tree) as [|c cs IH]; cbn; [done|]. apply Forall_app. split; [|done].
  apply live_rows_of.
Qed.

Lemma live_tree_sublist : map lb_chromiumId (live_tree r db tree) `sublist_of` tree_ids tree.
Proof using Type.
  rewrite tree_ids_unfold. apply sublist_cons. unfold live_tree. induction (tn_children tree) as [|c cs IH]; cbn; [done|].
  rewrite map_app. apply sublist_app; [apply live_rows_sublist|done].
Qed.

Lemma live_tree_complete : hidden_tree r db tree = 0 ->
  map lb_chromiumId (live_tree r db tree) =
    filter (fun i => root_of r i = None) (concat (map tree_ids (tn_children tree))).
Proof using Type.
  unfold hidden_tree, live_tree.
  enough (0 <= foldr Z.add 0 (map (hidden (root_of r) (mapped_of db) None) (tn_children tree)) /\
    (foldr Z.add 0 (map (hidden (root_of r) (mapped_of db) None) (tn_children tree)) = 0 ->
     map lb_chromiumId (concat (map (live_rows (root_of r) (mapped_of db) (recorded_position db) None) (tn_children tree))) =
     filter (fun i => root_of r i = None) (concat (map tree_ids (tn_children tree))))) as [_ He] by done.
  induction (tn_children tree) as [|c cs [IHp IH]]; cbn; [done|].
  pose proof (hidden_nonneg (root_of r) (mapped_of db) None c). split; [lia|]. intros Hz.
  rewrite map_app, filter_app. f_equal; [apply hidden_none|apply IH]; lia.
Qed.

(** No two nodes share an object id, and none has a root's. *)
Definition mapping_sound : Prop := forall i o, i ∈ tree_ids tree -> root_of r i = None -> mapped_of db i = Some o ->
  (o ∉ ROOT_IDS) /\ forall j, j ∈ tree_ids tree -> root_of r j = None -> mapped_of db j = Some o -> i = j.

Lemma live_tree_nodup : NoDup (tree_ids tree) -> mapping_sound -> NoDup (map lb_objectId (live_tree r db tree)).
Proof using Type.
  intros Hnd Hs.
  assert (Forall (fun n => lb_chromiumId n ∈ tree_ids tree) (live_tree r db tree)) as Hin.
  { apply Forall_forall. intros n Hn. eapply elem_of_sublist; [|exact live_tree_sublist]. by apply (list_elem_of_fmap_2 lb_chromiumId). }
  assert (NoDup (map lb_chromiumId (live_tree r db tree))) as Hc by (eapply sublist_NoDup; [exact Hnd|exact live_tree_sublist]).
  pose proof live_tree_rows as Hrows. induction (live_tree r db tree) as [|n l IH]; cbn in *; [constructor|].
  apply NoDup_cons in Hc as [Hn Hc]. apply Forall_cons in Hrows as [(Hr & Hm & _) Hrows]. apply Forall_cons in Hin as [Hin Hl].
  apply NoDup_cons. split; [|by apply IH].
  intros (m & E & Hm')%list_elem_of_fmap. apply Hn. rewrite Forall_forall in Hrows, Hl.
  destruct (Hrows _ Hm') as (Hr' & Hmm & _). rewrite E in Hm.
  destruct (Hs (lb_chromiumId n) (lb_objectId m) Hin Hr Hm) as [_ Hinj].
  rewrite (Hinj (lb_chromiumId m)) by auto. by apply list_elem_of_fmap_2.
Qed.

Lemma live_tree_ids : mapping_sound -> Forall (fun n => lb_objectId n ∉ ROOT_IDS) (live_tree r db tree).
Proof using Type.
  intros Hs. pose proof live_tree_rows as Hrows. rewrite Forall_forall in *. intros n Hn.
  destruct (Hrows _ Hn) as (Hr & Hm & _).
  assert (lb_chromiumId n ∈ tree_ids tree) as Hin.
  { eapply elem_of_sublist; [|exact live_tree_sublist]. by apply (list_elem_of_fmap_2 lb_chromiumId). }
  by destruct (Hs _ _ Hin Hr Hm).
Qed.
End rows.

Lemma rooted_ordered (P : string -> Prop) live : rooted P live -> NoDup (map lb_objectId live) ->
  (forall n, n ∈ live -> ~ P (lb_objectId n)) -> live_ordered live.
Proof using Type.
  intros Hr Hnd HP i j n m Hi Hj E. destruct (decide (j < i)%nat) as [|Hge]; [done|]. exfalso.
  revert P i j Hr HP Hi Hj Hge. induction live as [|x live IH]; intros P i j Hr HP Hi Hj Hge; [done|].
  cbn in Hnd, Hr. apply NoDup_cons in Hnd as [Hx Hnd]. destruct Hr as [Hp Hr].
  destruct i as [|i].
  - injection Hi as ->. apply list_elem_of_lookup_2 in Hj. apply (HP m Hj). by rewrite E.
  - destruct j as [|j]; [lia|]. apply (IH Hnd _ i j Hr); [|done|done|lia].
    intros y Hy [HPy|Hy']; [by apply (HP y); [right|]|]. apply Hx. rewrite <- Hy'. by apply list_elem_of_fmap_2.
Qed.

(** C12. Reading the bookmarks gives one row per mapped node that hangs under a
    root through mapped folders, with its recorded position, parents first;
    when nothing was hidden, the rows are all nodes below the top but the
    roots. With sound mappings the rows have distinct object ids, none of a
    root: what planning a restore and capturing a point require. *)
Theorem readLiveTree_spec (s s' : BmState (Br := Br)) r tree : bookmarkRoots s = (inr r, s') ->
  Forall (fun kv => kv.2 ∈ ROOT_IDS) (objectIdByChromiumId r) ->
  getTree (ba_browser s'.2) = Some tree -> NoDup (tree_ids tree) ->
  let live := live_tree r s'.1 tree in
  readLiveTree s = (inr (live, hidden_tree r s'.1 tree), s') /\
  Forall (row_of (root_of r) (mapped_of s'.1) (recorded_position s'.1)) live /\
  rooted (fun i => i ∈ ROOT_IDS) live /\
  (hidden_tree r s'.1 tree = 0 -> map lb_chromiumId live =
     filter (fun i => root_of r i = None) (concat (map tree_ids (tn_children tree)))) /\
  (mapping_sound r s'.1 tree ->
     NoDup (map lb_objectId live) /\ live_ordered live /\ Forall (fun n => lb_objectId n ∉ ROOT_IDS) live).
Proof.
  intros Hr Hids Ht Hnd. cbn zeta.
  assert (rooted (fun i => i ∈ ROOT_IDS) (live_tree r s'.1 tree)) as Hrooted.
  { eapply rooted_mono; [|apply live_tree_rooted]. intros i [c Hc]. by eapply root_of_ids. }
  split_and!; [|apply live_tree_rows|done|apply live_tree_complete|].
  - apply readLiveTree_reference; [done..|]. by apply roots_truthy.
  - intros Hs. pose proof (live_tree_nodup r s'.1 tree Hnd Hs) as Hlive. pose proof (live_tree_ids r s'.1 tree Hs) as Hroot.
    split_and!; [done| |done]. apply (rooted_ordered _ _ Hrooted Hlive). rewrite Forall_forall in Hroot. auto.
Qed.
End read.

(** * Properties of the bookmark mappings

    The keys of the mapping and field state stores are injective; the paged
    walk finds every mapped node; the sweep removes exactly the mappings whose
    node is gone. *)

(** ** Keys *)

(** The fields of a bookmark. *)
Definition FIELDS : list string := ["title"; "url"; "move"; "liveness"].

Lemma fieldStateKey_inj o1 f1 o2 f2 : f1 ∈ FIELDS -> f2 ∈ FIELDS ->
  fieldStateKey o1 f1 = fieldStateKey o2 f2 -> o1 = o2 /\ f1 = f2.
Proof.
  unfold fieldStateKey. intros H1 H2 H. apply (f_equal (fun s => rev (String.list_ascii_of_string s))) in H.
  rewrite !chars_append, !rev_app_distr in H.
  assert (forall l1 l2 : list ascii, rev (String.list_ascii_of_string o1) ++ l1 = rev (String.list_ascii_of_string o2) ++ l1 -> o1 = o2) as Ho.
  { intros l1 _ E. apply app_inv_tail in E. apply (f_equal (@rev ascii)) in E. rewrite !rev_involutive in E. by apply chars_inj. }
  unfold FIELDS in *. rewrite !elem_of_cons, elem_of_nil in H1, H2.
  destruct H1 as [-> | [-> | [-> | [-> | [] ]]]], H2 as [-> | [-> | [-> | [-> | [] ]]]]; cbn in H; try discriminate H; (split; [|done]);
    injection H as H; (apply (Ho [] []); by rewrite !app_nil_r) || (apply (f_equal (@rev ascii)) in H; rewrite !rev_involutive in H; by apply chars_inj).
Qed.

(** ** The mapped nodes *)

Lemma foldl_add_ids (l : list ObjectMappingRecord) ids x :
  x ∈ foldl (fun ids r => js_add ids (chromiumLocalId r)) ids l <-> x ∈ ids \/ x ∈ map chromiumLocalId l.
Proof.
  revert ids. induction l as [|r l IH]; intros ids; cbn [foldl map]; [set_solver|].
  rewrite IH, js_add_elem, elem_of_cons. tauto.
Qed.

Lemma getMapped_total t db : exists ids, getMappedChromiumIdsByType t db = Some ids /\
  forall x, x ∈ ids <-> exists k r, object_mappings db !! k = Some r /\ om_objectType r = t /\ chromiumLocalId r = x.
Proof.
  unfold getMappedChromiumIdsByType. rewrite walk_resume.
  - eexists. split; [done|]. intros x. rewrite foldl_add_ids. split.
    + intros [?%not_elem_of_nil|(r & -> & ([k r'] & -> & [Ht Hr]%list_elem_of_filter)%list_elem_of_fmap)%list_elem_of_fmap]; [done|].
      exists k, r'. split_and!; [|done..]. by apply (index_elem _ _ _ _ (rows_perm _)) in Hr.
    + intros (k & r & Hr & Ht & <-). right. apply list_elem_of_fmap_2. apply (list_elem_of_fmap_2 snd _ (k, r)).
      apply list_elem_of_filter. split; [done|]. by apply (index_elem _ _ _ _ (rows_perm _)).
  - unfold IDB_BATCH_CHUNK. lia.
  - apply key_sorted_filter, rows_key_sorted.
  - apply length_rows_filter.
  - intros acc l1 l2. by rewrite foldl_app.
Qed.

Section sweep.
Context {Br : Type} `{Env : BookmarkEnv Br}.

Lemma delete_batches (batches : list (list string)) (s : BmState (Br := Br)) :
  exists m, for_each batches (fun batch => store_put (deleteMappingsBatch MAP_TYPE batch)) s = (inr tt, (set_mappings m s.1, s.2)) /\
    forall k, m !! k = if decide (k ∈ map (mappingKey MAP_TYPE) (concat batches)) then None else object_mappings s.1 !! k.
Proof.
  revert s. induction batches as [|b bs IH]; intros [db a]; cbn [for_each concat].
  - exists (object_mappings db). split; [by destruct db|]. intros k. rewrite decide_False; [done|]. by apply not_elem_of_nil.
  - unfold bind, store_put, modify. cbn [fst snd]. destruct (IH (deleteMappingsBatch MAP_TYPE b db, a)) as (m & Hm & Hl).
    unfold store_put, modify in Hm. rewrite Hm. exists m. split.
    { cbn [fst snd]. do 2 f_equal. unfold deleteMappingsBatch. destruct b; by destruct db. }
    intros k. rewrite Hl, map_app. cbn [fst].
    assert (object_mappings (deleteMappingsBatch MAP_TYPE b db) !! k =
      if decide (k ∈ map (mappingKey MAP_TYPE) b) then None else object_mappings db !! k) as ->.
    { unfold deleteMappingsBatch. destruct b as [|i b]; [by rewrite decide_False by apply not_elem_of_nil|].
      cbn [object_mappings set_mappings]. rewrite putAllChunked_foldl.
      rewrite <- (lookup_foldl_delete (map (mappingKey MAP_TYPE) (i :: b))). f_equal.
      generalize (object_mappings db). generalize (i :: b). intros l. induction l as [|x l IHl]; intros m'; cbn; [done|]. apply IHl. }
    repeat case_decide; set_solver.
Qed.

Lemma present_ids_elem tree i : i ∈ present_ids (Some tree) <-> i ∈ tree_ids tree.
Proof using Type.
  unfold present_ids. rewrite descend_perm by (unfold forest_size; cbn; lia). cbn. by rewrite app_nil_r.
Qed.

(** The sweep always ends, leaves the browser alone, and afterwards the
    mappings are those from before except the bookmark mappings whose node is
    no longer in the browser's tree. *)
Theorem sweepStale_exact (s : BmState (Br := Br)) tree :
  getTree (ba_browser s.2) = Some tree -> mappings_wf s.1 ->
  exists n m, sweepStaleTree s = (inr n, (set_mappings m s.1, s.2)) /\
    forall k r, m !! k = Some r <-> object_mappings s.1 !! k = Some r /\
      (om_objectType r = MAP_TYPE -> chromiumLocalId r ∈ tree_ids tree).
Proof.
  intros Ht Hwf. destruct (getMapped_total MAP_TYPE s.1) as (ids & Hids & Hin).
  unfold sweepStaleTree, mapped_ids, bind, store_get, get_app. rewrite Hids. cbn [fst snd ret]. rewrite Ht.
  set (stale := filter _ ids). destruct (delete_batches (slices stale 5000) s) as (m & Hm & Hl).
  destruct s as [db a]. cbn [fst snd] in *. unfold ret at 1. rewrite Hm. eexists _, m. split; [done|].
  rewrite slices_concat in Hl by lia.
  assert (forall x, x ∈ stale <-> x ∈ ids /\ x ∉ tree_ids tree) as Hstale.
  { intros x. unfold stale. rewrite list_elem_of_filter. unfold js_has. rewrite bool_decide_eq_false, js_of_list_elem, present_ids_elem. tauto. }
  intros k r. rewrite Hl. case_decide as Hk.
  - split; [done|]. intros [Hr Hpres]. apply list_elem_of_fmap in Hk as (x & -> & [Hx Hgone]%Hstale).
    pose proof (Hwf _ _ Hr) as E. pose proof (mappingKey_type_inj _ _ _ _ E) as Et. rewrite <- Et in E.
    apply mappingKey_inj in E as ->. by destruct Hgone; apply Hpres.
  - split; [|tauto]. intros Hr. split; [done|]. intros Et. apply dec_stable. intros Hgone. apply Hk.
    rewrite (Hwf _ _ Hr), Et. apply list_elem_of_fmap_2, Hstale. split; [|done]. apply Hin. eauto.
Qed.
End sweep.
