(* ===== verification/FakeBookmarks.v ===== *)
(** * The in-memory chrome.bookmarks of the tests
    (extension/src/test-support/fake-bookmarks.ts)

    The tests' stand-in for the browser, with Chromium's tree semantics: the
    instance of [ChromeBookmarks] on which the examples of the bookmark
    adapter are evaluated, and for which the laws its theorems assume are
    proved. *)

From stdpp Require Import pretty.
From S2P Require Import Prelude JsMap Types Util Storage Engine RestorePoints Bookmarks.

Open Scope Z_scope.
Open Scope js_scope.

Record FakeNode := mkFakeNode {
  fn_title : string;
  fn_url : option string;
  fn_parentId : option string;
  fn_children : list string;
}.

Record FakeBookmarks := mkFake {
  nodes : gmap string FakeNode;
  nextId : Z;
}.

Definition createFakeBookmarks : FakeBookmarks :=
  mkFake (list_to_map
    [("0", mkFakeNode "" None None ["1"; "2"; "3"]);
     ("1", mkFakeNode "Bookmarks bar" None (Some "0") []);
     ("2", mkFakeNode "Other bookmarks" None (Some "0") []);
     ("3", mkFakeNode "Mobile bookmarks" None (Some "0") [])]) 10.

Definition cannot_find (id : string) : sync_error := OtherError ("Can't find bookmark for id " +:+ id +:+ ".").

Definition must (id : string) (f : FakeBookmarks) : sync_error + FakeNode :=
  match nodes f !! id with Some n => inr n | None => inl (cannot_find id) end.

Definition index_of (id : string) (l : list string) : option nat := find_index (String.eqb id) l.

(** [children.splice(children.indexOf(id), 1)]: an absent id removes the last. *)
Definition splice_out (id : string) (l : list string) : list string :=
  match index_of id l with Some i => take i l ++ drop (S i) l | None => removelast l end.

(** [children.splice(index, 0, id)]: a negative index counts from the end. *)
Definition splice_in (index : Z) (id : string) (l : list string) : list string :=
  let at_ := if index <? 0 then Z.to_nat (Z.max 0 (Z.of_nat (length l) + index)) else Z.to_nat index in
  take at_ l ++ id :: drop at_ l.

Definition set_children (cs : list string) (n : FakeNode) : FakeNode :=
  mkFakeNode (fn_title n) (fn_url n) (fn_parentId n) cs.

Definition children_of (f : FakeBookmarks) (id : string) : list string := default [] (fn_children <$> nodes f !! id).
Definition edit_node (id : string) (g : FakeNode -> FakeNode) (f : FakeBookmarks) : FakeBookmarks :=
  mkFake (alter g id (nodes f)) (nextId f).

(** [parent!.children.indexOf(node.id)], where [parent] is looked up by a
    truthy [parentId]. *)
Definition own_index (id p : string) (f : FakeBookmarks) : sync_error + Z :=
  match if String.eqb p "" then None else nodes f !! p with
  | Some parent => inr (default (-1) (Z.of_nat <$> index_of id (fn_children parent)))
  | None => inl (OtherError "TypeError")
  end.

(** Views nest no deeper than there are nodes. *)
Fixpoint view (fuel : nat) (withChildren : bool) (id : string) (f : FakeBookmarks) : sync_error + BookmarkTreeNode :=
  match fuel with
  | O => inl (OtherError "out of fuel")
  | S fuel =>
      match must id f with
      | inl e => inl e
      | inr n =>
          match match fn_parentId n with Some p => own_index id p f | None => inr 0 end with
          | inl e => inl e
          | inr index =>
          let node := mkTreeNode id (fn_parentId n) index (fn_title n) (fn_url n) None in
          match withChildren, fn_url n with
          | true, None =>
              match (fix views (l : list string) :=
                       match l with
                       | [] => inr []
                       | c :: l => match view fuel true c f, views l with
                                   | inr v, inr vs => inr (v :: vs)
                                   | inl e, _ | _, inl e => inl e
                                   end
                       end) (fn_children n) with
              | inr vs => inr (node vs)
              | inl e => inl e
              end
          | _, _ => inr (node [])
          end
          end
      end
  end.

Definition depth_fuel (f : FakeBookmarks) : nat := S (size (nodes f)).
Definition view_flat (id : string) (f : FakeBookmarks) : sync_error + BookmarkTreeNode := view 1 false id f.

Fixpoint views_flat (ids : list string) (f : FakeBookmarks) : sync_error + list BookmarkTreeNode :=
  match ids with
  | [] => inr []
  | id :: ids => match view_flat id f, views_flat ids f with
                 | inr v, inr vs => inr (v :: vs)
                 | inl e, _ | _, inl e => inl e
                 end
  end.

Definition fake_getTree (f : FakeBookmarks) : option BookmarkTreeNode :=
  match view (depth_fuel f) true "0" f with inr t => Some t | inl _ => None end.
Definition fake_get (id : string) (f : FakeBookmarks) : sync_error + list BookmarkTreeNode := views_flat [id] f.
Definition fake_getChildren (id : string) (f : FakeBookmarks) : sync_error + list BookmarkTreeNode :=
  match must id f with inl e => inl e | inr n => views_flat (fn_children n) f end.
Definition fake_getSubTree (id : string) (f : FakeBookmarks) : sync_error + option BookmarkTreeNode :=
  match view (depth_fuel f) true id f with inr t => inr (Some t) | inl e => inl e end.

(** [detach]: [must(node.parentId!)]. *)
Definition detach (id : string) (n : FakeNode) (f : FakeBookmarks) : sync_error + FakeBookmarks :=
  match fn_parentId n with
  | None => inl (cannot_find "undefined")
  | Some p =>
      match must p f with
      | inl e => inl e
      | inr _ => inr (edit_node p (fun q => set_children (splice_out id (fn_children q)) q) f)
      end
  end.

(** Every node under [id], itself included. *)
Fixpoint subtree_ids (fuel : nat) (id : string) (f : FakeBookmarks) : list string :=
  match fuel with
  | O => []
  | S fuel => id :: concat (map (fun c => subtree_ids fuel c f) (children_of f id))
  end.
Definition dropSubtree (id : string) (f : FakeBookmarks) : FakeBookmarks :=
  mkFake (foldr (fun i m => delete i m) (nodes f) (subtree_ids (depth_fuel f) id f)) (nextId f).

Definition add_node (parentId title : string) (url : option string) (index : option Z) (f : FakeBookmarks) :
    sync_error + (string * FakeBookmarks) :=
  match must parentId f with
  | inl e => inl e
  | inr _ =>
      let id := pretty (nextId f) in
      let f := mkFake (<[id := mkFakeNode title url (Some parentId) []]> (nodes f)) (nextId f + 1) in
      inr (id, edit_node parentId (fun p =>
        set_children (splice_in (default (Z.of_nat (length (fn_children p))) index) id (fn_children p)) p) f)
  end.

Definition fake_create (parentId title : string) (url : option string) (index : option Z) (f : FakeBookmarks) :
    (sync_error + BookmarkTreeNode) * FakeBookmarks :=
  match add_node parentId title url index f with
  | inl e => (inl e, f)
  | inr (id, f) => (view_flat id f, f)
  end.

Definition fake_update (id : string) (title url : option string) (f : FakeBookmarks) :
    (sync_error + unit) * FakeBookmarks :=
  match must id f with
  | inl e => (inl e, f)
  | inr _ => (inr tt, edit_node id (fun n =>
      mkFakeNode (default (fn_title n) title) (or_else url (fn_url n)) (fn_parentId n) (fn_children n)) f)
  end.

Definition set_parent (p : string) (n : FakeNode) : FakeNode :=
  mkFakeNode (fn_title n) (fn_url n) (Some p) (fn_children n).

(** Chromium reads the index as if the node were still where it was. *)
Definition fake_move (id parentId : string) (index : option Z) (f : FakeBookmarks) :
    (sync_error + unit) * FakeBookmarks :=
  match must id f with
  | inl e => (inl e, f)
  | inr n =>
      match fn_parentId n with
      | None => (inl (cannot_find "undefined"), f)
      | Some old =>
          match must old f with
          | inl e => (inl e, f)
          | inr oldParent =>
              let oldIndex := default (-1) (Z.of_nat <$> index_of id (fn_children oldParent)) in
              match match index with
                    | Some i => inr i
                    | None => match must parentId f with
                              | inr parent => inr (Z.of_nat (length (fn_children parent)))
                              | inl e => inl e
                              end
                    end with
              | inl e => (inl e, f)
              | inr index =>
                  let index := if String.eqb parentId old && (oldIndex <? index) then index - 1 else index in
                  let f := edit_node old (fun q => set_children (splice_out id (fn_children q)) q) f in
                  let f := edit_node id (set_parent parentId) f in
                  match must parentId f with
                  | inl e => (inl e, f)
                  | inr _ => (inr tt, edit_node parentId (fun q => set_children (splice_in index id (fn_children q)) q) f)
                  end
              end
          end
      end
  end.

Definition fake_remove (id : string) (f : FakeBookmarks) : (sync_error + unit) * FakeBookmarks :=
  match must id f with
  | inl e => (inl e, f)
  | inr n =>
      match fn_children n with
      | _ :: _ => (inl (OtherError "Can't remove non-empty folder (use removeTree instead)."), f)
      | [] => match detach id n f with
              | inl e => (inl e, f)
              | inr f => (inr tt, mkFake (delete id (nodes f)) (nextId f))
              end
      end
  end.

Definition fake_removeTree (id : string) (f : FakeBookmarks) : (sync_error + unit) * FakeBookmarks :=
  match must id f with
  | inl e => (inl e, f)
  | inr n => match detach id n f with
             | inl e => (inl e, f)
             | inr f => (inr tt, dropSubtree id f)
             end
  end.

#[local] Instance fake_chrome : ChromeBookmarks FakeBookmarks := {|
  getTree := fake_getTree;
  bm_get := fake_get;
  getChildren := fake_getChildren;
  getSubTree := fake_getSubTree;
  bm_create := fake_create;
  bm_update := fake_update;
  bm_move := fake_move;
  bm_remove := fake_remove;
  bm_removeTree := fake_removeTree;
|}.
