(* ===== verification/BookmarkApply.v ===== *)
(** * The bookmark adapter: applying remote operations
    (extension/src/bookmarks/index.ts, from [restoreIfStandInRoot] on)

    An operation's fields are resolved first (Conflict); what wins is then done
    to the browser: [materialize] creates a node, [retryDeferredParent] the
    ones that waited for it, [applyMove] and [applyMovesBatch] place nodes by
    their position keys, [applyDelete] removes a subtree with its mappings.
    [applyRemoteBatch] is what the engine hands each batch to. *)

From S2P Require Import Prelude JsMap Types Util FractionalIndex Storage Conflict Engine RestorePoints Bookmarks.

Open Scope Z_scope.
Open Scope js_scope.

(** ** Positions among siblings *)

Definition index_of (id : string) (l : list string) : option nat := find_index (String.eqb id) l.

Definition moveIndex (liveOrder : list string) (moverId : string) (beforeId : option string) : Z :=
  let others := filter (fun id => id <> moverId) liveOrder in
  let target := match beforeId ≫= fun b => index_of b others with
                | Some at_ => Z.of_nat at_
                | None => Z.of_nat (length others)
                end in
  match index_of moverId liveOrder with
  | Some oldIndex => if Z.of_nat oldIndex <=? target then target + 1 else target
  | None => target
  end.

(** The binary search; [sorted] is read through its positions. *)
Fixpoint insert_search (fuel : nat) (positions : list string) (position : string) (lo hi : nat) : nat :=
  match fuel with
  | O => lo
  | S fuel =>
      if Nat.ltb lo hi then
        let mid := Nat.div2 (lo + hi) in
        if str_leb (default "" (positions !! mid)) position then insert_search fuel positions position (S mid) hi
        else insert_search fuel positions position lo mid
      else lo
  end.

Definition sortedInsertIndex (positions : list string) (position : string) : nat :=
  insert_search (length positions) positions position 0 (length positions).

Record RemoteMove := mkRemoteMove {
  rm_objectId : string;
  rm_objectType : ObjectType;
  rm_parent : string;
  rm_position : string;
}.

(** A sibling with a known position. *)
Record Placed := mkPlaced { pl_chromiumId : string; pl_position : string }.

Record CachedParentOrder := mkParentOrder {
  po_generation : Z;
  po_childChromiumIds : jset string;
  po_liveOrder : list string;
  po_objectIdByChromiumId : jmap string string;
  po_positionByObjectId : jmap string string;
  po_sorted : list Placed;
}.

Definition js_delete (s : jset string) (x : string) : jset string := filter (fun y => y <> x) s.

(** [const at = l.findIndex(p); if (at !== -1) l.splice(at, 1)] *)
Definition remove_first {A} (p : A -> bool) (l : list A) : list A :=
  match find_index p l with Some i => take i l ++ drop (S i) l | None => l end.

Definition insert_at {A} (i : nat) (x : A) (l : list A) : list A := take i l ++ x :: drop i l.

Definition is_placed (id : string) (p : Placed) : bool := String.eqb (pl_chromiumId p) id.

(** A payload as the code casts it: what a device of the account encrypted has
    these fields, of these types. *)
Definition bookmark_payload (v : jsval) : BookmarkPayload :=
  mkBookmarkPayload (default "" (as_string (jget v "title"))) (as_string (jget v "url"))
    (as_string (jget v "parent")) (default "" (as_string (jget v "position"))).

Definition MASS_DELETE_THRESHOLD : Z := 50.
Inductive MassDeleteEvent :=
  | LocalMassDelete (count : Z) (removed : list LiveBookmarkNode)
  | RemoteMassDelete (count : Z).

Inductive RemoteOpKind := RkCreate | RkUpdate | RkMove | RkDelete | RkUnknown.

(** A title or URL write waiting in [pendingTitleUrl]. *)
Inductive TitleUrlWrite := WriteTitle (objectId title : string) | WriteUrl (objectId url : string).

Section apply.
Context {Br : Type} `{Env : BookmarkEnv Br}.
(** What [setMassDeleteHandler] registered. *)
Variable massDeleteHandler : option (MassDeleteEvent -> Bm (Br := Br) unit).

Abbreviation Bm := (Bm (Br := Br)).

(** ** Creating nodes *)

Definition findUnlinkedMatch (parentChromiumId : string) (p : BookmarkPayload) : Bm (option string) :=
  let! roots := bookmarkRoots in
  let! children := chrome_get (getChildren parentChromiumId) in
  let candidates := filter (fun node => js_has (standInIds roots) (tn_id node) = false /\
                      tn_title node = bp_title p /\ tn_url node = bp_url p) children in
  match candidates with
  | [] => ret None
  | _ =>
      let! linked := store_get (getMappingsByLocalIds MAP_TYPE (map tn_id candidates)) in
      ret (tn_id <$> find (fun node => negb (jm_has linked (tn_id node))) candidates)
  end.

Definition deferUntilParentMaterializes (objectId : string) (t : ObjectType) (parent : string) : Bm unit :=
  let! createdAt := draw be_iso in
  store_put (putDeferredMaterialization (mkDeferred objectId t parent createdAt)).

Definition mappedNodeExists (objectId chromiumId : string) : Bm bool :=
  let! roots := bookmarkRoots in
  if jm_has (chromiumIdByObjectId roots) objectId then ret true
  else try_catch (let! nodes := chrome_get (bm_get chromiumId) in ret (Nat.ltb 0 (length nodes))) (fun _ => ret false).

Definition logConflict (objectId : string) (t : ObjectType) (what : string) : Bm unit :=
  let! createdAt := draw be_iso in
  store_put (recordConflict (mkConflict t objectId what createdAt false)).

(** [(moveStateByObjectId.get(objectId)?.value as ...)?.position], if truthy. *)
Definition state_position (states : jmap string FieldStateRecord) (objectId : string) : option string :=
  truthy_str (position_of_state (jm_get states objectId)).

Definition with_positions (mappings : jmap string ObjectMappingRecord) (states : jmap string FieldStateRecord)
    (ids : list string) : list Placed :=
  omap (fun id => truthy_str (om_objectId <$> jm_get mappings id) ≫= fun o => mkPlaced id <$> state_position states o) ids.

(** The mapped, truthy object ids of [ids]. *)
Definition mapped_objects (mappings : jmap string ObjectMappingRecord) (ids : list string) : list string :=
  omap (fun id => truthy_str (om_objectId <$> jm_get mappings id)) ids.

Definition applyMove (objectId : string) (t : ObjectType) (parent position : string)
    (prefetched : option (jmap string string)) : Bm unit :=
  let! chromiumIds := (match prefetched with
                       | Some m => if jm_has m objectId && jm_has m parent then ret m else chromiumIdsFor [objectId; parent]
                       | None => chromiumIdsFor [objectId; parent]
                       end) in
  match truthy_str (jm_get chromiumIds objectId) with
  | None => ret tt
  | Some chromiumId =>
      match truthy_str (jm_get chromiumIds parent) with
      | None => deferUntilParentMaterializes objectId t parent
      | Some parentChromiumId =>
          do! store_put (deleteDeferredMaterialization objectId) in
          let! children := chrome_get (getChildren parentChromiumId) in
          let siblings := map tn_id children in
          let siblingIds := filter (fun id => id <> chromiumId) siblings in
          let! mappings := store_get (getMappingsByLocalIds MAP_TYPE siblingIds) in
          let! states := store_get (getFieldStatesForObjects (mapped_objects mappings siblingIds) "move") in
          let withPositions := sort_by pl_position (with_positions mappings states siblingIds) in
          let before := pl_chromiumId <$> find (fun s => str_ltb position (pl_position s)) withPositions in
          chrome_do (bm_move chromiumId parentChromiumId (Some (moveIndex siblings chromiumId before)))
      end
  end.

(** The half of [materialize] that creates or links the node. [retry] is
    [retryDeferredParent], which calls back; the result is [prefetched] as the
    body leaves it. *)
Definition materialize_new (retry : string -> Bm unit) (objectId : string) (t : ObjectType) (p : BookmarkPayload)
    (chromiumIds : jmap string string) (prefetched : option (jmap string string)) : Bm (option (jmap string string)) :=
  let parent := truthy_str (bp_parent p) in
  let linked (chromiumId : string) : Bm unit :=
    do! establishMapping MAP_TYPE chromiumId objectId in
    store_put (deleteDeferredMaterialization objectId) in
  match parent ≫= fun q => truthy_str (jm_get chromiumIds q) with
  | None =>
      do! (match parent with Some q => deferUntilParentMaterializes objectId t q | None => ret tt end) in
      do! logConflict objectId t "parent folder not yet available locally; bookmark deferred" in
      ret prefetched
  | Some parentChromiumId =>
      if match truthy_str (bp_url p) with Some u => negb (isSyncableUrl u) | None => false end then
        do! logConflict objectId t "bookmark URL uses a disallowed scheme; not created locally" in
        ret prefetched
      else
        let! link := get_app linkExistingBookmarks in
        let! linkedId := (if link then findUnlinkedMatch parentChromiumId p else ret None) in
        match truthy_str linkedId with
        | Some linkedId =>
            do! linked linkedId in
            do! applyMove objectId t (default "" parent) (bp_position p) None in
            do! retry objectId in
            ret ((fun m => jm_set m objectId linkedId) <$> prefetched)
        | None =>
            let! created := chrome_do (bm_create parentChromiumId (bp_title p) (bp_url p) None) in
            do! linked (tn_id created) in
            do! retry objectId in
            ret ((fun m => jm_set m objectId (tn_id created)) <$> prefetched)
        end
  end.

Definition materialize (retry : string -> Bm unit) (objectId : string) (t : ObjectType) (p : BookmarkPayload)
    (prefetched : option (jmap string string)) : Bm (option (jmap string string)) :=
  let parent := truthy_str (bp_parent p) in
  let fetch := chromiumIdsFor (match parent with Some q => [objectId; q] | None => [objectId] end) in
  let! chromiumIds := (match prefetched with
                       | Some m => if jm_has m objectId && match parent with Some q => jm_has m q | None => true end
                                   then ret m else fetch
                       | None => fetch
                       end) in
  match jm_get chromiumIds objectId with
  | None => materialize_new retry objectId t p chromiumIds prefetched
  | Some mappedChromiumId =>
      let! exists_ := mappedNodeExists objectId mappedChromiumId in
      if exists_ then
        do! store_put (deleteDeferredMaterialization objectId) in ret prefetched
      else
        do! forgetMapping MAP_TYPE mappedChromiumId in
        materialize_new retry objectId t p (jm_delete chromiumIds objectId) ((fun m => jm_delete m objectId) <$> prefetched)
  end.

(** The field states [retryDeferredParent] reads, and the mapped nodes. *)
Record RetryReads := mkRetryReads {
  rt_liveness : jmap string FieldStateRecord;
  rt_move : jmap string FieldStateRecord;
  rt_title : jmap string FieldStateRecord;
  rt_url : jmap string FieldStateRecord;
  rt_chromiumIds : jmap string string;
}.

Definition state_value (states : jmap string FieldStateRecord) (objectId : string) : jsval :=
  from_option fs_value JUndef (jm_get states objectId).

(** [keyBetween(null, null)] *)
Definition middle_key : string := match keyBetween None None with inr k => k | inl _ => "" end.

Definition retry_record (retry : string -> Bm unit) (rd : RetryReads) (record : DeferredMaterializationRecord) : Bm unit :=
  let o := df_objectId record in
  if negb (js_eq_str (state_value (rt_liveness rd) o) "live") then ret tt else
  let move := state_value (rt_move rd) o in
  let parent := truthy_str (as_string (jget move "parent")) in
  let position := default middle_key (as_string (jget move "position")) in
  if jm_has (rt_chromiumIds rd) o then
    match parent with
    | Some q => applyMove o (df_objectType record) q position None
    | None => ret tt
    end
  else
    do! materialize retry o (df_objectType record)
          (mkBookmarkPayload (default "" (as_string (state_value (rt_title rd) o)))
             (as_string (state_value (rt_url rd) o)) (as_string (jget move "parent")) position) None in
    ret tt.

(** [stuck] is what happens when the fuel runs out, which
    [retryDeferredParent_ends] shows never does. *)
Fixpoint retry_deferred (stuck : string -> Bm unit) (fuel : nat) (parentObjectId : string) : Bm unit :=
  match fuel with
  | O => stuck parentObjectId
  | S fuel =>
      let! deferred := store_get (getDeferredMaterializationsWaitingOn parentObjectId) in
      match deferred with
      | [] => ret tt
      | _ =>
          let ids := map df_objectId deferred in
          let! liveness := store_get (getFieldStatesForObjects ids "liveness") in
          let! move := store_get (getFieldStatesForObjects ids "move") in
          let! title := store_get (getFieldStatesForObjects ids "title") in
          let! url := store_get (getFieldStatesForObjects ids "url") in
          let! chromiumIds := chromiumIdsFor ids in
          do! store_put (deleteDeferredMaterializationsBatch ids) in
          let positionOfRecord r := default "" (position_of_state (jm_get move (df_objectId r))) in
          for_each (sort_by positionOfRecord deferred)
            (retry_record (retry_deferred stuck fuel) (mkRetryReads liveness move title url chromiumIds))
      end
  end.

(** One level per waiting object. *)
Definition retryDeferredParent (parentObjectId : string) : Bm unit := fun s =>
  retry_deferred (fun _ => throw (OtherError "out of fuel")) (S (size (deferred_materializations s.1))) parentObjectId s.

(** ** Titles and URLs *)

Definition prefetched_or_lookup (objectId : string) (prefetched : option (jmap string string)) : Bm (option string) :=
  match prefetched ≫= fun m => jm_get m objectId with
  | Some id => ret (Some id)
  | None => chromiumIdFor objectId
  end.

Definition applyTitle (objectId title : string) (prefetched : option (jmap string string)) : Bm unit :=
  let! chromiumId := prefetched_or_lookup objectId prefetched in
  match truthy_str chromiumId with
  | Some id => chrome_do (bm_update id (Some title) None)
  | None => ret tt
  end.

Definition applyUrl (objectId url : string) (prefetched : option (jmap string string)) : Bm unit :=
  if negb (isSyncableUrl url) then ret tt else
  let! chromiumId := prefetched_or_lookup objectId prefetched in
  match truthy_str chromiumId with
  | Some id => chrome_do (bm_update id None (Some url))
  | None => ret tt
  end.

Definition run_write (prefetched : jmap string string) (w : TitleUrlWrite) : Bm unit :=
  match w with
  | WriteTitle o title => applyTitle o title (Some prefetched)
  | WriteUrl o url => applyUrl o url (Some prefetched)
  end.

(** [Promise.all]: every one runs; the first failure is the result. *)
Fixpoint all_settled (ms : list (Bm unit)) : Bm unit := fun s =>
  match ms with
  | [] => (inr tt, s)
  | m :: ms =>
      let '(r, s1) := m s in
      let '(rs, s2) := all_settled ms s1 in
      (match r with inl e => inl e | inr _ => rs end, s2)
  end.

Definition REMOTE_TITLE_URL_CONCURRENCY : nat := 10.

Definition flushTitleUrl (prefetched : jmap string string) (batch : list TitleUrlWrite) : Bm unit :=
  for_each (slices batch REMOTE_TITLE_URL_CONCURRENCY) (fun group => all_settled (map (run_write prefetched) group)).

(** ** Moves *)

Definition getParentOrder (incoming : jmap string string) (cacheByParent : jmap string CachedParentOrder)
    (parentChromiumId : string) : Bm (CachedParentOrder * jmap string CachedParentOrder) :=
  let! generation := get_app bookmarkLayoutGeneration in
  let load :=
    let! siblings := chrome_get (getChildren parentChromiumId) in
    let childChromiumIds := map tn_id siblings in
    let! mappings := store_get (getMappingsByLocalIds MAP_TYPE childChromiumIds) in
    let objectIds := mapped_objects mappings childChromiumIds in
    let! states := store_get (getFieldStatesForObjects objectIds "move") in
    let! generation := get_app bookmarkLayoutGeneration in
    let objectIdByChromiumId := foldl (fun m id =>
      match truthy_str (om_objectId <$> jm_get mappings id) with Some o => jm_set m id o | None => m end) [] childChromiumIds in
    let positionByObjectId := foldl (fun m o =>
      match state_position states o with Some x => jm_set m o x | None => m end) [] objectIds in
    let sorted := omap (fun id =>
      jm_get objectIdByChromiumId id ≫= fun o =>
      mkPlaced id <$> truthy_str (or_else (jm_get incoming o) (jm_get positionByObjectId o))) childChromiumIds in
    let order := mkParentOrder generation (js_of_list childChromiumIds) childChromiumIds objectIdByChromiumId
                   positionByObjectId (sort_by pl_position sorted) in
    ret (order, jm_set cacheByParent parentChromiumId order) in
  match jm_get cacheByParent parentChromiumId with
  | Some cached => if po_generation cached =? generation then ret (cached, cacheByParent) else load
  | None => load
  end.

(** The mover has left whichever cached parent it was in. *)
Definition forget_mover (chromiumId : string) (o : CachedParentOrder) : CachedParentOrder :=
  mkParentOrder (po_generation o) (js_delete (po_childChromiumIds o) chromiumId)
    (remove_first (String.eqb chromiumId) (po_liveOrder o)) (po_objectIdByChromiumId o) (po_positionByObjectId o)
    (remove_first (is_placed chromiumId) (po_sorted o)).

Definition enter_order (chromiumId objectId position : string) (index : nat) (before : option string)
    (o : CachedParentOrder) : CachedParentOrder :=
  let at_ := default (length (po_liveOrder o)) (before ≫= fun b => index_of b (po_liveOrder o)) in
  mkParentOrder (po_generation o) (js_add (po_childChromiumIds o) chromiumId)
    (insert_at at_ chromiumId (po_liveOrder o)) (jm_set (po_objectIdByChromiumId o) chromiumId objectId)
    (jm_set (po_positionByObjectId o) objectId position)
    (insert_at index (mkPlaced chromiumId position) (po_sorted o)).

Definition map_orders (f : CachedParentOrder -> CachedParentOrder) (m : jmap string CachedParentOrder) :
    jmap string CachedParentOrder := map (fun kv => (kv.1, f kv.2)) m.

(** One move with the cached orders; [order] is an entry of the cache, which
    the code updates in place. *)
Definition apply_one_move (chromiumIds incoming : jmap string string)
    (cacheByParent : jmap string CachedParentOrder) (move : RemoteMove) : Bm (jmap string CachedParentOrder) :=
  match truthy_str (jm_get chromiumIds (rm_objectId move)) with
  | None => ret cacheByParent
  | Some chromiumId =>
      match truthy_str (jm_get chromiumIds (rm_parent move)) with
      | None =>
          do! deferUntilParentMaterializes (rm_objectId move) (rm_objectType move) (rm_parent move) in
          ret cacheByParent
      | Some parentChromiumId =>
          do! store_put (deleteDeferredMaterialization (rm_objectId move)) in
          let! oc := getParentOrder incoming cacheByParent parentChromiumId in
          let '(order, cacheByParent) := oc in
          let sorted := remove_first (is_placed chromiumId) (po_sorted order) in
          let index := sortedInsertIndex (map pl_position sorted) (rm_position move) in
          let before := pl_chromiumId <$> sorted !! index in
          let liveIndex := moveIndex (po_liveOrder order) chromiumId before in
          do! chrome_do (bm_move chromiumId parentChromiumId (Some liveIndex)) in
          let cacheByParent := map_orders (forget_mover chromiumId) cacheByParent in
          ret (match jm_get cacheByParent parentChromiumId with
               | Some order => jm_set cacheByParent parentChromiumId
                                 (enter_order chromiumId (rm_objectId move) (rm_position move) index before order)
               | None => cacheByParent
               end)
      end
  end.

Fixpoint moves_loop (chromiumIds incoming : jmap string string) (cacheByParent : jmap string CachedParentOrder)
    (moves : list RemoteMove) : Bm unit :=
  match moves with
  | [] => ret tt
  | move :: moves =>
      let! cacheByParent := apply_one_move chromiumIds incoming cacheByParent move in
      moves_loop chromiumIds incoming cacheByParent moves
  end.

Definition applyMovesBatch (moves : list RemoteMove) : Bm unit :=
  match moves with
  | [] => ret tt
  | _ =>
      let! chromiumIds := chromiumIdsFor (js_of_list (concat (map (fun m => [rm_objectId m; rm_parent m]) moves))) in
      moves_loop chromiumIds (jm_of_list (map (fun m => (rm_objectId m, rm_position m)) moves)) [] moves
  end.

(** ** Deleting *)

Definition applyDelete (objectId : string) (prefetched : option (jmap string string)) :
    Bm (option (jmap string string)) :=
  do! store_put (deleteDeferredMaterialization objectId) in
  let! chromiumId := prefetched_or_lookup objectId prefetched in
  match truthy_str chromiumId with
  | None => ret prefetched
  | Some chromiumId =>
      let! descendants := try_catch
        (let! subtree := chrome_get (getSubTree chromiumId) in
         ret (match subtree with Some t => descendantIds t | None => [] end)) (fun _ => ret []) in
      do! try_catch (chrome_do (bm_removeTree chromiumId)) (fun _ => ret tt) in
      do! forgetMapping MAP_TYPE chromiumId in
      let prefetched := (fun m => jm_delete m objectId) <$> prefetched in
      match descendants with
      | [] => ret prefetched
      | _ =>
          let! forgotten := (match prefetched with
                             | Some _ => store_get (getMappingsByLocalIds MAP_TYPE descendants)
                             | None => ret []
                             end) in
          do! store_put (deleteMappingsBatch MAP_TYPE descendants) in
          ret ((fun m => foldl (fun m r => jm_delete m (om_objectId r)) m (jm_values forgotten)) <$> prefetched)
      end
  end.

(** ** Resolving fields *)

Definition incoming_of (op : OperationOut) (v : jsval) : IncomingField :=
  mkIncoming (mkOrderingKey (out_lamportTimestamp op) (out_deviceId op) (out_operationId op)) (out_operationType op) v.

Definition remoteFieldResolutions (op : OperationOut) (payload : jsval) :
    RemoteOpKind * list (option (string * IncomingField)) :=
  let slot field v := Some (field, incoming_of op v) in
  match out_operationType op with
  | OpCreate | OpRestore =>
      (RkCreate, [slot "liveness" (JStr "live"); slot "title" (jget payload "title"); slot "url" (jget payload "url");
                  slot "move" (JObj [("parent", jget payload "parent"); ("position", jget payload "position")])])
  | OpUpdate =>
      (RkUpdate, [slot "liveness" (JStr "live");
                  match jget payload "title" with JUndef => None | v => slot "title" v end;
                  match jget payload "url" with JStr u => slot "url" (JStr u) | _ => None end])
  | OpMove => (RkMove, [slot "move" payload; slot "liveness" (JStr "live")])
  | OpDelete => (RkDelete, [slot "liveness" (JStr "deleted")])
  | _ => (RkUnknown, [])
  end.

(** The results at their slots. *)
Fixpoint at_slots (fields : list (option (string * IncomingField))) (rs : list ResolveResult) :
    list (option ResolveResult) :=
  match fields with
  | [] => []
  | None :: fields => None :: at_slots fields rs
  | Some _ :: fields => head rs :: at_slots fields (tail rs)
  end.

Definition slot_applied (res : list (option ResolveResult)) (i : nat) : bool :=
  match res !! i with Some (Some r) => applied r | _ => false end.
Definition slot_value (res : list (option ResolveResult)) (i : nat) : jsval :=
  match res !! i with Some (Some r) => rr_value r | _ => JUndef end.

Definition has_title (payload : jsval) : bool := match jget payload "title" with JUndef => false | _ => true end.

Definition placeRestored (objectId : string) (t : ObjectType) (p : BookmarkPayload) : Bm unit :=
  match truthy_str (bp_parent p) with
  | Some parent => applyMove objectId t parent (bp_position p) None
  | None => ret tt
  end.

Definition applyRemote (op : OperationOut) (payload : jsval) : Bm unit :=
  let '(kind, fields) := remoteFieldResolutions op payload in
  let o := out_objectId op in
  let t := out_objectType op in
  let p := bookmark_payload payload in
  match kind with
  | RkUnknown => ret tt
  | _ =>
      let! now := draw be_now in
      let! resolved := store_run (resolveFields now o (omap id fields)) in
      let res := at_slots fields resolved in
      match kind with
      | RkCreate =>
          if slot_applied res 0 then
            do! materialize retryDeferredParent o t p None in
            if bool_decide (out_operationType op = OpRestore) then placeRestored o t p else ret tt
          else ret tt
      | RkUpdate =>
          do! (if has_title payload && slot_applied res 1 then applyTitle o (bp_title p) None else ret tt) in
          match bp_url p with
          | Some url => if slot_applied res 2 then applyUrl o url None else ret tt
          | None => ret tt
          end
      | RkMove =>
          if slot_applied res 0 && js_eq_str (slot_value res 1) "live" then
            applyMove o t (default "" (bp_parent p)) (bp_position p) None
          else ret tt
      | RkDelete =>
          if slot_applied res 0 then do! applyDelete o None in ret tt else ret tt
      | RkUnknown => ret tt
      end
  end.

(** ** The batch *)

Definition Item : Type := OperationOut * jsval.

Definition entries_of (item : Item) : list BatchFieldResolution :=
  map (fun f => mkEntry (out_objectId item.1) f.1 f.2) (omap id (remoteFieldResolutions item.1 item.2).2).

(** Each operation's results, cut from the slice's. *)
Fixpoint split_results (slice : list Item) (rs : list ResolveResult) :
    list (RemoteOpKind * list (option ResolveResult)) :=
  match slice with
  | [] => []
  | item :: slice =>
      let '(kind, fields) := remoteFieldResolutions item.1 item.2 in
      (kind, at_slots fields rs) :: split_results slice (drop (length (entries_of item)) rs)
  end.

Definition resolveRemoteSlice (slice : list Item) : Bm (list (RemoteOpKind * list (option ResolveResult))) :=
  let! now := draw be_now in
  let! results := store_run (resolveFieldsBatch now (concat (map entries_of slice))) in
  ret (split_results slice results).

Definition involved_of (item : Item) : list string :=
  out_objectId item.1 ::
  match out_operationType item.1 with
  | OpCreate | OpRestore => option_list (truthy_str (bp_parent (bookmark_payload item.2)))
  | OpMove => [default "" (bp_parent (bookmark_payload item.2))]
  | _ => []
  end.

(** The count, and whether the threshold stopped it. *)
Fixpoint countRemoteDeletes (items : list Item) (prefetched : jmap string string) (count : Z) : Bm Z :=
  match items with
  | [] => ret count
  | (op, _) :: items =>
      if negb (bool_decide (out_operationType op = OpDelete)) then countRemoteDeletes items prefetched count else
      let next count := if MASS_DELETE_THRESHOLD <=? count then ret count else countRemoteDeletes items prefetched count in
      if negb (bool_decide (out_objectType op = OtBookmarkFolder)) then next (count + 1) else
      match truthy_str (jm_get prefetched (out_objectId op)) with
      | None => countRemoteDeletes items prefetched count
      | Some chromiumId =>
          let! more := try_catch
            (let! subtree := chrome_get (getSubTree chromiumId) in
             ret (match subtree with Some t => countSubtree t | None => 1 end)) (fun _ => ret 0) in
          next (count + more)
      end
  end.

(** A failing handler is logged. *)
Definition runMassDelete (event : MassDeleteEvent) : Bm unit :=
  match massDeleteHandler with
  | None => ret tt
  | Some handler => try_catch (handler event) (fun _ => ret tt)
  end.

(** The variables of the loop. *)
Record BatchState := mkBatch {
  bs_prefetched : jmap string string;
  bs_pendingMoves : list RemoteMove;
  bs_restorePlacements : list RemoteMove;
  bs_pendingTitleUrl : list TitleUrlWrite;
}.

Definition flush_pending (b : BatchState) : Bm BatchState :=
  do! applyMovesBatch (bs_pendingMoves b) in
  do! flushTitleUrl (bs_prefetched b) (bs_pendingTitleUrl b) in
  ret (mkBatch (bs_prefetched b) [] (bs_restorePlacements b) []).

Definition flush_writes (b : BatchState) : Bm BatchState :=
  do! flushTitleUrl (bs_prefetched b) (bs_pendingTitleUrl b) in
  ret (mkBatch (bs_prefetched b) (bs_pendingMoves b) (bs_restorePlacements b) []).

Definition apply_item (b : BatchState) (item : Item) (resolved : RemoteOpKind * list (option ResolveResult)) : Bm BatchState :=
  let '(op, payload) := item in
  let '(kind, res) := resolved in
  let o := out_objectId op in
  let t := out_objectType op in
  let p := bookmark_payload payload in
  match kind with
  | RkCreate =>
      let! b := flush_pending b in
      if slot_applied res 0 then
        let! prefetched := materialize retryDeferredParent o t p (Some (bs_prefetched b)) in
        let placements := match truthy_str (bp_parent p) with
          | Some parent => if bool_decide (out_operationType op = OpRestore)
                           then [mkRemoteMove o t parent (bp_position p)] else []
          | None => []
          end in
        ret (mkBatch (default [] prefetched) (bs_pendingMoves b) (bs_restorePlacements b ++ placements) (bs_pendingTitleUrl b))
      else ret b
  | RkUpdate =>
      let title := if has_title payload && slot_applied res 1 then [WriteTitle o (bp_title p)] else [] in
      let url := match bp_url p with
                 | Some u => if slot_applied res 2 then [WriteUrl o u] else []
                 | None => []
                 end in
      let b := mkBatch (bs_prefetched b) (bs_pendingMoves b) (bs_restorePlacements b)
                 (bs_pendingTitleUrl b ++ title ++ url) in
      if Nat.leb (2 * REMOTE_TITLE_URL_CONCURRENCY) (length (bs_pendingTitleUrl b)) then flush_writes b else ret b
  | RkMove =>
      if slot_applied res 0 && js_eq_str (slot_value res 1) "live" then
        ret (mkBatch (bs_prefetched b)
               (bs_pendingMoves b ++ [mkRemoteMove o t (default "" (bp_parent p)) (bp_position p)])
               (bs_restorePlacements b) (bs_pendingTitleUrl b))
      else ret b
  | RkDelete =>
      let! b := flush_pending b in
      if slot_applied res 0 then
        let! prefetched := applyDelete o (Some (bs_prefetched b)) in
        ret (mkBatch (default [] prefetched) (bs_pendingMoves b) (bs_restorePlacements b) (bs_pendingTitleUrl b))
      else ret b
  | RkUnknown => flush_pending b
  end.

Fixpoint apply_items (b : BatchState) (items : list (Item * (RemoteOpKind * list (option ResolveResult)))) : Bm BatchState :=
  match items with
  | [] => ret b
  | (item, resolved) :: items => let! b := apply_item b item resolved in apply_items b items
  end.

Definition REMOTE_RESOLVE_SLICE : nat := 50.

Fixpoint apply_slices (b : BatchState) (batches : list (list Item)) : Bm BatchState :=
  match batches with
  | [] => ret b
  | batch :: batches =>
      let! resolved := resolveRemoteSlice batch in
      let! b := apply_items b (zip batch resolved) in
      let! b := flush_writes b in
      apply_slices b batches
  end.

Definition applyRemoteBatch (items : list Item) : Bm unit :=
  let! prefetched := chromiumIdsFor (js_of_list (concat (map involved_of items))) in
  do! (match massDeleteHandler with
       | None => ret tt
       | Some _ =>
           let! count := countRemoteDeletes items prefetched 0 in
           if MASS_DELETE_THRESHOLD <=? count then runMassDelete (RemoteMassDelete count) else ret tt
       end) in
  let! b := apply_slices (mkBatch prefetched [] [] []) (slices items REMOTE_RESOLVE_SLICE) in
  do! flushTitleUrl (bs_prefetched b) (bs_pendingTitleUrl b) in
  do! applyMovesBatch (bs_pendingMoves b) in
  applyMovesBatch (bs_restorePlacements b).

Definition applyRestoreOperations (created : list (LocalOperation * string)) (payloads : list jsval) : Bm unit :=
  let! createdAt := draw be_iso in
  applyRemoteBatch (zip (map (fun cd => let '(op, deviceId) := cd in
    mkOperationOut (operationId op) deviceId (deviceSequence op) (lamportTimestamp op) (objectType op) (objectId op)
      (operationType op) (encryptionVersion op) (payload op) 0 createdAt) created) payloads).

(** ** A stand-in root removed by the user *)

Fixpoint collect (fuel : nat) (parent : BookmarkTreeNode) : list (BookmarkTreeNode * string) :=
  match fuel with
  | O => []
  | S fuel => concat (map (fun c => (c, tn_id parent) :: collect fuel c) (tn_children parent))
  end.

Definition restoreIfStandInRoot (chromiumId : string) (node : BookmarkTreeNode) : Bm unit :=
  try_catch
    (let! rootObjectId := standInRootObjectId chromiumId in
     match truthy_str rootObjectId with
     | None => ret tt
     | Some rootObjectId =>
         let removed := collect (tree_size node) node in
         let! mappings := store_get (getMappingsByLocalIds MAP_TYPE (map (fun e => tn_id e.1) removed)) in
         let! createdAt := draw be_iso in
         let object_of id := truthy_str (om_objectId <$> jm_get mappings id) in
         let deferred := omap (fun e =>
           let waiting := if String.eqb e.2 chromiumId then Some rootObjectId else object_of e.2 in
           match object_of (tn_id e.1), waiting with
           | Some o, Some w => Some (mkDeferred o (bookmarkObjectType e.1) w createdAt)
           | _, _ => None
           end) removed in
         do! store_put (putDeferredMaterializationsBatch deferred) in
         do! store_put (deleteMappingsBatch MAP_TYPE (jm_keys mappings)) in
         do! invalidateBookmarkRoots in
         let! _ := bookmarkRoots in
         retryDeferredParent rootObjectId
     end) (fun _ => ret tt).

End apply.
