(* ===== verification/RestoreTriggers.v ===== *)
(** * When restore points are made, and what the popup asks for
      (extension/src/restore-points/triggers.ts, service.ts)

    Over RestoreJob's monad, with the two values the triggers keep in
    chrome.storage.local. A call that is not waited for runs where it is
    started. Alarms, hooks and message texts are left out. *)

From S2P Require Import Prelude JsMap Types Util Json Storage Crypto Engine RestorePoints Planner RestoreJob Bookmarks BookmarkApply.

Open Scope Z_scope.
Open Scope js_scope.

Definition MASS_DELETE_MIN_INTERVAL_MS : Z := 10 * 60000.

(** [restorePointLastTreeHash] and [restorePointLastMassDeleteAt] *)
Record TriggerStore := mkTriggers { lastTreeHash : option string; lastMassDeleteAt : option Z }.

Record RestorePointMeta := mkMeta {
  rm_id : string;
  rm_kind : string;
  rm_bookmarkCount : Z;
  rm_encryptionVersion : Z;
  rm_codec : bool;
  rm_sizeBytes : Z;
  rm_pinned : bool;
  rm_createdAt : string;
  rm_lastRestoredAt : option string;
  rm_deviceId : option string;
  rm_deviceName : option string;
}.

(** The server's other restore point routes. *)
Class PointsApi (Srv : Type) := {
  listRestorePoints : Srv -> (api_exn + list RestorePointMeta) * Srv;
  setRestorePointPinned : string -> bool -> Srv -> (api_exn + RestorePointMeta) * Srv;
  deleteRestorePoint : string -> Srv -> (api_exn + unit) * Srv;
  updateRestorePointsAutomatic : bool -> Srv -> (api_exn + UserSettingsDto) * Srv;
}.

Section triggers.
Context {Srv App : Type} `{Env : RestoreEnv Srv App} `{SA : SettingsApi restore_exn (RState Srv App)} `{PA : PointsApi Srv}.
Abbreviation R := (R Srv App).
Abbreviation RState := (RState Srv App).

Definition TState : Type := RState * TriggerStore.
Definition Tr (A : Type) : Type := M TState restore_exn A.

Definition lift_restore {A} (m : R A) : Tr A := fun s => let '(r, s') := m s.1 in (r, (s', s.2)).
Definition get_triggers {A} (f : TriggerStore -> A) : Tr A := do! lift_restore await in fun s => (inr (f s.2), s).
Definition put_triggers (f : TriggerStore -> TriggerStore) : Tr unit := do! lift_restore await in modify (fun s => (s.1, f s.2)).

(** A stopped worker runs no handler. *)
Definition t_catch {A} (m : Tr A) (h : restore_exn -> Tr A) : Tr A :=
  try_catch m (fun e => match e with Killed => throw Killed | e => h e end).

(** ** triggers.ts *)

Definition settings_on : R bool :=
  catch (do! await in let! settings := fetchSettings false in ret (not_off (syncBookmarks settings))) (fun _ => ret true).

(** [!x] of an optional string *)
Definition unset (x : option string) : bool := match x with Some s => String.eqb s "" | None => true end.

Definition featureAvailable (duringImport : bool) : R bool :=
  let! device := dbGet db_device in
  match device with
  | None => ret false
  | Some device =>
      if negb duringImport && unset (initialImportCompletedAt device) then ret false
      else
        let! on := settings_on in
        if negb on then ret false else lookup_server serverSupportsRestorePoints
  end.
Definition restorePointsAvailable : R bool := featureAvailable false.

(** [void drainOutbox().catch(...)] *)
Definition drain_detached : R unit := catch (do! drainOutbox in ret tt) (fun _ => ret tt).

Definition makeAutomaticPoint (kind : RestorePointKind) (mode : CaptureMode) (duringImport : bool) (skipIfHash : option string) :
    R (option string) :=
  catch
    (let! available := featureAvailable duringImport in
     if negb available then ret None
     else
       let! enabled := automaticPointsEnabled in
       if negb enabled then ret None
       else
         let! built := createQueuedRestorePoint kind mode skipIfHash in
         match built with
         | None => ret None
         | Some built => do! drain_detached in ret (Some (bt_treeHash built))
         end)
    (fun _ => ret None).

Definition runScheduledRestorePoint : Tr unit :=
  let! before := get_triggers lastTreeHash in
  let! hash := lift_restore (makeAutomaticPoint RkScheduled CaptureFull false before) in
  match hash with
  | Some hash => put_triggers (fun t => mkTriggers (Some hash) (lastMassDeleteAt t))
  | None => ret tt
  end.

Definition createPreImportPoint : R unit :=
  let! wanted := catch (let! live := readLive in
      ret (negb (match live.1 with [] => true | _ => false end || (live.2 =? 0)))) (fun _ => ret false) in
  if (wanted : bool) then do! makeAutomaticPoint RkPreImport CaptureMappedOnly true None in ret tt else ret tt.

Definition createPreResyncPoint : R unit := do! makeAutomaticPoint RkPreResync CaptureFull false None in ret tt.

Definition mass_delete_mode (event : MassDeleteEvent) : CaptureMode :=
  match event with LocalMassDelete _ removed => CapturePlusRemoved removed | RemoteMassDelete _ => CaptureFull end.

(** [handleMassDelete] up to its decision. *)
Definition mass_delete_due : Tr bool :=
  let! p := lift_restore getRestoreProgress in
  if phase_running (rp_phase p) then ret false
  else
    let! last := get_triggers lastMassDeleteAt in
    match last with
    | None => ret true
    | Some last => let! now := lift_restore (sync now_next) in ret (negb (now - last <? MASS_DELETE_MIN_INTERVAL_MS))
    end.

Definition make_mass_delete_point (event : MassDeleteEvent) : Tr unit :=
  let! hash := lift_restore (makeAutomaticPoint RkMassDelete (mass_delete_mode event) false None) in
  match hash with
  | Some _ => let! now := lift_restore (sync now_next) in put_triggers (fun t => mkTriggers (lastTreeHash t) (Some now))
  | None => ret tt
  end.

Definition handleMassDelete (event : MassDeleteEvent) : Tr unit :=
  let! due := mass_delete_due in
  if (due : bool) then make_mass_delete_point event else ret tt.

Definition clearRestorePointTriggerState : Tr unit := put_triggers (fun _ => mkTriggers None None).

Definition drainRestorePointOutbox : R unit :=
  let! device := dbGet db_device in
  match device with
  | None => ret tt
  | Some _ => catch (do! drainOutbox in ret tt) (fun _ => ret tt)
  end.

(** ** service.ts *)

Definition RestoreErrorCode_str (c : RestoreErrorCode) : string :=
  match c with
  | NotConnected => "not_connected" | RestoreUnavailable => "unavailable" | RestoreInProgress => "restore_in_progress"
  | Unreadable => "unreadable" | UpdateNeeded => "update_needed" | SyncFailed => "sync_failed"
  | BookmarksNotReady => "bookmarks_not_ready" | PreRestoreFailed => "pre_restore_failed" | UnknownScope => "unknown_scope"
  | DownloadFailed => "download_failed" | RestoreFailed => "failed"
  end.

(** The code of [toServiceError]. A failed [fetch] is a [TypeError]. *)
Definition toServiceError (err : restore_exn) : string :=
  match err with
  | ExRestore code => RestoreErrorCode_str code
  | ExCapture (BookmarksNotReadyError _) => "bookmarks_not_ready"
  | ExApi ReauthRequired => "reauth"
  | ExApi (ApiFailed (ApiError status code _)) =>
      if status =? 426 then "update_needed" else default ("http_" +:+ json_num status) code
  | ExApi (ApiFailed NetworkError) => "offline"
  | _ => "failed"
  end.

(** [{ ok: false, error }] or [{ ok: true, ... }] *)
Definition ServiceResult (T : Type) : Type := string + T.

Definition service_guarded {T} (m : R T) : R (ServiceResult T) :=
  catch (let! value := m in ret (inr value)) (fun err => ret (inl (toServiceError err))).

Record RestorePointList := mkPointList {
  pl_available : bool;
  pl_automatic : bool;
  pl_points : list RestorePointMeta;
  pl_pending : list (string * string * Z * string);
}.

Definition try_drain : R (option DrainResult) := catch (let! r := drainOutbox in ret (Some r)) (fun _ => ret None).

Definition listForPopup : R (ServiceResult RestorePointList) := service_guarded
  (let! pending := listOutbox in
   let! device := dbGet db_device in
   let! available := (match device with Some _ => restorePointsAvailable | None => ret false end) in
   if negb available then ret (mkPointList false true [] pending)
   else
     do! try_drain in
     let! points := server_call listRestorePoints in
     let! settings := catch (let! settings := fetchSettings true in ret (Some settings)) (fun _ => ret None) in
     let! pending := listOutbox in
     ret (mkPointList true (from_option (fun st => not_off (restorePointsAutomatic st)) true settings) points pending)).

(** The id, and whether the server has the point. *)
Definition createManual : R (ServiceResult (string * bool)) := service_guarded
  (let! supported := lookup_server serverSupportsRestorePoints in
   if negb supported then throw (ExRestore RestoreUnavailable)
   else
     let! built := createQueuedRestorePoint RkManual CaptureFull None in
     match built with
     | None => throw (ExRestore RestoreFailed)
     | Some built =>
         let id := up_id (bt_upload built) in
         let! drained := try_drain in
         match (r ← drained; jm_get r id) with
         | Some (Discarded, code) => throw (ExApi (ApiFailed (ApiError 409 code None)))
         | Some (Uploaded, _) => ret (id, true)
         | _ => ret (id, false)
         end
     end).

Definition folderTree (pointId : string) : R (ServiceResult (list (string * string * string) * Z)) := service_guarded
  (let! point := loadRestorePoint pointId in
   ret (map (fun n => (pn_o n, pn_t n, pn_p n)) (filter (fun n => pn_k n = KFolder) (pt_nodes point)),
        Z.of_nat (length (filter (fun n => pn_k n = KBookmark) (pt_nodes point))))).

Definition preview (request : RestoreRequest) : R (ServiceResult (PlanCounts * (list string * list string * list string * list string))) :=
  service_guarded (let! plan := previewRestore request in ret (plan_counts plan, plan_sample plan)).
Definition start (request : RestoreRequest) : R (ServiceResult unit) := service_guarded (startRestore request).
Definition progress : R RestoreProgress := getRestoreProgress.
Definition pin (id : string) (pinned : bool) : R (ServiceResult RestorePointMeta) :=
  service_guarded (server_call (setRestorePointPinned id pinned)).
Definition remove (id : string) : R (ServiceResult unit) :=
  service_guarded (do! server_call (deleteRestorePoint id) in clearLoadedRestorePoint).
Definition setAutomatic (enabled : bool) : R (ServiceResult bool) :=
  service_guarded (let! settings := server_call (updateRestorePointsAutomatic enabled) in ret (not_off (restorePointsAutomatic settings))).
End triggers.

(** ** Triggers are quiet *)

Section quiet.
Context {Srv App : Type} `{Env : RestoreEnv Srv App} `{SA : SettingsApi restore_exn (RState Srv App)}.
Abbreviation R := (R Srv App).
Abbreviation RState := (RState Srv App).

(** Nothing of the database but the outbox changes, and no restore starts or
    ends. *)
Definition calm (s s' : RState) : Prop :=
  (w_entropy (rs_world s) <= w_entropy (rs_world s'))%nat /\
  set_outbox ∅ (w_db (rs_world s')) = set_outbox ∅ (w_db (rs_world s)) /\ rs_progress s' = rs_progress s.
Definition calmly {A} (m : R A) : Prop := forall s, calm s (m s).2.

Hypothesis settings_calm : forall fresh, calmly (fetchSettings fresh).
Hypothesis clock : forall n m, (n <= m)%nat -> env_now n <= env_now m.

Lemma calm_refl s : calm s s.
Proof. by split_and!. Qed.
Lemma calm_trans s1 s2 s3 : calm s1 s2 -> calm s2 s3 -> calm s1 s3.
Proof. intros (? & E1 & E2) (? & E3 & E4). split_and!; [lia|by rewrite E3|by rewrite E4]. Qed.

Lemma calmly_ret {A} (a : A) : calmly (ret a).
Proof. intros s. apply calm_refl. Qed.
Lemma calmly_throw {A} e : calmly (throw e : R A).
Proof. intros s. apply calm_refl. Qed.
Lemma calmly_bind {A B} (m : R A) (k : A -> R B) : calmly m -> (forall a, calmly (k a)) -> calmly (bind m k).
Proof. intros Hm Hk s. unfold bind. specialize (Hm s). destruct (m s) as [[e|a] s1]; [done|]. eapply calm_trans; [exact Hm|apply Hk]. Qed.
Lemma calmly_catch {A} (m : R A) h : calmly m -> (forall e, calmly (h e)) -> calmly (catch m h).
Proof.
  intros Hm Hh s. unfold catch, try_catch. specialize (Hm s). destruct (m s) as [[e|a] s1]; [|done].
  eapply calm_trans; [exact Hm|]. destruct e; try apply Hh. apply calmly_throw.
Qed.
Lemma calmly_await : calmly await.
Proof. intros s. unfold await. by destruct (re_kills _). Qed.
Lemma calmly_server {A} (f : Srv -> (api_exn + A) * Srv) : calmly (server_call f).
Proof. apply calmly_bind; [apply calmly_await|]. intros _ s. cbn. by destruct (f _) as [[e|a] srv]. Qed.
Lemma calmly_lookup {A} (f : Srv -> A * Srv) : calmly (lookup_server f).
Proof. apply calmly_bind; [apply calmly_await|]. intros _ s. cbn. by destruct (f _) as [a srv]. Qed.
Lemma calmly_dbGet {A} (f : DB -> A) : calmly (dbGet f).
Proof. apply calmly_bind; [apply calmly_await|]. by intros _ s. Qed.
Lemma calmly_dbDo f : (forall db, set_outbox ∅ (f db) = set_outbox ∅ db) -> calmly (dbDo f).
Proof. intros Hf. apply calmly_bind; [apply calmly_await|]. intros _ s. split_and!; [done|apply Hf|done]. Qed.
Lemma calmly_fresh {A} (f : nat -> A) : calmly (sync (fresh f)).
Proof. intros s. split_and!; cbn; [lia|done..]. Qed.
Lemma calmly_sdek ak kv : calmly (engine (getSdekM ak kv)).
Proof. apply calmly_bind; [apply calmly_await|]. intros _ s. unfold getSdekM. cbn. by destruct (getSdek _ _ _ _) as [[sdek cache]|]. Qed.
Lemma calmly_upload u : calmly (uploadPointM u).
Proof. apply calmly_bind; [apply calmly_await|]. intros _ s. unfold log_event. cbn. by destruct (uploadRestorePoint _ u) as [[e|id] srv]. Qed.
Lemma calmly_log e : calmly (logM e).
Proof. done. Qed.
End quiet.

Create HintDb calm discriminated.
#[export] Hint Resolve calmly_ret calmly_throw calmly_await calmly_server calmly_lookup calmly_dbGet calmly_fresh calmly_sdek calmly_upload calmly_log : calm.

#[export] Hint Extern 1 (calmly (sync _)) => apply calmly_fresh : calm.

Ltac calm_step :=
  repeat (first
    [ solve [auto with calm]
    | apply calmly_dbDo; done
    | apply calmly_bind; [|intros ?]
    | apply calmly_catch; [|intros ?]
    | match goal with
      | |- calmly (match ?x with _ => _ end) => destruct x
      | |- calmly (if ?x then _ else _) => destruct x
      end ]).

Section spaced.
Context {Srv App : Type} `{Env : RestoreEnv Srv App} `{SA : SettingsApi restore_exn (RState Srv App)}.
Abbreviation RState := (RState Srv App).
Hypothesis settings_calm : forall fresh, calmly (fetchSettings fresh).
Hypothesis live_calm : calmly (readLive (Srv := Srv) (App := App)).
#[local] Hint Resolve settings_calm live_calm : calm.
Hypothesis clock : forall n m, (n <= m)%nat -> env_now n <= env_now m.

Lemma calmly_drain records result : calmly (drain_loop records result).
Proof.
  revert result. induction records as [|r l IH]; intros result; cbn [drain_loop]; unfold drain_one, drain_failed; calm_step; apply IH.
Qed.
Lemma calmly_drain_detached : calmly drain_detached.
Proof. unfold drain_detached, drainOutbox. calm_step. apply calmly_drain. Qed.
Lemma calmly_build kind mode : calmly (buildRestorePoint kind mode).
Proof. unfold buildRestorePoint, captureNodesM. calm_step. Qed.
#[local] Hint Resolve calmly_build calmly_drain_detached : calm.
Lemma calmly_automatic kind mode during skip : calmly (makeAutomaticPoint kind mode during skip).
Proof.
  unfold makeAutomaticPoint, featureAvailable, settings_on, automaticPointsEnabled, createQueuedRestorePoint, enqueueRestorePoint.
  calm_step.
Qed.

Lemma automatic_quiet kind mode during skip s :
  match (makeAutomaticPoint kind mode during skip s).1 with
  | inr (Some hash) => skip <> Some hash
  | inr None => True
  | inl e => e = Killed
  end.
Proof.
  unfold makeAutomaticPoint, catch, try_catch. set (m := bind (featureAvailable during) _).
  assert (match (m s).1 with inr (Some hash) => skip <> Some hash | _ => True end) as Hm.
  { unfold m, bind. destruct (featureAvailable during s) as [[e|[]] s1]; cbn; try done.
    destruct (automaticPointsEnabled s1) as [[e|[]] s2]; cbn; try done.
    unfold createQueuedRestorePoint, bind. destruct (buildRestorePoint kind mode s2) as [[e|built] s3]; [done|].
    case_bool_decide as Hskip; [done|]. destruct (enqueueRestorePoint _ s3) as [[e|u] s4]; [done|]. cbn.
    destruct (drain_detached s4) as [[e|u'] s5]; done. }
  destruct (m s) as [[e|o] s1]; [by destruct e|exact Hm].
Qed.

Definition quiet_end {A} (r : restore_exn + A) : Prop := match r with inr _ => True | inl e => e = Killed end.

Lemma get_triggers_spec {A} (f : TriggerStore -> A) s : let '(r, s') := get_triggers f s in
  calm s.1 s'.1 /\ s'.2 = s.2 /\ quiet_end r /\ forall a, r = inr a -> a = f s.2.
Proof.
  destruct s as [s t]. unfold get_triggers, lift_restore, bind, await. cbn. destruct (re_kills _); cbn; split_and!; try done; by intros a [= <-].
Qed.

Lemma put_triggers_spec f s : let '(r, s') := put_triggers f s in calm s.1 s'.1 /\ quiet_end r /\ (s'.2 = s.2 \/ s'.2 = f s.2).
Proof. destruct s as [s t]. unfold put_triggers, lift_restore, bind, await. cbn. destruct (re_kills _); cbn; split_and!; try done; [by left|by right]. Qed.

Lemma due_spec s : let '(r, s') := mass_delete_due s in
  calm s.1 s'.1 /\ s'.2 = s.2 /\ quiet_end r /\
  (phase_running (rp_phase (rs_progress s.1)) = true -> r = inr false /\ s' = s) /\
  (r = inr true -> forall last, lastMassDeleteAt s.2 = Some last ->
     exists n, (n <= w_entropy (rs_world s'.1))%nat /\ MASS_DELETE_MIN_INTERVAL_MS <= env_now n - last).
Proof.
  unfold mass_delete_due, bind at 1. destruct (lift_restore getRestoreProgress s) as [r0 s0] eqn:E0.
  assert (r0 = inr (rs_progress s.1) /\ s0 = s) as [-> ->] by (destruct s; unfold lift_restore, getRestoreProgress in E0; by injection E0 as <- <-).
  destruct (phase_running _) eqn:Hp; [cbn; split_and!; try done|].
  unfold bind at 1. pose proof (get_triggers_spec lastMassDeleteAt s) as Hg. destruct (get_triggers _ s) as [[e|x] s1]; [by destruct Hg as (? & ? & ? & ?); split_and!|].
  destruct Hg as (Hc & Ht & _ & Hx). specialize (Hx x eq_refl). destruct x as [last|]; [|cbn; split_and!; try done; congruence].
  unfold bind, lift_restore, sync, now_next, fresh. cbn. split_and!; try done.
  - eapply calm_trans; [exact Hc|]. split_and!; cbn; [lia|done..].
  - intros [= Hb] last' Hl. exists (w_entropy (rs_world s1.1)). split; [lia|]. apply negb_true_iff, Z.ltb_ge in Hb. rewrite Hl in Hx. injection Hx as <-. done.
Qed.

Lemma make_spec event s : let '(r, s') := make_mass_delete_point event s in
  calm s.1 s'.1 /\ quiet_end r /\ lastTreeHash s'.2 = lastTreeHash s.2 /\
  (lastMassDeleteAt s'.2 = lastMassDeleteAt s.2 \/
   exists n, (w_entropy (rs_world s.1) <= n)%nat /\ lastMassDeleteAt s'.2 = Some (env_now n)).
Proof.
  destruct s as [s t]. unfold make_mass_delete_point, bind at 1, lift_restore at 1. cbn [fst snd].
  pose proof (calmly_automatic RkMassDelete (mass_delete_mode event) false None s) as Hc.
  pose proof (automatic_quiet RkMassDelete (mass_delete_mode event) false None s) as Hq.
  destruct (makeAutomaticPoint _ _ _ _ s) as [[e|[hash|]] s1]; cbn in Hc, Hq; [subst e; cbn; split_and!; try done; by left| |cbn; split_and!; try done; by left].
  unfold bind at 1, lift_restore at 1, sync, now_next, fresh. cbn [fst snd].
  match goal with |- context [put_triggers ?f ?s2] => pose proof (put_triggers_spec f s2) as Hput; destruct (put_triggers f s2) as [r s3] end.
  destruct Hput as (Hc3 & Hr & Ht). cbn in Hc3. split_and!; [|done|by destruct Ht as [->| ->]|].
  - eapply calm_trans; [exact Hc|]. eapply calm_trans; [|exact Hc3]. split_and!; cbn; [lia|done..].
  - destruct Ht as [->| ->]; [by left|right]. eexists. split; [|reflexivity]. apply Hc.
Qed.

End spaced.
