(* ===== verification/RestoreJobExample.v ===== *)
(** * A concrete restore environment

    The engine environment of EngineExample with a server that refuses one
    restore point for good and accepts the others, and a browser that holds the
    bookmarks of RestoreExample. *)

From S2P Require Import Prelude FractionalIndex JsMap Types Util Json Storage StorageFacts Crypto CryptoFacts Engine EngineDownload EngineExample Bookmarks BookmarkApply RestorePoints RestorePointsFacts Planner PlannerFacts RestoreJob RestoreJobFacts EngineKeeps RestoreExample RestoreTriggers.

Open Scope Z_scope.
Open Scope js_scope.

#[local] Instance ex_renv : RestoreEnv unit unit := {|
  re_engine := ex_env;
  re_dates := example_dates;
  re_deflate := example_deflate;
  re_urls := example_url_parser;
  re_date_parse s := if String.eqb s "old" then Some (- MAX_AGE_MS - 100) else Some 0;
  re_kills n := Nat.leb 100 n;
  uploadRestorePoint srv u :=
    (if String.eqb (up_id u) "p2" then inl (ApiFailed (ApiError 409 (Some "restore_point_recent") None))
     else if String.eqb (up_id u) "p3" then inl (ApiFailed NetworkError)
     else inr (up_id u), srv);
  downloadRestorePoint srv id := (inl (ApiFailed NetworkError), srv);
  reportRestoreApplied srv id mode partial := (inr tt, srv);
  serverSupportsRestorePoints srv := (true, srv);
  fetchRestorePointsAutomatic srv := (inr None, srv);
  sweepStaleBookmarkMappings x := (inr tt, x);
  readLiveBookmarks x := ((ex_live, 0), x);
  applyRestoreOperations created ps x := (inr tt, x);
|}.

Definition waiting (id createdAt : string) : RestorePointOutboxRecord :=
  mkOutbox id "scheduled" 1 1 true JNull createdAt 0.

Definition ex_rstate : RState unit unit :=
  mkRState (set_db (putRestorePointOutbox (waiting "p1" "2026-02") (putRestorePointOutbox (waiting "p0" "old")
      (putRestorePointOutbox (waiting "p2" "2026-03") (putRestorePointOutbox (waiting "p3" "2026-04")
      (putRestorePointOutbox (waiting "p4" "2026-05") (w_db ex_world)))))) ex_world)
    IDLE None 0 [].

(** One uploaded, one refused, one that failed and stops the drain, one never
    tried, and one expired (its creation date sorts last). *)
Example ex_drain :
  map (fun kv => (kv.1, kv.2.1)) (from_option id [] (match (drainOutbox ex_rstate).1 with inr r => Some r | inl _ => None end)) =
    [("p1", Uploaded); ("p2", Discarded); ("p3", RetryLater)] /\
  map (fun kr => (kr.1, ob_attempts kr.2)) (map_to_list (outbox (drainOutbox ex_rstate).2)) =
    map (fun kr => (kr.1, ob_attempts kr.2)) (map_to_list (delete "p1" (delete "p2" (<["p3" := more_attempts (waiting "p3" "2026-04")]> (outbox ex_rstate))))).
Proof. vm_compute. done. Qed.

Lemma ex_keyed : outbox_keyed (outbox ex_rstate).
Proof.
  intros id r H. change (outbox ex_rstate) with
    (<["p1" := waiting "p1" "2026-02"]> (<["p0" := waiting "p0" "old"]> (<["p2" := waiting "p2" "2026-03"]>
      (<["p3" := waiting "p3" "2026-04"]> (<["p4" := waiting "p4" "2026-05"]> (∅ : gmap string RestorePointOutboxRecord)))))) in H.
  repeat (apply lookup_insert_Some in H as [[<- <-]|[_ H]]; [done|]). by apply lookup_empty_Some in H.
Qed.


(** ** Triggers *)

#[local] Instance ex_settings : SettingsApi restore_exn (RState unit unit) :=
  {| fetchSettings _ s := (inr (mkSettings None None None None None None None None None), s) |}.

(** Imported, with nothing in the outbox. *)
Definition ex_imported : TState (Srv := unit) (App := unit) :=
  (mkRState (set_db (set_device (Some (mkDevice "" "me" "" "" "" "" "" "AAAA" 1 (Some "2026-01-01") None None None None None None None None None None)) emptyDB)
     ex_world) IDLE None 0 [], mkTriggers None None).

Lemma ex_settings_calm fresh : calmly (fetchSettings fresh : R unit unit _).
Proof. intros s. apply calm_refl. Qed.
Lemma ex_live_calm : calmly (readLive (Srv := unit) (App := unit)).
Proof. unfold readLive, browser. apply calmly_bind; [apply calmly_await|]. by intros _ s. Qed.


(** Two mass deletes looked at before the first point is made: two points. *)
Theorem mass_delete_twice :
  let both := let! due1 := mass_delete_due in let! due2 := mass_delete_due in
    do! (if due1 : bool then make_mass_delete_point (RemoteMassDelete 60) else ret tt) in
    (if due2 : bool then make_mass_delete_point (RemoteMassDelete 70) else ret tt) in
  omap (fun e => match e with EvUpload _ kind _ => Some kind | _ => None end) (rs_log (both ex_imported).2.1) = ["mass_delete"; "mass_delete"].
Proof. vm_compute. reflexivity. Qed.

(** * A restore interrupted and resumed

    A bookmark component over an abstract browser that keeps its promises, a
    server that stores one restore point, and a worker that is stopped after
    the operations were applied. The theorems about restores are instantiated
    on it. *)

#[export] Instance BNode_eq_dec : EqDecision BNode.
Proof. solve_decision. Defined.

#[local] Existing Instances example_url_parser example_dates example_deflate.
#[local] Instance run_engine : EngineEnv unit Browser := {|
  env_crypto := toy_crypto;
  env_uuid n := "u" +:+ json_num (Z.of_nat n);
  env_nonce n := [Z.of_nat n];
  env_now n := Z.of_nat n;
  env_iso n := "now";
  uploadOperations srv ops := (inr (mkUploadResponse (map operationId ops) [] [] 7), srv);
  downloadChanges srv c := (inr (mkDownloadResponse [] 0 false), srv);
  fetchSnapshot srv := (inl NetworkError, srv);
  appliers t := None;
  batchAppliers t := None;
  preSnapshotHooks := [];
|}.

(** The browser before and after. *)
Definition b_before : Browser := browser_of ex_live.
Definition ex_live_after : list LiveBookmarkNode := [
  mkLive "10" uF KFolder "Work" None bar (Some "V") false;
  mkLive "13" uB KBookmark "Docs" (Some "https://docs.example") uF (Some "V") false].

(** The operations an applier finds in what it is given. *)
Definition string_of (v : jsval) : string := default "" (as_string v).
Definition decode_payload (t : OperationType) (p : jsval) : PlannedPayload :=
  match t, p with
  | OpRestore, _ => PRestore (string_of (jget p "title")) (as_string (jget p "url")) (string_of (jget p "parent"))
                      (string_of (jget p "position"))
  | OpUpdate, JObj fs => PUpdate (string_of <$> jm_get fs "title") (as_string <$> jm_get fs "url")
  | OpMove, _ => PMove (string_of (jget p "parent")) (string_of (jget p "position"))
  | _, _ => PDelete
  end.
Definition decode_created (c : LocalOperation * string) (p : jsval) : PlannedOperation :=
  mkPlanned (objectType c.1) (objectId c.1) (decode_payload (operationType c.1) p) "".

Lemma decode_payload_jsval op : decode_payload (po_operationType op) (payload_jsval (po_payload op)) = po_payload op.
Proof. destruct op as [? ? [t [u|] p x|[t|] [[u|]|]|p x|] ?]; reflexivity. Qed.

Definition ex_key : bytes := utf8_encode "helixsync-sdek-v1".
Definition ex_download : RestorePointDownload :=
  let '(envelope, codec) := encodePoint None [7; 9] ex_point uX ([0; 0; 0] ++ ex_key) 1 in mkPointDownload uX codec envelope.

#[local] Instance run_env : RestoreEnv unit Browser := {|
  re_engine := run_engine;
  re_dates := example_dates;
  re_deflate := example_deflate;
  re_urls := example_url_parser;
  re_date_parse s := Some 0;
  re_kills n := Nat.eqb n 17;   (* the await after the first slice *)
  uploadRestorePoint srv u := (inr (up_id u), srv);
  downloadRestorePoint srv id := (inr ex_download, srv);
  reportRestoreApplied srv id mode partial := (inr tt, srv);
  serverSupportsRestorePoints srv := (true, srv);
  fetchRestorePointsAutomatic srv := (inr None, srv);
  sweepStaleBookmarkMappings x := (inr tt, x);
  readLiveBookmarks x :=
    (if bool_decide (x.2 = b_before) then (ex_live, 0)
     else if bool_decide (x.2 = browser_of ex_live_after) then (ex_live_after, 0) else ([], 1), x);
  applyRestoreOperations created ps x := (inr tt, (x.1, apply_ops 10 x.2 (zip_with decode_created created ps)));
|}.

Definition run_device : DeviceRecord :=
  mkDevice "" "me" "" "" "" "" "" "AAAA" 1 None None None None None None None None None None None.
Definition run_start : RState unit Browser :=
  mkRState (mkWorld (set_device (Some run_device) emptyDB) b_before tt [] 0 0 0 [] [] []) IDLE None 0 [].
Definition run_request : RestoreRequest := mkRequest uX Exact ScopeAll.

Definition first_life := startRestore run_request run_start.
Definition second_life := resumeInterruptedRestore (wake first_life.2).


Definition is_apply (e : REvent) : bool := match e with EvApply _ => true | _ => false end.

(** Stopped right after the operations were applied; the next worker finds
    nothing left to do, makes no second copy, and finishes. *)
Example run_lives :
  map is_apply (rs_log first_life.2) = [false; false; true] /\ phase first_life.2 = PhApplying /\
  first_life.1 = inl Killed /\ map is_apply (rs_log second_life.2) = [false; false] /\ phase second_life.2 = PhDone.
Proof. vm_compute. done. Qed.

Lemma apply_decoded b slice created : Forall2 created_for (map pending_of slice) created ->
  apply_ops 10 b (zip_with decode_created created (map (fun op => payload_jsval (po_payload op)) slice)) = apply_ops 10 b slice.
Proof.
  revert b created. induction slice as [|op slice IH]; intros b created H; inversion H as [|? c ? created' Hc H']; subst; [done|].
  cbn [map zip_with apply_ops foldl]. unfold apply_ops in IH. rewrite IH by done. f_equal.
  destruct Hc as (_ & Ho & Ht). cbn in Ho, Ht. unfold apply_op, decode_created. cbn [po_payload po_objectId].
  by rewrite Ho, Ht, decode_payload_jsval.
Qed.

#[local] Instance run_laws : BookmarksLaws run_env.
Proof.
  refine {| bk_view := snd; bk_depth := 10; bk_idle _ := True |}.
  - done.
  - intros [db b] live n x' H. cbn in H. injection H as E <-. split_and!; [done|done|]. intros Hn.
    case_bool_decide as Eb; [injection E as <- <-; by split; [|cbn; lia]|].
    case_bool_decide as Eb'; injection E as <- <-; [by split; [|cbn; lia]|lia].
  - done.
  - intros x created slice x' Hc H. cbn in H. injection H as <-. by apply apply_decoded.
  - done.
  - done.
  - split; [done|done|]. by intros f x []%not_elem_of_nil.
Defined.

Lemma run_first : lives run_request first_life.1 first_life.2.
Proof. apply (life_start _ run_start); [done..|]. unfold first_life. apply surjective_pairing. Qed.

Lemma run_second : lives run_request second_life.1 second_life.2.
Proof.
  apply (life_wake _ _ _ first_life.2 _ _ run_first eq_refl). unfold second_life. apply surjective_pairing.
Qed.

Lemma live_after_ready : plan_ready ex_nodes ex_live_after.
Proof.
  split; [apply ex_tree| | | | |].
  - by apply (bool_decide_eq_true_1 (NoDup (map lb_objectId ex_live_after))).
  - intros [|[|i]] [|[|j]] n m Hi Hj E; cbn in Hi, Hj; simplify_eq; try lia; vm_compute in E; discriminate E.
  - intros m Hm. repeat (apply elem_of_cons in Hm as [->|Hm]; [split_and!; [|done|done]|]); [..|by apply not_elem_of_nil in Hm];
      by apply (bool_decide_eq_true_1 (_ ∉ ROOT_IDS)).
  - intros n m Hn Hm E. repeat (apply elem_of_cons in Hn as [->|Hn]; [|]); [..|by apply not_elem_of_nil in Hn];
      repeat (apply elem_of_cons in Hm as [->|Hm]; [vm_compute in E; try discriminate E; done|]); by apply not_elem_of_nil in Hm.
  - intros n Hn Hk. repeat (apply elem_of_cons in Hn as [->|Hn]; [done|]). by apply not_elem_of_nil in Hn.
Qed.

Lemma read_ready live : was_read live -> plan_ready ex_nodes live.
Proof.
  intros ([db b] & n & x' & H & Hn). cbn in H. injection H as E <-.
  case_bool_decide; [injection E as <- <-; apply ex_ready|].
  case_bool_decide; injection E as <- <-; [apply live_after_ready|lia].
Qed.

Lemma run_loaded : rs_loaded second_life.2 = Some (uX, ex_point).
Proof. vm_compute. reflexivity. Qed.


