(* ===== verification/BookmarkCapture.v ===== *)
(** * The bookmark adapter: capturing local changes
    (extension/src/bookmarks/index.ts, local capture and backfill)

    Browser events are queued and flushed in bursts: each event is staged to
    an operation, in order, through caches that the burst shares; mappings are
    committed, then operations, then field states. [backfillExisting] imports
    the bookmarks that were there before. Staging is a computation over the
    adapter's state and the [Caches] of the burst; flushing runs in the
    engine's [Sync]. *)

From S2P Require Import Prelude JsMap Types Util FractionalIndex Storage Conflict Engine RestorePoints Bookmarks BookmarkApply.

Open Scope Z_scope.
Open Scope js_scope.

(** ** Events, staged operations, caches *)

Record BookmarkRemoveInfo := mkRemoveInfo { ri_parentId : string; ri_index : Z; ri_node : BookmarkTreeNode }.
Record BookmarkChangeInfo := mkChangeInfo { ci_title : option string; ci_url : option string }.
Record BookmarkMoveInfo := mkMoveInfo { mi_parentId : string; mi_index : Z }.

Inductive QueuedBookmarkEvent :=
  | EvCreated (id : string) (node : BookmarkTreeNode)
  | EvRemoved (id : string) (removeInfo : BookmarkRemoveInfo)
  | EvChanged (id : string) (changeInfo : BookmarkChangeInfo)
  | EvMoved (id : string) (moveInfo : BookmarkMoveInfo).

Definition event_id (e : QueuedBookmarkEvent) : string :=
  match e with EvCreated id _ | EvRemoved id _ | EvChanged id _ | EvMoved id _ => id end.

Record StagedBookmarkOp := mkStaged {
  st_objectType : ObjectType;
  st_objectId : string;
  st_operationType : OperationType;
  st_payload : jsval;
  st_fields : list (string * jsval);
}.

Record Caches := mkCaches {
  overlay : jmap string jsval;
  siblingCache : jmap string (list BookmarkTreeNode);
  mappingCache : jmap string string;
  nodeCache : jmap string BookmarkTreeNode;
  newMappings : list ObjectMappingRecord;
  deletedLocalIds : list string;
}.
Definition no_caches : Caches := mkCaches [] [] [] [] [] [].

Definition set_overlay (x : jmap string jsval) (c : Caches) : Caches :=
  mkCaches x (siblingCache c) (mappingCache c) (nodeCache c) (newMappings c) (deletedLocalIds c).
Definition set_siblings (x : jmap string (list BookmarkTreeNode)) (c : Caches) : Caches :=
  mkCaches (overlay c) x (mappingCache c) (nodeCache c) (newMappings c) (deletedLocalIds c).
Definition set_mappingCache (x : jmap string string) (c : Caches) : Caches :=
  mkCaches (overlay c) (siblingCache c) x (nodeCache c) (newMappings c) (deletedLocalIds c).
Definition set_nodes (x : jmap string BookmarkTreeNode) (c : Caches) : Caches :=
  mkCaches (overlay c) (siblingCache c) (mappingCache c) x (newMappings c) (deletedLocalIds c).
Definition push_mapping (x : ObjectMappingRecord) (c : Caches) : Caches :=
  mkCaches (overlay c) (siblingCache c) (mappingCache c) (nodeCache c) (newMappings c ++ [x]) (deletedLocalIds c).
Definition push_deleted (id : string) (c : Caches) : Caches :=
  mkCaches (overlay c) (siblingCache c) (jm_delete (mappingCache c) id) (nodeCache c) (newMappings c) (deletedLocalIds c ++ [id]).

Definition overlayKey (objectId field : string) : string := objectId +:+ ":" +:+ field.

Section capture.
Context {Br : Type} `{Env : BookmarkEnv Br}.

Definition Cap (A : Type) : Type := M (BmState (Br := Br) * Caches) sync_error A.

Definition bm {A} (m : Bm (Br := Br) A) : Cap A := fun s =>
  let '(r, x) := m s.1 in (r, (x, s.2)).
Definition caches {A} (f : Caches -> A) : Cap A := fun s => (inr (f s.2), s).
Definition cache_put (f : Caches -> Caches) : Cap unit := modify (fun s => (s.1, f s.2)).

(** A freshly minted id has no field state yet. *)
Definition seed_overlay (objectId : string) (o : jmap string jsval) : jmap string jsval :=
  foldl (fun o field => let key := overlayKey objectId field in if jm_has o key then o else jm_set o key JUndef)
    o ["title"; "url"; "move"].

Definition objectIdFor (chromiumId : string) : Cap string :=
  let! roots := bm bookmarkRoots in
  match truthy_str (jm_get (objectIdByChromiumId roots) chromiumId) with
  | Some root => ret root
  | None =>
      let! cached := caches (fun c => jm_get (mappingCache c) chromiumId) in
      match truthy_str cached with
      | Some o => ret o
      | None =>
          let! existing := bm (lookupObjectId MAP_TYPE chromiumId) in
          match truthy_str existing with
          | Some o => do! cache_put (fun c => set_mappingCache (jm_set (mappingCache c) chromiumId o) c) in ret o
          | None =>
              let! objectId := bm (draw be_uuid) in
              do! cache_put (fun c => set_mappingCache (jm_set (mappingCache c) chromiumId objectId) c) in
              do! cache_put (push_mapping (mkMapping (mappingKey MAP_TYPE chromiumId) MAP_TYPE chromiumId objectId)) in
              do! cache_put (fun c => set_overlay (seed_overlay objectId (overlay c)) c) in
              ret objectId
          end
      end
  end.

Definition cachedObjectId (chromiumId : string) : Cap (option string) :=
  let! cached := caches (fun c => jm_get (mappingCache c) chromiumId) in
  match truthy_str cached with
  | Some o => ret (Some o)
  | None =>
      let! existing := bm (lookupObjectId MAP_TYPE chromiumId) in
      match truthy_str existing with
      | Some o => do! cache_put (fun c => set_mappingCache (jm_set (mappingCache c) chromiumId o) c) in ret (Some o)
      | None => ret None
      end
  end.

Definition overlayOrFieldState (objectId field : string) : Cap jsval :=
  let key := overlayKey objectId field in
  let! hit := caches (fun c => jm_get (overlay c) key) in
  match hit with
  | Some v => ret v
  | None =>
      let! v := bm (store_get (fun db => from_option fs_value JUndef (getFieldState objectId field db))) in
      do! cache_put (fun c => set_overlay (jm_set (overlay c) key v) c) in ret v
  end.

(** An overlay hit is authoritative, even a cached [undefined]. *)
Definition positionOf (objectId : string) : Cap (option string) :=
  let! hit := caches (fun c => jm_get (overlay c) (overlayKey objectId "move")) in
  match hit with
  | Some v => ret (as_string (jget v "position"))
  | None => bm (store_get (fun db => position_of_state (getFieldState objectId "move" db)))
  end.

(** The nearest siblings of index [i] that are not stand-in roots: before it,
    last first, and after it. Past the end, [siblings[before]] is undefined. *)
Definition before_index (standIns : jset string) (ids : list string) (i : Z) : option string :=
  if Z.of_nat (length ids) <? i then None
  else find (fun id => negb (js_has standIns id)) (rev (take (Z.to_nat i) ids)).
Definition after_index (standIns : jset string) (ids : list string) (i : Z) : option string :=
  find (fun id => negb (js_has standIns id)) (drop (Z.to_nat (i + 1)) ids).

Definition kb {S A} (r : kb_error + A) : M S sync_error A := fun s =>
  match r with inr a => (inr a, s) | inl _ => (inl (OtherError "keyBetween"), s) end.

Definition computePosition (parentChromiumId : string) (index : Z) : Cap string :=
  let! cached := caches (fun c => jm_get (siblingCache c) parentChromiumId) in
  let! siblings := (match cached with
                    | Some l => ret l
                    | None =>
                        let! l := bm (chrome_get (getChildren parentChromiumId)) in
                        do! cache_put (fun c => set_siblings (jm_set (siblingCache c) parentChromiumId l) c) in ret l
                    end) in
  let! roots := bm bookmarkRoots in
  let ids := map tn_id siblings in
  let object_of id := match truthy_str id with Some id => let! o := objectIdFor id in ret (Some o) | None => ret None end in
  let! before := object_of (before_index (standInIds roots) ids index) in
  let! after := object_of (after_index (standInIds roots) ids index) in
  let position_of o := match truthy_str o with Some o => positionOf o | None => ret None end in
  let! lo := position_of before in
  let! hi := position_of after in
  kb (keyBetween lo hi).

(** ** Staging *)

Definition write_overlay (objectId : string) (fields : list (string * jsval)) : Cap unit :=
  cache_put (fun c => set_overlay (foldl (fun o f => jm_set o (overlayKey objectId f.1) f.2) (overlay c) fields) c).

Definition stageCreated (id : string) (node : BookmarkTreeNode) : Cap StagedBookmarkOp :=
  let! cached := caches (fun c => jm_get (mappingCache c) id) in
  let! objectId := (match truthy_str cached with Some o => ret o | None => objectIdFor id end) in
  let! parent := (match truthy_str (tn_parentId node) with
                  | Some p => let! o := objectIdFor p in ret (JStr o)
                  | None => ret JNull
                  end) in
  let! position := (match truthy_str (tn_parentId node) with
                    | Some p => computePosition p (tn_index node)
                    | None => kb (keyBetween None None)
                    end) in
  let title := JStr (tn_title node) in
  let url := of_null_str (tn_url node) in
  let move := JObj [("parent", parent); ("position", JStr position)] in
  do! write_overlay objectId [("title", title); ("url", url); ("move", move)] in
  ret (mkStaged (bookmarkObjectType node) objectId OpCreate
         (JObj [("title", title); ("url", url); ("parent", parent); ("position", JStr position)])
         [("title", title); ("url", url); ("move", move); ("liveness", JStr "live")]).

Definition stageRemoved (id : string) (info : BookmarkRemoveInfo) : Cap (option StagedBookmarkOp) :=
  let! objectId := cachedObjectId id in
  match objectId with
  | None => ret None
  | Some objectId =>
      do! cache_put (fun c => foldl (fun c i => push_deleted i c) c (id :: descendantIds (ri_node info))) in
      ret (Some (mkStaged (bookmarkObjectType (ri_node info)) objectId OpDelete (JObj [])
                   [("liveness", JStr "deleted")]))
  end.

(** [nodeCache?.get(id) ?? (await chrome.bookmarks.get(id))[0]] *)
Definition node_of (id : string) : Cap BookmarkTreeNode :=
  let! cached := caches (fun c => jm_get (nodeCache c) id) in
  match cached with
  | Some n => ret n
  | None =>
      let! found := bm (chrome_get (bm_get id)) in
      match found with n :: _ => ret n | [] => throw (OtherError "TypeError") end
  end.

Definition stageChanged (id : string) (info : BookmarkChangeInfo) : Cap (option StagedBookmarkOp) :=
  let! objectId := cachedObjectId id in
  match objectId with
  | None => ret None
  | Some objectId =>
      let! node := node_of id in
      let fields := match ci_title info with Some t => [("title", JStr t)] | None => [] end ++
                    match ci_url info with Some u => [("url", JStr u)] | None => [] end in
      match fields with
      | [] => ret None
      | _ =>
          let same field v := match v with
            | Some x => let! current := overlayOrFieldState objectId field in ret (js_eq_str current x)
            | None => ret true
            end in
          let! title_same := same "title" (ci_title info) in
          let! url_same := same "url" (ci_url info) in
          if title_same && url_same then ret None else
          do! write_overlay objectId fields in
          ret (Some (mkStaged (bookmarkObjectType node) objectId OpUpdate (JObj fields) fields))
      end
  end.

Definition stageMoved (id : string) (info : BookmarkMoveInfo) : Cap (option StagedBookmarkOp) :=
  let! objectId := cachedObjectId id in
  match objectId with
  | None => ret None
  | Some objectId =>
      let! node := node_of id in
      let! parent := objectIdFor (mi_parentId info) in
      let! position := computePosition (mi_parentId info) (mi_index info) in
      let! current := overlayOrFieldState objectId "move" in
      if js_eq_str (jget current "parent") parent && js_eq_str (jget current "position") position then ret None else
      let move := JObj [("parent", JStr parent); ("position", JStr position)] in
      do! write_overlay objectId [("move", move)] in
      ret (Some (mkStaged (bookmarkObjectType node) objectId OpMove move [("move", move)]))
  end.

Definition stage (event : QueuedBookmarkEvent) : Cap (option StagedBookmarkOp) :=
  match event with
  | EvCreated id node => let! op := stageCreated id node in ret (Some op)
  | EvRemoved id info => stageRemoved id info
  | EvChanged id info => stageChanged id info
  | EvMoved id info => stageMoved id info
  end.

(** One bad event does not drop the rest of the burst. *)
Fixpoint stage_all (events : list QueuedBookmarkEvent) : Cap (list (QueuedBookmarkEvent * StagedBookmarkOp)) :=
  match events with
  | [] => ret []
  | event :: events =>
      let! op := try_catch (stage event) (fun _ => ret None) in
      let! rest := stage_all events in
      ret (match op with Some op => (event, op) :: rest | None => rest end)
  end.

(** ** Prefetching *)

Definition SIBLING_WARM_RATIO : nat := 10.

Definition reads_positions (e : QueuedBookmarkEvent) : bool :=
  match e with EvCreated _ _ | EvMoved _ _ => true | _ => false end.
Definition is_changed (e : QueuedBookmarkEvent) : bool := match e with EvChanged _ _ => true | _ => false end.

Definition parent_to_warm (e : QueuedBookmarkEvent) : list string :=
  match e with
  | EvCreated _ node => option_list (truthy_str (tn_parentId node))
  | EvMoved _ info => [mi_parentId info]
  | _ => []
  end.
Definition local_ids_of (e : QueuedBookmarkEvent) : list string :=
  event_id e :: match e with
                | EvCreated _ node => option_list (truthy_str (tn_parentId node))
                | EvMoved _ info => option_list (truthy_str (Some (mi_parentId info)))
                | _ => []
                end.
Definition node_to_warm (e : QueuedBookmarkEvent) : list string :=
  match e with EvMoved id _ | EvChanged id _ => [id] | _ => [] end.

Definition cache_mappings (found : jmap string ObjectMappingRecord) : Cap unit :=
  cache_put (fun c => set_mappingCache
    (foldl (fun m kv => jm_set m kv.1 (om_objectId kv.2)) (mappingCache c) found) c).

(** A failed prefetch leaves the live read to the staging. *)
Definition warm_siblings (parentId : string) : Cap unit :=
  try_catch
    (let! children := bm (chrome_get (getChildren parentId)) in
     cache_put (fun c => set_siblings (jm_set (siblingCache c) parentId children) c)) (fun _ => ret tt).
Definition warm_node (id : string) : Cap unit :=
  try_catch
    (let! found := bm (chrome_get (bm_get id)) in
     match found with n :: _ => cache_put (fun c => set_nodes (jm_set (nodeCache c) id n) c) | [] => ret tt end)
    (fun _ => ret tt).

Definition seed_field (field : string) (objectIds : list string) : Cap unit :=
  let! states := bm (store_get (getFieldStatesForObjects objectIds field)) in
  cache_put (fun c => set_overlay
    (foldl (fun o id => jm_set o (overlayKey id field) (from_option fs_value JUndef (jm_get states id)))
       (overlay c) objectIds) c).

Definition prefetchFlushCaches (events : list QueuedBookmarkEvent) : Cap unit :=
  let! prefetched := bm (store_get (getMappingsByLocalIds MAP_TYPE (js_of_list (concat (map local_ids_of events))))) in
  do! cache_mappings prefetched in
  let! cachedParents := caches (fun c => jm_keys (siblingCache c)) in
  do! for_each (filter (fun p => p ∉ cachedParents) (js_of_list (concat (map parent_to_warm events)))) warm_siblings in
  let needsMove := existsb reads_positions events in
  let! siblingIds := caches (fun c => if needsMove then
      js_of_list (filter (fun id => jm_has (mappingCache c) id = false)
        (concat (map (map tn_id) (jm_values (siblingCache c))))) else []) in
  do! (if Nat.ltb 0 (length siblingIds) && Nat.leb (length siblingIds) (length events * SIBLING_WARM_RATIO) then
         let! found := bm (store_get (getMappingsByLocalIds MAP_TYPE siblingIds)) in cache_mappings found
       else ret tt) in
  do! for_each (js_of_list (concat (map node_to_warm events))) warm_node in
  let! objectIds := caches (fun c => js_of_list (jm_values (mappingCache c))) in
  do! (if existsb is_changed events then
         do! seed_field "title" objectIds in seed_field "url" objectIds else ret tt) in
  if needsMove then seed_field "move" objectIds else ret tt.

(** ** Mass deletes *)

Fixpoint visit_removed (mappings : jmap string ObjectMappingRecord) (moveStates : jmap string FieldStateRecord)
    (parentObjectId : option string) (node : BookmarkTreeNode) : list LiveBookmarkNode :=
  match node with
  | mkTreeNode id _ _ _ _ _ cs =>
      match truthy_str (om_objectId <$> jm_get mappings id), parentObjectId with
      | Some o, Some p =>
          mkLive id o (if has_url node then KBookmark else KFolder) (tn_title node)
            (if has_url node then tn_url node else None) p (position_of_state (jm_get moveStates o)) false
          :: concat (map (visit_removed mappings moveStates (Some o)) cs)
      | _, _ => []
      end
  end.

Definition detectLocalMassDelete (handled : bool) (removedEvents : list (string * BookmarkRemoveInfo)) :
    Cap (option MassDeleteEvent) :=
  let count := foldr Z.add 0 (map (fun e => countSubtree (ri_node e.2)) removedEvents) in
  if negb handled || (count <? MASS_DELETE_THRESHOLD) then ret None else
  match removedEvents with
  | [] => ret None
  | _ =>
      let localIds := concat (map (fun e => e.1 :: descendantIds (ri_node e.2)) removedEvents) in
      let! mappings := bm (store_get (getMappingsByLocalIds MAP_TYPE localIds)) in
      let! moveStates := bm (store_get (getFieldStatesForObjects (map om_objectId (jm_values mappings)) "move")) in
      let! roots := bm bookmarkRoots in
      let rootIds := objectIdByChromiumId roots in
      let! parentMappings := bm (store_get (getMappingsByLocalIds MAP_TYPE
        (filter (fun id => jm_has rootIds id = false) (map (fun e => ri_parentId e.2) removedEvents)))) in
      let parent_of id := truthy_str (or_else (jm_get rootIds id) (om_objectId <$> jm_get parentMappings id)) in
      ret (Some (LocalMassDelete count (concat (map (fun e =>
        visit_removed mappings moveStates (parent_of (ri_parentId e.2)) (ri_node e.2)) removedEvents))))
  end.

Definition removed_event (e : QueuedBookmarkEvent) : option (string * BookmarkRemoveInfo) :=
  match e with EvRemoved id info => Some (id, info) | _ => None end.

Definition dedupeByKey (mappings : list ObjectMappingRecord) : list ObjectMappingRecord :=
  (foldl (fun '(seen, kept) m => if js_has seen (om_key m) then (seen, kept)
                                 else (js_add seen (om_key m), kept ++ [m])) ([], []) mappings).2.

(** What a flush does before it creates operations: stage the events and
    commit the mappings. *)
Definition stageFlush (handled : bool) (events : list QueuedBookmarkEvent) :
    Cap (list StagedBookmarkOp * option MassDeleteEvent) :=
  do! (if Nat.eqb (length events) 1 then ret tt else prefetchFlushCaches events) in
  let! staged := stage_all events in
  match staged with
  | [] => ret ([], None)
  | _ =>
      let! massDelete := detectLocalMassDelete handled (omap removed_event (map fst staged)) in
      let! minted := caches newMappings in
      do! bm (store_put (putMappingsBatch (dedupeByKey minted))) in
      let! gone := caches deletedLocalIds in
      do! bm (store_put (deleteMappingsBatch MAP_TYPE (js_of_list gone))) in
      ret (map snd staged, massDelete)
  end.
End capture.

(** ** Backfill: the walk *)

Record BackfillNode := mkBackfillNode {
  bf_objectType : ObjectType;
  bf_objectId : string;
  bf_payload : BookmarkPayload;
}.

Definition BACKFILL_FLUSH_CHUNK : nat := 500.

Section flatten.
Context {S : Type}.
Variables (uuid : M S sync_error string) (emit : ObjectMappingRecord -> BackfillNode -> M S sync_error unit).
Variables (rootObjectIdByChromiumId : jmap string string) (alreadyMapped : jset string).
Variables (mappings : jmap string ObjectMappingRecord) (positions : jmap string string).

Definition is_backfill_root (id : string) : option string := truthy_str (jm_get rootObjectIdByChromiumId id).

Definition mapped_object (id : string) : string := default "" (om_objectId <$> jm_get mappings id).

Definition existingPositionOf (node : BookmarkTreeNode) : option string :=
  if jm_has rootObjectIdByChromiumId (tn_id node) || negb (js_has alreadyMapped (tn_id node)) then None
  else jm_get positions (mapped_object (tn_id node)).

(** [nextExistingPosition[i]], of the siblings after the i-th. *)
Definition next_existing (later : list BookmarkTreeNode) : option string := head (omap existingPositionOf later).

(** A new node's key: between the running key and the next existing one, if
    that leaves a gap. *)
Definition backfill_key (runningLo hi : option string) : kb_error + string :=
  keyBetween runningLo (match hi, runningLo with
                        | Some h, Some lo => if str_ltb lo h then Some h else None
                        | _, _ => hi
                        end).

(** One sibling, and all below it; returns [runningLo]. *)
Fixpoint process_node (parentObjectId runningLo hi : option string) (child : BookmarkTreeNode) :
    M S sync_error (option string) :=
  match child with
  | mkTreeNode id _ _ title url _ cs =>
      let! step :=
        match is_backfill_root id with
        | Some root => ret (root, runningLo)
        | None =>
            if js_has alreadyMapped id then
              let own := mapped_object id in
              ret (own, match jm_get positions own with Some x => Some x | None => runningLo end)
            else
              let! own := uuid in
              let! position := kb (backfill_key runningLo hi) in
              do! emit (mkMapping (mappingKey MAP_TYPE id) MAP_TYPE id own)
                    (mkBackfillNode (bookmarkObjectType child) own
                       (mkBookmarkPayload title url parentObjectId position)) in
              ret (own, Some position)
        end in
      do! (fix children (lo : option string) (l : list BookmarkTreeNode) : M S sync_error unit :=
             match l with
             | [] => ret tt
             | c :: later =>
                 let! lo := process_node (Some step.1) lo (next_existing later) c in children lo later
             end) None cs in
      ret step.2
  end.

Definition process_children (parentObjectId : option string) :
    option string -> list BookmarkTreeNode -> M S sync_error unit :=
  fix children lo l :=
    match l with
    | [] => ret tt
    | c :: later =>
        let! lo := process_node parentObjectId lo (next_existing later) c in children lo later
    end.

Definition flattenForBackfill (root : BookmarkTreeNode) : M S sync_error unit := process_children None None [root].
End flatten.

(** ** Running in the engine *)

Section flush.
Context {Srv Br : Type} `{BEnv : BookmarkEnv Br} `{EEnv : EngineEnv Srv (BmApp (Br := Br))}.
Abbreviation Sync := (Sync Srv (BmApp (Br := Br))).
(** api/client's [fetchSettings] ([syncBookmarks] of its reply), engine's
    [scheduleLocalSync], and the registered mass delete handler. *)
Variables (fetchSettings : Sync (option bool)) (scheduleLocalSync : Sync unit).
Variable massDeleteHandler : option (MassDeleteEvent -> Bm (Br := Br) unit).

Definition adapter {A} (m : Bm (Br := Br) A) : Sync A := fun w =>
  let '(r, x) := m (w_db w, w_app w) in (r, set_db_app x w).

Definition isBookmarkSyncEnabled : Sync bool :=
  try_catch (let! s := fetchSettings in ret (negb (bool_decide (s = Some false)))) (fun _ => ret true).

Definition pending_of_staged (op : StagedBookmarkOp) : PendingLocalOperation :=
  mkPendingLocal (st_objectType op) (st_objectId op) (st_operationType op) (st_payload op) None.

(** The field states an operation just created leaves behind. *)
Definition staged_entries (cd : LocalOperation * string) (op : StagedBookmarkOp) : list LocalFieldStateEntry :=
  let key := mkOrderingKey (lamportTimestamp cd.1) cd.2 (operationId cd.1) in
  map (fun f => mkLocalFieldState (st_objectId op) f.1 key (st_operationType op) f.2) (st_fields op).

Definition flushBookmarkEvents (events : list QueuedBookmarkEvent) : Sync unit :=
  let! enabled := isBookmarkSyncEnabled in
  if negb enabled then ret tt else
  let! device := db_read db_device in
  match device with
  | None => ret tt
  | Some _ =>
      let handled := bool_decide (massDeleteHandler <> None) in
      let! out := adapter (fun s => let '(r, x) := stageFlush handled events (s, no_caches) in (r, x.1)) in
      let '(staged, massDelete) := out in
      match staged with
      | [] => ret tt
      | _ =>
          let! created := createLocalOperationsBatch (map pending_of_staged staged) true in
          let! now := now_next in
          do! db_update (recordLocalFieldStatesBatch now (concat (zip_with staged_entries created staged))) in
          do! scheduleLocalSync in
          match massDelete with
          | Some event => adapter (runMassDelete massDeleteHandler event)
          | None => ret tt
          end
      end
  end.

(** Emitted nodes not yet committed. *)
Definition Pending : Type := list (ObjectMappingRecord * BackfillNode).
Definition Back (A : Type) : Type := M (World Srv (BmApp (Br := Br)) * Pending) sync_error A.
Definition engine_step {A} (m : Sync A) : Back A := fun s =>
  let '(r, w) := m s.1 in (r, (w, s.2)).

Definition payload_of (p : BookmarkPayload) : jsval :=
  JObj [("title", JStr (bp_title p)); ("url", of_null_str (bp_url p)); ("parent", of_null_str (bp_parent p));
        ("position", JStr (bp_position p))].

Definition pending_of_backfill (n : BackfillNode) : PendingLocalOperation :=
  mkPendingLocal (bf_objectType n) (bf_objectId n) OpCreate (payload_of (bf_payload n)) None.

(** The fields a create leaves behind. *)
Definition backfill_fields (n : BackfillNode) : list (string * jsval) :=
  let p := bf_payload n in
  [("title", JStr (bp_title p)); ("url", of_null_str (bp_url p));
   ("move", JObj [("parent", of_null_str (bp_parent p)); ("position", JStr (bp_position p))]);
   ("liveness", JStr "live")].

Definition backfill_states (cd : LocalOperation * string) (n : BackfillNode) : list FieldStateRecord :=
  map (fun f => mkFieldState "" (bf_objectId n) f.1 (lamportTimestamp cd.1) cd.2 (operationId cd.1) OpCreate f.2 None)
    (backfill_fields n).

Definition flushBackfillChunk : Back unit :=
  let! pending := (fun s => (inr s.2, s)) in
  match pending with
  | [] => ret tt
  | _ =>
      let! device := engine_step (db_read db_device) in
      do! modify (fun s => (s.1, [])) in
      match device with
      | None => ret tt
      | Some _ =>
          engine_step
            (let! created := createLocalOperationsBatch (map (fun e => pending_of_backfill e.2) pending) false in
             let! createdAt := iso_next in
             let! now := now_next in
             db_update (commitBookmarkBackfillBatch
               (mkBackfill (map fst pending) (map fst created)
                  (concat (zip_with backfill_states created (map snd pending)))) createdAt now))
      end
  end.

Definition emit_backfill (mapping : ObjectMappingRecord) (node : BackfillNode) : Back unit :=
  do! modify (fun s => (s.1, s.2 ++ [(mapping, node)])) in
  let! pending := (fun s => (inr (length s.2), s)) in
  if Nat.leb BACKFILL_FLUSH_CHUNK pending then flushBackfillChunk else ret tt.

(** [alreadyMapped]: a mapping without a "move" state is a remnant of an
    interrupted write. *)
Definition settled_mappings (mappings : jmap string ObjectMappingRecord) (moveStates : jmap string FieldStateRecord) :
    jset string :=
  js_of_list (map fst (filter (fun kv => jm_has moveStates (om_objectId kv.2) = true) mappings)).

Definition recorded_positions (moveStates : jmap string FieldStateRecord) : jmap string string :=
  foldl (fun m kv => match truthy_str (position_of_state (Some kv.2)) with
                     | Some x => jm_set m kv.1 x
                     | None => m
                     end) [] moveStates.

(** [flushQueues] drains the capture queues. *)
Definition backfillExisting (flushQueues : Sync unit) : Sync unit :=
  let! enabled := isBookmarkSyncEnabled in
  if negb enabled then ret tt else
  do! flushQueues in
  let! roots := adapter bookmarkRoots in
  let! tree := adapter (get_app (fun a => getTree (ba_browser a))) in
  let! rawMapped := adapter (mapped_ids MAP_TYPE) in
  let! mappings := db_read (getMappingsByLocalIds MAP_TYPE rawMapped) in
  let! moveStates := db_read (getFieldStatesForObjects (map om_objectId (jm_values mappings)) "move") in
  match tree with
  | None => throw (OtherError "TypeError")
  | Some root => fun w =>
      let '(r, s) :=
        (do! flattenForBackfill (engine_step (adapter (draw be_uuid))) emit_backfill (objectIdByChromiumId roots)
               (settled_mappings mappings moveStates) mappings (recorded_positions moveStates) root in
         flushBackfillChunk) (w, []) in (r, s.1)
  end.

(** The adapter's other entry points, with the capture queues drained first. *)
Definition readLiveBookmarks (flushQueues : Sync unit) : Sync (list LiveBookmarkNode * Z) :=
  do! flushQueues in adapter readLiveTree.

Definition sweepStaleBookmarkMappings (flushQueues : Sync unit) : Sync Z :=
  do! flushQueues in adapter sweepStaleTree.

Definition sweepStaleBookmarkMappingsOnce (flushQueues : Sync unit) : Sync unit :=
  let! done_ := adapter (get_app ba_sweepDone) in
  if done_ then ret tt else
  let! _ := sweepStaleBookmarkMappings flushQueues in
  adapter (with_app (set_sweepDone true)).
End flush.
