(* ===== verification/BookmarkBackfillFacts.v ===== *)
(** * Properties of the bookmark backfill

    Importing the bookmarks a browser had before emits exactly its unmapped
    nodes, in the order of the tree, each under the object id of its parent
    and with a key that keeps its folder in order. The walk is followed with
    an arbitrary [emit] that keeps a log, so the theorem holds for the
    committing one of [backfillExisting]. *)

From S2P Require Import Prelude JsMap Types Util FractionalIndex Storage StorageFacts Engine RestorePoints RestorePointsFacts Bookmarks BookmarkReadFacts BookmarkApply BookmarkCapture.

Open Scope Z_scope.
Open Scope js_scope.

(** ** Emitted nodes *)

Definition Emitted : Type := ObjectMappingRecord * BackfillNode.
Definition emitted_ids (E : list Emitted) : list string := map (fun e => chromiumLocalId e.1) E.
Definition emitted (E : list Emitted) (i : string) : option BackfillNode :=
  snd <$> find (fun e => String.eqb (chromiumLocalId e.1) i) E.

Lemma emitted_app E1 E2 i : emitted (E1 ++ E2) i = or_else (emitted E1 i) (emitted E2 i).
Proof.
  unfold emitted. induction E1 as [|e E1 IH]; cbn; [by destruct (_ <$> _)|].
  by destruct (String.eqb (chromiumLocalId e.1) i).
Qed.
Lemma emitted_none E i : i ∉ emitted_ids E -> emitted E i = None.
Proof.
  unfold emitted. induction E as [|e E IH]; cbn; [done|]. intros [Hne Hi]%not_elem_of_cons.
  destruct (String.eqb_spec (chromiumLocalId e.1) i); [by subst|by apply IH].
Qed.

Fixpoint subnodes (n : BookmarkTreeNode) : list BookmarkTreeNode :=
  match n with mkTreeNode _ _ _ _ _ _ cs => n :: concat (map subnodes cs) end.
Lemma subnodes_unfold n : subnodes n = n :: concat (map subnodes (tn_children n)).
Proof. by destruct n. Qed.

Lemma subnodes_ids n : map tn_id (subnodes n) = tree_ids n.
Proof.
  induction n as [n IH] using tree_induction. rewrite subnodes_unfold, tree_ids_unfold. cbn. f_equal.
  rewrite concat_map, map_map. f_equal. apply map_ext_in. intros c Hc. rewrite Forall_forall in IH. apply IH.
  by apply list_elem_of_In.
Qed.

Lemma subnode_id n P : P ∈ subnodes n -> tn_id P ∈ tree_ids n.
Proof. intros H. rewrite <- subnodes_ids. by apply list_elem_of_fmap_2. Qed.

Lemma subnode_child n P c : P ∈ subnodes n -> c ∈ tn_children P -> tn_id c ∈ tree_ids n.
Proof.
  induction n as [n IH] using tree_induction. rewrite subnodes_unfold, tree_ids_unfold.
  intros [->|HP]%elem_of_cons Hc; right.
  - apply list_elem_of_In, in_concat. exists (tree_ids c). split.
    + apply in_map_iff. exists c. by split; [|apply list_elem_of_In].
    + apply list_elem_of_In. rewrite tree_ids_unfold. by left.
  - apply list_elem_of_In, in_concat in HP as (l & (d & <- & Hd)%in_map_iff & HP).
    apply list_elem_of_In, in_concat. exists (tree_ids d). split; [by apply in_map|].
    rewrite Forall_forall in IH. apply list_elem_of_In, IH; [by apply list_elem_of_In..|done].
Qed.

Lemma forest_id l d : d ∈ l -> tn_id d ∈ concat (map tree_ids l).
Proof.
  intros Hd. apply list_elem_of_In, in_concat. exists (tree_ids d). split.
  - by apply in_map, list_elem_of_In.
  - apply list_elem_of_In. rewrite tree_ids_unfold. left.
Qed.

Section walk.
Context {S : Type}.
Variables (uuid : M S sync_error string) (emit : ObjectMappingRecord -> BackfillNode -> M S sync_error unit).
Variables (rootIds : jmap string string) (already : jset string).
Variables (mappings : jmap string ObjectMappingRecord) (positions : jmap string string).
(** The log [emit] keeps, also with an object id drawn for the next node, and
    what may be thrown. *)
Variables (I : list Emitted -> S -> Prop) (F : list Emitted -> string -> S -> Prop) (X : sync_error -> S -> Prop).
Hypothesis Huuid : forall E, triple (I E) uuid (F E) X.
Hypothesis Hemit : forall E i n, let m := mkMapping (mappingKey MAP_TYPE i) MAP_TYPE i (bf_objectId n) in
  triple (F E (bf_objectId n)) (emit m n) (fun _ => I (E ++ [(m, n)])) X.
Hypothesis Hpositions : forall o x, jm_get positions o = Some x -> valid_key x.
Hypothesis Hroots : forall i, jm_has rootIds i = true -> is_backfill_root rootIds i <> None.

Abbreviation root := (is_backfill_root rootIds).
Abbreviation existing := (existingPositionOf rootIds already mappings positions).
Abbreviation next := (next_existing rootIds already mappings positions).

Definition fresh_id (i : string) : Prop := root i = None /\ js_has already i = false.
#[local] Instance fresh_id_dec i : Decision (fresh_id i).
Proof. unfold fresh_id. apply _. Defined.

(** The key a sibling has afterwards, given the running one. *)
Definition sibling_key (lo hi : option string) (c : BookmarkTreeNode) : option string :=
  match root (tn_id c) with
  | Some _ => None
  | None => if js_has already (tn_id c) then jm_get positions (mapped_object mappings (tn_id c))
            else match backfill_key lo hi with inr k => Some k | inl _ => None end
  end.

Fixpoint sibling_keys (lo : option string) (l : list BookmarkTreeNode) : list (option string) :=
  match l with
  | [] => []
  | c :: later => sibling_key lo (next later) c :: sibling_keys (or_else (sibling_key lo (next later) c) lo) later
  end.

(** The object id of a node once it is imported. *)
Definition object_after (E : list Emitted) (n : BookmarkTreeNode) : string :=
  match root (tn_id n) with
  | Some r => r
  | None => if js_has already (tn_id n) then mapped_object mappings (tn_id n)
            else default "" (bf_objectId <$> emitted E (tn_id n))
  end.

(** The new nodes among the siblings [l] have this parent and these keys. *)
Definition family_ok (E : list Emitted) (parent lo : option string) (l : list BookmarkTreeNode) : Prop :=
  forall j c n, l !! j = Some c -> emitted E (tn_id c) = Some n ->
    bp_parent (bf_payload n) = parent /\ sibling_keys lo l !! j = Some (Some (bp_position (bf_payload n))).

Definition emitted_from (nodes : list BookmarkTreeNode) (e : Emitted) : Prop :=
  exists c, c ∈ nodes /\ e.1 = mkMapping (mappingKey MAP_TYPE (tn_id c)) MAP_TYPE (tn_id c) (bf_objectId e.2) /\
    bf_objectType e.2 = bookmarkObjectType c /\ bp_title (bf_payload e.2) = tn_title c /\ bp_url (bf_payload e.2) = tn_url c.

Record imported (E : list Emitted) (nodes : list BookmarkTreeNode) : Prop := {
  im_ids : emitted_ids E = filter fresh_id (map tn_id nodes);
  im_from : Forall (emitted_from nodes) E;
  im_below : forall P, P ∈ nodes -> family_ok E (Some (object_after E P)) None (tn_children P);
}.

Lemma backfill_key_ok lo hi : valid_opt lo -> valid_opt hi ->
  exists k, backfill_key lo hi = inr k /\ valid_key k /\ below lo k /\
    match lo, hi with Some l, Some h => l <s h -> k <s h | None, Some h => k <s h | _, None => True end.
Proof using Type.
  intros Hl Hh. unfold backfill_key. destruct hi as [h|].
  - destruct lo as [l|].
    + destruct (str_ltb l h) eqn:E.
      * destruct (keyBetween_ok (Some l) (Some h)) as (k & ? & ? & ? & ?); [done..|]. exists k. by split_and!.
      * destruct (keyBetween_ok (Some l) None) as (k & ? & ? & ? & ?); [done..|]. exists k. split_and!; try done.
        unfold str_lt. congruence.
    + destruct (keyBetween_ok None (Some h)) as (k & ? & ? & ? & ?); [done..|]. by exists k.
  - destruct (keyBetween_ok lo None) as (k & ? & ? & ? & ?); [done..|by destruct lo|]. exists k. destruct lo; by split_and!.
Qed.

Lemma existing_valid l : valid_opt (next l).
Proof using Hpositions.
  unfold next_existing. induction l as [|c l IH]; [done|]. cbn. unfold existingPositionOf at 1.
  destruct (jm_has rootIds (tn_id c) || negb (js_has already (tn_id c))); [done|].
  destruct (jm_get positions _) as [x|] eqn:E; [|done]. cbn. by apply Hpositions in E.
Qed.

Lemma sibling_key_valid lo hi c : valid_opt lo -> valid_opt hi -> valid_opt (or_else (sibling_key lo hi c) lo).
Proof using Hpositions.
  intros Hl Hh. unfold sibling_key. destruct (root (tn_id c)); [done|].
  destruct (js_has already (tn_id c)).
  - destruct (jm_get positions _) as [x|] eqn:E; [by apply Hpositions in E|done].
  - destruct (backfill_key_ok lo hi Hl Hh) as (k & -> & ? & _). done.
Qed.

(** Siblings that were in order stay so, new ones in between. *)
Lemma sibling_keys_sorted lo l : valid_opt lo ->
  StronglySorted str_lt (omap existing l) -> Forall (below lo) (omap existing l) ->
  StronglySorted str_lt (omap id (sibling_keys lo l)) /\ Forall (below lo) (omap id (sibling_keys lo l)) /\
  Forall valid_key (omap id (sibling_keys lo l)).
Proof using Hpositions Hroots.
  revert lo. induction l as [|c l IH]; intros lo Hlo Hs Hb; cbn [sibling_keys omap list_omap]; [by split_and!; constructor|].
  assert (match existing c with Some x => StronglySorted str_lt (x :: omap existing l) /\ Forall (below lo) (x :: omap existing l)
    | None => StronglySorted str_lt (omap existing l) /\ Forall (below lo) (omap existing l) end) as Hc.
  { cbn in Hs, Hb. by destruct (existing c). }
  set (k := sibling_key lo (next l) c). change (id k) with k.
  assert (match k with
    | Some x => valid_key x /\ below lo x /\ StronglySorted str_lt (omap existing l) /\ Forall (below (Some x)) (omap existing l)
    | None => StronglySorted str_lt (omap existing l) /\ Forall (below lo) (omap existing l) end) as Hk.
  { subst k. unfold sibling_key. pose proof (Hroots (tn_id c)) as Hr.
    assert (existing c = if jm_has rootIds (tn_id c) || negb (js_has already (tn_id c)) then None
                         else jm_get positions (mapped_object mappings (tn_id c))) as Ec by done. rewrite Ec in Hc.
    destruct (root (tn_id c)) as [r|] eqn:Er.
    - unfold is_backfill_root, jm_has in *. destruct (jm_get rootIds (tn_id c)); done.
    - destruct (jm_has rootIds (tn_id c)); [by specialize (Hr eq_refl)|]. destruct (js_has already (tn_id c)); cbn [negb orb] in Hc.
      + destruct (jm_get positions _) as [x|] eqn:Ex; [|done]. destruct Hc as [Hc1 Hc2].
        apply StronglySorted_inv in Hc1 as [? ?]. apply Forall_cons in Hc2 as [? _]. split_and!; try done. by eapply Hpositions.
      + destruct (backfill_key_ok lo (next l) Hlo (existing_valid l)) as (x & -> & Hv & Hlx & Hxh). split_and!; [done..|apply Hc|].
        destruct Hc as [Hc1 Hc2]. unfold next_existing in Hxh. destruct (omap existing l) as [|h hs]; [done|]. cbn in Hxh.
        apply StronglySorted_inv in Hc1 as [_ Hh]. apply Forall_cons in Hc2 as [Hlh _].
        assert (x <s h) by (destruct lo; [by apply Hxh|done]). constructor; [done|].
        eapply Forall_impl; [exact Hh|]. intros y Hy. cbn in *. by trans h. }
  destruct k as [x|].
  - destruct Hk as (Hv & Hlx & Hs' & Hb'). destruct (IH (Some x) Hv Hs' Hb') as (K1 & K2 & K3). split_and!.
    + by constructor.
    + constructor; [done|]. eapply Forall_impl; [exact K2|]. intros y Hy. destruct lo; cbn in *; [by trans x|done].
    + by constructor.
  - destruct Hk as [Hs' Hb']. by apply IH.
Qed.

(** ** The walk *)

Lemma family_ok_ext E E' parent lo l : (forall c, c ∈ l -> emitted E' (tn_id c) = emitted E (tn_id c)) ->
  family_ok E parent lo l -> family_ok E' parent lo l.
Proof using Type.
  intros He Hf j c n Hj Hn. rewrite He in Hn by (by eapply list_elem_of_lookup_2). by apply (Hf j c).
Qed.

Definition closed (nodes : list BookmarkTreeNode) : Prop :=
  forall P c, P ∈ nodes -> c ∈ tn_children P -> tn_id c ∈ map tn_id nodes.

Definition apart (E : list Emitted) (nodes : list BookmarkTreeNode) : Prop :=
  forall i, i ∈ map tn_id nodes -> i ∉ emitted_ids E.

Lemma imported_sub E nodes i : imported E nodes -> i ∈ emitted_ids E -> i ∈ map tn_id nodes.
Proof using Type. intros [-> _ _]. by intros [_ ?]%list_elem_of_filter. Qed.

Lemma apart_l E1 E2 i : i ∉ emitted_ids E1 -> emitted (E1 ++ E2) i = emitted E2 i.
Proof using Type. intros H. by rewrite emitted_app, (emitted_none E1). Qed.
Lemma apart_r E1 E2 i : i ∉ emitted_ids E2 -> emitted (E1 ++ E2) i = emitted E1 i.
Proof using Type. intros H. rewrite emitted_app, (emitted_none E2) by done. by destruct (emitted E1 i). Qed.

Lemma below_ext E E' nodes : closed nodes -> (forall i, i ∈ map tn_id nodes -> emitted E' i = emitted E i) ->
  forall P, P ∈ nodes -> family_ok E (Some (object_after E P)) None (tn_children P) ->
  family_ok E' (Some (object_after E' P)) None (tn_children P).
Proof using Type.
  intros Hc He P HP Hf. assert (object_after E' P = object_after E P) as ->.
  { unfold object_after. rewrite He; [done|by apply list_elem_of_fmap_2]. }
  eapply family_ok_ext; [|exact Hf]. intros c Hin. apply He. by eapply Hc.
Qed.

Lemma imported_app E1 E2 N1 N2 : closed N1 -> closed N2 -> imported E1 N1 -> imported E2 N2 ->
  apart E1 N2 -> apart E2 N1 -> imported (E1 ++ E2) (N1 ++ N2).
Proof using Type.
  intros C1 C2 [I1 F1 B1] [I2 F2 B2] A1 A2. split.
  - transitivity (emitted_ids E1 ++ emitted_ids E2); [apply map_app|]. by rewrite I1, I2, map_app, filter_app.
  - apply Forall_app. split; (eapply Forall_impl; [done|]); intros e (c & Hc & He); exists c; (split; [|done]);
      apply elem_of_app; auto.
  - intros P [HP|HP]%elem_of_app.
    + eapply (below_ext E1 _ N1); [done| |done|by apply B1]. intros i Hi. apply apart_r. by apply A2.
    + eapply (below_ext E2 _ N2); [done| |done|by apply B2]. intros i Hi. apply apart_l. by apply A1.
Qed.

Lemma closed_subnodes c : closed (subnodes c).
Proof using Type. intros P d HP Hd. rewrite subnodes_ids. by eapply subnode_child. Qed.
Lemma closed_concat (l : list BookmarkTreeNode) : closed (concat (map subnodes l)).
Proof using Type.
  intros P d HP Hd. apply list_elem_of_In, in_concat in HP as (x & (c & <- & Hc)%in_map_iff & HP).
  apply list_elem_of_In in HP. pose proof (closed_subnodes c P d HP Hd) as Hin.
  apply list_elem_of_In, in_map_iff in Hin as (y & <- & Hy). apply list_elem_of_In, in_map, in_concat. eauto using in_map.
Qed.
Lemma concat_subnode_ids l : map tn_id (concat (map subnodes l)) = concat (map tree_ids l).
Proof using Type. rewrite concat_map, map_map. f_equal. apply map_ext. apply subnodes_ids. Qed.

(** What one node's walk adds. *)
Definition node_post (E : list Emitted) (parent lo hi : option string) (c : BookmarkTreeNode) (lo' : option string) (s : S) : Prop :=
  lo' = or_else (sibling_key lo hi c) lo /\
  exists E', I (E ++ E') s /\ imported E' (subnodes c) /\
    forall n, emitted E' (tn_id c) = Some n ->
      bp_parent (bf_payload n) = parent /\ sibling_key lo hi c = Some (bp_position (bf_payload n)).

Definition node_spec (c : BookmarkTreeNode) : Prop := forall E parent lo hi,
  valid_opt lo -> valid_opt hi -> NoDup (tree_ids c) ->
  triple (I E) (process_node uuid emit rootIds already mappings positions parent lo hi c) (node_post E parent lo hi c) X.

Lemma process_children_cons parent lo c l :
  process_children uuid emit rootIds already mappings positions parent lo (c :: l) =
  let! lo := process_node uuid emit rootIds already mappings positions parent lo (next l) c in
  process_children uuid emit rootIds already mappings positions parent lo l.
Proof using Type. reflexivity. Qed.

Lemma process_children_spec l : Forall node_spec l -> forall E parent lo, valid_opt lo -> NoDup (concat (map tree_ids l)) ->
  triple (I E) (process_children uuid emit rootIds already mappings positions parent lo l)
    (fun _ s => exists E', I (E ++ E') s /\ imported E' (concat (map subnodes l)) /\ family_ok E' parent lo l) X.
Proof using Hpositions.
  induction 1 as [|c l Hc _ IH]; intros E parent lo Hlo Hnd.
  { apply triple_ret. intros s Hs. exists []. rewrite app_nil_r. split_and!; [done| |by intros j c n; rewrite lookup_nil].
    split; [done|constructor|by intros P ?%not_elem_of_nil]. }
  rewrite process_children_cons. cbn [map concat] in *. apply NoDup_app in Hnd as (Hndc & Hdis & Hndl).
  eapply triple_bind; [apply Hc; [done|apply existing_valid|done]|]. intros lo1 s (-> & E1 & HI & Him & Hown).
  assert (valid_opt (or_else (sibling_key lo (next l) c) lo)) as Hlo1 by (by apply sibling_key_valid; [|apply existing_valid]).
  pose proof (IH (E ++ E1) parent _ Hlo1 Hndl s HI) as Hrest.
  destruct (process_children _ _ _ _ _ _ _ _ l s) as [[e|u] s']; [done|].
  destruct Hrest as (E2 & HI2 & Him2 & Hfam). exists (E1 ++ E2). rewrite app_assoc.
  assert (apart E1 (concat (map subnodes l))) as A1.
  { intros i Hi H1. apply (imported_sub _ _ _ Him) in H1. rewrite subnodes_ids in H1. rewrite concat_subnode_ids in Hi.
    by eapply Hdis. }
  assert (apart E2 (subnodes c)) as A2.
  { intros i Hi H1. apply (imported_sub _ _ _ Him2) in H1. rewrite concat_subnode_ids in H1. rewrite subnodes_ids in Hi.
    by eapply Hdis. }
  split_and!; [done|by apply imported_app; [apply closed_subnodes|apply closed_concat|..]|].
  intros [|j] d n Hj Hn.
  - injection Hj as ->. rewrite apart_r in Hn by (apply A2; rewrite subnodes_ids, tree_ids_unfold; left).
    destruct (Hown n Hn) as [? Hk]. split; [done|]. cbn. by rewrite Hk.
  - cbn in Hj |- *. rewrite apart_l in Hn; [by apply (Hfam j d)|]. apply A1. rewrite concat_subnode_ids.
    by eapply forest_id, list_elem_of_lookup_2.
Qed.

(** The node itself: what it logs, its object id, the running key. *)
Lemma process_self_spec E parent lo hi c : valid_opt lo -> valid_opt hi ->
  triple (I E)
    (match root (tn_id c) with
     | Some r => ret (r, lo)
     | None =>
         if js_has already (tn_id c) then
           ret (mapped_object mappings (tn_id c),
                match jm_get positions (mapped_object mappings (tn_id c)) with Some x => Some x | None => lo end)
         else
           let! own := uuid in
           let! position := kb (backfill_key lo hi) in
           do! emit (mkMapping (mappingKey MAP_TYPE (tn_id c)) MAP_TYPE (tn_id c) own)
                 (mkBackfillNode (bookmarkObjectType c) own (mkBookmarkPayload (tn_title c) (tn_url c) parent position)) in
           ret (own, Some position)
     end)
    (fun step s => step.2 = or_else (sibling_key lo hi c) lo /\
       exists E0, I (E ++ E0) s /\ emitted_ids E0 = filter fresh_id [tn_id c] /\ Forall (emitted_from [c]) E0 /\
         step.1 = object_after E0 c /\
         forall n, emitted E0 (tn_id c) = Some n ->
           bp_parent (bf_payload n) = parent /\ sibling_key lo hi c = Some (bp_position (bf_payload n))) X.
Proof using Huuid Hemit.
  intros Hlo Hhi. rewrite filter_cons. unfold object_after, sibling_key.
  destruct (root (tn_id c)) as [r|] eqn:Er.
  { apply triple_ret. intros s Hs. split; [done|]. exists []. rewrite app_nil_r, decide_False by (intros [??]; congruence). by split_and!. }
  destruct (js_has already (tn_id c)) eqn:Ea.
  { apply triple_ret. intros s Hs. split; [by destruct (jm_get positions _)|]. exists []. rewrite app_nil_r, decide_False by (intros [??]; congruence). by split_and!. }
  rewrite decide_True by done. destruct (backfill_key_ok lo hi Hlo Hhi) as (k & Hk & _). rewrite Hk.
  eapply triple_bind; [apply Huuid|]. intros own.
  eapply triple_bind with (Q := fun x s => x = k /\ F E own s); [intros s Hs; by cbn|]. intros x. apply triple_pure. intros ->.
  eapply triple_bind; [exact (Hemit E (tn_id c) (mkBackfillNode _ own _))|]. intros ?. apply triple_ret. intros s Hs. split; [done|].
  eexists. split; [exact Hs|]. unfold emitted. cbn. rewrite String.eqb_refl. cbn. split_and!; [done| |done|].
  - constructor; [|done]. exists c. split_and!; [left|done..].
  - by intros n [= <-].
Qed.

Lemma process_node_unfold parent lo hi c :
  process_node uuid emit rootIds already mappings positions parent lo hi c =
  let! step :=
    match root (tn_id c) with
    | Some r => ret (r, lo)
    | None =>
        if js_has already (tn_id c) then
          ret (mapped_object mappings (tn_id c),
               match jm_get positions (mapped_object mappings (tn_id c)) with Some x => Some x | None => lo end)
        else
          let! own := uuid in
          let! position := kb (backfill_key lo hi) in
          do! emit (mkMapping (mappingKey MAP_TYPE (tn_id c)) MAP_TYPE (tn_id c) own)
                (mkBackfillNode (bookmarkObjectType c) own (mkBookmarkPayload (tn_title c) (tn_url c) parent position)) in
          ret (own, Some position)
    end in
  do! process_children uuid emit rootIds already mappings positions (Some step.1) None (tn_children c) in ret step.2.
Proof using Type. destruct c. reflexivity. Qed.

Lemma process_node_spec c : node_spec c.
Proof using Huuid Hemit Hpositions.
  induction c as [c IH] using tree_induction. intros E parent lo hi Hlo Hhi Hnd. rewrite process_node_unfold.
  rewrite tree_ids_unfold in Hnd. apply NoDup_cons in Hnd as [Hid Hnd].
  eapply triple_bind; [by apply process_self_spec|]. intros [own lo1] s (Hlo1 & E0 & HI & Hids & Hfrom & Hown & Hself).
  cbn [fst snd] in *. subst own lo1.
  pose proof (process_children_spec _ IH (E ++ E0) (Some (object_after E0 c)) None Logic.I Hnd s HI) as Hrest.
  unfold bind. destruct (process_children _ _ _ _ _ _ _ _ _ s) as [[e|u] s']; [done|].
  destruct Hrest as (E1 & HI1 & Him & Hfam). split; [done|]. exists (E0 ++ E1). rewrite app_assoc.
  assert (apart E0 (concat (map subnodes (tn_children c)))) as A0.
  { intros i Hi H0. rewrite Hids in H0. apply list_elem_of_filter in H0 as [_ ->%list_elem_of_singleton].
    by rewrite concat_subnode_ids in Hi. }
  assert (tn_id c ∉ emitted_ids E1) as Hc1.
  { intros H1. apply (imported_sub _ _ _ Him) in H1. by rewrite concat_subnode_ids in H1. }
  split_and!; [done| |by intros n; rewrite apart_r by done; apply Hself].
  destruct Him as [I1 F1 B1]. rewrite subnodes_unfold. split.
  - transitivity (emitted_ids E0 ++ emitted_ids E1); [apply map_app|]. rewrite Hids, I1. by rewrite <- filter_app.
  - apply Forall_app. split; (eapply Forall_impl; [done|]); intros e (d & Hd & He); exists d; (split; [|done]).
    + by apply list_elem_of_singleton in Hd as ->; left.
    + by right.
  - intros P [->|HP]%elem_of_cons.
    + assert (object_after (E0 ++ E1) c = object_after E0 c) as -> by (unfold object_after; by rewrite apart_r).
      eapply family_ok_ext; [|exact Hfam]. intros d Hd. apply apart_l, A0. rewrite concat_subnode_ids.
      by apply forest_id.
    + eapply (below_ext E1); [apply closed_concat| |done|by apply B1]. intros i Hi. by apply apart_l, A0.
Qed.

(** ** The folder afterwards *)

(** The key of a sibling, old or new. *)
Definition key_after (E : list Emitted) (c : BookmarkTreeNode) : option string :=
  match root (tn_id c) with
  | Some _ => None
  | None => if js_has already (tn_id c) then jm_get positions (mapped_object mappings (tn_id c))
            else bp_position ∘ bf_payload <$> emitted E (tn_id c)
  end.

Lemma emitted_some E i : i ∈ emitted_ids E -> exists n, emitted E i = Some n.
Proof using Type.
  unfold emitted. induction E as [|e E IH]; cbn; [by intros ?%not_elem_of_nil|].
  destruct (String.eqb_spec (chromiumLocalId e.1) i); [eauto|]. intros [->|?]%elem_of_cons; [done|by apply IH].
Qed.

Lemma keys_after E parent lo l : family_ok E parent lo l ->
  (forall c, c ∈ l -> fresh_id (tn_id c) -> tn_id c ∈ emitted_ids E) ->
  sibling_keys lo l = map (key_after E) l.
Proof using Type.
  revert lo. induction l as [|c l IH]; intros lo Hf He; [done|]. cbn. f_equal.
  - unfold key_after, sibling_key. destruct (root (tn_id c)) eqn:Er; [done|]. destruct (js_has already (tn_id c)) eqn:Ea; [done|].
    destruct (emitted_some E (tn_id c)) as [n Hn]; [by apply He; [left|]|].
    destruct (Hf 0%nat c n eq_refl Hn) as [_ Hk]. cbn in Hk. unfold sibling_key in Hk. rewrite Er, Ea in Hk.
    injection Hk as ->. by rewrite Hn.
  - apply IH; [|intros d Hd; apply He; by right]. intros j d n Hj Hn. by apply (Hf (Datatypes.S j) d).
Qed.

Lemma omap_id_map {A B} (f : A -> option B) l : omap id (map f l) = omap f l.
Proof using Type. induction l as [|a l IH]; cbn; [done|]. by rewrite IH. Qed.

(** What importing the tree leaves. *)
Definition backfilled (tree : BookmarkTreeNode) (E : list Emitted) : Prop :=
  emitted_ids E = filter fresh_id (tree_ids tree) /\
  Forall (emitted_from (subnodes tree)) E /\
  forall P, P ∈ subnodes tree ->
    (forall c n, c ∈ tn_children P -> emitted E (tn_id c) = Some n -> bp_parent (bf_payload n) = Some (object_after E P)) /\
    (StronglySorted str_lt (omap existing (tn_children P)) ->
     StronglySorted str_lt (omap (key_after E) (tn_children P)) /\ Forall valid_key (omap (key_after E) (tn_children P))).

Lemma imported_backfilled tree E : imported E (subnodes tree) -> backfilled tree E.
Proof using Hpositions Hroots.
  intros [Hids Hfrom Hbelow]. rewrite subnodes_ids in Hids. split_and!; [done..|]. intros P HP.
  specialize (Hbelow P HP). split.
  - intros c n [j Hj]%list_elem_of_lookup Hn. by destruct (Hbelow j c n Hj Hn).
  - intros Hs. destruct (sibling_keys_sorted None (tn_children P) Logic.I Hs) as (K1 & _ & K3).
    { by apply Forall_forall. }
    assert (omap id (sibling_keys None (tn_children P)) = omap (key_after E) (tn_children P)) as Ekeys.
    { rewrite (keys_after E _ _ _ Hbelow); [apply omap_id_map|]. intros c Hc Hfr. rewrite Hids.
      apply list_elem_of_filter. split; [done|]. by eapply subnode_child. }
    by rewrite Ekeys in K1, K3.
Qed.

Lemma flatten_triple tree : NoDup (tree_ids tree) ->
  triple (I []) (flattenForBackfill uuid emit rootIds already mappings positions tree)
    (fun _ s => exists E, I E s /\ backfilled tree E) X.
Proof using Huuid Hemit Hpositions Hroots.
  intros Hnd. eapply triple_conseq; [|done| |done].
  - apply (process_children_spec [tree] (Forall_cons_2 _ _ _ (process_node_spec tree) (Forall_nil_2 _)) [] None None Logic.I).
    cbn. by rewrite app_nil_r.
  - intros _ s (E & HI & Him & _). exists E. split; [done|]. cbn in Him. rewrite app_nil_r in Him. by apply imported_backfilled.
Qed.
End walk.

#[export] Existing Instance fresh_id_dec.

(** C16. The backfill walk, whatever its [emit] does as long as it logs: for
    recorded positions that are valid keys, it fails only where [uuidv7] or
    [emit] fails; it emits exactly the nodes that are neither roots nor
    mapped already, in the order of the tree, each with its own title and URL
    and under the object id its parent has afterwards; and in every folder
    whose recorded positions were in the browser's order, recorded and new
    positions together are. *)
Theorem flattenForBackfill_spec {S} uuid emit rootIds already mappings positions (I : list Emitted -> S -> Prop)
    (F : list Emitted -> string -> S -> Prop) X tree :
  (forall E, triple (I E) uuid (F E) X) ->
  (forall E i n, let m := mkMapping (mappingKey MAP_TYPE i) MAP_TYPE i (bf_objectId n) in
     triple (F E (bf_objectId n)) (emit m n) (fun _ => I (E ++ [(m, n)])) X) ->
  (forall o x, jm_get positions o = Some x -> valid_key x) ->
  (forall i, jm_has rootIds i = true -> is_backfill_root rootIds i <> None) ->
  NoDup (tree_ids tree) ->
  triple (I []) (flattenForBackfill uuid emit rootIds already mappings positions tree)
    (fun _ s => exists E, I E s /\ backfilled rootIds already mappings positions tree E) X.
Proof. intros Hu He Hp Hr Hnd. by apply (flatten_triple _ _ _ _ _ _ I F). Qed.
