(* ===== verification/BookmarkImportFacts.v ===== *)
(** * The bookmark import is complete

    After [backfillExisting] every node of the browser's tree that is not a
    root is linked to an object: those that were before, as they were, and the
    others with a create in the upload queue and their fields recorded. *)

From S2P Require Import Prelude JsMap Types Util FractionalIndex Storage StorageFacts Maintenance Conflict Crypto Engine EngineKeeps RestorePoints RestorePointsFacts Bookmarks BookmarkReadFacts BookmarkApply BookmarkCapture BookmarkBackfillFacts.

Open Scope Z_scope.
Open Scope js_scope.

(** ** Batched writes *)

Section puts.
Context {A V : Type} (key : A -> string) (val : A -> V).

Lemma lookup_puts l (m : gmap string V) k :
  (k ∉ map key l -> foldl (fun m a => <[key a := val a]> m) m l !! k = m !! k) /\
  (forall a, a ∈ l -> NoDup (map key l) -> k = key a -> foldl (fun m a => <[key a := val a]> m) m l !! k = Some (val a)).
Proof.
  revert m. induction l as [|b l IH]; intros m; cbn; [split; [done|by intros ? ?%not_elem_of_nil]|].
  destruct (IH (<[key b := val b]> m)) as [IH1 IH2]. split.
  - intros [Hb Hl]%not_elem_of_cons. rewrite IH1 by done. by rewrite lookup_insert_ne.
  - intros a [-> | Ha]%elem_of_cons [Hn Hnd]%NoDup_cons ->; [|by apply IH2].
    rewrite IH1 by done. by rewrite lookup_insert_eq.
Qed.
End puts.

(** ** Committing a chunk *)

Section commit.
Context {Srv Br : Type} `{BEnv : BookmarkEnv Br} `{EEnv : EngineEnv Srv (BmApp (Br := Br))}.
Abbreviation World := (World Srv (BmApp (Br := Br))).

(** A create for the object is in the upload queue, under a drawn id. *)
Definition queued_create (w : World) (o : string) (t : ObjectType) : Prop := exists k r, (k < w_entropy w)%nat /\
  pending_operations (w_db w) !! env_uuid k = Some r /\ objectId (operation r) = o /\ objectType (operation r) = t /\
  operationType (operation r) = OpCreate.

Definition recorded (w : World) (n : BackfillNode) : Prop := forall f v, (f, v) ∈ backfill_fields n ->
  exists r, field_state (w_db w) !! fieldStateKey (bf_objectId n) f = Some r /\ fs_value r = v.

Definition committed (w : World) (e : Emitted) : Prop :=
  object_mappings (w_db w) !! om_key e.1 = Some e.1 /\ queued_create w (bf_objectId e.2) (bf_objectType e.2) /\
  recorded w e.2.

Lemma makeOperation_run device sdek a b ip (w : World) : exists op, makeOperation device sdek a b ip w = (inr op, bump_entropy (bump_entropy w)) /\
  operationId op = env_uuid (S (w_entropy w)).
Proof using Type. destruct ip as [i item]. eexists. split; reflexivity. Qed.

Lemma map_m_operations device sdek a b l (w : World) :
  exists ops w', map_m (makeOperation device sdek a b) l w = (inr ops, w') /\
    w_db w' = w_db w /\ w_app w' = w_app w /\ (w_entropy w <= w_entropy w')%nat /\
    (forall op, op ∈ ops -> exists k, (w_entropy w <= k < w_entropy w')%nat /\ operationId op = env_uuid k) /\
    (Inj (=) (=) env_uuid -> NoDup (map operationId ops)).
Proof using Type.
  revert w. induction l as [|ip l IH]; intros w; cbn [map_m].
  { exists [], w. split_and!; [done..|by intros ? ?%not_elem_of_nil|constructor]. }
  destruct (makeOperation_run device sdek a b ip w) as (op & Hop & Hid). unfold bind. rewrite Hop.
  destruct (IH (bump_entropy (bump_entropy w))) as (ops & w' & -> & Hdb & Happ & He & Hids & Hnd). cbn in *.
  exists (op :: ops), w'. split_and!; [done..|lia| |].
  - intros x [->|Hx]%elem_of_cons; [exists (S (w_entropy w)); split; [lia|done]|].
    destruct (Hids x Hx) as (k & ? & ?). exists k. split; [lia|done].
  - intros Hinj. apply NoDup_cons. split; [|by apply Hnd]. intros (y & E & Hy)%list_elem_of_fmap.
    destruct (Hids y Hy) as (k & ? & E'). rewrite Hid, E' in E. apply Hinj in E. lia.
Qed.

(** Outside the counters the database is as it was. *)
Record same_stores (w w' : World) : Prop := {
  ss_device : db_device (w_db w') = db_device (w_db w);
  ss_pending : pending_operations (w_db w') = pending_operations (w_db w);
  ss_mappings : object_mappings (w_db w') = object_mappings (w_db w);
  ss_fields : field_state (w_db w') = field_state (w_db w);
  ss_app : w_app w' = w_app w;
  ss_entropy : (w_entropy w <= w_entropy w')%nat;
}.

Lemma create_unqueued items (w w' : World) created : createLocalOperationsBatch items false w = (inr created, w') ->
  same_stores w w' /\ Forall2 created_for items created /\
  (forall cd, cd ∈ created -> exists k, (w_entropy w <= k < w_entropy w')%nat /\ operationId cd.1 = env_uuid k) /\
  (Inj (=) (=) env_uuid -> NoDup (map (operationId ∘ fst) created)).
Proof using Type.
  intros H. enough (same_stores w w' /\
    (forall cd, cd ∈ created -> exists k, (w_entropy w <= k < w_entropy w')%nat /\ operationId cd.1 = env_uuid k) /\
    (Inj (=) (=) env_uuid -> NoDup (map (operationId ∘ fst) created))) as (? & ? & ?).
  { split_and!; [done| |done..]. pose proof (createLocalOperationsBatch_created items false w) as Hc. by rewrite H in Hc. }
  unfold createLocalOperationsBatch in H. destruct items as [|i items].
  { unfold ret in H. injection H as H0 H1. subst. split_and!; [by split|by intros ? ?%not_elem_of_nil|constructor]. }
  set (its := indexed_from _ _) in H. bok H Hd. unfold db_read in Hd. injection Hd as <- <-.
  destruct (db_device (w_db w)) as [device|]; [|discriminate H]. bok H Hr.
  unfold db_run in Hr. injection Hr as <- <-. bok H Hk.
  unfold getSdekM in Hk. destruct (getSdek _ _ _ _) as [[sdek cache]|]; [|discriminate Hk]. injection Hk as <- <-.
  bok H Hm. unfold bind, ret in H. injection H as H0 H1. subst created x0.
  match type of Hm with map_m (makeOperation _ _ ?a ?b) _ ?w1 = _ =>
    destruct (map_m_operations device sdek a b its w1) as (ops & w2 & E & Hdb & Happ & He & Hids & Hnd) end.
  rewrite E in Hm. injection Hm as H0 H1. subst x w2. split_and!.
  - by split; rewrite ?Hdb.
  - intros cd (op & -> & Hop)%list_elem_of_fmap. by apply Hids.
  - intros Hi. rewrite map_map. by apply Hnd.
Qed.

(** *** The stores after a commit *)

Definition fs_record_key (r : FieldStateRecord) : string := fieldStateKey (fs_objectId r) (fs_field r).
Definition stored_state (now : Z) (r : FieldStateRecord) : FieldStateRecord :=
  mkFieldState (fs_record_key r) (fs_objectId r) (fs_field r) (fs_lamportTimestamp r) (fs_deviceId r)
    (fs_operationId r) (fs_operationType r) (fs_value r) (Some now).

Lemma commit_stores b createdAt now s : let s' := commitBookmarkBackfillBatch b createdAt now s in
  db_device s' = db_device s /\
  object_mappings s' = foldl (fun m r => <[om_key r := r]> m) (object_mappings s) (bb_mappings b) /\
  pending_operations s' = foldl (fun m op => <[operationId op := queued op createdAt]> m) (pending_operations s) (bb_operations b) /\
  field_state s' = foldl (fun m r => <[fs_record_key r := stored_state now r]> m) (field_state s) (bb_fieldStates b).
Proof using Type.
  unfold commitBookmarkBackfillBatch. destruct b as [ms os fs]. cbn [bb_mappings bb_operations bb_fieldStates].
  destruct ms, os, fs; [done|..]; split_and!; cbn [db_device object_mappings pending_operations field_state set_field_state set_pending set_mappings];
    by rewrite ?putAllChunked_map.
Qed.

Lemma backfill_state_keys created (p : Pending) : length created = length p ->
  map fs_record_key (concat (zip_with backfill_states created (map snd p))) =
  concat (map (fun e => map (fieldStateKey (bf_objectId e.2)) FIELDS) p).
Proof using Type.
  revert created. induction p as [|e p IH]; intros [|cd created]; cbn; try done. intros [= E]. by rewrite IH.
Qed.

Lemma field_keys_nodup (p : Pending) : NoDup (map (fun e => bf_objectId e.2) p) ->
  NoDup (concat (map (fun e => map (fieldStateKey (bf_objectId e.2)) FIELDS) p)).
Proof using Type.
  induction p as [|e p IH]; cbn [map concat]; [constructor|]. intros [Hn Hnd]%NoDup_cons. apply NoDup_app. split_and!; [| |by apply IH].
  - apply NoDup_fmap_2_strong; [|apply (bool_decide_unpack _); vm_compute; exact I].
    intros f g Hf Hg E. by apply fieldStateKey_inj in E as [_ ?].
  - intros k (f & -> & Hf)%list_elem_of_fmap Hk. apply list_elem_of_In, in_concat in Hk as (l & (e' & <- & He')%in_map_iff & Hk).
    apply in_map_iff in Hk as (g & E & Hg). apply list_elem_of_In in Hg, He'. apply fieldStateKey_inj in E as [E _]; [|done..].
    apply Hn. rewrite <- E. by apply (list_elem_of_fmap_2 (fun e => bf_objectId e.2)).
Qed.

Lemma backfill_states_elem created (p : Pending) e f v : length created = length p -> e ∈ p -> (f, v) ∈ backfill_fields e.2 ->
  exists r, r ∈ concat (zip_with backfill_states created (map snd p)) /\ fs_record_key r = fieldStateKey (bf_objectId e.2) f /\ fs_value r = v.
Proof using Type.
  revert created. induction p as [|e' p IH]; intros [|cd created]; cbn [zip_with map concat length]; try done; [by intros _ ?%not_elem_of_nil|].
  intros [= E] [->|He]%elem_of_cons Hf.
  - eexists. split; [apply elem_of_app; left; by eapply (list_elem_of_fmap_2 _ _ (f, v))|]. done.
  - destruct (IH created E He Hf) as (r & Hr & ?). exists r. split; [apply elem_of_app; by right|done].
Qed.

(** Everything of a chunk is written at once, and nothing else. *)
Lemma commit_chunk (p : Pending) created (createdAt : string) (now : Z) (w : World) :
  Forall2 created_for (map (fun e => pending_of_backfill e.2) p) created ->
  (forall cd, cd ∈ created -> exists k, (k < w_entropy w)%nat /\ operationId cd.1 = env_uuid k) ->
  NoDup (map (operationId ∘ fst) created) ->
  NoDup (map (fun e => om_key e.1) p) -> NoDup (map (fun e => bf_objectId e.2) p) ->
  let w' := set_db (commitBookmarkBackfillBatch (mkBackfill (map fst p) (map fst created)
              (concat (zip_with backfill_states created (map snd p)))) createdAt now (w_db w)) w in
  db_device (w_db w') = db_device (w_db w) /\
  Forall (committed w') p /\
  (forall k, k ∉ map (fun e => om_key e.1) p -> object_mappings (w_db w') !! k = object_mappings (w_db w) !! k) /\
  (forall id, id ∉ map (operationId ∘ fst) created -> pending_operations (w_db w') !! id = pending_operations (w_db w) !! id) /\
  (forall o f, f ∈ FIELDS -> o ∉ map (fun e => bf_objectId e.2) p ->
     field_state (w_db w') !! fieldStateKey o f = field_state (w_db w) !! fieldStateKey o f).
Proof using Type.
  intros Hc Hids Hnop Hnk Hno w'.
  assert (length created = length p) as Hlen by (apply Forall2_length in Hc; by rewrite length_map in Hc).
  pose proof (commit_stores (mkBackfill (map fst p) (map fst created) (concat (zip_with backfill_states created (map snd p))))
    createdAt now (w_db w)) as Hst. cbn zeta in Hst. cbn [bb_mappings bb_operations bb_fieldStates] in Hst. subst w'.
  cbn [w_db w_entropy set_db]. destruct Hst as (-> & Em & Ep & Ef).
  set (s' := commitBookmarkBackfillBatch _ _ _ _) in *.
  assert (map fs_record_key (concat (zip_with backfill_states created (map snd p))) =
    concat (map (fun e => map (fieldStateKey (bf_objectId e.2)) FIELDS) p)) as Hkeys by by apply backfill_state_keys.
  assert (map om_key (map fst p) = map (fun e => om_key e.1) p) as Hmk by apply map_map.
  split_and!; [done| | | |].
  - apply Forall_forall. intros e He. split_and!.
    + cbn [w_db set_db]. rewrite Em. destruct (lookup_puts om_key id (map fst p) (object_mappings (w_db w)) (om_key e.1)) as [_ Hl].
      apply (Hl e.1); [by apply list_elem_of_fmap_2|by rewrite Hmk|done].
    + apply list_elem_of_lookup in He as [i Hi].
      destruct (Forall2_lookup_l _ _ _ i (pending_of_backfill e.2) Hc) as (cd & Hcd & Ht & Ho & Hop).
      { pose proof (list_lookup_fmap (fun e : Emitted => pending_of_backfill e.2) p i) as El.
        unfold Pending, Emitted in *. rewrite Hi in El. exact El. }
      apply list_elem_of_lookup_2 in Hcd. destruct (Hids cd Hcd) as (k & Hk & Eid).
      exists k, (queued cd.1 createdAt). split_and!; [done| |done..]. cbn [w_db set_db]. rewrite Ep.
      destruct (lookup_puts operationId (fun op => queued op createdAt) (map fst created) (pending_operations (w_db w)) (env_uuid k)) as [_ Hl].
      apply (Hl cd.1); [by apply list_elem_of_fmap_2|by rewrite map_map|done].
    + intros f v Hf. destruct (backfill_states_elem created p e f v Hlen He Hf) as (r & Hr & Ek & Ev).
      exists (stored_state now r). split; [|done]. cbn [w_db set_db]. rewrite Ef.
      destruct (lookup_puts fs_record_key (stored_state now) (concat (zip_with backfill_states created (map snd p))) (field_state (w_db w)) (fieldStateKey (bf_objectId e.2) f)) as [_ Hl].
      apply (Hl r); [done| |done]. rewrite Hkeys. by apply field_keys_nodup.
  - intros k Hk. rewrite Em. apply (lookup_puts om_key id). by rewrite Hmk.
  - intros i Hi. rewrite Ep. apply (lookup_puts operationId (fun op => queued op createdAt)). by rewrite map_map.
  - intros o f Hf Ho. rewrite Ef. apply (lookup_puts fs_record_key (stored_state now)). rewrite Hkeys.
    intros Hin. apply Ho. apply list_elem_of_In, in_concat in Hin as (l & (e & <- & He)%in_map_iff & Hin).
    apply in_map_iff in Hin as (g & E & Hg). apply list_elem_of_In in Hg, He. apply fieldStateKey_inj in E as [<- _]; [|done..].
    by apply (list_elem_of_fmap_2 (fun e => bf_objectId e.2)).
Qed.

(** *** The log of the import *)

Abbreviation BackState := (World * Pending)%type.
Hypothesis Hop_ids : Inj (=) (=) env_uuid.
Hypothesis Hobject_ids : Inj (=) (=) be_uuid.

Definition objects (E : list Emitted) : list string := map (fun e => bf_objectId e.2) E.
Definition keyed (e : Emitted) : Prop :=
  e.1 = mkMapping (mappingKey MAP_TYPE (chromiumLocalId e.1)) MAP_TYPE (chromiumLocalId e.1) (bf_objectId e.2).

(** The mappings the import found. *)
Variable found : gmap string ObjectMappingRecord.

(** All but a last part of the log, which waits, is committed. *)
Record logged (E : list Emitted) (s : BackState) : Prop := {
  lg_device : db_device (w_db s.1) <> None;
  lg_keyed : Forall keyed E;
  lg_objects : NoDup (objects E);
  lg_drawn : forall o, o ∈ objects E -> exists k, (k < ba_entropy (w_app s.1))%nat /\ o = be_uuid k;
  lg_committed : exists E0, E = E0 ++ s.2 /\ (NoDup (emitted_ids E) -> Forall (committed s.1) E0);
  lg_others : forall i, i ∉ emitted_ids E ->
    object_mappings (w_db s.1) !! mappingKey MAP_TYPE i = found !! mappingKey MAP_TYPE i;
}.

Definition drawn_for (E : list Emitted) (o : string) (s : BackState) : Prop :=
  logged E s /\ (o ∉ objects E) /\ exists k, (k < ba_entropy (w_app s.1))%nat /\ o = be_uuid k.

Lemma keyed_keys E : Forall keyed E -> map (fun e => om_key e.1) E = map (mappingKey MAP_TYPE) (emitted_ids E).
Proof using Type.
  intros H. unfold emitted_ids. rewrite map_map. apply map_ext_in. intros e He%list_elem_of_In.
  rewrite Forall_forall in H. apply H in He. by rewrite He.
Qed.

Lemma keyed_nodup E : Forall keyed E -> NoDup (emitted_ids E) -> NoDup (map (fun e => om_key e.1) E).
Proof using Type. intros Hk Hn. rewrite keyed_keys by done. apply NoDup_fmap_2; [|done]. intros i j. apply mappingKey_inj. Qed.

Lemma committed_mono (w w' : World) e : (w_entropy w <= w_entropy w')%nat ->
  object_mappings (w_db w') !! om_key e.1 = object_mappings (w_db w) !! om_key e.1 ->
  (forall k, (k < w_entropy w)%nat -> pending_operations (w_db w') !! env_uuid k = pending_operations (w_db w) !! env_uuid k) ->
  (forall f, f ∈ FIELDS -> field_state (w_db w') !! fieldStateKey (bf_objectId e.2) f = field_state (w_db w) !! fieldStateKey (bf_objectId e.2) f) ->
  committed w e -> committed w' e.
Proof using Type.
  intros He Hm Hp Hf (C1 & (k & r & Hk & C2 & C3) & C4). split_and!.
  - by rewrite Hm.
  - exists k, r. split_and!; [lia|by rewrite Hp|apply C3..].
  - intros f v Hin. destruct (C4 f v Hin) as (x & Hx & Ev). exists x. rewrite Hf; [done|].
    unfold FIELDS. rewrite !elem_of_cons. unfold backfill_fields in Hin. rewrite !elem_of_cons, elem_of_nil in Hin.
    destruct Hin as [[= -> _]|[[= -> _]|[[= -> _]|[[= -> _]|[]]]]]; auto.
Qed.

(** Steps that leave the stores alone keep the log. *)
Lemma logged_same E (w w' : World) p : db_device (w_db w') = db_device (w_db w) ->
  pending_operations (w_db w') = pending_operations (w_db w) -> object_mappings (w_db w') = object_mappings (w_db w) ->
  field_state (w_db w') = field_state (w_db w) -> (w_entropy w <= w_entropy w')%nat ->
  (ba_entropy (w_app w) <= ba_entropy (w_app w'))%nat -> logged E (w, p) -> logged E (w', p).
Proof using Type.
  intros Ed Ep Em Ef He Ha [H1 H2 H3 H4 H5 H6]. cbn in *. split; cbn; rewrite ?Ed, ?Em; try done.
  - intros o Ho. destruct (H4 o Ho) as (k & ? & ?). exists k. split; [lia|done].
  - destruct H5 as (E0 & -> & Hc). exists E0. split; [done|]. intros Hn. eapply Forall_impl; [exact (Hc Hn)|].
    intros e. apply committed_mono; [done|by rewrite Em|by intros; rewrite Ep|by intros; rewrite Ef].
Qed.

Lemma logged_draw E : triple (logged E) (engine_step (adapter (draw be_uuid))) (drawn_for E) (fun _ _ => True).
Proof using Hobject_ids.
  intros [w p] H. unfold engine_step, adapter, draw. cbn [fst snd]. split_and!.
  - eapply logged_same; [..|exact H]; cbn; try done; lia.
  - intros Hin. destruct (lg_drawn _ _ H _ Hin) as (k & Hk & E'). apply Hobject_ids in E'. cbn in Hk. lia.
  - eexists. split; [|done]. cbn. lia.
Qed.

Lemma logged_push E i n (s : BackState) : let m := mkMapping (mappingKey MAP_TYPE i) MAP_TYPE i (bf_objectId n) in
  drawn_for E (bf_objectId n) s -> logged (E ++ [(m, n)]) (s.1, s.2 ++ [(m, n)]).
Proof using Type.
  intros m ([H1 H2 H3 H4 H5 H6] & Hn & Hk). split; cbn; try done.
  - apply Forall_app. split; [done|]. by constructor.
  - unfold objects in *. rewrite map_app. apply NoDup_app. split_and!; [done| |by apply NoDup_singleton].
    intros o Ho ->%list_elem_of_singleton. done.
  - unfold objects. rewrite map_app. intros o [Ho| ->%list_elem_of_singleton]%elem_of_app; auto.
  - destruct H5 as (E0 & -> & Hc). exists E0. rewrite app_assoc. split; [done|]. unfold emitted_ids. rewrite map_app.
    intros [Hnd _]%NoDup_app. by apply Hc.
  - unfold emitted_ids. rewrite map_app. intros j [Hj _]%not_elem_of_app. by apply H6.
Qed.

Lemma commit_engine (p : Pending) (w w' : World) : p <> [] ->
  (let! created := createLocalOperationsBatch (map (fun e => pending_of_backfill e.2) p) false in
   let! createdAt := iso_next in
   let! now := now_next in
   db_update (commitBookmarkBackfillBatch
     (mkBackfill (map fst p) (map fst created) (concat (zip_with backfill_states created (map snd p)))) createdAt now)) w
    = (inr tt, w') ->
  exists created w1 createdAt now, same_stores w w1 /\ Forall2 created_for (map (fun e => pending_of_backfill e.2) p) created /\
    (forall cd, cd ∈ created -> exists k, (w_entropy w <= k < w_entropy w1)%nat /\ operationId cd.1 = env_uuid k) /\
    NoDup (map (operationId ∘ fst) created) /\
    w' = set_db (commitBookmarkBackfillBatch (mkBackfill (map fst p) (map fst created)
           (concat (zip_with backfill_states created (map snd p)))) createdAt now (w_db w1)) w1.
Proof using Hop_ids.
  intros Hp H. bok H Hc. apply create_unqueued in Hc as (Hs & Hf & Hi & Hn).
  unfold bind, iso_next, now_next, fresh, db_update, modify in H. injection H as <-.
  eexists x, (bump_entropy (bump_entropy x0)), _, _. split_and!; [|done| |by apply Hn|done].
  - destruct Hs. split; cbn; try done. lia.
  - intros cd Hcd. destruct (Hi cd Hcd) as (k & ? & ?). exists k. split; [cbn; lia|done].
Qed.

Lemma logged_commit E (p : Pending) (w w1 : World) created createdAt now :
  logged E (w, p) -> same_stores w w1 -> Forall2 created_for (map (fun e => pending_of_backfill e.2) p) created ->
  (forall cd, cd ∈ created -> exists k, (w_entropy w <= k < w_entropy w1)%nat /\ operationId cd.1 = env_uuid k) ->
  NoDup (map (operationId ∘ fst) created) ->
  logged E (set_db (commitBookmarkBackfillBatch (mkBackfill (map fst p) (map fst created)
    (concat (zip_with backfill_states created (map snd p)))) createdAt now (w_db w1)) w1, []).
Proof using Hop_ids.
  intros [H1 H2 H3 H4 (E0 & -> & Hc) H6] [S1 S2 S3 S4 S5 S6] Hf Hi Hn. cbn [fst snd] in *.
  apply Forall_app in H2 as [K0 Kp]. unfold objects in H3. rewrite map_app in H3. apply NoDup_app in H3 as (N0 & Ndis & Np).
  assert (forall w', db_device (w_db w') = db_device (w_db w1) -> w_app w' = w_app w1 ->
    (NoDup (emitted_ids (E0 ++ p)) -> Forall (committed w') (E0 ++ p)) ->
    (forall i, i ∉ emitted_ids (E0 ++ p) -> object_mappings (w_db w') !! mappingKey MAP_TYPE i = found !! mappingKey MAP_TYPE i) ->
    logged (E0 ++ p) (w', [])) as Hfin.
  { intros w' E1 E2 C O. split; cbn; rewrite ?E1, ?E2, ?S1, ?S5; try done.
    - by apply Forall_app.
    - unfold objects. rewrite map_app. by apply NoDup_app.
    - exists (E0 ++ p). rewrite app_nil_r. by split. }
  destruct (decide (NoDup (emitted_ids (E0 ++ p)))) as [Hnd|Hnd].
  - pose proof Hnd as Hnd'. unfold emitted_ids in Hnd'. rewrite map_app in Hnd'. apply NoDup_app in Hnd' as (D0 & Ddis & Dp).
    destruct (commit_chunk p created createdAt now w1) as (C1 & C2 & C3 & C4 & C5); [done| |done|by apply keyed_nodup|done|].
    { intros cd Hcd. destruct (Hi cd Hcd) as (k & ? & ?). exists k. split; [lia|done]. }
    apply Hfin; [done|done| |].
    + intros _. apply Forall_app. split; [|done]. rewrite Forall_forall in *. intros e He. specialize (Hc Hnd e He).
      eapply committed_mono; [..|exact Hc]; [cbn; lia| | |].
      * rewrite C3, S3; [done|]. rewrite keyed_keys by (by apply Forall_forall). rewrite (K0 e He). cbn.
        intros (i & E' & Hin)%list_elem_of_fmap. apply mappingKey_inj in E'. subst i. eapply Ddis; [|exact Hin].
        by apply (list_elem_of_fmap_2 (fun e : Emitted => chromiumLocalId e.1)).
      * intros k Hk. rewrite C4, S2; [done|]. intros (cd & E' & Hcd)%list_elem_of_fmap.
        destruct (Hi cd Hcd) as (k' & Hk' & Eid). cbn in E'. rewrite Eid in E'. apply Hop_ids in E'. lia.
      * intros f Hff. rewrite C5, S4; [done|done|]. apply Ndis. by apply (list_elem_of_fmap_2 (fun e : Emitted => bf_objectId e.2)).
    + intros i Hin. rewrite C3, S3; [by apply H6|]. rewrite keyed_keys by done. intros (j & E' & Hj)%list_elem_of_fmap.
      apply mappingKey_inj in E'. subst j. apply Hin. unfold emitted_ids. rewrite map_app. apply elem_of_app. by right.
  - pose proof (commit_stores (mkBackfill (map fst p) (map fst created) (concat (zip_with backfill_states created (map snd p))))
      createdAt now (w_db w1)) as (C1 & C2 & _). apply Hfin; [done|done|done|]. intros i Hin. cbn [w_db set_db]. rewrite C2, <- S3 in *.
    rewrite <- (H6 i Hin). rewrite S3. apply (lookup_puts om_key id). cbn [bb_mappings]. rewrite map_map.
    change (mappingKey MAP_TYPE i ∉ map (fun e => om_key e.1) p). rewrite keyed_keys by done.
    intros (j & E' & Hj)%list_elem_of_fmap. apply mappingKey_inj in E'. subst j. apply Hin. unfold emitted_ids. rewrite map_app.
    apply elem_of_app. by right.
Qed.

Lemma logged_flush E : triple (logged E) flushBackfillChunk (fun _ s => logged E s /\ s.2 = []) (fun _ _ => True).
Proof using Hop_ids.
  intros [w p] H. unfold flushBackfillChunk, bind at 1. cbn [fst snd]. destruct p as [|e0 p0] eqn:Ep; [done|]. rewrite <- Ep in *.
  assert (p <> []) as Hp by by rewrite Ep. clear Ep e0 p0.
  unfold bind at 1, engine_step at 1, db_read. cbn [fst snd]. unfold bind at 1, modify at 1. cbn [fst snd].
  destruct (db_device (w_db w)) as [d|] eqn:Ed; [|by destruct (lg_device _ _ H)].
  unfold engine_step. cbn [fst snd].
  destruct (bind _ _ w) as [[e|[]] w'] eqn:Ec; [done|].
  apply commit_engine in Ec as (created & w1 & createdAt & now & Hs & Hf & Hi & Hn & ->); [|done].
  split; [|done]. by eapply logged_commit.
Qed.

Lemma logged_emit E i n : let m := mkMapping (mappingKey MAP_TYPE i) MAP_TYPE i (bf_objectId n) in
  triple (drawn_for E (bf_objectId n)) (emit_backfill m n) (fun _ => logged (E ++ [(m, n)])) (fun _ _ => True).
Proof using Hop_ids.
  intros m s Hs. unfold emit_backfill, bind at 1, modify. pose proof (logged_push E i n s Hs) as Hl. fold m in Hl.
  unfold bind. cbn [fst snd]. destruct (Nat.leb _ _); [|done].
  pose proof (logged_flush _ _ Hl) as Hf. destruct (flushBackfillChunk _) as [[e|[]] s']; [done|]. apply Hf.
Qed.
End commit.

(** ** The import *)

(** A node mapped by a completed write: its object has a "move" state. *)
Definition settled (db : DB) (i : string) : Prop := exists r,
  object_mappings db !! mappingKey MAP_TYPE i = Some r /\ field_state db !! fieldStateKey (om_objectId r) "move" <> None.

Section import.
Context (db : DB).
Let rawMapped := default [] (getMappedChromiumIdsByType MAP_TYPE db).
Let mappings := getMappingsByLocalIds MAP_TYPE rawMapped db.
Let moveStates := getFieldStatesForObjects (map om_objectId (jm_values mappings)) "move" db.

Lemma settled_mappings_iff i : mappings_wf db -> js_has (settled_mappings mappings moveStates) i = true <-> settled db i.
Proof using Type.
  intros Hwf. destruct (getMapped_total MAP_TYPE db) as (ids & Hids & Hin).
  assert (forall j, jm_get mappings j = object_mappings db !! mappingKey MAP_TYPE j) as Hget.
  { intros j. unfold mappings, rawMapped. rewrite getMappingsByLocalIds_get, Hids. cbn. case_decide as Hj; [done|].
    destruct (_ !! _) as [r|] eqn:E; [|done]. destruct Hj. apply Hin. exists (mappingKey MAP_TYPE j), r.
    pose proof (Hwf _ _ E) as K. pose proof (mappingKey_type_inj _ _ _ _ K) as Et. rewrite <- Et in K.
    apply mappingKey_inj in K. by split_and!. }
  assert (forall j r, jm_get mappings j = Some r -> jm_get moveStates (om_objectId r) = field_state db !! fieldStateKey (om_objectId r) "move") as Hmove.
  { intros j r E. unfold moveStates. rewrite getFieldStatesForObjects_get, decide_True; [done|].
    apply list_elem_of_fmap_2. apply jm_get_Some_elem in E. by apply (list_elem_of_fmap_2 snd) in E. }
  unfold js_has, settled_mappings. rewrite bool_decide_eq_true, js_of_list_elem. split.
  - intros ([j r] & -> & [Hhas Hr]%list_elem_of_filter)%list_elem_of_fmap. apply (jm_get_elem _ _ _ (getMappingsByLocalIds_wf _ _ _)) in Hr.
    cbn [fst snd] in *. exists r. split; [by rewrite <- Hget|]. rewrite <- (Hmove j r Hr). unfold jm_has in Hhas.
    by destruct (jm_get moveStates _).
  - intros (r & Hr & Hm). rewrite <- Hget in Hr. apply (list_elem_of_fmap_2 fst _ (i, r)). apply list_elem_of_filter. split.
    + cbn. unfold jm_has. rewrite (Hmove i r Hr). by destruct (field_state db !! _).
    + by apply jm_get_Some_elem.
Qed.

Lemma recorded_positions_valid : (forall o x, recorded_position db o = Some x -> x = "" \/ valid_key x) ->
  forall o x, jm_get (recorded_positions moveStates) o = Some x -> valid_key x.
Proof using Type.
  intros Hv. unfold recorded_positions.
  assert (forall l m, (forall o x, jm_get m o = Some x -> valid_key x) ->
    (forall kv, kv ∈ l -> kv ∈ moveStates) ->
    forall o x, jm_get (foldl (fun m kv => match truthy_str (position_of_state (Some kv.2)) with
      Some x => jm_set m kv.1 x | None => m end) m l) o = Some x -> valid_key x) as H.
  { induction l as [|[o' r] l IH]; intros m Hm Hl; cbn [foldl]; [done|]. apply IH; [|intros; apply Hl; by right].
    destruct (truthy_str _) as [y|] eqn:Ey; [|done]. intros o x. rewrite jm_get_set. case_decide; [|apply Hm]. intros [= <-].
    apply truthy_str_ne in Ey as [Ey Hne]. destruct (Hv o' y) as [->|]; [|done..]. unfold recorded_position.
    specialize (Hl (o', r) ltac:(left)). apply (jm_get_elem _ _ _ (getFieldStatesForObjects_wf _ _ _)) in Hl.
    unfold moveStates in Hl. rewrite getFieldStatesForObjects_get in Hl. case_decide; [|done]. by rewrite Hl. }
  apply H; [|done]. intros o x. by cbn.
Qed.
End import.

(** The walk and its last flush. *)
Lemma import_walk {Srv Br} `{BEnv : BookmarkEnv Br} `{EEnv : EngineEnv Srv (BmApp (Br := Br))}
    (w w' : World Srv (BmApp (Br := Br))) rootIds already mappings positions tree s :
  Inj (=) (=) env_uuid -> Inj (=) (=) be_uuid -> NoDup (tree_ids tree) -> db_device (w_db w) <> None ->
  (forall o x, jm_get positions o = Some x -> valid_key x) ->
  (forall i, jm_has rootIds i = true -> is_backfill_root rootIds i <> None) ->
  (do! flattenForBackfill (engine_step (adapter (draw be_uuid))) emit_backfill rootIds already mappings positions tree in
   flushBackfillChunk) (w, []) = (inr tt, (w', s)) ->
  exists E, logged (object_mappings (w_db w)) E (w', []) /\ backfilled rootIds already mappings positions tree E.
Proof.
  intros Hop Hobj Hnd Hdev Hpos Hroots H.
  assert (logged (object_mappings (w_db w)) [] (w, [])) as H0.
  { split; cbn; try done; [constructor|by intros ? ?%not_elem_of_nil|]. exists []. split; [done|constructor]. }
  pose proof (flatten_triple _ _ rootIds already mappings positions _ _ _ (logged_draw Hobj _) (logged_emit Hop _)
    Hpos Hroots tree Hnd _ H0) as Ht.
  bok H E. rewrite E in Ht. destruct Ht as (L & HL & Hb). pose proof (logged_flush Hop _ L _ HL) as Hf.
  rewrite H in Hf. destruct Hf as [Hf Es]. cbn in Es. subst s. by exists L.
Qed.

Lemma same_node tree c d : NoDup (tree_ids tree) -> c ∈ subnodes tree -> d ∈ subnodes tree -> tn_id c = tn_id d -> c = d.
Proof.
  rewrite <- subnodes_ids. intros Hnd [i Hi]%list_elem_of_lookup [j Hj]%list_elem_of_lookup E.
  assert (i = j) as ->; [|congruence]. eapply (NoDup_lookup _ i j (tn_id c) Hnd).
  - change (map tn_id ?l) with (tn_id <$> l). by rewrite list_lookup_fmap, Hi.
  - change (map tn_id ?l) with (tn_id <$> l). by rewrite list_lookup_fmap, Hj, E.
Qed.

(** C7. When [backfillExisting] finishes, every bookmark and folder of the
    browser that is not a root is part of the account: one that was settled
    before keeps its mapping, and every other is mapped to an object with this
    title and URL, whose create is in the upload queue and whose title, url,
    move and liveness fields are recorded: the three are never apart. *)
Theorem backfillExisting_complete {Srv Br} `{BEnv : BookmarkEnv Br} `{EEnv : EngineEnv Srv (BmApp (Br := Br))}
    fetchSettings flushQueues (w w0 w1 w2 w' : World Srv (BmApp (Br := Br))) roots tree :
  Inj (=) (=) env_uuid -> Inj (=) (=) be_uuid ->
  isBookmarkSyncEnabled fetchSettings w = (inr true, w0) -> flushQueues w0 = (inr tt, w1) ->
  adapter bookmarkRoots w1 = (inr roots, w2) ->
  getTree (ba_browser (w_app w2)) = Some tree -> NoDup (tree_ids tree) ->
  Forall (fun kv => kv.2 ∈ ROOT_IDS) (objectIdByChromiumId roots) ->
  db_device (w_db w2) <> None -> mappings_wf (w_db w2) ->
  (forall o x, recorded_position (w_db w2) o = Some x -> x = "" \/ valid_key x) ->
  backfillExisting fetchSettings flushQueues w = (inr tt, w') ->
  forall c, c ∈ subnodes tree -> root_of roots (tn_id c) = None ->
    (settled (w_db w2) (tn_id c) -> object_mappings (w_db w') !! mappingKey MAP_TYPE (tn_id c) =
                                    object_mappings (w_db w2) !! mappingKey MAP_TYPE (tn_id c)) /\
    (~ settled (w_db w2) (tn_id c) -> exists n, emitted_from [c] (mkMapping (mappingKey MAP_TYPE (tn_id c)) MAP_TYPE (tn_id c) (bf_objectId n), n) /\
       committed w' (mkMapping (mappingKey MAP_TYPE (tn_id c)) MAP_TYPE (tn_id c) (bf_objectId n), n)).
Proof.
  intros Hop Hobj Hen Hfl Hro Htree Hnd Hroots Hdev Hwf Hpos H c Hc Hroot.
  unfold backfillExisting in H. bok H E. rewrite Hen in E. injection E as <- <-. cbn [negb] in H.
  bok H E. rewrite Hfl in E. injection E as <- <-. bok H E. rewrite Hro in E. injection E as <- <-.
  assert (set_db_app (w_db w2, w_app w2) w2 = w2) as Eta by by destruct w2.
  bok H E. unfold adapter, get_app in E. cbn [fst snd] in E. rewrite Eta in E. injection E as <- <-.
  destruct (getMapped_total MAP_TYPE (w_db w2)) as (ids & Hids & _).
  bok H E. unfold adapter, mapped_ids, bind, store_get in E. cbn [fst snd] in E. rewrite Hids in E. cbn in E. rewrite Eta in E.
  injection E as <- <-. bok H E. injection E as <- <-. bok H E. injection E as <- <-. rewrite Htree in H.
  pose proof (settled_mappings_iff (w_db w2)) as Hset. pose proof (recorded_positions_valid (w_db w2) Hpos) as Hv.
  cbn zeta in Hset, Hv. rewrite Hids in Hset, Hv. cbn [default] in Hset, Hv.
  set (mappings := getMappingsByLocalIds _ _ _) in *. set (moveStates := getFieldStatesForObjects _ _ _) in *.
  match type of H with context [let '(_, _) := ?m in _] => destruct m as [r [w3 s]] eqn:Hrun end.
  cbn in H. injection H as -> ->.
  apply import_walk in Hrun as (L & HL & Hids' & Hfrom & _); [|done..|by apply roots_truthy].
  pose proof (Hset (tn_id c) Hwf) as Hs. split.
  - intros Hst. apply (lg_others _ _ _ HL). rewrite Hids'. intros [[_ Hf] _]%list_elem_of_filter. apply Hs in Hst. congruence.
  - intros Hst.
    assert (tn_id c ∈ emitted_ids L) as Hin.
    { rewrite Hids'. apply list_elem_of_filter. split; [|by apply subnode_id]. split; [done|].
      destruct (js_has _ _) eqn:Ea; [|done]. destruct Hst. by apply Hs. }
    apply list_elem_of_fmap in Hin as ([m n] & Em & He). cbn in Em. rewrite Forall_forall in Hfrom.
    destruct (Hfrom _ He) as (d & Hd & E1 & Hrest). cbn [fst snd] in *. subst m. cbn in Em.
    apply (same_node tree c d Hnd Hc Hd) in Em as <-. exists n. split; [exists c; split; [left|done]|].
    destruct (lg_committed _ _ _ HL) as (E0 & Ecat & Hcom). cbn in Ecat. rewrite app_nil_r in Ecat. subst E0.
    assert (NoDup (emitted_ids L)) as Hndl by (rewrite Hids'; by apply NoDup_filter).
    specialize (Hcom Hndl). rewrite Forall_forall in Hcom. by apply Hcom in He.
Qed.
