(* ===== verification/BookmarkMoveFacts.v ===== *)
(** * Properties of placing bookmarks

    [moveIndex] and chrome.bookmarks.move together put the mover where it is
    meant to go; a move keeps a folder in the order of its position keys; a
    batch of moves into folders does so too as long as no mover is in a folder
    that is moved into: where one is, it need not. *)

From S2P Require Import Prelude JsMap Types Util FractionalIndex Storage StorageFacts Engine RestorePoints Bookmarks BookmarkReadFacts BookmarkApply.

Open Scope Z_scope.
Open Scope js_scope.

(** ** chrome.bookmarks.move

    The index is read as if the mover were still where it is; the mover leaves
    every other folder. *)

Definition place (id : string) (index : Z) (ids : list string) : list string :=
  let at_ := match index_of id ids with
             | Some old => if Z.of_nat old <? index then index - 1 else index
             | None => index
             end in
  insert_at (Z.to_nat at_) id (filter (fun i => i <> id) ids).

Definition child_ids `{ChromeBookmarks Br} (p : string) (b : Br) : option (list string) :=
  match getChildren p b with inr l => Some (map tn_id l) | inl _ => None end.

Class ChromeMoveLaws (Br : Type) `{ChromeBookmarks Br} : Type := {
  tree_ok : Br -> Prop;
  move_ok : forall id p i b b', tree_ok b -> 0 <= i -> bm_move id p (Some i) b = (inr tt, b') -> tree_ok b';
  move_into : forall id p i b b' ids, tree_ok b -> bm_move id p (Some i) b = (inr tt, b') -> child_ids p b = Some ids ->
    NoDup ids -> 0 <= i -> child_ids p b' = Some (place id i ids);
  move_out : forall id p i b b' q ids, tree_ok b -> 0 <= i -> bm_move id p (Some i) b = (inr tt, b') ->
    child_ids q b = Some ids -> q <> p ->
    child_ids q b' = Some (filter (fun i => i <> id) ids);
}.

(** ** Sorting and inserting *)

Lemma sort_by_sorted {A} (f : A -> string) l : StronglySorted str_le (map f l) -> sort_by f l = l.
Proof.
  induction l as [|x l IH]; [done|]. cbn [map]. intros [Hs Hx]%StronglySorted_inv.
  change (sort_by f (x :: l)) with (sort_insert f x (sort_by f l)). rewrite IH by done.
  destruct l as [|y l]; cbn; [done|]. apply Forall_cons in Hx as [Hxy _]. by rewrite (Hxy : str_leb (f x) (f y) = true).
Qed.

Lemma index_of_elem i l : i ∈ l <-> exists k, index_of i l = Some k.
Proof.
  unfold index_of. split.
  - intros Hi. destruct (find_index _ l) eqn:E; [eauto|]. apply find_index_None in E. rewrite Forall_forall in E.
    apply E in Hi. by rewrite String.eqb_refl in Hi.
  - intros [k ([a [Ha E]] & _)%find_index_Some]. apply String.eqb_eq in E. subst a. by eapply list_elem_of_lookup_2.
Qed.

Lemma index_of_app f b r : b ∉ f -> index_of b (f ++ b :: r) = Some (length f).
Proof.
  intros Hb. apply find_index_Some. split.
  - exists b. by rewrite lookup_app_r, Nat.sub_diag, String.eqb_refl by lia.
  - intros j x Hj Hx. rewrite lookup_app_l in Hx by lia. apply String.eqb_neq. intros ->. apply Hb. by eapply list_elem_of_lookup_2.
Qed.

(** Where the mover ends up. *)
Definition insert_before (before : option string) (id : string) (others : list string) : list string :=
  insert_at (default (length others) (before ≫= fun b => index_of b others)) id others.

Lemma moveIndex_nonneg ids id before : 0 <= moveIndex ids id before.
Proof.
  unfold moveIndex. destruct (index_of id ids); [|destruct (_ ≫= _); lia].
  destruct (_ ≫= _); destruct (Z.leb_spec (Z.of_nat n) 0) || idtac; repeat case_match; lia.
Qed.

Lemma place_moveIndex ids id before :
  place id (moveIndex ids id before) ids = insert_before before id (filter (fun i => i <> id) ids).
Proof.
  unfold place, moveIndex, insert_before. set (others := filter _ ids).
  assert (forall t, Z.to_nat (match index_of id ids with
    | Some old => if Z.of_nat old <? (if Z.of_nat old <=? Z.of_nat t then Z.of_nat t + 1 else Z.of_nat t)
                  then (if Z.of_nat old <=? Z.of_nat t then Z.of_nat t + 1 else Z.of_nat t) - 1
                  else (if Z.of_nat old <=? Z.of_nat t then Z.of_nat t + 1 else Z.of_nat t)
    | None => Z.of_nat t end) = t) as H.
  { intros t. destruct (index_of id ids) as [old|]; [|lia].
    destruct (Z.leb_spec (Z.of_nat old) (Z.of_nat t)), (Z.ltb_spec (Z.of_nat old) (Z.of_nat t + 1)), (Z.ltb_spec (Z.of_nat old) (Z.of_nat t)); lia. }
  destruct (before ≫= _) as [t|]; cbn [from_option Datatypes.id]; f_equal.
  - specialize (H t). by destruct (index_of id ids).
  - specialize (H (length others)). by destruct (index_of id ids).
Qed.

(** The first of the positioned siblings after [position] splits the folder. *)
Section split.
Variables (pos : string -> option string) (position : string).

Definition placed_of (others : list string) : list Placed := omap (fun i => mkPlaced i <$> pos i) others.

Definition first_after (l : list Placed) : option string :=
  pl_chromiumId <$> find (fun s => str_ltb position (pl_position s)) l.

Lemma placed_positions others : map pl_position (placed_of others) = omap pos others.
Proof. unfold placed_of. induction others as [|i l IH]; cbn; [done|]. destruct (pos i); cbn; by rewrite ?IH. Qed.

Lemma first_after_none others : first_after (placed_of others) = None ->
  Forall (fun x => x <=s position) (omap pos others).
Proof.
  unfold first_after, placed_of. induction others as [|i l IH]; cbn; [constructor|]. destruct (pos i) as [x|]; cbn; [|done].
  destruct (str_ltb position x) eqn:E; [done|]. intros H. constructor; [|by apply IH]. unfold str_le, str_leb. by rewrite E.
Qed.

Lemma first_after_some others b : first_after (placed_of others) = Some b -> StronglySorted str_le (omap pos others) ->
  exists front back, others = front ++ b :: back /\ Forall (fun x => x <=s position) (omap pos front) /\
    Forall (fun x => position <s x) (omap pos (b :: back)).
Proof.
  unfold first_after, placed_of. induction others as [|i l IH]; [done|]. intros H Hs.
  cbn [omap list_omap] in H, Hs. destruct (pos i) as [x|] eqn:Ei; cbn [fmap option_fmap option_map find pl_position] in H.
  - destruct (str_ltb position x) eqn:E.
    + injection H as <-. exists [], l. split_and!; [done|constructor|]. cbn. rewrite Ei. apply StronglySorted_inv in Hs as [_ Hx].
      constructor; [done|]. eapply Forall_impl; [exact Hx|]. intros y Hy. cbn in Hy. by eapply str_lt_le_trans.
    + apply StronglySorted_inv in Hs as [Hs _]. destruct (IH H Hs) as (f & r & -> & Hf & Hr).
      exists (i :: f), r. split_and!; [done| |done]. cbn. rewrite Ei. constructor; [|done]. unfold str_le, str_leb. by rewrite E.
  - destruct (IH H Hs) as (f & r & -> & Hf & Hr). exists (i :: f), r. split_and!; [done| |done]. cbn. by rewrite Ei.
Qed.

(** Inserted there, the mover has the smaller positions before it and the
    greater ones after it. *)
Lemma insert_before_splits others id : NoDup others -> StronglySorted str_le (omap pos others) ->
  exists front back, others = front ++ back /\
    insert_before (first_after (placed_of others)) id others = front ++ id :: back /\
    Forall (fun x => x <=s position) (omap pos front) /\ Forall (fun x => position <s x) (omap pos back).
Proof.
  intros Hnd Hs. unfold insert_before, insert_at. destruct (first_after (placed_of others)) as [b|] eqn:E; cbn [mbind option_bind].
  - apply first_after_some in E as (f & r & -> & Hf & Hr); [|done]. exists f, (b :: r).
    assert (b ∉ f) as Hb.
    { apply NoDup_app in Hnd as (_ & Hd & _). intros Hin. by apply (Hd b Hin); left. }
    rewrite index_of_app by done. cbn [from_option Datatypes.id]. by rewrite take_app_length, drop_app_length.
  - apply first_after_none in E. exists others, []. rewrite !app_nil_r. cbn [from_option Datatypes.id]. by rewrite firstn_all, skipn_all.
Qed.
End split.

(** ** One move *)

(** The position recorded for the object of a node. *)
Definition node_position (db : DB) (i : string) : option string :=
  mapped_of db i ≫= fun o => truthy_str (recorded_position db o).

Lemma omap_ext_in {A B} (f g : A -> option B) (l : list A) : (forall a, a ∈ l -> f a = g a) -> omap f l = omap g l.
Proof.
  induction l as [|a l IH]; intros H; [done|]. cbn. rewrite H by left. rewrite IH; [done|]. intros. apply H. by right.
Qed.

Lemma mapped_objects_of db ids : mapped_objects (getMappingsByLocalIds MAP_TYPE ids db) ids = omap (mapped_of db) ids.
Proof.
  unfold mapped_objects. apply omap_ext_in. intros i Hi. by rewrite getMappingsByLocalIds_get, decide_True.
Qed.

Lemma with_positions_of db ids :
  let mappings := getMappingsByLocalIds MAP_TYPE ids db in
  with_positions mappings (getFieldStatesForObjects (mapped_objects mappings ids) "move" db) ids =
  placed_of (node_position db) ids.
Proof.
  intros mappings. unfold with_positions, placed_of. apply omap_ext_in. intros i Hi. unfold mappings, node_position.
  rewrite getMappingsByLocalIds_get, decide_True by done. fold (mapped_of db i).
  destruct (mapped_of db i) as [o|] eqn:Eo; cbn; [|done]. unfold state_position.
  rewrite getFieldStatesForObjects_get, decide_True; [done|]. rewrite mapped_objects_of. apply list_elem_of_omap. eauto.
Qed.

Lemma sorted_lookup {A} (R : relation A) l i j x y : StronglySorted R l -> (i < j)%nat -> l !! i = Some x -> l !! j = Some y -> R x y.
Proof.
  intros Hs. revert i j. induction Hs as [|a l Hs IH Ha]; intros i j Hij Hi Hj; [done|]. destruct j as [|j]; [lia|].
  destruct i as [|i]; [|apply (IH i j); [lia|done..]]. injection Hi as ->. rewrite Forall_forall in Ha. apply Ha.
  by eapply list_elem_of_lookup_2.
Qed.

Section moves.
Context {Br : Type} `{Env : BookmarkEnv Br} {Laws : ChromeMoveLaws Br}.
Abbreviation State := (BmState (Br := Br)).

Definition kids (p : string) (s : State) : option (list string) := child_ids p (ba_browser s.2).

(** C18. One remote move leaves the other nodes of the destination folder in
    their order and puts the mover among them; where those with a recorded
    position stood in the order of their positions, the mover has every
    smaller or equal position before it and every greater one after it, so
    the folder is in order again. *)
Theorem applyMove_places o t parent position (s s1 s' : State) m c p ids :
  chromiumIdsFor [o; parent] s = (inr m, s1) -> truthy_str (jm_get m o) = Some c -> truthy_str (jm_get m parent) = Some p ->
  kids p s1 = Some ids -> NoDup ids -> tree_ok (ba_browser s1.2) ->
  applyMove o t parent position None s = (inr tt, s') ->
  let others := filter (fun i => i <> c) ids in
  StronglySorted str_le (omap (node_position s1.1) others) ->
  exists front back, others = front ++ back /\ kids p s' = Some (front ++ c :: back) /\
    Forall (fun x => x <=s position) (omap (node_position s1.1) front) /\
    Forall (fun x => position <s x) (omap (node_position s1.1) back) /\
    s'.1 = deleteDeferredMaterialization o s1.1.
Proof.
  intros Hm Hc Hp Hids Hnd Htree H others Hs. unfold applyMove in H. bok H E. rewrite Hm in E. injection E as <- <-.
  rewrite Hc, Hp in H. bok H E. unfold store_put, modify in E. injection E as <- <-.
  bok H E. unfold chrome_get in E. cbn [fst snd] in E. unfold kids, child_ids in Hids.
  destruct (getChildren p (ba_browser s1.2)) as [e|l] eqn:El; [discriminate E|]. injection E as <- <-. injection Hids as Hids.
  bok H E. unfold store_get in E. cbn [fst snd] in E. injection E as <- <-.
  bok H E. unfold store_get in E. cbn [fst snd] in E. injection E as <- <-.
  rewrite Hids in H. fold others in H.
  assert (forall i, node_position (deleteDeferredMaterialization o s1.1) i = node_position s1.1 i) as Hpos by done.
  rewrite with_positions_of, sort_by_sorted in H.
  2:{ rewrite placed_positions. erewrite omap_ext_in; [exact Hs|done]. }
  fold (first_after position (placed_of (node_position (deleteDeferredMaterialization o s1.1)) others)) in H.
  unfold chrome_do in H. cbn [fst snd] in H. destruct (bm_move c p _ _) as [r b] eqn:Eb. injection H as -> <-.
  destruct (insert_before_splits (node_position s1.1) position others c) as (f & k & Hsplit & Hins & Hf & Hk);
    [by apply NoDup_filter|done|].
  exists f, k. split_and!; [done| |done..]. unfold kids. cbn [snd set_browser ba_browser].
  eapply move_into in Eb; [|done|unfold child_ids; by rewrite El|by rewrite Hids|apply moveIndex_nonneg].
  rewrite Eb, Hids, place_moveIndex. fold others. f_equal. exact Hins.
Qed.

(** ** A batch of moves *)

Lemma search_ok fuel positions x lo hi : (hi - lo <= fuel)%nat -> (hi <= length positions)%nat -> (lo <= hi)%nat ->
  StronglySorted str_le positions ->
  (forall j y, (j < lo)%nat -> positions !! j = Some y -> y <=s x) ->
  (forall j y, (hi <= j)%nat -> positions !! j = Some y -> x <s y) ->
  let i := insert_search fuel positions x lo hi in
  (lo <= i <= hi)%nat /\ (forall j y, (j < i)%nat -> positions !! j = Some y -> y <=s x) /\
  (forall j y, (i <= j)%nat -> positions !! j = Some y -> x <s y).
Proof using Type.
  intros Hf Hlen Hle Hs. revert lo hi Hf Hlen Hle. induction fuel as [|fuel IH]; intros lo hi Hf Hlen Hle Hlo Hhi; cbn [insert_search].
  { assert (lo = hi) as -> by lia. by split_and!. }
  destruct (Nat.ltb_spec lo hi) as [Hlt|Hge]; [|assert (lo = hi) as -> by lia; by split_and!].
  set (mid := Nat.div2 (lo + hi)). assert (lo <= mid < hi)%nat as Hmid.
  { unfold mid. pose proof (Nat.div2_odd (lo + hi)). destruct (Nat.odd (lo + hi)); cbn in *; lia. }
  destruct (positions !! mid) as [y|] eqn:Ey; [|apply lookup_ge_None in Ey; lia]. cbn [from_option Datatypes.id].
  assert (forall j z, positions !! j = Some z -> ((j <= mid)%nat -> z <=s y) /\ ((mid <= j)%nat -> y <=s z)) as Hord.
  { intros j z Hz. split; intros Hj.
    - destruct (decide (j = mid)) as [->|]; [by simplify_eq|]. eapply (sorted_lookup str_le _ j mid); eauto; lia.
    - destruct (decide (j = mid)) as [->|]; [by simplify_eq|]. eapply (sorted_lookup str_le _ mid j); eauto; lia. }
  destruct (str_leb y x) eqn:E.
  - destruct (IH (S mid) hi) as (? & ? & ?); [lia..| |done|split_and!; [lia..|done|done]]. intros j z Hj Hz. trans y; [apply (Hord j z Hz); lia|done].
  - destruct (IH lo mid) as (? & ? & ?); [lia..|done| |split_and!; [lia..|done|done]]. intros j z Hj Hz. assert (x <s y) as Hxy by by (unfold str_leb in E; apply negb_false_iff in E).
    eapply str_lt_le_trans; [exact Hxy|]. apply (Hord j z Hz). lia.
Qed.

Lemma sortedInsertIndex_first (l : list Placed) x : StronglySorted str_le (map pl_position l) ->
  (sortedInsertIndex (map pl_position l) x <= length l)%nat /\
  pl_chromiumId <$> l !! sortedInsertIndex (map pl_position l) x = first_after x l /\
  (forall j p, (j < sortedInsertIndex (map pl_position l) x)%nat -> l !! j = Some p -> pl_position p <=s x) /\
  (forall j p, (sortedInsertIndex (map pl_position l) x <= j)%nat -> l !! j = Some p -> x <s pl_position p).
Proof using Type.
  intros Hs. unfold sortedInsertIndex. rewrite length_map.
  destruct (search_ok (length l) (map pl_position l) x 0 (length l)) as (Hi & Hlo & Hhi);
    [lia|by rewrite length_map|lia|done|lia| |].
  { intros j y Hj Hy. apply lookup_lt_Some in Hy. rewrite length_map in Hy. lia. }
  set (i := insert_search _ _ _ _ _) in *.
  assert (forall j p, l !! j = Some p -> map pl_position l !! j = Some (pl_position p)) as Hmap.
  { intros j p Hj. change (map pl_position l) with (pl_position <$> l). by rewrite list_lookup_fmap, Hj. }
  assert (forall j p, (j < i)%nat -> l !! j = Some p -> pl_position p <=s x) as H1 by eauto.
  assert (forall j p, (i <= j)%nat -> l !! j = Some p -> x <s pl_position p) as H2 by eauto.
  split_and!; [lia| |done|done]. unfold first_after. clearbody i. clear Hi Hlo Hhi Hmap Hs.
  revert i H1 H2. induction l as [|a l IH]; intros i H1 H2; [by destruct i|]. cbn [find].
  destruct i as [|i].
  - assert (str_ltb x (pl_position a) = true) as -> by (by apply (H2 0%nat a)). done.
  - assert (str_ltb x (pl_position a) = false) as ->.
    { pose proof (H1 0%nat a ltac:(lia) eq_refl) as Ha. unfold str_le, str_leb in Ha. by apply negb_true_iff in Ha. }
    apply IH; intros j p Hj Hp; [apply (H1 (S j) p)|apply (H2 (S j) p)]; try done; lia.
Qed.

(** The effective position during a batch: the incoming one, else the recorded. *)
Definition effective (db : DB) (incoming : jmap string string) (i : string) : option string :=
  mapped_of db i ≫= fun o => truthy_str (or_else (jm_get incoming o) (truthy_str (recorded_position db o))).

Lemma foldl_set_get {A} (key : A -> string) (g : A -> option string) (l : list A) m k :
  (forall a b, a ∈ l -> b ∈ l -> key a = key b -> g a = g b) ->
  jm_get (foldl (fun m a => match g a with Some v => jm_set m (key a) v | None => m end) m l) k =
  match find (fun a => String.eqb (key a) k) l ≫= g with Some v => Some v | None => jm_get m k end.
Proof using Type.
  revert m. induction l as [|a l IH]; intros m Hfun; cbn [foldl find]; [done|].
  rewrite IH by (intros; apply Hfun; auto using list_elem_of_further).
  destruct (String.eqb_spec (key a) k) as [Ek|Hne].
  - cbn [mbind option_bind]. destruct (find (fun b => String.eqb (key b) k) l) as [b|] eqn:Eb; cbn [mbind option_bind].
    + apply find_some in Eb as [Hb E]. apply String.eqb_eq in E. apply list_elem_of_In in Hb.
      rewrite (Hfun b a) by (first [by right | left | congruence]). destruct (g a); [done|]. by destruct (g a).
    + destruct (g a); [by rewrite <- Ek, jm_get_set_eq|done].
  - destruct (find _ l ≫= g); [done|]. destruct (g a); [by rewrite jm_get_set_ne|done].
Qed.

Lemma set_get_id (g : string -> option string) l k :
  jm_get (foldl (fun m a => match g a with Some v => jm_set m a v | None => m end) [] l) k = if decide (k ∈ l) then g k else None.
Proof using Type.
  rewrite (foldl_set_get id g) by (intros a b _ _ E; by cbn in E; subst). unfold id. case_decide as Hk.
  - destruct (find (fun a => String.eqb a k) l) as [b|] eqn:Eb; cbn.
    + apply find_some in Eb as [_ E]. apply String.eqb_eq in E as ->. by destruct (g k).
    + apply list_elem_of_In in Hk. apply (find_none _ _ Eb) in Hk. by rewrite String.eqb_refl in Hk.
  - destruct (find (fun a => String.eqb a k) l) as [b|] eqn:Eb; cbn; [|done].
    apply find_some in Eb as [Hb E]. apply String.eqb_eq in E as ->. by apply list_elem_of_In in Hb.
Qed.

(** What a cached order must say of the folder [q]. *)
Record order_ok (incoming : jmap string string) (s : State) (q : string) (o : CachedParentOrder) : Prop := {
  oo_generation : po_generation o = bookmarkLayoutGeneration s.2;
  oo_live : kids q s = Some (po_liveOrder o);
  oo_sorted : po_sorted o = placed_of (effective s.1 incoming) (po_liveOrder o);
}.

(** A folder in order, none of [movers] in it. *)
Definition folder_ready (incoming : jmap string string) (movers : list string) (s : State) (q : string) : Prop :=
  exists ids, kids q s = Some ids /\ NoDup ids /\ StronglySorted str_le (omap (effective s.1 incoming) ids) /\
    forall c, c ∈ movers -> c ∉ ids.

Lemma getParentOrder_ok incoming movers cache q (s s' : State) o cache' :
  (forall q o, jm_get cache q = Some o -> order_ok incoming s q o) -> folder_ready incoming movers s q ->
  getParentOrder incoming cache q s = (inr (o, cache'), s') ->
  s' = s /\ order_ok incoming s q o /\ jm_get cache' q = Some o /\
  (forall q' o', jm_get cache' q' = Some o' -> q' = q \/ jm_get cache q' = Some o') /\
  (forall q o, jm_get cache' q = Some o -> order_ok incoming s q o).
Proof using Type.
  intros Hc (ids & Hids & Hnd & Hs & _) H. unfold getParentOrder in H. bok H E. unfold get_app in E. injection E as <- <-.
  assert (forall o, jm_get cache q = Some o -> po_generation o = bookmarkLayoutGeneration s.2) as Hgen by (intros ? E; by apply Hc in E as []).
  destruct (jm_get cache q) as [o0|] eqn:Eq.
  { rewrite (Hgen o0 eq_refl), Z.eqb_refl in H. unfold ret in H. injection H as H1 H2 H3. subst. split_and!; auto. }
  bok H E. unfold chrome_get in E. unfold kids, child_ids in Hids. destruct (getChildren q (ba_browser s.2)) as [?|l] eqn:El; [discriminate E|].
  injection E as <- <-. injection Hids as Hids. bok H E. unfold store_get in E. injection E as <- <-.
  bok H E. unfold store_get in E. injection E as <- <-. bok H E. unfold get_app in E. injection E as <- <-.
  unfold ret in H. injection H as H1 H2 H3. subst s' cache' o. rewrite Hids.
  assert (order_ok incoming s q (mkParentOrder (bookmarkLayoutGeneration s.2) (js_of_list ids) ids
    (foldl (fun m i => match truthy_str (om_objectId <$> jm_get (getMappingsByLocalIds MAP_TYPE ids s.1) i) with Some o => jm_set m i o | None => m end) [] ids)
    (foldl (fun m o => match state_position (getFieldStatesForObjects (mapped_objects (getMappingsByLocalIds MAP_TYPE ids s.1) ids) "move" s.1) o with
       Some x => jm_set m o x | None => m end) [] (mapped_objects (getMappingsByLocalIds MAP_TYPE ids s.1) ids))
    (sort_by pl_position (placed_of (effective s.1 incoming) ids)))) as Hok.
  { split; [done|unfold kids, child_ids; by rewrite El, Hids|]. apply sort_by_sorted. by rewrite placed_positions. }
  match goal with |- _ /\ order_ok _ _ _ ?order /\ _ => assert (order_ok incoming s q order) as Hok' end.
  { destruct Hok as [G1 G2 G3]. split; [done|done|]. cbn [po_sorted po_liveOrder] in *. rewrite <- G3. f_equal.
    unfold placed_of. apply omap_ext_in. intros i Hi. rewrite set_get_id, decide_True by done.
    rewrite getMappingsByLocalIds_get, decide_True by done. fold (mapped_of s.1 i). unfold effective.
    destruct (mapped_of s.1 i) as [o|] eqn:Eo; cbn; [|done]. rewrite set_get_id, decide_True.
    2:{ rewrite mapped_objects_of. apply list_elem_of_omap. eauto. }
    unfold state_position. rewrite getFieldStatesForObjects_get, decide_True; [done|].
    rewrite mapped_objects_of. apply list_elem_of_omap. eauto. }
  split_and!; [done|done|by rewrite jm_get_set_eq| |].
  - intros q' o'. rewrite jm_get_set. case_decide; [by left|by right].
  - intros q' o'. rewrite jm_get_set. case_decide; [intros [= <-]; by subst|apply Hc].
Qed.

Lemma remove_first_none {A} (p : A -> bool) l : (forall a, a ∈ l -> p a = false) -> remove_first p l = l.
Proof using Type.
  intros H. unfold remove_first. assert (find_index p l = None) as ->; [|done]. apply find_index_None, Forall_forall. auto.
Qed.

Lemma placed_elem pos ids a : a ∈ placed_of pos ids -> pl_chromiumId a ∈ ids.
Proof using Type.
  unfold placed_of. intros (i & Hi & Ha)%list_elem_of_omap. destruct (pos i); [|done]. by injection Ha as <-.
Qed.

Lemma placed_app pos l1 l2 : placed_of pos (l1 ++ l2) = placed_of pos l1 ++ placed_of pos l2.
Proof using Type. apply omap_app. Qed.

(** Forgetting a mover that is in no cached folder changes nothing that counts. *)
Lemma forget_ok incoming s q o c : order_ok incoming s q o -> c ∉ po_liveOrder o -> order_ok incoming s q (forget_mover c o).
Proof using Type.
  intros [G1 G2 G3] Hc. split; cbn [forget_mover po_generation po_liveOrder po_sorted]; [done| |].
  - rewrite remove_first_none; [done|]. intros a Ha. apply String.eqb_neq. by intros ->.
  - rewrite !remove_first_none; [done|..].
    + intros a Ha. apply String.eqb_neq. by intros ->.
    + intros a Ha. rewrite G3 in Ha. apply placed_elem in Ha. apply String.eqb_neq. by intros <-.
Qed.

Lemma map_orders_get f m q : jm_get (map_orders f m) q = f <$> jm_get m q.
Proof using Type. unfold map_orders. induction m as [|[k v] m IH]; cbn; [done|]. by destruct (decide (q = k)). Qed.

(** The mover's place among the positioned siblings. *)
Lemma sorted_insert pos (front back : list string) c x :
  StronglySorted str_le (omap pos (front ++ back)) ->
  Forall (fun y => y <=s x) (omap pos front) -> Forall (fun y => x <s y) (omap pos back) -> pos c = Some x ->
  insert_at (sortedInsertIndex (map pl_position (placed_of pos (front ++ back))) x) (mkPlaced c x) (placed_of pos (front ++ back))
    = placed_of pos (front ++ c :: back) /\
  StronglySorted str_le (omap pos (front ++ c :: back)).
Proof using Type.
  intros Hs Hf Hb Hx. set (l := placed_of pos (front ++ back)).
  assert (StronglySorted str_le (map pl_position l)) as Hsl by (unfold l; by rewrite placed_positions).
  destruct (sortedInsertIndex_first l x Hsl) as (Hle & _ & H1 & H2). set (i := sortedInsertIndex _ x) in *.
  assert (l = placed_of pos front ++ placed_of pos back) as El by apply placed_app.
  assert (i = length (placed_of pos front)) as Ei.
  { rewrite Forall_forall in Hf, Hb. destruct (lt_eq_lt_dec i (length (placed_of pos front))) as [[Hlt| ->]|Hgt]; [|done|].
    - destruct (lookup_lt_is_Some_2 (placed_of pos front) i Hlt) as [p Hp].
      pose proof (H2 i p ltac:(lia)) as Hlarge. rewrite El, lookup_app_l in Hlarge by done.
      assert (pl_position p <=s x) as Hsmall.
      { apply Hf. rewrite <- placed_positions. apply list_elem_of_fmap_2. by eapply list_elem_of_lookup_2. }
      specialize (Hlarge Hp). by apply str_not_lt in Hsmall.
    - destruct (placed_of pos back) as [|p l'] eqn:Eb.
      + rewrite El, length_app in Hle. cbn in Hle. lia.
      + pose proof (H1 (length (placed_of pos front)) p ltac:(lia)) as Hsmall.
        rewrite El, lookup_app_r, Nat.sub_diag in Hsmall by lia. specialize (Hsmall eq_refl).
        assert (x <s pl_position p) as Hlarge.
        { apply Hb. rewrite <- placed_positions, Eb. left. }
        by apply str_not_lt in Hsmall. }
  split.
  - unfold insert_at. rewrite Ei, El, take_app_length, drop_app_length, placed_app. f_equal. cbn. by rewrite Hx.
  - rewrite (omap_app pos front back) in Hs. rewrite (omap_app pos front (c :: back)). change (omap pos (c :: back)) with (match pos c with Some y => y :: omap pos back | None => omap pos back end).
    rewrite Hx. rewrite Forall_forall in Hf, Hb. rewrite sorting.StronglySorted_app in Hs. destruct Hs as (Hcross & Hs1 & Hs2).
    rewrite sorting.StronglySorted_app. split_and!; [|done|].
    + intros y z Hy [->|Hz]%elem_of_cons; [by apply Hf|by apply Hcross].
    + constructor; [done|]. apply Forall_forall. intros z Hz. by apply str_lt_le, Hb.
Qed.

Lemma filter_absent c (ids : list string) : c ∉ ids -> filter (fun i => i <> c) ids = ids.
Proof using Type. intros Hc. apply filter_true, Forall_forall. by intros i Hi ->. Qed.

(** Among the keys that agree with the database, effective positions are the
    same in states that differ outside mappings and field states. *)
Definition same_positions (s s' : State) : Prop :=
  object_mappings s'.1 = object_mappings s.1 /\ field_state s'.1 = field_state s.1 /\
  bookmarkLayoutGeneration s'.2 = bookmarkLayoutGeneration s.2.

Lemma effective_same s s' incoming i : same_positions s s' -> effective s'.1 incoming i = effective s.1 incoming i.
Proof using Type. intros (E1 & E2 & _). unfold effective, mapped_of, recorded_position. by rewrite E1, E2. Qed.

Lemma effective_omap s s' incoming (ids : list string) : same_positions s s' ->
  omap (effective s'.1 incoming) ids = omap (effective s.1 incoming) ids.
Proof using Type. intros H. apply omap_ext_in. intros. by apply effective_same. Qed.

Lemma order_ok_same incoming s s' q o : same_positions s s' -> kids q s' = kids q s -> order_ok incoming s q o -> order_ok incoming s' q o.
Proof using Type.
  intros Hsame Hk [G1 G2 G3]. split; [by rewrite G1; destruct Hsame as (_ & _ & ->)|by rewrite Hk|].
  rewrite G3. unfold placed_of. apply omap_ext_in. intros i _. by rewrite (effective_same s s').
Qed.

Lemma folder_ready_same incoming movers movers' s s' q : same_positions s s' -> kids q s' = kids q s ->
  (forall c, c ∈ movers' -> c ∈ movers) -> folder_ready incoming movers s q -> folder_ready incoming movers' s' q.
Proof using Type.
  intros Hsame Hk Hm (ids & K & Hnd & Hs & Hc). exists ids. rewrite Hk, (effective_omap s s') by exact Hsame. split_and!; auto.
Qed.

Section batch.
Variables (chromiumIds incoming : jmap string string) (dests : list string).

Definition mover_of (m : RemoteMove) : option string := truthy_str (jm_get chromiumIds (rm_objectId m)).
Definition dest_of (m : RemoteMove) : option string := truthy_str (jm_get chromiumIds (rm_parent m)).

(** The caches are true, the destinations are in order and hold no mover to come. *)
Record batch_ok (rest : list RemoteMove) (cache : jmap string CachedParentOrder) (s : State) : Prop := {
  bo_cache : forall q o, jm_get cache q = Some o -> q ∈ dests /\ order_ok incoming s q o;
  bo_tree : tree_ok (ba_browser s.2);
  bo_dests : forall q, q ∈ dests -> folder_ready incoming (omap mover_of rest) s q;
}.

(** What a move does to the destinations. *)
Definition moved (m : RemoteMove) (s s' : State) : Prop := forall q, q ∈ dests -> forall ids, kids q s = Some ids ->
  exists ids', kids q s' = Some ids' /\ ids `sublist_of` ids' /\
    (dest_of m = Some q -> forall c, mover_of m = Some c -> c ∈ ids').

(** The browser's move, in terms of the folders. *)
Lemma chrome_moved c p ids before x (s s' : State) : tree_ok (ba_browser s.2) -> kids p s = Some ids -> NoDup ids -> c ∉ ids ->
  StronglySorted str_le (omap (effective s.1 incoming) ids) -> effective s.1 incoming c = Some x ->
  before = first_after x (placed_of (effective s.1 incoming) ids) ->
  chrome_do (bm_move c p (Some (moveIndex ids c before))) s = (inr tt, s') ->
  exists front back, ids = front ++ back /\ kids p s' = Some (front ++ c :: back) /\
    insert_before before c ids = front ++ c :: back /\ same_positions s s' /\
    NoDup (front ++ c :: back) /\ StronglySorted str_le (omap (effective s.1 incoming) (front ++ c :: back)) /\
    insert_at (sortedInsertIndex (map pl_position (placed_of (effective s.1 incoming) ids)) x) (mkPlaced c x)
      (placed_of (effective s.1 incoming) ids) = placed_of (effective s.1 incoming) (front ++ c :: back) /\
    (forall q qids, q <> p -> kids q s = Some qids -> c ∉ qids -> kids q s' = Some qids) /\
    tree_ok (ba_browser s'.2).
Proof using Laws.
  intros Htree Hids Hnd Hc Hs Hx -> H. unfold chrome_do in H. destruct (bm_move c p _ _) as [r b] eqn:Eb. injection H as -> <-.
  destruct (insert_before_splits (effective s.1 incoming) x ids c Hnd Hs) as (f & k & -> & Hins & Hf & Hk).
  destruct (sorted_insert (effective s.1 incoming) f k c x Hs Hf Hk Hx) as [Hat Hsort].
  exists f, k. split_and!; try done.
  - pose proof (move_into _ _ _ _ _ _ Htree Eb Hids Hnd (moveIndex_nonneg _ _ _)) as Hk'. unfold kids. cbn [snd set_browser ba_browser].
    by rewrite Hk', place_moveIndex, filter_absent, Hins.
  - apply (NoDup_Permutation_proper (c :: f ++ k)); [by rewrite Permutation_middle|]. by constructor.
  - intros q qids Hq Hqk Hcq. pose proof (move_out _ _ _ _ _ _ _ Htree (moveIndex_nonneg _ _ _) Eb Hqk Hq) as Hk'. unfold kids. cbn [snd set_browser ba_browser].
    by rewrite Hk', filter_absent.
  - exact (move_ok _ _ _ _ _ Htree (moveIndex_nonneg _ _ _) Eb).
Qed.

(** The cache entry of the destination, updated in place, is true again. *)
Lemma enter_ok c p o x ids order (s s' : State) front back : order_ok incoming s p order -> po_liveOrder order = ids ->
  c ∉ ids -> kids p s' = Some (front ++ c :: back) ->
  insert_before (first_after x (placed_of (effective s.1 incoming) ids)) c ids = front ++ c :: back ->
  same_positions s s' ->
  insert_at (sortedInsertIndex (map pl_position (placed_of (effective s.1 incoming) ids)) x) (mkPlaced c x)
    (placed_of (effective s.1 incoming) ids) = placed_of (effective s.1 incoming) (front ++ c :: back) ->
  order_ok incoming s' p (enter_order c o x (sortedInsertIndex (map pl_position (placed_of (effective s.1 incoming) ids)) x)
    (first_after x (placed_of (effective s.1 incoming) ids)) (forget_mover c order)).
Proof using Type.
  intros Hok <- Hc Hk Hins Hsame Hat. destruct (forget_ok _ _ _ _ c Hok Hc) as [G1 G2 G3].
  assert (po_liveOrder (forget_mover c order) = po_liveOrder order) as El.
  { destruct Hok as [_ O2 _]. rewrite O2 in G2. by injection G2. }
  assert (insert_at (default (length (po_liveOrder order)) (first_after x (placed_of (effective s.1 incoming) (po_liveOrder order))
    ≫= fun b => index_of b (po_liveOrder order))) c (po_liveOrder order) = front ++ c :: back) as Hlive by exact Hins.
  split; cbn [enter_order po_generation po_liveOrder po_sorted].
  - rewrite G1. symmetry. apply Hsame.
  - by rewrite El, Hlive.
  - rewrite G3, El, Hat, Hlive. unfold placed_of. apply omap_ext_in. intros i _. by rewrite (effective_same s s').
Qed.

Definition step_ok (m : RemoteMove) (rest : list RemoteMove) (cache' : jmap string CachedParentOrder) (s s' : State) : Prop :=
  batch_ok rest cache' s' /\ moved m s s' /\ same_positions s s'.

(** A move that is deferred, its destination missing. *)
Lemma defer_ok m rest cache s s' u c : batch_ok (m :: rest) cache s -> mover_of m = Some c -> dest_of m = None ->
  deferUntilParentMaterializes (rm_objectId m) (rm_objectType m) (rm_parent m) s = (inr u, s') -> step_ok m rest cache s s'.
Proof using Type.
  intros [Hc Ht Hd] Em Ep H. unfold deferUntilParentMaterializes, bind, draw, store_put, modify, ret in H. injection H as _ H. subst s'.
  assert (same_positions s (putDeferredMaterialization (mkDeferred (rm_objectId m) (rm_objectType m) (rm_parent m)
    (be_iso (ba_entropy s.2))) s.1, bump s.2)) as Hsame by done.
  cbn [omap list_omap] in Hd. rewrite Em in Hd.
  split; [|split; [intros q Hq ids Hids; exists ids; split_and!; [done|done|congruence]|done]]. split; [|done|].
  - intros q o Ho. destruct (Hc q o Ho) as [? Hok]. split; [done|]. by eapply order_ok_same.
  - intros q Hq. eapply folder_ready_same; [exact Hsame|done| |by apply Hd]. intros. by right.
Qed.

(** The destinations after the browser's move. *)
Lemma dests_after m rest p c ids (s s' : State) front back :
  (forall q, q ∈ dests -> folder_ready incoming (c :: omap mover_of rest) s q) -> c ∉ omap mover_of rest ->
  dest_of m = Some p -> mover_of m = Some c -> kids p s = Some ids -> ids = front ++ back -> kids p s' = Some (front ++ c :: back) ->
  same_positions s s' -> NoDup (front ++ c :: back) -> StronglySorted str_le (omap (effective s.1 incoming) (front ++ c :: back)) ->
  (forall q qids, q <> p -> kids q s = Some qids -> c ∉ qids -> kids q s' = Some qids) ->
  (forall q, q ∈ dests -> folder_ready incoming (omap mover_of rest) s' q) /\ moved m s s'.
Proof using Type.
  intros Hd Hcr Ep Em Kids Eids Kp Hsame Hndp Hsp Hothers. split.
  - intros q Hq. destruct (Hd q Hq) as (qids & Kq & Hndq & Hsq & Hnoq). destruct (decide (q = p)) as [->|Hne].
    + exists (front ++ c :: back). rewrite (effective_omap s) by done. split_and!; [done..|]. intros d Hdr Hin.
      assert (d ∈ c :: front ++ back) as [->|Hin']%elem_of_cons by (by rewrite Permutation_middle); [done|].
      rewrite Kids in Kq. injection Kq as <-. rewrite <- Eids in Hin'. by apply (Hnoq d); [right|].
    + exists qids. rewrite (effective_omap s) by done.
      split_and!; [by apply Hothers; [..|apply Hnoq; left]|done|done|]. intros d Hdr. apply Hnoq. by right.
  - intros q Hq qids Kq. destruct (decide (q = p)) as [->|Hne].
    + exists (front ++ c :: back). rewrite Kids in Kq. injection Kq as <-. rewrite Eids. split_and!; [done| |].
      * apply sublist_app; [done|]. by apply sublist_cons.
      * intros _ d Hdm. rewrite Em in Hdm. injection Hdm as <-. apply elem_of_app. right. left.
    + destruct (Hd q Hq) as (qids' & Kq' & _ & _ & Hnoq). rewrite Kq in Kq'. injection Kq' as <-.
      exists qids. split_and!; [by apply Hothers; [..|apply Hnoq; left]|done|congruence].
Qed.

Lemma apply_one_move_ok m rest cache cache' s s' :
  batch_ok (m :: rest) cache s -> NoDup (omap mover_of (m :: rest)) ->
  (forall q, dest_of m = Some q -> q ∈ dests) ->
  (forall c, mover_of m = Some c -> effective s.1 incoming c = Some (rm_position m)) ->
  apply_one_move chromiumIds incoming cache m s = (inr cache', s') ->
  step_ok m rest cache' s s'.
Proof using Laws.
  intros Hb Hnd Hdest Heff H. unfold apply_one_move in H. fold (mover_of m) in H. fold (dest_of m) in H.
  cbn [omap list_omap] in Hnd. destruct (mover_of m) as [c|] eqn:Em.
  2:{ unfold ret in H. injection H as H1 H2. subst. destruct Hb as [Hc Ht Hd]. cbn [omap list_omap] in Hd. rewrite Em in Hd.
      split; [by split|split; [|done]]. intros q Hq ids Hids. exists ids. split_and!; [done|done|congruence]. }
  apply NoDup_cons in Hnd as [Hcr Hnd].
  destruct (dest_of m) as [p|] eqn:Ep; [|bok H E; unfold ret in H; injection H as H1 H2; subst; by eapply defer_ok].
  destruct Hb as [Hc Ht Hd]. cbn [omap list_omap] in Hd. rewrite Em in Hd.
  pose proof (Hdest p eq_refl) as Hp. bok H E. unfold store_put, modify in E. injection E as <- <-. cbn [fst snd] in H.
  set (s0 := (deleteDeferredMaterialization (rm_objectId m) s.1, s.2) : State) in *.
  assert (same_positions s s0) as Hsame0 by done.
  bok H E. destruct x as [order cache1].
  apply (getParentOrder_ok incoming (c :: omap mover_of rest)) in E as (-> & Hok & Hget & Hfrom & Hall);
    [|intros q o Ho; by apply (order_ok_same _ s), Hc|by apply (folder_ready_same _ (c :: omap mover_of rest) _ s); [..|apply Hd]].
  destruct (Hd p Hp) as (ids & Kids & Hndi & Hs & Hno). pose proof (Hno c ltac:(left)) as Hcp.
  assert (po_liveOrder order = ids) as El by (destruct Hok as [_ G _]; change (kids p s0) with (kids p s) in G; congruence).
  assert (po_sorted order = placed_of (effective s0.1 incoming) ids) as Es by (destruct Hok as [_ _ G]; by rewrite El in G).
  rewrite remove_first_none, Es, El in H.
  2:{ intros a Ha. rewrite Es in Ha. apply placed_elem in Ha. apply String.eqb_neq. by intros <-. }
  assert (pl_chromiumId <$> placed_of (effective s0.1 incoming) ids !! sortedInsertIndex
    (map pl_position (placed_of (effective s0.1 incoming) ids)) (rm_position m) =
    first_after (rm_position m) (placed_of (effective s0.1 incoming) ids)) as Ebefore.
  { apply sortedInsertIndex_first. by rewrite placed_positions. }
  rewrite Ebefore in H. bok H E. destruct x.
  eapply chrome_moved in E as (f & k & Eids & Kp & Hins & Hsame & Hndp & Hsp & Hat & Hothers & Ht'); [|done|done|done|done|done|by apply Heff|done].
  rewrite map_orders_get, Hget in H. cbn [fmap option_fmap option_map] in H. unfold ret in H. injection H as H1 H2. subst cache' x0.
  destruct (dests_after m rest p c ids s s' f k) as [Hdests Hmoved]; [done..|].
  split; [split; [|done|done]|by split].
  intros q o Ho. rewrite jm_get_set in Ho. case_decide as Eq.
  - injection Ho as <-. subst q. split; [done|]. exact (enter_ok c p _ _ ids order s0 _ f k Hok El Hcp Kp Hins Hsame Hat).
  - rewrite map_orders_get in Ho. apply fmap_Some in Ho as (o0 & Ho0 & ->).
    destruct (Hfrom q o0 Ho0) as [->|Hq0]; [done|]. destruct (Hc q o0 Hq0) as [Hq Hoq]. split; [done|].
    destruct (Hd q Hq) as (qids & Kq & _ & _ & Hnoq). pose proof (Hnoq c ltac:(left)) as Hcq.
    apply (order_ok_same _ s0); [done| |].
    + change (kids q s0) with (kids q s). rewrite Kq. by apply Hothers.
    + apply forget_ok; [by apply Hall|]. destruct Hoq as [_ G _]. rewrite Kq in G. injection G as G. by rewrite <- G.
Qed.

Lemma moves_loop_ok rest cache s s' : batch_ok rest cache s -> NoDup (omap mover_of rest) ->
  (forall m q, m ∈ rest -> dest_of m = Some q -> q ∈ dests) ->
  (forall m c, m ∈ rest -> mover_of m = Some c -> effective s.1 incoming c = Some (rm_position m)) ->
  moves_loop chromiumIds incoming cache rest s = (inr tt, s') ->
  same_positions s s' /\ (forall q, q ∈ dests -> folder_ready incoming [] s' q) /\
  forall q ids, q ∈ dests -> kids q s = Some ids -> exists ids', kids q s' = Some ids' /\ ids `sublist_of` ids' /\
    forall m c, m ∈ rest -> dest_of m = Some q -> mover_of m = Some c -> c ∈ ids'.
Proof using Laws.
  revert cache s. induction rest as [|m rest IH]; intros cache s Hb Hnd Hdest Heff H; cbn [moves_loop] in H.
  { unfold ret in H. injection H as H1. subst. split_and!; [done|apply (bo_dests _ _ _ Hb)|].
    intros q ids Hq K. exists ids. split_and!; [done|done|by intros ? ? ?%not_elem_of_nil]. }
  bok H E. apply apply_one_move_ok with (rest := rest) in E as (Hb1 & Hm1 & Hsame1); [|done|done|by intros; eapply Hdest; [left|]|by intros; apply Heff; [left|]].
  destruct (IH x x0 Hb1) as (Hsame & Hready & Hrest); [| | |done|].
  { cbn [omap list_omap] in Hnd. destruct (mover_of m); [by apply NoDup_cons in Hnd as [_ ?]|done]. }
  { intros m' q Hm'. apply Hdest. by right. }
  { intros m' c Hm' Hc. rewrite (effective_same s) by done. apply Heff; [by right|done]. }
  split_and!; [|done|].
  - destruct Hsame1 as (A1 & A2 & A3), Hsame as (B1 & B2 & B3). split_and!; congruence.
  - intros q ids Hq K. destruct (Hm1 q Hq ids K) as (ids1 & K1 & S1 & C1). destruct (Hrest q ids1 Hq K1) as (ids2 & K2 & S2 & C2).
    exists ids2. split_and!; [done|by trans ids1|]. intros m' c [->|Hm']%elem_of_cons Hdm Hcm; [|by eapply C2].
    eapply elem_of_sublist; [|exact S2]. by apply C1.
Qed.
End batch.

Lemma sets_keep (l : list (string * string)) m k v : k ∉ map fst l -> jm_get m k = Some v ->
  jm_get (foldl (fun m kv => jm_set m kv.1 kv.2) m l) k = Some v.
Proof using Type.
  revert m. induction l as [|[k' v'] l IH]; intros m; [done|]. cbn [map foldl fst snd]. intros [Hk Hl]%not_elem_of_cons Hm.
  apply IH; [done|]. by rewrite jm_get_set_ne by done.
Qed.

Lemma jm_of_list_get (l : list (string * string)) k v : NoDup (map fst l) -> (k, v) ∈ l -> jm_get (jm_of_list l) k = Some v.
Proof using Type.
  unfold jm_of_list. generalize (@nil (string * string)). induction l as [|[k' v'] l IH]; intros acc Hnd Hin.
  { by apply not_elem_of_nil in Hin. }
  cbn [map fst] in Hnd. apply NoDup_cons in Hnd as [Hk Hnd]. cbn [foldl fst snd]. apply elem_of_cons in Hin as [[= <- <-]|Hin]; [|by apply IH].
  apply sets_keep; [done|]. apply jm_get_set_eq.
Qed.

Lemma incoming_position (moves : list RemoteMove) m : NoDup (map rm_objectId moves) -> m ∈ moves ->
  jm_get (jm_of_list (map (fun m => (rm_objectId m, rm_position m)) moves)) (rm_objectId m) = Some (rm_position m).
Proof using Type.
  intros Hnd Hm. apply jm_of_list_get; [by rewrite map_map|].
  change (map ?f moves) with (f <$> moves). exact (list_elem_of_fmap_2 (fun m => (rm_objectId m, rm_position m)) _ _ Hm).
Qed.

End moves.
