(* ===== verification/FakeBookmarksFacts.v ===== *)
(** * The in-memory chrome.bookmarks obeys the laws of a browser

    The tests' browser, as long as its parent links and its child lists agree,
    implements [ChromeMoveLaws]: the index of a move is read the way
    [BookmarkMoveFacts.place] reads it, and the mover leaves every other
    folder. *)

From stdpp Require Import pretty.
From S2P Require Import Prelude JsMap Types Util Storage Engine RestorePoints Bookmarks BookmarkApply FakeBookmarks BookmarkMoveFacts.

Open Scope Z_scope.
Open Scope js_scope.

#[local] Existing Instance fake_chrome.

(** Parent links and child lists agree. *)
Record fake_ok (f : FakeBookmarks) : Prop := {
  fk_up : forall id n p, nodes f !! id = Some n -> fn_parentId n = Some p ->
    exists q, nodes f !! p = Some q /\ id ∈ fn_children q;
  fk_down : forall p q id, nodes f !! p = Some q -> id ∈ fn_children q ->
    exists n, nodes f !! id = Some n /\ fn_parentId n = Some p;
  fk_nodup : forall p q, nodes f !! p = Some q -> NoDup (fn_children q);
  fk_named : nodes f !! "" = None;
}.

(** A computable form of it. *)
Definition fake_okb (f : FakeBookmarks) : bool :=
  forallb (fun kv =>
    match fn_parentId kv.2 with
    | None => true
    | Some p => match nodes f !! p with Some q => bool_decide (kv.1 ∈ fn_children q) | None => false end
    end &&
    forallb (fun id => match nodes f !! id with
                       | Some n => bool_decide (fn_parentId n = Some kv.1)
                       | None => false
                       end) (fn_children kv.2) &&
    bool_decide (NoDup (fn_children kv.2))) (map_to_list (nodes f)) && bool_decide (nodes f !! "" = None).

Lemma fake_okb_ok f : fake_okb f = true -> fake_ok f.
Proof.
  unfold fake_okb. rewrite andb_true_iff, forallb_forall. intros [H He%bool_decide_eq_true].
  assert (forall id n, nodes f !! id = Some n ->
    match fn_parentId n with
    | None => true
    | Some p => match nodes f !! p with Some q => bool_decide (id ∈ fn_children q) | None => false end
    end = true /\ (forall c, c ∈ fn_children n -> match nodes f !! c with
      | Some m => bool_decide (fn_parentId m = Some id) | None => false end = true) /\ NoDup (fn_children n)) as Hall.
  { intros id n Hn. specialize (H (id, n)). cbn [fst snd] in H. rewrite !andb_true_iff, forallb_forall, bool_decide_eq_true in H.
    destruct H as [[H1 H2] H3]; [by apply list_elem_of_In, elem_of_map_to_list|].
    split_and!; [done| |done]. intros c Hc. by apply H2, list_elem_of_In. }
  split.
  - intros id n p Hn Hp. destruct (Hall id n Hn) as (H1 & _ & _). rewrite Hp in H1.
    destruct (nodes f !! p) as [q|]; [|done]. apply bool_decide_eq_true in H1. eauto.
  - intros p q id Hq Hid. destruct (Hall p q Hq) as (_ & H2 & _). specialize (H2 id Hid).
    destruct (nodes f !! id) as [n|]; [|done]. apply bool_decide_eq_true in H2. eauto.
  - intros p q Hq. by apply (Hall p q Hq).
  - done.
Qed.

(** ** Lists *)

Lemma splice_out_filter id l : NoDup l -> id ∈ l -> splice_out id l = filter (fun i => i <> id) l.
Proof.
  intros Hnd Hin. unfold splice_out. apply list_elem_of_split in Hin as (l1 & l2 & ->).
  apply NoDup_app in Hnd as (_ & Hd & [Hr _]%NoDup_cons).
  assert (id ∉ l1) as Hl by (intros Hl; apply (Hd id Hl); left).
  change (FakeBookmarks.index_of id) with (BookmarkApply.index_of id). rewrite index_of_app by done.
  assert (drop (Datatypes.S (length l1)) (l1 ++ id :: l2) = l2) as -> by by clear; induction l1.
  rewrite take_app_length, filter_app, filter_cons_False by (by intros H; apply H). by rewrite !filter_absent.
Qed.

Lemma splice_in_insert i id l : 0 <= i -> splice_in i id l = insert_at (Z.to_nat i) id l.
Proof. intros H. unfold splice_in, insert_at. by destruct (Z.ltb_spec i 0); [lia|]. Qed.

(** ** What a folder holds *)

Lemma view_flat_ok id f n : fake_ok f -> nodes f !! id = Some n -> exists v, view_flat id f = inr v /\ tn_id v = id.
Proof.
  intros [Hu _ _ He] Hn. unfold view_flat. cbn. unfold must. rewrite Hn. unfold own_index.
  destruct (fn_parentId n) as [p|] eqn:Ep; [|eauto]. destruct (Hu id n p Hn Ep) as (q & Hq & _).
  destruct (String.eqb_spec p ""); [congruence|]. rewrite Hq. eauto.
Qed.

Lemma views_flat_ids ids f : fake_ok f -> (forall id, id ∈ ids -> is_Some (nodes f !! id)) ->
  exists vs, views_flat ids f = inr vs /\ map tn_id vs = ids.
Proof.
  intros Hf. induction ids as [|id ids IH]; intros H; [by exists []|]. destruct (H id ltac:(left)) as [n Hn].
  destruct (view_flat_ok id f n Hf Hn) as (v & Hv & Ev). destruct IH as (vs & Hvs & Evs); [intros; apply H; by right|].
  exists (v :: vs). cbn [views_flat map]. rewrite Hv, Hvs. split; [done|]. by rewrite Ev, Evs.
Qed.

Lemma fake_children p f ids : fake_ok f -> child_ids p f = Some ids <-> fn_children <$> nodes f !! p = Some ids.
Proof.
  intros Hf. pose proof (fk_down f Hf) as Hd. unfold child_ids. cbn [getChildren fake_chrome]. unfold fake_getChildren, must.
  destruct (nodes f !! p) as [q|] eqn:Eq; [|done]. cbn [fmap option_fmap option_map].
  destruct (views_flat_ids (fn_children q) f Hf) as (vs & -> & E).
  { intros id Hid. destruct (Hd p q id Eq Hid) as (n & Hn & _). eauto. }
  by rewrite E.
Qed.

(** What a successful [fake_move] does. *)
Lemma fake_move_inv id p i f f' : fake_move id p (Some i) f = (inr tt, f') ->
  exists n old oldParent, nodes f !! id = Some n /\ fn_parentId n = Some old /\ nodes f !! old = Some oldParent /\
    is_Some (nodes f !! p) /\
    let j := if String.eqb p old && (default (-1) (Z.of_nat <$> FakeBookmarks.index_of id (fn_children oldParent)) <? i) then i - 1 else i in
    f' = edit_node p (fun q => set_children (splice_in j id (fn_children q)) q)
           (edit_node id (set_parent p) (edit_node old (fun q => set_children (splice_out id (fn_children q)) q) f)).
Proof.
  unfold fake_move, must. intros H. destruct (nodes f !! id) as [n|] eqn:En; [|done].
  destruct (fn_parentId n) as [old|] eqn:Eo; [|done]. destruct (nodes f !! old) as [q|] eqn:Eq; [|done].
  destruct (nodes (edit_node id _ _) !! p) as [q'|] eqn:Eq'; [|done]. injection H as <-. exists n, old, q. split_and!; try done.
  assert (is_Some (nodes (edit_node id (set_parent p) (edit_node old (fun q => set_children (splice_out id (fn_children q)) q) f)) !! p)) as Hs by eauto.
  unfold edit_node in Hs. cbn [nodes] in Hs. by rewrite !lookup_alter_is_Some in Hs.
Qed.

(** The nodes after a move: only the two folders and the mover differ. *)
Definition kids_after (id p : string) (j : Z) (old k : string) (cs : list string) : list string :=
  let cs := if decide (k = old) then filter (fun i => i <> id) cs else cs in
  if decide (k = p) then insert_at (Z.to_nat j) id cs else cs.

Lemma fake_move_nodes id p i f f' : fake_ok f -> 0 <= i -> fake_move id p (Some i) f = (inr tt, f') ->
  exists old oldParent n j, nodes f !! id = Some n /\ fn_parentId n = Some old /\ nodes f !! old = Some oldParent /\ id ∈ fn_children oldParent /\
    is_Some (nodes f !! p) /\
    j = (if String.eqb p old && (default (-1) (Z.of_nat <$> FakeBookmarks.index_of id (fn_children oldParent)) <? i) then i - 1 else i) /\
    forall k, nodes f' !! k = (fun m => mkFakeNode (fn_title m) (fn_url m) (if decide (k = id) then Some p else fn_parentId m)
      (kids_after id p j old k (fn_children m))) <$> nodes f !! k.
Proof.
  intros Hf Hi H. apply fake_move_inv in H as (n & old & q & Hn & Ho & Hq & Hp & ->). cbn zeta.
  destruct Hf as [Hu Hd Hnd _]. destruct (Hu id n old Hn Ho) as (q0 & E0 & Hin). rewrite Hq in E0. injection E0 as <-.
  exists old, q, n. set (j := if _ && _ then i - 1 else i). exists j.
  assert (0 <= j) as Hj.
  { subst j. destruct (String.eqb p old && _) eqn:E; [|lia]. apply andb_true_iff in E as [_ E]. apply Z.ltb_lt in E.
    destruct (FakeBookmarks.index_of id (fn_children q)) eqn:Ei; cbn in E; [lia|].
    apply (index_of_elem id) in Hin as [x Hx]. unfold BookmarkApply.index_of in Hx. unfold FakeBookmarks.index_of in Ei. congruence. }
  split_and!; [done..|]. generalize dependent j. intros j Hj k. destruct Hp as [q' Hq']. unfold edit_node, kids_after. cbn [nodes].
  rewrite !lookup_alter. specialize (Hnd old q Hq).
  repeat case_decide; subst; try congruence; rewrite ?Hn, ?Hq, ?Hq' in *; simplify_eq; cbn;
    rewrite ?splice_in_insert by done; rewrite ?splice_out_filter by done; try done.
  by destruct (nodes f !! k) as [[]|].
Qed.

Lemma insert_at_perm {A} n (x : A) l : Permutation (insert_at n x l) (x :: l).
Proof. unfold insert_at. rewrite <- Permutation_middle. by rewrite take_drop. Qed.

Lemma kids_after_elem id p j old k cs i : (id ∈ cs -> k = old) ->
  i ∈ kids_after id p j old k cs <-> (i = id /\ k = p) \/ (i <> id /\ i ∈ cs).
Proof.
  intros Hid. unfold kids_after. repeat case_decide; rewrite ?insert_at_perm, ?elem_of_cons, ?list_elem_of_filter;
    destruct (decide (i = id)) as [->|]; tauto.
Qed.

Lemma kids_after_nodup id p j old k cs : (id ∈ cs -> k = old) -> NoDup cs -> NoDup (kids_after id p j old k cs).
Proof.
  intros Hid Hnd. unfold kids_after. repeat case_decide; rewrite ?insert_at_perm, ?NoDup_cons, ?list_elem_of_filter;
    split_and?; try tauto; by apply NoDup_filter || done.
Qed.

Lemma fake_move_ok id p i f f' : fake_ok f -> 0 <= i -> fake_move id p (Some i) f = (inr tt, f') -> fake_ok f'.
Proof.
  intros Hf Hi H. apply fake_move_nodes in H as (old & q & n & j & Hn & Ho & Hq & Hin & [q' Hq'] & _ & Hk); [|done..].
  destruct Hf as [Hu Hd Hnd He].
  assert (forall k m, nodes f !! k = Some m -> id ∈ fn_children m -> k = old) as Hold.
  { intros k m Hm Hid. destruct (Hd k m id Hm Hid) as (n' & Hn' & E). congruence. }
  split.
  - intros k m' pk. rewrite Hk. intros (m & Hm & ->)%fmap_Some Hp. cbn in Hp. case_decide as Ek.
    + injection Hp as <-. rewrite Hk, Hq'. eexists. split; [done|]. cbn. rewrite kids_after_elem by eauto. by left.
    + destruct (Hu k m pk Hm Hp) as (q1 & Hq1 & Hin1). rewrite Hk, Hq1. eexists. split; [done|]. cbn.
      rewrite kids_after_elem by eauto. by right.
  - intros k m' c. rewrite Hk. intros (m & Hm & ->)%fmap_Some Hc. cbn in Hc. rewrite kids_after_elem in Hc by eauto.
    rewrite Hk. destruct Hc as [[-> ->]|[Hne Hc]].
    + rewrite Hn. eexists. split; [done|]. cbn. by case_decide.
    + destruct (Hd k m c Hm Hc) as (n1 & -> & E). eexists. split; [done|]. cbn. by case_decide.
  - intros k m'. rewrite Hk. intros (m & Hm & ->)%fmap_Some. apply kids_after_nodup; eauto.
  - by rewrite Hk, He.
Qed.

Lemma fake_move_into id p i f f' ids : fake_ok f -> fake_move id p (Some i) f = (inr tt, f') -> child_ids p f = Some ids ->
  NoDup ids -> 0 <= i -> child_ids p f' = Some (place id i ids).
Proof.
  intros Hf H Hids Hnd Hi. pose proof (fake_move_ok _ _ _ _ _ Hf Hi H) as Hf'.
  apply (fake_children p f) in Hids; [|done]. apply fake_children; [done|].
  apply fake_move_nodes in H as (old & q & n & j & Hn & Ho & Hq & Hin & _ & Ej & Hk); [|done..].
  rewrite Hk. apply fmap_Some in Hids as (m & Hm & ->). rewrite Hm. cbn. f_equal.
  unfold kids_after. rewrite decide_True by done. unfold place.
  destruct (decide (p = old)) as [->|Hne].
  - rewrite Hq in Hm. injection Hm as <-. rewrite String.eqb_refl in Ej. cbn [andb] in Ej.
    apply (index_of_elem id) in Hin as [x Hx]. change (FakeBookmarks.index_of id) with (BookmarkApply.index_of id) in Ej. rewrite Hx in *. cbn in Ej. by subst j.
  - assert (id ∉ fn_children m) as Hid.
    { intros Hid. destruct Hf as [_ Hd _ _]. destruct (Hd p m id Hm Hid) as (n' & Hn' & E). congruence. }
    destruct (String.eqb_spec p old) as [|_]; [done|]. cbn [andb] in Ej. subst j. rewrite filter_absent by done.
    destruct (BookmarkApply.index_of id (fn_children m)) as [x|] eqn:Ex; [|done]. by destruct Hid; apply index_of_elem; eauto.
Qed.

Lemma fake_move_out id p i f f' q ids : fake_ok f -> 0 <= i -> fake_move id p (Some i) f = (inr tt, f') ->
  child_ids q f = Some ids -> q <> p -> child_ids q f' = Some (filter (fun i => i <> id) ids).
Proof.
  intros Hf Hi H Hids Hne. pose proof (fake_move_ok _ _ _ _ _ Hf Hi H) as Hf'.
  apply (fake_children q f) in Hids; [|done]. apply fake_children; [done|].
  apply fake_move_nodes in H as (old & q0 & n & j & Hn & Ho & Hq & Hin & _ & _ & Hk); [|done..].
  rewrite Hk. apply fmap_Some in Hids as (m & Hm & ->). rewrite Hm. cbn. f_equal.
  unfold kids_after. rewrite (decide_False (P := q = p)) by done. case_decide as Eo; [done|].
  rewrite filter_absent; [done|]. intros Hid. destruct Hf as [_ Hd _ _]. destruct (Hd q m id Hm Hid) as (n' & Hn' & E). congruence.
Qed.

#[local] Instance fake_laws : ChromeMoveLaws FakeBookmarks := {|
  tree_ok := fake_ok;
  move_ok := fake_move_ok;
  move_into := fake_move_into;
  move_out := fake_move_out;
|}.
