(* ===== verification/BookmarkRetryFacts.v ===== *)
(** * Retrying deferred bookmarks terminates

    Materializing a folder retries what waited for it, which may materialize
    further folders. Every retry works on fewer waiting records: the one being
    retried has left the table, and the objects that come back into it were
    in it before. *)

From S2P Require Import Prelude JsMap Types Util Storage StorageFacts MaintenanceFacts Engine RestorePoints Bookmarks BookmarkReadFacts BookmarkApply BookmarkMoveFacts.

Open Scope Z_scope.
Open Scope js_scope.

(** ** Two computations that do the same

    [agree P m1 m2 Q X]: from a state in [P] both do the same, and [m1] ends as
    [triple] says. *)

Section agree.
Context {S E : Type}.

Definition agree {A} (P : S -> Prop) (m1 m2 : M S E A) (Q : A -> S -> Prop) (X : S -> Prop) : Prop :=
  forall s, P s -> m1 s = m2 s /\ match m1 s with (inr a, s') => Q a s' | (inl _, s') => X s' end.

Lemma agree_same {A} P (m : M S E A) Q X : triple P m Q (fun _ => X) -> agree P m m Q X.
Proof. intros H s Hs. split; [done|]. by apply H. Qed.

Lemma agree_bind {A B} P (m1 m2 : M S E A) (k1 k2 : A -> M S E B) Q R X :
  agree P m1 m2 Q X -> (forall a, agree (Q a) (k1 a) (k2 a) R X) -> agree P (bind m1 k1) (bind m2 k2) R X.
Proof.
  intros Hm Hk s Hs. unfold bind. destruct (Hm s Hs) as [<- H]. destruct (m1 s) as [[e|a] s']; [done|]. by apply Hk.
Qed.

Lemma agree_then {A B} P (m : M S E A) (k1 k2 : A -> M S E B) Q R X :
  triple P m Q (fun _ => X) -> (forall a, agree (Q a) (k1 a) (k2 a) R X) -> agree P (bind m k1) (bind m k2) R X.
Proof. intros H. by apply agree_bind, agree_same. Qed.

Lemma agree_conseq {A} (P P' : S -> Prop) (m1 m2 : M S E A) (Q Q' : A -> S -> Prop) (X X' : S -> Prop) :
  agree P m1 m2 Q X -> (forall s, P' s -> P s) -> (forall a s, Q a s -> Q' a s) -> (forall s, X s -> X' s) ->
  agree P' m1 m2 Q' X'.
Proof. intros H HP HQ HX s Hs. destruct (H s (HP s Hs)) as [? Hm]. split; [done|]. destruct (m1 s) as [[]]; auto. Qed.

Lemma agree_pure {A} (phi : Prop) (P : S -> Prop) (m1 m2 : M S E A) Q X : (phi -> agree P m1 m2 Q X) ->
  agree (fun s => P s /\ phi) m1 m2 Q X.
Proof. intros H s [Hs Hp]. by apply H. Qed.

Lemma agree_for_each {A} P (l : list A) (f1 f2 : A -> M S E unit) X : (forall a, a ∈ l -> agree P (f1 a) (f2 a) (fun _ => P) X) ->
  agree P (for_each l f1) (for_each l f2) (fun _ => P) X.
Proof.
  induction l as [|a l IH]; intros H; cbn [for_each]; [by apply agree_same, triple_ret|].
  apply agree_bind with (Q := fun _ => P); [apply H; left|]. intros _. apply IH. intros b Hb. apply H. by right.
Qed.
End agree.

Lemma sort_by_elem {A} (f : A -> string) (l : list A) x : x ∈ sort_by f l <-> x ∈ l.
Proof.
  induction l as [|y l IH]; [done|]. cbn. fold (sort_by f l). rewrite elem_of_cons, <- IH. generalize (sort_by f l). clear.
  intros l. induction l as [|z l IH]; cbn; [by rewrite elem_of_cons|]. destruct (str_leb (f y) (f z)); [by rewrite elem_of_cons|].
  rewrite !elem_of_cons, IH. tauto.
Qed.

(** ** Finding a mapping by its object *)

Lemma mapping_filter_insert (m : gmap string ObjectMappingRecord) k r q : om_objectId r <> q -> m !! k = None ->
  filter (fun x => om_objectId x.2 = q) (rows (<[k := r]> m)) = filter (fun x => om_objectId x.2 = q) (rows m).
Proof.
  intros Hr Hk. apply (sorting.StronglySorted_unique_strong (fun x y => x.1 <s y.1)).
  - intros x y _ _ Hxy Hyx. by apply str_lt_asym in Hxy.
  - apply key_sorted_filter, rows_key_sorted.
  - apply key_sorted_filter, rows_key_sorted.
  - rewrite !rows_perm, map_to_list_insert by done. by rewrite filter_cons_False.
Qed.

Lemma mapping_put db r q : om_objectId r <> q -> object_mappings db !! om_key r = None ->
  getMappingByObjectId q (putMapping r db) = getMappingByObjectId q db.
Proof. intros Hr Hk. unfold getMappingByObjectId, putMapping, put_mapping. cbn. by rewrite mapping_filter_insert. Qed.

Lemma mapping_delete db t i q :
  (forall r, object_mappings db !! mappingKey t i = Some r -> om_objectId r <> q) ->
  getMappingByObjectId q (deleteMappingByLocalId t i db) = getMappingByObjectId q db.
Proof.
  intros H. unfold getMappingByObjectId, deleteMappingByLocalId. cbn.
  destruct (object_mappings db !! mappingKey t i) as [r|] eqn:E; [|by rewrite delete_id].
  rewrite <- (insert_delete_id (object_mappings db) (mappingKey t i) r) at 2 by done.
  rewrite mapping_filter_insert; [done|by apply H|apply lookup_delete_eq].
Qed.

Lemma mapping_found db q r : getMappingByObjectId q db = Some r ->
  exists k, object_mappings db !! k = Some r /\ om_objectId r = q.
Proof.
  unfold getMappingByObjectId. intros ([k r'] & Hh & E)%fmap_Some. cbn in E. subst r'.
  assert ((k, r) ∈ filter (fun x => om_objectId x.2 = q) (rows (object_mappings db))) as Hin.
  { destruct (filter _ _); [done|]. injection Hh as ->. left. }
  apply list_elem_of_filter in Hin as [Eq Hin]. exists k. split; [|done]. by apply (index_elem _ _ _ _ (rows_perm _)).
Qed.

Section retry.
Context {Br : Type} `{Env : BookmarkEnv Br}.
Abbreviation State := (BmState (Br := Br)).

(** ** What leaves the mappings and the waiting records alone *)

Definition same_core (s s' : State) : Prop :=
  object_mappings s'.1 = object_mappings s.1 /\ deferred_materializations s'.1 = deferred_materializations s.1 /\
  forall r, ba_roots s.2 = Some r -> ba_roots s'.2 = Some r.

#[local] Instance same_core_pre : PreOrder same_core.
Proof. split; [done|]. intros s1 s2 s3 (A1 & A2 & A3) (B1 & B2 & B3). split_and!; [congruence..|auto]. Qed.

Definition keeps_core {A} (m : Bm (Br := Br) A) : Prop := forall s, same_core s (m s).2.

Lemma keeps_core_bind {A B} (m : Bm A) (k : A -> Bm B) : keeps_core m -> (forall a, keeps_core (k a)) -> keeps_core (bind m k).
Proof using Type.
  intros Hm Hk s. unfold bind. specialize (Hm s). destruct (m s) as [[e|a] s']; [done|]. cbn in Hm. etrans; [exact Hm|apply Hk].
Qed.
Lemma keeps_core_try {A} (m : Bm A) h : keeps_core m -> (forall e, keeps_core (h e)) -> keeps_core (try_catch m h).
Proof using Type.
  intros Hm Hh s. unfold try_catch. specialize (Hm s). destruct (m s) as [[e|a] s']; [|done]. cbn in Hm. etrans; [exact Hm|apply Hh].
Qed.
Lemma keeps_core_pure {A} (a : A) : keeps_core (ret a).
Proof using Type. by intros s. Qed.
Lemma keeps_core_store_get {A} (f : DB -> A) : keeps_core (store_get f).
Proof using Type. by intros s. Qed.
Lemma keeps_core_get_app {A} (f : BmApp -> A) : keeps_core (get_app f).
Proof using Type. by intros s. Qed.
Lemma keeps_core_chrome_get {A} (f : Br -> sync_error + A) : keeps_core (chrome_get f).
Proof using Type. by intros s. Qed.
Lemma keeps_core_chrome_do {A} (f : Br -> (sync_error + A) * Br) : keeps_core (chrome_do f).
Proof using Type. intros s. unfold chrome_do. by destruct (f _). Qed.
Lemma keeps_core_draw {A} (f : nat -> A) : keeps_core (draw f).
Proof using Type. by intros s. Qed.

Lemma bookmarkRoots_cached (s : State) r : ba_roots s.2 = Some r -> bookmarkRoots s = (inr r, s).
Proof using Type. intros H. unfold bookmarkRoots, bind, get_app. by rewrite H. Qed.

Lemma bookmarkRoots_caches (s s' : State) r : bookmarkRoots s = (inr r, s') -> ba_roots s'.2 = Some r.
Proof using Type.
  intros H. unfold bookmarkRoots in H. bok H E. unfold get_app in E. injection E as <- <-.
  destruct (ba_roots s.2) as [r0|] eqn:Er; [unfold ret in H; by injection H as <- <-|].
  bok H E. unfold bind, with_app, modify, ret in H. by injection H as <- <-.
Qed.

Lemma keeps_core_roots : keeps_core bookmarkRoots.
Proof using Type.
  intros s. pose proof (keeps_db_roots s) as Hdb. split_and!; [by rewrite Hdb..|]. intros r Hr. by rewrite (bookmarkRoots_cached s r).
Qed.
Lemma keeps_core_chromiumIds ids : keeps_core (chromiumIdsFor ids).
Proof using Type.
  apply keeps_core_bind; [apply keeps_core_roots|]. intros r. apply keeps_core_bind; [apply keeps_core_store_get|]. intros. apply keeps_core_pure.
Qed.
Lemma keeps_core_exists o c : keeps_core (mappedNodeExists o c).
Proof using Type.
  apply keeps_core_bind; [apply keeps_core_roots|]. intros r. case_match; [apply keeps_core_pure|].
  apply keeps_core_try; [|intros; apply keeps_core_pure]. apply keeps_core_bind; [apply keeps_core_chrome_get|].
  intros. apply keeps_core_pure.
Qed.
Lemma keeps_core_match p x : keeps_core (findUnlinkedMatch p x).
Proof using Type.
  apply keeps_core_bind; [apply keeps_core_roots|]. intros r. apply keeps_core_bind; [apply keeps_core_chrome_get|]. intros l.
  destruct (filter _ l); [apply keeps_core_pure|]. apply keeps_core_bind; [apply keeps_core_store_get|]. intros. apply keeps_core_pure.
Qed.
Lemma keeps_core_conflict o t x : keeps_core (logConflict o t x).
Proof using Type. apply keeps_core_bind; [apply keeps_core_draw|]. by intros a s. Qed.

(** A predicate that only depends on these. *)
Definition stable (P : State -> Prop) : Prop := forall s s', same_core s s' -> P s -> P s'.

Lemma triple_core {A} P (m : Bm A) : stable P -> keeps_core m -> triple P m (fun _ => P) (fun _ => P).
Proof using Type. intros HP Hm s Hs. specialize (Hm s). destruct (m s) as [[e|a] s']; by eapply HP. Qed.

(** ** The browser's node for an object *)

Definition chromium_of (r : BookmarkRoots) (db : DB) (o : string) : option string :=
  match truthy_str (jm_get (chromiumIdByObjectId r) o) with
  | Some c => Some c
  | None => chromiumLocalId <$> getMappingByObjectId o db
  end.

Lemma sets_wf {A} (g : string -> option A) l m : jm_wf m ->
  jm_wf (foldl (fun m i => match g i with Some v => jm_set m i v | None => m end) m l).
Proof using Type.
  revert m. induction l as [|i l IH]; intros m Hm; [done|]. cbn [foldl]. apply IH. destruct (g i); auto with js.
Qed.

Lemma copies_wf {A B} (f : A -> B) (l : jmap string A) m : jm_wf m -> jm_wf (foldl (fun m kv => jm_set m kv.1 (f kv.2)) m l).
Proof using Type. revert m. induction l as [|kv l IH]; intros m Hm; [done|]. cbn [foldl]. apply IH. auto with js. Qed.

Lemma copies_get {A B} (f : A -> B) (l : jmap string A) m i : jm_wf l ->
  jm_get (foldl (fun m kv => jm_set m kv.1 (f kv.2)) m l) i =
  match jm_get l i with Some a => Some (f a) | None => jm_get m i end.
Proof using Type.
  unfold jm_wf, jm_keys. revert m. induction l as [|[k a] l IH]; intros m Hwf; [done|]. cbn in Hwf. apply NoDup_cons in Hwf as [Hk Hwf].
  cbn [foldl fst snd]. rewrite IH by done. cbn [jm_get]. destruct (decide (i = k)) as [->|Hne].
  - assert (jm_get l k = None) as -> by by apply jm_get_None. apply jm_get_set_eq.
  - by rewrite jm_get_set_ne.
Qed.

Lemma chromiumIdsFor_get ids (s s' : State) m : chromiumIdsFor ids s = (inr m, s') ->
  exists r, ba_roots s'.2 = Some r /\ jm_wf m /\ forall i, i ∈ ids -> jm_get m i = chromium_of r s'.1 i.
Proof using Type.
  intros H. unfold chromiumIdsFor in H. bok H E. apply bookmarkRoots_caches in E as Hr. bok H E2.
  unfold store_get in E2. injection E2 as <- <-. unfold ret in H. injection H as H <-.
  exists x. set (root_of := fun id => truthy_str (jm_get (chromiumIdByObjectId x) id)) in *.
  pose proof (sets_wf root_of ids [] jm_nil_wf) as Hwf. set (needs := filter _ ids) in *.
  assert (jm_wf (getMappingsByObjectIds needs x0.1)) as Hmw.
  { unfold getMappingsByObjectIds. destruct needs; [apply jm_nil_wf|apply getAllChunked_wf]. }
  split_and!; [done| |].
  - rewrite <- H. by apply copies_wf.
  - intros i Hi. rewrite <- H. rewrite copies_get by done. rewrite (getAllChunked_aux ids root_of), decide_True by done.
    assert (jm_get (getMappingsByObjectIds needs x0.1) i = if decide (i ∈ needs) then getMappingByObjectId i x0.1 else None) as ->.
    { unfold getMappingsByObjectIds. destruct needs; [by rewrite decide_False by apply not_elem_of_nil|].
      apply (getAllChunked_get _ (fun id => getMappingByObjectId id x0.1)). }
    unfold chromium_of. fold (root_of i). case_decide as Hn; unfold needs in Hn; rewrite list_elem_of_filter in Hn.
    + destruct Hn as [Hn _]. change (root_of i = None) in Hn. rewrite Hn. by destruct (getMappingByObjectId i x0.1).
    + destruct (root_of i) as [c|] eqn:Ei; [done|]. by destruct Hn.
Qed.

(** ** Well-formed states *)

Section bound.
(** The objects that may wait. *)
Variable T : gset string.

(** Every record is under its own key, those that wait are among [W], and an
    object that may wait is mapped as a bookmark. *)
Record retry_inv (W : gset string) (s : State) : Prop := {
  ri_deferred : forall k r, deferred_materializations s.1 !! k = Some r -> df_objectId r = k /\ k ∈ W;
  ri_mappings : mappings_wf s.1;
  ri_typed : forall k r, object_mappings s.1 !! k = Some r -> om_objectId r ∈ T -> om_objectType r = MAP_TYPE;
}.

Lemma retry_inv_stable W : stable (retry_inv W).
Proof using Type.
  intros s s' (E1 & E2 & _) [H1 H2 H3]. split; [by rewrite E2|unfold mappings_wf; by rewrite E1|by rewrite E1].
Qed.

Lemma retry_inv_mono W W' s : W ⊆ W' -> retry_inv W s -> retry_inv W' s.
Proof using Type. intros HW [H1 H2 H3]. split; [|done..]. intros k r Hk. destruct (H1 k r Hk). set_solver. Qed.

(** The node of [q] is known. *)
Definition resolves (q : string) (s : State) : Prop := exists r c, ba_roots s.2 = Some r /\ truthy_str (chromium_of r s.1 q) = Some c.

Lemma resolves_stable q : stable (resolves q).
Proof using Type.
  intros s s' (E1 & _ & E3) (r & c & Hr & Hc). exists r, c. split; [by apply E3|]. unfold chromium_of, getMappingByObjectId in *.
  by rewrite E1.
Qed.

Lemma stable_and P Q : stable P -> stable Q -> stable (fun s => P s /\ Q s).
Proof using Type. intros HP HQ s s' Hs [? ?]. split; [by eapply HP|by eapply HQ]. Qed.

Lemma triple_defer W o t q : o ∈ W ->
  triple (retry_inv W) (deferUntilParentMaterializes o t q) (fun _ => retry_inv W) (fun _ => retry_inv W).
Proof using Type.
  intros Ho s [H1 H2 H3]. cbn. split; [|done..]. intros k r. cbn. destruct (decide (k = o)) as [->|Hne].
  - rewrite lookup_insert_eq. by intros [= <-].
  - rewrite lookup_insert_ne by done. apply H1.
Qed.

Lemma delete_inv W o (s : State) : retry_inv W s -> retry_inv (W ∖ {[o]}) (deleteDeferredMaterialization o s.1, s.2).
Proof using Type.
  intros [H1 H2 H3]. split; [|done..]. intros k r. cbn. intros [Hne Hk]%lookup_delete_Some. destruct (H1 k r Hk). set_solver.
Qed.
Lemma triple_delete W o : triple (retry_inv W) (store_put (deleteDeferredMaterialization o)) (fun _ => retry_inv (W ∖ {[o]})) (fun _ => retry_inv W).
Proof using Type. intros s H. by apply delete_inv. Qed.

Lemma triple_delete_batch W ids :
  triple (retry_inv W) (store_put (deleteDeferredMaterializationsBatch ids)) (fun _ => retry_inv W) (fun _ => retry_inv W).
Proof using Type.
  intros s [H1 H2 H3]. cbn. destruct ids as [|i ids]; [done|]. split; [|done..]. intros k r. cbn [fst deleteDeferredMaterializationsBatch].
  cbn [set_deferred deferred_materializations]. rewrite putAllChunked_map, lookup_foldl_delete. case_decide; [done|]. apply H1.
Qed.

Lemma triple_establish W o c : triple (retry_inv W) (establishMapping MAP_TYPE c o) (fun _ => retry_inv W) (fun _ => retry_inv W).
Proof using Type.
  intros s [H1 H2 H3]. cbn. split; [done|..]; intros k r Hr; cbn in Hr; unfold put_mapping in Hr;
    (apply lookup_insert_Some in Hr as [[Ek Er]|[_ Hr]]; [by subst|eauto]).
Qed.

Lemma triple_forget W c : triple (retry_inv W) (forgetMapping MAP_TYPE c) (fun _ => retry_inv W) (fun _ => retry_inv W).
Proof using Type. intros s [H1 H2 H3]. cbn. split; [done|..]; intros k r Hr; cbn in Hr; apply lookup_delete_Some in Hr as [_ Hr]; eauto. Qed.

(** What follows the choice of the folder in [applyMove]. *)
Lemma triple_place {A} W (o : string) (k : Bm A) : keeps_core k ->
  triple (retry_inv W) (do! store_put (deleteDeferredMaterialization o) in k) (fun _ => retry_inv W) (fun _ => retry_inv W).
Proof using Type.
  intros Hk. eapply triple_bind; [apply triple_delete|]. intros u.
  apply (triple_conseq _ (retry_inv (W ∖ {[o]})) _ _ (fun _ => retry_inv (W ∖ {[o]})) _ (fun _ => retry_inv (W ∖ {[o]}))).
  - apply triple_core; [apply retry_inv_stable|done].
  - done.
  - intros a s. apply retry_inv_mono. set_solver.
  - intros e s. apply retry_inv_mono. set_solver.
Qed.

(** The reading of the siblings and the browser's move. *)
Lemma keeps_core_place c p position : keeps_core (
  let! children := chrome_get (getChildren p) in
  let siblings := map tn_id children in
  let siblingIds := filter (fun id => id <> c) siblings in
  let! mappings := store_get (getMappingsByLocalIds MAP_TYPE siblingIds) in
  let! states := store_get (getFieldStatesForObjects (mapped_objects mappings siblingIds) "move") in
  let withPositions := sort_by pl_position (with_positions mappings states siblingIds) in
  let before := pl_chromiumId <$> find (fun s => str_ltb position (pl_position s)) withPositions in
  chrome_do (bm_move c p (Some (moveIndex siblings c before)))).
Proof using Type.
  apply keeps_core_bind; [apply keeps_core_chrome_get|]. intros children. cbn zeta.
  apply keeps_core_bind; [apply keeps_core_store_get|]. intros mappings.
  apply keeps_core_bind; [apply keeps_core_store_get|]. intros states. apply keeps_core_chrome_do.
Qed.

(** A move only makes the mover itself wait. *)
Lemma triple_applyMove W o t q position : o ∈ W ->
  triple (retry_inv W) (applyMove o t q position None) (fun _ => retry_inv W) (fun _ => retry_inv W).
Proof using Type.
  intros Ho. unfold applyMove. eapply triple_bind; [apply triple_core; [apply retry_inv_stable|apply keeps_core_chromiumIds]|].
  intros m. destruct (truthy_str (jm_get m o)) as [c|]; [|by apply triple_ret].
  destruct (truthy_str (jm_get m q)) as [p|]; [|by apply triple_defer]. apply triple_place, keeps_core_place.
Qed.

(** Where the destination is known, it makes nothing wait. *)
Lemma triple_applyMove_known W o t q position :
  triple (fun s => retry_inv W s /\ resolves q s) (applyMove o t q position None) (fun _ => retry_inv W) (fun _ => retry_inv W).
Proof using Type.
  intros s [Hi Hq]. unfold applyMove. pose proof (keeps_core_chromiumIds [o; q] s) as Hcore.
  unfold bind at 1. destruct (chromiumIdsFor [o; q] s) as [[e|m] s1] eqn:E; [by eapply retry_inv_stable|].
  apply chromiumIdsFor_get in E as (r & Hr & _ & Hget). cbn [snd] in Hcore.
  pose proof (resolves_stable q _ _ Hcore Hq) as (r' & p & Hr' & Hp). rewrite Hr in Hr'. injection Hr' as <-.
  pose proof (retry_inv_stable W _ _ Hcore Hi) as Hi1.
  destruct (truthy_str (jm_get m o)) as [c|]; [|done]. rewrite (Hget q), Hp by (right; left).
  by apply (triple_place W o _ (keeps_core_place c p position)).
Qed.
(** ** Linking and creating *)

Definition unlinked (c : string) (s : State) : Prop := object_mappings s.1 !! mappingKey MAP_TYPE c = None.

Lemma resolves_put q o c (s : State) : q <> o -> unlinked c s -> resolves q s -> resolves q (establishMapping MAP_TYPE c o s).2.
Proof using Type.
  intros Hne Hc (r & x & Hr & Hx). exists r, x. split; [done|]. unfold chromium_of in *. cbn [establishMapping saveMapping store_put modify fst snd].
  destruct (truthy_str (jm_get (chromiumIdByObjectId r) q)) as [c'|]; [done|]. rewrite mapping_put; [done|cbn; congruence|exact Hc].
Qed.

Lemma findUnlinked_free p x (s s' : State) c : findUnlinkedMatch p x s = (inr (Some c), s') -> unlinked c s'.
Proof using Type.
  intros H. unfold findUnlinkedMatch in H. bok H E. bok H E2. destruct (filter _ x2) as [|n l]; [done|]. revert H. generalize (n :: l). clear n l. intros candidates H. bok H E3.
  unfold store_get in E3. injection E3 as <- <-. unfold ret in H. injection H as H <-.
  apply fmap_Some in H as (node & Hn & ->). apply find_some in Hn as [Hin Hh]. apply negb_true_iff in Hh. unfold jm_has in Hh.
  rewrite getMappingsByLocalIds_get, decide_True in Hh by (apply list_elem_of_fmap_2; by apply list_elem_of_In). unfold unlinked.
  by destruct (object_mappings x3.1 !! _).
Qed.

Lemma triple_linked W o c q : q <> o ->
  triple (fun s => (retry_inv W s /\ resolves q s) /\ unlinked c s)
    (do! establishMapping MAP_TYPE c o in store_put (deleteDeferredMaterialization o))
    (fun _ s => retry_inv (W ∖ {[o]}) s /\ resolves q s) (fun _ => retry_inv W).
Proof using Type.
  intros Hne s [[Hi Hq] Hc]. unfold bind. pose proof (resolves_put q o c s Hne Hc Hq) as Hq'.
  pose proof (triple_establish W o c s Hi) as Hi'. destruct (establishMapping MAP_TYPE c o s) as [[e|[]] s1]; [done|].
  split; [by apply delete_inv|exact Hq'].
Qed.

Definition retries (W : gset string) (o : string) (retry1 retry2 : string -> Bm unit) : Prop :=
  agree (retry_inv (W ∖ {[o]})) (retry1 o) (retry2 o) (fun _ => retry_inv (W ∖ {[o]})) (retry_inv (W ∖ {[o]})).

Lemma agree_retry W o retry1 retry2 {A} (a : A) : retries W o retry1 retry2 ->
  agree (retry_inv (W ∖ {[o]})) (do! retry1 o in ret a) (do! retry2 o in ret a) (fun _ => retry_inv W) (retry_inv W).
Proof using Type.
  intros H. apply (agree_conseq (retry_inv (W ∖ {[o]})) _ _ _ (fun _ => retry_inv (W ∖ {[o]})) _ (retry_inv (W ∖ {[o]}))).
  - eapply agree_bind; [exact H|]. intros u. by apply agree_same, triple_ret.
  - done.
  - intros x s. apply retry_inv_mono. set_solver.
  - intros s. apply retry_inv_mono. set_solver.
Qed.

Lemma agree_new W o t p chromiumIds prefetched retry1 retry2 : o ∈ W -> retries W o retry1 retry2 ->
  agree (fun s => retry_inv W s /\ forall q c, truthy_str (bp_parent p) = Some q -> truthy_str (jm_get chromiumIds q) = Some c ->
      q <> o /\ resolves q s)
    (materialize_new retry1 o t p chromiumIds prefetched) (materialize_new retry2 o t p chromiumIds prefetched)
    (fun _ => retry_inv W) (retry_inv W).
Proof using Type.
  intros Ho Hretry. unfold materialize_new. destruct (truthy_str (bp_parent p)) as [q|]; cbn [mbind option_bind].
  2:{ apply agree_same. intros s [Hi _]. by apply (triple_core _ (do! ret tt in do! logConflict o t _ in ret prefetched) (retry_inv_stable W));
      [apply keeps_core_bind; [apply keeps_core_pure|]; intros; apply keeps_core_bind; [apply keeps_core_conflict|]; intros; apply keeps_core_pure|]. }
  destruct (truthy_str (jm_get chromiumIds q)) as [pc|] eqn:Eq.
  2:{ apply agree_same, (triple_conseq _ (retry_inv W) _ _ (fun _ => retry_inv W) _ (fun _ => retry_inv W)); [|by intros s [Hi _]|done|done].
      eapply triple_bind; [by apply triple_defer|]. intros u. apply triple_core; [apply retry_inv_stable|].
      apply keeps_core_bind; [apply keeps_core_conflict|]. intros. apply keeps_core_pure. }
  intros s [Hi Hq]. destruct (Hq q pc eq_refl Eq) as [Hne Hres]. clear Hq Eq. revert s Hi Hres.
  enough (agree (fun s => retry_inv W s /\ resolves q s) _ _ (fun _ => retry_inv W) (retry_inv W)) as H by (intros s ? ?; by apply H).
  assert (stable (fun s => retry_inv W s /\ resolves q s)) as Hst by (apply stable_and; [apply retry_inv_stable|apply resolves_stable]).
  destruct (match truthy_str (bp_url p) with Some u => negb (isSyncableUrl u) | None => false end).
  { apply agree_same, (triple_conseq _ (retry_inv W) _ _ (fun _ => retry_inv W) _ (fun _ => retry_inv W)); [|by intros s [Hi _]|done|done].
    apply triple_core; [apply retry_inv_stable|]. apply keeps_core_bind; [apply keeps_core_conflict|]. intros. apply keeps_core_pure. }
  eapply agree_then; [eapply triple_exn; [by apply triple_core, keeps_core_get_app|by intros e s []]|]. intros link.
  apply agree_bind with (Q := fun r s => (retry_inv W s /\ resolves q s) /\ forall c, r = Some c -> unlinked c s).
  { apply agree_same. intros s Hs. destruct link; [|by split]. pose proof (keeps_core_match pc p s) as Hc.
    destruct (findUnlinkedMatch pc p s) as [[e|r] s'] eqn:Em; cbn in Hc; [by apply (Hst _ _ Hc)|].
    split; [by apply (Hst _ _ Hc)|]. intros c ->. by eapply findUnlinked_free. }
  intros linkedId. destruct (truthy_str linkedId) as [c|] eqn:Ec.
  - apply truthy_str_ne in Ec as [-> _]. apply (agree_then _ _ _ _ (fun _ s => retry_inv (W ∖ {[o]}) s /\ resolves q s)).
    { eapply triple_conseq; [by apply triple_linked|intros s [Hs Hc]; split; [exact Hs|by apply Hc]|done|done]. }
    intros u. apply (agree_then _ _ _ _ (fun _ => retry_inv (W ∖ {[o]}))); [|intros v; by apply agree_retry].
    eapply triple_exn; [apply triple_applyMove_known|]. intros e s. apply retry_inv_mono. set_solver.
  - eapply agree_then; [eapply triple_conseq; [apply (triple_core (retry_inv W)); [apply retry_inv_stable|apply keeps_core_chrome_do]|by intros s [[Hs _] _]|done|done]|].
    intros created. apply (agree_then _ _ _ _ (fun _ => retry_inv (W ∖ {[o]}))); [|intros v; by apply agree_retry].
    eapply triple_bind; [apply triple_establish|intros u; apply triple_delete].
Qed.
(** ** Materializing *)

Lemma resolves_forget W o q mc r (s : State) : retry_inv W s -> o ∈ T -> q <> o ->
  jm_has (chromiumIdByObjectId r) o = false -> chromium_of r s.1 o = Some mc -> resolves q s ->
  resolves q (forgetMapping MAP_TYPE mc s).2.
Proof using Type.
  intros [_ Hm Ht] Ho Hne Hroot Hmc (r' & x & Hr & Hx). exists r', x. split; [done|]. unfold chromium_of in *.
  cbn [forgetMapping store_put modify fst snd]. destruct (truthy_str (jm_get (chromiumIdByObjectId r') q)) as [c'|]; [done|].
  rewrite mapping_delete; [done|]. intros ro Hro. unfold jm_has in Hroot. destruct (jm_get (chromiumIdByObjectId r) o); [done|].
  cbn [truthy_str] in Hmc. apply fmap_Some in Hmc as (r1 & Hr1 & ->). apply mapping_found in Hr1 as (k & Hk & E).
  assert (k = mappingKey MAP_TYPE (chromiumLocalId r1)) as ->.
  { rewrite (Hm _ _ Hk). by rewrite (Ht _ _ Hk) by by rewrite E. }
  rewrite Hro in Hk. injection Hk as ->. congruence.
Qed.

Lemma mappedNodeExists_root o c r (s s' : State) : ba_roots s.2 = Some r -> mappedNodeExists o c s = (inr false, s') ->
  jm_has (chromiumIdByObjectId r) o = false.
Proof using Type.
  intros Hr H. unfold mappedNodeExists, bind in H. rewrite (bookmarkRoots_cached s r Hr) in H. by destruct (jm_has _ o).
Qed.

Lemma agree_materialize W o t p retry1 retry2 : o ∈ W -> o ∈ T -> retries W o retry1 retry2 ->
  agree (retry_inv W) (materialize retry1 o t p None) (materialize retry2 o t p None) (fun _ => retry_inv W) (retry_inv W).
Proof using Type.
  intros Ho HT Hretry. unfold materialize. set (ids := match truthy_str (bp_parent p) with Some q => [o; q] | None => [o] end).
  apply agree_bind with (Q := fun m s => retry_inv W s /\ exists r, ba_roots s.2 = Some r /\ jm_wf m /\
    forall i, i ∈ ids -> jm_get m i = chromium_of r s.1 i).
  { apply agree_same. intros s Hs. pose proof (keeps_core_chromiumIds ids s) as Hc.
    destruct (chromiumIdsFor ids s) as [[e|m] s'] eqn:E; cbn in Hc; [by eapply retry_inv_stable|].
    split; [by eapply retry_inv_stable|]. by apply chromiumIdsFor_get in E. }
  intros m. assert (forall q, truthy_str (bp_parent p) = Some q -> q ∈ ids) as Hq.
  { intros q Eq. unfold ids. rewrite Eq. right. left. }
  assert (o ∈ ids) as Hoin by (unfold ids; destruct (truthy_str (bp_parent p)); left).
  destruct (jm_get m o) as [mc|] eqn:Em.
  2:{ eapply agree_conseq; [by apply (agree_new W)| |done|done]. intros s (Hi & r & Hr & _ & Hget). split; [done|].
      intros q c Eq Hc. split; [intros ->; by rewrite Em in Hc|]. exists r, c. by rewrite <- Hget by auto. }
  apply agree_bind with (Q := fun e s => retry_inv W s /\ exists r, ba_roots s.2 = Some r /\ jm_wf m /\
    (forall i, i ∈ ids -> jm_get m i = chromium_of r s.1 i) /\ (e = false -> jm_has (chromiumIdByObjectId r) o = false)).
  { apply agree_same. intros s (Hi & r & Hr & Hwf & Hget). pose proof (keeps_core_exists o mc s) as Hc.
    destruct (mappedNodeExists o mc s) as [[e|e] s'] eqn:E; cbn in Hc; [by eapply retry_inv_stable|].
    split; [by eapply retry_inv_stable|]. destruct Hc as (C1 & _ & C3). exists r. split_and!; [by apply C3|done| |].
    - intros i Hi'. rewrite Hget by done. unfold chromium_of, getMappingByObjectId. by rewrite C1.
    - intros ->. by eapply mappedNodeExists_root. }
  intros [].
  { apply agree_same, (triple_conseq _ (retry_inv W) _ _ (fun _ => retry_inv W) _ (fun _ => retry_inv W)); [|by intros s [Hi _]|done|done].
    apply triple_place, keeps_core_pure. }
  apply (agree_then _ _ _ _ (fun _ s => retry_inv W s /\ forall q c, truthy_str (bp_parent p) = Some q ->
    truthy_str (jm_get (jm_delete m o) q) = Some c -> q <> o /\ resolves q s)); [|intros u; by apply (agree_new W)].
  intros s (Hi & r & Hr & Hwf & Hget & Hroot). split; [by apply triple_forget|]. intros q c Eq Hc.
  rewrite jm_get_delete in Hc by done. case_decide as Hne; [done|]. split; [congruence|].
  apply (resolves_forget W o q mc r); [done..|congruence|by apply Hroot|by rewrite <- Hget|].
  exists r, c. by rewrite <- Hget by auto.
Qed.

(** ** Retrying *)

Lemma agree_record W rd record retry1 retry2 : df_objectId record ∈ W -> W ⊆ T -> retries W (df_objectId record) retry1 retry2 ->
  agree (retry_inv W) (retry_record retry1 rd record) (retry_record retry2 rd record) (fun _ => retry_inv W) (retry_inv W).
Proof using Type.
  intros Ho HT Hretry. unfold retry_record. destruct (negb _); [by apply agree_same, triple_ret|].
  destruct (jm_has _ _).
  - destruct (truthy_str _) as [q|]; apply agree_same; [by apply triple_applyMove|by apply triple_ret].
  - eapply agree_bind; [apply agree_materialize; [done|set_solver|done]|]. intros u. by apply agree_same, triple_ret.
Qed.

Lemma agree_deferred stuck1 stuck2 n1 n2 W parent : (size W < n1)%nat -> (size W < n2)%nat -> W ⊆ T ->
  agree (retry_inv W) (retry_deferred stuck1 n1 parent) (retry_deferred stuck2 n2 parent) (fun _ => retry_inv W) (retry_inv W).
Proof using Type.
  revert n2 W parent. induction n1 as [|n1 IH]; intros n2 W parent H1 H2 HT; [lia|]. destruct n2 as [|n2]; [lia|].
  cbn [retry_deferred]. apply agree_bind with (Q := fun l s => retry_inv W s /\ Forall (fun r => df_objectId r ∈ W) l).
  { apply agree_same. intros s Hs. cbn. split; [done|]. apply Forall_forall. intros r Hr. destruct Hs as [Hd _ _].
    unfold getDeferredMaterializationsWaitingOn in Hr. apply list_elem_of_fmap in Hr as ([k r'] & -> & [_ Hin]%list_elem_of_filter).
    apply (index_elem _ _ _ _ (rows_perm _)) in Hin. by destruct (Hd k r' Hin) as [<- ?]. }
  intros deferred. destruct deferred as [|d l]; [by apply agree_same, triple_ret; intros s []|].
  apply agree_pure. intros Hall. revert Hall. generalize (d :: l). clear d l. intros deferred Hall.
  do 4 (eapply agree_then; [apply triple_core; [apply retry_inv_stable|apply keeps_core_store_get]|intros ?]).
  eapply agree_then; [apply triple_core; [apply retry_inv_stable|apply keeps_core_chromiumIds]|intros chromiumIds].
  eapply agree_then; [apply triple_delete_batch|intros u].
  apply agree_for_each. intros r Hr. rewrite sort_by_elem in Hr. rewrite Forall_forall in Hall. apply agree_record; [by apply Hall|done|].
  specialize (Hall r Hr). assert (size (W ∖ {[df_objectId r]}) < size W)%nat.
  { apply subset_size. split; [set_solver|]. intros H. specialize (H _ Hall). set_solver. }
  apply IH; [lia..|set_solver].
Qed.
End bound.

(** Every row is under its own key, and the objects that wait are mapped, if
    at all, as bookmarks. *)
Record waiting_wf (s : State) : Prop := {
  ww_deferred : forall k r, deferred_materializations s.1 !! k = Some r -> df_objectId r = k;
  ww_mappings : mappings_wf s.1;
  ww_typed : forall k r, object_mappings s.1 !! k = Some r -> is_Some (deferred_materializations s.1 !! om_objectId r) ->
    om_objectType r = MAP_TYPE;
}.

(** C17. Retrying what waits for a folder ends: what happens when the model's
    fuel runs out never matters, and more fuel than there are waiting objects
    gives the same result; and whatever then waits was waiting before. *)
Theorem retryDeferredParent_ends parent (s : State) stuck n : waiting_wf s ->
  (size (deferred_materializations s.1) < n)%nat ->
  retry_deferred stuck n parent s = retryDeferredParent parent s /\
  forall o, is_Some (deferred_materializations (retryDeferredParent parent s).2.1 !! o) ->
    is_Some (deferred_materializations s.1 !! o).
Proof.
  intros [H1 H2 H3] Hn. set (W := dom (deferred_materializations s.1) : gset string).
  assert (retry_inv W W s) as Hi.
  { split; [|done|].
    - intros k r Hk. split; [by eapply H1|]. apply elem_of_dom. eauto.
    - intros k r Hk Ho. apply (H3 k r Hk). by apply elem_of_dom. }
  unfold retryDeferredParent. edestruct (agree_deferred W (fun _ => throw (OtherError "out of fuel")) stuck
    (S (size (deferred_materializations s.1))) n W parent) as [<- Hpost]; [unfold W; rewrite size_dom; lia..|done|exact Hi|].
  split; [done|]. intros o [r Hr]. apply elem_of_dom.
  destruct (retry_deferred _ _ _ s) as [[e|u] s']; cbn in Hr; by destruct (ri_deferred _ _ _ Hpost o r Hr).
Qed.
End retry.
