(* ===== verification/BookmarkExample.v ===== *)
(** * The bookmark adapter evaluated

    A browser with a bar of three bookmarks and a folder, on the in-memory
    chrome.bookmarks of the tests: the theorems of the adapter instantiated,
    and a batch of two moves that leaves the bar out of order. *)

From stdpp Require Import pretty.
From S2P Require Import Prelude JsMap Types Util FractionalIndex Storage StorageFacts Crypto CryptoFacts Engine RestorePoints PlannerFacts Bookmarks BookmarkReadFacts FakeBookmarks BookmarkApply BookmarkCapture BookmarkBackfillFacts BookmarkImportFacts BookmarkMoveFacts FakeBookmarksFacts BookmarkRetryFacts.

Open Scope Z_scope.
Open Scope js_scope.

#[local] Existing Instances fake_chrome fake_laws example_url_parser.

Definition ex_object (n : nat) : string := "object-" +:+ pretty n.
#[local] Instance ex_object_inj : Inj (=) (=) ex_object.
Proof. intros m n H. unfold ex_object in H. by repeat apply (inj _) in H. Qed.

#[local] Instance ex_bookmark_env : BookmarkEnv FakeBookmarks := {|
  be_uuid := ex_object;
  be_now n := Z.of_nat n;
  be_iso n := "2024-01-01T00:00:00.000Z";
|}.

(** Bar: A, B, C and folder F with D. *)
Definition ex_add (parent title : string) (url : option string) (f : FakeBookmarks) : FakeBookmarks :=
  match add_node parent title url None f with inr (_, f) => f | inl _ => f end.
Definition ex_browser : FakeBookmarks :=
  ex_add "13" "D" (Some "https://d") (ex_add "1" "F" None (ex_add "1" "C" (Some "https://c")
    (ex_add "1" "B" (Some "https://b") (ex_add "1" "A" (Some "https://a") createFakeBookmarks)))).

Definition ex_app (b : FakeBookmarks) : BmApp := mkBmApp b ∅ false None 0 false 0.
Definition ex_field (o position : string) : string * FieldStateRecord :=
  (fieldStateKey o "move", mkFieldState (fieldStateKey o "move") o "move" 1 "dev" "op" OpCreate
      (JObj [("parent", JStr (root_object_id "1")); ("position", JStr position)]) None).
Definition ex_mapping (i o : string) : string * ObjectMappingRecord :=
  (mappingKey OtBookmark i, mkMapping (mappingKey OtBookmark i) OtBookmark i o).

(** A, B, C and F linked, D not; one mapping's node is gone. *)
Definition ex_db : DB :=
  set_field_state (list_to_map [ex_field "oA" "A1"; ex_field "oB" "B1"; ex_field "oC" "C1"; ex_field "oF" "D1"])
    (set_mappings (list_to_map [ex_mapping "10" "oA"; ex_mapping "11" "oB"; ex_mapping "12" "oC"; ex_mapping "13" "oF";
                                ex_mapping "99" "oGone"]) emptyDB).
Definition ex_state : BmState := (ex_db, ex_app ex_browser).

Definition result_or {E A} (d : A) (r : E + A) : A := match r with inr a => a | inl _ => d end.
Definition ex_roots : BookmarkRoots := result_or (mkRoots [] [] []) (bookmarkRoots ex_state).1.
Definition ex_resolved : BmState := (bookmarkRoots ex_state).2.
Definition ex_tree : BookmarkTreeNode := default (mkTreeNode "" None 0 "" None None []) (getTree ex_browser).

Lemma ex_mappings_wf : mappings_wf ex_db.
Proof. apply (bool_decide_unpack (map_Forall (fun k r => k = mappingKey (om_objectType r) (chromiumLocalId r)) (object_mappings ex_db))). vm_compute. exact I. Qed.

Lemma ex_tree_nodup : NoDup (tree_ids ex_tree).
Proof. apply (bool_decide_unpack _). vm_compute. exact I. Qed.

(** The linked nodes with their objects. *)
Definition ex_linked : list (string * string) :=
  omap (fun i => match root_of ex_roots i with None => pair i <$> mapped_of ex_resolved.1 i | Some _ => None end) (tree_ids ex_tree).

Lemma ex_mapping_sound : mapping_sound ex_roots ex_resolved.1 ex_tree.
Proof.
  assert (Forall (fun p => p.2 ∉ ROOT_IDS) ex_linked /\
    Forall (fun p => Forall (fun q => p.2 = q.2 -> p = q) ex_linked) ex_linked) as [H1 H2].
  { apply (bool_decide_unpack _). vm_compute. exact I. }
  assert (forall i o, i ∈ tree_ids ex_tree -> root_of ex_roots i = None -> mapped_of ex_resolved.1 i = Some o -> (i, o) ∈ ex_linked) as Hin.
  { intros i o Hi Hr Ho. apply list_elem_of_omap. exists i. split; [exact Hi|]. rewrite Hr, Ho. reflexivity. }
  rewrite Forall_forall in H1, H2. intros i o Hi Hr Ho. split; [by apply (H1 (i, o)), Hin|]. intros j Hj Hr' Ho'.
  specialize (H2 (i, o) (Hin i o Hi Hr Ho)). rewrite Forall_forall in H2.
  specialize (H2 (j, o) (Hin j o Hj Hr' Ho') eq_refl). by injection H2.
Qed.

(** The unlinked D is hidden. *)
Example ex_live_ids : map lb_objectId (live_tree ex_roots ex_resolved.1 ex_tree) = (["oA"; "oB"; "oC"; "oF"]) /\
  hidden_tree ex_roots ex_resolved.1 ex_tree = 1.
Proof. split; vm_compute; reflexivity. Qed.

Lemma readLiveTree_spec_witness :
  let live := live_tree ex_roots ex_resolved.1 ex_tree in
  readLiveTree ex_state = (inr (live, hidden_tree ex_roots ex_resolved.1 ex_tree), ex_resolved) /\
  NoDup (map lb_objectId live) /\ live_ordered live /\ Forall (fun n => lb_objectId n ∉ ROOT_IDS) live.
Proof.
  destruct (readLiveTree_spec ex_state ex_resolved ex_roots ex_tree) as (H & _ & _ & _ & Hs).
  - vm_compute. reflexivity.
  - apply (bool_decide_unpack _). vm_compute. exact I.
  - vm_compute. reflexivity.
  - exact ex_tree_nodup.
  - split; [exact H|]. apply Hs, ex_mapping_sound.
Defined.

Lemma sweepStale_exact_witness : exists n m, sweepStaleTree ex_state = (inr n, (set_mappings m ex_db, ex_state.2)) /\
  forall k r, m !! k = Some r <-> object_mappings ex_db !! k = Some r /\
    (om_objectType r = MAP_TYPE -> chromiumLocalId r ∈ tree_ids ex_tree).
Proof. apply (sweepStale_exact ex_state ex_tree); [vm_compute; reflexivity|exact ex_mappings_wf]. Defined.

(** ** The import *)

Fixpoint str_sorted (l : list string) : bool :=
  match l with [] => true | x :: l => forallb (str_leb x) l && str_sorted l end.
Lemma str_sorted_dec l : str_sorted l = true -> StronglySorted str_le l.
Proof.
  induction l as [|x l IH]; cbn [str_sorted]; [constructor|]. rewrite andb_true_iff, forallb_forall. intros [Hx Hl].
  constructor; [by apply IH|]. apply Forall_forall. intros y Hy. by apply Hx, list_elem_of_In.
Qed.


(** A walk that draws numbered ids and logs what it emits. *)
Definition LogState : Type := nat * list Emitted.
Definition log_uuid : M LogState sync_error string := fun s => (inr (ex_object s.1), (S s.1, s.2)).
Definition log_emit (m : ObjectMappingRecord) (n : BackfillNode) : M LogState sync_error unit :=
  fun s => (inr tt, (s.1, s.2 ++ [(m, n)])).
Definition ex_already : jset string := ["10"; "11"; "12"].
Definition ex_known : jmap string ObjectMappingRecord :=
  map (fun p => (p.1, mkMapping (mappingKey MAP_TYPE p.1) MAP_TYPE p.1 p.2)) [("10", "oA"); ("11", "oB"); ("12", "oC")].
Definition ex_positions : jmap string string := [("oA", "A1"); ("oB", "B1"); ("oC", "C1")].
Definition ex_root_ids : jmap string string := objectIdByChromiumId ex_roots.
Definition ex_walk : M LogState sync_error unit :=
  flattenForBackfill log_uuid log_emit ex_root_ids ex_already ex_known ex_positions ex_tree.

(** F follows C; D is F's only child. *)
Example ex_walk_positions :
  map (fun e => (bp_title (bf_payload e.2), bp_position (bf_payload e.2))) (ex_walk (0%nat, [])).2.2 = [("F", "b"); ("D", "V")].
Proof. vm_compute. done. Qed.

Lemma flattenForBackfill_spec_witness : exists E n, ex_walk (0%nat, []) = (inr tt, (n, E)) /\
  backfilled ex_root_ids ex_already ex_known ex_positions ex_tree E.
Proof.
  assert (forall o x, jm_get ex_positions o = Some x -> valid_key x) as Hp.
  { assert (Forall (fun kv => valid_key kv.2) ex_positions) as H by (apply (bool_decide_unpack _); vm_compute; exact I).
    intros o x Ho. apply jm_get_Some_elem in Ho. rewrite Forall_forall in H. exact (H _ Ho). }
  assert (forall i, jm_has ex_root_ids i = true -> is_backfill_root ex_root_ids i <> None) as Hr.
  { assert (Forall (fun i => is_backfill_root ex_root_ids i <> None) (jm_keys ex_root_ids)) as H by (apply (bool_decide_unpack _); vm_compute; exact I).
    intros i Hi. rewrite Forall_forall in H. apply H. apply dec_stable. intros Hn. apply jm_get_None in Hn. revert Hi. clear - Hn. unfold jm_has. rewrite Hn. discriminate. }
  pose proof (flattenForBackfill_spec log_uuid log_emit ex_root_ids ex_already ex_known ex_positions
    (fun E s => s.2 = E) (fun E _ s => s.2 = E) (fun _ _ => False) ex_tree) as H.
  specialize (H ltac:(by intros E s <-) ltac:(by intros E i n m s <-) Hp Hr ex_tree_nodup (0%nat, []) eq_refl).
  fold ex_walk in H. destruct (ex_walk _) as [[e|[]] [n E]]; [destruct H|]. destruct H as (E' & <- & H). eauto.
Defined.

(** ** Moves *)

Definition bar : string := root_object_id "1".
Definition ex_mover_ids : jmap string string := result_or [] (chromiumIdsFor ["oC"; bar] ex_state).1.

(** C to between A and B. *)
Lemma applyMove_places_witness : exists front back, ["10"; "11"; "13"] = front ++ back /\
  kids "1" (applyMove "oC" OtBookmark bar "A5" None ex_state).2 = Some (front ++ "12" :: back) /\
  Forall (fun x => x <=s "A5") (omap (node_position ex_resolved.1) front) /\
  Forall (fun x => "A5" <s x) (omap (node_position ex_resolved.1) back).
Proof.
  destruct (applyMove_places "oC" OtBookmark bar "A5" ex_state ex_resolved (applyMove "oC" OtBookmark bar "A5" None ex_state).2
    ex_mover_ids "12" "1" ["10"; "11"; "12"; "13"]) as (f & k & H1 & H2 & H3 & H4 & _).
  - vm_compute. reflexivity.
  - vm_compute. reflexivity.
  - vm_compute. reflexivity.
  - vm_compute. reflexivity.
  - apply (bool_decide_unpack _). vm_compute. exact I.
  - apply fake_okb_ok. vm_compute. reflexivity.
  - vm_compute. reflexivity.
  - apply str_sorted_dec. vm_compute. reflexivity.
  - exists f, k. auto.
Defined.

(** D and a further E go from the folder to the bar, around B. *)
Definition batch_browser : FakeBookmarks := ex_add "13" "E" (Some "https://e") ex_browser.
Definition batch_db : DB :=
  set_mappings (<[mappingKey OtBookmark "14" := (ex_mapping "14" "oD").2]>
    (<[mappingKey OtBookmark "15" := (ex_mapping "15" "oE").2]> (object_mappings ex_db))) ex_db.
Definition batch_state : BmState := (batch_db, ex_app batch_browser).
Definition batch_moves : list RemoteMove :=
  [mkRemoteMove "oD" OtBookmark bar "B5"; mkRemoteMove "oE" OtBookmark bar "A5"].
Definition batch_read := chromiumIdsFor (js_of_list (concat (map (fun m => [rm_objectId m; rm_parent m]) batch_moves))) batch_state.
Definition batch_incoming : jmap string string := jm_of_list (map (fun m => (rm_objectId m, rm_position m)) batch_moves).


(** Bar: A, B, C, X, Y, in this order. X and Y are dragged between A and B,
    which is two moves in one page of changes. *)
Definition drag_browser : FakeBookmarks :=
  ex_add "1" "Y" (Some "https://y") (ex_add "1" "X" (Some "https://x") (ex_add "1" "C" (Some "https://c")
    (ex_add "1" "B" (Some "https://b") (ex_add "1" "A" (Some "https://a") createFakeBookmarks)))).
Definition drag_db : DB :=
  set_field_state (list_to_map (map (fun x => ex_field ("o" +:+ x) (x +:+ "1")) ["A"; "B"; "C"; "X"; "Y"]))
    (set_mappings (list_to_map [ex_mapping "10" "oA"; ex_mapping "11" "oB"; ex_mapping "12" "oC"; ex_mapping "13" "oX";
                                ex_mapping "14" "oY"]) emptyDB).
Definition drag_state : BmState := (drag_db, ex_app drag_browser).
Definition drag_op (n : Z) (o position : string) : Item :=
  (mkOperationOut ("op" +:+ o) "other" n (n + 10) OtBookmark o OpMove 1 JNull n "",
   JObj [("parent", JStr bar); ("position", JStr position)]).
Definition bar_titles (s : BmState) : list string :=
  omap (fun i => fn_title <$> nodes (ba_browser s.2) !! i) (children_of (ba_browser s.2) "1").

(** Two moves of one batch within a folder that was in order leave it out
    of order: X is placed by the position Y is about to have while Y is still
    at the end. The same two moves applied in two batches, or in the other
    order, put the folder in order. *)
Theorem applyRemoteBatch_disorder :
  let x := drag_op 1 "oX" "A5" in let y := drag_op 2 "oY" "A8" in
  let apply items := applyRemoteBatch None items in
  bar_titles drag_state = ["A"; "B"; "C"; "X"; "Y"] /\
  (apply [x; y] drag_state).1 = inr tt /\ bar_titles (apply [x; y] drag_state).2 = ["A"; "Y"; "B"; "C"; "X"] /\
  bar_titles (apply [y] (apply [x] drag_state).2).2 = ["A"; "X"; "Y"; "B"; "C"] /\
  bar_titles (apply [y; x] drag_state).2 = ["A"; "X"; "Y"; "B"; "C"].
Proof. vm_compute. repeat split. Qed.

(** ** Importing *)

Definition op_id (n : nat) : string := "op-" +:+ pretty n.
#[local] Instance op_id_inj : Inj (=) (=) op_id.
Proof. intros m n H. unfold op_id in H. by repeat apply (inj _) in H. Qed.

#[local] Instance ex_engine : EngineEnv unit (BmApp (Br := FakeBookmarks)) := {|
  env_crypto := toy_crypto;
  env_uuid := op_id;
  env_nonce n := [Z.of_nat n];
  env_now n := Z.of_nat n;
  env_iso n := "now";
  uploadOperations srv ops := (inr (mkUploadResponse (map operationId ops) [] [] 7), srv);
  downloadChanges srv c := (inr (mkDownloadResponse [] 0 false), srv);
  fetchSnapshot srv := (inl NetworkError, srv);
  appliers t := None;
  batchAppliers t := None;
  preSnapshotHooks := [];
|}.

Definition import_device : DeviceRecord :=
  mkDevice "" "me" "" "" "" "" "" "AAAA" 1 None None None None None None None None None None None.
Definition import_world : World unit (BmApp (Br := FakeBookmarks)) :=
  mkWorld (set_device (Some import_device) ex_db) (ex_app ex_browser) tt [] 0 0 0 [] [] [].
Definition import_resolved : World unit (BmApp (Br := FakeBookmarks)) := (adapter bookmarkRoots import_world).2.
Definition import_done : World unit (BmApp (Br := FakeBookmarks)) :=
  (backfillExisting (ret (Some true)) (ret tt) import_world).2.
Definition ex_node_D : BookmarkTreeNode := mkTreeNode "14" (Some "13") 0 "D" (Some "https://d") None [].

(** D is imported, F keeps its object. *)
Lemma backfillExisting_complete_witness :
  (exists n, emitted_from [ex_node_D] (mkMapping (mappingKey MAP_TYPE "14") MAP_TYPE "14" (bf_objectId n), n) /\
     committed import_done (mkMapping (mappingKey MAP_TYPE "14") MAP_TYPE "14" (bf_objectId n), n)).
Proof.
  assert (forall o x, recorded_position (w_db import_resolved) o = Some x -> x = "" \/ valid_key x) as Hp.
  { assert (map_Forall (fun _ r => valid_key (default "A1" (position_of_state (Some r)))) (field_state (w_db import_resolved))) as H
      by (apply (bool_decide_unpack _); vm_compute; exact I).
    intros o x Ho. right. unfold recorded_position in Ho.
    destruct (field_state (w_db import_resolved) !! fieldStateKey o "move") as [r|] eqn:Er; [|discriminate Ho].
    apply H in Er. by rewrite Ho in Er. }
  refine (proj2 (backfillExisting_complete (ret (Some true)) (ret tt) import_world import_world import_world import_resolved import_done
    ex_roots ex_tree op_id_inj ex_object_inj eq_refl eq_refl _ _ ex_tree_nodup _ _ _ Hp _ ex_node_D _ _) _).
  - vm_compute. reflexivity.
  - vm_compute. reflexivity.
  - apply (bool_decide_unpack _). vm_compute. exact I.
  - vm_compute. discriminate.
  - exact ex_mappings_wf.
  - vm_compute. reflexivity.
  - vm_compute. repeat first [apply list_elem_of_here | apply list_elem_of_further].
  - vm_compute. reflexivity.
  - intros (r & Hr & _). vm_compute in Hr. discriminate Hr.
Defined.

(** ** Retrying *)

(** A folder G waited for F, a bookmark H for G: both are created, and nothing
    waits any more. *)
Definition wait (o p : string) : string * DeferredMaterializationRecord := (o, mkDeferred o OtBookmark p "now").
Definition retry_field (o field : string) (v : jsval) : string * FieldStateRecord :=
  (fieldStateKey o field, mkFieldState (fieldStateKey o field) o field 1 "dev" "op" OpCreate v None).
Definition retry_fields (o title parent : string) : list (string * FieldStateRecord) :=
  [retry_field o "liveness" (JStr "live"); retry_field o "title" (JStr title);
   retry_field o "move" (JObj [("parent", JStr parent); ("position", JStr "V")])].
Definition retry_state : BmState :=
  (set_deferred (list_to_map [wait "oG" "oF"; wait "oH" "oG"])
     (set_field_state (list_to_map (retry_fields "oG" "G" "oF" ++ retry_fields "oH" "H" "oG")) ex_db), ex_app ex_browser).

Example ex_retried : let s' := (retryDeferredParent "oF" retry_state).2 in
  (retryDeferredParent "oF" retry_state).1 = inr tt /\ map_to_list (deferred_materializations s'.1) = [] /\
  children_of (ba_browser s'.2) "13" = ["14"; "15"] /\ children_of (ba_browser s'.2) "15" = ["16"].
Proof. vm_compute. done. Qed.

Lemma retryDeferredParent_ends_witness :
  retry_deferred (fun _ => throw (OtherError "other")) 7 "oF" retry_state = retryDeferredParent "oF" retry_state.
Proof.
  apply (retryDeferredParent_ends "oF" retry_state (fun _ => throw (OtherError "other")) 7).
  - split.
    + apply (bool_decide_unpack (map_Forall (fun k r => df_objectId r = k) (deferred_materializations retry_state.1))). vm_compute. exact I.
    + exact ex_mappings_wf.
    + assert (map_Forall (fun _ r => om_objectType r = MAP_TYPE) (object_mappings retry_state.1)) as H
        by (apply (bool_decide_unpack _); vm_compute; exact I).
      intros k r Hr _. exact (H k r Hr).
  - vm_compute. lia.
Defined.
