(* ===== verification/ApiClient.v ===== *)
(** * The API client (extension/src/api/client.ts)

    An asynchronous function is a program: a tree of the effects it awaits (or
    performs), each with what follows its answer. ApiPool runs many of them
    interleaved. The network, the clock and what sits behind them answer the
    effects; sequencing, retries, caches and error classification are here.

    A timeout is an answer of the network; aborting a request from outside is
    not used. Logging is left out. *)

From S2P Require Import Prelude JsMap Types Util Json Storage.

Open Scope Z_scope.
Open Scope js_scope.

(** ** Errors and answers *)

Inductive api_error :=
  | ApiError (message : string) (status : Z) (code : option string) (retryAfterSeconds : option Z)
  | ReauthRequiredError (message : string)
  | NetworkError
  | TimeoutError
  | OtherApiError (message : string).

(** [rs_body]: what [res.json()] gives, [None] where it rejects. *)
Record Response := mkResponse {
  rs_status : Z;
  rs_body : option jsval;
  rs_retryAfter : option string;
}.

Definition res_ok (res : Response) : bool := (200 <=? rs_status res) && (rs_status res <=? 299).

Inductive fetch_outcome :=
  | Answer (res : Response)
  | NoAnswer                            (** [fetch] rejects with a [TypeError] *)
  | TimedOut.

Record Request := mkRequest {
  rq_url : string;
  rq_method : string;
  rq_body : option jsval;               (** sent as JSON *)
  rq_token : option string;             (** as bearer, with the protocol version *)
  rq_timeout : Z;
}.

Definition PROTOCOL_VERSION : Z := 1.
Definition SYNC_FETCH_TIMEOUT_MS : Z := 30000.
Definition SELF_REVOKE_TIMEOUT_MS : Z := 5000.
Definition RESTORE_POINT_TRANSFER_TIMEOUT_MS : Z := 120000.
Definition SETTINGS_CACHE_TTL_MS : Z := 60000.
Definition POLICY_CACHE_TTL_MS : Z := 30 * 60000.
Definition RESTORE_POINTS_SUPPORT_TTL_MS : Z := 10 * 60000.

(** ** Settings and caches *)

Definition as_bool (v : jsval) : option bool := match v with JBool b => Some b | _ => None end.
Definition settings_of (v : jsval) : UserSettingsDto :=
  mkSettings (as_bool (jget v "syncBookmarks")) (as_bool (jget v "syncHistory")) (as_bool (jget v "syncTabs"))
    (as_bool (jget v "syncTabGroups")) (as_bool (jget v "syncExtensions")) (as_string (jget v "tabRestorePolicy"))
    (as_string (jget v "historyRetention")) (as_bool (jget v "requireEncryption"))
    (as_bool (jget v "restorePointsAutomatic")).

Inductive cache_id := SettingsCache | PolicyCache.
Definition cache_value (c : cache_id) : Type :=
  match c with SettingsCache => UserSettingsDto | PolicyCache => option string end.
Definition cache_ttl (c : cache_id) : Z :=
  match c with SettingsCache => SETTINGS_CACHE_TTL_MS | PolicyCache => POLICY_CACHE_TTL_MS end.

Record TtlCacheEntry (V : Type) := mkEntry { ce_value : V; ce_expiresAt : Z }.
#[global] Arguments mkEntry {V}. #[global] Arguments ce_value {V}. #[global] Arguments ce_expiresAt {V}.

(** The memory mirror; without [loaded] it has not been read yet. *)
Record Mirror (V : Type) := mkMirror { mi_memory : option (TtlCacheEntry V); mi_loaded : bool }.
#[global] Arguments mkMirror {V}. #[global] Arguments mi_memory {V}. #[global] Arguments mi_loaded {V}.

Record SupportEntry := mkSupport { su_serverUrl : string; su_supported : bool; su_at : Z }.

(** The three single flights, and what they give. *)
Inductive flight := RefreshFlight | SettingsFlight | PolicyFlight.
#[export] Instance flight_eq_dec : EqDecision flight.
Proof. solve_decision. Defined.
Definition flight_result (f : flight) : Type :=
  match f with RefreshFlight => string | SettingsFlight => UserSettingsDto | PolicyFlight => option string end.

(** ** Programs *)

(** The effects up to [OFlight] are awaited, the others happen at once. The
    flight's argument counts only for the call that starts it. *)
Inductive op :=
  | OGetDevice
  | OPutDevice (device : DeviceRecord)
  | OFetch (request : Request)
  | OSessionGet (c : cache_id)
  | OSessionPut (c : cache_id) (entry : option (TtlCacheEntry (cache_value c)))
  | OFlight (f : flight) (argument : string)
  | ONow
  | OMirror (c : cache_id)
  | OSetMirror (c : cache_id) (mirror : Mirror (cache_value c))
  | OSupport
  | OSetSupport (entry : option SupportEntry).

Definition answer (o : op) : Type :=
  match o with
  | OGetDevice => option DeviceRecord
  | OPutDevice _ => unit
  | OFetch _ => fetch_outcome
  | OSessionGet c => option (TtlCacheEntry (cache_value c))
  | OSessionPut _ _ => unit
  | OFlight f _ => api_error + flight_result f
  | ONow => Z
  | OMirror c => Mirror (cache_value c)
  | OSetMirror _ _ => unit
  | OSupport => option SupportEntry
  | OSetSupport _ => unit
  end.

Inductive prog (A : Type) : Type :=
  | Ret (a : A)
  | Throw (e : api_error)
  | Vis (o : op) (k : answer o -> prog A).
#[global] Arguments Ret {A}. #[global] Arguments Throw {A}. #[global] Arguments Vis {A}.

Fixpoint pbind {A B} (m : prog A) (k : A -> prog B) : prog B :=
  match m with
  | Ret a => k a
  | Throw e => Throw e
  | Vis o c => Vis o (fun x => pbind (c x) k)
  end.
(** [try { m } catch (e) { h(e) }] *)
Fixpoint pcatch {A} (m : prog A) (h : api_error -> prog A) : prog A :=
  match m with
  | Ret a => Ret a
  | Throw e => h e
  | Vis o c => Vis o (fun x => pcatch (c x) h)
  end.
Definition perform (o : op) : prog (answer o) := Vis o Ret.

Notation "'await' x ':=' m 'in' k" := (pbind m (fun x => k))
  (at level 10, x name, m at level 100, k at level 200) : js_scope.
Notation "'await_' m 'in' k" := (pbind m (fun _ => k))
  (at level 10, m at level 100, k at level 200) : js_scope.

(** ** Requests *)

Section client.
Context `{NumberParser}.

(** Of a finite number that is not negative; the server sends whole seconds. *)
Definition parseRetryAfterSeconds (res : Response) : option Z :=
  match rs_retryAfter res with
  | None => None
  | Some header =>
      match js_Number header with Some n => if 0 <=? n then Some n else None | None => None end
  end.

(** A JSON [null] as the body has no properties to read. *)
Definition buildApiError (res : Response) (fallbackMessage : string) : api_error :=
  match default (JObj []) (rs_body res) with
  | JNull => OtherApiError "TypeError"
  | body =>
      let message := match jget body "message" with JUndef | JNull => fallbackMessage | JStr s => s | v => JSON_stringify v end in
      ApiError message (rs_status res) (as_string (jget body "error")) (parseRetryAfterSeconds res)
  end.

Definition fetchWithTimeout (r : Request) : prog Response :=
  await outcome := perform (OFetch r) in
  match outcome with
  | Answer res => Ret res
  | NoAnswer => Throw NetworkError
  | TimedOut => Throw TimeoutError
  end.

(** [res.json()] *)
Definition res_json (res : Response) : prog jsval :=
  match rs_body res with Some body => Ret body | None => Throw (OtherApiError "SyntaxError") end.

Definition call_flight (f : flight) (argument : string) : prog (flight_result f) :=
  await r := perform (OFlight f argument) in
  match r with inl e => Throw e | inr v => Ret v end.

Definition REFRESH_PATH : string := "/api/v1/devices/credentials/refresh".

Definition refresh_request (url : string) (device : DeviceRecord) : Request :=
  mkRequest (url +:+ REFRESH_PATH) "POST" (Some (JObj [("refreshToken", JStr (refreshToken device))])) None SYNC_FETCH_TIMEOUT_MS.

Definition with_tokens (access refresh expiresAt : string) (d : DeviceRecord) : DeviceRecord :=
  mkDevice (serverUrl d) (deviceId d) (userId d) (email d) access expiresAt refresh (accountKey d) (accountKeyVersion d)
    (initialImportCompletedAt d) (historyBulkCutoffMs d) (historyBulkEndMs d) (historyBulkOperationId d)
    (historyBulkObjectId d) (historyBulkUploadedChunks d) (historyBulkUploadedVisits d) (historyOlderCutoffMs d)
    (historyOlderEndMs d) (historyOlderUploadedChunks d) (historyOlderUploadedVisits d).

(** [body.k as string] *)
Definition body_string (body : jsval) (k : string) : string := default "" (as_string (jget body k)).

(** What [refreshAccessTokenOnce] wraps. *)
Definition refresh_body (url : string) : prog string :=
  await device := perform OGetDevice in
  match device with
  | None => Throw (ReauthRequiredError "no device registered")
  | Some device =>
      await res := fetchWithTimeout (refresh_request url device) in
      if negb (res_ok res) then
        let message := "refresh failed with status " +:+ json_num (rs_status res) in
        if (rs_status res =? 429) || (500 <=? rs_status res) then Throw (buildApiError res message)
        else Throw (ReauthRequiredError message)
      else
        await body := res_json res in
        await current := perform OGetDevice in
        match current with
        | None => Throw (ReauthRequiredError "device disconnected during refresh")
        | Some current =>
            if negb (String.eqb (deviceId current) (deviceId device)) then
              Throw (ReauthRequiredError "device disconnected during refresh")
            else
              let updated := with_tokens (body_string body "accessToken") (body_string body "refreshToken")
                (body_string body "accessTokenExpiresAt") current in
              await_ perform (OPutDevice updated) in
              Ret (accessToken updated)
        end
  end.

Definition refreshAccessToken (url : string) : prog string := call_flight RefreshFlight url.

Definition authed_request (device : DeviceRecord) (path method : string) (body : option jsval) (timeoutMs : Z) (token : string) : Request :=
  mkRequest (serverUrl device +:+ path) method body (Some token) timeoutMs.

Definition authedFetch (path method : string) (body : option jsval) (timeoutMs : Z) : prog Response :=
  await device := perform OGetDevice in
  match device with
  | None => Throw (ReauthRequiredError "no device registered")
  | Some device =>
      let send token := fetchWithTimeout (authed_request device path method body timeoutMs token) in
      await res := send (accessToken device) in
      if rs_status res =? 401 then
        await currentDevice := perform OGetDevice in
        await newToken := (match currentDevice with
          | Some current =>
              if negb (String.eqb (accessToken current) (accessToken device)) then Ret (accessToken current)
              else refreshAccessToken (serverUrl device)
          | None => refreshAccessToken (serverUrl device)
          end) in
        send newToken
      else Ret res
  end.

(** [if (!res.ok) throw ...; return res.json()] *)
Definition json_or_error (what : string) (res : Response) : prog jsval :=
  if negb (res_ok res) then Throw (buildApiError res (what +:+ " (" +:+ json_num (rs_status res) +:+ ")")) else res_json res.
Definition ok_or_error (what : string) (res : Response) : prog unit :=
  if negb (res_ok res) then Throw (buildApiError res (what +:+ " (" +:+ json_num (rs_status res) +:+ ")")) else Ret tt.

(** ** The session caches *)

Definition cache_read (c : cache_id) : prog (option (TtlCacheEntry (cache_value c))) :=
  await mirror := perform (OMirror c) in
  if mi_loaded mirror then Ret (mi_memory mirror)
  else
    await stored := perform (OSessionGet c) in
    await_ perform (OSetMirror c (mkMirror stored true)) in
    Ret stored.

Definition cache_write (c : cache_id) (entry : option (TtlCacheEntry (cache_value c))) : prog unit :=
  await_ perform (OSetMirror c (mkMirror entry true)) in
  perform (OSessionPut c entry).

Definition cache_readFresh (c : cache_id) : prog (option (TtlCacheEntry (cache_value c))) :=
  await entry := cache_read c in
  await now := perform ONow in
  Ret (match entry with
       | Some e => if now <? ce_expiresAt e then Some e else None
       | None => None
       end).

Definition cache_store (c : cache_id) (value : cache_value c) : prog unit :=
  await now := perform ONow in
  cache_write c (Some (mkEntry value (now + cache_ttl c))).

Definition cache_clear (c : cache_id) : prog unit := cache_write c None.
Definition cache_invalidateMemory (c : cache_id) : prog unit :=
  perform (OSetMirror c (mkMirror None false)).

(** The listener on another context's session changes. *)
Definition on_session_change (changed : list cache_id) : prog unit :=
  await_ (if existsb (fun c => match c with SettingsCache => true | _ => false end) changed
          then cache_invalidateMemory SettingsCache else Ret tt) in
  if existsb (fun c => match c with PolicyCache => true | _ => false end) changed
  then cache_invalidateMemory PolicyCache else Ret tt.

Definition invalidateSettingsCache : prog unit :=
  await_ cache_clear SettingsCache in cache_clear PolicyCache.

(** ** Settings *)

Definition settings_body : prog UserSettingsDto :=
  await res := authedFetch "/api/v1/sync/settings" "GET" None SYNC_FETCH_TIMEOUT_MS in
  await body := json_or_error "failed to fetch settings" res in
  let settings := settings_of body in
  await_ cache_store SettingsCache settings in
  Ret settings.

Definition fetchSettings (fresh : bool) : prog UserSettingsDto :=
  await cached := (if fresh then Ret None else cache_readFresh SettingsCache) in
  match cached with
  | Some entry => Ret (ce_value entry)
  | None => call_flight SettingsFlight ""
  end.

Definition policy_body : prog (option string) :=
  await settings := fetchSettings false in
  await_ cache_store PolicyCache (tabRestorePolicy settings) in
  Ret (tabRestorePolicy settings).

Definition fetchTabRestorePolicy : prog (option string) :=
  await cached := cache_readFresh PolicyCache in
  match cached with
  | Some entry => Ret (ce_value entry)
  | None => call_flight PolicyFlight ""
  end.

Definition updateSettings (patch : jsval) : prog UserSettingsDto :=
  await res := authedFetch "/api/v1/sync/settings" "PATCH" (Some patch) SYNC_FETCH_TIMEOUT_MS in
  await body := json_or_error "failed to update settings" res in
  let settings := settings_of body in
  await_ cache_store SettingsCache settings in
  await_ cache_store PolicyCache (tabRestorePolicy settings) in
  Ret settings.

(** What a flight runs. *)
Definition flight_body (f : flight) (argument : string) : prog (flight_result f) :=
  match f with
  | RefreshFlight => refresh_body argument
  | SettingsFlight => settings_body
  | PolicyFlight => policy_body
  end.

(** ** Account requests *)

(** [encodeURIComponent], on the bytes of the text. *)
Definition uri_safe (c : ascii) : bool :=
  let n := ascii_byte c in
  ((65 <=? n) && (n <=? 90)) || ((97 <=? n) && (n <=? 122)) || ((48 <=? n) && (n <=? 57)) ||
  existsb (Z.eqb n) [45; 95; 46; 33; 126; 42; 39; 40; 41].
Definition upper_hex (n : Z) : string := String (byte_ascii (if n <? 10 then 48 + n else 55 + n)) "".
Fixpoint encodeURIComponent (s : string) : string :=
  match s with
  | "" => ""
  | String c s =>
      (if uri_safe c then String c "" else "%" +:+ upper_hex (ascii_byte c / 16) +:+ upper_hex (ascii_byte c mod 16)) +:+
      encodeURIComponent s
  end.

Definition open_post (url : string) (body : jsval) : prog Response :=
  fetchWithTimeout (mkRequest url "POST" (Some body) None SYNC_FETCH_TIMEOUT_MS).

Definition prelogin (server email : string) : prog jsval :=
  await res := open_post (server +:+ "/api/v1/auth/prelogin") (JObj [("email", JStr email)]) in
  json_or_error "prelogin failed" res.

Record RegisterDeviceParams := mkRegister {
  rd_serverUrl : string;
  rd_email : string;
  rd_authKey : string;
  rd_name : string;
  rd_browser : option string;
  rd_browserVersion : option string;
  rd_platform : option string;
  rd_extensionVersion : option string;
}.

Definition registerDevice (p : RegisterDeviceParams) : prog jsval :=
  await res := open_post (rd_serverUrl p +:+ "/api/v1/devices/register")
    (JObj [("email", JStr (rd_email p)); ("authKey", JStr (rd_authKey p)); ("name", JStr (rd_name p));
           ("browser", of_opt_str (rd_browser p)); ("browserVersion", of_opt_str (rd_browserVersion p));
           ("platform", of_opt_str (rd_platform p)); ("extensionVersion", of_opt_str (rd_extensionVersion p))]) in
  json_or_error "registration failed" res.

Definition createAuthRequest (server email publicKey deviceName : string) : prog jsval :=
  await res := open_post (server +:+ "/api/v1/auth/requests")
    (JObj [("email", JStr email); ("kind", JStr "device"); ("publicKey", JStr publicKey); ("deviceName", JStr deviceName)]) in
  json_or_error "request failed" res.

Definition pollAuthRequest (server id secret : string) (browser extensionVersion : option string) : prog jsval :=
  await res := open_post (server +:+ "/api/v1/auth/requests/" +:+ encodeURIComponent id +:+ "/poll")
    (JObj [("secret", JStr secret); ("browser", of_opt_str browser); ("extensionVersion", of_opt_str extensionVersion)]) in
  json_or_error "request check failed" res.

Definition listAuthRequests : prog jsval :=
  await res := authedFetch "/api/v1/devices/auth-requests" "GET" None SYNC_FETCH_TIMEOUT_MS in
  json_or_error "listing sign-in requests failed" res.

Definition respondAuthRequest (id : string) (answer : jsval) : prog unit :=
  await res := authedFetch ("/api/v1/devices/auth-requests/" +:+ encodeURIComponent id +:+ "/respond") "POST" (Some answer)
    SYNC_FETCH_TIMEOUT_MS in
  ok_or_error "answering the sign-in request failed" res.

(** The race's outcome: the attempt's, or that it took too long. *)
Definition revoke_outcome (outcome : option (api_error + Response)) : bool :=
  match outcome with Some (inr res) => res_ok res | _ => false end.
Definition revoke_attempt (timeoutMs : Z) : prog Response :=
  authedFetch "/api/v1/devices/self/revoke" "POST" None timeoutMs.

(** ** Sync requests *)

Definition hours_jsval (hours : jmap string Z) : jsval := JObj (map (fun kv => (kv.1, JNum kv.2)) hours).
Definition local_operation_jsval (o : LocalOperation) : jsval :=
  JObj [("operationId", JStr (operationId o)); ("deviceSequence", JNum (deviceSequence o));
        ("lamportTimestamp", JNum (lamportTimestamp o)); ("objectType", JStr (ObjectType_str (objectType o)));
        ("objectId", JStr (objectId o)); ("operationType", JStr (OperationType_str (operationType o)));
        ("encryptionVersion", JNum (encryptionVersion o)); ("payload", payload o);
        ("visitCount", from_option JNum JUndef (visitCount o)); ("visitHours", from_option hours_jsval JUndef (visitHours o))].

Definition uploadOperations (operations : list LocalOperation) (timeoutMs : option Z) : prog jsval :=
  await res := authedFetch "/api/v1/sync/operations" "POST"
    (Some (JObj [("operations", JArr (map local_operation_jsval operations))])) (default SYNC_FETCH_TIMEOUT_MS timeoutMs) in
  json_or_error "upload failed" res.

Definition downloadChanges (cursor limit : Z) : prog jsval :=
  await res := authedFetch ("/api/v1/sync/changes?cursor=" +:+ json_num cursor +:+ "&limit=" +:+ json_num limit) "GET" None
    SYNC_FETCH_TIMEOUT_MS in
  json_or_error "download failed" res.

Definition fetchSnapshot : prog jsval :=
  await res := authedFetch "/api/v1/sync/snapshot" "GET" None SYNC_FETCH_TIMEOUT_MS in
  json_or_error "snapshot failed" res.

(** ** Restore points *)

Definition serverSupportsRestorePoints : prog bool :=
  await device := perform OGetDevice in
  match device with
  | None => Ret false
  | Some device =>
      await cached := perform OSupport in
      await now := perform ONow in
      let hit := match cached with
        | Some e => if String.eqb (su_serverUrl e) (serverUrl device) && (now - su_at e <? RESTORE_POINTS_SUPPORT_TTL_MS)
                    then Some (su_supported e) else None
        | None => None
        end in
      match hit with
      | Some supported => Ret supported
      | None =>
          pcatch
            (await res := fetchWithTimeout (mkRequest (serverUrl device +:+ "/api/v1/version") "GET" None None SYNC_FETCH_TIMEOUT_MS) in
             if negb (res_ok res) then Ret false
             else
               await body := res_json res in
               match body with
               | JNull => Throw (OtherApiError "TypeError")
               | _ =>
                   let supported := match jget body "restorePoints" with JBool true => true | _ => false end in
                   await now := perform ONow in
                   await_ perform (OSetSupport (Some (mkSupport (serverUrl device) supported now))) in
                   Ret supported
               end)
            (fun _ => Ret false)
      end
  end.

Definition resetRestorePointsSupportCache : prog unit := perform (OSetSupport None).

Definition restore_point_path (id : string) : string := "/api/v1/restore-points/" +:+ encodeURIComponent id.

Definition listRestorePoints : prog jsval :=
  await res := authedFetch "/api/v1/restore-points" "GET" None SYNC_FETCH_TIMEOUT_MS in
  await body := json_or_error "listing restore points failed" res in
  match body with JNull => Throw (OtherApiError "TypeError") | _ => Ret (jget body "points") end.

Definition uploadRestorePoint (point : jsval) : prog jsval :=
  await res := authedFetch "/api/v1/restore-points" "POST" (Some point) RESTORE_POINT_TRANSFER_TIMEOUT_MS in
  json_or_error "restore point upload failed" res.

Definition downloadRestorePoint (id : string) : prog jsval :=
  await res := authedFetch (restore_point_path id) "GET" None RESTORE_POINT_TRANSFER_TIMEOUT_MS in
  json_or_error "restore point download failed" res.

Definition setRestorePointPinned (id : string) (pinned : bool) : prog jsval :=
  await res := authedFetch (restore_point_path id) "PATCH" (Some (JObj [("pinned", JBool pinned)])) SYNC_FETCH_TIMEOUT_MS in
  json_or_error "updating the restore point failed" res.

Definition deleteRestorePoint (id : string) : prog unit :=
  await res := authedFetch (restore_point_path id) "DELETE" None SYNC_FETCH_TIMEOUT_MS in
  ok_or_error "deleting the restore point failed" res.

Definition reportRestoreApplied (id mode : string) (partial : bool) : prog unit :=
  await res := authedFetch (restore_point_path id +:+ "/applied") "POST"
    (Some (JObj [("mode", JStr mode); ("partial", JBool partial)])) SYNC_FETCH_TIMEOUT_MS in
  ok_or_error "reporting the restore failed" res.
End client.
