(* ===== verification/ApiPool.v ===== *)
(** * Many calls of the API client at once

    The calls in progress, in the JavaScript contexts they run in (the worker
    and the popup each load the client and have their own memory), over one
    device record, one session storage and one server. A step performs one
    effect of one call; the event loop's runs are among these interleavings. *)

From S2P Require Import Prelude JsMap Types Util Json Storage ApiClient.

Open Scope Z_scope.
Open Scope js_scope.

(** ** State *)

(** A context's module variables. *)
Record Context := mkContext {
  cx_settings : Mirror UserSettingsDto;
  cx_policy : Mirror (option string);
  cx_support : option SupportEntry;
  cx_flights : jmap flight nat;         (** [inFlight]: the call that runs it *)
}.
Definition new_context : Context := mkContext (mkMirror None false) (mkMirror None false) None [].

Inductive code :=
  | UserCode (p : prog unit)
  | FlightCode (f : flight) (p : prog (flight_result f)).

Record Proc := mkProc {
  pc_ctx : nat;
  pc_code : code;
  pc_waits : option nat;                (** the flight whose promise it awaits *)
}.

Record Pool (Srv : Type) := mkPool {
  pl_server : Srv;
  pl_device : option DeviceRecord;
  pl_settings : option (TtlCacheEntry UserSettingsDto);   (** session storage *)
  pl_policy : option (TtlCacheEntry (option string));
  pl_now : Z;
  pl_ctxs : list Context;
  pl_procs : list Proc;
  pl_refreshed : list (nat * (api_error + string));       (** settled flights *)
  pl_loaded : list (nat * (api_error + UserSettingsDto));
  pl_policies : list (nat * (api_error + option string));
}.
#[global] Arguments mkPool {Srv}. #[global] Arguments pl_server {Srv}. #[global] Arguments pl_device {Srv}.
#[global] Arguments pl_settings {Srv}. #[global] Arguments pl_policy {Srv}. #[global] Arguments pl_now {Srv}.
#[global] Arguments pl_ctxs {Srv}. #[global] Arguments pl_procs {Srv}. #[global] Arguments pl_refreshed {Srv}.
#[global] Arguments pl_loaded {Srv}. #[global] Arguments pl_policies {Srv}.

Section pool.
Context {Srv : Type} `{NumberParser} (serve : Request -> Srv -> fetch_outcome * Srv).
Abbreviation Pool := (Pool Srv).

Definition set_server (s : Srv) (w : Pool) : Pool :=
  mkPool s (pl_device w) (pl_settings w) (pl_policy w) (pl_now w) (pl_ctxs w) (pl_procs w) (pl_refreshed w) (pl_loaded w) (pl_policies w).
Definition set_pool_device (d : option DeviceRecord) (w : Pool) : Pool :=
  mkPool (pl_server w) d (pl_settings w) (pl_policy w) (pl_now w) (pl_ctxs w) (pl_procs w) (pl_refreshed w) (pl_loaded w) (pl_policies w).
Definition set_session (c : cache_id) : option (TtlCacheEntry (cache_value c)) -> Pool -> Pool :=
  match c with
  | SettingsCache => fun e w => mkPool (pl_server w) (pl_device w) e (pl_policy w) (pl_now w) (pl_ctxs w) (pl_procs w) (pl_refreshed w) (pl_loaded w) (pl_policies w)
  | PolicyCache => fun e w => mkPool (pl_server w) (pl_device w) (pl_settings w) e (pl_now w) (pl_ctxs w) (pl_procs w) (pl_refreshed w) (pl_loaded w) (pl_policies w)
  end.
Definition get_session (c : cache_id) (w : Pool) : option (TtlCacheEntry (cache_value c)) :=
  match c with SettingsCache => pl_settings w | PolicyCache => pl_policy w end.
Definition set_now (n : Z) (w : Pool) : Pool :=
  mkPool (pl_server w) (pl_device w) (pl_settings w) (pl_policy w) n (pl_ctxs w) (pl_procs w) (pl_refreshed w) (pl_loaded w) (pl_policies w).
Definition set_ctxs (l : list Context) (w : Pool) : Pool :=
  mkPool (pl_server w) (pl_device w) (pl_settings w) (pl_policy w) (pl_now w) l (pl_procs w) (pl_refreshed w) (pl_loaded w) (pl_policies w).
Definition set_procs (l : list Proc) (w : Pool) : Pool :=
  mkPool (pl_server w) (pl_device w) (pl_settings w) (pl_policy w) (pl_now w) (pl_ctxs w) l (pl_refreshed w) (pl_loaded w) (pl_policies w).
Definition settle_flight (f : flight) (j : nat) : api_error + flight_result f -> Pool -> Pool :=
  match f with
  | RefreshFlight => fun r w => mkPool (pl_server w) (pl_device w) (pl_settings w) (pl_policy w) (pl_now w) (pl_ctxs w) (pl_procs w) ((j, r) :: pl_refreshed w) (pl_loaded w) (pl_policies w)
  | SettingsFlight => fun r w => mkPool (pl_server w) (pl_device w) (pl_settings w) (pl_policy w) (pl_now w) (pl_ctxs w) (pl_procs w) (pl_refreshed w) ((j, r) :: pl_loaded w) (pl_policies w)
  | PolicyFlight => fun r w => mkPool (pl_server w) (pl_device w) (pl_settings w) (pl_policy w) (pl_now w) (pl_ctxs w) (pl_procs w) (pl_refreshed w) (pl_loaded w) ((j, r) :: pl_policies w)
  end.
Definition settled (f : flight) (j : nat) (w : Pool) : option (api_error + flight_result f) :=
  match f with
  | RefreshFlight => jm_get (pl_refreshed w) j
  | SettingsFlight => jm_get (pl_loaded w) j
  | PolicyFlight => jm_get (pl_policies w) j
  end.

Definition context_of (c : nat) (w : Pool) : Context := default new_context (pl_ctxs w !! c).
Definition set_context (c : nat) (x : Context) (w : Pool) : Pool := set_ctxs (<[c := x]> (pl_ctxs w)) w.
Definition set_flights (fs : jmap flight nat) (x : Context) : Context := mkContext (cx_settings x) (cx_policy x) (cx_support x) fs.
Definition get_mirror (c : cache_id) (x : Context) : Mirror (cache_value c) :=
  match c with SettingsCache => cx_settings x | PolicyCache => cx_policy x end.
Definition set_mirror (c : cache_id) : Mirror (cache_value c) -> Context -> Context :=
  match c with
  | SettingsCache => fun m x => mkContext m (cx_policy x) (cx_support x) (cx_flights x)
  | PolicyCache => fun m x => mkContext (cx_settings x) m (cx_support x) (cx_flights x)
  end.

(** ** Steps *)

(** Every effect but joining a flight. *)
Definition perform_op (ctx : nat) (o : op) (w : Pool) : option (answer o * Pool) :=
  match o with
  | OGetDevice => Some (pl_device w, w)
  | OPutDevice d => Some (tt, set_pool_device (Some d) w)
  | OFetch r => let '(out, s) := serve r (pl_server w) in Some (out, set_server s w)
  | OSessionGet c => Some (get_session c w, w)
  | OSessionPut c e => Some (tt, set_session c e w)
  | OFlight _ _ => None
  | ONow => Some (pl_now w, w)
  | OMirror c => Some (get_mirror c (context_of ctx w), w)
  | OSetMirror c m => Some (tt, set_context ctx (set_mirror c m (context_of ctx w)) w)
  | OSupport => Some (cx_support (context_of ctx w), w)
  | OSetSupport e =>
      let x := context_of ctx w in
      Some (tt, set_context ctx (mkContext (cx_settings x) (cx_policy x) e (cx_flights x)) w)
  end.

(** Joining: the flight in the context's slot, or a new one. *)
Definition join_flight (ctx : nat) (f : flight) (argument : string) (w : Pool) : nat * Pool :=
  let x := context_of ctx w in
  match jm_get (cx_flights x) f with
  | Some j => (j, w)
  | None =>
      let j := length (pl_procs w) in
      (j, set_context ctx (set_flights (jm_set (cx_flights x) f j) x)
            (set_procs (pl_procs w ++ [mkProc ctx (FlightCode f (flight_body f argument)) None]) w))
  end.

(** One effect of a program: what is left of it, and what it waits for. *)
Definition step_prog {A} (ctx : nat) (p : prog A) (waits : option nat) (w : Pool) : option (prog A * option nat * Pool) :=
  match p with
  | Ret _ | Throw _ => None
  | Vis o k =>
      match o return (answer o -> prog A) -> option (prog A * option nat * Pool) with
      | OFlight f argument => fun k =>
          match waits with
          | None => let '(j, w') := join_flight ctx f argument w in Some (p, Some j, w')
          | Some j => match settled f j w with Some r => Some (k r, None, w) | None => None end
          end
      | o => fun k => match perform_op ctx o w with Some (a, w') => Some (k a, None, w') | None => None end
      end k
  end.

Definition result_of {A} (p : prog A) : option (api_error + A) :=
  match p with Ret a => Some (inr a) | Throw e => Some (inl e) | Vis _ _ => None end.

(** A flight that settles frees its slot. *)
Definition finish_flight (ctx : nat) (f : flight) (j : nat) (p : prog (flight_result f)) (w : Pool) : Pool :=
  match result_of p with
  | None => w
  | Some r =>
      let w1 := settle_flight f j r w in
      let x := context_of ctx w1 in
      set_context ctx (set_flights (jm_delete (cx_flights x) f) x) w1
  end.

Definition step_proc (i : nat) (w : Pool) : option Pool :=
  match pl_procs w !! i with
  | None => None
  | Some q =>
      match pc_code q with
      | UserCode p =>
          match step_prog (pc_ctx q) p (pc_waits q) w with
          | Some (p', waits, w') => Some (set_procs (<[i := mkProc (pc_ctx q) (UserCode p') waits]> (pl_procs w')) w')
          | None => None
          end
      | FlightCode f p =>
          match step_prog (pc_ctx q) p (pc_waits q) w with
          | Some (p', waits, w') =>
              Some (finish_flight (pc_ctx q) f i p'
                (set_procs (<[i := mkProc (pc_ctx q) (FlightCode f p') waits]> (pl_procs w')) w'))
          | None => None
          end
      end
  end.

Definition start_proc (ctx : nat) (p : prog unit) (w : Pool) : Pool :=
  set_procs (pl_procs w ++ [mkProc ctx (UserCode p) None]) w.

(** Run a schedule; a step that is not possible is skipped. *)
Definition run_schedule (l : list nat) (w : Pool) : Pool :=
  foldl (fun w i => default w (step_proc i w)) w l.
End pool.
