(* ===== verification/ApiPoolFacts.v ===== *)
(** * Refreshing under concurrency

    In one JavaScript context concurrent requests never present a refresh
    token the server has rotated away, however they interleave. *)

From S2P Require Import Prelude JsMap Types Util Json Storage ApiClient ApiPool.

Open Scope Z_scope.
Open Scope js_scope.

(** ** What a program may do *)

(** The refresh token a request presents. *)
Definition presented (r : Request) : option string :=
  match rq_token r, rq_body r with
  | None, Some (JObj [(k, JStr t)]) => if String.eqb k "refreshToken" then Some t else None
  | _, _ => None
  end.

(** Neither presents a refresh token nor writes the device record. *)
Definition plain_op (o : op) : Prop :=
  match o with
  | OPutDevice _ => False
  | OFetch r => presented r = None
  | _ => True
  end.

Fixpoint harmless {A} (p : prog A) : Prop :=
  match p with
  | Ret _ | Throw _ => True
  | Vis o k => plain_op o /\ forall x, harmless (k x)
  end.

Lemma harmless_bind {A B} (m : prog A) (k : A -> prog B) : harmless m -> (forall a, harmless (k a)) -> harmless (pbind m k).
Proof. intros Hm Hk. induction m as [a|e|o c IH]; cbn; [apply Hk|done|]. destruct Hm as [Ho Hc]. split; [done|]. intros x. by apply IH. Qed.

Lemma harmless_catch {A} (m : prog A) h : harmless m -> (forall e, harmless (h e)) -> harmless (pcatch m h).
Proof. intros Hm Hh. induction m as [a|e|o c IH]; cbn; [done|apply Hh|]. destruct Hm as [Ho Hc]. split; [done|]. intros x. by apply IH. Qed.

Create HintDb harmless.

(** Walk a program down to its effects. *)
Ltac harmless_tac :=
  repeat (intros;
    first
      [ solve [auto with harmless]
      | apply harmless_bind
      | apply harmless_catch
      | match goal with |- harmless (perform _) => split; [done|] end
      | match goal with
        | |- harmless (match ?x with _ => _ end) => destruct x
        | |- harmless (if ?x then _ else _) => destruct x
        end
      | exact I ]).

Section harmless.
Context `{NumberParser}.

Lemma harmless_fetch r : presented r = None -> harmless (fetchWithTimeout r).
Proof. intros Hr. unfold fetchWithTimeout. apply harmless_bind; [by split|]. intros []; exact I. Qed.

Lemma harmless_flight f a : harmless (call_flight f a).
Proof. unfold call_flight. apply harmless_bind; [by split|]. intros []; exact I. Qed.

Lemma harmless_json what res : harmless (json_or_error what res).
Proof. unfold json_or_error, res_json. destruct (negb _); [exact I|]. by destruct (rs_body res). Qed.
Lemma harmless_ok what res : harmless (ok_or_error what res).
Proof. unfold ok_or_error. by destruct (negb _). Qed.

Lemma harmless_authed path method body ms : harmless (authedFetch path method body ms).
Proof.
  assert (forall d t, harmless (fetchWithTimeout (authed_request d path method body ms t))) as Hs by (intros; by apply harmless_fetch).
  unfold authedFetch. apply harmless_bind; [by split|]. intros [d|]; [|exact I]. apply harmless_bind; [apply Hs|].
  intros res. destruct (_ =? 401); [|exact I]. apply harmless_bind; [by split|]. intros cur. apply harmless_bind; [|intros; apply Hs].
  unfold refreshAccessToken. destruct cur as [cur|]; [destruct (negb _)|]; try exact I; apply harmless_flight.
Qed.

Lemma harmless_write c e : harmless (cache_write c e).
Proof. by repeat split. Qed.
Lemma harmless_read c : harmless (cache_read c).
Proof. unfold cache_read. apply harmless_bind; [by split|]. intros m. destruct (mi_loaded m); [exact I|]. by repeat split. Qed.
Lemma harmless_store c v : harmless (cache_store c v).
Proof. unfold cache_store. apply harmless_bind; [by split|]. intros. apply harmless_write. Qed.
Lemma harmless_readFresh c : harmless (cache_readFresh c).
Proof. unfold cache_readFresh. apply harmless_bind; [apply harmless_read|]. intros. apply harmless_bind; [by split|]. intros. exact I. Qed.
Hint Resolve harmless_fetch harmless_flight harmless_json harmless_ok harmless_authed harmless_write harmless_store harmless_readFresh : harmless.

Lemma harmless_settings_body : harmless settings_body.
Proof. unfold settings_body. harmless_tac. Qed.
Lemma harmless_fetchSettings fresh : harmless (fetchSettings fresh).
Proof. unfold fetchSettings. harmless_tac. Qed.
Hint Resolve harmless_fetchSettings : harmless.
Lemma harmless_policy_body : harmless policy_body.
Proof. unfold policy_body. harmless_tac. Qed.
Lemma harmless_policy : harmless fetchTabRestorePolicy.
Proof. unfold fetchTabRestorePolicy. harmless_tac. Qed.
Lemma harmless_update patch : harmless (updateSettings patch).
Proof. unfold updateSettings. harmless_tac. Qed.
Lemma harmless_upload ops ms : harmless (uploadOperations ops ms).
Proof. unfold uploadOperations. harmless_tac. Qed.
Lemma harmless_download c l : harmless (downloadChanges c l).
Proof. unfold downloadChanges. harmless_tac. Qed.
Lemma harmless_snapshot : harmless fetchSnapshot.
Proof. unfold fetchSnapshot. harmless_tac. Qed.
Lemma harmless_supports : harmless serverSupportsRestorePoints.
Proof.
  unfold serverSupportsRestorePoints. apply harmless_bind; [by split|]. intros [d|]; [|exact I].
  apply harmless_bind; [by split|]. intros c. apply harmless_bind; [by split|]. intros now. destruct (match c with Some _ => _ | None => _ end); [exact I|].
  apply harmless_catch; [|intros; exact I]. apply harmless_bind; [by apply harmless_fetch|]. intros res. destruct (negb _); [exact I|].
  apply harmless_bind; [unfold res_json; by destruct (rs_body res)|]. intros body. destruct body; try exact I; by repeat split.
Qed.
End harmless.

(** ** A server that rotates refresh tokens

    [current] is the refresh token the server expects next; [None] where it
    expects none that this device was told (the credentials are revoked, or
    the answer that told the new token got lost). *)
Record rotating {Srv} (serve : Request -> Srv -> fetch_outcome * Srv) (current : Srv -> option string) : Prop := {
  ro_other : forall r s, presented r = None ->
    current (serve r s).2 = current s \/ current (serve r s).2 = None;
  ro_refresh : forall r s t, presented r = Some t -> current s = Some t ->
    match serve r s with
    | (Answer res, s') =>
        if res_ok res
        then current s' = None \/ exists body, rs_body res = Some body /\ current s' = Some (body_string body "refreshToken")
        else current s' = Some t \/ current s' = None
    | (_, s') => current s' = Some t \/ current s' = None
    end;
  ro_none : forall r s, current s = None -> current (serve r s).2 = None;
}.

Section refreshing.
Context {Srv : Type} `{NumberParser} (serve : Request -> Srv -> fetch_outcome * Srv) (current : Srv -> option string).
Abbreviation Pool := (Pool Srv).

(** What may happen in the context: a call starts, a call takes a step, time
    passes, the user disconnects, the server forgets the device. *)
Inductive pool_step : Pool -> Pool -> Prop :=
  | pool_start p w : harmless p -> pool_step w (start_proc 0 p w)
  | pool_run i w w' : step_proc serve i w = Some w' -> pool_step w w'
  | pool_tick n w : pool_step w (set_now n w)
  | pool_disconnect w : pool_step w (set_pool_device None w)
  | pool_server s w : current s = current (pl_server w) \/ current s = None -> pool_step w (set_server s w).

Definition next_request {A} (p : prog A) : option Request :=
  match p with Vis (OFetch r) _ => Some r | _ => None end.
Definition code_request (c : code) : option Request :=
  match c with UserCode p => next_request p | FlightCode _ p => next_request p end.

(** ** The invariant *)

Definition accepts (t : string) (w : Pool) : Prop := current (pl_server w) = None \/ current (pl_server w) = Some t.
Definition device_accepted (w : Pool) : Prop := forall d, pl_device w = Some d -> accepts (refreshToken d) w.
Definition device_is (id : string) (w : Pool) : Prop := forall d, pl_device w = Some d -> deviceId d = id.
Definition slot (w : Pool) : option nat := jm_get (cx_flights (context_of 0 w)) RefreshFlight.

Definition finished {A} (p : prog A) : Prop := is_Some (result_of p).

(** The stages of a refresh, last first: writing the device record with the
    new token [t], about to look at the record, sending [t], starting. *)
Definition putting (t : string) (p : prog string) : Prop :=
  exists u k, p = Vis (OPutDevice u) k /\ refreshToken u = t /\ forall x, finished (k x).
Definition storing (id t : string) (p : prog string) : Prop :=
  exists k, p = Vis OGetDevice k /\ finished (k None) /\ forall d, deviceId d = id -> putting t (k (Some d)).
Definition sent (id : string) (out : fetch_outcome) (p : prog string) : Prop :=
  match out with
  | Answer res =>
      if res_ok res
      then match rs_body res with Some body => storing id (body_string body "refreshToken") p | None => finished p end
      else finished p
  | _ => finished p
  end.
Definition sending (id t : string) (p : prog string) : Prop :=
  exists r k, p = Vis (OFetch r) k /\ presented r = Some t /\ forall out, sent id out (k out).
Definition starting (p : prog string) : Prop :=
  exists k, p = Vis OGetDevice k /\ finished (k None) /\ forall d, sending (deviceId d) (refreshToken d) (k (Some d)).

Lemma refresh_body_starting url : starting (refresh_body url).
Proof.
  eexists _. split; [reflexivity|]. split; [by eexists|]. intros d. eexists _, _. split; [reflexivity|]. split; [done|].
  intros [res| |]; [|by eexists..]. unfold sent. cbn. destruct (res_ok res) eqn:Hok; cbn.
  - unfold res_json. destruct (rs_body res) as [body|]; [|by eexists]. eexists _. split; [reflexivity|].
    split; [by eexists|]. intros cur Hid. cbn. rewrite Hid, String.eqb_refl. eexists _, _. repeat split. by eexists.
  - destruct (_ || _); by eexists.
Qed.

Definition stage (w : Pool) (p : prog string) : Prop :=
  (starting p /\ device_accepted w) \/
  (exists id t, sending id t p /\ accepts t w /\ device_accepted w /\ device_is id w) \/
  (exists id t, storing id t p /\ accepts t w /\ device_is id w) \/
  (exists t, putting t p /\ accepts t w).

(** Every flight but a running refresh is harmless. *)
Definition calm (f : flight) : prog (flight_result f) -> Prop :=
  match f with RefreshFlight => finished | _ => harmless end.

Record inv (w : Pool) : Prop := {
  iv_ctx : exists x, pl_ctxs w = [x] /\ jm_wf (cx_flights x);
  iv_slot : match slot w with
            | Some i => exists p waits, pl_procs w !! i = Some (mkProc 0 (FlightCode RefreshFlight p) waits) /\ stage w p
            | None => device_accepted w
            end;
  iv_procs : forall i q, pl_procs w !! i = Some q -> pc_ctx q = 0%nat /\
    match pc_code q with
    | UserCode p => harmless p
    | FlightCode f p => (f = RefreshFlight /\ slot w = Some i) \/ calm f p
    end;
}.

Definition grows (w w' : Pool) : Prop :=
  (current (pl_server w') = current (pl_server w) \/ current (pl_server w') = None).

Lemma accepts_grows t w w' : grows w w' -> accepts t w -> accepts t w'.
Proof. unfold grows, accepts. intros [->| ->]; auto. Qed.

Lemma device_accepted_grows w w' : grows w w' -> pl_device w' = pl_device w \/ pl_device w' = None ->
  device_accepted w -> device_accepted w'.
Proof. intros Hg [Hd|Hd] Ha d; rewrite Hd; [intros ?; by eapply accepts_grows, Ha|done]. Qed.

Lemma device_is_grows id w w' : pl_device w' = pl_device w \/ pl_device w' = None -> device_is id w -> device_is id w'.
Proof. intros [Hd|Hd] Ha d; rewrite Hd; [apply Ha|done]. Qed.

Lemma stage_grows w w' p : grows w w' -> pl_device w' = pl_device w \/ pl_device w' = None -> stage w p -> stage w' p.
Proof.
  intros Hg Hd [[Hp Ha]|[(id & t & Hp & Ht & Ha & Hi)|[(id & t & Hp & Ht & Hi)|(t & Hp & Ht)]]].
  - left. eauto using device_accepted_grows.
  - right; left. exists id, t. split_and!; eauto using device_accepted_grows, accepts_grows, device_is_grows.
  - right; right; left. exists id, t. split_and!; eauto using accepts_grows, device_is_grows.
  - right; right; right. exists t. eauto using accepts_grows.
Qed.

(** What a step may change without touching the refresh. *)
Lemma inv_frame w w' : grows w w' -> pl_device w' = pl_device w \/ pl_device w' = None ->
  slot w' = slot w -> pl_procs w' = pl_procs w -> (exists x, pl_ctxs w' = [x] /\ jm_wf (cx_flights x)) -> inv w -> inv w'.
Proof.
  intros Hg Hd Hs Hp Hc [_ Hslot Hprocs]. split; [done| |].
  - rewrite Hs. destruct (slot w); [|by eapply device_accepted_grows]. rewrite Hp. destruct Hslot as (p & wt & Hq & Hst).
    eexists _, _. split; [done|]. by eapply stage_grows.
  - rewrite Hp, Hs. done.
Qed.

Lemma inv_put i q q' w : inv w -> pl_procs w !! i = Some q -> slot w <> Some i -> pc_ctx q' = 0%nat ->
  match pc_code q' with UserCode p => harmless p | FlightCode f p => calm f p end ->
  inv (set_procs (<[i := q']> (pl_procs w)) w).
Proof.
  intros [Hc Hs Hp] Hi Hn Hx Hq. assert (i < length (pl_procs w))%nat as Hl by (by eapply lookup_lt_Some). split; [done| |].
  - change (slot (set_procs _ w)) with (slot w). destruct (slot w) as [j|]; [|done]. cbn.
    rewrite list_lookup_insert_ne by congruence. done.
  - change (slot (set_procs _ w)) with (slot w). cbn. intros j p [(-> & <- & _)|[Hne Hj]]%list_lookup_insert_Some; [|by apply Hp].
    split; [done|]. destruct (pc_code q'); [done|]. by right.
Qed.

Context (Hserve : rotating serve current).

Lemma plain_op_inv o a w w' : plain_op o -> perform_op serve 0 o w = Some (a, w') -> inv w ->
  inv w' /\ pl_procs w' = pl_procs w /\ slot w' = slot w.
Proof.
  intros Ho Hp Hi. enough (grows w w' /\ pl_device w' = pl_device w /\ slot w' = slot w /\ pl_procs w' = pl_procs w /\
    (exists x, pl_ctxs w' = [x] /\ jm_wf (cx_flights x))) as (Hg & Hd & Hs & Hq & Hc).
  { split; [|done]. eapply inv_frame; eauto. }
  pose proof (iv_ctx w Hi) as (x & Hx & Hwf); destruct o as [| |r|c|c e| | |c|c m| |e]; cbn in Hp; try done; simplify_eq; try (repeat split; [by left|by eauto]).
  - destruct (serve r (pl_server w)) as [out s] eqn:E. simplify_eq. repeat split; [|by eauto].
    pose proof (ro_other _ _ Hserve r (pl_server w) Ho) as Hr. by rewrite E in Hr.
  - destruct c; repeat split; (by left) || by eauto.
  - unfold grows, set_context, slot, context_of. cbn. rewrite Hx. cbn. destruct c; cbn; (split_and!; [by left|done..|by eexists]).
  - unfold grows, set_context, slot, context_of. cbn. rewrite Hx. cbn. split_and!; [by left|done..|by eexists].
Qed.

Lemma flight_body_calm f argument : match f with RefreshFlight => True | _ => calm f (flight_body f argument) end.
Proof. destruct f; [done|apply harmless_settings_body|apply harmless_policy_body]. Qed.

Lemma join_inv f argument j w w' : join_flight 0 f argument w = (j, w') -> inv w ->
  inv w' /\ (exists l, pl_procs w' = pl_procs w ++ l) /\ (slot w' = slot w \/ slot w = None).
Proof.
  intros Hj Hi. unfold join_flight in Hj. pose proof (iv_ctx w Hi) as (x & Hx & Hwf).
  assert (context_of 0 w = x) as Hctx by (unfold context_of; by rewrite Hx). rewrite Hctx in Hj.
  destruct (jm_get (cx_flights x) f) as [k|] eqn:Hf; injection Hj as <- <-; [split_and!; [done|by exists []; rewrite app_nil_r|by left]|].
  assert (slot (set_context 0 (set_flights (jm_set (cx_flights x) f (length (pl_procs w))) x)
    (set_procs (pl_procs w ++ [mkProc 0 (FlightCode f (flight_body f argument)) None]) w)) =
    if decide (f = RefreshFlight) then Some (length (pl_procs w)) else slot w) as Hslot.
  { unfold slot, set_context, context_of. cbn. rewrite Hx. cbn. rewrite jm_get_set. done. }
  split_and!; [|by eexists|rewrite Hslot; case_decide; [subst; right; unfold slot, context_of; by rewrite Hx|by left]].
  destruct Hi as [_ Hs Hp]. split.
  - unfold set_context. cbn. rewrite Hx. cbn. eexists. split; [done|]. by apply jm_set_wf.
  - rewrite Hslot. cbn. case_decide as Hd.
    + subst f. eexists _, _. rewrite lookup_app_r, Nat.sub_diag by lia. split; [reflexivity|].
      left. split; [apply refresh_body_starting|].
      assert (slot w = None) as Hn by (unfold slot; by rewrite Hctx). rewrite Hn in Hs. exact Hs.
    + destruct (slot w) as [i|]; [|exact Hs]. destruct Hs as (p & wt & Hq & Hst). exists p, wt. split; [|exact Hst].
      by apply lookup_app_l_Some.
  - cbn. intros i q [Hq|[Hlen Hq]]%lookup_app_Some.
    + destruct (Hp i q Hq) as [H1 H2]. split; [done|]. destruct (pc_code q) as [p|g p]; [done|]. rewrite Hslot.
      destruct H2 as [[-> H2]|H2]; [|by right]. case_decide as Hd; [|by left]. exfalso.
      unfold slot in H2. rewrite Hctx in H2. congruence.
    + apply list_lookup_singleton_Some in Hq as [Hlen' <-]. cbn. split; [done|]. rewrite Hslot.
      pose proof (flight_body_calm f argument) as Hb. destruct f; [left|by right..]. rewrite decide_True by done. split; [done|]. f_equal; lia.
Qed.

Lemma step_prog_op {A} c o (k : answer o -> prog A) waits w : match o with OFlight _ _ => False | _ => True end ->
  step_prog serve c (Vis o k) waits w = match perform_op serve c o w with Some (a, w') => Some (k a, None, w') | None => None end.
Proof. by destruct o. Qed.

Lemma step_harmless {A} (p p' : prog A) waits waits' w w' : harmless p ->
  step_prog serve 0 p waits w = Some (p', waits', w') -> inv w ->
  harmless p' /\ inv w' /\ (exists l, pl_procs w' = pl_procs w ++ l) /\ (slot w' = slot w \/ slot w = None).
Proof.
  intros Hp Hs Hi. destruct p as [|?|o k]; [done..|].
  destruct (match o with OFlight _ _ => true | _ => false end) eqn:Ho.
  - destruct o as [| | | | |f a| | | | |]; try done. destruct Hp as [_ Hk]. cbn in Hs. destruct waits as [j|].
    + destruct (settled f j w) as [r|]; [|done]. simplify_eq. split_and!; [apply Hk|done|exists []; by rewrite app_nil_r|by left].
    + destruct (join_flight 0 f a w) as [j w1] eqn:Hj. simplify_eq. split; [by split|]. by eapply join_inv.
  - rewrite step_prog_op in Hs by (by destruct o). destruct Hp as [Hop Hk].
    destruct (perform_op serve 0 o w) as [[a w1]|] eqn:E; [|done]. simplify_eq.
    destruct (plain_op_inv o a w w' Hop E Hi) as (Hi' & Hpr & Hsl). split_and!; [apply Hk|done|exists []; by rewrite app_nil_r|by left].
Qed.

(** A settled flight frees its slot. *)
Lemma finish_inv i f p q w : inv w -> pl_procs w !! i = Some q -> f <> RefreshFlight -> inv (finish_flight 0 f i p w).
Proof.
  intros Hi Hq Hf. unfold finish_flight. destruct (result_of p) as [r|]; [|done].
  pose proof (iv_ctx w Hi) as (x & Hx & Hwf). 
  assert (context_of 0 w = x) as Hctx by (unfold context_of; by rewrite Hx).
  destruct f; [done|..]; (apply (inv_frame w); [by left|by left|..|exact Hi]);
    unfold slot, set_context, settle_flight; cbn; rewrite ?Hx; cbn; unfold context_of; cbn; rewrite ?Hx; cbn;
    first [done | by rewrite jm_get_delete | eexists; split; [done|by apply jm_delete_wf]].
Qed.

Lemma finish_refresh i p w : finished p -> slot w = Some i -> (exists x, pl_ctxs w = [x] /\ jm_wf (cx_flights x)) ->
  device_accepted w ->
  (forall j q, pl_procs w !! j = Some q -> pc_ctx q = 0%nat /\
    match pc_code q with UserCode p => harmless p | FlightCode f p => calm f p end) ->
  inv (finish_flight 0 RefreshFlight i p w).
Proof.
  intros [r Hr] Hs (x & Hx & Hwf) Hd Hp. unfold finish_flight. rewrite Hr. split.
  - cbn. rewrite ?Hx. cbn. unfold context_of. cbn. rewrite ?Hx. cbn. eexists. split; [done|]. by apply jm_delete_wf.
  - unfold slot, context_of. cbn. rewrite ?Hx. cbn. unfold context_of. cbn. rewrite ?Hx. cbn. rewrite jm_get_delete by done. rewrite decide_True by done. exact Hd.
  - cbn. intros j q Hj. destruct (Hp j q Hj) as [H1 H2]. split; [done|]. destruct (pc_code q); [done|by right].
Qed.


(** The server's answer. *)
Lemma sent_step id t r p w out s : presented r = Some t -> sent id out p -> accepts t w -> device_accepted w -> device_is id w ->
  serve r (pl_server w) = (out, s) ->
  (finished p /\ device_accepted (set_server s w)) \/ stage (set_server s w) p.
Proof.
  intros Hr Hp Ht Hd Hid E.
  assert (current s = None \/
    (grows w (set_server s w) /\ match out with Answer res => res_ok res = false | _ => True end) \/ exists res body, out = Answer res /\ res_ok res = true /\
    rs_body res = Some body /\ current s = Some (body_string body "refreshToken")) as Hc.
  { destruct Ht as [Ht|Ht].
    - left. pose proof (ro_none _ _ Hserve r _ Ht) as Hn. by rewrite E in Hn.
    - pose proof (ro_refresh _ _ Hserve r _ t Hr Ht) as Hn. rewrite E in Hn. unfold grows. cbn. rewrite Ht.
      destruct out as [res| |]; [|tauto..]. destruct (res_ok res) eqn:Hok; [|tauto]. destruct Hn as [Hn|(body & Hb & Hn)]; [by left|].
      right; right. by exists res, body. }
  assert (forall t, current s = None -> accepts t (set_server s w)) as Hany by (intros; by left).
  assert (current s = None \/ grows w (set_server s w) -> device_accepted (set_server s w)) as Hdev.
  { intros Hg. apply (device_accepted_grows w); [|by left|done]. unfold grows in *. cbn in *. tauto. }
  unfold sent in Hp. destruct Hc as [Hc|[[Hc Hbad]|(res & body & -> & Hok & Hb & Hc)]].
  - destruct out as [res| |]; [|left; auto..]. destruct (res_ok res); [|left; auto]. destruct (rs_body res); [|left; auto].
    right; right; right; left. eexists _, _. split; [exact Hp|]. auto.
  - left. destruct out as [res| |]; [rewrite Hbad in Hp|..]; auto.
  - rewrite Hok, Hb in Hp. right; right; right; left. eexists _, _. split; [exact Hp|]. split; [by right|done].
Qed.

(** One effect of the running refresh: the next stage, or its end with the
    device record in order. *)
Lemma stage_step w p waits p' waits' w' : stage w p -> step_prog serve 0 p waits w = Some (p', waits', w') ->
  pl_procs w' = pl_procs w /\ pl_ctxs w' = pl_ctxs w /\ ((finished p' /\ device_accepted w') \/ stage w' p').
Proof.
  intros [((k & -> & Hnone & Hk) & Hd)|[(id & t & (r & k & -> & Hr & Hk) & Ht & Hd & Hid)|
          [(id & t & (k & -> & Hnone & Hk) & Ht & Hid)|(t & (u & k & -> & Hu & Hk) & Ht)]]] Hs; cbn in Hs.
  - simplify_eq. split_and!; [done..|]. destruct (pl_device w') as [d|] eqn:E; [|by left]. right; right; left. exists (deviceId d), (refreshToken d).
    split_and!; [apply Hk|by apply Hd|done|]. intros d' Hd'. congruence.
  - destruct (serve r (pl_server w)) as [out s] eqn:E. simplify_eq. split_and!; [done..|]. by eapply sent_step.
  - simplify_eq. split_and!; [done..|]. destruct (pl_device w') as [d|] eqn:E; [|left; split; [done|intros d; by rewrite E]].
    right; right; right; right. exists t. split; [apply Hk, Hid, E|done].
  - simplify_eq. split_and!; [done..|]. left. split; [apply Hk|]. intros d [= <-]. exact Ht.
Qed.

(** Every other refresh is over. *)
Lemma others_calm i w : inv w -> slot w = Some i -> forall j q, j <> i -> pl_procs w !! j = Some q ->
  pc_ctx q = 0%nat /\ match pc_code q with UserCode p => harmless p | FlightCode f p => calm f p end.
Proof.
  intros Hi Hs j q Hj Hq. destruct (iv_procs w Hi j q Hq) as [H1 H2]. split; [done|].
  destruct (pc_code q) as [p|f p]; [done|]. destruct H2 as [[-> H2]|H2]; [congruence|done].
Qed.

Lemma inv_refresh i p waits p' waits' w w1 : inv w -> slot w = Some i ->
  pl_procs w !! i = Some (mkProc 0 (FlightCode RefreshFlight p) waits) -> stage w p ->
  step_prog serve 0 p waits w = Some (p', waits', w1) ->
  inv (finish_flight 0 RefreshFlight i p' (set_procs (<[i := mkProc 0 (FlightCode RefreshFlight p') waits']> (pl_procs w1)) w1)).
Proof.
  intros Hi Hs Hq Hst Hstep. destruct (stage_step _ _ _ _ _ _ Hst Hstep) as (Hp1 & Hc1 & Hres).
  pose proof (others_calm i w Hi Hs) as Hoth. pose proof (iv_ctx w Hi) as Hctx.
  assert (i < length (pl_procs w))%nat as Hl by (by eapply lookup_lt_Some).
  assert (slot w1 = Some i) as Hs1 by (rewrite <- Hs; unfold slot, context_of; by rewrite Hc1).
  destruct Hres as [[Hf Hd]|Hst'].
  - apply finish_refresh; [done|exact Hs1|cbn; by rewrite Hc1|exact Hd|].
    cbn. rewrite Hp1. intros j q [(-> & <- & _)|[Hne Hj]]%list_lookup_insert_Some; [by split|]. by eapply Hoth.
  - assert (finish_flight 0 RefreshFlight i p' (set_procs (<[i := mkProc 0 (FlightCode RefreshFlight p') waits']> (pl_procs w1)) w1) =
      set_procs (<[i := mkProc 0 (FlightCode RefreshFlight p') waits']> (pl_procs w1)) w1) as ->.
    { unfold finish_flight. destruct Hst' as [((k & -> & _) & _)|[(id & t & (r & k & -> & _) & _)|
        [(id & t & (k & -> & _) & _)|(t & (u & k & -> & _) & _)]]]; done. }
    split; [cbn; by rewrite Hc1| |].
    + change (slot (set_procs _ w1)) with (slot w1). rewrite Hs1. cbn. exists p', waits'. rewrite Hp1, list_lookup_insert_eq by done.
      split; [done|exact Hst'].
    + change (slot (set_procs _ w1)) with (slot w1). rewrite Hs1. cbn. rewrite Hp1.
      intros j q [(-> & <- & _)|[Hne Hj]]%list_lookup_insert_Some; [split; [done|by left]|].
      destruct (Hoth j q (not_eq_sym Hne) Hj) as [H1 H2]. split; [done|]. destruct (pc_code q); [done|by right].
Qed.

Lemma refresh_code_inj p p' : FlightCode RefreshFlight p = FlightCode RefreshFlight p' -> p = p'.
Proof. intros E. exact (f_equal (fun c => match c with FlightCode RefreshFlight q => q | _ => p end) E). Qed.

(** A harmless call or flight takes a step. *)
Lemma inv_harmless {A} i q q' (p p' : prog A) waits waits' w w1 : inv w -> pl_procs w !! i = Some q ->
  (forall p, pc_code q <> FlightCode RefreshFlight p) -> harmless p ->
  step_prog serve 0 p waits w = Some (p', waits', w1) -> pc_ctx q' = 0%nat ->
  (harmless p' -> match pc_code q' with UserCode p => harmless p | FlightCode f p => calm f p end) ->
  inv (set_procs (<[i := q']> (pl_procs w1)) w1) /\ is_Some (pl_procs w1 !! i).
Proof.
  intros Hi Hq Hn Hp Hstep Hx Hq'. destruct (step_harmless _ _ _ _ _ _ Hp Hstep Hi) as (Hp' & Hi1 & (l & Hl) & Hsl).
  assert (pl_procs w1 !! i = Some q) as Hq1 by (rewrite Hl; by apply lookup_app_l_Some).
  split; [|by eexists]. eapply inv_put; [done|done| |done|by apply Hq'].
  intros Hs1. pose proof (iv_slot w1 Hi1) as Hs. rewrite Hs1 in Hs. destruct Hs as (p2 & wt & Hp2 & _).
  rewrite Hq1 in Hp2. simplify_eq. by eapply Hn.
Qed.

Lemma inv_run_proc i w w' : inv w -> step_proc serve i w = Some w' -> inv w'.
Proof.
  intros Hi. unfold step_proc. destruct (pl_procs w !! i) as [[c code waits]|] eqn:Hq; [|done]. cbn.
  destruct (iv_procs w Hi i _ Hq) as [Hc Hcode]. cbn in Hc, Hcode. subst c. destruct code as [p|f p]; cbn.
  - destruct (step_prog serve 0 p waits w) as [[[p' waits'] w1]|] eqn:E; [|done]. intros [= <-].
    eapply (inv_harmless i _ _ p p'); eauto.
  - destruct (step_prog serve 0 p waits w) as [[[p' waits'] w1]|] eqn:E; [|done]. intros [= <-].
    destruct f.
    + destruct Hcode as [[_ Hs]|[r Hr]]; [|by destruct p].
      pose proof (iv_slot w Hi) as Hst. rewrite Hs in Hst. destruct Hst as (p0 & wt & Hp0 & Hst).
      rewrite Hq in Hp0. assert (p = p0 /\ waits = wt) as [-> ->] by (split; [apply refresh_code_inj|]; congruence).
      by eapply inv_refresh.
    + destruct Hcode as [[[=] _]|Hp]. destruct (inv_harmless i _ (mkProc 0 (FlightCode SettingsFlight p') waits') p p' waits waits' w w1 Hi Hq) as [H1 [q Hq1]]; try done.
      eapply finish_inv; [done| |done]. cbn. rewrite list_lookup_insert_eq by (by eapply lookup_lt_Some). done.
    + destruct Hcode as [[[=] _]|Hp]. destruct (inv_harmless i _ (mkProc 0 (FlightCode PolicyFlight p') waits') p p' waits waits' w w1 Hi Hq) as [H1 [q Hq1]]; try done.
      eapply finish_inv; [done| |done]. cbn. rewrite list_lookup_insert_eq by (by eapply lookup_lt_Some). done.
Qed.

Lemma inv_start p w : harmless p -> inv w -> inv (start_proc 0 p w).
Proof.
  intros Hp [Hc Hs Hpr]. split; [done| |].
  - change (slot (start_proc 0 p w)) with (slot w). destruct (slot w); [|exact Hs]. destruct Hs as (p0 & wt & Hq & Hst).
    exists p0, wt. split; [|exact Hst]. by apply lookup_app_l_Some.
  - change (slot (start_proc 0 p w)) with (slot w). cbn. intros i q [Hq|[Hlen Hq]]%lookup_app_Some; [by apply Hpr|].
    by apply list_lookup_singleton_Some in Hq as [_ <-].
Qed.

Lemma inv_step w w' : pool_step w w' -> inv w -> inv w'.
Proof.
  intros Hstep Hi. destruct Hstep as [p w Hp|i w w' Hs|n w|w|s w Hs].
  - by apply inv_start.
  - by eapply inv_run_proc.
  - apply (inv_frame w); [by left|by left|done|done|exact (iv_ctx w Hi)|done].
  - apply (inv_frame w); [by left|by right|done|done|exact (iv_ctx w Hi)|done].
  - apply (inv_frame w); [exact Hs|by left|done|done|exact (iv_ctx w Hi)|done].
Qed.
Definition pool_reaches : Pool -> Pool -> Prop := rtc pool_step.

Lemma inv_reaches w w' : pool_reaches w w' -> inv w -> inv w'.
Proof. induction 1; eauto using inv_step. Qed.

Lemma run_schedule_reaches l w : pool_reaches w (run_schedule serve l w).
Proof.
  revert w. induction l as [|i l IH]; intros w; [apply rtc_refl|]. change (run_schedule serve (i :: l) w) with (run_schedule serve l (default w (step_proc serve i w))).
  destruct (step_proc serve i w) as [w'|] eqn:E; cbn [default]; [|apply IH].
  eapply rtc_l; [by eapply pool_run|apply IH].
Qed.

(** One context, no call in progress. *)
Definition idle (w : Pool) : Prop := pl_procs w = [] /\ exists x, pl_ctxs w = [x] /\ cx_flights x = [].

Lemma idle_inv w : idle w -> device_accepted w -> inv w.
Proof.
  intros (Hp & x & Hx & Hf) Hd. split.
  - exists x. split; [done|]. rewrite Hf. apply jm_nil_wf.
  - unfold slot, context_of. rewrite Hx. cbn. by rewrite Hf.
  - intros i q. rewrite Hp. by rewrite lookup_nil.
Qed.

Lemma harmless_request {A} (p : prog A) r : harmless p -> next_request p = Some r -> presented r = None.
Proof. destruct p as [| |[] k]; try done. intros [Ho _] [= <-]. exact Ho. Qed.

(** C9. However the calls of one JavaScript context interleave, with answers
    that fail, get lost or come back as 401, with the device disconnected or
    revoked at any point: a refresh token about to be sent is the one the
    server expects, if it still expects one. So no call is refused, and no
    device asked to sign in again, for presenting a token that another call of
    the context had already rotated. *)
Theorem refresh_always_current w w' i q r t : idle w -> device_accepted w -> pool_reaches w w' ->
  pl_procs w' !! i = Some q -> code_request (pc_code q) = Some r -> presented r = Some t ->
  current (pl_server w') = Some t \/ current (pl_server w') = None.
Proof.
  intros Hidle Hd Hr Hq Hreq Ht. pose proof (inv_reaches _ _ Hr (idle_inv w Hidle Hd)) as Hi.
  destruct (iv_procs w' Hi i q Hq) as [_ Hcode]. destruct (pc_code q) as [p|f p] eqn:Ecode; cbn in Hreq.
  { pose proof (harmless_request p r Hcode Hreq). congruence. }
  destruct f; [|destruct Hcode as [[[=] _]|Hp]; pose proof (harmless_request p r Hp Hreq); congruence..].
  destruct Hcode as [[_ Hs]|[x Hx]]; [|by destruct p].
  pose proof (iv_slot w' Hi) as Hst. rewrite Hs in Hst. destruct Hst as (p0 & wt & Hp0 & Hst).
  rewrite Hq in Hp0. injection Hp0 as ->. cbn in Ecode. apply refresh_code_inj in Ecode. subst p0.
  destruct Hst as [((k & -> & _) & _)|[(id & t' & (r' & k & -> & Hr' & _) & Hacc & _)|[(id & t' & (k & -> & _) & _)|(t' & (u & k & -> & _) & _)]]]; try done.
  injection Hreq as ->. assert (t' = t) as -> by congruence. destruct Hacc; auto.
Qed.
End refreshing.
