(* ===== verification/ApiExample.v ===== *)
(** * The API client against a concrete server

    A server with the refresh route's rules (src/server/src/devices/routes.rs):
    a used refresh token is refused. Witnesses for ApiPoolFacts, and schedules
    that show what happens outside its bounds: two contexts, a reconnect. *)

From S2P Require Import Prelude JsMap Types Util Json Storage ApiClient ApiPool ApiPoolFacts.

Open Scope Z_scope.
Open Scope js_scope.

#[local] Instance plain_numbers : NumberParser := {| number_other := fun _ => None |}.

(** ** The server

    [gen]: how often the tokens were rotated; [log]: the requests' addresses
    and bearer tokens, newest first. *)
Record Srv := mkSrv { gen : Z; log : list (string * option string) }.

Definition token (kind : string) (n : Z) : string := kind +:+ json_num n.
Definition ok_json (fields : list (string * jsval)) : fetch_outcome := Answer (mkResponse 200 (Some (JObj fields)) None).
Definition unauthorized : fetch_outcome := Answer (mkResponse 401 None None).

Definition serve (r : Request) (s : Srv) : fetch_outcome * Srv :=
  let logged g := mkSrv g ((rq_url r, rq_token r) :: log s) in
  match presented r with
  | Some t =>
      if String.eqb t (token "refresh" (gen s))
      then (ok_json [("accessToken", JStr (token "access" (gen s + 1))); ("refreshToken", JStr (token "refresh" (gen s + 1)));
                     ("accessTokenExpiresAt", JStr "later")], logged (gen s + 1))
      else (unauthorized, logged (gen s))
  | None =>
      match rq_token r with
      | Some t => if String.eqb t (token "access" (gen s)) then (ok_json [("historyRetention", JStr "of account A")], logged (gen s))
                  else (unauthorized, logged (gen s))
      | None => (unauthorized, logged (gen s))
      end
  end.
Definition current (s : Srv) : option string := Some (token "refresh" (gen s)).

Lemma serve_rotating : rotating serve current.
Proof.
  split; [| |done].
  - intros r s Hr. left. unfold serve. rewrite Hr. destruct (rq_token r); [destruct (String.eqb _ _)|]; done.
  - intros r s t Hr [= <-]. unfold serve. rewrite Hr, String.eqb_refl. cbn. right. eexists. split; [done|]. done.
Qed.

Definition device (id server access refresh : string) : DeviceRecord :=
  mkDevice server id "u" "e" access "soon" refresh "key" 1 None None None None None None None None None None None.
(** The access token has expired: the server is one generation on. *)
Definition device_A : DeviceRecord := device "dev-a" "https://a" "access-old" (token "refresh" 1).
Definition device_B : DeviceRecord := device "dev-b" "https://b" "access-of-b" "refresh-of-b".

Definition pool (contexts : nat) (d : DeviceRecord) : Pool Srv :=
  mkPool (mkSrv 1 []) (Some d) None None 0 (replicate contexts new_context) [] [] [] [].
Definition download : prog unit := await_ downloadChanges 0 100 in Ret tt.
Definition settings_call : prog unit := await_ fetchSettings false in Ret tt.
Definition run (i n : nat) (w : Pool Srv) : Pool Srv := run_schedule serve (replicate n i) w.

(** ** One context

    Two downloads meet the expired access token at once. *)
Definition two_calls : Pool Srv := start_proc 0 download (start_proc 0 download (pool 1 device_A)).
(** Both got their 401, both wait for the refresh, which is about to send. *)
Definition refreshing : Pool Srv := run_schedule serve [0; 1; 0; 1; 0; 1; 0; 1; 2]%nat two_calls.

Lemma harmless_then {A} (m : prog A) : harmless m -> harmless (await_ m in Ret tt).
Proof. intros Hm. by apply harmless_bind. Qed.

Lemma two_calls_reached : pool_reaches serve current (pool 1 device_A) two_calls.
Proof.
  eapply rtc_l; [apply pool_start with (p := download)|eapply rtc_l; [apply pool_start with (p := download)|apply rtc_refl]];
    apply harmless_then, harmless_download.
Qed.

Lemma refresh_always_current_witness :
  presented (refresh_request "https://a" device_A) = Some (token "refresh" 1) /\
  current (pl_server refreshing) = Some (token "refresh" 1).
Proof.
  split; [reflexivity|].
  assert (option_map (fun q => code_request (pc_code q)) (pl_procs refreshing !! 2%nat) = Some (Some (refresh_request "https://a" device_A))) as Hlook
    by (vm_compute; reflexivity).
  destruct (pl_procs refreshing !! 2%nat) as [q|] eqn:Hq; [|discriminate Hlook]. injection Hlook as Hr.
  assert (idle (pool 1 device_A)) as Hidle by (split; [reflexivity|exists new_context; split; reflexivity]).
  assert (device_accepted current (pool 1 device_A)) as Hd by (intros d [= <-]; by right).
  assert (pool_reaches serve current (pool 1 device_A) refreshing) as Hreach
    by (etransitivity; [exact two_calls_reached|apply run_schedule_reaches]).
  destruct (refresh_always_current serve current serve_rotating _ _ 2 q (refresh_request "https://a" device_A) (token "refresh" 1) Hidle Hd Hreach Hq Hr eq_refl) as [H|H]; [exact H|discriminate H].
Defined.

(** They share the one refresh, and both are answered. *)
Example two_calls_share_a_refresh :
  let w := run_schedule serve (concat (replicate 12 [0; 1; 2]%nat)) two_calls in
  map (fun q => match pc_code q with UserCode (Ret _) => true | FlightCode RefreshFlight (Ret _) => true | _ => false end) (pl_procs w) = [true; true; true] /\
  gen (pl_server w) = 2 /\ option_map refreshToken (pl_device w) = Some (token "refresh" 2).
Proof. vm_compute. done. Qed.

(** ** Two contexts

    The worker and the popup each have their own flights. *)
(** ** Two contexts

    The worker and the popup each have their own flights: both refresh, both
    present the same token, and the second is refused. *)
Theorem contexts_refresh_apart :
  let w := run_schedule serve [0; 1; 0; 1; 0; 1; 0; 1; 2; 3; 2; 3; 3; 3; 1; 1; 1]%nat
    (start_proc 1 download (start_proc 0 download (pool 2 device_A))) in
  option_map pc_code (pl_procs w !! 1%nat) = Some (UserCode (Throw (ReauthRequiredError "refresh failed with status 401"))) /\
  gen (pl_server w) = 2.
Proof. vm_compute. done. Qed.

(** ** A reconnect while a call is out *)

(** The access token of the newly connected device goes to the server of the
    one before. *)
Theorem retry_crosses_servers :
  let w := run 0 20 (set_pool_device (Some device_B) (run 0 2 (start_proc 0 download (pool 1 device_A)))) in
  log (pl_server w) = [("https://a/api/v1/sync/changes?cursor=0&limit=100", Some "access-of-b");
                       ("https://a/api/v1/sync/changes?cursor=0&limit=100", Some "access-old")].
Proof. vm_compute. done. Qed.

(** The worker's settings request is out when the popup disconnects: device
    wiped, caches cleared, the worker told to drop its copy. *)
Definition disconnected : Pool Srv :=
  run 3 9 (start_proc 1 (on_session_change [SettingsCache; PolicyCache])
    (run 2 9 (start_proc 0 invalidateSettingsCache
      (set_pool_device None
        (run 1 2 (run 0 9 (start_proc 1 settings_call (pool 2 (device "dev-a" "https://a" "access1" "refresh1"))))))))).
(** Then the answer arrives, and another account is connected. *)
Definition reconnected : Pool Srv := set_pool_device (Some device_B) (run 0 9 (run 1 9 disconnected)).

Theorem settings_outlive_disconnect :
  option_map (fun e => historyRetention (ce_value e)) (pl_settings disconnected) = None /\
  option_map (fun e => historyRetention (ce_value e)) (pl_settings reconnected) = Some (Some "of account A") /\
  (let w := run 4 20 (start_proc 1 settings_call reconnected) in
   option_map pc_code (pl_procs w !! 4%nat) = Some (UserCode (Ret tt)) /\
   log (pl_server w) = log (pl_server disconnected)).
Proof. vm_compute. done. Qed.
