(* ===== verification/History.v ===== *)
(** * Bulk history import (extension/src/history/bulk.ts)

    The browser's history behind [chrome.history] is an environment whose
    calls may fail and whose awaits let other work change the database (a
    disconnect above all). The import streams visits into segments, segments
    into encrypted chunks, and uploads each chunk before it goes on, keeping a
    checkpoint in the device record.

    Both paging and draining the queue loop on what others answer, so they
    take fuel; running out of it is the error [out_of_fuel], which the facts
    rule out for paging. [Promise.all] is run in order, stopping at the first
    failure. Logging and pacing are left out. *)

From stdpp Require Import sorting.
From S2P Require Import Prelude JsMap Types Util Json Dates Storage Crypto Engine RestorePoints.

Open Scope Z_scope.
Open Scope js_scope.

(** ** The browser *)

Record HistoryItem := mkHistoryItem {
  hi_url : option string;
  hi_title : option string;
  hi_lastVisitTime : option Z;
}.

Record VisitItem := mkVisitItem {
  vi_visitTime : option Z;
  vi_transition : option string;
}.

Class HistoryBrowser (App : Type) := {
  (** [startTime], [endTime] (exclusive), [maxResults], with an empty [text]. *)
  history_search : Z -> Z -> Z -> DB * App -> (sync_error + list HistoryItem) * (DB * App);
  history_getVisits : string -> DB * App -> (sync_error + list VisitItem) * (DB * App);
  history_addUrl : string -> DB * App -> (sync_error + unit) * (DB * App);
}.

(** ** Sizes the tests override *)

Class BulkSizes := {
  BULK_SEGMENT_VISITS : Z;
  BULK_CHUNK_TARGET_VISITS : Z;
  BULK_SEARCH_PAGE_SIZE : Z;
}.

Definition default_sizes : BulkSizes := {|
  BULK_SEGMENT_VISITS := 10000;
  BULK_CHUNK_TARGET_VISITS := 100000;
  BULK_SEARCH_PAGE_SIZE := 5000;
|}.

Definition BULK_CHUNK_TARGET_BYTES : Z := 20 * 1024 * 1024.
Definition BULK_HARD_ABORT_BYTES : Z := 90 * 1024 * 1024.
Definition HISTORY_IMPORT_TOO_LARGE_MESSAGE : string :=
  "HelixSync history import too large: narrow the history retention window and retry".
Definition BULK_URL_CONCURRENCY : nat := 10.
Definition BULK_RESOLVE_SUBBATCH : nat := 5.
Definition NON_USER_VISIT_TRANSITIONS : jset string := ["auto_subframe"].

Definition out_of_fuel : sync_error := OtherError "out of fuel".
Definition type_error : sync_error := OtherError "TypeError".
Definition range_error : sync_error := OtherError "RangeError: Invalid time value".

(** ** Groups and cursors *)

Record CollectedGroup := mkCollectedGroup {
  cg_url : string;
  cg_title : option string;
  cg_times : list Z;
}.

Definition len {A} (l : list A) : Z := Z.of_nat (length l).

(** The binary search; each round halves [hi - lo]. *)
Fixpoint largest_below_loop (fuel : nat) (sorted : list Z) (bound lo hi : Z) (result : option Z) : option Z :=
  match fuel with
  | O => result
  | S fuel =>
      if lo <=? hi then
        let mid := Z.shiftr (lo + hi) 1 in
        let x := nth (Z.to_nat mid) sorted 0 in
        if x <? bound then largest_below_loop fuel sorted bound (mid + 1) hi (Some x)
        else largest_below_loop fuel sorted bound lo (mid - 1) result
      else result
  end.

Definition largestBelow (sorted : list Z) (bound : Z) : option Z :=
  largest_below_loop (S (length sorted)) sorted bound 0 (len sorted - 1) None.

(** The time of a visit that counts, if it does. *)
Definition counted_time (cutoffMs endMs : Z) (visit : VisitItem) : option Z :=
  match vi_visitTime visit with
  | None => None
  | Some visitTime =>
      if (visitTime <? cutoffMs) || (endMs <=? visitTime) then None
      else if js_has NON_USER_VISIT_TRANSITIONS (default "" (vi_transition visit)) then None
      else Some visitTime
  end.

Definition visit_times (cutoffMs endMs : Z) (visits : list VisitItem) : list Z :=
  merge_sort Z.le (omap (counted_time cutoffMs endMs) visits).

(** [item.url && !urlTimes.has(item.url) && (item.lastVisitTime ?? Infinity) >= cutoffMs] *)
Definition enumerable (cutoffMs : Z) (urlTimes : jmap string (list Z)) (item : HistoryItem) :
    option (string * option string) :=
  match hi_url item with
  | Some url =>
      if negb (String.eqb url "") && negb (jm_has urlTimes url) &&
         match hi_lastVisitTime item with Some t => cutoffMs <=? t | None => true end
      then Some (url, hi_title item) else None
  | None => None
  end.

(** The bound of the next page. *)
Definition next_cursor (urlTimes : jmap string (list Z)) (lastItem : HistoryItem) (queryEndTime : Z) : Z :=
  let lastItemTimes :=
    match hi_url lastItem with
    | Some url => if String.eqb url "" then [] else default [] (jm_get urlTimes url)
    | None => []
    end in
  default (queryEndTime - 1) (largestBelow lastItemTimes queryEndTime).

(** ** Loops that may stop early *)

Section loops.
Context {W X A : Type}.

Fixpoint fold_m (f : A -> X -> M W sync_error X) (l : list A) (x : X) : M W sync_error X :=
  match l with
  | [] => ret x
  | a :: l => let! x' := f a x in fold_m f l x'
  end.

(** The second result is true where the body returned out of the loop. *)
Fixpoint fold_until (f : A -> X -> M W sync_error (X * bool)) (l : list A) (x : X) : M W sync_error (X * bool) :=
  match l with
  | [] => ret (x, false)
  | a :: l => let! r := f a x in if r.2 then ret r else fold_until f l r.1
  end.
End loops.

Section bulk.
Context {Srv App : Type} `{Env : EngineEnv Srv App} `{HB : HistoryBrowser App} `{Sizes : BulkSizes}.

Definition browser {A} (f : DB * App -> (sync_error + A) * (DB * App)) : Sync Srv App A := fun w =>
  let '(r, x) := f (w_db w, w_app w) in (r, set_db_app x w).

Definition getDeviceM : Sync Srv App (option DeviceRecord) := db_read db_device.
Definition putDeviceM (device : DeviceRecord) : Sync Srv App unit := db_update (set_device (Some device)).

(** ** Enumerating visits *)

Section enumerate.
(** The state the segment callback closes over, and the callback. *)
Context {C : Type} (onSegment : list CollectedGroup -> C -> Sync Srv App C).
Context (cutoffMs endMs : Z).

Record Enumeration := mkEnumeration {
  en_total : Z;
  en_pending : list CollectedGroup;
  en_count : Z;                         (** pendingVisitCount *)
  en_remaining : Z;                     (** skipState.remaining *)
  en_urlTimes : jmap string (list Z);
  en_acc : C;
}.

Definition set_urlTimes (m : jmap string (list Z)) (st : Enumeration) : Enumeration :=
  mkEnumeration (en_total st) (en_pending st) (en_count st) (en_remaining st) m (en_acc st).

Definition flushSegment (st : Enumeration) : Sync Srv App Enumeration :=
  if en_count st =? 0 then ret st
  else
    let! acc := onSegment (en_pending st) (en_acc st) in
    ret (mkEnumeration (en_total st + en_count st) [] 0 (en_remaining st) (en_urlTimes st) acc).

(** The [while] loop of [pushGroup], on the times from [offset] on: each round
    takes at least one. *)
Fixpoint push_loop (fuel : nat) (url : string) (title : option string) (times : list Z) (st : Enumeration) :
    Sync Srv App Enumeration :=
  match fuel, times with
  | O, _ | _, [] => ret st
  | S fuel, _ =>
      let room := BULK_SEGMENT_VISITS - en_count st in
      let n := Z.min room (len times) in
      let st1 := mkEnumeration (en_total st)
        (en_pending st ++ [mkCollectedGroup url title (take (Z.to_nat n) times)]) (en_count st + n)
        (en_remaining st) (en_urlTimes st) (en_acc st) in
      let rest := drop (Z.to_nat n) times in
      if BULK_SEGMENT_VISITS <=? en_count st1 then
        let! st2 := flushSegment st1 in push_loop fuel url title rest st2
      else push_loop fuel url title rest st1
  end.

Definition pushGroup (g : CollectedGroup) (st : Enumeration) : Sync Srv App Enumeration :=
  let skip := if 0 <? en_remaining st then Z.min (en_remaining st) (len (cg_times g)) else 0 in
  let times := drop (Z.to_nat skip) (cg_times g) in
  let st1 := mkEnumeration (en_total st) (en_pending st) (en_count st) (en_remaining st - skip)
               (en_urlTimes st) (en_acc st) in
  push_loop (length times) (cg_url g) (cg_title g) times st1.

Definition resolveUrl (item : string * option string) : Sync Srv App CollectedGroup :=
  let! visits := browser (history_getVisits item.1) in
  ret (mkCollectedGroup item.1 item.2 (visit_times cutoffMs endMs visits)).

Definition enter_group (g : CollectedGroup) (st : Enumeration) : Sync Srv App Enumeration :=
  let st1 := set_urlTimes (jm_set (en_urlTimes st) (cg_url g) (cg_times g)) st in
  match cg_times g with [] => ret st1 | _ => pushGroup g st1 end.

Definition process_subbatch (group : list (string * option string)) (st : Enumeration) :
    Sync Srv App (Enumeration * bool) :=
  let! device := getDeviceM in
  match device with
  | None => ret (st, true)
  | Some _ =>
      let! groupsPerUrl := map_m resolveUrl group in
      let! st' := fold_m enter_group groupsPerUrl st in
      ret (st', false)
  end.

Definition process_slice (slice : list HistoryItem) (st : Enumeration) : Sync Srv App (Enumeration * bool) :=
  match omap (enumerable cutoffMs (en_urlTimes st)) slice with
  | [] => ret (st, false)
  | inWindow =>
      let reserved := foldl (fun m item => jm_set m item.1 []) (en_urlTimes st) inWindow in
      fold_until process_subbatch (slices inWindow BULK_RESOLVE_SUBBATCH) (set_urlTimes reserved st)
  end.

Fixpoint page_loop (fuel : nat) (queryEndTime : Z) (st : Enumeration) : Sync Srv App (Enumeration * bool) :=
  match fuel with
  | O => throw out_of_fuel
  | S fuel =>
      let! device := getDeviceM in
      match device with
      | None => ret (st, true)
      | Some _ =>
          let! items := browser (history_search cutoffMs queryEndTime BULK_SEARCH_PAGE_SIZE) in
          let! r := fold_until process_slice (slices items BULK_URL_CONCURRENCY) st in
          if r.2 then ret r
          else if len items <? BULK_SEARCH_PAGE_SIZE then ret r
          else
            match last items with
            | None => throw type_error
            | Some lastItem =>
                let nextQueryEndTime := next_cursor (en_urlTimes r.1) lastItem queryEndTime in
                if negb (nextQueryEndTime <? queryEndTime) then ret r
                else page_loop fuel nextQueryEndTime r.1
            end
      end
  end.

(** Returns (callback state, total, aborted). *)
Definition enumerateVisits (fuel : nat) (remaining : Z) (acc : C) : Sync Srv App (C * Z * bool) :=
  let! r := page_loop fuel endMs (mkEnumeration 0 [] 0 remaining [] acc) in
  if r.2 then ret (en_acc r.1, en_total r.1, true)
  else
    let! st := flushSegment r.1 in
    ret (en_acc st, en_total st, false).
End enumerate.

(** ** Scopes and checkpoints in the device record *)

Inductive BulkScopeFields := INITIAL_SCOPE | OLDER_SCOPE.

Definition scope_cutoff (fields : BulkScopeFields) (d : DeviceRecord) : option Z :=
  match fields with INITIAL_SCOPE => historyBulkCutoffMs d | OLDER_SCOPE => historyOlderCutoffMs d end.
Definition scope_end (fields : BulkScopeFields) (d : DeviceRecord) : option Z :=
  match fields with INITIAL_SCOPE => historyBulkEndMs d | OLDER_SCOPE => historyOlderEndMs d end.
Definition scope_chunks (fields : BulkScopeFields) (d : DeviceRecord) : option Z :=
  match fields with INITIAL_SCOPE => historyBulkUploadedChunks d | OLDER_SCOPE => historyOlderUploadedChunks d end.
Definition scope_visits (fields : BulkScopeFields) (d : DeviceRecord) : option Z :=
  match fields with INITIAL_SCOPE => historyBulkUploadedVisits d | OLDER_SCOPE => historyOlderUploadedVisits d end.

(** [{...d, ...}]: every history field given, the others kept. *)
Definition with_history (bc be : option Z) (bo bb : option string) (bch bv oc oe och ov : option Z)
    (d : DeviceRecord) : DeviceRecord :=
  mkDevice (serverUrl d) (deviceId d) (userId d) (email d) (accessToken d) (accessTokenExpiresAt d)
    (refreshToken d) (accountKey d) (accountKeyVersion d) (initialImportCompletedAt d) bc be bo bb bch bv oc oe och ov.

Definition with_checkpoint (fields : BulkScopeFields) (chunks visits : option Z) (d : DeviceRecord) : DeviceRecord :=
  match fields with
  | INITIAL_SCOPE => with_history (historyBulkCutoffMs d) (historyBulkEndMs d) (historyBulkOperationId d)
      (historyBulkObjectId d) chunks visits (historyOlderCutoffMs d) (historyOlderEndMs d)
      (historyOlderUploadedChunks d) (historyOlderUploadedVisits d) d
  | OLDER_SCOPE => with_history (historyBulkCutoffMs d) (historyBulkEndMs d) (historyBulkOperationId d)
      (historyBulkObjectId d) (historyBulkUploadedChunks d) (historyBulkUploadedVisits d)
      (historyOlderCutoffMs d) (historyOlderEndMs d) chunks visits d
  end.

Definition with_bulk_scope (cutoff endMs : option Z) (d : DeviceRecord) : DeviceRecord :=
  with_history cutoff endMs (historyBulkOperationId d) (historyBulkObjectId d) (historyBulkUploadedChunks d)
    (historyBulkUploadedVisits d) (historyOlderCutoffMs d) (historyOlderEndMs d) (historyOlderUploadedChunks d)
    (historyOlderUploadedVisits d) d.
Definition with_older_scope (cutoff endMs : option Z) (d : DeviceRecord) : DeviceRecord :=
  with_history (historyBulkCutoffMs d) (historyBulkEndMs d) (historyBulkOperationId d) (historyBulkObjectId d)
    (historyBulkUploadedChunks d) (historyBulkUploadedVisits d) cutoff endMs (historyOlderUploadedChunks d)
    (historyOlderUploadedVisits d) d.
Definition with_bulk_ids (operationId objectId : string) (d : DeviceRecord) : DeviceRecord :=
  with_history (historyBulkCutoffMs d) (historyBulkEndMs d) (Some operationId) (Some objectId)
    (historyBulkUploadedChunks d) (historyBulkUploadedVisits d) (historyOlderCutoffMs d) (historyOlderEndMs d)
    (historyOlderUploadedChunks d) (historyOlderUploadedVisits d) d.

(** ** Chunks *)

(** (operationId, objectId) *)
Definition deterministicBulkIds (device : string) (cutoffMs chunkIndex : Z) : string * string :=
  let digest s := sha256 (utf8_encode s) in
  let parts := ["HISTORY_BULK"; device; "bulkImport"; json_num cutoffMs; json_num chunkIndex] in
  (deterministicUuid digest parts, deterministicUuid digest (parts ++ ["object"])).

Definition group_jsval (g : CollectedGroup) : jsval :=
  JObj [("u", JStr (cg_url g)); ("t", of_opt_str (cg_title g)); ("v", JArr (map JNum (cg_times g)))].
(** [BulkSegmentPlaintextV2] *)
Definition segment_jsval (groups : list CollectedGroup) : jsval :=
  JObj [("v", JNum 2); ("groups", JArr (map group_jsval groups))].

Definition container_jsval (codec : bool) (visitCount : Z) (segments : list jsval) : jsval :=
  JObj [("v", JNum 1); ("bulkVersion", JNum 2); ("codec", if codec then JStr "deflate-raw" else JUndef);
        ("visitCount", JNum visitCount); ("segments", JArr segments)].

Record BulkChunkOperation := mkBulkChunk { bk_operation : LocalOperation; bk_chunkBytes : Z }.

(** The variables [collectHistoryBulk] keeps across its callbacks. *)
Record Collection := mkCollection {
  chunkSegments : list jsval;
  chunkVisitCount : Z;
  chunkBytes : Z;
  chunkVisitHours : jmap string Z;
  chunkIndex : Z;
  totalVisitCount : Z;
  chunksFlushedThisRun : Z;
  currentChunkObjectId : option string;
  uploadedChunks : Z;
  uploadedVisits : Z;
}.

(** [for (let more = true; more; ) more = await uploadPending()] *)
Fixpoint drain_queue (fuel : nat) : Sync Srv App unit :=
  match fuel with
  | O => throw out_of_fuel
  | S fuel => let! more := uploadPending in if (more : bool) then drain_queue fuel else ret tt
  end.

Definition sum_counts (hours : jmap string Z) : Z := foldr Z.add 0 (jm_values hours).

Fixpoint count_hours (times : list Z) (hours : jmap string Z) : option (jmap string Z) :=
  match times with
  | [] => Some hours
  | t :: times =>
      match hourKey t with
      | None => None
      | Some key => count_hours times (jm_set hours key (default 0 (jm_get hours key) + 1))
      end
  end.

Section collect.
Context `{Defl : Deflate}.
Context (fields : BulkScopeFields) (fuel : nat) (onChunk : BulkChunkOperation -> Sync Srv App unit).
(** Fixed when the collection starts. *)
Context (deviceId : string) (cutoff keyVersion : Z) (sdek : bytes).

Definition chunk_operation (c : Collection) (start : Z * Z) : BulkChunkOperation :=
  let ids := deterministicBulkIds deviceId cutoff (chunkIndex c) in
  mkBulkChunk
    (mkLocalOperation ids.1 (start.1 + 1) (start.2 + 1) OtHistoryVisit ids.2 OpBulkImport 1
       (container_jsval supportsDeflateRaw (chunkVisitCount c) (chunkSegments c))
       (Some (chunkVisitCount c)) (Some (chunkVisitHours c)))
    (chunkBytes c).

Definition next_chunk (c : Collection) : Collection :=
  mkCollection [] 0 0 [] (chunkIndex c + 1) (totalVisitCount c + chunkVisitCount c) (chunksFlushedThisRun c + 1) None
    (uploadedChunks c) (uploadedVisits c).

Definition save_checkpoint (chunks visits : option Z) : Sync Srv App unit :=
  let! current := getDeviceM in
  match current with
  | Some current => putDeviceM (with_checkpoint fields chunks visits current)
  | None => ret tt
  end.

Definition flushChunk (c : Collection) : Sync Srv App Collection :=
  if chunkVisitCount c =? 0 then ret c
  else
    do! drain_queue fuel in
    let! start := db_run (reserveSequenceBatch 1) in
    if negb (sum_counts (chunkVisitHours c) =? chunkVisitCount c) then
      throw (OtherError "HelixSync: bulk history chunk visitHours sum mismatch")
    else
      let operation := chunk_operation c start in
      let thisChunkVisitCount := chunkVisitCount c in
      let c1 := next_chunk c in
      do! onChunk operation in
      let c2 := mkCollection (chunkSegments c1) (chunkVisitCount c1) (chunkBytes c1) (chunkVisitHours c1)
                  (chunkIndex c1) (totalVisitCount c1) (chunksFlushedThisRun c1) (currentChunkObjectId c1)
                  (chunkIndex c1) (uploadedVisits c1 + thisChunkVisitCount) in
      do! save_checkpoint (Some (uploadedChunks c2)) (Some (uploadedVisits c2)) in
      ret c2.

(** [envelope.ciphertext.length] *)
Definition ciphertext_length (envelope : jsval) : Z :=
  match jget envelope "ciphertext" with JStr s => Z.of_nat (String.length s) | _ => 0 end.

Definition segment_plain (groups : list CollectedGroup) : bytes :=
  let jsonBytes := utf8_encode (JSON_stringify (segment_jsval groups)) in
  if supportsDeflateRaw then deflateRaw jsonBytes else jsonBytes.

Definition group_times (groups : list CollectedGroup) : list Z := groups ≫= cg_times.

(** The callback of [enumerateVisits]. *)
Definition collect_segment (groups : list CollectedGroup) (c : Collection) : Sync Srv App Collection :=
  let visitCount := foldr (fun g n => len (cg_times g) + n) 0 groups in
  match count_hours (group_times groups) (chunkVisitHours c) with
  | None => throw range_error
  | Some hours =>
      let objectId := default (deterministicBulkIds deviceId cutoff (chunkIndex c)).2 (currentChunkObjectId c) in
      let! nonce := nonce_next in
      let envelope := encryptBytesWithSdek None nonce (segment_plain groups) sdek keyVersion
        (buildOperationAad "historyVisit" objectId "bulkImport") in
      if BULK_HARD_ABORT_BYTES <? ciphertext_length envelope then
        throw (OtherError HISTORY_IMPORT_TOO_LARGE_MESSAGE)
      else
        let c1 := mkCollection (chunkSegments c ++ [envelope]) (chunkVisitCount c + visitCount)
          (chunkBytes c + ciphertext_length envelope) hours (chunkIndex c) (totalVisitCount c)
          (chunksFlushedThisRun c) (Some objectId) (uploadedChunks c) (uploadedVisits c) in
        if (BULK_CHUNK_TARGET_BYTES <=? chunkBytes c1) || (BULK_CHUNK_TARGET_VISITS <=? chunkVisitCount c1)
        then flushChunk c1 else ret c1
  end.
End collect.

Record BulkCollectResult := mkCollected { cr_chunkCount : Z; cr_totalVisitCount : Z; cr_aborted : bool }.

Definition collectHistoryBulk `{Defl : Deflate} (fuel : nat) (cutoffMs endMs : Z)
    (onChunk : BulkChunkOperation -> Sync Srv App unit) (fields : BulkScopeFields) : Sync Srv App BulkCollectResult :=
  let! device := getDeviceM in
  match device with
  | None => ret (mkCollected 0 0 false)
  | Some device =>
      let effectiveCutoff := default cutoffMs (scope_cutoff fields device) in
      let effectiveEndMs := default endMs (scope_end fields device) in
      let chunks := default 0 (scope_chunks fields device) in
      let visits := default 0 (scope_visits fields device) in
      let! sdek := getSdekM (accountKey device) (accountKeyVersion device) in
      let! r := enumerateVisits
        (collect_segment fields fuel onChunk (deviceId device) effectiveCutoff (accountKeyVersion device) sdek)
        effectiveCutoff effectiveEndMs fuel visits (mkCollection [] 0 0 [] chunks 0 0 None chunks visits) in
      let '(c, _, aborted) := r in
      if (aborted : bool) then ret (mkCollected (chunksFlushedThisRun c) (totalVisitCount c) true)
      else
        let! c' := flushChunk fields fuel onChunk (deviceId device) effectiveCutoff c in
        do! save_checkpoint fields None None in
        ret (mkCollected (chunksFlushedThisRun c') (totalVisitCount c') false)
  end.

(** ** Uploading *)

Definition uploadHistoryBulk (chunk : BulkChunkOperation) : Sync Srv App unit :=
  let operation := bk_operation chunk in
  let! device := getDeviceM in
  match device with
  | None => ret tt
  | Some device =>
      do! putDeviceM (with_bulk_ids (operationId operation) (objectId operation) device) in
      let! response := uploadM [operation] in
      if bool_decide (operationId operation ∈ accepted response) then ret tt
      else if bool_decide (operationId operation ∈ duplicate response) then ret tt
      else
        match List.find (fun r => String.eqb (rej_operationId r) (operationId operation)) (rejected response) with
        | Some rejection =>
            if String.eqb (rej_reason rejection) "payload_too_large" then
              throw (OtherError HISTORY_IMPORT_TOO_LARGE_MESSAGE)
            else throw (OtherError ("HelixSync history import rejected: " +:+ rej_reason rejection))
        | None => throw (OtherError "HelixSync history import failed: no acceptance from server")
        end
  end.

(** The [onChunk] both imports pass. *)
Definition upload_if_connected (chunk : BulkChunkOperation) : Sync Srv App unit :=
  let! device := getDeviceM in
  match device with None => ret tt | Some _ => uploadHistoryBulk chunk end.

Section imports.
Context `{Defl : Deflate} (fuel : nat).

Definition backfillHistoryBulk (cutoffMs : Z) : Sync Srv App unit :=
  let! device := getDeviceM in
  match device with
  | None => ret tt
  | Some device =>
      let effectiveCutoff := default cutoffMs (historyBulkCutoffMs device) in
      let! effectiveEndMs := (match historyBulkEndMs device with Some e => ret e | None => now_next end) in
      let run :=
        do! collectHistoryBulk fuel effectiveCutoff effectiveEndMs upload_if_connected INITIAL_SCOPE in ret tt in
      match historyBulkCutoffMs device with
      | Some _ => run
      | None =>
          let! current := getDeviceM in
          match current with
          | None => ret tt
          | Some current =>
              do! putDeviceM (with_bulk_scope (Some effectiveCutoff) (Some effectiveEndMs) current) in run
          end
      end
  end.

(** [initialImportCompletedAt] is falsy where it is absent or empty. *)
Definition import_completed (d : DeviceRecord) : bool :=
  match initialImportCompletedAt d with Some s => negb (String.eqb s "") | None => false end.

(** The scope of the next pass, persisted first unless one already is. *)
Definition older_scope (cutoffMs : Z) (device : DeviceRecord) : Sync Srv App bool :=
  match historyOlderCutoffMs device with
  | Some _ => ret true
  | None =>
      match historyBulkCutoffMs device with
      | None => ret false
      | Some coveredFromMs =>
          if negb (cutoffMs <? coveredFromMs) then ret false
          else do! putDeviceM (with_older_scope (Some cutoffMs) (Some coveredFromMs) device) in ret true
      end
  end.

Definition importOlderHistoryPass (cutoffMs : Z) : Sync Srv App bool :=
  let! device := getDeviceM in
  match device with
  | None => ret false
  | Some device =>
      if negb (import_completed device) then ret false
      else
        let! more := older_scope cutoffMs device in
        if negb more then ret false
        else
          let! scoped := getDeviceM in
          match scoped ≫= historyOlderCutoffMs, scoped ≫= historyOlderEndMs with
          | Some olderCutoff, Some olderEnd =>
              let! result := collectHistoryBulk fuel olderCutoff olderEnd upload_if_connected OLDER_SCOPE in
              if cr_aborted result then ret false
              else
                let! current := getDeviceM in
                match current with
                | None => ret false
                | Some current =>
                    do! putDeviceM (with_older_scope None None
                          (with_bulk_scope (Some olderCutoff) (historyBulkEndMs current) current)) in
                    ret true
                end
          | _, _ => ret false
          end
  end.

Fixpoint importOlderHistoryBulk (passes : nat) (cutoffMs : Z) : Sync Srv App unit :=
  match passes with
  | O => throw out_of_fuel
  | S passes =>
      let! more := importOlderHistoryPass cutoffMs in
      if (more : bool) then importOlderHistoryBulk passes cutoffMs else ret tt
  end.
End imports.
End bulk.

#[global] Arguments mkEnumeration {C}.
