(* ===== verification/HistoryEnumFacts.v ===== *)
(** * What a bulk import enumerates

    The stream of visits that paging yields, how it is cut into segments, and
    that [enumerateVisits] hands exactly those segments to its callback. *)

From stdpp Require Import sorting.
From S2P Require Import Prelude JsMap Types Util Json Dates Storage Crypto Engine RestorePoints History.
Open Scope Z_scope.
Open Scope js_scope.

(** ** [largestBelow] *)

Lemma Sorted_nth (l : list Z) i j : StronglySorted Z.le l -> (i <= j)%nat -> (j < length l)%nat -> nth i l 0 <= nth j l 0.
Proof.
  intros Hs. revert i j. induction Hs as [|x l Hs IH Hx]; intros i j Hij Hj; [cbn in Hj; lia|].
  destruct i as [|i], j as [|j]; cbn in *; try lia.
  - rewrite Forall_forall in Hx. apply Hx. rewrite nth_lookup. destruct (lookup_lt_is_Some_2 l j ltac:(lia)) as [y Hy].
    rewrite Hy. by eapply list_elem_of_lookup_2.
  - apply IH; lia.
Qed.

(** What the search knows between two rounds. *)
Lemma largest_below_loop_spec fuel sorted bound lo hi result :
  StronglySorted Z.le sorted -> 0 <= lo -> lo <= hi + 1 -> hi < len sorted -> hi - lo + 1 < Z.of_nat fuel ->
  (forall i, (i < Z.to_nat lo)%nat -> nth i sorted 0 < bound) ->
  (forall i, hi < Z.of_nat i -> (i < length sorted)%nat -> bound <= nth i sorted 0) ->
  result = (if lo =? 0 then None else Some (nth (Z.to_nat (lo - 1)) sorted 0)) ->
  exists n, (n <= length sorted)%nat /\ (forall i, (i < n)%nat -> nth i sorted 0 < bound) /\
    (forall i, (n <= i < length sorted)%nat -> bound <= nth i sorted 0) /\
    largest_below_loop fuel sorted bound lo hi result = (if Nat.eqb n 0 then None else Some (nth (n - 1) sorted 0)).
Proof.
  intros Hs. unfold len. revert lo hi result. induction fuel as [|fuel IH]; intros lo hi result Hlo Hlh Hhi Hf Hb Ha Hr; [lia|].
  cbn [largest_below_loop]. destruct (Z.leb_spec lo hi) as [Hle|Hgt].
  2:{ exists (Z.to_nat lo). split_and!; [lia|done|intros i Hi; apply Ha; lia|]. rewrite Hr.
      destruct (Z.eqb_spec lo 0), (Nat.eqb_spec (Z.to_nat lo) 0); try lia; [done|]. do 2 f_equal. lia. }
  assert (lo <= Z.shiftr (lo + hi) 1 <= hi) as Hmid.
  { rewrite Z.shiftr_div_pow2 by done. change (2 ^ 1) with 2. Z.to_euclidean_division_equations. lia. }
  revert Hmid. generalize (Z.shiftr (lo + hi) 1) as mid. intros mid Hmid.
  destruct (Z.ltb_spec (nth (Z.to_nat mid) sorted 0) bound) as [Hx|Hx].
  - apply IH; try lia; [|intros; apply Ha; lia|].
    + intros i Hi. eapply Z.le_lt_trans; [|exact Hx]. apply Sorted_nth; [done|lia|lia].
    + rewrite (proj2 (Z.eqb_neq _ _)) by lia. do 2 f_equal. lia.
  - apply IH; try lia; [done| |done]. intros i Hi Hil. eapply Z.le_trans; [exact Hx|]. apply Sorted_nth; [done|lia|lia].
Qed.

(** The reference: the last of the values below the bound. *)
Definition last_below (sorted : list Z) (bound : Z) : option Z := last (filter (fun x => x < bound) sorted).

Lemma filter_split_below n sorted bound : (n <= length sorted)%nat ->
  (forall i, (i < n)%nat -> nth i sorted 0 < bound) -> (forall i, (n <= i < length sorted)%nat -> bound <= nth i sorted 0) ->
  filter (fun x => x < bound) sorted = take n sorted.
Proof.
  intros Hn Hb Ha. rewrite <- (take_drop n sorted) at 1. rewrite filter_app.
  assert (forall i y, sorted !! i = Some y -> nth i sorted 0 = y) as Hnth by (intros i y E; by rewrite nth_lookup, E).
  rewrite filter_true, filter_false, app_nil_r; [done| |].
  - apply Forall_forall. intros y [i Hy]%list_elem_of_lookup. rewrite lookup_drop in Hy.
    pose proof (lookup_lt_Some _ _ _ Hy). rewrite <- (Hnth _ _ Hy). apply Z.le_ngt, Ha. lia.
  - apply Forall_forall. intros y [i Hy]%list_elem_of_lookup. pose proof (lookup_lt_Some _ _ _ Hy) as Hi.
    rewrite length_take in Hi. rewrite lookup_take in Hy. case_decide; [|done]. rewrite <- (Hnth _ _ Hy). apply Hb. lia.
Qed.

(** The binary search for the next page's bound finds the largest time
    below the current one, or nothing where there is none. *)
Theorem largestBelow_reference sorted bound : StronglySorted Z.le sorted ->
  largestBelow sorted bound = last_below sorted bound.
Proof.
  intros Hs. unfold largestBelow.
  destruct (largest_below_loop_spec (S (length sorted)) sorted bound 0 (len sorted - 1) None) as (n & Hn & Hb & Ha & ->);
    try (unfold len; lia); [done|done|].
  unfold last_below. rewrite (filter_split_below n) by done. rewrite last_lookup, length_take, Nat.min_l by done.
  destruct (Nat.eqb_spec n 0) as [->|Hne]; [by rewrite take_0|].
  rewrite lookup_take by lia. rewrite decide_True by lia. rewrite nth_lookup.
  replace (pred n) with (n - 1)%nat by lia. by destruct (lookup_lt_is_Some_2 sorted (n - 1) ltac:(lia)) as [y ->].
Qed.
(** ** Cutting a list into pieces of one length *)

Lemma slices_from_fuel {A} fuel fuel' (l : list A) n i : (0 < n)%nat ->
  (length l - i <= fuel)%nat -> (length l - i <= fuel')%nat -> slices_from fuel l n i = slices_from fuel' l n i.
Proof.
  intros Hn. revert fuel' i. induction fuel as [|fuel IH]; intros [|fuel'] i Hf Hf'; cbn [slices_from]; try done.
  - by rewrite (proj2 (Nat.ltb_ge i (length l))) by lia.
  - by rewrite (proj2 (Nat.ltb_ge i (length l))) by lia.
  - destruct (Nat.ltb_spec i (length l)); [|done]. f_equal. apply IH; lia.
Qed.

Lemma slices_from_drop {A} fuel (l : list A) n i j : slices_from fuel l n (i + j) = slices_from fuel (drop i l) n j.
Proof.
  revert j. induction fuel as [|fuel IH]; intros j; [done|]. cbn [slices_from]. rewrite length_drop.
  destruct (Nat.ltb_spec (i + j) (length l)), (Nat.ltb_spec j (length l - i)); try lia; [|done].
  f_equal; [|rewrite <- IH; f_equal; lia]. unfold slice. rewrite drop_drop. f_equal. lia.
Qed.

Lemma slices_cons {A} (p r : list A) n : (0 < n)%nat -> length p = n -> slices (p ++ r) n = p :: slices r n.
Proof.
  intros Hn Hp. unfold slices. destruct (p ++ r) as [|a l] eqn:E; [by destruct p; simplify_eq/=; lia|]. rewrite <- E. clear a l E.
  rewrite length_app. destruct (length p + length r)%nat as [|k] eqn:Ek; [lia|]. cbn [slices_from].
  rewrite length_app, Ek. cbn [Nat.ltb Nat.leb]. f_equal.
  - unfold slice. rewrite drop_0. cbn. rewrite Nat.sub_0_r, take_app_length'; done.
  - rewrite <- (Nat.add_0_r (0 + n)), slices_from_drop. cbn [Nat.add]. rewrite drop_app_length' by done.
    apply slices_from_fuel; lia.
Qed.

Lemma slices_pieces {A} (ps : list (list A)) r n : (0 < n)%nat -> Forall (fun p => length p = n) ps ->
  slices (concat ps ++ r) n = ps ++ slices r n.
Proof.
  intros Hn. induction 1 as [|p ps Hp _ IH]; [done|]. cbn [concat app]. rewrite <- app_assoc, slices_cons by done.
  by rewrite IH.
Qed.

Lemma slices_small {A} (l : list A) n : l <> [] -> (length l <= n)%nat -> slices l n = [l].
Proof.
  intros Hl Hn. unfold slices. destruct l as [|a l]; [done|]. cbn [length slices_from Nat.ltb Nat.leb].
  unfold slice. rewrite drop_0, take_ge by (cbn in *; lia). f_equal.
  destruct (length l); [done|]. cbn [slices_from]. by rewrite (proj2 (Nat.ltb_ge _ _)) by (cbn in *; lia).
Qed.

Lemma slices_nil {A} n : slices ([] : list A) n = [].
Proof. done. Qed.

Lemma slices_skip {A} (l : list A) n k : (0 < n)%nat -> slices (drop (k * n) l) n = drop k (slices l n).
Proof.
  intros Hn. revert l. induction k as [|k IH]; intros l; [by rewrite !drop_0|].
  destruct (decide (length l <= n)%nat) as [Hs|Hl].
  - rewrite drop_ge by lia. rewrite slices_nil. symmetry. destruct l as [|a l]; [done|].
    rewrite slices_small by (done || lia). by rewrite drop_ge by (cbn; lia).
  - rewrite <- (take_drop n l) at 2. rewrite slices_cons by (done || rewrite length_take; lia).
    cbn [drop]. rewrite <- IH, drop_drop. done.
Qed.

(** ** Visits, one by one *)

Definition Visit : Type := string * option string * Z.

Definition visits_of (g : CollectedGroup) : list Visit := map (fun t => (cg_url g, cg_title g, t)) (cg_times g).
Definition flats (gs : list CollectedGroup) : list Visit := gs ≫= visits_of.

(** Visits of one URL in a row, as one group. *)
Fixpoint regroup (vs : list Visit) : list CollectedGroup :=
  match vs with
  | [] => []
  | (url, title, t) :: vs =>
      match regroup vs with
      | g :: gs =>
          if decide (cg_url g = url /\ cg_title g = title) then mkCollectedGroup url title (t :: cg_times g) :: gs
          else mkCollectedGroup url title [t] :: g :: gs
      | [] => [mkCollectedGroup url title [t]]
      end
  end.

Definition full_group (g : CollectedGroup) : Prop := cg_times g <> [].
Definition tidy (gs : list CollectedGroup) : Prop := NoDup (map cg_url gs) /\ Forall full_group gs.

Lemma flats_app a b : flats (a ++ b) = flats a ++ flats b.
Proof. apply bind_app. Qed.
Lemma flats_cons g gs : flats (g :: gs) = visits_of g ++ flats gs.
Proof. done. Qed.
Lemma flats_concat gss : flats (concat gss) = concat (map flats gss).
Proof. induction gss as [|gs gss IH]; [done|]. cbn [concat map]. by rewrite flats_app, IH. Qed.
Lemma length_visits_of g : length (visits_of g) = length (cg_times g).
Proof. apply length_fmap. Qed.

Lemma regroup_head gs : match regroup (flats gs) with
  | [] => True
  | g :: _ => exists g', g' ∈ gs /\ cg_url g' = cg_url g
  end.
Proof.
  induction gs as [|g gs IH]; [done|]. rewrite flats_cons. unfold visits_of.
  destruct (cg_times g) as [|t ts]; cbn [map app].
  - destruct (regroup (flats gs)); [done|]. destruct IH as (g' & ? & ?). exists g'. split; [by right|done].
  - cbn [regroup]. match goal with |- context [regroup ?x] => destruct (regroup x) end; [|case_decide]; exists g; (split; [by left|done]).
Qed.

Lemma regroup_flats gs : tidy gs -> regroup (flats gs) = gs.
Proof.
  induction gs as [|g gs IH]; intros [Hnd Hf]; [done|]. inversion Hnd as [|? ? Hnin Hnd']; inversion Hf as [|? ? Hg Hf']; subst.
  rewrite flats_cons. specialize (IH (conj Hnd' Hf')). pose proof (regroup_head gs) as Hh. rewrite IH in Hh.
  clear Hnd Hf. destruct g as [url title ts]. unfold full_group in Hg. cbn in Hg, Hnin. unfold visits_of. cbn [cg_url cg_title cg_times].
  induction ts as [|t ts IHt]; [done|]. cbn [map app regroup]. destruct ts as [|t' ts].
  - cbn [map app]. rewrite IH. destruct gs as [|g gs]; [done|]. rewrite decide_False; [done|]. intros [<- _].
    apply Hnin. by left.
  - rewrite IHt by done. cbn [cg_url cg_title cg_times]. by rewrite decide_True.
Qed.

(** The segments a list of groups is cut into after [skip] visits. *)
Definition segments_of (size : nat) (gs : list CollectedGroup) (skip : nat) : list (list CollectedGroup) :=
  map regroup (slices (drop skip (flats gs)) size).

Definition seg_full (size : nat) (s : list CollectedGroup) : Prop := tidy s /\ length (flats s) = size.

(** Full segments whose visits begin the list are its first segments. *)
Lemma segments_prefix size gs skip segs rest : (0 < size)%nat -> Forall (seg_full size) segs ->
  flats (concat segs) ++ rest = drop skip (flats gs) ->
  segments_of size gs skip = segs ++ map regroup (slices rest size).
Proof.
  intros Hn Hs Hf. unfold segments_of. rewrite <- Hf, flats_concat, slices_pieces, map_app; [|done|].
  - f_equal. clear Hf. induction Hs as [|s segs [Ht _] _ IH]; [done|]. cbn [map]. by rewrite regroup_flats, IH.
  - clear Hf. induction Hs as [|s segs [_ Hl] _ IH]; constructor; done.
Qed.

Lemma segments_all size gs skip segs s : (0 < size)%nat -> Forall (seg_full size) segs ->
  flats (concat segs) ++ flats s = drop skip (flats gs) -> tidy s -> flats s <> [] -> (length (flats s) <= size)%nat ->
  segments_of size gs skip = segs ++ [s].
Proof.
  intros Hn Hs Hf Ht Hne Hl. rewrite (segments_prefix size gs skip segs (flats s)) by done.
  rewrite slices_small by done. cbn [map]. by rewrite regroup_flats.
Qed.

(** Skipping whole segments leaves the later ones as they were. *)
Lemma segments_skip size gs k : (0 < size)%nat -> segments_of size gs (k * size) = drop k (segments_of size gs 0).
Proof. intros. unfold segments_of. by rewrite slices_skip, drop_0, fmap_drop. Qed.
(** ** The stream *)

Section stream.
Context `{Sizes : BulkSizes} (search : Z -> list HistoryItem) (visits : string -> list VisitItem) (cutoffMs endMs : Z).

Definition group_of (item : string * option string) : CollectedGroup :=
  mkCollectedGroup item.1 item.2 (visit_times cutoffMs endMs (visits item.1)).
Definition enter_times (m : jmap string (list Z)) (g : CollectedGroup) : jmap string (list Z) :=
  jm_set m (cg_url g) (cg_times g).
Definition fresh_items (m : jmap string (list Z)) (items : list HistoryItem) : list (string * option string) :=
  omap (enumerable cutoffMs m) items.
Definition reserve (m : jmap string (list Z)) (items : list (string * option string)) : jmap string (list Z) :=
  foldl (fun m item => jm_set m item.1 []) m items.
Definition slice_times (m : jmap string (list Z)) (items : list HistoryItem) : jmap string (list Z) :=
  foldl enter_times (reserve m (fresh_items m items)) (map group_of (fresh_items m items)).

Fixpoint page_stream (m : jmap string (list Z)) (pages : list (list HistoryItem)) :
    jmap string (list Z) * list CollectedGroup :=
  match pages with
  | [] => (m, [])
  | s :: pages =>
      let r := page_stream (slice_times m s) pages in
      (r.1, filter full_group (map group_of (fresh_items m s)) ++ r.2)
  end.

Fixpoint stream_from (fuel : nat) (e : Z) (m : jmap string (list Z)) : option (list CollectedGroup) :=
  match fuel with
  | O => None
  | S fuel =>
      let r := page_stream m (slices (search e) BULK_URL_CONCURRENCY) in
      if len (search e) <? BULK_SEARCH_PAGE_SIZE then Some r.2
      else
        match last (search e) with
        | None => None
        | Some lastItem =>
            let next := next_cursor r.1 lastItem e in
            if negb (next <? e) then Some r.2 else (app r.2) <$> stream_from fuel next r.1
        end
  end.
End stream.

(** ** Segments are cut as the visits are pushed *)

Section run.
Context {Srv App : Type} `{Env : EngineEnv Srv App} `{HB : HistoryBrowser App} `{Sizes : BulkSizes}.
Context {C : Type} (onSegment : list CollectedGroup -> C -> Sync Srv App C).
Context (cutoffMs endMs : Z) (stream : list CollectedGroup) (skip : nat).

(** What the caller knows of the world after handing over the segments [E]:
    kept by the callback along the stream, and by the browser. *)
Context (I : list (list CollectedGroup) -> C -> World Srv App -> Prop) (X : sync_error -> World Srv App -> Prop).

Abbreviation size := (Z.to_nat BULK_SEGMENT_VISITS).
Definition expected : list (list CollectedGroup) := segments_of size stream skip.

Hypothesis size_pos : 0 < BULK_SEGMENT_VISITS.
Hypothesis Hseg : forall E seg acc, E ++ [seg] `prefix_of` expected ->
  triple (I E acc) (onSegment seg acc) (fun acc' => I (E ++ [seg]) acc') X.

Lemma flats_snoc E seg : flats (concat (E ++ [seg])) = flats (concat E) ++ flats seg.
Proof. rewrite concat_app, flats_app. cbn [concat]. by rewrite app_nil_r. Qed.

Definition tagged (g : CollectedGroup) (times : list Z) : list Visit := map (fun t => (cg_url g, cg_title g, t)) times.

(** [done] is pushed, [times] of [g] are left to push. *)
Record pushing (g : CollectedGroup) (target : list Visit) (E : list (list CollectedGroup)) (times : list Z)
    (st : Enumeration (C := C)) : Prop := {
  pu_full : Forall (seg_full size) E;
  pu_flat : flats (concat E) ++ flats (en_pending st) ++ tagged g times = target;
  pu_count : Z.of_nat (length (flats (en_pending st))) = en_count st;
  pu_room : en_count st < BULK_SEGMENT_VISITS;
  pu_tidy : tidy (en_pending st);
  pu_new : times <> [] -> cg_url g ∉ map cg_url (en_pending st);
}.

Lemma tidy_snoc gs g : tidy gs -> cg_url g ∉ map cg_url gs -> full_group g -> tidy (gs ++ [g]).
Proof.
  intros [Hn Hf] Hu Hg. split; [|apply Forall_app; by repeat constructor].
  rewrite map_app. apply NoDup_app. split_and!; [done| |apply NoDup_singleton].
  intros x Hx [->|[]%not_elem_of_nil]%elem_of_cons. done.
Qed.

(** One piece of [n] times more. *)
Lemma push_piece g target E times st n : pushing g target E times st -> times <> [] ->
  n = Z.to_nat (Z.min (BULK_SEGMENT_VISITS - en_count st) (len times)) ->
  let pending := en_pending st ++ [mkCollectedGroup (cg_url g) (cg_title g) (take n times)] in
  (0 < n)%nat /\ tidy pending /\ length (flats pending) = Z.to_nat (en_count st + Z.of_nat n) /\
  flats (concat E) ++ flats pending ++ tagged g (drop n times) = target.
Proof.
  intros [Hfull Hflat Hcount Hroom Htidy Hnew] Hne Heq pending.
  assert (0 < n)%nat as Hn by (destruct times; [done|]; unfold len in *; cbn [length] in *; lia).
  assert (flats pending = flats (en_pending st) ++ tagged g (take n times)) as Hfl.
  { unfold pending. rewrite flats_app. f_equal. apply app_nil_r. }
  split_and!; [done| | |].
  - apply tidy_snoc; [done|by apply Hnew|]. unfold full_group. cbn [cg_times]. destruct times; [done|]. destruct n; [lia|discriminate].
  - rewrite Hfl, length_app, <- Hcount. unfold tagged. rewrite length_map, length_take. unfold len in *. lia.
  - rewrite Hfl, <- Hflat, <- !app_assoc. do 2 f_equal. unfold tagged. rewrite <- map_app. by rewrite take_drop.
Qed.

Lemma target_prefix target E seg rest : target `prefix_of` drop skip (flats stream) ->
  Forall (seg_full size) (E ++ [seg]) -> flats (concat (E ++ [seg])) ++ rest = target -> E ++ [seg] `prefix_of` expected.
Proof.
  intros [R HR] Hf Ht. unfold expected. rewrite (segments_prefix size stream skip (E ++ [seg]) (rest ++ R)); [by eexists|lia|done|].
  rewrite app_assoc, Ht. done.
Qed.

Definition kept (st st' : Enumeration (C := C)) : Prop :=
  en_remaining st' = en_remaining st /\ en_urlTimes st' = en_urlTimes st.

(** [pushing] with the callback's invariant, from a state [st0]. *)
Definition Pushing g target times st0 (st : Enumeration (C := C)) (w : World Srv App) : Prop :=
  kept st0 st /\ exists E, pushing g target E times st /\ I E (en_acc st) w.

Lemma push_loop_S fuel url title times st : times <> [] ->
  push_loop onSegment (S fuel) url title times st =
    (let n := Z.min (BULK_SEGMENT_VISITS - en_count st) (len times) in
     let st1 := mkEnumeration (en_total st)
        (en_pending st ++ [mkCollectedGroup url title (take (Z.to_nat n) times)]) (en_count st + n)
        (en_remaining st) (en_urlTimes st) (en_acc st) in
     if BULK_SEGMENT_VISITS <=? en_count st1 then
       let! st2 := flushSegment onSegment st1 in push_loop onSegment fuel url title (drop (Z.to_nat n) times) st2
     else push_loop onSegment fuel url title (drop (Z.to_nat n) times) st1).
Proof. by destruct times. Qed.

Lemma push_loop_spec fuel g target times st0 st : target `prefix_of` drop skip (flats stream) -> (length times <= fuel)%nat ->
  triple (Pushing g target times st0 st) (push_loop onSegment fuel (cg_url g) (cg_title g) times st)
    (fun st' => Pushing g target [] st0 st') X.
Proof.
  intros Hpre. revert times st. induction fuel as [|fuel IH]; intros times st Hf.
  { destruct times; [|cbn in Hf; lia]. by apply triple_ret. }
  destruct (decide (times = [])) as [->|Hne]; [by apply triple_ret|]. rewrite push_loop_S by done.
  cbv zeta. set (n := Z.min _ _). intros w (Hk & E & Hp & HI). destruct (push_piece g target E times st _ Hp Hne eq_refl) as (Hn & Htidy & Hlen & Hflat).
  fold n in Hn, Htidy, Hlen, Hflat. rewrite Z2Nat.id in Hlen by lia. destruct Hp as [Hfull _ Hcount Hroom _ Hnew].
  assert (length (drop (Z.to_nat n) times) <= fuel)%nat as Hf' by (rewrite length_drop; lia).
  set (st1 := mkEnumeration _ _ _ _ _ _). assert (en_count st1 = en_count st + n) as Hc1 by done.
  destruct (Z.leb_spec BULK_SEGMENT_VISITS (en_count st1)) as [Hle|Hgt].
  - assert (en_count st + n = BULK_SEGMENT_VISITS) as Heq by lia.
    assert (Forall (seg_full size) (E ++ [en_pending st1])) as HE.
    { apply Forall_app. split; [done|]. repeat constructor; [apply Htidy..|]. rewrite <- Heq. apply Hlen. }
    unfold flushSegment, bind. rewrite (proj2 (Z.eqb_neq _ 0)) by lia.
    pose proof (Hseg E (en_pending st1) (en_acc st1) ltac:(eapply target_prefix; [exact Hpre|exact HE|];
      rewrite flats_snoc, <- app_assoc; exact Hflat) w HI) as Hs.
    destruct (onSegment _ _ w) as [[e|acc'] w']; [done|]. apply (IH _ (mkEnumeration _ [] 0 _ _ acc')); [exact Hf'|].
    split; [by split; apply Hk|]. exists (E ++ [en_pending st1]). split; [|exact Hs]. split; cbn; try done; try lia.
    + rewrite flats_snoc, <- app_assoc. exact Hflat.
    + split; constructor.
    + intros _. apply not_elem_of_nil.
  - apply IH; [exact Hf'|]. split; [by split; apply Hk|]. exists E. split; [|done].
    assert (n = len times) as Hall by lia. split; cbn [st1 en_pending en_count]; try done; try lia.
    intros Hd. destruct Hd. apply drop_ge. unfold len in Hall. lia.
Qed.

(** ** The stream is what is pushed *)

Hypothesis stream_tidy : tidy stream.

Record pushed (S : list CollectedGroup) (E : list (list CollectedGroup)) (st : Enumeration (C := C)) : Prop := {
  ps_full : Forall (seg_full size) E;
  ps_flat : flats (concat E) ++ flats (en_pending st) = drop skip (flats S);
  ps_count : Z.of_nat (length (flats (en_pending st))) = en_count st;
  ps_room : en_count st < BULK_SEGMENT_VISITS;
  ps_tidy : tidy (en_pending st);
  ps_urls : map cg_url (en_pending st) ⊆ map cg_url S;
  ps_left : en_remaining st = Z.of_nat (skip - length (flats S));
}.

(** After the groups [S], with the times read so far. *)
Definition Running (S : list CollectedGroup) (m : jmap string (list Z)) (st : Enumeration (C := C)) (w : World Srv App) : Prop :=
  en_urlTimes st = m /\ exists E, pushed S E st /\ I E (en_acc st) w.

(** The device is gone, some segments are out. *)
Definition Halted (st : Enumeration (C := C)) (w : World Srv App) : Prop :=
  db_device (w_db w) = None /\ exists E, E `prefix_of` expected /\ I E (en_acc st) w.

Lemma flats_prefix S : S `prefix_of` stream -> drop skip (flats S) `prefix_of` drop skip (flats stream).
Proof. intros [R ->]. rewrite flats_app, drop_app. by eexists. Qed.

Lemma Running_halted S m st w : S `prefix_of` stream -> db_device (w_db w) = None -> Running S m st w -> Halted st w.
Proof.
  intros [R HR]%flats_prefix Hd (_ & E & Hp & HI). split; [done|]. exists E. split; [|done]. unfold expected.
  rewrite (segments_prefix size stream skip E (flats (en_pending st) ++ R)); [by eexists|lia|apply Hp|].
  by rewrite app_assoc, (ps_flat _ _ _ Hp).
Qed.

Lemma drop_min {A} (l : list A) k : drop (k `min` length l) l = drop k l.
Proof. destruct (Nat.min_spec k (length l)) as [[? ->]|[? ->]]; [done|]. by rewrite !drop_ge by lia. Qed.

Lemma pushed_pushing S g E st : pushed S E st -> cg_url g ∉ map cg_url S ->
  let skip' := if 0 <? en_remaining st then Z.min (en_remaining st) (len (cg_times g)) else 0 in
  Z.to_nat skip' = ((skip - length (flats S)) `min` length (cg_times g))%nat /\ 0 <= skip' /\
  pushing g (drop skip (flats (S ++ [g]))) E (drop (Z.to_nat skip') (cg_times g))
    (mkEnumeration (en_total st) (en_pending st) (en_count st) (en_remaining st - skip') (en_urlTimes st) (en_acc st)).
Proof.
  intros [Hfull Hflat Hcount Hroom Htidy Hurls Hleft] Hu skip'.
  assert (Z.to_nat skip' = ((skip - length (flats S)) `min` length (cg_times g))%nat /\ 0 <= skip') as [Hs H0].
  { unfold skip', len. destruct (Z.ltb_spec 0 (en_remaining st)); lia. }
  split_and!; [done..|]. split; cbn [en_pending en_count]; try done; [|by intros _ Hin%Hurls].
  rewrite Hs, drop_min, flats_app, drop_app, <- Hflat, <- app_assoc. do 2 f_equal. unfold tagged.
  rewrite flats_cons. cbn [flats mbind list_bind]. rewrite app_nil_r. unfold visits_of. by rewrite fmap_drop.
Qed.

Lemma pushGroup_spec S g m st : S ++ [g] `prefix_of` stream ->
  triple (Running S m st) (pushGroup onSegment g st) (Running (S ++ [g]) m) X.
Proof.
  intros Hpre w (Hm & E & Hp & HI).
  assert (cg_url g ∉ map cg_url S) as Hu.
  { destruct Hpre as [R HR]. destruct stream_tidy as [Hnd _]. rewrite HR, !map_app in Hnd.
    apply NoDup_app in Hnd as [Hnd _]. apply NoDup_app in Hnd as (_ & Hd & _). intros Hin. apply (Hd _ Hin). by left. }
  destruct (pushed_pushing S g E st Hp Hu) as (Hs & H0 & Hpu). unfold pushGroup. cbv zeta.
  set (skip' := if 0 <? en_remaining st then _ else _) in *. set (st1 := mkEnumeration _ _ _ _ _ _) in *.
  pose proof (push_loop_spec (length (drop (Z.to_nat skip') (cg_times g))) g _ _ st1 st1 (flats_prefix _ Hpre) (le_n _)
    w (conj (conj eq_refl eq_refl) (ex_intro _ E (conj Hpu HI)))) as Ht.
  destruct (push_loop _ _ _ _ _ _ w) as [[e|st2] w2]; [done|]. destruct Ht as ([Hr Hmm] & E' & [Hf Hfl Hc Hro Hti _] & HI').
  split; [by rewrite Hmm|]. exists E'. split; [|done]. unfold tagged in Hfl. cbn [map] in Hfl. rewrite app_nil_r in Hfl.
  split; try done.
  - intros u Hin. assert (exists v, v ∈ flats (en_pending st2) /\ v.1.1 = u) as (v & Hv & <-).
    { apply list_elem_of_fmap in Hin as (g' & -> & Hg'). destruct Hti as [_ Hti]. rewrite Forall_forall in Hti.
      specialize (Hti g' Hg'). destruct (cg_times g') as [|t ts] eqn:Et; [done|].
      exists (cg_url g', cg_title g', t). split; [|done]. apply list_elem_of_bind. exists g'. split; [|done].
      unfold visits_of. rewrite Et. by left. }
    assert (v ∈ drop skip (flats (S ++ [g]))) as Hv' by (rewrite <- Hfl; apply elem_of_app; by right).
    apply (elem_of_sublist _ (flats (S ++ [g])) _) in Hv'; [|apply sublist_drop].
    apply list_elem_of_bind in Hv' as (g' & Hv' & Hg'). apply list_elem_of_fmap in Hv' as (t & -> & _). exact (list_elem_of_fmap_2 cg_url _ _ Hg').
  - rewrite Hr. cbn [st1 en_remaining]. rewrite (ps_left _ _ _ Hp), flats_app, length_app.
    rewrite flats_cons. cbn [flats mbind list_bind]. rewrite app_nil_r, length_visits_of. lia.
Qed.

Lemma enter_groups_spec gs S m st : S ++ filter full_group gs `prefix_of` stream ->
  triple (Running S m st) (fold_m (enter_group onSegment) gs st)
    (Running (S ++ filter full_group gs) (foldl enter_times m gs)) X.
Proof.
  revert S m st. induction gs as [|g gs IH]; intros S m st Hpre.
  { apply triple_ret. intros w. by rewrite app_nil_r. }
  cbn [fold_m foldl]. set (st1 := set_urlTimes (jm_set (en_urlTimes st) (cg_url g) (cg_times g)) st).
  assert (forall w, Running S m st w -> Running S (enter_times m g) st1 w) as H1.
  { intros w (Hm & E & Hp & HI). split; [cbn; by rewrite Hm|]. exists E. split; [|done]. by destruct Hp. }
  rewrite filter_cons in Hpre |- *. unfold enter_group at 1. fold st1. destruct (decide (full_group g)) as [Hg|Hg].
  - rewrite cons_middle, app_assoc in Hpre |- *. eapply triple_bind; [|intros st2; by apply IH].
    destruct (cg_times g) eqn:E; [done|].
    eapply triple_conseq; [apply pushGroup_spec; etrans; [|exact Hpre]; by eexists|done|done|done].
  - assert (cg_times g = []) as E by (destruct (cg_times g) eqn:E; [done|by destruct Hg; unfold full_group; rewrite E]).
    rewrite E. eapply triple_bind; [|intros st2; by apply IH]. by apply triple_ret.
Qed.

(** ** Pages *)

(** What the browser answers while the import runs, and that answering it
    leaves the caller's invariant alone. *)
Context (search : Z -> list HistoryItem) (visits : string -> list VisitItem).
Hypothesis Hsearch : forall E acc e w, I E acc w -> exists x,
  history_search cutoffMs e BULK_SEARCH_PAGE_SIZE (w_db w, w_app w) = (inr (search e), x) /\ I E acc (set_db_app x w).
Hypothesis Hvisits : forall E acc u w, I E acc w -> exists x,
  history_getVisits u (w_db w, w_app w) = (inr (visits u), x) /\ I E acc (set_db_app x w).

Abbreviation group_of := (group_of visits cutoffMs endMs).
Abbreviation fresh_items := (fresh_items cutoffMs).
Abbreviation slice_times := (slice_times visits cutoffMs endMs).
Abbreviation page_stream := (page_stream visits cutoffMs endMs).
Abbreviation stream_from := (stream_from search visits cutoffMs endMs).
Abbreviation kept_groups items := (filter full_group (map group_of items)).

Lemma resolve_spec S m st items :
  triple (Running S m st) (map_m (resolveUrl cutoffMs endMs) items)
    (fun gs w => gs = map group_of items /\ Running S m st w) X.
Proof.
  induction items as [|item items IH]; [by apply triple_ret|]. cbn [map_m].
  apply (triple_bind _ _ _ (fun g w => g = group_of item /\ Running S m st w)).
  - intros w (Hm & E & Hp & HI). unfold resolveUrl, bind, browser.
    destruct (Hvisits E (en_acc st) item.1 w HI) as (x & -> & HI'). split; [done|]. split; [done|]. by exists E.
  - intros g. apply triple_pure. intros ->. eapply triple_bind; [apply IH|]. intros gs. apply triple_pure. intros ->.
    apply triple_ret. by split.
Qed.

(** A loop step either goes on or returns out of the loop. *)
Definition Stepped {St} (J H : St -> World Srv App -> Prop) (r : St * bool) (w : World Srv App) : Prop :=
  if r.2 then H r.1 w else J r.1 w.

Lemma fold_until_spec {A} (f : A -> Enumeration (C := C) -> Sync Srv App (Enumeration (C := C) * bool))
    (J : list A -> Enumeration (C := C) -> World Srv App -> Prop) H all :
  (forall behind a ahead st, behind ++ a :: ahead = all ->
     triple (J behind st) (f a st) (Stepped (J (behind ++ [a])) H) X) ->
  forall ahead behind st, behind ++ ahead = all -> triple (J behind st) (fold_until f ahead st) (Stepped (J all) H) X.
Proof.
  intros Hf. induction ahead as [|a ahead IH]; intros behind st Hall.
  { apply triple_ret. intros w. by rewrite <- Hall, app_nil_r. }
  cbn [fold_until]. eapply triple_bind; [by apply (Hf behind a ahead)|].
  intros [st' b]. unfold Stepped at 1. cbn [fst snd]. destruct b; [by apply triple_ret|].
  apply IH. by rewrite <- app_assoc.
Qed.

Lemma kept_prefix S items items' R : S ++ kept_groups (items ++ items') ++ R = stream -> S ++ kept_groups items `prefix_of` stream.
Proof. intros <-. rewrite map_app, filter_app, <- app_assoc, app_assoc. by eexists. Qed.

Lemma subbatch_spec S m st items : S ++ kept_groups items `prefix_of` stream ->
  triple (Running S m st) (process_subbatch onSegment cutoffMs endMs items st)
    (Stepped (Running (S ++ kept_groups items) (foldl enter_times m (map group_of items))) Halted) X.
Proof.
  intros Hpre. unfold process_subbatch.
  apply (triple_bind _ _ _ (fun device w => device = db_device (w_db w) /\ Running S m st w)); [by intros w Hw|]. intros [device|].
  - eapply triple_conseq; [|intros w [_ Hw]; exact Hw|done|done]. eapply triple_bind; [apply resolve_spec|]. intros gs. apply triple_pure. intros ->.
    eapply triple_bind; [by apply enter_groups_spec|]. intros st'. by apply triple_ret.
  - apply triple_ret. intros w [Hd Hw]. eapply Running_halted; [|done|exact Hw]. etrans; [|exact Hpre]. by eexists.
Qed.

Lemma subbatches_spec S m st items : S ++ kept_groups items `prefix_of` stream ->
  triple (Running S m st) (fold_until (process_subbatch onSegment cutoffMs endMs) (slices items BULK_RESOLVE_SUBBATCH) st)
    (Stepped (Running (S ++ kept_groups items) (foldl enter_times m (map group_of items))) Halted) X.
Proof.
  intros [R HR]. rewrite <- app_assoc in HR.
  assert (concat (slices items BULK_RESOLVE_SUBBATCH) = items) as Hc by (apply slices_concat; unfold BULK_RESOLVE_SUBBATCH; lia).
  revert Hc. generalize (slices items BULK_RESOLVE_SUBBATCH) as subs. intros subs Hc. symmetry in Hc.
  set (J past := Running (S ++ kept_groups (concat past)) (foldl enter_times m (map group_of (concat past)))).
  eapply (triple_conseq _ (J [] st)); [apply (fold_until_spec _ J Halted subs); [|done]| | |done].
  - intros behind a ahead st' Hall. unfold J. rewrite concat_app. cbn [concat].
    rewrite app_nil_r, !map_app, filter_app, foldl_app, app_assoc. apply subbatch_spec.
    rewrite <- app_assoc, <- filter_app, <- map_app. apply (kept_prefix S (concat behind ++ a) (concat ahead) R).
    rewrite HR, <- app_assoc, Hc, <- Hall, concat_app. done.
  - intros w. unfold J. cbn. by rewrite app_nil_r.
  - intros a s. unfold J. by rewrite <- Hc.
Qed.

Lemma slice_spec S m st items : S ++ kept_groups (fresh_items m items) `prefix_of` stream ->
  triple (Running S m st) (process_slice onSegment cutoffMs endMs items st)
    (Stepped (Running (S ++ kept_groups (fresh_items m items)) (slice_times m items)) Halted) X.
Proof.
  intros Hpre w Hw. pose proof Hw as (Hm & E & Hp & HI). unfold process_slice. rewrite Hm.
  unfold slice_times. fold (fresh_items m items).
  destruct (fresh_items m items) as [|i0 is0] eqn:Ef; [unfold Stepped; cbn; by rewrite app_nil_r|].
  rewrite <- Ef in Hpre |- *. apply subbatches_spec; [done|]. split; [done|]. exists E. split; [|done]. by destruct Hp.
Qed.

Lemma page_stream_app m a b : page_stream m (a ++ b) =
  ((page_stream (page_stream m a).1 b).1, (page_stream m a).2 ++ (page_stream (page_stream m a).1 b).2).
Proof.
  revert m. induction a as [|s a IH]; intros m; cbn; [by destruct (page_stream m b)|].
  rewrite IH. cbn. by rewrite app_assoc.
Qed.

Lemma page_spec S m st items : S ++ (page_stream m (slices items BULK_URL_CONCURRENCY)).2 `prefix_of` stream ->
  triple (Running S m st) (fold_until (process_slice onSegment cutoffMs endMs) (slices items BULK_URL_CONCURRENCY) st)
    (Stepped (Running (S ++ (page_stream m (slices items BULK_URL_CONCURRENCY)).2)
                (page_stream m (slices items BULK_URL_CONCURRENCY)).1) Halted) X.
Proof.
  generalize (slices items BULK_URL_CONCURRENCY) as pages. intros pages [R HR].
  set (J past := Running (S ++ (page_stream m past).2) (page_stream m past).1).
  eapply (triple_conseq _ (J [] st)); [apply (fold_until_spec _ J Halted pages); [|done]| |done|done].
  - intros behind a ahead st' Hall. unfold J. rewrite page_stream_app. cbn [fst snd HistoryEnumFacts.page_stream].
    rewrite app_nil_r, app_assoc. apply slice_spec.
    rewrite <- Hall, page_stream_app in HR. cbn [snd HistoryEnumFacts.page_stream] in HR. rewrite HR, <- !app_assoc.
    eexists. by rewrite <- !app_assoc.
  - intros w. unfold J. cbn. by rewrite app_nil_r.
Qed.

Lemma page_loop_spec fuel e S m st rest : stream_from fuel e m = Some rest -> S ++ rest = stream ->
  triple (Running S m st) (page_loop onSegment cutoffMs endMs fuel e st)
    (Stepped (fun st w => exists m, Running stream m st w) Halted) X.
Proof.
  revert e S m st rest. induction fuel as [|fuel IH]; intros e S m st rest Hs Hr; [done|]. cbn [page_loop].
  cbn [HistoryEnumFacts.stream_from] in Hs. assert (S `prefix_of` stream) as HS by (rewrite <- Hr; by eexists).
  apply (triple_bind _ _ _ (fun device w => device = db_device (w_db w) /\ Running S m st w)); [by intros w Hw|]. intros [device|].
  2:{ apply triple_ret. intros w [Hd Hw]. by eapply Running_halted. }
  apply (triple_conseq _ (Running S m st) _ _ (Stepped (fun st w => exists m, Running stream m st w) Halted) _ X); [|by intros w [_ Hw]|done|done].
  apply (triple_bind _ _ _ (fun items w => items = search e /\ Running S m st w)).
  { intros w (Hm & E & Hp & HI). unfold browser. destruct (Hsearch E (en_acc st) e w HI) as (x & -> & HI').
    split; [done|]. split; [done|]. by exists E. }
  intros items. apply triple_pure. intros ->. set (pages := slices (search e) BULK_URL_CONCURRENCY) in *.
  assert (exists more, rest = (page_stream m pages).2 ++ more) as [more Hmore].
  { revert Hs. destruct (_ <? _); [intros [= <-]; exists []; by rewrite app_nil_r|]. destruct (last _); [|done].
    destruct (negb _); [intros [= <-]; exists []; by rewrite app_nil_r|].
    destruct (stream_from _ _ _) as [more|]; [|done]. intros [= <-]. by exists more. }
  eapply triple_bind; [apply page_spec; rewrite <- Hr, Hmore, app_assoc; by eexists|].
  intros [st' b]. cbn [fst snd]. destruct b; [by apply triple_ret|]. unfold Stepped at 1. cbn [fst snd]. fold pages.
  destruct (_ <? _).
  { injection Hs as Hs. rewrite <- Hs in Hr. rewrite Hr. apply triple_ret. intros w Hw. by exists (page_stream m pages).1. }
  destruct (last (search e)) as [lastItem|]; [|done]. intros w Hw. pose proof Hw as (Hm & _). rewrite Hm.
  destruct (negb _).
  { injection Hs as Hs. rewrite <- Hs in Hr. rewrite Hr in Hw. exists (page_stream m pages).1. done. }
  destruct (stream_from _ _ _) as [more'|] eqn:Emore in Hs; [|done]. injection Hs as <-.
  eapply (IH _ _ _ _ _ Emore); [|exact Hw]. by rewrite <- app_assoc.
Qed.

(** The import's enumeration: from the caller's invariant it hands over the
    expected segments in order, all of them unless it found the device gone. *)
Lemma enumerateVisits_segments fuel acc : stream_from fuel endMs [] = Some stream ->
  triple (I [] acc) (enumerateVisits onSegment cutoffMs endMs fuel (Z.of_nat skip) acc)
    (fun r w => if r.2 then db_device (w_db w) = None /\ exists E, E `prefix_of` expected /\ I E r.1.1 w else I expected r.1.1 w) X.
Proof.
  intros Hs. unfold enumerateVisits. set (st0 := mkEnumeration _ _ _ _ _ _).
  apply (triple_bind _ _ _ (Stepped (fun st w => exists m, Running stream m st w) Halted)).
  { eapply triple_conseq; [eapply (page_loop_spec _ _ [] []); [exact Hs|done]| |done|done]. intros w HI. split; [done|].
    exists []. split; [|done]. split; cbn; try done; [|by split; constructor|lia]. by rewrite drop_nil. }
  intros [st b]. unfold Stepped. cbn [fst snd]. destruct b; [by apply triple_ret|].
  intros w (m & _ & E & [Hf Hfl Hc Hroom Ht _ _] & HI). unfold flushSegment.
  destruct (Z.eqb_spec (en_count st) 0) as [H0|H0].
  - cbn. assert (expected = E) as ->; [|done]. unfold expected. rewrite (segments_prefix size stream skip E []); [by rewrite app_nil_r|lia|done|].
    rewrite <- Hfl. f_equal. destruct (flats (en_pending st)); [done|cbn in Hc; lia].
  - assert (expected = E ++ [en_pending st]) as Hexp.
    { unfold expected. apply segments_all; [lia|done|done|done| |lia]. intros E0. rewrite E0 in Hc. cbn in Hc. lia. }
    unfold bind at 1 2. pose proof (Hseg E (en_pending st) (en_acc st) ltac:(by rewrite Hexp) w HI) as Hsg.
    destruct (onSegment _ _ w) as [[e|acc'] w']; [done|]. cbn. by rewrite Hexp.
Qed.
End run.
