(* ===== verification/HistoryPagingFacts.v ===== *)
(** * Paging through the browser's history

    What [chrome.history.search] documents, and which URLs the import's paging
    then reaches: all of them, but for those whose newest visit falls on the
    very millisecond of another URL's. *)

From stdpp Require Import sorting.
From S2P Require Import Prelude JsMap Types Util Json Dates Storage Crypto Engine RestorePoints History HistoryEnumFacts.

Open Scope Z_scope.
Open Scope js_scope.

(** ** The browser's history *)

(** [hu_listed]: the times of the visits a search can find, ascending. *)
Record HistoryUrl := mkHistoryUrl {
  hu_url : string;
  hu_title : option string;
  hu_visits : list VisitItem;
  hu_listed : list Z;
}.

Section paging.
Context `{Sizes : BulkSizes} (view : list HistoryUrl) (cutoffMs endMs : Z).

Definition times_of (h : HistoryUrl) : list Z := visit_times cutoffMs endMs (hu_visits h).

(** The listed visits of the window are visits that count. *)
Record url_ok (h : HistoryUrl) : Prop := {
  uo_url : hu_url h <> "";
  uo_sorted : StronglySorted Z.le (hu_listed h);
  uo_counted : forall t, t ∈ hu_listed h -> cutoffMs <= t < endMs -> t ∈ times_of h;
}.

Record view_ok : Prop := {
  vo_urls : NoDup (map hu_url view);
  vo_ok : Forall url_ok view;
}.

(** Where a search up to [e] finds [h]: at its newest visit of the window. *)
Definition in_window (e t : Z) : Prop := cutoffMs <= t < e.
#[global] Instance in_window_dec e t : Decision (in_window e t).
Proof. unfold in_window. apply _. Defined.
Definition match_time (e : Z) (h : HistoryUrl) : option Z := last (filter (in_window e) (hu_listed h)).

Definition matched (e : Z) (h : HistoryUrl) : Prop := is_Some (match_time e h).
#[global] Instance matched_dec e h : Decision (matched e h).
Proof. unfold matched. apply _. Defined.
Definition not_older (e : Z) (a b : HistoryUrl) : Prop :=
  default 0 (match_time e b) <= default 0 (match_time e a).

Definition item_for (h : HistoryUrl) (item : HistoryItem) : Prop :=
  hi_url item = Some (hu_url h) /\ hi_title item = hu_title h /\
  match hi_lastVisitTime item with Some t => forall t', t' ∈ hu_listed h -> t' <= t | None => True end.

(** [chrome.history.search] with a window and a limit: the matching URLs once
    each, newest match first, with their newest visit of all. *)
Definition search_serves (search : Z -> list HistoryItem) : Prop := forall e, exists rows,
  rows ≡ₚ filter (matched e) view /\ StronglySorted (not_older e) rows /\
  Forall2 item_for (take (Z.to_nat BULK_SEARCH_PAGE_SIZE) rows) (search e).

Definition visits_serve (visits : string -> list VisitItem) : Prop :=
  forall h, h ∈ view -> visits (hu_url h) = hu_visits h.

(** ** One page *)

Context (search : Z -> list HistoryItem) (visits : string -> list VisitItem).
Hypothesis Hview : view_ok.
Hypothesis Hsearch : search_serves search.
Hypothesis Hvisits : visits_serve visits.
Hypothesis page_pos : 0 < BULK_SEARCH_PAGE_SIZE.

Definition url_group (h : HistoryUrl) : CollectedGroup := mkCollectedGroup (hu_url h) (hu_title h) (times_of h).

Lemma visit_times_sorted vs : StronglySorted Z.le (visit_times cutoffMs endMs vs).
Proof. apply (StronglySorted_merge_sort Z.le). Qed.

Lemma last_sorted_max (l : list Z) x : StronglySorted Z.le l -> last l = Some x -> x ∈ l /\ forall y, y ∈ l -> y <= x.
Proof.
  intros Hs Hl. apply last_Some in Hl as [l' ->]. split; [apply elem_of_app; right; by left|].
  intros y [Hy| ->%list_elem_of_singleton]%elem_of_app; [|done]. apply StronglySorted_app in Hs as (Hs & _ & _).
  apply (Hs y x Hy). by left.
Qed.

Lemma StronglySorted_filter_le (P : Z -> Prop) `{!forall x, Decision (P x)} l :
  StronglySorted Z.le l -> StronglySorted Z.le (filter P l).
Proof.
  induction 1 as [|x l Hs IH Hx]; [constructor|]. rewrite filter_cons. case_decide; [|done]. constructor; [done|].
  apply Forall_forall. intros y [_ Hy]%list_elem_of_filter. rewrite Forall_forall in Hx. by apply Hx.
Qed.

Lemma match_time_spec e h t : url_ok h -> match_time e h = Some t ->
  t ∈ hu_listed h /\ cutoffMs <= t < e /\ forall t', t' ∈ hu_listed h -> cutoffMs <= t' < e -> t' <= t.
Proof.
  intros Ho Hm. apply last_sorted_max in Hm as [Hin Hmax]; [|apply StronglySorted_filter_le, Ho].
  apply list_elem_of_filter in Hin as [Hw Hin]. split; [done|]. split; [done|]. intros t' Ht' Hw'. apply Hmax, list_elem_of_filter. done.
Qed.

Lemma matched_intro e h t : t ∈ hu_listed h -> cutoffMs <= t < e -> matched e h.
Proof.
  intros Ht Hw. unfold matched, match_time. assert (t ∈ filter (in_window e) (hu_listed h)) as Hin by by apply list_elem_of_filter.
  destruct (filter _ _) as [|x l]; [by apply not_elem_of_nil in Hin|]. destruct (last (x :: l)) eqn:E; [done|]. by apply last_None in E.
Qed.

(** With all its visits of the window below [e], a URL matches there as at the
    end. *)
Lemma match_time_below e h t : url_ok h -> match_time endMs h = Some t -> t < e -> e <= endMs -> match_time e h = Some t.
Proof.
  intros Ho Hm Hlt He. destruct (match_time_spec endMs h t Ho Hm) as (Hin & Hw & Hmax).
  destruct (matched_intro e h t Hin ltac:(lia)) as [t' Hm']. rewrite Hm'.
  destruct (match_time_spec e h t' Ho Hm') as (Hin' & Hw' & Hmax'). f_equal.
  pose proof (Hmax t' Hin' ltac:(lia)). pose proof (Hmax' t Hin ltac:(lia)). lia.
Qed.

Lemma match_times_counted e h t : url_ok h -> match_time e h = Some t -> e <= endMs -> t ∈ times_of h.
Proof. intros Ho Hm He. destruct (match_time_spec e h t Ho Hm) as (Hin & Hw & _). apply Ho; [done|lia]. Qed.

(** ** What a page adds *)

Abbreviation group_of := (group_of visits cutoffMs endMs).
Abbreviation fresh_items := (fresh_items cutoffMs).
Abbreviation slice_times := (slice_times visits cutoffMs endMs).
Abbreviation page_stream := (page_stream visits cutoffMs endMs).
Abbreviation stream_from := (stream_from search visits cutoffMs endMs).

(** The times read so far are those of URLs of the browser. *)
Definition times_known (m : jmap string (list Z)) : Prop := forall u ts, jm_get m u = Some ts ->
  exists h, h ∈ view /\ hu_url h = u /\ ts = times_of h.

Lemma view_url h h' : h ∈ view -> h' ∈ view -> hu_url h = hu_url h' -> h = h'.
Proof.
  intros Hh Hh' E. destruct Hview as [Hnd _]. apply list_elem_of_lookup in Hh as [i Hi], Hh' as [j Hj].
  assert (i = j) as ->; [|congruence]. eapply NoDup_lookup; [exact Hnd| |]; rewrite list_lookup_fmap, ?Hi, ?Hj; [done|cbn; by rewrite E].
Qed.

Lemma view_url_ok h : h ∈ view -> url_ok h.
Proof. destruct Hview as [_ Hall]. rewrite Forall_forall in Hall. apply Hall. Qed.

(** Items of a page, and the URLs they stand for. *)
Definition items_for (hs : list HistoryUrl) (items : list HistoryItem) : Prop :=
  Forall2 item_for hs items /\ hs ⊆ view /\ NoDup (map hu_url hs) /\ forall h, h ∈ hs -> exists t, t ∈ hu_listed h /\ cutoffMs <= t.

Definition fresh_urls (m : jmap string (list Z)) (hs : list HistoryUrl) : list HistoryUrl :=
  filter (fun h => jm_has m (hu_url h) = false) hs.

Lemma enumerable_item m h item : h ∈ view -> item_for h item -> (exists t, t ∈ hu_listed h /\ cutoffMs <= t) ->
  enumerable cutoffMs m item = if jm_has m (hu_url h) then None else Some (hu_url h, hu_title h).
Proof.
  intros Hh (Hu & Ht & Hlast) (t' & Hin & Hc). unfold enumerable. rewrite Hu, Ht.
  rewrite (proj2 (String.eqb_neq _ _) (uo_url _ (view_url_ok h Hh))). cbn [negb andb].
  assert ((match hi_lastVisitTime item with Some t => cutoffMs <=? t | None => true end) = true) as ->.
  { destruct (hi_lastVisitTime item) as [t|]; [|done]. apply Z.leb_le. pose proof (Hlast t' Hin). lia. }
  rewrite andb_true_r. by destruct (jm_has m (hu_url h)).
Qed.

Lemma fresh_items_for m hs items : items_for hs items ->
  fresh_items m items = map (fun h => (hu_url h, hu_title h)) (fresh_urls m hs).
Proof.
  intros (Hf & Hsub & _ & Hl). revert Hsub Hl. induction Hf as [|h item hs items Hi Hf IH]; intros Hsub Hl; [done|].
  unfold HistoryEnumFacts.fresh_items, fresh_urls. cbn [omap list_omap]. rewrite filter_cons.
  rewrite (enumerable_item m h) by (try apply Hl; try apply Hsub; done || by left).
  specialize (IH ltac:(intros x Hx; apply Hsub; by right) ltac:(intros x Hx; apply Hl; by right)).
  destruct (jm_has m (hu_url h)); [rewrite decide_False by done; exact IH|].
  rewrite decide_True by done. cbn [map]. f_equal. exact IH.
Qed.

Lemma fresh_groups m hs items : items_for hs items -> map group_of (fresh_items m items) = map url_group (fresh_urls m hs).
Proof.
  intros Hi. rewrite (fresh_items_for m hs items Hi), map_map. apply map_ext_in. intros h Hh%list_elem_of_In.
  unfold HistoryEnumFacts.group_of, url_group, times_of. cbn [fst snd]. f_equal. f_equal. apply Hvisits.
  apply list_elem_of_filter in Hh as [_ Hh]. destruct Hi as (_ & Hsub & _). by apply Hsub.
Qed.

(** *** The times read *)

Lemma jm_has_set {V} (m : jmap string V) k v u : jm_has (jm_set m k v) u = bool_decide (k = u) || jm_has m u.
Proof. unfold jm_has. rewrite jm_get_set. case_decide; case_bool_decide; done. Qed.

Lemma enter_get gs hs m u ts : gs = map url_group hs -> jm_get (foldl enter_times m gs) u = Some ts ->
  (exists h, h ∈ hs /\ hu_url h = u /\ ts = times_of h) \/ ((u ∉ map hu_url hs) /\ jm_get m u = Some ts).
Proof.
  intros ->. revert m. induction hs as [|h hs IH]; intros m; cbn [map foldl]; [right; split; [apply not_elem_of_nil|done]|].
  intros [(h' & Hh' & ?)|[Hnin Hm]]%IH; [left; exists h'; split; [by right|done]|].
  unfold enter_times in Hm. cbn in Hm. rewrite jm_get_set in Hm. case_decide as E.
  - injection Hm as <-. left. exists h. split; [by left|done].
  - right. split; [|done]. by intros [->|?]%elem_of_cons.
Qed.

Lemma enter_has hs m u : jm_has (foldl enter_times m (map url_group hs)) u = bool_decide (u ∈ map hu_url hs) || jm_has m u.
Proof.
  revert m. induction hs as [|h hs IH]; intros m; cbn [map foldl]; [by rewrite bool_decide_eq_false_2 by apply not_elem_of_nil|].
  rewrite IH. unfold enter_times. cbn. rewrite jm_has_set, orb_assoc. f_equal.
  rewrite <- bool_decide_or. apply bool_decide_ext. rewrite elem_of_cons. intuition congruence.
Qed.

Lemma reserve_get m items u : u ∉ map fst items -> jm_get (reserve m items) u = jm_get m u.
Proof.
  revert m. induction items as [|i items IH]; intros m Hu; [done|]. unfold reserve. cbn [foldl].
  change (jm_get (reserve (jm_set m i.1 []) items) u = jm_get m u). rewrite IH, jm_get_set_ne; [done| |].
  - intros E. apply Hu. rewrite <- E. left.
  - intros Hin. apply Hu. by right.
Qed.

Lemma reserve_has m items u : jm_has (reserve m items) u = bool_decide (u ∈ map fst items) || jm_has m u.
Proof.
  revert m. induction items as [|i items IH]; intros m; [done|].
  change (jm_has (reserve (jm_set m i.1 []) items) u = bool_decide (u ∈ i.1 :: map fst items) || jm_has m u).
  rewrite IH, jm_has_set, orb_assoc. f_equal. rewrite <- bool_decide_or. apply bool_decide_ext. rewrite elem_of_cons. intuition congruence.
Qed.

Lemma slice_times_spec m hs items : items_for hs items -> times_known m ->
  times_known (slice_times m items) /\
  forall u, jm_has (slice_times m items) u = bool_decide (u ∈ map hu_url hs) || jm_has m u.
Proof.
  intros Hi Hm. unfold HistoryEnumFacts.slice_times. pose proof (fresh_groups m hs items Hi) as Hg.
  pose proof (fresh_items_for m hs items Hi) as Hf. change (HistoryEnumFacts.fresh_items cutoffMs m items) with (fresh_items m items).
  rewrite Hg. split.
  - intros u ts [(h & Hh & ?)|[Hnin Hget]]%(enter_get _ (fresh_urls m hs)); [|rewrite reserve_get in Hget by (rewrite Hf, map_map; done); by apply Hm|done].
    apply list_elem_of_filter in Hh as [_ Hh]. exists h. split; [|done]. destruct Hi as (_ & Hsub & _). by apply Hsub.
  - intros u. rewrite enter_has, reserve_has, Hf, map_map. cbn [fst].
    destruct (jm_has m u) eqn:E; [by rewrite !orb_true_r|]. rewrite !orb_false_r, orb_diag. apply bool_decide_ext.
    rewrite !list_elem_of_fmap. split; intros (h & -> & Hh); exists h; (split; [done|]).
    + by apply list_elem_of_filter in Hh as [_ Hh].
    + by apply list_elem_of_filter.
Qed.

Lemma items_for_app hs items1 items2 : items_for hs (items1 ++ items2) ->
  exists hs1 hs2, hs = hs1 ++ hs2 /\ items_for hs1 items1 /\ items_for hs2 items2 /\ (forall u, u ∈ map hu_url hs1 -> u ∉ map hu_url hs2).
Proof.
  intros (Hf & Hsub & Hnd & Hl). apply Forall2_app_inv_r in Hf as (hs1 & hs2 & Hf1 & Hf2 & ->).
  rewrite map_app in Hnd. apply NoDup_app in Hnd as (Hn1 & Hd & Hn2). exists hs1, hs2.
  assert (forall a, a ⊆ hs1 ++ hs2 -> a ⊆ view /\ forall h, h ∈ a -> exists t, t ∈ hu_listed h /\ cutoffMs <= t) as H.
  { intros a Ha. split; intros x Hx; [apply Hsub|apply Hl]; by apply Ha. }
  destruct (H hs1) as [? ?]; [intros x Hx; apply elem_of_app; by left|].
  destruct (H hs2) as [? ?]; [intros x Hx; apply elem_of_app; by right|]. split; [done|]. split_and!; done.
Qed.

Lemma fresh_urls_again m m' hs : (forall h, h ∈ hs -> jm_has m' (hu_url h) = jm_has m (hu_url h)) -> fresh_urls m' hs = fresh_urls m hs.
Proof.
  intros H. unfold fresh_urls. induction hs as [|h hs IH]; [done|]. rewrite !filter_cons, (H h) by by left.
  rewrite IH; [done|]. intros x Hx. apply H. by right.
Qed.

Lemma page_stream_spec pages m hs : items_for hs (concat pages) -> times_known m ->
  times_known (page_stream m pages).1 /\
  (forall u, jm_has (page_stream m pages).1 u = bool_decide (u ∈ map hu_url hs) || jm_has m u) /\
  (page_stream m pages).2 = filter full_group (map url_group (fresh_urls m hs)).
Proof.
  revert m hs. induction pages as [|s pages IH]; intros m hs Hi Hm.
  { destruct Hi as (Hf & _). apply Forall2_nil_inv_r in Hf as ->. split_and!; [done| |done].
    intros u. by rewrite bool_decide_eq_false_2 by apply not_elem_of_nil. }
  cbn [concat] in Hi. apply items_for_app in Hi as (hs1 & hs2 & -> & H1 & H2 & Hd).
  destruct (slice_times_spec m hs1 s H1 Hm) as [Hm1 Hk1]. destruct (IH _ hs2 H2 Hm1) as (Hm2 & Hk2 & Hs2).
  cbn [HistoryEnumFacts.page_stream fst snd]. split_and!; [done| |].
  - intros u. rewrite Hk2, Hk1, orb_assoc, <- bool_decide_or, map_app. f_equal. apply bool_decide_ext. rewrite elem_of_app. tauto.
  - rewrite Hs2. change (HistoryEnumFacts.group_of visits cutoffMs endMs) with group_of.
    rewrite (fresh_groups m hs1 s H1). unfold fresh_urls at 3. rewrite filter_app, map_app, filter_app. f_equal.
    f_equal. f_equal. apply fresh_urls_again. intros h Hh. rewrite Hk1, bool_decide_eq_false_2; [done|].
    intros Hin. apply (Hd _ Hin). exact (list_elem_of_fmap_2 hu_url _ _ Hh).
Qed.

(** ** The page of a search *)

Record page_rows (e : Z) (shown hidden : list HistoryUrl) : Prop := {
  pr_perm : shown ++ hidden ≡ₚ filter (matched e) view;
  pr_items : items_for shown (search e);
  pr_length : length shown = length (search e);
  pr_full : hidden <> [] -> len (search e) = BULK_SEARCH_PAGE_SIZE;
  pr_older : forall a b, a ∈ shown -> b ∈ hidden -> not_older e a b;
  pr_last : forall item, last (search e) = Some item -> exists l, l ∈ shown /\ item_for l item /\
    forall b, b ∈ hidden -> not_older e l b;
}.

Lemma search_rows e : exists shown hidden, page_rows e shown hidden.
Proof.
  destruct (Hsearch e) as (rows & Hperm & Hsort & Hf). set (n := Z.to_nat BULK_SEARCH_PAGE_SIZE) in Hf.
  exists (take n rows), (drop n rows). pose proof (Forall2_length _ _ _ Hf) as Hlen.
  assert (forall a b, a ∈ take n rows -> b ∈ drop n rows -> not_older e a b) as Hold.
  { intros a b Ha Hb. rewrite <- (take_drop n rows) in Hsort. by apply StronglySorted_app in Hsort as (Hc & _); apply Hc. }
  assert (forall h, h ∈ rows -> h ∈ view /\ matched e h) as Hrow.
  { intros h Hh. rewrite Hperm in Hh. by apply list_elem_of_filter in Hh as [? ?]. }
  split; [by rewrite take_drop|split_and!|done| |done|].
  - done.
  - intros h Hh. apply Hrow. eapply elem_of_sublist; [exact Hh|apply sublist_take].
  - apply (sublist_NoDup _ (map hu_url rows)).
    + rewrite Hperm. apply (sublist_NoDup _ (map hu_url view)); [apply Hview|].
      apply (fmap_sublist hu_url), sublist_filter.
    + apply (fmap_sublist hu_url), sublist_take.
  - intros h Hh. destruct (Hrow h) as [Hv [t Ht]]; [eapply elem_of_sublist; [exact Hh|apply sublist_take]|].
    destruct (match_time_spec e h t (view_url_ok h Hv) Ht) as (Hin & Hw & _). exists t. split; [done|lia].
  - intros Hne. unfold len. rewrite <- Hlen, length_take, Nat.min_l; [unfold n; lia|].
    destruct (Nat.le_gt_cases n (length rows)); [done|]. destruct Hne. apply drop_ge. lia.
  - intros item Hl. rewrite last_lookup in Hl. destruct (Forall2_lookup_r _ _ _ _ _ Hf Hl) as (l & Hl' & Hi).
    exists l. split; [by eapply list_elem_of_lookup_2|]. split; [done|]. intros b Hb. apply Hold; [by eapply list_elem_of_lookup_2|done].
Qed.

(** ** What paging reaches *)

(** The newest visit of [h] falls on a visit of another URL. *)
Definition tied (h : HistoryUrl) : Prop := exists h' t,
  h' ∈ view /\ hu_url h' <> hu_url h /\ match_time endMs h = Some t /\ t ∈ times_of h'.

Definition unread_below (m : jmap string (list Z)) (e : Z) : Prop := forall h, h ∈ view -> matched endMs h ->
  jm_has m (hu_url h) = false -> tied h \/ exists t, match_time endMs h = Some t /\ t < e.

Record reached (m : jmap string (list Z)) (gs : list CollectedGroup) : Prop := {
  re_sound : forall g, g ∈ gs -> full_group g /\ exists h, h ∈ view /\ g = url_group h /\ matched endMs h /\ jm_has m (hu_url h) = false;
  re_once : NoDup (map cg_url gs);
  re_complete : forall h, h ∈ view -> matched endMs h -> tied h \/ jm_has m (hu_url h) = true \/ url_group h ∈ gs;
}.

Lemma matched_mono e h : url_ok h -> e <= endMs -> matched e h -> matched endMs h.
Proof. intros Ho He [t Ht]. destruct (match_time_spec e h t Ho Ht) as (Hin & Hw & _). apply (matched_intro endMs h t Hin). lia. Qed.

Lemma matched_full e h : h ∈ view -> e <= endMs -> matched e h -> full_group (url_group h).
Proof.
  intros Hh He [t Ht]. pose proof (match_times_counted e h t (view_url_ok h Hh) Ht He) as Hin.
  unfold full_group. cbn. intros E. rewrite E in Hin. by apply not_elem_of_nil in Hin.
Qed.

Section page.
Context (e : Z) (m : jmap string (list Z)) (shown hidden : list HistoryUrl).
Hypothesis He : e <= endMs.
Hypothesis Hrows : page_rows e shown hidden.
Hypothesis Hm : times_known m.
Hypothesis Hunread : unread_below m e.

Abbreviation r := (page_stream m (slices (search e) BULK_URL_CONCURRENCY)).

Lemma shown_row h : h ∈ shown -> h ∈ view /\ matched e h.
Proof.
  intros Hh. assert (h ∈ shown ++ hidden) as Hin by (apply elem_of_app; by left).
  rewrite (pr_perm _ _ _ Hrows) in Hin. by apply list_elem_of_filter in Hin as [? ?].
Qed.

Lemma page_result : times_known r.1 /\ (forall u, jm_has r.1 u = bool_decide (u ∈ map hu_url shown) || jm_has m u) /\
  r.2 = filter full_group (map url_group (fresh_urls m shown)).
Proof.
  apply page_stream_spec; [|done]. rewrite slices_concat by (unfold BULK_URL_CONCURRENCY; lia). apply Hrows.
Qed.

Lemma page_groups g : g ∈ r.2 <-> exists h, h ∈ shown /\ jm_has m (hu_url h) = false /\ g = url_group h.
Proof.
  destruct page_result as (_ & _ & ->). rewrite list_elem_of_filter, list_elem_of_fmap. split.
  - intros (_ & h & -> & [? ?]%list_elem_of_filter). by exists h.
  - intros (h & Hh & Hn & ->). destruct (shown_row h Hh) as [Hv Hma]. split; [by apply (matched_full e)|].
    exists h. split; [done|]. by apply list_elem_of_filter.
Qed.

Lemma page_once : NoDup (map cg_url r.2).
Proof.
  destruct page_result as (_ & _ & ->). apply (sublist_NoDup _ (map hu_url shown)); [apply Hrows|].
  trans (map cg_url (map url_group (fresh_urls m shown))); [apply (fmap_sublist cg_url), sublist_filter|].
  rewrite map_map. apply (fmap_sublist hu_url), sublist_filter.
Qed.

(** A URL still unread is one the page found but had no room for. *)
Lemma unread_hidden h : h ∈ view -> matched endMs h -> jm_has r.1 (hu_url h) = false ->
  tied h \/ exists t, match_time e h = Some t /\ match_time endMs h = Some t /\ t < e /\ h ∈ hidden.
Proof.
  intros Hh Hma Hn. destruct page_result as (_ & Hk & _). rewrite Hk in Hn. apply orb_false_iff in Hn as [Hn1 Hn2].
  apply bool_decide_eq_false in Hn1. destruct (Hunread h Hh Hma Hn2) as [|(t & Ht & Hlt)]; [by left|right].
  pose proof (match_time_below e h t (view_url_ok h Hh) Ht Hlt He) as Hte. exists t. split_and!; try done.
  assert (h ∈ shown ++ hidden) as Hin. { rewrite (pr_perm _ _ _ Hrows). apply list_elem_of_filter. split; [by exists t|done]. }
  apply elem_of_app in Hin as [Hin|]; [|done]. destruct Hn1. exact (list_elem_of_fmap_2 hu_url _ _ Hin).
Qed.

(** The next bound: at the last match or above it, never above the old one. *)
Lemma next_bound item : last (search e) = Some item -> exists l ml,
  l ∈ shown /\ match_time e l = Some ml /\ next_cursor r.1 item e ∈ times_of l /\
  ml <= next_cursor r.1 item e < e /\ forall h t, h ∈ hidden -> match_time e h = Some t -> t <= ml.
Proof.
  intros Hl. destruct (pr_last _ _ _ Hrows item Hl) as (l & Hin & (Hu & _) & Hold). destruct (shown_row l Hin) as [Hv [ml Hml]].
  exists l, ml. split; [done|]. split; [done|]. destruct page_result as (Hk & Hhas & _).
  assert (jm_get r.1 (hu_url l) = Some (times_of l)) as Hget.
  { pose proof (Hhas (hu_url l)) as H. rewrite bool_decide_eq_true_2 in H by exact (list_elem_of_fmap_2 hu_url _ _ Hin).
    unfold jm_has in H. destruct (jm_get r.1 (hu_url l)) as [ts|] eqn:E; [|done]. destruct (Hk _ _ E) as (h & Hh & Heq & ->).
    by rewrite (view_url h l Hh Hv Heq). }
  pose proof (match_times_counted e l ml (view_url_ok l Hv) Hml He) as Hmt.
  destruct (match_time_spec e l ml (view_url_ok l Hv) Hml) as (_ & Hw & _).
  unfold next_cursor. rewrite Hu, (proj2 (String.eqb_neq _ _) (uo_url _ (view_url_ok l Hv))), Hget. cbn [default from_option id].
  rewrite largestBelow_reference by apply visit_times_sorted. unfold last_below.
  assert (ml ∈ filter (fun x => x < e) (times_of l)) as Hmf by (apply list_elem_of_filter; split; [lia|done]).
  destruct (last (filter (fun x => x < e) (times_of l))) as [x|] eqn:Ex.
  2:{ apply last_None in Ex. rewrite Ex in Hmf. by apply not_elem_of_nil in Hmf. }
  apply last_sorted_max in Ex as [Hx Hmax]; [|apply StronglySorted_filter_le, visit_times_sorted].
  apply list_elem_of_filter in Hx as [Hxe Hx]. cbn. split; [done|]. split; [split; [by apply Hmax|done]|].
  intros h t Hh Ht. pose proof (Hold h Hh) as Ho. unfold not_older in Ho. by rewrite Hml, Ht in Ho.
Qed.

Lemma unread_next item : last (search e) = Some item -> unread_below r.1 (next_cursor r.1 item e).
Proof.
  intros Hl h Hh Hma Hn. destruct (next_bound item Hl) as (l & ml & Hin & Hml & Hx & Hb & Hold).
  destruct (unread_hidden h Hh Hma Hn) as [|(t & Ht & Hte & Hlt & Hhid)]; [by left|].
  pose proof (Hold h t Hhid Ht). destruct (decide (t < next_cursor r.1 item e)); [right; by exists t|left].
  assert (t = next_cursor r.1 item e) as -> by lia. exists l, (next_cursor r.1 item e).
  split; [by apply shown_row|]. split; [|done]. intros E. destruct page_result as (_ & Hk & _). rewrite Hk, <- E in Hn.
  rewrite bool_decide_eq_true_2 in Hn by exact (list_elem_of_fmap_2 hu_url _ _ Hin). done.
Qed.

Lemma page_sound g : g ∈ r.2 ->
  full_group g /\ exists h, h ∈ view /\ g = url_group h /\ matched endMs h /\ jm_has m (hu_url h) = false.
Proof.
  intros (h & Hh & Hn & ->)%page_groups. destruct (shown_row h Hh) as [Hv Hma].
  split; [by apply (matched_full e)|]. exists h. split_and!; try done. by apply (matched_mono e); [apply view_url_ok|..].
Qed.

(** The last page. *)
Lemma reached_last : hidden = [] -> reached m r.2.
Proof.
  intros Hnil. split; [apply page_sound|apply page_once|]. intros h Hh Hma.
  destruct (jm_has m (hu_url h)) eqn:En; [right; by left|]. destruct (jm_has r.1 (hu_url h)) eqn:Er.
  - right. right. apply page_groups. destruct page_result as (_ & Hk & _). rewrite Hk, En, orb_false_r in Er.
    apply bool_decide_eq_true, list_elem_of_fmap in Er as (h' & E & Hin). destruct (shown_row h' Hin) as [Hv' _].
    pose proof (view_url h h' Hh Hv' E) as ->. by exists h'.
  - destruct (unread_hidden h Hh Hma Er) as [|(t & _ & _ & _ & Hin)]; [by left|]. rewrite Hnil in Hin. by apply not_elem_of_nil in Hin.
Qed.

(** A page and what the later ones reach. *)
Lemma reached_more gs : reached r.1 gs -> reached m (r.2 ++ gs).
Proof.
  intros [Hs Ho Hc]. destruct page_result as (_ & Hk & _). split.
  - intros g [Hg|Hg]%elem_of_app; [by apply page_sound|]. destruct (Hs g Hg) as (Hf & h & Hh & -> & Hma & Hn).
    split; [done|]. exists h. split_and!; try done. rewrite Hk in Hn. by apply orb_false_iff in Hn as [_ ?].
  - rewrite map_app. apply NoDup_app. split; [apply page_once|]. split; [|done].
    intros u Hu Hu'. apply list_elem_of_fmap in Hu as (g & -> & Hg), Hu' as (g' & E & Hg').
    apply page_groups in Hg as (h & Hin & _ & ->). destruct (Hs g' Hg') as (_ & h' & _ & -> & _ & Hn). cbn in E.
    rewrite Hk, <- E, bool_decide_eq_true_2 in Hn by exact (list_elem_of_fmap_2 hu_url _ _ Hin). done.
  - intros h Hh Hma. destruct (Hc h Hh Hma) as [|[Hr|Hin]]; [by left| |right; right; apply elem_of_app; by right].
    destruct (jm_has m (hu_url h)) eqn:En; [right; by left|]. right. right. apply elem_of_app. left. apply page_groups.
    rewrite Hk, En, orb_false_r in Hr. apply bool_decide_eq_true, list_elem_of_fmap in Hr as (h' & E & Hin).
    destruct (shown_row h' Hin) as [Hv' _]. pose proof (view_url h h' Hh Hv' E) as ->. by exists h'.
Qed.
End page.

Lemma stream_reached fuel e m : e <= endMs -> times_known m -> unread_below m e -> (Z.to_nat (e - cutoffMs) < fuel)%nat ->
  exists gs, stream_from fuel e m = Some gs /\ reached m gs.
Proof.
  revert e m. induction fuel as [|fuel IH]; intros e m He Hm Hun Hf; [lia|]. destruct (search_rows e) as (shown & hidden & Hrows).
  cbn [HistoryEnumFacts.stream_from]. destruct (Z.ltb_spec (len (search e)) BULK_SEARCH_PAGE_SIZE) as [Hlt|Hge].
  { eexists. split; [done|]. apply (reached_last e m shown hidden He Hrows Hm Hun). destruct hidden as [|h hidden]; [done|].
    pose proof (pr_full _ _ _ Hrows ltac:(done)). lia. }
  destruct (last (search e)) as [item|] eqn:El; [|apply last_None in El; rewrite El in Hge; unfold len in Hge; cbn in Hge; lia].
  destruct (next_bound e m shown hidden He Hrows Hm item El) as (l & ml & Hin & Hml & _ & Hx & _).
  pose proof (unread_next e m shown hidden He Hrows Hm Hun item El) as Hun'.
  destruct (page_result e m shown hidden Hrows Hm) as (Hm' & _). revert Hun' Hx Hm'.
  set (r := HistoryEnumFacts.page_stream visits cutoffMs endMs m _). generalize (next_cursor r.1 item e) as next. intros next Hun' Hx Hm'.
  rewrite (proj2 (Z.ltb_lt _ _)) by lia. cbn [negb]. destruct (shown_row e shown hidden Hrows l Hin) as [Hv _].
  destruct (match_time_spec e l ml (view_url_ok l Hv) Hml) as (_ & Hw & _).
  destruct (IH next r.1 ltac:(lia) Hm' Hun' ltac:(lia)) as (gs & Hgs & Hr). rewrite Hgs. eexists. split; [done|].
  by apply (reached_more e m shown hidden He Hrows Hm).
Qed.

(** From nothing read: the stream of the whole window. *)
Lemma stream_complete fuel : (Z.to_nat (endMs - cutoffMs) < fuel)%nat ->
  exists gs, stream_from fuel endMs [] = Some gs /\ tidy gs /\
    (forall g, g ∈ gs -> exists h, h ∈ view /\ g = url_group h /\ matched endMs h) /\
    (forall h, h ∈ view -> matched endMs h -> tied h \/ url_group h ∈ gs).
Proof.
  intros Hf. destruct (stream_reached fuel endMs []) as (gs & Hgs & [Hs Ho Hc]); [done|done| |done|].
  { intros h Hh [t Ht] _. right. exists t. split; [done|]. destruct (match_time_spec endMs h t (view_url_ok h Hh) Ht) as (_ & ? & _). lia. }
  exists gs. split_and!; [done| |..].
  - split; [done|]. apply Forall_forall. intros g Hg. by apply Hs.
  - intros g Hg. destruct (Hs g Hg) as (_ & h & Hh & E & Hma & _). by exists h.
  - intros h Hh Hma. destruct (Hc h Hh Hma) as [|[?|?]]; [by left|done|by right].
Qed.
End paging.
