(* ===== verification/HistoryUploadFacts.v ===== *)
(** * What uploading the queue leaves alone

    Before each chunk the import drains the upload queue. Whatever the server
    answers, that touches neither the device record nor the application's
    state, and sends no bulk operation: bulk chunks never enter the queue. *)

From S2P Require Import Prelude JsMap Types Util Json Dates Storage StorageFacts Conflict Crypto CryptoFacts Engine EngineUploadFacts RestorePoints EngineKeeps History HistoryEnumFacts.

Open Scope Z_scope.
Open Scope js_scope.

Definition plain_op (op : LocalOperation) : Prop := operationType op <> OpBulkImport.
Definition plain_queue (m : gmap string PendingOperationRecord) : Prop :=
  forall k r, m !! k = Some r -> operationId (operation r) = k /\ plain_op (operation r).

Definition is_bulk (op : LocalOperation) : Prop := operationType op = OpBulkImport.

Section quiet.
Context {Srv App : Type} `{Env : EngineEnv Srv App}.

(** The operations the server was sent, as it remembers them. *)
Context (sent : Srv -> list LocalOperation).
Definition records_requests : Prop :=
  forall srv ops, sent (uploadOperations srv ops).2 = sent srv ++ ops.
Hypothesis Hsent : records_requests.

Definition bulk_sent (w : World Srv App) : list LocalOperation := filter is_bulk (sent (w_server w)).

Context (B : list LocalOperation) (dev : option DeviceRecord) (app : App).

Record Quiet (w : World Srv App) : Prop := {
  qu_queue : plain_queue (pending_operations (w_db w));
  qu_sent : bulk_sent w = B;
  qu_device : db_device (w_db w) = dev;
  qu_app : w_app w = app;
}.

Definition quiet {A} (m : Sync Srv App A) : Prop := triple Quiet m (fun _ => Quiet) (fun _ => Quiet).

(** What [Quiet] looks at, but for the queue. *)
Definition seen (w : World Srv App) := (bulk_sent w, db_device (w_db w), w_app w).
Definition watched (w : World Srv App) := (pending_operations (w_db w), seen w).

Lemma Quiet_seen w w' : seen w' = seen w -> plain_queue (pending_operations (w_db w')) -> Quiet w -> Quiet w'.
Proof. 
  intros E Hq [_ H1 H2 H3]. split; [done|rewrite <- H1; exact (f_equal (fun x => x.1.1) E)
    |rewrite <- H2; exact (f_equal (fun x => x.1.2) E)|rewrite <- H3; exact (f_equal snd E)].
Qed.

Lemma quiet_keeps {A} (m : Sync Srv App A) : keeps watched m -> quiet m.
Proof.
  intros Hm w Hw. specialize (Hm w). pose proof (qu_queue _ Hw) as Hq.
  assert (Quiet (m w).2) as H.
  { apply (Quiet_seen w); [exact (f_equal snd Hm)| |done]. change (plain_queue (watched (m w).2).1). by rewrite Hm. }
  by destruct (m w) as [[e|a] w'].
Qed.

Lemma quiet_ret {A} (a : A) : quiet (ret a).
Proof. by apply triple_ret. Qed.
Lemma quiet_throw {A} e : quiet (throw e : Sync Srv App A).
Proof. by apply triple_throw. Qed.
Lemma quiet_bind {A C} (m : Sync Srv App A) (k : A -> Sync Srv App C) : quiet m -> (forall a, quiet (k a)) -> quiet (bind m k).
Proof. intros Hm Hk. eapply triple_bind; [exact Hm|exact Hk]. Qed.

Lemma watched_fresh {A} (g : nat -> A) : keeps watched (fresh g).
Proof. done. Qed.
Lemma watched_sdek ak kv : keeps watched (getSdekM ak kv).
Proof. intros w. unfold getSdekM. by destruct (getSdek _ _ _ _) as [[? ?]|]. Qed.
Lemma watched_reserve n : keeps watched (db_run (reserveSequenceBatch n)).
Proof. done. Qed.
Lemma watched_encrypt sdek kv t o ot p : keeps watched (encryptOperation sdek kv t o ot p).
Proof. done. Qed.
Hint Resolve watched_fresh watched_sdek watched_reserve watched_encrypt : keeps.

Lemma watched_makeReplacement device sdek a b ip : keeps watched (makeReplacement device sdek a b ip).
Proof. by destruct ip as [i [r p]]. Qed.
Lemma watched_resolveSdek ak kv memo : keeps watched (resolveSdek ak kv memo).
Proof. unfold resolveSdek. keeps_tac. Qed.
Lemma watched_decryptEnvelope ak memo t o ot env : keeps watched (decryptEnvelope ak memo t o ot env).
Proof.
  unfold decryptEnvelope. destruct (jget env "keyVersion"); try apply keep_ret. intros w.
  pose proof (watched_resolveSdek ak n memo w) as H. by destruct (resolveSdek ak n memo w) as [[e|[sdek memo']] w'].
Qed.
Hint Resolve watched_makeReplacement watched_decryptEnvelope : keeps.
Lemma watched_decodeRestores ak memo rs : keeps watched (decodeRestores ak memo rs).
Proof. revert memo. induction rs as [|r rs IH]; intros memo; cbn [decodeRestores]; keeps_tac. Qed.

(** ** The queue stays plain *)

Lemma plain_delete ids m : plain_queue m -> plain_queue (foldl (fun m id => delete id m) m ids).
Proof. intros Hm. exact (foldl_delete_inv (fun k r => operationId (operation r) = k /\ plain_op (operation r)) ids m Hm). Qed.

Lemma plain_put ops at_ m : plain_queue m -> Forall plain_op ops -> plain_queue (foldl (fun m op => put_queued at_ op m) m ops).
Proof.
  intros Hm Hops. revert m Hm. induction Hops as [|op ops Hop _ IH]; intros m Hm; [done|]. cbn [foldl]. apply IH.
  intros k r. unfold put_queued. rewrite lookup_insert. case_decide; [intros [= <-]; by subst|apply Hm].
Qed.

Lemma quiet_remove ids : quiet (db_update (removeFromQueue ids)).
Proof.
  apply triple_modify. intros w Hw. apply (Quiet_seen w); [done| |done]. cbn. rewrite putAllChunked_map. by apply plain_delete, Hw.
Qed.

Lemma quiet_replace ids ops at_ : Forall plain_op ops -> quiet (db_update (replaceQueuedOperations ids ops at_)).
Proof.
  intros Hops. apply triple_modify. intros w Hw. apply (Quiet_seen w); [done| |done]. cbn. rewrite !putAllChunked_map.
  apply plain_put; [by apply plain_delete, Hw|done].
Qed.

(** Held objects are plain too, and written back as they are. *)
Definition plain_record (id : string) (r : PendingOperationRecord) : Prop :=
  operationId (operation r) = id /\ plain_op (operation r).
Definition plain_heap (h : record_heap) : Prop := forall id r, jm_get h id = Some r -> plain_record id r.

Lemma quiet_rewrite (f : PendingOperationRecord -> PendingOperationRecord) refs heap :
  (forall r, operation (f r) = operation r) -> plain_heap heap ->
  triple Quiet (rewriteM (rewritePendingRecords refs f) heap) (fun h w => plain_heap h /\ Quiet w) (fun _ => Quiet).
Proof.
  intros Hf Hh w Hw. unfold rewriteM, db_run.
  destruct (rewritePending_lookup plain_record refs f heap (w_db w) Hh) as [H1 H2].
  - intros id r _. unfold plain_record. by rewrite Hf.
  - by intros id r [? _].
  - assert (db_device (rewritePendingRecords refs f heap (w_db w)).2 = db_device (w_db w)) as Hd.
    { unfold rewritePendingRecords. destruct refs; [done|]. by destruct (putAllChunked _ _). }
    destruct (rewritePendingRecords refs f heap (w_db w)) as [h s]. cbn [fst snd] in *. split; [done|].
    apply (Quiet_seen w); [unfold seen; cbn; by rewrite Hd| |done]. intros k r Hk. cbn in Hk.
    destruct (H2 k) as [E|(_ & r' & E & HQ)]; rewrite E in Hk; [by apply (qu_queue _ Hw)|].
    injection Hk as <-. rewrite Hf. exact HQ.
Qed.

Lemma quiet_reissue records : quiet (reissueRestoresAsCreate records).
Proof.
  unfold reissueRestoresAsCreate. apply quiet_bind; [apply quiet_keeps; auto with keeps|]. intros [device|]; [|apply quiet_ret].
  apply quiet_bind; [apply quiet_keeps; auto with keeps|]. intros sdek.
  apply quiet_bind; [apply quiet_keeps, watched_decodeRestores|]. intros [decoded unreadable].
  destruct decoded as [|d0 decoded]; [apply quiet_remove|]. apply quiet_bind; [apply quiet_keeps; auto with keeps|]. intros start.
  apply (triple_bind _ _ _ (fun ops w => Forall plain_op ops /\ Quiet w)).
  - intros w Hw. pose proof (quiet_keeps (map_m (makeReplacement device sdek start.1 start.2) (indexed_from 0 (d0 :: decoded)))
      ltac:(apply keep_map_m; auto with keeps) w Hw) as H.
    pose proof (map_m_elem (makeReplacement device sdek start.1 start.2) plain_op (indexed_from 0 (d0 :: decoded)) w) as He.
    destruct (map_m _ _ w) as [[e|ops] w']; [done|]. split; [|done]. apply Forall_forall. apply He. intros [i [r p]] w1. done.
  - intros ops. apply triple_pure. intros Hops. apply quiet_bind; [apply quiet_keeps, watched_fresh|]. intros at_.
    apply quiet_bind; [by apply quiet_replace|]. intros _. apply quiet_bind; [apply quiet_keeps, watched_fresh|]. intros now.
    apply quiet_keeps. intros w. unfold watched, seen. cbn. rewrite pending_recordLocal. f_equal. f_equal.
    unfold bulk_sent. cbn. f_equal. by destruct (zip_with _ _ _ ≫= _).
Qed.

Lemma quiet_uploadM ops : Forall plain_op ops -> quiet (uploadM ops).
Proof.
  intros Hops w Hw. unfold uploadM. pose proof (Hsent (w_server w) ops) as Hs.
  destruct (uploadOperations (w_server w) ops) as [r srv]. cbn in Hs.
  assert (forall w', w_server w' = srv -> w_db w' = w_db w -> w_app w' = w_app w -> Quiet w') as H.
  { intros w' E1 E2 E3. destruct Hw as [H1 H2 H3 H4]. split; rewrite ?E2, ?E3; try done.
    unfold bulk_sent. rewrite E1, Hs, filter_app, (filter_false is_bulk ops), app_nil_r by done. exact H2. }
  destruct r as [e|resp]; by apply H.
Qed.

Lemma quiet_uploadBatch retryable heap req p : plain_heap heap -> Forall (fun r => plain_op (operation r)) retryable ->
  quiet (uploadBatch retryable heap req p).
Proof.
  intros Hh Hr. unfold uploadBatch.
  apply quiet_bind; [apply quiet_uploadM, Forall_map; exact Hr|]. intros resp.
  apply quiet_bind; [apply quiet_remove|]. intros _. apply quiet_bind; [by apply quiet_keeps|]. intros _.
  destruct (classifyRejections _) as [toRequeue toRemove]. set (unknown := filter _ _).
  apply quiet_bind; [destruct unknown; [apply quiet_ret|apply quiet_reissue]|]. intros _.
  eapply triple_bind; [by apply quiet_rewrite|]. intros heap'. apply triple_pure. intros _.
  apply quiet_bind; [destruct toRemove; [apply quiet_ret|apply quiet_remove]|]. intros _. apply quiet_ret.
Qed.

Lemma quiet_upload_loop n req full : quiet (upload_loop n req full).
Proof.
  revert req full. induction n as [|n IH]; intros req full; cbn [upload_loop]; [apply quiet_ret|].
  apply (triple_bind _ _ _ (fun pending w => (forall r, r ∈ pending -> plain_record (record_id r) r) /\ Quiet w)).
  { intros w Hw. split; [|done]. intros r Hr. split; [done|].
    apply getPendingOperations_elem in Hr as (Hr & _); [|intros k r' Hk; by apply (qu_queue _ Hw)]. by apply (qu_queue _ Hw _ _ Hr). }
  intros pending. apply triple_pure. intros Hpend. destruct pending as [|r0 rest]; [apply quiet_ret|].
  set (pending := r0 :: rest) in *. apply quiet_bind.
  { destruct (filter _ pending); [apply quiet_ret|apply quiet_remove]. }
  intros _. set (retryable := filter _ pending).
  assert (forall r, r ∈ retryable -> plain_record (record_id r) r) as Hret by (intros r [_ Hr]%list_elem_of_filter; auto).
  clearbody retryable. destruct retryable as [|q qs]; [destruct (_ || _); [apply quiet_ret|apply IH]|].
  set (retryable := q :: qs) in *.
  eapply triple_bind; [apply (quiet_rewrite (set_state UPLOAD_IN_FLIGHT)); [done|]|].
  { intros id r [Hr <-]%heap_of_get. by apply Hret. }
  intros heap. apply triple_pure. intros Hheap. apply quiet_bind.
  - eapply triple_try_catch; [apply quiet_uploadBatch; [done|]|].
    + apply Forall_forall. intros r Hr. by apply Hret.
    + intros err. eapply triple_bind; [by apply (quiet_rewrite (requeue_record false))|]. intros h. by apply triple_throw; intros w [_ ?].
  - intros v. destruct (negb _); [apply quiet_ret|]. destruct (_ && _); [apply quiet_ret|apply IH].
Qed.

Lemma quiet_uploadPending : quiet uploadPending.
Proof. apply quiet_upload_loop. Qed.
End quiet.

(** * Chunks and checkpoints of a bulk import

    How segments are grouped into chunks, and that an import resumed from a
    checkpoint groups what is left exactly as the first run would have. *)

(** ** Histograms *)

Lemma sum_counts_set hours k : sum_counts (jm_set hours k (default 0 (jm_get hours k) + 1)) = sum_counts hours + 1.
Proof.
  unfold sum_counts. induction hours as [|[k' n] hours IH]; [done|]. cbn [jm_set jm_get].
  destruct (decide (k = k')); cbn [jm_values fmap list_fmap snd foldr default from_option id]; [cbn; lia|].
  unfold jm_values in IH. cbn in IH |- *. rewrite IH. lia.
Qed.

Lemma count_hours_sum times hours hours' : count_hours times hours = Some hours' ->
  sum_counts hours' = sum_counts hours + len times.
Proof.
  revert hours. induction times as [|t times IH]; intros hours; cbn [count_hours]; [intros [= <-]; unfold len; cbn; lia|].
  destruct (hourKey t); [|done]. intros H%IH. rewrite H, sum_counts_set. unfold len. cbn [length]. lia.
Qed.

Lemma count_hours_app a b hours : count_hours (a ++ b) hours = count_hours a hours ≫= count_hours b.
Proof. revert hours. induction a as [|t a IH]; intros hours; [done|]. cbn. destruct (hourKey t); [apply IH|done]. Qed.

(** ** Visits of segments *)

Definition visits (segs : list (list CollectedGroup)) : Z := len (flats (concat segs)).

Lemma visits_app a b : visits (a ++ b) = visits a + visits b.
Proof. unfold visits, len. rewrite concat_app, flats_app, length_app. lia. Qed.

Lemma length_group_times gs : length (group_times gs) = length (flats gs).
Proof.
  induction gs as [|g gs IH]; [done|]. rewrite flats_cons, length_app, length_visits_of, <- IH.
  unfold group_times. cbn [mbind list_bind]. by rewrite length_app.
Qed.

Lemma visits_one seg : visits [seg] = len (group_times seg).
Proof. unfold visits, len. cbn [concat]. by rewrite app_nil_r, length_group_times. Qed.

Lemma visit_count_fold (gs : list CollectedGroup) : foldr (fun g n => len (cg_times g) + n) 0 gs = visits [gs].
Proof.
  rewrite visits_one. induction gs as [|g gs IH]; [done|]. cbn [foldr]. rewrite IH. unfold len, group_times.
  cbn [mbind list_bind]. rewrite length_app. lia.
Qed.

(** ** Segments, cut again *)

Lemma flats_regroup vs : flats (regroup vs) = vs.
Proof.
  induction vs as [|[[u ti] t] vs IH]; [done|]. cbn [regroup]. destruct (regroup vs) as [|g gs]; [by rewrite <- IH|].
  destruct (decide (cg_url g = u /\ cg_title g = ti)) as [[<- <-]|].
  - rewrite flats_cons in IH |- *. unfold visits_of in IH |- *. cbn. by rewrite <- IH.
  - by rewrite <- IH.
Qed.

Lemma slices_nonempty {A} (l : list A) n s : s ∈ slices l n -> (0 < n)%nat -> s <> [].
Proof.
  intros Hs Hn. apply slices_from_length in Hs; [|done]. intros ->. cbn in Hs. lia.
Qed.

Lemma slices_full {A} (l : list A) n k : (0 < n)%nat -> (k < length (slices l n))%nat ->
  length (concat (take k (slices l n))) = (k * n)%nat.
Proof.
  intros Hn. revert l. induction k as [|k IH]; intros l Hk; [done|].
  destruct (decide (length l <= n)%nat) as [Hs|Hs].
  - destruct l as [|a l]; [cbn in Hk; lia|]. rewrite slices_small in Hk by done. cbn in Hk. lia.
  - assert (slices l n = take n l :: slices (drop n l) n) as E.
    { rewrite <- (take_drop n l) at 1. apply slices_cons; [done|]. rewrite length_take. lia. }
    rewrite E in Hk |- *. cbn [take concat length] in *. rewrite length_app, IH, length_take by lia. lia.
Qed.

Lemma segments_nonempty size gs skip seg : (0 < size)%nat -> seg ∈ segments_of size gs skip -> flats seg <> [].
Proof. intros Hn (s & -> & Hs)%list_elem_of_fmap. rewrite flats_regroup. by eapply slices_nonempty. Qed.

Lemma segments_flats size gs skip k :
  flats (concat (take k (segments_of size gs skip))) = concat (take k (slices (drop skip (flats gs)) size)).
Proof.
  unfold segments_of. rewrite <- fmap_take, flats_concat, map_map. f_equal. rewrite <- (map_id (take k _)) at 2.
  apply map_ext. intros vs. apply flats_regroup.
Qed.

(** Skipping the visits of the first segments leaves the others. *)
Lemma segments_resume size gs k : (0 < size)%nat ->
  segments_of size gs (Z.to_nat (visits (take k (segments_of size gs 0)))) = drop k (segments_of size gs 0).
Proof.
  intros Hn. unfold visits, len. rewrite Nat2Z.id. destruct (Nat.lt_ge_cases k (length (segments_of size gs 0))) as [Hk|Hk].
  - rewrite segments_flats, drop_0. unfold segments_of in Hk. rewrite length_map, drop_0 in Hk.
    rewrite slices_full by done. by apply segments_skip.
  - rewrite (drop_ge _ k) by done. rewrite segments_flats, drop_0. unfold segments_of in Hk. rewrite length_map, drop_0 in Hk.
    rewrite take_ge, slices_concat by done. unfold segments_of. by rewrite drop_ge.
Qed.

(** ** Chunks *)

Section plan.
Context `{Sizes : BulkSizes} `{Defl : Deflate}.

(** The length of a sealed segment's base64 text. *)
Definition seg_size (seg : list CollectedGroup) : Z :=
  Z.of_nat (String.length (toB64Fallback (replicate (length (segment_plain seg) + 16) 0))).

Definition sizes (segs : list (list CollectedGroup)) : Z := foldr (fun s n => seg_size s + n) 0 segs.

Lemma sizes_app a b : sizes (a ++ b) = sizes a + sizes b.
Proof. induction a as [|s a IH]; [done|]. cbn. unfold sizes in *. lia. Qed.

Definition chunk_full (cur : list (list CollectedGroup)) : bool :=
  (BULK_CHUNK_TARGET_BYTES <=? sizes cur) || (BULK_CHUNK_TARGET_VISITS <=? visits cur).

(** The chunks of the segments still to come, after [cur]. *)
Fixpoint chunk_plan (segs cur : list (list CollectedGroup)) : list (list (list CollectedGroup)) :=
  match segs with
  | [] => match cur with [] => [] | _ => [cur] end
  | s :: segs => if chunk_full (cur ++ [s]) then (cur ++ [s]) :: chunk_plan segs [] else chunk_plan segs (cur ++ [s])
  end.

Lemma chunk_plan_concat segs cur : concat (chunk_plan segs cur) = cur ++ segs.
Proof.
  revert cur. induction segs as [|s segs IH]; intros cur; cbn [chunk_plan].
  - destruct cur; cbn; by rewrite ?app_nil_r.
  - destruct (chunk_full _); cbn [concat]; rewrite IH, <- app_assoc; done.
Qed.

Lemma chunk_plan_cons segs cur p rest : chunk_plan segs cur = p :: rest ->
  exists segs1 segs2, segs = segs1 ++ segs2 /\ p = cur ++ segs1 /\ rest = chunk_plan segs2 [].
Proof.
  revert cur. induction segs as [|s segs IH]; intros cur; cbn [chunk_plan].
  - destruct cur; [done|]. intros [= <- <-]. exists [], []. split_and!; [done|by rewrite app_nil_r|done].
  - destruct (chunk_full _); [intros [= <- <-]; by exists [s], segs|].
    intros (segs1 & segs2 & -> & -> & ->)%IH. exists (s :: segs1), segs2. by rewrite <- app_assoc.
Qed.

(** The chunks after the first [c] are those of the segments after theirs. *)
Lemma chunk_plan_drop segs c : chunk_plan (drop (length (concat (take c (chunk_plan segs [])))) segs) [] = drop c (chunk_plan segs []).
Proof.
  revert segs. induction c as [|c IH]; intros segs; [done|]. destruct (chunk_plan segs []) as [|p rest] eqn:E.
  - pose proof (chunk_plan_concat segs []) as Hc. rewrite E in Hc. cbn in Hc. by rewrite <- Hc.
  - apply chunk_plan_cons in E as (segs1 & segs2 & -> & -> & ->). cbn [take concat drop app].
    rewrite length_app, <- drop_drop, drop_app_length. apply IH.
Qed.

Lemma take_concat_plan segs c : concat (take c (chunk_plan segs [])) = take (length (concat (take c (chunk_plan segs [])))) segs.
Proof.
  pose proof (chunk_plan_concat segs []) as Hc. cbn [app] in Hc. rewrite <- Hc at 3.
  rewrite <- (take_drop c (chunk_plan segs [])) at 3. by rewrite concat_app, take_app_length.
Qed.

(** A run that skips the visits of the first [c] chunks makes the others. *)
Lemma chunk_plan_resume size gs c : (0 < size)%nat ->
  let P := chunk_plan (segments_of size gs 0) [] in
  chunk_plan (segments_of size gs (Z.to_nat (visits (concat (take c P))))) [] = drop c P.
Proof.
  intros Hn P. unfold P. rewrite take_concat_plan, segments_resume by done. apply chunk_plan_drop.
Qed.
End plan.

(** ** The size of what is sealed *)

(** The cipher's documented form: the text's length and a 16-byte tag. *)
Class AeadSize `{CryptoLib} : Prop := {
  aead_length k n a p : length (aead_encrypt k n a p) = (length p + 16)%nat;
  aead_is_bytes k n a p : Forall is_byte (aead_encrypt k n a p);
}.

Lemma length_toB64 (b b' : bytes) : Forall is_byte b -> Forall is_byte b' -> length b = length b' ->
  String.length (toB64Fallback b) = String.length (toB64Fallback b').
Proof.
  intros Hb Hb' Hl. rewrite !toB64Fallback_encode, !base64UrlEncode_sextets by done.
  assert (forall l, String.length (string_of_list_ascii l) = length l) as Hs.
  { intros l. induction l as [|c l IH]; [done|]. cbn. by rewrite IH. }
  rewrite !Hs, !length_map. clear Hb Hb' Hs. revert b' Hl. induction b as [|x|x y|x y z b IH] using bytes_ind3; intros b' Hl.
  - by destruct b'.
  - by destruct b' as [|? []].
  - by destruct b' as [|? [|? []]].
  - destruct b' as [|x' [|y' [|z' b']]]; try done. cbn [sextets length]. injection Hl as Hl. by rewrite (IH b' Hl).
Qed.

Lemma sealed_size `{Defl : Deflate} `{AeadSize} nonce seg sdek kv aad :
  ciphertext_length (encryptBytesWithSdek None nonce (segment_plain seg) sdek kv aad) = seg_size seg.
Proof.
  unfold ciphertext_length, encryptBytesWithSdek, seg_size. jget_simpl. f_equal. apply length_toB64.
  - apply aead_is_bytes.
  - apply Forall_replicate. unfold is_byte. lia.
  - by rewrite aead_length, length_replicate.
Qed.
