(* ===== verification/HistoryBulkFacts.v ===== *)
(** * The bulk import as a whole

    Whatever the server answers and wherever a run stops, the chunks sent are
    those of one fixed list, in order, and the checkpoint in the device record
    stays a place in that list from which the next run goes on. *)

From S2P Require Import Prelude JsMap Types Util Json Dates Storage StorageFacts Crypto CryptoFacts Engine EngineUploadFacts RestorePoints EngineKeeps History HistoryEnumFacts HistoryPagingFacts HistoryUploadFacts.

Open Scope Z_scope.
Open Scope js_scope.

Section bulk.
Context {Srv App : Type} `{Env : EngineEnv Srv App} `{HB : HistoryBrowser App} `{Sizes : BulkSizes} `{Defl : Deflate}.
Context {Haead : AeadSize}.
Context (sent : Srv -> list LocalOperation).
Hypothesis Hsent : records_requests sent.
Abbreviation bulk_sent := (bulk_sent sent).

(** ** What a chunk's operation holds *)

Section chunk.
Context (device : string) (cutoff keyVersion : Z) (sdek : bytes).

Definition sealed (oid : string) (seg : list CollectedGroup) (envelope : jsval) : Prop := exists n,
  envelope = encryptBytesWithSdek None (env_nonce n) (segment_plain seg) sdek keyVersion (buildOperationAad "historyVisit" oid "bulkImport").

(** [op] is the [i]th chunk of the scope: its ids, its visits, their number and
    their hours, each segment sealed for this operation. *)
Record chunk_for (i : Z) (segs : list (list CollectedGroup)) (op : LocalOperation) : Prop := {
  cf_ids : (operationId op, objectId op) = deterministicBulkIds device cutoff i;
  cf_kind : objectType op = OtHistoryVisit /\ operationType op = OpBulkImport;
  cf_count : visitCount op = Some (visits segs);
  cf_hours : exists hours, visitHours op = Some hours /\ count_hours (group_times (concat segs)) [] = Some hours /\
    sum_counts hours = visits segs;
  cf_payload : exists envelopes, payload op = container_jsval supportsDeflateRaw (visits segs) envelopes /\
    Forall2 (sealed (objectId op)) segs envelopes;
}.

(** [ops] are the chunks of [P], from its first on, numbered from [base]. *)
Definition sends (base : Z) (P : list (list (list CollectedGroup))) (ops : list LocalOperation) : Prop :=
  forall i op, ops !! i = Some op -> exists segs, P !! i = Some segs /\ chunk_for (base + Z.of_nat i) segs op.
End chunk.

(** ** The device record during an import *)

Context (fields : BulkScopeFields) (d0 : DeviceRecord).

(** The record is still this import's, its checkpoint at ([chunks], [visits]). *)
Record at_checkpoint (chunks visits : Z) (d : DeviceRecord) : Prop := {
  ac_device : deviceId d = deviceId d0;
  ac_cutoff : scope_cutoff fields d = scope_cutoff fields d0;
  ac_end : scope_end fields d = scope_end fields d0;
  ac_covered : historyBulkCutoffMs d = historyBulkCutoffMs d0 /\ historyBulkEndMs d = historyBulkEndMs d0 /\
    initialImportCompletedAt d = initialImportCompletedAt d0;
  ac_chunks : default 0 (scope_chunks fields d) = chunks;
  ac_visits : default 0 (scope_visits fields d) = visits;
}.

Lemma at_checkpoint_ids c v d o b : at_checkpoint c v d -> at_checkpoint c v (with_bulk_ids o b d).
Proof. intros [H1 H2 H3 HC H4 H5]. unfold with_bulk_ids, with_history. split; destruct fields; assumption. Qed.

Lemma at_checkpoint_set c v c' v' d : at_checkpoint c v d -> at_checkpoint c' v' (with_checkpoint fields (Some c') (Some v') d).
Proof. intros [H1 H2 H3 HC _ _]. unfold with_checkpoint, with_history. split; destruct fields; assumption || reflexivity. Qed.

(** ** The browser *)

(** Other work may run while the browser answers: it may disconnect the
    device, but leaves this import's fields alone, and queues no bulk
    operation. *)
Record tolerable (s s' : DB) : Prop := {
  to_device : match db_device s' with
    | Some d' => exists d, db_device s = Some d /\ forall c v, at_checkpoint c v d -> at_checkpoint c v d'
    | None => True
    end;
  to_queue : plain_queue (pending_operations s) -> plain_queue (pending_operations s');
}.

Context (cutoffMs endMs : Z) (V : App -> Prop) (search : Z -> list HistoryItem) (look : string -> list VisitItem).

Record browser_answers : Prop := {
  br_search : forall e s a, V a -> exists s' a',
    history_search cutoffMs e BULK_SEARCH_PAGE_SIZE (s, a) = (inr (search e), (s', a')) /\ V a' /\ tolerable s s';
  br_visits : forall u s a, V a -> exists s' a',
    history_getVisits u (s, a) = (inr (look u), (s', a')) /\ V a' /\ tolerable s s';
}.
Hypothesis Hbrowser : browser_answers.

(** ** Progress *)

Context (keyVersion : Z) (sdek : bytes) (B0 : list LocalOperation) (base visits0 : Z) (P : list (list (list CollectedGroup))).

Abbreviation its_chunk := (chunk_for (deviceId d0) cutoffMs keyVersion sdek).
Abbreviation its_sends := (sends (deviceId d0) cutoffMs keyVersion sdek base P).

(** The chunks [past] are behind the checkpoint, [ops] were sent: as many, or
    one more whose checkpoint is not written yet. *)
Record Progress (past : list (list (list CollectedGroup))) (ops : list LocalOperation) (w : World Srv App) : Prop := {
  pg_past : past `prefix_of` P;
  pg_browser : V (w_app w);
  pg_queue : plain_queue (pending_operations (w_db w));
  pg_sent : bulk_sent w = B0 ++ ops;
  pg_sends : its_sends ops;
  pg_device : forall d, db_device (w_db w) = Some d ->
    at_checkpoint (base + len past) (visits0 + visits (concat past)) d /\ (length past <= length ops <= S (length past))%nat;
}.

Definition Settled (past : list (list (list CollectedGroup))) (w : World Srv App) : Prop :=
  exists ops, Progress past ops w /\ (length ops <= length past)%nat.

(** What holds wherever the import stops. *)
Definition Stopped (w : World Srv App) : Prop := exists past ops, Progress past ops w.

Lemma Settled_stopped past w : Settled past w -> Stopped w.
Proof. intros (ops & Hp & _). by exists past, ops. Qed.

Lemma Settled_quiet past w w' : bulk_sent w' = bulk_sent w -> db_device (w_db w') = db_device (w_db w) -> w_app w' = w_app w ->
  plain_queue (pending_operations (w_db w')) -> Settled past w -> Settled past w'.
Proof.
  intros E1 E2 E3 Hq (ops & [H1 H2 H3 H4 H5 H6] & Hl). exists ops. split; [|done].
  split; rewrite ?E1, ?E2, ?E3; done.
Qed.

Lemma Settled_browser past s' a' w : V a' -> tolerable (w_db w) s' -> Settled past w -> Settled past (set_db_app (s', a') w).
Proof.
  intros HV [Hd Hq] (ops & [H1 H2 H3 H4 H5 H6] & Hl). exists ops. split; [|done]. split; cbn; try done; [by apply Hq|].
  intros d' E. rewrite E in Hd. destruct Hd as (d & Ed & Hat). destruct (H6 d Ed) as [Hc Hl6]. split; [by apply Hat|exact Hl6].
Qed.

Lemma Settled_uploads past (n : nat) : triple (Settled past) (drain_queue n) (fun _ => Settled past) (fun _ => Stopped).
Proof.
  induction n as [|n IH]; [apply triple_throw; apply Settled_stopped|]. cbn [drain_queue].
  apply (triple_bind _ _ _ (fun _ => Settled past)); [|intros [|]; [exact IH|by apply triple_ret]].
  intros w Hw. pose proof Hw as (ops & Hp & _).
  pose proof (quiet_uploadPending sent Hsent (bulk_sent w) (db_device (w_db w)) (w_app w) w) as Hu.
  specialize (Hu ltac:(split; try done; apply Hp)).
  assert (forall w', Quiet sent (bulk_sent w) (db_device (w_db w)) (w_app w) w' -> Settled past w') as Hq.
  { intros w' [Q1 Q2 Q3 Q4]. by apply (Settled_quiet past w). }
  destruct (uploadPending w) as [[e|more] w']; [eapply Settled_stopped|]; by apply Hq.
Qed.

(** ** One chunk *)

(** After the upload of the chunk that follows [past], before its checkpoint. *)
Definition Uploaded (past : list (list (list CollectedGroup))) (w : World Srv App) : Prop := exists ops,
  Progress past ops w /\ (length ops <= S (length past))%nat /\
  (is_Some (db_device (w_db w)) -> length ops = S (length past)).

Lemma Progress_sent past cur ops op w w' : past ++ [cur] `prefix_of` P -> length ops = length past ->
  its_chunk (base + len past) cur op -> Progress past ops w ->
  bulk_sent w' = bulk_sent w ++ [op] -> w_db w' = w_db w -> w_app w' = w_app w -> Progress past (ops ++ [op]) w'.
Proof.
  intros [R HR] Hl Hc [H1 H2 H3 H4 H5 H6] Es Ed Ea. split; rewrite ?Ed, ?Ea; try done.
  - by rewrite Es, H4, <- app_assoc.
  - intros i op' [Hi|[Hi Hop]]%lookup_app_Some; [by apply H5|]. apply list_lookup_singleton_Some in Hop as [Hi0 <-].
    assert (i = length past) as -> by lia. exists cur. split; [|exact Hc].
    rewrite HR, <- app_assoc. by rewrite lookup_app_r, Nat.sub_diag.
  - intros d E. destruct (H6 d E) as [? _]. split; [done|]. rewrite length_app. cbn. lia.
Qed.

Lemma Progress_device past ops w d d' : Progress past ops w -> db_device (w_db w) = Some d ->
  (forall c v, at_checkpoint c v d -> at_checkpoint c v d') -> Progress past ops (set_db (set_device (Some d') (w_db w)) w).
Proof.
  intros [H1 H2 H3 H4 H5 H6] E Hd. split; try done. intros d'' [= <-]. destruct (H6 d E) as [Hc Hl]. split; [by apply Hd|exact Hl].
Qed.

Lemma upload_spec past cur chunk : past ++ [cur] `prefix_of` P -> its_chunk (base + len past) cur (bk_operation chunk) ->
  triple (Settled past) (upload_if_connected chunk) (fun _ => Uploaded past) (fun _ => Stopped).
Proof.
  intros Hpre Hc w (ops & Hp & Hl). unfold upload_if_connected, bind at 1, getDeviceM, db_read.
  destruct (db_device (w_db w)) as [d|] eqn:Ed.
  2:{ exists ops. split; [done|]. split; [lia|]. rewrite Ed. by intros []. }
  destruct (pg_device _ _ _ Hp d Ed) as [_ Hl']. set (op := bk_operation chunk) in *.
  unfold uploadHistoryBulk. fold op. unfold bind at 1, getDeviceM, db_read. rewrite Ed.
  unfold bind at 1, putDeviceM, db_update, modify. cbv beta iota.
  set (w1 := set_db (set_device (Some (with_bulk_ids (operationId op) (objectId op) d)) (w_db w)) w).
  assert (Progress past ops w1) as Hp1 by (apply (Progress_device past ops w d); [done..|intros; by apply at_checkpoint_ids]).
  unfold bind at 1, uploadM. pose proof (Hsent (w_server w1) [op]) as Hs. destruct (uploadOperations (w_server w1) [op]) as [r srv].
  cbn [snd] in Hs.
  assert (forall w', w_server w' = srv -> w_db w' = w_db w1 -> w_app w' = w_app w1 -> Progress past (ops ++ [op]) w') as Hdone.
  { intros w' E1 E2 E3. apply (Progress_sent past cur ops op w1 w'); try done; [lia|]. unfold HistoryUploadFacts.bulk_sent.
    rewrite E1, Hs, filter_app. f_equal. apply filter_true. repeat constructor. apply Hc. }
  assert (forall w', Progress past (ops ++ [op]) w' -> Uploaded past w') as Hup.
  { intros w' Hp'. exists (ops ++ [op]). split; [done|]. rewrite length_app. cbn. split; [lia|]. intros _. lia. }
  assert (forall w', Progress past (ops ++ [op]) w' -> Stopped w') as Hst by (intros w' Hp'; by exists past, (ops ++ [op])).
  destruct r as [e|resp]; cbv beta iota; [by apply Hst, Hdone|].
  destruct (bool_decide _); [by apply Hup, Hdone|]. destruct (bool_decide _); [by apply Hup, Hdone|].
  destruct (List.find _ _) as [rejection|]; [destruct (String.eqb _ _)|]; by apply Hst, Hdone.
Qed.

Lemma checkpoint_spec past cur : past ++ [cur] `prefix_of` P ->
  triple (Uploaded past)
    (save_checkpoint fields (Some (base + len past + 1)) (Some (visits0 + visits (concat past) + visits cur)))
    (fun _ => Settled (past ++ [cur])) (fun _ => Stopped).
Proof.
  intros Hpre w (ops & [H1 H2 H3 H4 H5 H6] & Hl & Hd). unfold save_checkpoint, bind at 1, getDeviceM, db_read.
  assert (length (past ++ [cur]) = S (length past)) as Hlen by (rewrite length_app; cbn; lia).
  destruct (db_device (w_db w)) as [d|] eqn:Ed.
  - specialize (Hd ltac:(done)). destruct (H6 d eq_refl) as [Hc _]. exists ops. split; [|lia]. split; try done.
    intros d' [= <-]. split; [|lia]. unfold len in *. rewrite Hlen, concat_app, visits_app. cbn [concat]. rewrite app_nil_r.
    replace (base + Z.of_nat (S (length past))) with (base + Z.of_nat (length past) + 1) by lia. rewrite Z.add_assoc.
    by eapply at_checkpoint_set.
  - exists ops. split; [|lia]. split; try done. rewrite Ed. done.
Qed.

(** The collection's variables: [past] flushed, [cur] being built. *)
Record collected (past : list (list (list CollectedGroup))) (cur : list (list CollectedGroup)) (c : Collection) : Prop := {
  co_segments : Forall2 (sealed keyVersion sdek (deterministicBulkIds (deviceId d0) cutoffMs (base + len past)).2) cur (chunkSegments c);
  co_visits : chunkVisitCount c = visits cur;
  co_bytes : chunkBytes c = sizes cur;
  co_hours : count_hours (group_times (concat cur)) [] = Some (chunkVisitHours c);
  co_index : chunkIndex c = base + len past;
  co_object : default (deterministicBulkIds (deviceId d0) cutoffMs (base + len past)).2 (currentChunkObjectId c) =
    (deterministicBulkIds (deviceId d0) cutoffMs (base + len past)).2;
  co_uploaded : uploadedVisits c = visits0 + visits (concat past);
}.

Lemma hours_sum times hours : count_hours times [] = Some hours -> sum_counts hours = len times.
Proof. intros H. apply count_hours_sum in H. rewrite H. done. Qed.

Lemma visits_times cur : visits cur = len (group_times (concat cur)).
Proof. unfold visits, len. by rewrite length_group_times. Qed.

Lemma collected_chunk past cur c start : collected past cur c ->
  its_chunk (base + len past) cur (bk_operation (chunk_operation (deviceId d0) cutoffMs c start)).
Proof.
  intros [H1 H2 H3 H4 H5 H6 H7]. unfold chunk_operation. cbn [bk_operation]. rewrite H5, H2. split; cbn [operationId objectId objectType operationType visitCount visitHours payload].
  - by destruct (deterministicBulkIds _ _ _).
  - done.
  - done.
  - exists (chunkVisitHours c). split_and!; [done|done|]. by rewrite (hours_sum _ _ H4), visits_times.
  - by exists (chunkSegments c).
Qed.

Abbreviation my_flush fuel := (flushChunk fields fuel upload_if_connected (deviceId d0) cutoffMs).
Abbreviation my_collect fuel := (collect_segment fields fuel upload_if_connected (deviceId d0) cutoffMs keyVersion sdek).

Lemma flushChunk_spec fuel past cur c : past ++ [cur] `prefix_of` P -> visits cur <> 0 -> collected past cur c ->
  triple (Settled past) (my_flush fuel c)
    (fun c' w => collected (past ++ [cur]) [] c' /\ Settled (past ++ [cur]) w) (fun _ => Stopped).
Proof.
  intros Hpre Hne Hc. pose proof Hc as [H1 H2 H3 H4 H5 H6 H7]. unfold flushChunk. rewrite H2, (proj2 (Z.eqb_neq _ _)) by done.
  eapply triple_bind; [apply Settled_uploads|]. intros [].
  apply (triple_bind _ _ _ (fun _ => Settled past)); [|intros start].
  { intros w Hw. apply (Settled_quiet past w); try done. destruct Hw as (ops & Hp & _). apply Hp. }
  rewrite (hours_sum _ _ H4), <- visits_times, Z.eqb_refl. cbn [negb].
  eapply triple_bind; [apply (upload_spec past cur _ Hpre), (collected_chunk past cur c start Hc)|]. intros [].
  cbn [next_chunk chunkIndex uploadedVisits]. rewrite H5, H7.
  eapply triple_bind; [by apply checkpoint_spec|]. intros []. apply triple_ret. intros w Hw. split; [|done].
  assert (base + len past + 1 = base + len (past ++ [cur])) as E by (unfold len; rewrite length_app; cbn; lia).
  split; cbn [chunkSegments chunkVisitCount chunkBytes chunkVisitHours chunkIndex currentChunkObjectId uploadedVisits]; try reflexivity.
  - apply List.Forall2_nil.
  - exact E.
  - rewrite concat_app, visits_app, Z.add_assoc. cbn [concat]. by rewrite app_nil_r.
Qed.

(** ** Every segment *)

Context (expected : list (list CollectedGroup)).
Hypothesis HP : P = chunk_plan expected [].
Hypothesis expected_full : forall seg, seg ∈ expected -> flats seg <> [].

Definition Collecting (E : list (list CollectedGroup)) (c : Collection) (w : World Srv App) : Prop := exists past cur,
  (forall rest, chunk_plan (E ++ rest) [] = past ++ chunk_plan rest cur) /\ (cur <> [] -> visits cur <> 0) /\
  collected past cur c /\ Settled past w.

Lemma Collecting_start w c : c = mkCollection [] 0 0 [] base 0 0 None base visits0 ->
  Settled [] w -> Collecting [] c w.
Proof.
  intros -> Hw. exists [], []. split; [done|]. split; [done|]. split; [|done].
  split; try reflexivity; [apply List.Forall2_nil|..]; unfold visits, len; cbn; lia.
Qed.

Lemma visits_pos seg : flats seg <> [] -> 0 < visits [seg].
Proof. intros H. unfold visits, len. cbn [concat]. rewrite app_nil_r. destruct (flats seg); [done|cbn; lia]. Qed.

Lemma collected_add past cur c seg hours n : collected past cur c ->
  count_hours (group_times seg) (chunkVisitHours c) = Some hours ->
  let oid := (deterministicBulkIds (deviceId d0) cutoffMs (base + len past)).2 in
  let envelope := encryptBytesWithSdek None (env_nonce n) (segment_plain seg) sdek keyVersion (buildOperationAad "historyVisit" oid "bulkImport") in
  collected past (cur ++ [seg]) (mkCollection (chunkSegments c ++ [envelope]) (chunkVisitCount c + visits [seg])
    (chunkBytes c + ciphertext_length envelope) hours (chunkIndex c) (totalVisitCount c) (chunksFlushedThisRun c)
    (Some oid) (uploadedChunks c) (uploadedVisits c)).
Proof.
  intros [H1 H2 H3 H4 H5 H6 H7] Hh oid envelope.
  split; cbn [chunkSegments chunkVisitCount chunkBytes chunkVisitHours chunkIndex currentChunkObjectId uploadedVisits]; try reflexivity || assumption.
  - apply Forall2_app; [done|]. repeat constructor. by exists n.
  - by rewrite visits_app, H2.
  - rewrite sizes_app, H3. unfold envelope. rewrite sealed_size. cbn. lia.
  - rewrite concat_app. cbn [concat]. rewrite app_nil_r. unfold group_times in *. rewrite bind_app, count_hours_app, H4. done.
Qed.

Lemma collect_segment_spec fuel E seg c : E ++ [seg] `prefix_of` expected ->
  triple (Collecting E c) (my_collect fuel seg c) (fun c' => Collecting (E ++ [seg]) c') (fun _ => Stopped).
Proof.
  intros [R HR] w (past & cur & Hplan & Hcur & Hc & Hw). unfold collect_segment. rewrite visit_count_fold.
  assert (0 < visits [seg]) as Hseg.
  { apply visits_pos, expected_full. rewrite HR. apply elem_of_app. left. apply elem_of_app. right. by left. }
  assert (0 <= visits cur) as Hcur0 by (unfold visits, len; lia).
  destruct (count_hours _ _) as [hours|] eqn:Eh; [|by eapply Settled_stopped].
  pose proof (collected_add past cur c seg hours (w_entropy w) Hc Eh) as Hadd. cbv zeta in Hadd.
  rewrite (co_index _ _ _ Hc), (co_object _ _ _ Hc). unfold bind at 1, nonce_next, fresh. cbv beta iota.
  rewrite (co_index _ _ _ Hc) in Hadd. set (envelope := encryptBytesWithSdek _ _ _ _ _ _) in *.
  set (c1 := mkCollection _ _ _ _ _ _ _ _ _ _) in *. set (w1 := bump_entropy w).
  assert (Settled past w1) as Hw1.
  { apply (Settled_quiet past w); try done. destruct Hw as (ops & Hp & _). apply Hp. }
  destruct (_ <? _); [by eapply Settled_stopped|].
  assert (chunk_full (cur ++ [seg]) = (BULK_CHUNK_TARGET_BYTES <=? chunkBytes c1) || (BULK_CHUNK_TARGET_VISITS <=? chunkVisitCount c1)) as <-.
  { unfold chunk_full. by rewrite (co_bytes _ _ _ Hadd), (co_visits _ _ _ Hadd). }
  assert (visits (cur ++ [seg]) <> 0) as Hne by (rewrite visits_app; lia).
  assert (forall rest, chunk_plan ((E ++ [seg]) ++ rest) [] = past ++ chunk_plan (seg :: rest) cur) as Hplan'.
  { intros rest. rewrite <- app_assoc. apply Hplan. }
  destruct (chunk_full (cur ++ [seg])) eqn:Efull.
  - assert (past ++ [cur ++ [seg]] `prefix_of` P) as Hpre.
    { exists (chunk_plan R []). rewrite HP, HR, Hplan'. cbn [chunk_plan]. rewrite Efull, <- app_assoc. done. }
    pose proof (flushChunk_spec fuel past (cur ++ [seg]) c1 Hpre Hne Hadd w1 Hw1) as Hf.
    destruct (flushChunk _ _ _ _ _ _ w1) as [[e|c2] w2]; [done|]. destruct Hf as [Hc2 Hw2].
    exists (past ++ [cur ++ [seg]]), []. split; [|done]. intros rest. rewrite Hplan'. cbn [chunk_plan]. rewrite Efull, <- app_assoc. done.
  - exists past, (cur ++ [seg]). split; [|done]. intros rest. rewrite Hplan'. cbn [chunk_plan]. by rewrite Efull.
Qed.

Lemma Collecting_browser E c w s' a' : V a' -> tolerable (w_db w) s' -> Collecting E c w -> Collecting E c (set_db_app (s', a') w).
Proof.
  intros HV Ht (past & cur & Hplan & Hcur & Hc & Hw). exists past, cur. split_and!; try done. by apply Settled_browser.
Qed.

(** The last, partial chunk. *)
Lemma last_chunk_spec fuel c : triple (Collecting expected c) (my_flush fuel c) (fun _ => Settled P) (fun _ => Stopped).
Proof.
  intros w (past & cur & Hplan & Hcur & Hc & Hw). specialize (Hplan []). rewrite app_nil_r in Hplan. rewrite <- HP in Hplan.
  destruct (decide (cur = [])) as [->|Hne].
  - cbn [chunk_plan] in Hplan. rewrite app_nil_r in Hplan. unfold flushChunk. rewrite (co_visits _ _ _ Hc). cbn. by rewrite Hplan.
  - assert (P = past ++ [cur]) as HPe by (rewrite Hplan; cbn [chunk_plan]; by destruct cur).
    pose proof (flushChunk_spec fuel past cur c ltac:(by rewrite HPe) (Hcur Hne) Hc w Hw) as Hf.
    destruct (flushChunk _ _ _ _ _ _ w) as [[e|c2] w2]; [done|]. rewrite HPe. apply Hf.
Qed.

(** All sent, the checkpoint cleared; or the device is gone. *)
Definition Finished (w : World Srv App) : Prop := exists ops, bulk_sent w = B0 ++ ops /\ its_sends ops /\
  V (w_app w) /\ plain_queue (pending_operations (w_db w)) /\
  forall d, db_device (w_db w) = Some d -> at_checkpoint 0 0 d /\ scope_chunks fields d = None /\ length ops = length P.

Lemma clear_spec X : triple (Settled P) (save_checkpoint fields None None) (fun _ => Finished) X.
Proof.
  intros w (ops & [H1 H2 H3 H4 H5 H6] & Hl). unfold save_checkpoint, bind, getDeviceM, db_read.
  destruct (db_device (w_db w)) as [d|] eqn:Ed.
  - destruct (H6 d eq_refl) as [[A1 A2 A3 AC _ _] Hl']. exists ops. split_and!; try done. intros d' [= <-].
    split; [|split; [by destruct fields|lia]].
    unfold with_checkpoint, with_history. split; destruct fields; assumption || reflexivity.
  - exists ops. split_and!; try done. rewrite Ed. done.
Qed.

(** ** The collection *)

Context (gs : list CollectedGroup) (skip : nat) (fuel : nat).
Hypothesis size_pos : 0 < BULK_SEGMENT_VISITS.
Hypothesis Hstream : stream_from search look cutoffMs endMs fuel endMs [] = Some gs.
Hypothesis gs_tidy : tidy gs.
Hypothesis Hexpected : expected = segments_of (Z.to_nat BULK_SEGMENT_VISITS) gs skip.
Hypothesis Hskip : visits0 = Z.of_nat skip.

Lemma enumerate_spec c : triple (Collecting [] c)
  (enumerateVisits (my_collect fuel) cutoffMs endMs fuel visits0 c)
  (fun r w => if r.2 then db_device (w_db w) = None /\ Stopped w else Collecting expected r.1.1 w) (fun _ => Stopped).
Proof.
  pose proof (enumerateVisits_segments (my_collect fuel) cutoffMs endMs gs skip Collecting (fun _ => Stopped)) as H.
  unfold HistoryEnumFacts.expected in H. rewrite <- Hexpected in H. rewrite Hskip. eapply triple_conseq.
  - eapply (H size_pos); [intros E seg acc Hpre; by apply collect_segment_spec|exact gs_tidy| | |exact Hstream].
    + intros E acc e w Hw. pose proof Hw as (past & cur & _ & _ & _ & (ops & Hp & _)).
      destruct (br_search Hbrowser e (w_db w) (w_app w) (pg_browser _ _ _ Hp)) as (s' & a' & E1 & HV & Ht).
      exists (s', a'). split; [exact E1|]. by apply Collecting_browser.
    + intros E acc u w Hw. pose proof Hw as (past & cur & _ & _ & _ & (ops & Hp & _)).
      destruct (br_visits Hbrowser u (w_db w) (w_app w) (pg_browser _ _ _ Hp)) as (s' & a' & E1 & HV & Ht).
      exists (s', a'). split; [exact E1|]. by apply Collecting_browser.
  - done.
  - intros [[c' t] b] w. cbn. destruct b; [|done]. intros (Hd & E & _ & (past & cur & _ & _ & _ & Hw)).
    split; [done|]. by eapply Settled_stopped.
  - done.
Qed.

Lemma collect_rest_spec c0 : triple (Collecting [] c0)
  (let! r := enumerateVisits (my_collect fuel) cutoffMs endMs fuel visits0 c0 in
   let '(c, _, aborted) := r in
   if (aborted : bool) then ret (mkCollected (chunksFlushedThisRun c) (totalVisitCount c) true)
   else
     let! c' := my_flush fuel c in
     do! save_checkpoint fields None None in
     ret (mkCollected (chunksFlushedThisRun c') (totalVisitCount c') false))
  (fun res w => if cr_aborted res then db_device (w_db w) = None /\ Stopped w else Finished w) (fun _ => Stopped).
Proof.
  eapply triple_bind; [apply enumerate_spec|]. intros [[c t] b]. cbn [fst snd]. destruct b; [by apply triple_ret|].
  eapply triple_bind; [apply last_chunk_spec|]. intros c'. eapply triple_bind; [apply clear_spec|]. intros []. by apply triple_ret.
Qed.
End bulk.

(** ** A whole run *)

Section run.
Context {Srv App : Type} `{Env : EngineEnv Srv App} `{HB : HistoryBrowser App} `{Sizes : BulkSizes} `{Defl : Deflate}.
Context {Haead : AeadSize}.
Context (sent : Srv -> list LocalOperation).
Hypothesis Hsent : records_requests sent.
Hypothesis size_pos : 0 < BULK_SEGMENT_VISITS.
Context (fields : BulkScopeFields) (cutoffMs endMs : Z) (V : App -> Prop) (search : Z -> list HistoryItem) (look : string -> list VisitItem).

(** The whole import, as chunks. *)
Definition import_chunks (gs : list CollectedGroup) : list (list (list CollectedGroup)) :=
  chunk_plan (segments_of (Z.to_nat BULK_SEGMENT_VISITS) gs 0) [].

(** What a run of the scope leaves: some chunks of the plan sent from place [c]
    on, and the device record at the place to go on from, or with its
    checkpoint cleared after the last one. *)
Record Outcome (gs : list CollectedGroup) (c : nat) (d : DeviceRecord) (B0 : list LocalOperation) (sdek : bytes)
    (returned : bool) (w : World Srv App) (ops : list LocalOperation) : Prop := {
  oc_sent : bulk_sent sent w = B0 ++ ops;
  oc_chunks : forall i op, ops !! i = Some op -> exists segs, import_chunks gs !! (c + i)%nat = Some segs /\
    chunk_for (deviceId d) cutoffMs (accountKeyVersion d) sdek (Z.of_nat (c + i)) segs op;
  oc_browser : V (w_app w);
  oc_queue : plain_queue (pending_operations (w_db w));
  oc_device : forall d', db_device (w_db w) = Some d' ->
    if returned then at_checkpoint fields d 0 0 d' /\ scope_chunks fields d' = None /\ (c + length ops)%nat = length (import_chunks gs)
    else exists c', (c <= c' <= c + length ops)%nat /\ (c + length ops <= S c')%nat /\ (c' <= length (import_chunks gs))%nat /\
      at_checkpoint fields d (Z.of_nat c') (visits (concat (take c' (import_chunks gs)))) d';
}.

Lemma Stopped_outcome gs c d kv sdek B0 w : (c <= length (import_chunks gs))%nat -> kv = accountKeyVersion d ->
  Stopped sent fields d cutoffMs V kv sdek B0 (Z.of_nat c) (visits (concat (take c (import_chunks gs))))
    (drop c (import_chunks gs)) w ->
  exists ops, Outcome gs c d B0 sdek false w ops.
Proof.
  intros Hc -> (past & ops & [[R HR] H2 H3 H4 H5 H6]). exists ops. split; try done.
  - intros i op Hi. destruct (H5 i op Hi) as (segs & Hs & Hfor). exists segs. rewrite lookup_drop in Hs. split; [done|].
    by rewrite Nat2Z.inj_add.
  - intros d' Hd. destruct (H6 d' Hd) as [Hat Hl]. exists (c + length past)%nat.
    assert (length (import_chunks gs) = c + length past + length R)%nat as Hlen.
    { rewrite <- (take_drop c (import_chunks gs)), HR, !length_app, length_take. lia. }
    assert (take (c + length past) (import_chunks gs) = take c (import_chunks gs) ++ past) as ->.
    { rewrite <- (take_drop c (import_chunks gs)) at 1. rewrite HR, app_assoc.
      apply take_app_length'. rewrite length_app, length_take. lia. }
    split_and!; try lia. rewrite concat_app, visits_app. unfold len in Hat. by rewrite Nat2Z.inj_add.
Qed.

Lemma Finished_outcome gs c d kv sdek B0 w : (c <= length (import_chunks gs))%nat -> kv = accountKeyVersion d ->
  Finished sent fields d cutoffMs V kv sdek B0 (Z.of_nat c) (drop c (import_chunks gs)) w ->
  exists ops, Outcome gs c d B0 sdek true w ops.
Proof.
  intros Hc -> (ops & H1 & H2 & H3 & H4 & H5). exists ops. split; try done.
  - intros i op Hi. destruct (H2 i op Hi) as (segs & Hs & Hfor). exists segs. rewrite lookup_drop in Hs. split; [done|].
    by rewrite Nat2Z.inj_add.
  - intros d' Hd. destruct (H5 d' Hd) as (Hat & Hn & Hl). split_and!; [done..|]. rewrite Hl, length_drop. lia.
Qed.

Definition is_returned {A} (r : sync_error + A) : bool := match r with inr _ => true | inl _ => false end.

Definition stands_at (gs : list CollectedGroup) (c : nat) (d : DeviceRecord) : Prop :=
  (c <= length (import_chunks gs))%nat /\ default 0 (scope_chunks fields d) = Z.of_nat c /\
  default 0 (scope_visits fields d) = visits (concat (take c (import_chunks gs))).

Lemma collect_outcome fuel cutoff0 end0 gs c w d :
  db_device (w_db w) = Some d -> V (w_app w) -> plain_queue (pending_operations (w_db w)) ->
  default cutoff0 (scope_cutoff fields d) = cutoffMs -> default end0 (scope_end fields d) = endMs ->
  browser_answers fields d cutoffMs V search look ->
  stream_from search look cutoffMs endMs fuel endMs [] = Some gs -> tidy gs -> stands_at gs c d ->
  exists sdek ops, let '(r, w') := collectHistoryBulk fuel cutoff0 end0 upload_if_connected fields w in
    Outcome gs c d (bulk_sent sent w) sdek (is_returned r) w' ops.
Proof.
  intros Hd HV Hq Hcut Hend Hbr Hstream Htidy (Hc & Hch & Hvi). unfold collectHistoryBulk, bind at 1, getDeviceM, db_read.
  rewrite Hd, Hcut, Hend, Hch, Hvi. set (P := drop c (import_chunks gs)).
  assert (forall sdek w', bulk_sent sent w' = bulk_sent sent w -> w_db w' = w_db w -> w_app w' = w_app w ->
    Settled sent fields d cutoffMs V (accountKeyVersion d) sdek (bulk_sent sent w) (Z.of_nat c)
      (visits (concat (take c (import_chunks gs)))) P [] w') as Hstart.
  { intros sdek w' E1 E2 E3. exists []. split; [|done]. split; rewrite ?E1, ?E2, ?E3; try done.
    - by eexists.
    - by rewrite app_nil_r.
    - intros d' E. rewrite Hd in E. injection E as <-. split; [|cbn; lia]. unfold len, visits. cbn.
      rewrite !Z.add_0_r. by split. }
  unfold bind at 1. unfold getSdekM. destruct (getSdek _ _ _ _) as [[sdek cache]|].
  2:{ destruct (Stopped_outcome gs c d _ [] (bulk_sent sent w) w Hc eq_refl) as [ops Ho]; [|by exists [], ops].
      by eapply Settled_stopped, Hstart. }
  set (w1 := set_sdek cache w). exists sdek.
  set (c0 := mkCollection [] 0 0 [] _ 0 0 None _ _).
  assert (P = chunk_plan (segments_of (Z.to_nat BULK_SEGMENT_VISITS) gs (Z.to_nat (visits (concat (take c (import_chunks gs)))))) []) as HP.
  { unfold P, import_chunks. symmetry. apply chunk_plan_resume. lia. }
  assert (0 <= visits (concat (take c (import_chunks gs)))) as Hv0 by (unfold visits, len; lia).
  pose proof (collect_rest_spec sent Hsent fields d cutoffMs endMs V search look Hbr (accountKeyVersion d) sdek (bulk_sent sent w)
    (Z.of_nat c) (visits (concat (take c (import_chunks gs)))) P _ HP) as Hrest.
  specialize (Hrest ltac:(intros seg; apply segments_nonempty; lia) gs _ fuel size_pos Hstream Htidy eq_refl ltac:(lia) c0 w1).
  assert (Collecting sent fields d cutoffMs V (accountKeyVersion d) sdek (bulk_sent sent w) (Z.of_nat c)
    (visits (concat (take c (import_chunks gs)))) P [] c0 w1) as Hinit.
  { eapply Collecting_start; [done|]. by apply Hstart. }
  specialize (Hrest Hinit). destruct (bind _ _ w1) as [[e|res] w'].
  - destruct (Stopped_outcome gs c d _ _ _ w' Hc eq_refl Hrest) as [ops Ho]. by exists ops.
  - destruct (cr_aborted res); [|destruct (Finished_outcome gs c d _ _ _ w' Hc eq_refl Hrest) as [ops Ho]; by exists ops].
    destruct Hrest as [Hnone Hrest]. destruct (Stopped_outcome gs c d _ _ _ w' Hc eq_refl Hrest) as [ops []]. exists ops.
    split; try done. intros d'. by rewrite Hnone.
Qed.
End run.

(** * Properties of the history import

    What the enumeration hands over, that an import interrupted anywhere goes
    on where it stopped, and that importing older history ends. *)

Section history.
Context {Srv App : Type} `{Env : EngineEnv Srv App} `{HB : HistoryBrowser App} `{Sizes : BulkSizes}.
Context (view : list HistoryUrl) (cutoffMs endMs : Z) (search : Z -> list HistoryItem) (look : string -> list VisitItem).

(** The browser holds the history [view] and answers as it documents. *)
Record serves_view : Prop := {
  sv_view : view_ok view cutoffMs endMs;
  sv_search : search_serves view cutoffMs search;
  sv_visits : visits_serve view look;
}.

(** ** Enumeration *)

(** [gs]: every URL of the window once, with all its visits that count; left
    out are at most URLs whose newest visit is tied with another URL's. *)
Record covers (gs : list CollectedGroup) : Prop := {
  cv_once : NoDup (map cg_url gs);
  cv_sound : forall g, g ∈ gs -> exists h, h ∈ view /\ g = url_group cutoffMs endMs h;
  cv_complete : forall h, h ∈ view -> matched cutoffMs endMs h ->
    tied view cutoffMs endMs h \/ url_group cutoffMs endMs h ∈ gs;
}.

(** C10. Enumerating the history pages through a stable browser, ends, and hands
    its callback the visits of every URL of the window, each exactly once, cut
    into segments of [BULK_SEGMENT_VISITS] visits after the [skip] first ones.
    Only a URL whose newest visit has the very time of another URL's can be
    left out; only a lost device stops it short. *)
Theorem enumerateVisits_exact (V : App -> Prop) (fuel skip : nat) (w : World Srv App) :
  serves_view -> 0 < BULK_SEGMENT_VISITS -> 0 < BULK_SEARCH_PAGE_SIZE -> (Z.to_nat (endMs - cutoffMs) < fuel)%nat ->
  (forall e x, V x.2 -> exists x', history_search cutoffMs e BULK_SEARCH_PAGE_SIZE x = (inr (search e), x') /\ V x'.2) ->
  (forall u x, V x.2 -> exists x', history_getVisits u x = (inr (look u), x') /\ V x'.2) -> V (w_app w) ->
  match enumerateVisits (fun seg segs => ret (segs ++ [seg])) cutoffMs endMs fuel (Z.of_nat skip) [] w with
  | (inr (segs, _, true), w') => db_device (w_db w') = None
  | (inr (segs, _, false), _) => exists gs, covers gs /\ segs = segments_of (Z.to_nat BULK_SEGMENT_VISITS) gs skip
  | (inl _, _) => False
  end.
Proof.
  intros [Hv Hs Hl] Hsize Hpage Hfuel Hse Hvi HV.
  destruct (stream_complete view cutoffMs endMs search look Hv Hs Hl Hpage fuel Hfuel) as (gs & Hgs & Ht & Hsound & Hcomp).
  pose proof (enumerateVisits_segments (fun seg segs => ret (segs ++ [seg])) cutoffMs endMs gs skip
    (fun E acc (w : World Srv App) => V (w_app w) /\ acc = E) (fun _ _ => False) Hsize) as H.
  specialize (H ltac:(intros E seg acc _; apply triple_ret; by intros w' [? ->]) Ht search look).
  specialize (H ltac:(intros E acc e w' [HV' ->]; destruct (Hse e (w_db w', w_app w') HV') as (x' & Ex & ?); by exists x')).
  specialize (H ltac:(intros E acc u w' [HV' ->]; destruct (Hvi u (w_db w', w_app w') HV') as (x' & Ex & ?); by exists x')).
  specialize (H fuel [] Hgs w (conj HV eq_refl)).
  destruct (enumerateVisits _ _ _ _ _ _ w) as [[e|[[segs t] b]] w']; [done|]. cbn in H. destruct b; [apply H|].
  destruct H as [_ ->]. exists gs. split; [|done]. split; [apply Ht| |done]. intros g Hg. destruct (Hsound g Hg) as (h & ? & ? & _). by exists h.
Qed.

(** ** Older history *)

Lemma older_pass_covers `{Defl : Deflate} fuel cutoff w w' : importOlderHistoryPass fuel cutoff w = (inr true, w') ->
  exists d, db_device (w_db w') = Some d /\ historyOlderCutoffMs d = None /\ is_Some (historyBulkCutoffMs d) /\
    (forall d0, db_device (w_db w) = Some d0 -> historyOlderCutoffMs d0 = None -> historyBulkCutoffMs d = Some cutoff).
Proof.
  unfold importOlderHistoryPass. intros H.
  apply bind_inv in H as [(? & _ & H)|(dev & w1 & Hd & H)]; [discriminate H|]. injection Hd as <- <-.
  destruct (db_device (w_db w)) as [d0|] eqn:Ed; [|discriminate H].
  destruct (negb (import_completed d0)); [discriminate H|].
  apply bind_inv in H as [(? & _ & H)|(more & w2 & Hm & H)]; [discriminate H|]. destruct more; [|discriminate H]. cbn [negb] in H.
  assert (historyOlderCutoffMs d0 = None -> db_device (w_db w2) ≫= historyOlderCutoffMs = Some cutoff) as Hscope.
  { intros Hn. unfold older_scope in Hm. rewrite Hn in Hm. destruct (historyBulkCutoffMs d0) as [c|]; [|discriminate Hm].
    destruct (negb _); [discriminate Hm|]. injection Hm as <-. done. }
  apply bind_inv in H as [(? & _ & H)|(scoped & w3 & Hs & H)]; [discriminate H|]. injection Hs as <- <-.
  destruct (db_device (w_db w2) ≫= historyOlderCutoffMs) as [oc|] eqn:Eo; [|discriminate H].
  destruct (db_device (w_db w2) ≫= historyOlderEndMs) as [oe|]; [|discriminate H].
  apply bind_inv in H as [(? & _ & H)|(result & w4 & Hc & H)]; [discriminate H|].
  destruct (cr_aborted result); [discriminate H|].
  apply bind_inv in H as [(? & _ & H)|(dev & w5 & Hg & H)]; [discriminate H|]. injection Hg as <- <-.
  destruct (db_device (w_db w4)) as [cur|]; [|discriminate H]. injection H as <-. eexists. split; [done|].
  split; [done|]. split; [done|]. intros d1 [= <-] Hn. by injection (Hscope Hn) as ->.
Qed.

Lemma older_pass_done `{Defl : Deflate} fuel cutoff w d : db_device (w_db w) = Some d -> historyOlderCutoffMs d = None ->
  historyBulkCutoffMs d = Some cutoff -> importOlderHistoryPass fuel cutoff w = (inr false, w).
Proof.
  intros Hd Ho Hb. unfold importOlderHistoryPass, bind, getDeviceM, db_read. rewrite Hd. destruct (negb (import_completed d)); [done|].
  unfold older_scope. rewrite Ho, Hb, Z.ltb_irrefl. done.
Qed.

(** Importing older history ends: whatever the browser and the server do,
    a third pass finds nothing older, so allowing more passes than three
    changes nothing. *)
Theorem importOlderHistoryBulk_ends `{Defl : Deflate} fuel cutoff more (w : World Srv App) :
  importOlderHistoryBulk fuel (3 + more) cutoff w = importOlderHistoryBulk fuel 3 cutoff w.
Proof.
  cbn [importOlderHistoryBulk Nat.add]. unfold bind. destruct (importOlderHistoryPass fuel cutoff w) as [[e|[|]] w1] eqn:E1; [done| |done].
  apply older_pass_covers in E1 as (d1 & H1 & Ho1 & _ & _).
  destruct (importOlderHistoryPass fuel cutoff w1) as [[e|[|]] w2] eqn:E2; [done| |done].
  apply older_pass_covers in E2 as (d2 & H2 & Ho2 & _ & Hc2). by rewrite (older_pass_done fuel cutoff w2 d2 H2 Ho2 (Hc2 d1 H1 Ho1)).
Qed.
(** ** The first import *)

Section backfill.
Context `{Defl : Deflate} {Haead : AeadSize} (sent : Srv -> list LocalOperation).
Hypothesis Hsent : records_requests sent.
Context (V : App -> Prop).

Lemma with_bulk_scope_same d : historyBulkCutoffMs d = Some cutoffMs -> historyBulkEndMs d = Some endMs ->
  with_bulk_scope (Some cutoffMs) (Some endMs) d = d.
Proof. intros <- <-. by destruct d. Qed.

(** The record with its scope persisted. *)
Abbreviation scoped d := (with_bulk_scope (Some cutoffMs) (Some endMs) d).

End backfill.
End history.
