(* ===== verification/HistoryExample.v ===== *)
(** * A small history, imported

    A browser that holds a fixed history and answers as documented, a server
    that accepts everything and remembers it, small pages, segments and chunks.
    The theorems of HistoryFacts are instantiated here; a second history shows
    a URL the import never finds. *)

From stdpp Require Import sorting.
From S2P Require Import Prelude JsMap Types Util Json Dates Storage StorageFacts Crypto CryptoFacts Engine RestorePoints History HistoryEnumFacts HistoryPagingFacts HistoryUploadFacts HistoryBulkFacts.

Open Scope Z_scope.
Open Scope js_scope.

(** ** A browser that answers from a list *)

Section served.
Context `{Sizes : BulkSizes} (view : list HistoryUrl) (cutoffMs : Z).

#[local] Instance not_older_dec e a b : Decision (not_older cutoffMs e a b).
Proof. unfold not_older. apply _. Defined.
#[local] Instance not_older_total e : Total (not_older cutoffMs e).
Proof. intros a b. unfold not_older. lia. Qed.
#[local] Instance not_older_trans e : Transitive (not_older cutoffMs e).
Proof. intros a b c. unfold not_older. lia. Qed.

Definition listed_item (h : HistoryUrl) : HistoryItem := mkHistoryItem (Some (hu_url h)) (hu_title h) (last (hu_listed h)).
Definition serve_search (e : Z) : list HistoryItem :=
  map listed_item (take (Z.to_nat BULK_SEARCH_PAGE_SIZE) (merge_sort (not_older cutoffMs e) (filter (matched cutoffMs e) view))).
Definition serve_visits (url : string) : list VisitItem :=
  match List.find (fun h => String.eqb (hu_url h) url) view with Some h => hu_visits h | None => [] end.

Lemma listed_item_for endMs h : url_ok cutoffMs endMs h -> item_for h (listed_item h).
Proof.
  intros [_ Hs _]. split; [done|]. split; [done|]. cbn. destruct (last (hu_listed h)) as [t|] eqn:E; [|done].
  intros t' Ht'. by apply (last_sorted_max _ _ Hs E).
Qed.

Lemma serve_serves endMs : view_ok view cutoffMs endMs -> serves_view view cutoffMs endMs serve_search serve_visits.
Proof.
  intros [Hu Ho]. split; [done| |].
  - intros e. exists (merge_sort (not_older cutoffMs e) (filter (matched cutoffMs e) view)). split; [apply merge_sort_Permutation|].
    split; [eapply StronglySorted_merge_sort; apply _|]. apply Forall2_fmap_r, Forall_Forall2_diag, Forall_take, Forall_forall.
    intros h Hh. rewrite merge_sort_Permutation, list_elem_of_filter in Hh. rewrite Forall_forall in Ho.
    apply (listed_item_for endMs), Ho, Hh.
  - intros h Hh. unfold serve_visits. clear Ho. revert Hu Hh. induction view as [|h' l IH]; intros Hu Hh; [by apply not_elem_of_nil in Hh|].
    cbn in Hu. apply NoDup_cons in Hu as [Hn Hu]. cbn. apply elem_of_cons in Hh as [->|Hh]; [by rewrite String.eqb_refl|].
    destruct (String.eqb_spec (hu_url h') (hu_url h)) as [E|_]; [|by apply IH]. destruct Hn. rewrite E. by apply list_elem_of_fmap_2.
Qed.
End served.

(** ** The setting *)

#[local] Instance ex_sizes : BulkSizes := {| BULK_SEGMENT_VISITS := 2; BULK_CHUNK_TARGET_VISITS := 4; BULK_SEARCH_PAGE_SIZE := 2 |}.
#[local] Instance ex_codec : Deflate := {| supportsDeflateRaw := false; deflateRaw b := b; inflateRaw b := Some b |}.

(** The text's bytes and a tag that seals nothing: only its length matters. *)
#[local] Instance sized_crypto : CryptoLib := {|
  aead_encrypt _ _ _ p := map (fun x => x mod 256) p ++ replicate 16 0;
  aead_decrypt _ _ _ c := Some (take (length c - 16) c);
  hkdf k info _ := k ++ utf8_encode info;
  sha256 b := b;
  argon2id p salt _ _ _ := utf8_encode p ++ salt;
  ecdh a b := a ++ b;
  ecdh_public a := a;
|}.
#[local] Instance sized_laws : AeadSize.
Proof.
  split; intros k n a p; cbn [aead_encrypt sized_crypto]; [by rewrite length_app, length_map, length_replicate|].
  apply Forall_app. split; [|apply Forall_replicate; unfold is_byte; lia]. apply Forall_fmap, Forall_true. intros x. unfold compose, is_byte. apply Z.mod_pos_bound. lia.
Qed.

(** The server keeps what it is sent; from the [fuse]th request on it fails. *)
Record RecServer := mkRecServer { rs_sent : list LocalOperation; rs_fuse : nat }.

#[local] Instance rec_engine : EngineEnv RecServer (list HistoryUrl) := {|
  env_crypto := sized_crypto;
  env_uuid n := "u" +:+ json_num (Z.of_nat n);
  env_nonce n := [Z.of_nat n];
  env_now n := Z.of_nat n;
  env_iso n := "now";
  uploadOperations srv ops :=
    match rs_fuse srv with
    | O => (inl NetworkError, mkRecServer (rs_sent srv ++ ops) O)
    | S fuse => (inr (mkUploadResponse (map operationId ops) [] [] 0), mkRecServer (rs_sent srv ++ ops) fuse)
    end;
  downloadChanges srv c := (inl NetworkError, srv);
  fetchSnapshot srv := (inl NetworkError, srv);
  appliers t := None;
  batchAppliers t := None;
  preSnapshotHooks := [];
|}.

Lemma rec_records : records_requests rs_sent.
Proof. intros [sent [|fuse]] ops; done. Qed.

#[local] Instance ex_browser : HistoryBrowser (list HistoryUrl) := {|
  history_search c e _ x := (inr (serve_search x.2 c e), x);
  history_getVisits url x := (inr (serve_visits x.2 url), x);
  history_addUrl _ x := (inr tt, x);
|}.

Definition user_visit (t : Z) : VisitItem := mkVisitItem (Some t) (Some "link").

(** [z] lies outside the window but for one visit; a visit of [b] is a frame's. *)
Definition ex_view : list HistoryUrl := [
  mkHistoryUrl "https://a.example/" (Some "A") (map user_visit [40; 10; 30]) [10; 30; 40];
  mkHistoryUrl "https://b.example/" None (mkVisitItem (Some 99) (Some "auto_subframe") :: map user_visit [20]) [20];
  mkHistoryUrl "https://c.example/" (Some "C") (map user_visit [25; 35]) [25; 35];
  mkHistoryUrl "https://z.example/" None (map user_visit [1; 12; 500]) [1; 12; 500]].

Lemma ex_view_ok : view_ok ex_view 5 100.
Proof.
  split; [apply (bool_decide_unpack _); vm_compute; exact I|].
  repeat (apply List.Forall_cons || apply List.Forall_nil); split; cbn [hu_url hu_listed]; try done;
    try (repeat (apply List.Forall_nil || apply List.Forall_cons || apply SSorted_nil || apply SSorted_cons); lia); intros t Ht Hw; apply list_elem_of_In in Ht; cbn in Ht;
    repeat (destruct Ht as [<-|Ht]); try done; try lia; apply (bool_decide_unpack _); vm_compute; exact I.
Qed.

Definition ex_dev : DeviceRecord :=
  mkDevice "" "me" "" "" "" "" "" "AAAA" 1 None None (Some 100) None None None None None None None None.
Definition ex_start : World RecServer (list HistoryUrl) :=
  mkWorld (set_device (Some ex_dev) emptyDB) ex_view (mkRecServer [] 5) [] 0 0 0 [] [] [].

(** ** The theorems here *)

Definition ex_fuel : nat := 100.
Definition ex_segments (w : World RecServer (list HistoryUrl)) (cutoff endMs : Z) :=
  match enumerateVisits (fun seg segs => ret (segs ++ [seg])) cutoff endMs ex_fuel 0 [] w with
  | (inr (segs, _, aborted), _) => (map (map (fun g => (cg_url g, cg_times g))) segs, aborted)
  | _ => ([], true)
  end.

Lemma ex_serves : serves_view ex_view 5 100 (serve_search ex_view 5) (serve_visits ex_view).
Proof. apply serve_serves, ex_view_ok. Qed.

Lemma enumerateVisits_exact_witness :
  match enumerateVisits (fun seg segs => ret (segs ++ [seg])) 5 100 ex_fuel (Z.of_nat 3) [] ex_start with
  | (inr (segs, _, true), w') => db_device (w_db w') = None
  | (inr (segs, _, false), _) => exists gs, covers ex_view 5 100 gs /\ segs = segments_of (Z.to_nat BULK_SEGMENT_VISITS) gs 3
  | (inl _, _) => False
  end.
Proof.
  apply (enumerateVisits_exact ex_view 5 100 (serve_search ex_view 5) (serve_visits ex_view) (fun a => a = ex_view) ex_fuel 3 ex_start).
  - exact ex_serves.
  - done.
  - done.
  - apply Nat.ltb_lt. vm_compute. reflexivity.
  - intros e x E. exists x. cbn. by rewrite E.
  - intros u x E. exists x. cbn. by rewrite E.
  - done.
Defined.

(** What each step does, on all of the window and after three visits. *)
Example ex_enumeration : ex_segments ex_start 5 100 =
  ([[("https://a.example/", [10; 30])]; [("https://a.example/", [40]); ("https://c.example/", [25])];
    [("https://c.example/", [35]); ("https://b.example/", [20])]; [("https://z.example/", [12])]], false).
Proof. vm_compute. reflexivity. Qed.

Lemma ex_answers fields d : browser_answers fields d 5 (fun a => a = ex_view) (serve_search ex_view 5) (serve_visits ex_view).
Proof.
  assert (forall s, tolerable fields d s s) as Ht by (intros s; split; [destruct (db_device s); [eexists; split; [done|auto]|done]|done]).
  split; intros e s a ->; exists s, ex_view; split_and!; try done; apply Ht.
Qed.


(** A run cut off at its second chunk, and the next one: chunk 1 goes again,
    under its ids, and the checkpoint is cleared at the end. *)
Example ex_interrupted :
  let cut := set_server (mkRecServer [] 1) ex_start in
  let '(r1, w1) := backfillHistoryBulk ex_fuel 5 cut in
  let '(r2, w2) := backfillHistoryBulk ex_fuel 5 (set_server (mkRecServer (rs_sent (w_server w1)) 5) w1) in
  r1 = inl NetworkError /\ r2 = inr tt /\
  (db_device (w_db w1) ≫= historyBulkUploadedChunks) = Some 1 /\ (db_device (w_db w1) ≫= historyBulkUploadedVisits) = Some 4 /\
  (db_device (w_db w2) ≫= historyBulkUploadedChunks) = None /\
  map visitCount (rs_sent (w_server w2)) = [Some 4; Some 3; Some 3].
Proof. vm_compute. split_and!; reflexivity. Qed.

(** ** A URL that is never found

    The page holds two URLs. Three were last visited at the same time: the
    next page ends just before that time, so the third is on neither. *)

Definition tied_view : list HistoryUrl := [
  mkHistoryUrl "https://a.example/" None (map user_visit [20]) [20];
  mkHistoryUrl "https://b.example/" None (map user_visit [20]) [20];
  mkHistoryUrl "https://c.example/" None (map user_visit [20]) [20]].

Lemma tied_view_ok : view_ok tied_view 5 100.
Proof.
  split; [apply (bool_decide_unpack _); vm_compute; exact I|].
  repeat (apply List.Forall_cons || apply List.Forall_nil); split; cbn [hu_url hu_listed]; try done;
    try (repeat (apply List.Forall_nil || apply List.Forall_cons || apply SSorted_nil || apply SSorted_cons); lia);
    intros t Ht Hw; apply list_elem_of_In in Ht; cbn in Ht; destruct Ht as [<-|[]]; apply (bool_decide_unpack _); vm_compute; exact I.
Qed.

(** On a browser that answers as documented, the enumeration completes without
    the visit of one of the URLs, though it is in the window: it never reaches
    the other devices. *)
Theorem tied_visit_lost :
  let w := mkWorld (set_device (Some ex_dev) emptyDB) tied_view (mkRecServer [] 5) [] 0 0 0 [] [] [] in
  serves_view tied_view 5 100 (serve_search tied_view 5) (serve_visits tied_view) /\
  (exists h, h ∈ tied_view /\ hu_url h = "https://b.example/" /\ matched 5 100 h) /\
  ex_segments w 5 100 = ([[("https://c.example/", [20]); ("https://a.example/", [20])]], false).
Proof.
  split; [apply serve_serves, tied_view_ok|]. split; [|vm_compute; reflexivity].
  eexists. split; [right; left|]. split; [done|]. apply (bool_decide_unpack _). vm_compute. exact I.
Qed.
