(* ===== verification/HistoryReplay.v ===== *)
(** * Replaying remote visits into the browser (extension/src/history/replay.ts)

    The module keeps [replayWindows]: per canonical URL, the time windows of
    its own [addUrl] calls, by which their echoes are recognised. A window is
    an object the call keeps a reference to; [rw_id] is its identity. Pacing
    and logging are left out. *)

From S2P Require Import Prelude JsMap Types Util Json Dates Storage Crypto Engine EngineDownload RestorePoints History.

Open Scope Z_scope.
Open Scope js_scope.

(** ** The newest visit of each URL *)

Definition NewestVisitByUrl := jmap string Z.

(** [None]: [NaN] *)
Definition noteVisit (newest : NewestVisitByUrl) (url : string) (timeMs : option Z) : NewestVisitByUrl :=
  let time := default 0 timeMs in
  match jm_get newest url with
  | None => jm_set newest url time
  | Some previous => if previous <? time then jm_set newest url time else newest
  end.

(** ** Echo windows *)

Definition ECHO_SLACK_MS : Z := 50.
Definition ECHO_WINDOW_RETENTION_MS : Z := 30 * 60000.
Definition EXISTS_CHECK_CONCURRENCY : nat := 10.
Definition STOP_CHECK_INTERVAL : nat := 50.

Record ReplayWindow := mkWindow {
  rw_id : nat;
  rw_from : Z;
  rw_to : option Z;                     (** [None]: Infinity *)
  rw_addedAt : Z;
}.

Record ReplayState := mkReplay {
  replayWindows : jmap string (list ReplayWindow);
  rs_next : nat;
}.

Definition canonicalUrl `{UrlParser} (url : string) : string := default url (url_href url).

Definition windows_at (st : ReplayState) (key : string) : list ReplayWindow := default [] (jm_get (replayWindows st) key).

(** The key's windows from now on; an empty list is no entry. *)
Definition put_windows (key : string) (windows : list ReplayWindow) (st : ReplayState) : ReplayState :=
  mkReplay (match windows with [] => jm_delete (replayWindows st) key | _ => jm_set (replayWindows st) key windows end) (rs_next st).

Definition expectEcho `{UrlParser} (url : string) (callStartedAt : Z) (st : ReplayState) : nat * ReplayState :=
  let key := canonicalUrl url in
  let window := mkWindow (rs_next st) (callStartedAt - ECHO_SLACK_MS) None callStartedAt in
  (rs_next st, mkReplay (jm_set (replayWindows st) key (windows_at st key ++ [window])) (S (rs_next st))).

(** [window.to = to]: the object itself, in the map or not any more. *)
Definition settle_window (id : nat) (to : Z) (window : ReplayWindow) : ReplayWindow :=
  if Nat.eqb (rw_id window) id then mkWindow (rw_id window) (rw_from window) (Some to) (rw_addedAt window) else window.
Definition settleEcho (id : nat) (to : Z) (st : ReplayState) : ReplayState :=
  mkReplay (map (fun kv => (kv.1, map (settle_window id to) kv.2)) (replayWindows st)) (rs_next st).

(** [splice(findIndex(p), 1)]; [None] if there is none. *)
Fixpoint splice_first {A} (p : A -> bool) (l : list A) : option (list A) :=
  match l with
  | [] => None
  | a :: l => if p a then Some l else (fun l => a :: l) <$> splice_first p l
  end.

Definition forgetEcho `{UrlParser} (url : string) (id : nat) (st : ReplayState) : ReplayState :=
  let key := canonicalUrl url in
  match jm_get (replayWindows st) key with
  | None => st
  | Some windows => put_windows key (default windows (splice_first (fun w => Nat.eqb (rw_id w) id) windows)) st
  end.

Definition in_echo_window (visitTimeMs : Z) (w : ReplayWindow) : bool :=
  (rw_from w <=? visitTimeMs) && match rw_to w with Some to => visitTimeMs <=? to | None => true end.

Definition consumeReplayEcho `{UrlParser} (url : string) (visitTimeMs : option Z) (st : ReplayState) : bool * ReplayState :=
  match visitTimeMs with
  | None => (false, st)
  | Some visitTimeMs =>
      let key := canonicalUrl url in
      match jm_get (replayWindows st) key with
      | None => (false, st)
      | Some windows =>
          match splice_first (in_echo_window visitTimeMs) windows with
          | None => (false, st)
          | Some windows' => (true, put_windows key windows' st)
          end
      end
  end.

Definition live_window (now : Z) (w : ReplayWindow) : bool := now - rw_addedAt w <? ECHO_WINDOW_RETENTION_MS.
Definition sweepStaleWindows (now : Z) (st : ReplayState) : ReplayState :=
  mkReplay (omap (fun kv => match List.filter (live_window now) kv.2 with [] => None | live => Some (kv.1, live) end) (replayWindows st))
    (rs_next st).

(** ** The replay *)

(** Where the application's state keeps the module's. *)
Class ReplayApp (App : Type) := {
  replay_get : App -> ReplayState;
  replay_set : ReplayState -> App -> App;
  replay_get_set s a : replay_get (replay_set s a) = s;
}.

(** [sort((a, b) => a.time - b.time)]: stable. *)
Fixpoint insert_by_time (x : string * Z) (l : list (string * Z)) : list (string * Z) :=
  match l with
  | [] => [x]
  | y :: l => if x.2 <=? y.2 then x :: y :: l else y :: insert_by_time x l
  end.
Definition sort_by_time (l : list (string * Z)) : list (string * Z) := foldr insert_by_time [] l.

Section replay.
Context {Srv App : Type} `{Env : EngineEnv Srv App} `{HB : HistoryBrowser App} `{RA : ReplayApp App} `{UrlParser}.

Definition merge_visit (merged : jmap string (string * Z)) (visit : string * Z) : jmap string (string * Z) :=
  let '(url, time) := visit in
  if negb (isSyncableUrl url) then merged
  else
    let key := canonicalUrl url in
    match jm_get merged key with
    | None => jm_set merged key (url, time)
    | Some previous => if previous.2 <? time then jm_set merged key (url, time) else merged
    end.

(** Oldest first, one URL of each canonical form, at its newest visit. *)
Definition replay_order (newestByUrl : NewestVisitByUrl) : list (string * Z) :=
  sort_by_time (jm_values (foldl merge_visit [] newestByUrl)).

Definition already_known (url : string) : Sync Srv App bool :=
  try_catch (let! visits := browser (history_getVisits url) in ret (Nat.ltb 0 (length visits))) (fun _ => ret true).

Context (shouldStop : Sync Srv App bool).

(** The second result is true where the function returned. *)
Definition check_slice (slice : list (string * Z)) (toAdd : list string) : Sync Srv App (list string * bool) :=
  let! stop := shouldStop in
  if (stop : bool) then ret (toAdd, true)
  else
    let! alreadyKnown := map_m (fun visit => already_known visit.1) slice in
    ret (toAdd ++ map fst (map fst (List.filter (fun vk => negb vk.2) (zip slice alreadyKnown))), false).

Definition replay_update {A} (f : ReplayState -> A * ReplayState) : Sync Srv App A := fun w =>
  let '(a, st) := f (replay_get (w_app w)) in (inr a, set_db_app (w_db w, replay_set st (w_app w)) w).

Definition add_one (url : string) (added : Z) : Sync Srv App Z :=
  let! callStartedAt := now_next in
  let! window := replay_update (expectEcho url callStartedAt) in
  try_catch
    (do! browser (history_addUrl url) in
     let! now := now_next in
     do! replay_update (fun st => (tt, settleEcho window (now + ECHO_SLACK_MS) st)) in
     ret (added + 1))
    (fun _ => do! replay_update (fun st => (tt, forgetEcho url window st)) in ret added).

Fixpoint add_loop (i : nat) (toAdd : list string) (added : Z) : Sync Srv App Z :=
  match toAdd with
  | [] => ret added
  | url :: toAdd =>
      let! stop := (if Nat.eqb (i mod STOP_CHECK_INTERVAL) 0 then shouldStop else ret false) in
      if (stop : bool) then ret added
      else let! added' := add_one url added in add_loop (S i) toAdd added'
  end.

Definition replayVisitsIntoBrowserHistory (newestByUrl : NewestVisitByUrl) : Sync Srv App Z :=
  let! r := fold_until check_slice (slices (replay_order newestByUrl) EXISTS_CHECK_CONCURRENCY) [] in
  if r.2 then ret 0
  else
    let! now := now_next in
    do! replay_update (fun st => (tt, sweepStaleWindows now st)) in
    add_loop 0 r.1 0.
End replay.

(** * Expanding a peer's bulk import (extension/src/history/bulk.ts)

    A container's segments are opened one at a time and each visit is handed to
    a callback. Whatever is wrong with a segment, short of an envelope from
    another format version, only that segment is skipped. *)

(** The properties as they come off the wire, whatever they are. *)
Record DecryptedEntry := mkEntry {
  de_url : jsval;
  de_title : jsval;
  de_t : option Z;                      (** [None]: [NaN], or not a number *)
}.

(** What this client never writes as a time counts as [NaN]. *)
Definition js_time (v : jsval) : option Z := match v with JNum n => Some n | _ => None end.

Section peer.
Context {Srv App : Type} `{Env : EngineEnv Srv App} `{Defl : Deflate} `{DatePlatform}.

(** [new Date(v).getTime()] *)
Definition date_of (v : jsval) : option Z :=
  match v with
  | JStr s => Date_parse s
  | JNum n => if Z.abs n <=? MAX_TIME then Some n else None
  | JNull => Some 0
  | JBool b => Some (if b then 1 else 0)
  | JUndef | JArr _ | JObj _ => None
  end.

(** [None]: reading a property of [null] or [undefined] throws. *)
Definition read_prop (v : jsval) (k : string) : option jsval :=
  match v with JUndef | JNull => None | _ => Some (jget v k) end.

Definition group_entries (g : jsval) : option (list DecryptedEntry) :=
  match read_prop g "u" with
  | None => None
  | Some (JStr u) =>
      match jget g "v" with
      | JArr v => Some (map (fun t => mkEntry (JStr u) (jget g "t") (js_time t)) v)
      | _ => Some []
      end
  | Some _ => Some []
  end.

Definition visit_entry (visit : jsval) : option DecryptedEntry :=
  match read_prop visit "url" with
  | None => None
  | Some url => Some (mkEntry url (jget visit "title") (date_of (jget visit "visitedAt")))
  end.

(** [None] for [null] and for what throws: the caller skips the segment either
    way. *)
Definition decodeSegmentPlaintext (plaintext : jsval) : option (list DecryptedEntry) :=
  match read_prop plaintext "v" with
  | None => None
  | Some v =>
      if js_eq_num v 2 then
        match jget plaintext "groups" with
        | JArr groups => mapM group_entries groups ≫= fun es => Some (concat es)
        | _ => None
        end
      else
        match jget plaintext "visits" with
        | JArr visits => mapM visit_entry visits
        | _ => None
        end
  end.

Definition is_deflate_raw (codec : jsval) : bool := js_eq_str codec "deflate-raw".

(** From the opened bytes on. *)
Definition read_segment (codec : jsval) (decryptedBytes : bytes) : option (list DecryptedEntry) :=
  match (if is_deflate_raw codec then inflateRaw decryptedBytes else Some decryptedBytes) with
  | Some plaintextBytes => JSON_parse (utf8_decode plaintextBytes) ≫= decodeSegmentPlaintext
  | None => None
  end.

Definition has_ciphertext (segment : jsval) : bool :=
  match segment with JObj fs => jm_has fs "ciphertext" | _ => false end.

Definition open_segment (segment codec : jsval) (objectId : string) (sdek : bytes) : sync_error + option (list DecryptedEntry) :=
  match decryptBytesWithSdek None segment sdek (buildOperationAad "historyVisit" objectId "bulkImport") with
  | inl (UnsupportedEnvelopeVersionError v) => inl (UnsupportedEnvelope v)
  | inl _ => inr None
  | inr decryptedBytes => inr (read_segment codec decryptedBytes)
  end.

(** A key version that is no number names no key any client sealed under. *)
Definition decryptSegment (segment : jsval) (rekB64 : string) (codec : jsval) (objectId : string) :
    Sync Srv App (option (list DecryptedEntry)) :=
  if negb (has_ciphertext segment) then ret None
  else
    match jget segment "keyVersion" with
    | JNum keyVersion => fun w =>
        match getSdekM rekB64 keyVersion w with
        | (inl _, w') => (inr None, w')
        | (inr sdek, w') => (open_segment segment codec objectId sdek, w')
        end
    | _ =>
        match assertSupportedEnvelopeVersion segment with
        | inl (UnsupportedEnvelopeVersionError v) => throw (UnsupportedEnvelope v)
        | _ => ret None
        end
    end.

(** What index.ts passes as [isAborted]. *)
Definition device_gone : Sync Srv App bool :=
  let! device := getDeviceM in ret (negb (is_some device)).

Section expand.
(** The callback, on the state it closes over. *)
Context {C : Type} (onVisit : DecryptedEntry -> C -> C) (isAborted : Sync Srv App bool).

Definition expand_segment (rekB64 : string) (codec : jsval) (objectId : string) (segment : jsval) (acc : C) :
    Sync Srv App (C * bool) :=
  let! aborted := isAborted in
  if (aborted : bool) then ret (acc, true)
  else
    let! decrypted := decryptSegment segment rekB64 codec objectId in
    ret (match decrypted with
         | None => acc
         | Some entries => foldl (fun acc entry => onVisit entry acc) acc entries
         end, false).

(** The callback's state, and whether every segment was read. *)
Definition forEachBulkVisit (container : jsval) (rekB64 objectId : string) (acc : C) : Sync Srv App (C * bool) :=
  let! r := fold_until (expand_segment rekB64 (jget container "codec") objectId) (segments_of container) acc in
  ret (r.1, negb r.2).
End expand.
End peer.
