(* ===== verification/HistoryEchoFacts.v ===== *)
(** * Replays do not echo

    The replay and the browser it talks to as a step relation: calls, the
    browser's stamp, its event, the user's own visits, the sweep. Every event
    a replay caused is recognised as its own, so no replayed visit is ever
    captured as a new one. *)

From S2P Require Import Prelude JsMap Types Util Json Dates Storage Crypto Engine History HistoryReplay.

Open Scope Z_scope.
Open Scope js_scope.

(** ** The windows of one key *)

Record replay_wf (st : ReplayState) : Prop := {
  rp_keys : jm_wf (replayWindows st);
  rp_ids : forall key w, w ∈ windows_at st key -> (rw_id w < rs_next st)%nat;
}.

Lemma windows_put key ws st key' : replay_wf st -> windows_at (put_windows key ws st) key' = if decide (key = key') then ws else windows_at st key'.
Proof.
  intros [Hwf _]. unfold windows_at, put_windows. cbn [replayWindows]. destruct ws as [|w ws].
  - rewrite jm_get_delete by done. by case_decide.
  - rewrite jm_get_set. by case_decide.
Qed.

Lemma put_wf key ws st : replay_wf st -> (forall w, w ∈ ws -> w ∈ windows_at st key) -> replay_wf (put_windows key ws st).
Proof.
  intros Hst Hsub. pose proof Hst as [Hk Hi]. split.
  - unfold put_windows. cbn [replayWindows]. destruct ws; [by apply jm_delete_wf|by apply jm_set_wf].
  - intros key' w Hw. rewrite windows_put in Hw by done. cbn [rs_next put_windows]. case_decide; [subst; by eapply Hi, Hsub|by eapply Hi].
Qed.

Lemma windows_expect `{UrlParser} url t st key : windows_at (expectEcho url t st).2 key =
  windows_at st key ++ if decide (canonicalUrl url = key) then [mkWindow (rs_next st) (t - ECHO_SLACK_MS) None t] else [].
Proof.
  unfold expectEcho. cbn [snd]. unfold windows_at at 1. cbn [replayWindows]. rewrite jm_get_set.
  case_decide as E; [by subst|]. by rewrite app_nil_r.
Qed.

Lemma expect_wf `{UrlParser} url t st : replay_wf st -> replay_wf (expectEcho url t st).2.
Proof.
  intros [Hk Hi]. split; [by apply jm_set_wf|]. intros key w Hw. rewrite windows_expect in Hw. cbn [expectEcho snd rs_next].
  apply elem_of_app in Hw as [Hw|Hw]; [specialize (Hi _ _ Hw); lia|]. case_decide; [|by apply not_elem_of_nil in Hw].
  apply list_elem_of_singleton in Hw as ->. cbn. lia.
Qed.

Lemma windows_settle id to st key : windows_at (settleEcho id to st) key = map (settle_window id to) (windows_at st key).
Proof.
  unfold windows_at, settleEcho. cbn [replayWindows]. induction (replayWindows st) as [|[k ws] m IH]; [done|].
  cbn [map jm_get fst snd]. case_decide; [done|exact IH].
Qed.

Lemma settle_id id to w : rw_id (settle_window id to w) = rw_id w.
Proof. unfold settle_window. by destruct (Nat.eqb _ _). Qed.

Lemma settle_wf id to st : replay_wf st -> replay_wf (settleEcho id to st).
Proof.
  intros [Hk Hi]. split.
  - unfold jm_wf, jm_keys in *. unfold settleEcho. cbn [replayWindows]. by rewrite <- list_fmap_compose.
  - intros key w Hw. rewrite windows_settle in Hw. apply list_elem_of_fmap in Hw as (w' & -> & Hw). rewrite settle_id. by eapply Hi.
Qed.

Lemma windows_sweep now st key : replay_wf st -> windows_at (sweepStaleWindows now st) key = List.filter (live_window now) (windows_at st key).
Proof.
  intros [Hk _]. unfold windows_at, sweepStaleWindows. cbn [replayWindows]. unfold jm_wf in Hk. revert Hk.
  induction (replayWindows st) as [|[k ws] m IH]; [done|]. intros [Hn Hk]%NoDup_cons. specialize (IH Hk). cbn [omap list_omap fst snd jm_get].
  assert (k = key -> jm_get m key = None) as Hnone by (intros <-; by apply jm_get_None).
  destruct (List.filter (live_window now) ws) as [|w l] eqn:E; cbn [jm_get]; case_decide as Hd; try exact IH; cbn; rewrite ?E; [|done].
  rewrite Hnone in IH by done. exact IH.
Qed.

Lemma sweep_wf now st : replay_wf st -> replay_wf (sweepStaleWindows now st).
Proof.
  intros Hst. pose proof Hst as [Hk Hi]. split.
  - unfold sweepStaleWindows, jm_wf, jm_keys in *. cbn [replayWindows]. clear Hi Hst. induction (replayWindows st) as [|[k ws] m IH]; [done|].
    cbn in Hk |- *. apply NoDup_cons in Hk as [Hn Hk]. destruct (List.filter _ ws); [by apply IH|]. apply NoDup_cons. split; [|by apply IH].
    intros Hin. apply Hn. clear -Hin. induction m as [|[k' ws'] m IH]; [done|]. cbn in Hin |- *. apply elem_of_cons.
    destruct (List.filter _ ws'); [right; by apply IH|]. cbn in Hin. apply elem_of_cons in Hin as [->|Hin]; [by left|right; by apply IH].
  - intros key w Hw. rewrite windows_sweep in Hw by done. apply list_elem_of_In, filter_In in Hw as [Hw _]. by eapply Hi, list_elem_of_In.
Qed.

(** ** Consuming *)

Lemma splice_first_sub {A} (p : A -> bool) l l' : splice_first p l = Some l' -> forall a, a ∈ l' -> a ∈ l.
Proof.
  revert l'. induction l as [|x l IH]; intros l' E; [done|]. cbn in E. destruct (p x).
  - injection E as <-. intros a Ha. by right.
  - destruct (splice_first p l) as [m|]; [|done]. injection E as <-. intros a [->|Ha]%elem_of_cons; [by left|right; by eapply IH].
Qed.

Lemma splice_first_skip {A} (p : A -> bool) l1 a l2 : Forall (fun b => p b = false) l1 -> p a = true -> splice_first p (l1 ++ a :: l2) = Some (l1 ++ l2).
Proof. intros Hl Ha. induction Hl as [|b l1 Hb _ IH]; cbn; [by rewrite Ha|]. by rewrite Hb, IH. Qed.

Lemma splice_first_none {A} (p : A -> bool) l : splice_first p l = None <-> Forall (fun a => p a = false) l.
Proof.
  induction l as [|a l IH]; [split; [constructor|done]|]. cbn. rewrite Forall_cons. destruct (p a); [split; [done|by intros []]|].
  destruct (splice_first p l) as [l'|]; cbn; rewrite <- IH; [split; [done|by intros []]|split; done].
Qed.

Section consume.
Context `{UrlParser}.

Lemma consume_first url t w ws st : windows_at st (canonicalUrl url) = w :: ws -> in_echo_window t w = true ->
  consumeReplayEcho url (Some t) st = (true, put_windows (canonicalUrl url) ws st).
Proof.
  unfold windows_at, consumeReplayEcho. destruct (jm_get _ _) as [ws'|]; [|done]. cbn. intros -> Hw. cbn. by rewrite Hw.
Qed.

(** A visit outside every window of its URL is the user's, and consumes
    nothing. *)
Lemma consume_user url t st : Forall (fun w => in_echo_window t w = false) (windows_at st (canonicalUrl url)) ->
  consumeReplayEcho url (Some t) st = (false, st).
Proof.
  unfold windows_at, consumeReplayEcho. destruct (jm_get _ _) as [ws|]; [|done]. cbn. by intros ->%splice_first_none.
Qed.

Lemma forget_splice url id st w l1 l2 : windows_at st (canonicalUrl url) = l1 ++ w :: l2 -> rw_id w = id ->
  Forall (fun w' => rw_id w' <> id) l1 -> forgetEcho url id st = put_windows (canonicalUrl url) (l1 ++ l2) st.
Proof.
  unfold windows_at, forgetEcho. destruct (jm_get _ _) as [ws|]; [|intros E; by destruct l1]. cbn. intros -> Hw Hl.
  rewrite (splice_first_skip _ l1 w l2); [done| |by apply Nat.eqb_eq].
  eapply Forall_impl; [exact Hl|]. intros w' Hw'. by apply Nat.eqb_neq.
Qed.
End consume.

(** ** Calls, stamps, events *)

(** A stamped visit whose event has not arrived. *)
Record Due := mkDue { du_key : string; du_time : Z; du_added : Z }.
(** The call in flight; [fl_stamped]: the browser has added the visit. *)
Record Flight := mkFlight { fl_url : string; fl_id : nat; fl_start : Z; fl_stamped : bool }.

Record EchoWorld := mkEcho {
  ew_state : ReplayState;
  ew_flight : option Flight;
  ew_due : list Due;
  ew_now : Z;
}.

(** What the capture listener is told, and what it makes of it. *)
Inductive visit_event :=
  | Echo (url : string) (visitTime : Z) (recognised : bool)
  | UserVisit (url : string) (visitTime : Z) (recognised : bool)
  | NoEvent.

Section echo.
Context `{UrlParser}.

Definition recent (now added : Z) : Prop := now - added < ECHO_WINDOW_RETENTION_MS.

Inductive echo_step : EchoWorld -> visit_event -> EchoWorld -> Prop :=
  | es_tick st fl due now now' : now <= now' -> echo_step (mkEcho st fl due now) NoEvent (mkEcho st fl due now')
  (** One call at a time: each is awaited. *)
  | es_call st due now url :
      echo_step (mkEcho st None due now) NoEvent
        (mkEcho (expectEcho url now st).2 (Some (mkFlight url (expectEcho url now st).1 now false)) due now)
  (** The browser dates the visit at the moment of the call. *)
  | es_stamp st url id start due now :
      echo_step (mkEcho st (Some (mkFlight url id start false)) due now) NoEvent
        (mkEcho st (Some (mkFlight url id start true)) (due ++ [mkDue (canonicalUrl url) now start]) now)
  | es_return st url id start due now :
      echo_step (mkEcho st (Some (mkFlight url id start true)) due now) NoEvent
        (mkEcho (settleEcho id (now + ECHO_SLACK_MS) st) None due now)
  | es_fail st url id start due now :
      echo_step (mkEcho st (Some (mkFlight url id start false)) due now) NoEvent (mkEcho (forgetEcho url id st) None due now)
  (** Events may trail or beat the return; those of one URL come in order. *)
  | es_event st fl due1 d due2 now url :
      Forall (fun d' => du_key d' <> du_key d) due1 -> canonicalUrl url = du_key d ->
      echo_step (mkEcho st fl (due1 ++ d :: due2) now)
        (Echo url (du_time d) (consumeReplayEcho url (Some (du_time d)) st).1)
        (mkEcho (consumeReplayEcho url (Some (du_time d)) st).2 fl (due1 ++ due2) now)
  (** The user visits a URL, not within the windows of a call for it. *)
  | es_user st fl due now url t :
      Forall (fun w => in_echo_window t w = false) (windows_at st (canonicalUrl url)) ->
      echo_step (mkEcho st fl due now) (UserVisit url t (consumeReplayEcho url (Some t) st).1)
        (mkEcho (consumeReplayEcho url (Some t) st).2 fl due now)
  (** A sweep, by when no event is later than half an hour. *)
  | es_sweep st due now :
      Forall (fun d => recent now (du_added d)) due ->
      echo_step (mkEcho st None due now) NoEvent (mkEcho (sweepStaleWindows now st) None due now).

Inductive echo_run : EchoWorld -> list visit_event -> EchoWorld -> Prop :=
  | er_nil x : echo_run x [] x
  | er_cons x e y es z : echo_step x e y -> echo_run y es z -> echo_run x (e :: es) z.

(** ** The invariant *)

(** [w] waits for [d]. *)
Record awaits (d : Due) (w : ReplayWindow) : Prop := {
  aw_from : rw_from w <= du_time d;
  aw_to : forall to, rw_to w = Some to -> du_time d <= to;
  aw_added : rw_addedAt w = du_added d;
}.

Definition open_call (fl : option Flight) (key : string) : list ReplayWindow :=
  match fl with
  | Some f => if fl_stamped f then [] else
      if decide (canonicalUrl (fl_url f) = key) then [mkWindow (fl_id f) (fl_start f - ECHO_SLACK_MS) None (fl_start f)] else []
  | None => []
  end.

Definition due_at (key : string) (due : list Due) : list Due := filter (fun d => du_key d = key) due.

Record echo_inv (x : EchoWorld) : Prop := {
  ei_wf : replay_wf (ew_state x);
  ei_past : Forall (fun d => du_time d <= ew_now x) (ew_due x);
  ei_flight : forall f, ew_flight x = Some f -> (fl_id f < rs_next (ew_state x))%nat /\ fl_start f <= ew_now x;
  ei_windows : forall key, exists ws, windows_at (ew_state x) key = ws ++ open_call (ew_flight x) key /\
    Forall2 awaits (due_at key (ew_due x)) ws /\
    forall f w, ew_flight x = Some f -> fl_stamped f = false -> w ∈ ws -> rw_id w <> fl_id f;
}.

Lemma awaits_in d w : awaits d w -> in_echo_window (du_time d) w = true.
Proof.
  intros [H1 H2 _]. unfold in_echo_window. apply andb_true_iff. split; [by apply Z.leb_le|].
  destruct (rw_to w); [|done]. by apply Z.leb_le, H2.
Qed.

Lemma awaits_settle d w id to : du_time d <= to -> awaits d w -> awaits d (settle_window id to w).
Proof. intros Ht [H1 H2 H3]. unfold settle_window. destruct (Nat.eqb _ _); [|done]. split; cbn; [done| |done]. by intros ? [= <-]. Qed.

Lemma open_call_settle id to fl key : (forall f, fl = Some f -> fl_stamped f = true) -> map (settle_window id to) (open_call fl key) = open_call fl key.
Proof. destruct fl as [f|]; [|done]. intros Hs. cbn. by rewrite (Hs f). Qed.

Lemma due_forall (P : Due -> Prop) due key : Forall P due -> Forall P (due_at key due).
Proof. rewrite !Forall_forall. intros Hd d [_ Hin]%list_elem_of_filter. by apply Hd. Qed.

Lemma inv_call st due now url : echo_inv (mkEcho st None due now) ->
  echo_inv (mkEcho (expectEcho url now st).2 (Some (mkFlight url (expectEcho url now st).1 now false)) due now).
Proof.
  intros [Hwf Hp _ Hw]. split; cbn [ew_state ew_flight ew_due ew_now] in *; [by apply expect_wf|done| |].
  - intros f [= <-]. cbn. lia.
  - intros key. destruct (Hw key) as (ws & E & Hf & _). exists ws. rewrite windows_expect, E. cbn [open_call fl_stamped fl_url fl_id fl_start].
    rewrite app_nil_r. split; [done|]. split; [done|]. intros f w [= <-] _ Hin. cbn.
    assert (rw_id w < rs_next st)%nat; [|lia]. apply (rp_ids _ Hwf key). rewrite E. apply elem_of_app. by left.
Qed.

Lemma inv_stamp st url id start due now : echo_inv (mkEcho st (Some (mkFlight url id start false)) due now) ->
  echo_inv (mkEcho st (Some (mkFlight url id start true)) (due ++ [mkDue (canonicalUrl url) now start]) now).
Proof.
  intros [Hwf Hp Hfl Hw]. destruct (Hfl _ eq_refl) as [Hid Hstart]. cbn in Hstart. split; cbn [ew_state ew_flight ew_due ew_now] in *; [done| | |].
  - apply Forall_app. split; [done|]. repeat constructor. cbn. lia.
  - intros f [= <-]. done.
  - intros key. destruct (Hw key) as (ws & E & Hf & _). unfold due_at in *. rewrite filter_app, filter_cons, filter_nil. cbn [du_key open_call fl_stamped fl_url fl_id fl_start] in *.
    case_decide; [|exists ws; split; [exact E|]; split; [by rewrite app_nil_r|by intros f w [= <-]]].
    eexists. rewrite app_nil_r. split; [exact E|]. split; [|by intros f w [= <-]]. apply Forall2_app; [done|]. constructor; [|constructor].
    split; cbn; [unfold ECHO_SLACK_MS; lia|done|done].
Qed.

Lemma inv_return st url id start due now : echo_inv (mkEcho st (Some (mkFlight url id start true)) due now) ->
  echo_inv (mkEcho (settleEcho id (now + ECHO_SLACK_MS) st) None due now).
Proof.
  intros [Hwf Hp _ Hw]. split; cbn [ew_state ew_flight ew_due ew_now] in *; [by apply settle_wf|done|done|].
  intros key. destruct (Hw key) as (ws & E & Hf & _). exists (map (settle_window id (now + ECHO_SLACK_MS)) ws).
  rewrite windows_settle, E. cbn. rewrite !app_nil_r. split; [done|]. split; [|done].
  apply (due_forall _ _ key) in Hp. clear E Hw. induction Hf as [|d w ds ws Hd _ IH]; [constructor|]. apply Forall_cons in Hp as [Ht Hp].
  constructor; [|by apply IH]. apply awaits_settle; [unfold ECHO_SLACK_MS; lia|done].
Qed.

Lemma inv_fail st url id start due now : echo_inv (mkEcho st (Some (mkFlight url id start false)) due now) ->
  echo_inv (mkEcho (forgetEcho url id st) None due now).
Proof.
  intros [Hwf Hp _ Hw]. cbn [ew_state ew_flight ew_due ew_now] in *. destruct (Hw (canonicalUrl url)) as (ws & E & Hf & Hids).
  cbn [open_call fl_stamped fl_url fl_id fl_start] in E. rewrite decide_True in E by done.
  assert (Forall (fun w' => rw_id w' <> id) ws) as Hne by (apply Forall_forall; intros w Hin; by apply (Hids _ w eq_refl)).
  assert (forgetEcho url id st = put_windows (canonicalUrl url) ws st) as -> by (rewrite (forget_splice url id st _ ws [] E eq_refl Hne); by rewrite app_nil_r).
  split; cbn [ew_state ew_flight ew_due ew_now]; [|done|done|].
  - apply put_wf; [done|]. intros w Hin. rewrite E. apply elem_of_app. by left.
  - intros key. rewrite windows_put by done. cbn [open_call]. case_decide as Hk.
    + subst key. exists ws. rewrite app_nil_r. by split_and!.
    + destruct (Hw key) as (ws' & E' & Hf' & _). cbn [open_call fl_stamped fl_url] in E'. rewrite decide_False in E' by done. by exists ws'.
Qed.

Lemma due_at_split due1 d due2 key : Forall (fun d' => du_key d' <> du_key d) due1 ->
  due_at key (due1 ++ d :: due2) = (if decide (du_key d = key) then [d] else []) ++ due_at key (due1 ++ due2).
Proof.
  intros Hl. unfold due_at. rewrite !filter_app, filter_cons. case_decide as E; [|done]. subst key.
  assert (filter (fun d' => du_key d' = du_key d) due1 = []) as ->; [|done].
  induction Hl as [|d' l Hd _ IH]; [done|]. rewrite filter_cons. by rewrite decide_False.
Qed.

Lemma inv_event st fl due1 d due2 now url : Forall (fun d' => du_key d' <> du_key d) due1 -> canonicalUrl url = du_key d ->
  echo_inv (mkEcho st fl (due1 ++ d :: due2) now) ->
  (consumeReplayEcho url (Some (du_time d)) st).1 = true /\
  echo_inv (mkEcho (consumeReplayEcho url (Some (du_time d)) st).2 fl (due1 ++ due2) now).
Proof.
  intros Hl Hu [Hwf Hp Hfl Hw]. cbn [ew_state ew_flight ew_due ew_now] in *. destruct (Hw (du_key d)) as (ws & E & Hf & Hids).
  rewrite due_at_split in Hf by done. rewrite decide_True in Hf by done. inversion Hf as [|? w ? ws' Hd Hf']; subst ws. clear Hf.
  rewrite (consume_first url (du_time d) w (ws' ++ open_call fl (du_key d)) st); [|by rewrite Hu|by apply awaits_in].
  split; [done|]. cbn [snd]. rewrite Hu. split; cbn [ew_state ew_flight ew_due ew_now].
  - apply put_wf; [done|]. intros w' Hin. rewrite E. by right.
  - apply Forall_app in Hp as [Hp1 Hp2]. apply Forall_cons in Hp2 as [_ Hp2]. by apply Forall_app.
  - exact Hfl.
  - intros key. rewrite windows_put by done. case_decide as Hk.
    + subst key. exists ws'. split; [done|]. split; [done|]. intros f w' Ef Hs Hin. apply (Hids f w' Ef Hs). by right.
    + destruct (Hw key) as (ws2 & E2 & Hf2 & Hids2). exists ws2. rewrite due_at_split in Hf2 by done. by rewrite decide_False in Hf2.
Qed.

Lemma inv_sweep st due now : Forall (fun d => recent now (du_added d)) due -> echo_inv (mkEcho st None due now) ->
  echo_inv (mkEcho (sweepStaleWindows now st) None due now).
Proof.
  intros Hr [Hwf Hp _ Hw]. split; cbn [ew_state ew_flight ew_due ew_now] in *; [by apply sweep_wf|done|done|].
  intros key. destruct (Hw key) as (ws & E & Hf & _). exists ws. cbn [open_call] in *. rewrite app_nil_r in *. split; [|done].
  rewrite windows_sweep, E by done. assert (Forall (fun d => recent now (du_added d)) (due_at key due)) as Hr' by by apply due_forall.
  clear E Hw. induction Hf as [|d w ds ws Hd _ IH]; [done|]. apply Forall_cons in Hr' as [H1 Hr']. cbn. unfold live_window at 1.
  rewrite (aw_added _ _ Hd). unfold recent in H1. rewrite (proj2 (Z.ltb_lt _ _) H1). by rewrite IH.
Qed.

(** The listener takes every echo for one, and no visit of the user's. *)
Definition told_apart (e : visit_event) : Prop :=
  match e with
  | Echo _ _ recognised => recognised = true
  | UserVisit _ _ recognised => recognised = false
  | NoEvent => True
  end.

Lemma echo_step_inv x e y : echo_step x e y -> echo_inv x -> told_apart e /\ echo_inv y.
Proof.
  destruct 1; intros Hi; try (split; [exact I|]).
  - destruct Hi as [Hwf Hp Hfl Hw]. cbn in *. split; cbn; [done| | |done].
    + eapply Forall_impl; [exact Hp|]. cbn. lia.
    + intros f Ef. specialize (Hfl f Ef). lia.
  - by apply inv_call.
  - by apply inv_stamp.
  - by eapply inv_return.
  - by eapply inv_fail.
  - by apply inv_event.
  - rewrite consume_user by done. done.
  - by apply inv_sweep.
Qed.

Lemma echo_inv_start now : echo_inv (mkEcho (mkReplay [] 0) None [] now).
Proof.
  split; cbn; [split; [apply jm_nil_wf|]|constructor|done|].
  - intros key w Hw. by apply not_elem_of_nil in Hw.
  - intros key. exists []. split_and!; [done|constructor|done].
Qed.

End echo.
