(* ===== verification/HistoryReplayFacts.v ===== *)
(** * What a replay adds

    The newest visit of each URL is what is noted; each canonical URL the
    browser does not know is added once, oldest first, and nothing else is. *)

From S2P Require Import Prelude JsMap Types Util Json Dates Storage StorageFacts Crypto CryptoFacts Engine EngineDownload RestorePoints History HistoryEnumFacts HistoryUploadFacts HistoryBulkFacts HistoryReplay.

Open Scope Z_scope.
Open Scope js_scope.

(** ** Newest times *)

Lemma noteVisit_get newest url t u : jm_get (noteVisit newest url t) u =
  if decide (url = u) then Some (match jm_get newest u with Some p => Z.max p (default 0 t) | None => default 0 t end) else jm_get newest u.
Proof.
  unfold noteVisit. destruct (jm_get newest url) as [p|] eqn:E.
  - destruct (Z.ltb_spec p (default 0 t)).
    + rewrite jm_get_set. case_decide; [|done]. subst. rewrite E. f_equal. lia.
    + case_decide; [|done]. subst. rewrite E. f_equal. lia.
  - rewrite jm_get_set. case_decide; [|done]. subst. by rewrite E.
Qed.

Lemma noteVisit_wf newest url t : jm_wf newest -> jm_wf (noteVisit newest url t).
Proof. intros H. unfold noteVisit. destruct (jm_get _ _); [case_match; [by apply jm_set_wf|done]|by apply jm_set_wf]. Qed.

Definition note_all (visits : list (string * option Z)) (newest : NewestVisitByUrl) : NewestVisitByUrl :=
  foldl (fun newest v => noteVisit newest v.1 v.2) newest visits.

(** [Some m]: the URL was seen, last at [m]; [NaN] counts as 0. *)
Definition newest_time (visits : list (string * option Z)) (url : string) : option Z :=
  foldl (fun m v => if decide (v.1 = url) then Some (match m with Some p => Z.max p (default 0 v.2) | None => default 0 v.2 end) else m) None visits.

Lemma note_all_get visits newest url : jm_get (note_all visits newest) url =
  foldl (fun m v => if decide (v.1 = url) then Some (match m with Some p => Z.max p (default 0 v.2) | None => default 0 v.2 end) else m)
    (jm_get newest url) visits.
Proof. revert newest. induction visits as [|v visits IH]; intros newest; [done|]. cbn. unfold note_all in IH. rewrite IH. f_equal. apply noteVisit_get. Qed.

(** The greatest of the URL's times. *)
Lemma newest_time_max visits url m : newest_time visits url = Some m ->
  (exists t, (url, t) ∈ visits /\ default 0 t = m) /\ forall t, (url, t) ∈ visits -> default 0 t <= m.
Proof.
  unfold newest_time. revert m. induction visits as [|[u t] visits IH] using rev_ind; intros m; [done|].
  rewrite foldl_app. cbn. case_decide as E.
  - subst u. destruct (foldl _ None visits) as [p|] eqn:Ef; intros [= <-].
    + destruct (IH p eq_refl) as [(t' & Ht' & Hp) Hmax]. split.
      * destruct (Z.max_spec p (default 0 t)) as [[_ ->]|[_ ->]]; [exists t|exists t']; (split; [apply elem_of_app|]); [right; by left|done|by left|done].
      * intros t2 [H2|H2]%elem_of_app; [specialize (Hmax _ H2); lia|]. apply list_elem_of_singleton in H2. injection H2 as ->. lia.
    + split; [exists t; split; [apply elem_of_app; right; by left|done]|]. intros t2 [H2|H2]%elem_of_app.
      * exfalso. clear -Ef H2. induction visits as [|v visits IHv] using rev_ind; [by apply not_elem_of_nil in H2|].
        rewrite foldl_app in Ef. cbn in Ef. apply elem_of_app in H2 as [H2|H2]; [case_decide; [done|by apply IHv]|].
        apply list_elem_of_singleton in H2 as <-. cbn in Ef. by rewrite decide_True in Ef.
      * apply list_elem_of_singleton in H2. injection H2 as ->. lia.
  - intros Ef. destruct (IH m Ef) as [(t' & Ht' & Hp) Hmax]. split; [exists t'; split; [apply elem_of_app; by left|done]|].
    intros t2 [H2|H2]%elem_of_app; [by apply Hmax|]. apply list_elem_of_singleton in H2. by injection H2 as ->.
Qed.

(** ** The order of the replay *)

Lemma insert_by_time_perm x l : insert_by_time x l ≡ₚ x :: l.
Proof. induction l as [|y l IH]; [done|]. cbn. destruct (_ <=? _); [done|]. rewrite IH. apply Permutation_swap. Qed.

Lemma sort_by_time_perm l : sort_by_time l ≡ₚ l.
Proof. induction l as [|x l IH]; [done|]. cbn. rewrite insert_by_time_perm. by rewrite IH. Qed.

Definition not_later (x y : string * Z) : Prop := x.2 <= y.2.

Lemma insert_by_time_sorted x l : StronglySorted not_later l -> StronglySorted not_later (insert_by_time x l).
Proof.
  induction 1 as [|y l Hs IH Hy]; cbn; [repeat constructor|]. destruct (Z.leb_spec x.2 y.2).
  - apply SSorted_cons; [by apply SSorted_cons|]. constructor; [done|]. eapply Forall_impl; [exact Hy|]. unfold not_later. intros z. lia.
  - apply SSorted_cons; [done|]. rewrite insert_by_time_perm. constructor; [unfold not_later; lia|done].
Qed.

Lemma sort_by_time_sorted l : StronglySorted not_later (sort_by_time l).
Proof. induction l as [|x l IH]; [constructor|]. by apply insert_by_time_sorted. Qed.

Section order.
Context `{UrlParser}.

(** [merged] holds, of each canonical URL among [newest], a newest entry. *)
Record merges (newest : list (string * Z)) (merged : jmap string (string * Z)) : Prop := {
  me_wf : jm_wf merged;
  me_sound : forall key v, jm_get merged key = Some v -> v ∈ newest /\ isSyncableUrl v.1 = true /\ canonicalUrl v.1 = key /\
    forall v', v' ∈ newest -> isSyncableUrl v'.1 = true -> canonicalUrl v'.1 = key -> v'.2 <= v.2;
  me_complete : forall v, v ∈ newest -> isSyncableUrl v.1 = true -> is_Some (jm_get merged (canonicalUrl v.1));
}.

Lemma merge_visit_merges newest merged v : merges newest merged -> merges (newest ++ [v]) (merge_visit merged v).
Proof.
  intros [Hw Hs Hc]. destruct v as [url time]. unfold merge_visit. destruct (isSyncableUrl url) eqn:Eu; cbn [negb].
  2:{ split; [done| |].
    - intros key v Hv. destruct (Hs key v Hv) as (H1 & H2 & H3 & H4). split_and!; [apply elem_of_app; by left|done|done|].
      intros v' [Hv'|Hv']%elem_of_app Hsy; [by apply H4|]. apply list_elem_of_singleton in Hv' as ->. cbn in Hsy. by rewrite Eu in Hsy.
    - intros v [Hv|Hv]%elem_of_app Hsy; [by apply Hc|]. apply list_elem_of_singleton in Hv as ->. cbn in Hsy. by rewrite Eu in Hsy. }
  set (key0 := canonicalUrl url). set (merged' := match jm_get merged key0 with Some _ => _ | None => _ end).
  assert (forall key, jm_get merged' key = if decide (key0 = key) then
    Some (match jm_get merged key0 with Some p => if p.2 <? time then (url, time) else p | None => (url, time) end) else jm_get merged key) as Hget.
  { intros key. unfold merged'. destruct (jm_get merged key0) as [p|] eqn:E; [destruct (p.2 <? time)|];
      rewrite ?jm_get_set; case_decide; subst; try done. }
  split.
  - unfold merged'. destruct (jm_get merged key0); [case_match; [by apply jm_set_wf|done]|by apply jm_set_wf].
  - intros key v. rewrite Hget. case_decide as Ek.
    + subst key. intros [= <-]. destruct (jm_get merged key0) as [p|] eqn:E.
      * destruct (Hs key0 p E) as (H1 & H2 & H3 & H4). destruct (Z.ltb_spec p.2 time).
        -- split_and!; [apply elem_of_app; right; by left|done|done|]. intros v' [Hv'|Hv']%elem_of_app H5 H6; cbn; [specialize (H4 v' Hv' H5 H6); lia|].
           apply list_elem_of_singleton in Hv' as ->. cbn. lia.
        -- split_and!; [apply elem_of_app; by left|done|done|]. intros v' [Hv'|Hv']%elem_of_app H5 H6; [by apply H4|].
           apply list_elem_of_singleton in Hv' as ->. cbn. lia.
      * split_and!; [apply elem_of_app; right; by left|done|done|]. intros v' [Hv'|Hv']%elem_of_app H5 H6.
        -- destruct (Hc v' Hv' H5) as [x Hx]. rewrite H6, E in Hx. done.
        -- apply list_elem_of_singleton in Hv' as ->. cbn. lia.
    + intros Hv. destruct (Hs key v Hv) as (H1 & H2 & H3 & H4). split_and!; [apply elem_of_app; by left|done|done|].
      intros v' [Hv'|Hv']%elem_of_app H5 H6; [by apply H4|]. apply list_elem_of_singleton in Hv' as ->. done.
  - intros v [Hv|Hv]%elem_of_app Hsy; rewrite Hget; case_decide as Ek; try done; [by apply Hc|].
    apply list_elem_of_singleton in Hv as ->. by destruct Ek.
Qed.

Lemma foldl_merges newest : merges newest (foldl merge_visit [] newest).
Proof.
  induction newest as [|v newest IH] using rev_ind.
  - split; [apply jm_nil_wf|done|]. intros v Hv. by apply not_elem_of_nil in Hv.
  - rewrite foldl_app. by apply merge_visit_merges.
Qed.

(** [l] replays [newest]: its URLs are the web's, each canonical form once, at
    its newest time, oldest first. *)
Record replays (newest : list (string * Z)) (l : list (string * Z)) : Prop := {
  re_sorted : StronglySorted not_later l;
  re_once : NoDup (map (fun v => canonicalUrl v.1) l);
  re_sound : forall v, v ∈ l -> v ∈ newest /\ isSyncableUrl v.1 = true /\
    forall v', v' ∈ newest -> isSyncableUrl v'.1 = true -> canonicalUrl v'.1 = canonicalUrl v.1 -> v'.2 <= v.2;
  re_complete : forall v, v ∈ newest -> isSyncableUrl v.1 = true -> exists v', v' ∈ l /\ canonicalUrl v'.1 = canonicalUrl v.1;
}.

Lemma replay_order_replays newest : replays newest (replay_order newest).
Proof.
  unfold replay_order. pose proof (foldl_merges newest) as [Hw Hs Hc]. set (m := foldl merge_visit [] newest) in *.
  assert (forall v, v ∈ jm_values m <-> jm_get m (canonicalUrl v.1) = Some v) as Hin.
  { intros v. unfold jm_values. rewrite list_elem_of_fmap. split.
    - intros ([key v'] & -> & Hkv). cbn. apply jm_get_elem in Hkv; [|done]. pose proof (Hs _ _ Hkv) as (_ & _ & <- & _). done.
    - intros Hg%jm_get_Some_elem. by exists (canonicalUrl v.1, v). }
  split.
  - apply sort_by_time_sorted.
  - rewrite sort_by_time_perm. unfold jm_values, jm_wf, jm_keys in *. rewrite <- list_fmap_compose.
    rewrite (list_fmap_ext _ fst m); [done|]. intros i [key v] Hi. cbn.
    assert (jm_get m key = Some v) as Hg by (apply jm_get_elem; [done|by eapply list_elem_of_lookup_2]).
    by pose proof (Hs _ _ Hg) as (_ & _ & -> & _).
  - intros v Hv. rewrite sort_by_time_perm, Hin in Hv. destruct (Hs _ _ Hv) as (H1 & H2 & _ & H4). by split_and!.
  - intros v Hv Hsy. destruct (Hc v Hv Hsy) as [v' Hv']. exists v'. pose proof (Hs _ _ Hv') as (_ & _ & H3 & _). split; [|done].
    rewrite sort_by_time_perm, Hin. by rewrite H3.
Qed.
End order.

(** ** The run *)

Section run.
Context {Srv App : Type} `{Env : EngineEnv Srv App} `{HB : HistoryBrowser App} `{RA : ReplayApp App} `{UrlParser}.
(** The browser remembers what it was asked to add, and knows [known] URLs,
    or cannot say; [V]: what stays true throughout. *)
Context (asked : App -> list string) (known : string -> bool) (V : DB * App -> Prop) (shouldStop : Sync Srv App bool).

Record browser_replays : Prop := {
  br_looks : forall u x, V x -> let '(r, x') := history_getVisits u x in V x' /\ asked x'.2 = asked x.2 /\
    match r with inr visits => Nat.ltb 0 (length visits) = known u | inl _ => known u = true end;
  br_adds : forall u x, V x -> let '(_, x') := history_addUrl u x in V x' /\ asked x'.2 = asked x.2 ++ [u];
  br_state : forall st s a, V (s, a) -> V (s, replay_set st a) /\ asked (replay_set st a) = asked a;
  br_stop : forall w, V (w_db w, w_app w) -> exists stop, shouldStop w = (inr stop, w);
}.
Hypothesis Hbr : browser_replays.

Definition never_stops : Prop := forall w, V (w_db w, w_app w) -> shouldStop w = (inr false, w).

(** The world is the invariant's, with [l] asked for. *)
Record asks (l : list string) (w : World Srv App) : Prop := {
  as_valid : V (w_db w, w_app w);
  as_asked : asked (w_app w) = l;
}.
Abbreviation never := (fun (_ : sync_error) (_ : World Srv App) => False).

Lemma asks_stop l : triple (asks l) shouldStop (fun stop w => asks l w /\ (never_stops -> stop = false)) never.
Proof.
  intros w [Hv Ha]. pose proof (br_stop Hbr w Hv) as [stop E]. rewrite E. split; [done|]. intros Hn. rewrite (Hn w Hv) in E. by injection E as <-.
Qed.

Lemma asks_update {A} l (f : ReplayState -> A * ReplayState) X : triple (asks l) (replay_update f) (fun _ => asks l) X.
Proof.
  intros w [Hv Ha]. unfold replay_update. destruct (f _) as [a st]. destruct (br_state Hbr st _ _ Hv) as [Hv' Ha']. split; cbn; [done|congruence].
Qed.

Lemma asks_now l X : triple (asks l) now_next (fun _ => asks l) X.
Proof. intros w [Hv Ha]. done. Qed.

Lemma asks_known u l : triple (asks l) (already_known u) (fun b w => b = known u /\ asks l w) never.
Proof.
  intros w [Hv Ha]. unfold already_known, try_catch, bind, browser. pose proof (br_looks Hbr u _ Hv) as Hl.
  destruct (history_getVisits u _) as [[e|visits] [s' a']]; destruct Hl as (Hv' & Ha' & Hk); cbn in *; (split; [done|]); split; cbn; congruence || done.
Qed.

Lemma asks_all_known (vs : list (string * Z)) l :
  triple (asks l) (map_m (fun v => already_known v.1) vs) (fun bs w => bs = map (fun v => known v.1) vs /\ asks l w) never.
Proof.
  induction vs as [|v vs IH]; [by apply triple_ret|]. cbn [map_m]. eapply triple_bind; [apply asks_known|]. intros b.
  apply triple_pure. intros ->. eapply triple_bind; [exact IH|]. intros bs. apply triple_pure. intros ->. by apply triple_ret.
Qed.

(** The URLs the browser does not know. *)
Definition unknown (vs : list (string * Z)) : list string := map fst (filter (fun v => known v.1 = false) vs).

Lemma unknown_app vs1 vs2 : unknown (vs1 ++ vs2) = unknown vs1 ++ unknown vs2.
Proof. unfold unknown. by rewrite filter_app, map_app. Qed.

Lemma zip_unknown vs : map fst (map fst (List.filter (fun vk => negb vk.2) (zip vs (map (fun v => known v.1) vs)))) = unknown vs.
Proof.
  unfold unknown. induction vs as [|v vs IH]; [done|]. rewrite filter_cons. cbn [map zip_with List.filter snd fst].
  destruct (known v.1); cbn [negb map fst]; rewrite IH; by case_decide.
Qed.

Lemma check_spec slices toAdd l : triple (asks l) (fold_until (check_slice shouldStop) slices toAdd)
  (fun r w => asks l w /\ (r.2 = false -> r.1 = toAdd ++ unknown (concat slices)) /\ (never_stops -> r.2 = false)) never.
Proof.
  revert toAdd. induction slices as [|slice slices IH]; intros toAdd; cbn [fold_until].
  - apply triple_ret. intros w Hw. cbn. by rewrite app_nil_r.
  - unfold check_slice at 1. eapply triple_bind with (Q := fun r w => asks l w /\ (never_stops -> r.2 = false) /\
      (r.2 = false -> r.1 = toAdd ++ unknown slice)).
    { eapply triple_bind; [apply asks_stop|]. intros [|]; [apply triple_ret; intros w [Hw Hn]; cbn; by split_and!|].
      eapply triple_bind with (Q := fun bs w => bs = map (fun v => known v.1) slice /\ asks l w); [|].
      { intros w [Hw _]. exact (asks_all_known slice l w Hw). }
      intros bs. apply triple_pure. intros ->. apply triple_ret. intros w Hw. cbn. by rewrite zip_unknown. }
    intros [toAdd' [|]]; cbn [fst snd].
    + apply triple_ret. intros w (Hw & Hn & _). by split_and!.
    + intros w (Hw & _ & E). specialize (E eq_refl). cbn in E. subst toAdd'. pose proof (IH (toAdd ++ unknown slice) w Hw) as Hr.
      destruct (fold_until _ _ _ w) as [[e|r] w']; [done|]. destruct Hr as (H1 & H2 & H3). cbn [concat]. rewrite unknown_app, app_assoc. by split_and!.
Qed.

Lemma add_one_spec url n l : triple (asks l) (add_one url n) (fun n' w => asks (l ++ [url]) w /\ n <= n' <= n + 1) never.
Proof.
  unfold add_one. eapply triple_bind; [apply asks_now|]. intros t. eapply triple_bind; [apply asks_update|]. intros window.
  apply (triple_try_catch _ _ _ _ (fun _ => asks (l ++ [url]))).
  - eapply triple_bind with (Q := fun _ => asks (l ++ [url])).
    + intros w [Hv Ha]. unfold browser. pose proof (br_adds Hbr url _ Hv) as Hb. destruct (history_addUrl url _) as [r [s' a']].
      destruct Hb as [Hv' Ha']. destruct r; split; cbn in *; congruence || done.
    + intros []. eapply triple_bind; [apply asks_now|]. intros now. eapply triple_bind; [apply asks_update|]. intros []. apply triple_ret.
      intros w Hw. split; [done|lia].
  - intros e. eapply triple_bind; [apply asks_update|]. intros []. apply triple_ret. intros w Hw. split; [done|lia].
Qed.

Lemma add_loop_spec toAdd i n l : triple (asks l) (add_loop shouldStop i toAdd n)
  (fun n' w => exists done, done `prefix_of` toAdd /\ asks (l ++ done) w /\ n <= n' <= n + len done /\ (never_stops -> done = toAdd)) never.
Proof.
  revert i n l. induction toAdd as [|url toAdd IH]; intros i n l; cbn [add_loop].
  - apply triple_ret. intros w Hw. exists []. rewrite app_nil_r. split_and!; [done|done|lia|unfold len; cbn; lia|done].
  - eapply triple_bind with (Q := fun stop w => asks l w /\ (never_stops -> stop = false)).
    { destruct (Nat.eqb _ _); [apply asks_stop|by apply triple_ret]. }
    intros [|].
    + apply triple_ret. intros w [Hw Hn]. exists []. rewrite app_nil_r. split_and!; [by eexists|done|lia|unfold len; cbn; lia|].
      intros Hns. specialize (Hn Hns). done.
    + eapply triple_bind with (Q := fun n' w => asks (l ++ [url]) w /\ n <= n' <= n + 1).
      { intros w [Hw _]. exact (add_one_spec url n l w Hw). }
      intros n' w [Hw Hn']. pose proof (IH (S i) n' (l ++ [url]) w Hw) as Hr. destruct (add_loop _ _ _ _ w) as [[e|n2] w']; [done|].
      destruct Hr as (done & [r ->] & Ha & Hn2 & Hall). exists (url :: done). split_and!.
      * by exists r.
      * by rewrite <- app_assoc in Ha.
      * lia.
      * unfold len in *. cbn [length]. lia.
      * intros Hns. by rewrite <- Hall.
Qed.

(** Replaying adds exactly the URLs that are missing. It never fails;
    what it asks the browser to add, in order, are the URLs of the noted
    visits that the browser has no visit of (and could be asked about): of
    each canonical form of a web URL one, at its newest visit, the oldest
    first, each once. It stops early only when told to, and counts no more
    than it asked for. *)
Lemma replay_run newest w : V (w_db w, w_app w) ->
  exists order, replays newest order /\
  match replayVisitsIntoBrowserHistory shouldStop newest w with
  | (inr n, w') => V (w_db w', w_app w') /\ exists added, added `prefix_of` unknown order /\
      asked (w_app w') = asked (w_app w) ++ added /\ 0 <= n <= len added /\ (never_stops -> added = unknown order)
  | (inl _, _) => False
  end.
Proof.
  intros Hv. exists (replay_order newest). split; [apply replay_order_replays|].
  assert (triple (asks (asked (w_app w))) (replayVisitsIntoBrowserHistory shouldStop newest)
    (fun n w' => exists added, added `prefix_of` unknown (replay_order newest) /\ asks (asked (w_app w) ++ added) w' /\
      0 <= n <= len added /\ (never_stops -> added = unknown (replay_order newest))) never) as Ht.
  { unfold replayVisitsIntoBrowserHistory. eapply triple_bind; [apply check_spec|]. intros [toAdd [|]]; cbn [fst snd].
    - apply triple_ret. intros w' (Hw & _ & Hn). exists []. rewrite app_nil_r. split_and!; [by eexists|done|done|done|].
      intros Hns. specialize (Hn Hns). done.
    - intros w1 (Hw1 & E & _). specialize (E eq_refl). cbn in E. rewrite slices_concat in E by (unfold EXISTS_CHECK_CONCURRENCY; lia). subst toAdd.
      revert w1 Hw1. change (triple (asks (asked (w_app w))) (let! now := now_next in
        do! replay_update (fun st => (tt, sweepStaleWindows now st)) in add_loop shouldStop 0 (unknown (replay_order newest)) 0)
        (fun n w' => exists added, added `prefix_of` unknown (replay_order newest) /\ asks (asked (w_app w) ++ added) w' /\
          0 <= n <= len added /\ (never_stops -> added = unknown (replay_order newest))) never).
      eapply triple_bind; [apply asks_now|]. intros now. eapply triple_bind; [apply asks_update|]. intros []. apply add_loop_spec. }
  specialize (Ht w (Build_asks _ _ Hv eq_refl)). destruct (replayVisitsIntoBrowserHistory _ _ w) as [[e|n] w']; [done|].
  destruct Ht as (added & H1 & [H2 H3] & H4 & H5). split; [done|]. by exists added.
Qed.
End run.

(** * What a peer reads of a bulk import

    Every visit that was sealed into a chunk comes out of it at the other
    device, in order, and out of no other operation. *)

(** The platform's compression, as documented. *)
Class DeflateLaws `{Deflate} : Prop := {
  inflate_deflate b : inflateRaw (deflateRaw b) = Some b;
  deflate_bytes b : Forall is_byte b -> Forall is_byte (deflateRaw b);
}.

Section peer.
Context {Srv App : Type} `{Env : EngineEnv Srv App} `{Defl : Deflate} `{DatePlatform}.
Context {Hcrypto : CryptoLaws} {Hdeflate : DeflateLaws}.
Hypothesis nonce_bytes : forall n, Forall is_byte (env_nonce n).

(** ** A segment's text *)

(** The visits of a group, as the peer's callback gets them. *)
Definition entries_of (g : CollectedGroup) : list DecryptedEntry :=
  map (fun t => mkEntry (JStr (cg_url g)) (of_opt_str (cg_title g)) (Some t)) (cg_times g).

Definition safe_times (seg : list CollectedGroup) : Prop := Forall (fun g => Forall (fun t => Z.abs t <= MAX_SAFE) (cg_times g)) seg.

Lemma strip_nums ts : map json_strip (map JNum ts) = map JNum ts.
Proof. by rewrite map_map. Qed.

Lemma strip_group g : json_strip (group_jsval g) =
  JObj (("u", JStr (cg_url g)) :: (match cg_title g with Some t => [("t", JStr t)] | None => [] end) ++ [("v", JArr (map JNum (cg_times g)))]).
Proof. unfold group_jsval. destruct (cg_title g); cbn [json_strip of_opt_str from_option app]; by rewrite strip_nums. Qed.

Lemma strip_segment seg : json_strip (segment_jsval seg) =
  JObj [("v", JNum 2); ("groups", JArr (map (fun g => json_strip (group_jsval g)) seg))].
Proof. unfold segment_jsval. cbn [json_strip]. by rewrite map_map. Qed.

Lemma clean_nums ts : Forall (fun t => Z.abs t <= MAX_SAFE) ts -> json_clean (JArr (map JNum ts)) = true.
Proof. intros Hs. cbn [json_clean]. apply forallb_forall. intros v (t & <- & Ht)%in_map_iff. rewrite Forall_forall in Hs.
  apply Z.leb_le, Hs. by apply list_elem_of_In. Qed.

Lemma clean_group g : Forall (fun t => Z.abs t <= MAX_SAFE) (cg_times g) -> json_clean (json_strip (group_jsval g)) = true.
Proof.
  intros Hs. rewrite strip_group. pose proof (clean_nums _ Hs) as Hc. set (ts := JArr _) in *. clearbody ts.
  destruct (cg_title g); cbn; rewrite Hc; done.
Qed.

Lemma clean_segment seg : safe_times seg -> json_clean (json_strip (segment_jsval seg)) = true.
Proof.
  intros Hs. rewrite strip_segment. cbn [json_clean map fst snd forallb].
  replace (forallb json_clean _) with true; [done|]. symmetry. apply forallb_forall. intros v (g & <- & Hg)%in_map_iff.
  apply clean_group. unfold safe_times in Hs. rewrite Forall_forall in Hs. by apply Hs, list_elem_of_In.
Qed.

Lemma decode_group g : group_entries (json_strip (group_jsval g)) = Some (entries_of g).
Proof. rewrite strip_group. unfold group_entries, read_prop. destruct (cg_title g) eqn:E; cbn [app]; jget_simpl; unfold entries_of; rewrite E, map_map; done. Qed.

Lemma decode_segment seg : decodeSegmentPlaintext (json_strip (segment_jsval seg)) = Some (seg ≫= entries_of).
Proof.
  rewrite strip_segment. unfold decodeSegmentPlaintext, read_prop. jget_simpl. cbn [js_eq_num Z.eqb Pos.eqb].
  replace (mapM _ _) with (Some (map entries_of seg)); [cbn; by rewrite flat_map_concat_map|]. symmetry.
  induction seg as [|g seg IH]; [done|]. cbn [map mapM]. rewrite decode_group. cbn. cbn in IH. by rewrite IH.
Qed.

Lemma segment_plain_bytes seg : Forall is_byte (segment_plain seg).
Proof. unfold segment_plain. destruct supportsDeflateRaw; [apply deflate_bytes|]; apply utf8_encode_bytes. Qed.

Lemma read_segment_plain seg : safe_times seg ->
  read_segment (if supportsDeflateRaw then JStr "deflate-raw" else JUndef) (segment_plain seg) = Some (seg ≫= entries_of).
Proof.
  intros Hs. unfold read_segment, segment_plain, is_deflate_raw. destruct supportsDeflateRaw; cbn [js_eq_str];
    rewrite ?String.eqb_refl, ?inflate_deflate, utf8_decode_encode, JSON_parse_strip by (by apply clean_segment); apply decode_segment.
Qed.

(** ** Opening a segment *)

Section opened.
Context (ak : string) (kv : Z) (sdek : bytes) (oid : string).
Hypothesis Hsdek : deriveSdek ak kv = Some sdek.
Abbreviation codec := (if supportsDeflateRaw then JStr "deflate-raw" else JUndef).

Lemma strip_envelope nonce plain aad : json_strip (encryptBytesWithSdek None nonce plain sdek kv aad) = encryptBytesWithSdek None nonce plain sdek kv aad.
Proof. reflexivity. Qed.

Lemma open_sealed seg envelope oid' : sealed kv sdek oid seg envelope -> safe_times seg ->
  open_segment envelope codec oid' sdek = inr (if decide (oid = oid') then Some (seg ≫= entries_of) else None).
Proof.
  intros [n ->] Hs. unfold open_segment. rewrite decryptBytes_encryptBytes;
    [|apply nonce_bytes|apply segment_plain_bytes|apply buildOperationAad_bytes].
  case_decide as E.
  - apply buildOperationAad_inj in E as (_ & -> & _). rewrite decide_True by done. by rewrite read_segment_plain.
  - rewrite decide_False; [done|]. by intros ->.
Qed.

(** The key comes from the cache or is derived: the same, and only the cache
    changes. *)
Definition cached (w w' : World Srv App) : Prop := exists cache, w' = set_sdek cache w /\ cache_ok cache.

Lemma getSdekM_derives (w : World Srv App) : cache_ok (w_sdek w) ->
  exists w', getSdekM ak kv w = (inr sdek, w') /\ cached w w'.
Proof.
  intros Hc. unfold getSdekM. pose proof (getSdek_spec ak kv (w_sdek w) Hc) as Hg. destruct (getSdek _ _ _ _) as [[sdek' cache]|].
  - destruct Hg as [E Hok]. rewrite Hsdek in E. injection E as <-. eexists. split; [done|]. by exists cache.
  - by rewrite Hsdek in Hg.
Qed.

Lemma decrypt_sealed seg envelope oid' (w : World Srv App) : sealed kv sdek oid seg envelope -> safe_times seg -> cache_ok (w_sdek w) ->
  exists w', decryptSegment envelope ak codec oid' w = (inr (if decide (oid = oid') then Some (seg ≫= entries_of) else None), w') /\ cached w w'.
Proof.
  intros Hseal Hs Hc. destruct (getSdekM_derives w Hc) as (w' & E & Hw'). exists w'. split; [|done].
  unfold decryptSegment. pose proof Hseal as [n En].
  assert (has_ciphertext envelope = true) as -> by by rewrite En.
  assert (jget envelope "keyVersion" = JNum kv) as -> by (rewrite En; unfold encryptBytesWithSdek; by jget_simpl).
  cbn [negb]. rewrite E. by rewrite (open_sealed seg).
Qed.

(** ** A whole container *)

Context {C : Type} (onVisit : DecryptedEntry -> C -> C) (isAborted : Sync Srv App bool).
(** The device stays connected, which nothing here can change. *)
Context (live : World Srv App -> Prop).
Hypothesis live_cached : forall w w', live w -> cached w w' -> live w'.
Hypothesis not_aborted : forall w, live w -> isAborted w = (inr false, w).

Definition visit_all (entries : list DecryptedEntry) (acc : C) : C := foldl (fun acc entry => onVisit entry acc) acc entries.

Lemma cached_trans w1 w2 w3 : cached w1 w2 -> cached w2 w3 -> cached w1 w3.
Proof. intros (c1 & -> & _) (c2 & -> & H2). by exists c2. Qed.

Lemma expand_sealed oid' segs envelopes : Forall2 (sealed kv sdek oid) segs envelopes -> Forall safe_times segs ->
  forall acc w, live w -> cache_ok (w_sdek w) ->
  exists w', fold_until (expand_segment onVisit isAborted ak codec oid') envelopes acc w =
    (inr (if decide (oid = oid') then visit_all (concat segs ≫= entries_of) acc else acc, false), w') /\ cached w w'.
Proof.
  induction 1 as [|seg envelope segs envelopes Hseal _ IH]; intros Hs acc w Hl Hc.
  - exists w. split; [by case_decide|]. exists (w_sdek w). split; [by destruct w|done].
  - apply Forall_cons in Hs as [Hseg Hs]. destruct (decrypt_sealed seg envelope oid' w Hseal Hseg Hc) as (w1 & E1 & Hw1).
    assert (cache_ok (w_sdek w1)) as Hc1 by by destruct Hw1 as (c & -> & ?).
    destruct (IH Hs (if decide (oid = oid') then visit_all (seg ≫= entries_of) acc else acc) w1) as (w2 & E2 & Hw2); [by eapply live_cached|done|].
    exists w2. split; [|by eapply cached_trans]. cbn [fold_until]. unfold expand_segment at 1, bind at 1, bind at 1.
    rewrite not_aborted by done. cbn [bind]. unfold bind at 1. rewrite E1. cbn [ret].
    case_decide; cbn [snd fst] in *; unfold visit_all in *; cbn [snd fst]; rewrite E2; [|done].
    cbn [concat]. by rewrite bind_app, foldl_app.
Qed.
End opened.

(** ** The import, at the other device *)

Lemma sealed_clean kv sdek oid seg envelope : Z.abs kv <= MAX_SAFE -> sealed kv sdek oid seg envelope ->
  json_strip envelope = envelope /\ json_clean envelope = true.
Proof.
  intros Hkv [n ->]. split; [apply strip_envelope|]. unfold encryptBytesWithSdek. cbn -[MAX_SAFE]. 
  by rewrite (proj2 (Z.leb_le _ _) Hkv).
Qed.

Lemma wire_container kv sdek oid segs envelopes n : Z.abs kv <= MAX_SAFE -> Z.abs n <= MAX_SAFE ->
  Forall2 (sealed kv sdek oid) segs envelopes -> let c := container_jsval supportsDeflateRaw n envelopes in
  JSON_parse (JSON_stringify c) = Some (json_strip c) /\ isBulkContainer (json_strip c) = true /\
  jget (json_strip c) "codec" = (if supportsDeflateRaw then JStr "deflate-raw" else JUndef) /\
  EngineDownload.segments_of (json_strip c) = envelopes.
Proof.
  intros Hkv Hn Hs c. assert (map json_strip envelopes = envelopes /\ forallb json_clean envelopes = true) as [Hm Hc].
  { clear c. induction Hs as [|seg e segs es Hseal _ [IH1 IH2]]; [done|]. destruct (sealed_clean _ _ _ _ _ Hkv Hseal) as [H1 H2].
    cbn. rewrite H1, IH1, H2, IH2. done. }
  assert (json_strip c = JObj ([("v", JNum 1); ("bulkVersion", JNum 2)] ++
    (if supportsDeflateRaw then [("codec", JStr "deflate-raw")] else []) ++ [("visitCount", JNum n); ("segments", JArr envelopes)])) as E.
  { unfold c, container_jsval. rewrite <- Hm at 2. by destruct supportsDeflateRaw. }
  split; [apply JSON_parse_strip|]; rewrite E; [|unfold isBulkContainer, EngineDownload.segments_of; by destruct supportsDeflateRaw].
  set (l := JArr envelopes) in *. assert (json_clean l = true) as Hl by done. clearbody l. apply Z.leb_le in Hn.
  destruct supportsDeflateRaw; cbn -[MAX_SAFE]; rewrite Hn, Hl; done.
Qed.

(** A peer reads back exactly what was imported. The payload of a chunk's
    operation, as JSON on the wire, is recognised as a bulk import, and
    expanding it under the operation's own object id calls back with every
    visit of the chunk's segments (URL, title and time), in order; under any
    other object id it opens nothing. *)
Lemma bulk_read_back {C : Type} (onVisit : DecryptedEntry -> C -> C) device cutoff kv sdek ak i segs op :
  deriveSdek ak kv = Some sdek -> chunk_for device cutoff kv sdek i segs op ->
  Z.abs kv <= MAX_SAFE -> Z.abs (visits segs) <= MAX_SAFE -> Forall safe_times segs ->
  exists p, JSON_parse (JSON_stringify (payload op)) = Some p /\ isBulkContainer p = true /\
  forall oid acc (w : World Srv App), is_Some (db_device (w_db w)) -> cache_ok (w_sdek w) ->
    exists w', forEachBulkVisit onVisit device_gone p ak oid acc w =
      (inr (if decide (objectId op = oid) then visit_all onVisit (concat segs ≫= entries_of) acc else acc, true), w') /\ cached w w'.
Proof.
  intros Hsdek [_ _ _ _ (envelopes & Hp & Hs)] Hkv Hn Hsafe. rewrite Hp.
  destruct (wire_container kv sdek _ segs envelopes _ Hkv Hn Hs) as (Hw & Hb & Hcodec & Hsegs).
  eexists. split; [exact Hw|]. split; [exact Hb|]. intros oid acc w Hd Hc. unfold forEachBulkVisit. rewrite Hcodec, Hsegs.
  destruct (expand_sealed ak kv sdek (objectId op) Hsdek onVisit device_gone (fun w => is_Some (db_device (w_db w)))) with
    (oid' := oid) (segs := segs) (envelopes := envelopes) (acc := acc) (w := w) as (w' & E & Hw'); try done.
  - intros w1 w2 Hl (c & -> & _). done.
  - intros w1 [d Ed]. unfold device_gone, bind, getDeviceM, db_read. by rewrite Ed.
  - exists w'. split; [|done]. unfold bind. by rewrite E.
Qed.
End peer.
