(* ===== verification/HistorySync.v ===== *)
(** * History sync (extension/src/history/index.ts)

    Capture of the user's visits, the two imports, and the applier for other
    devices' visits. The settings request is the API client's; logging and the
    keep-alive timer are left out. *)

From S2P Require Import Prelude JsMap Types Util Json Scheduling Dates Storage Crypto Engine EngineDownload RestorePoints History HistoryReplay.

Open Scope Z_scope.
Open Scope js_scope.

(** ** The module's state *)

Record QueuedVisitEvent := mkVisitEvent {
  qv_url : string;
  qv_title : option string;
  qv_visitTime : Z;
}.

Record CaptureState := mkCapture {
  historyCaptureEnabled : bool;
  captureRegistered : bool;
  visitListeners : nat;                 (** added to [onVisited] *)
  visitEvents : MicroBatch QueuedVisitEvent;
}.

Class CaptureApp (App : Type) := {
  capture_get : App -> CaptureState;
  capture_set : CaptureState -> App -> App;
}.

Definition VISIT_UUID_CONCURRENCY : nat := 50.

Section sync.
Context {Srv App : Type} `{Env : EngineEnv Srv App} `{HB : HistoryBrowser App} `{RA : ReplayApp App} `{CA : CaptureApp App}.
Context `{SA : SettingsApi sync_error (DB * App)} `{Sizes : BulkSizes} `{Defl : Deflate} `{Dates : DatePlatform} `{Urls : UrlParser}.

(** ** Capture *)

(** [None]: the time is no date. *)
Definition makeVisitOperation (url : string) (title : option string) (visitTimeMs : Z) (deviceId : string) :
    option PendingLocalOperation :=
  match toISOString visitTimeMs, hourKey visitTimeMs with
  | Some visitedAt, Some hour =>
      let objectId := deterministicUuid (fun s => sha256 (utf8_encode s)) ["historyVisit"; url; visitedAt; deviceId] in
      let payload := JObj [("url", JStr url); ("title", of_opt_str title); ("visitedAt", JStr visitedAt)] in
      Some (mkPendingLocal OtHistoryVisit objectId OpVisit payload (Some [(hour, 1)]))
  | _, _ => None
  end.

Definition isHistorySyncEnabled : Sync Srv App bool :=
  try_catch (let! settings := browser (fetchSettings false) in ret (not_off (syncHistory settings))) (fun _ => ret true).

(** Visits before the boundary are the bulk import's. *)
Definition fresh_events (device : DeviceRecord) (items : list QueuedVisitEvent) : list QueuedVisitEvent :=
  match historyBulkEndMs device with
  | Some endMs => List.filter (fun item => endMs <=? qv_visitTime item) items
  | None => items
  end.

Definition visit_operation (deviceId : string) (item : QueuedVisitEvent) : Sync Srv App PendingLocalOperation :=
  match makeVisitOperation (qv_url item) (qv_title item) (qv_visitTime item) deviceId with
  | Some op => ret op
  | None => throw range_error
  end.

Definition flushVisitEvents (items : list QueuedVisitEvent) : Sync Srv App unit :=
  let! enabled := isHistorySyncEnabled in
  if negb enabled then ret tt
  else
    let! device := getDeviceM in
    match device with
    | None => ret tt
    | Some device =>
        match fresh_events device items with
        | [] => ret tt
        | fresh =>
            let! pending := fold_m (fun slice pending =>
                let! sliceOps := map_m (visit_operation (deviceId device)) slice in ret (pending ++ sliceOps))
              (slices fresh VISIT_UUID_CONCURRENCY) [] in
            do! createLocalOperationsBatch pending true in ret tt
        end
    end.

Definition capture_update (f : CaptureState -> CaptureState) : Sync Srv App unit := fun w =>
  (inr tt, set_db_app (w_db w, capture_set (f (capture_get (w_app w))) (w_app w)) w).
Definition capture_read {A} (f : CaptureState -> A) : Sync Srv App A := fun w => (inr (f (capture_get (w_app w))), w).

Definition setHistoryCaptureEnabled (enabled : bool) : Sync Srv App unit :=
  capture_update (fun s => mkCapture enabled (captureRegistered s) (visitListeners s) (visitEvents s)).

Definition enqueueVisitEvent (item : QueuedVisitEvent) : Sync Srv App unit :=
  capture_update (fun s => mkCapture (historyCaptureEnabled s) (captureRegistered s) (visitListeners s)
    (enqueue item (visitEvents s))).

(** The queue's [flushNow]: the batch leaves the queue whatever comes of it. *)
Definition flushVisitQueue : Sync Srv App unit :=
  let! batch := (fun w =>
    let s := capture_get (w_app w) in
    let '(batch, q) := flushNow (visitEvents s) in
    (inr batch, set_db_app (w_db w, capture_set
      (mkCapture (historyCaptureEnabled s) (captureRegistered s) (visitListeners s) q) (w_app w)) w)) in
  match batch with
  | Some items => try_catch (flushVisitEvents items) (fun _ => ret tt)
  | None => ret tt
  end.

(** The [onVisited] listener. *)
Definition onVisited (item : HistoryItem) : Sync Srv App unit :=
  match hi_url item with
  | None => ret tt
  | Some url =>
      if String.eqb url "" then ret tt
      else
        let! echo := replay_update (consumeReplayEcho url (hi_lastVisitTime item)) in
        if (echo : bool) then ret tt
        else
          let! enabled := capture_read historyCaptureEnabled in
          if negb enabled then ret tt
          else
            let! visitTime := (match hi_lastVisitTime item with Some t => ret t | None => now_next end) in
            enqueueVisitEvent (mkVisitEvent url (hi_title item) visitTime)
  end.

Definition registerCapture : Sync Srv App unit :=
  capture_update (fun s =>
    if captureRegistered s then s
    else mkCapture (historyCaptureEnabled s) true (S (visitListeners s)) (visitEvents s)).

(** ** The imports *)

Definition backfillCutoffMs : Sync Srv App Z :=
  try_catch
    (let! settings := browser (fetchSettings false) in
     let! now := now_next in ret (retentionCutoffMs now (historyRetention settings)))
    (fun _ => ret 0).

Definition backfillExisting (fuel : nat) : Sync Srv App unit :=
  let! enabled := isHistorySyncEnabled in
  if negb enabled then ret tt
  else
    let! device := getDeviceM in
    match device with
    | None => ret tt
    | Some _ =>
        let! cutoffMs := backfillCutoffMs in
        backfillHistoryBulk fuel cutoffMs
    end.

Definition importOlderHistory (fuel passes : nat) : Sync Srv App unit :=
  let! enabled := isHistorySyncEnabled in
  if negb enabled then ret tt
  else
    let! settings := browser (fetchSettings true) in
    let! now := now_next in
    importOlderHistoryBulk fuel passes (retentionCutoffMs now (historyRetention settings)).

(** ** Other devices' visits *)

Definition isBulkImport (op : OperationOut) (payload : jsval) : bool :=
  bool_decide (out_operationType op = OpBulkImport) && isBulkContainer payload.

Definition with_bulk_end (endMs : Z) (d : DeviceRecord) : DeviceRecord :=
  with_bulk_scope (historyBulkCutoffMs d) (Some endMs) d.

Definition ensureHistoryBulkBoundary : Sync Srv App unit :=
  let! device := getDeviceM in
  match device with
  | None => ret tt
  | Some device =>
      if import_completed device then ret tt
      else
        match historyBulkEndMs device with
        | Some _ => ret tt
        | None => let! now := now_next in putDeviceM (with_bulk_end now device)
        end
  end.

Definition replayIntoBrowserHistory (newestByUrl : NewestVisitByUrl) : Sync Srv App unit :=
  match newestByUrl with
  | [] => ret tt
  | _ =>
      try_catch
        (let! enabled := isHistorySyncEnabled in
         if negb enabled then ret tt
         else
           do! ensureHistoryBulkBoundary in
           do! replayVisitsIntoBrowserHistory device_gone newestByUrl in ret tt)
        (fun _ => ret tt)
  end.

(** [Date.parse(visitedAt ?? "")]; what is no string is made one first. *)
Definition visited_time (visitedAt : jsval) : option Z :=
  match visitedAt with
  | JUndef | JNull => Date_parse ""
  | JStr s => Date_parse s
  | JNum n => Date_parse (json_num n)
  | JBool b => Date_parse (if b then "true" else "false")
  | JArr _ | JObj _ => None
  end.

(** A URL that is no string, which no client writes, is no URL to replay. *)
Definition note_entry (entry : DecryptedEntry) (newest : NewestVisitByUrl) : NewestVisitByUrl :=
  match de_url entry with JStr url => noteVisit newest url (de_t entry) | _ => newest end.

Definition note_payload (payload : jsval) (newest : NewestVisitByUrl) : NewestVisitByUrl :=
  match jget payload "url" with
  | JStr url => noteVisit newest url (visited_time (jget payload "visitedAt"))
  | _ => newest
  end.

(** The second result is true where the function returned. *)
Definition read_remote (item : OperationOut * jsval) (newest : NewestVisitByUrl) : Sync Srv App (NewestVisitByUrl * bool) :=
  let '(op, payload) := item in
  if isBulkImport op payload then
    let! peerDevice := getDeviceM in
    match peerDevice with
    | None => ret (newest, true)
    | Some peerDevice =>
        let! r := forEachBulkVisit note_entry device_gone payload (accountKey peerDevice) (out_objectId op) newest in
        ret (r.1, negb r.2)
    end
  else ret (note_payload payload newest, false).

Definition remote_items (device : option DeviceRecord) (items : list (OperationOut * jsval)) : list (OperationOut * jsval) :=
  match device with
  | Some device => List.filter (fun item => negb (String.eqb (out_deviceId item.1) (deviceId device))) items
  | None => items
  end.

Definition applyRemoteBatch (items : list (OperationOut * jsval)) : Sync Srv App unit :=
  let! device := getDeviceM in
  match remote_items device items with
  | [] => ret tt
  | remoteItems =>
      let! r := fold_until read_remote remoteItems [] in
      if r.2 then ret tt else replayIntoBrowserHistory r.1
  end.

Definition applyRemote (op : OperationOut) (payload : jsval) : Sync Srv App unit := applyRemoteBatch [(op, payload)].
End sync.
