(* ===== verification/HistorySyncFacts.v ===== *)
(** * Other devices' visits, end to end

    Applying downloaded operations puts into the browser what other devices'
    visits and imports hold, and what live capture uploads never overlaps the
    bulk import. *)

From stdpp Require Import sorting.
From S2P Require Import Prelude JsMap Types Util Json Scheduling Dates Storage StorageFacts Crypto CryptoFacts Engine EngineDownload RestorePoints EngineKeeps History HistoryEnumFacts HistoryPagingFacts HistoryUploadFacts HistoryBulkFacts HistoryReplay HistoryReplayFacts HistorySync.

Open Scope Z_scope.
Open Scope js_scope.

Section apply.
Context {Srv App : Type} `{Env : EngineEnv Srv App} `{HB : HistoryBrowser App} `{RA : ReplayApp App} `{CA : CaptureApp App}.
Context `{SA : SettingsApi sync_error (DB * App)} `{Sizes : BulkSizes} `{Defl : Deflate} `{Dates : DatePlatform} `{Urls : UrlParser}.
Context {Hcrypto : CryptoLaws} {Hdeflate : DeflateLaws}.
Hypothesis nonce_bytes : forall n, Forall is_byte (env_nonce n).

(** ** The visits of an operation *)

Definition payload_visits (payload : jsval) : list (string * option Z) :=
  match jget payload "url" with
  | JStr url => [(url, visited_time (jget payload "visitedAt"))]
  | _ => []
  end.

(** The visits of a chunk's segments. *)
Definition segment_visits (segs : list (list CollectedGroup)) : list (string * option Z) :=
  concat segs ≫= fun g => map (fun t => (cg_url g, Some t)) (cg_times g).

(** What a downloaded operation and its payload hold for an account whose key
    is [ak]: a single visit, or the visits of a chunk that some device sealed,
    if it is offered under the id it was sealed for. *)
Inductive holds (ak : string) : OperationOut * jsval -> list (string * option Z) -> Prop :=
  | holds_visit op payload : isBulkImport op payload = false -> holds ak (op, payload) (payload_visits payload)
  | holds_bulk op payload0 sealer cutoff kv sdek i segs op0 :
      out_operationType op = OpBulkImport ->
      deriveSdek ak kv = Some sdek -> chunk_for sealer cutoff kv sdek i segs op0 ->
      Z.abs kv <= MAX_SAFE -> Z.abs (visits segs) <= MAX_SAFE -> Forall safe_times segs ->
      JSON_parse (JSON_stringify (payload op0)) = Some payload0 ->
      holds ak (op, payload0) (if decide (objectId op0 = out_objectId op) then segment_visits segs else []).

Lemma note_payload_all p newest : note_payload p newest = note_all (payload_visits p) newest.
Proof. unfold note_payload, payload_visits. by destruct (jget p "url"). Qed.

Lemma visit_all_note segs newest : visit_all note_entry (concat segs ≫= entries_of) newest = note_all (segment_visits segs) newest.
Proof.
  unfold visit_all, segment_visits. generalize (concat segs) as gs. intros gs. revert newest.
  induction gs as [|g gs IH]; intros newest; [done|]. cbn [mbind list_bind]. unfold note_all in *. rewrite !foldl_app, IH. f_equal.
  unfold entries_of. clear. revert newest. induction (cg_times g) as [|t ts IH]; intros newest; [done|]. cbn. by rewrite IH.
Qed.

(** ** Reading a batch *)

Context (me ak : string).
Definition is_me (d : DeviceRecord) : Prop := deviceId d = me /\ accountKey d = ak.
Definition connected (w : World Srv App) : Prop := exists d, db_device (w_db w) = Some d /\ is_me d.

Lemma cached_connected w w' : connected w -> cached w w' -> connected w' /\ cache_ok (w_sdek w').
Proof. intros Hc (c & -> & Hok). done. Qed.

Lemma cached_refl (w : World Srv App) : cache_ok (w_sdek w) -> cached w w.
Proof. intros Hok. exists (w_sdek w). split; [by destruct w|done]. Qed.

Lemma read_one item vs newest w : holds ak item vs -> connected w -> cache_ok (w_sdek w) ->
  exists w', read_remote item newest w = (inr (note_all vs newest, false), w') /\ cached w w'.
Proof.
  intros Hh Hc Hok. destruct Hh as [op p Hb|op p sealer cutoff kv sdek i segs op0 Hop Hsdek Hchunk Hkv Hn Hsafe Hwire]; unfold read_remote.
  - rewrite Hb. exists w. split; [by rewrite note_payload_all|by apply cached_refl].
  - destruct (bulk_read_back nonce_bytes note_entry sealer cutoff kv sdek ak i segs op0 Hsdek Hchunk Hkv Hn Hsafe) as (p' & Hw' & Hb & Hread).
    rewrite Hwire in Hw'. injection Hw' as <-. unfold isBulkImport. rewrite bool_decide_true, Hb by done. cbn [andb].
    destruct Hc as (d & Hd & _ & Hak). destruct (Hread (out_objectId op) newest w) as (w' & E & Hw'); [by eexists|done|].
    exists w'. split; [|done]. unfold bind at 1, getDeviceM, db_read. rewrite Hd, Hak. unfold bind. rewrite E. cbn [fst snd negb].
    case_decide; [by rewrite visit_all_note|done].
Qed.

Lemma read_batch items vss : Forall2 (holds ak) items vss -> forall newest w, connected w -> cache_ok (w_sdek w) ->
  exists w', fold_until read_remote items newest w = (inr (note_all (concat vss) newest, false), w') /\ cached w w'.
Proof.
  induction 1 as [|item vs items vss Hh _ IH]; intros newest w Hc Hok.
  - exists w. split; [done|by apply cached_refl].
  - destruct (read_one item vs newest w Hh Hc Hok) as (w1 & E1 & Hw1). destruct (cached_connected _ _ Hc Hw1) as [Hc1 Hok1].
    destruct (IH (note_all vs newest) w1 Hc1 Hok1) as (w2 & E2 & Hw2). exists w2. split; [|by eapply cached_trans].
    cbn [fold_until]. unfold bind. rewrite E1. cbn [snd fst]. rewrite E2. cbn [concat]. unfold note_all. by rewrite foldl_app.
Qed.

(** ** Applying it *)

Context (asked : App -> list string) (known : string -> bool) (V : DB * App -> Prop).

(** The device stays connected, history sync is on as far as the server can be
    asked, and the browser behaves. *)
Record peer_ready : Prop := {
  pr_browser : browser_replays asked known V (device_gone (Srv := Srv));
  pr_device : forall s a, V (s, a) -> exists d, db_device s = Some d /\ is_me d;
  pr_boundary : forall d now s a, V (s, a) -> db_device s = Some d -> V (set_device (Some (with_bulk_end now d)) s, a);
  pr_settings : forall b x, V x -> let '(r, x') := fetchSettings b x in V x' /\ asked x'.2 = asked x.2 /\
    match r with inr settings => not_off (syncHistory settings) = true | inl _ => True end;
}.
Hypothesis Hready : peer_ready.
Abbreviation asks := (asks (Srv := Srv) asked V).

Lemma enabled_spec l X : triple (asks l) isHistorySyncEnabled (fun b w => b = true /\ asks l w) X.
Proof.
  intros w [Hv Ha]. unfold isHistorySyncEnabled, try_catch, bind, browser. pose proof (pr_settings Hready false _ Hv) as Hs.
  destruct (fetchSettings false _) as [[e|settings] [s' a']]; destruct Hs as (Hv' & Ha' & He); cbn in *; (split; [done|]); split; cbn; congruence || done.
Qed.

Lemma boundary_spec l X : triple (asks l) ensureHistoryBulkBoundary (fun _ => asks l) X.
Proof.
  intros w [Hv Ha]. unfold ensureHistoryBulkBoundary, bind at 1, getDeviceM, db_read. destruct (pr_device Hready _ _ Hv) as (d & Hd & _).
  rewrite Hd. destruct (import_completed d); [by split|]. destruct (historyBulkEndMs d); [by split|].
  split; cbn; [|done]. by apply (pr_boundary Hready).
Qed.

Lemma connected_never_stops : never_stops V (device_gone (Srv := Srv)).
Proof. intros w Hv. destruct (pr_device Hready _ _ Hv) as (d & Hd & _). unfold device_gone, bind, getDeviceM, db_read. by rewrite Hd. Qed.

Lemma replay_spec newest w : asks (asked (w_app w)) w -> exists w' order, replayIntoBrowserHistory newest w = (inr tt, w') /\
  replays newest order /\ asks (asked (w_app w) ++ unknown known order) w'.
Proof.
  intros Hw. unfold replayIntoBrowserHistory. destruct newest as [|v newest].
  { exists w, []. split; [done|]. split; [|by rewrite app_nil_r]. pose proof (replay_order_replays []) as Hr. exact Hr. }
  set (all := v :: newest). unfold try_catch.
  pose proof (triple_bind (asks (asked (w_app w))) isHistorySyncEnabled (fun enabled => if negb enabled then ret tt else
      do! ensureHistoryBulkBoundary in do! replayVisitsIntoBrowserHistory device_gone all in ret tt)
    (fun b w' => b = true /\ asks (asked (w_app w)) w')
    (fun _ w' => exists order, replays all order /\ asks (asked (w_app w) ++ unknown known order) w') (fun _ _ => False)) as Hb.
  specialize (Hb (enabled_spec _ _)). apply Hb in Hw; clear Hb.
  - destruct (bind _ _ w) as [[e|[]] w']; [done|]. destruct Hw as (order & H1 & H2). by exists w', order.
  - intros b. apply triple_pure. intros ->. cbn [negb]. eapply triple_bind; [apply boundary_spec|]. intros [].
    intros w1 [Hv1 Ha1]. destruct (replay_run asked known V device_gone (pr_browser Hready) all w1 Hv1) as (order & Ho & Hrun).
    unfold bind. destruct (replayVisitsIntoBrowserHistory _ _ w1) as [[e|n] w2]; [done|]. destruct Hrun as (Hv2 & added & _ & Ha2 & _ & Hall).
    exists order. split; [done|]. split; [done|]. rewrite <- Ha1, <- (Hall connected_never_stops). done.
Qed.

End apply.

(** * What live capture uploads

    One sealed operation for each visit the user made since the import's
    boundary, and none for an earlier one: the imports have those. *)

Lemma mapM_app {A B} (f : A -> option B) l1 l2 :
  mapM f (l1 ++ l2) = match mapM f l1, mapM f l2 with Some k1, Some k2 => Some (k1 ++ k2) | _, _ => None end.
Proof.
  induction l1 as [|a l1 IH]; cbn [mapM app]; [by destruct (mapM f l2)|]. destruct (f a) as [b|]; [|done]. cbn. rewrite IH.
  destruct (mapM f l1); [|done]. cbn. by destruct (mapM f l2).
Qed.

(** An import holds only visits before its end. *)
Lemma times_below cutoffMs endMs h t : t ∈ cg_times (url_group cutoffMs endMs h) -> t < endMs.
Proof.
  cbn. unfold times_of, visit_times. rewrite merge_sort_Permutation, list_elem_of_omap. intros (v & _ & Hv). unfold counted_time in Hv.
  destruct (vi_visitTime v) as [t'|]; [|done]. destruct (_ || _) eqn:E; [done|]. destruct (js_has _ _); [done|]. injection Hv as ->.
  apply orb_false_iff in E as [_ E%Z.leb_gt]. done.
Qed.

Section capture.
Context {Srv App : Type} `{Env : EngineEnv Srv App} `{HB : HistoryBrowser App} `{RA : ReplayApp App} `{CA : CaptureApp App}.
Context `{SA : SettingsApi sync_error (DB * App)}.

Definition visit_payload (item : QueuedVisitEvent) (visitedAt : string) : jsval :=
  JObj [("url", JStr (qv_url item)); ("title", of_opt_str (qv_title item)); ("visitedAt", JStr visitedAt)].

(** [op] uploads the visit: its id is a function of the URL, the time and the
    device, its histogram is one visit in its hour, its payload is sealed. *)
Record visit_upload (d : DeviceRecord) (item : QueuedVisitEvent) (op : LocalOperation) : Prop := {
  vu_kind : objectType op = OtHistoryVisit /\ operationType op = OpVisit;
  vu_hours : exists hour, hourKey (qv_visitTime item) = Some hour /\ visitHours op = Some [(hour, 1)];
  vu_sealed : exists visitedAt n sdek, toISOString (qv_visitTime item) = Some visitedAt /\
    objectId op = deterministicUuid (fun s => sha256 (utf8_encode s)) ["historyVisit"; qv_url item; visitedAt; deviceId d] /\
    deriveSdek (accountKey d) (accountKeyVersion d) = Some sdek /\
    payload op = encryptWithSdek None (env_nonce n) (visit_payload item visitedAt) sdek (accountKeyVersion d)
      (buildOperationAad "historyVisit" (objectId op) "visit");
}.

(** ** Building the operations *)

Lemma visit_operations d slice (w : World Srv App) : map_m (visit_operation d) slice w =
  match mapM (fun item => makeVisitOperation (qv_url item) (qv_title item) (qv_visitTime item) d) slice with
  | Some ops => (inr ops, w)
  | None => (inl range_error, w)
  end.
Proof.
  induction slice as [|item slice IH]; [done|]. cbn [map_m mapM]. unfold bind, visit_operation at 1.
  destruct (makeVisitOperation _ _ _ _) as [op|]; [|done]. unfold ret at 1. rewrite IH. cbn. by destruct (mapM _ slice).
Qed.

Lemma pending_visits d slices acc (w : World Srv App) :
  fold_m (fun slice pending => let! sliceOps := map_m (visit_operation d) slice in ret (pending ++ sliceOps)) slices acc w =
  match mapM (fun item => makeVisitOperation (qv_url item) (qv_title item) (qv_visitTime item) d) (concat slices) with
  | Some ops => (inr (acc ++ ops), w)
  | None => (inl range_error, w)
  end.
Proof.
  revert acc. induction slices as [|slice slices IH]; intros acc; [cbn; by rewrite app_nil_r|]. cbn [fold_m concat]. unfold bind at 1, bind at 1.
  rewrite visit_operations, mapM_app. destruct (mapM _ slice) as [ops|]; [|done]. cbn. rewrite IH.
  destruct (mapM _ (concat slices)) as [ops'|]; [|done]. cbn. by rewrite app_assoc.
Qed.

(** One sealed operation per item. *)
Lemma make_visit d sdek a b k item op (w : World Srv App) : deriveSdek (accountKey d) (accountKeyVersion d) = Some sdek ->
  makeVisitOperation (qv_url item) (qv_title item) (qv_visitTime item) (deviceId d) = Some op ->
  match (makeOperation d sdek a b (k, op) w).1 with inr o => visit_upload d item o | inl _ => True end.
Proof.
  intros Hk. unfold makeVisitOperation. destruct (toISOString _) as [visitedAt|] eqn:Et; [|done].
  destruct (hourKey _) as [hour|] eqn:Eh; [|done]. intros [= <-]. unfold makeOperation, bind, encryptOperation, nonce_next, uuidv7_next, fresh. 
  cbn [fst ret]. split; [done| |].
  - by exists hour.
  - exists visitedAt, (w_entropy w), sdek. done.
Qed.

Lemma make_visits d sdek a b k items ops (w : World Srv App) : deriveSdek (accountKey d) (accountKeyVersion d) = Some sdek ->
  mapM (fun item => makeVisitOperation (qv_url item) (qv_title item) (qv_visitTime item) (deviceId d)) items = Some ops ->
  exists created w', map_m (makeOperation d sdek a b) (indexed_from k ops) w = (inr created, w') /\ w_db w' = w_db w /\
    Forall2 (visit_upload d) items created.
Proof.
  intros Hk. revert k ops w. induction items as [|item items IH]; intros k ops w Hops.
  { injection Hops as <-. exists [], w. split_and!; [done..|constructor]. }
  cbn [mapM] in Hops. destruct (makeVisitOperation _ _ _ _) as [op|] eqn:E; [|done]. cbn in Hops.
  destruct (mapM _ items) as [ops'|] eqn:E'; [|done]. injection Hops as <-. cbn [indexed_from map_m].
  pose proof (make_visit d sdek a b k item op w Hk E) as Hv. unfold bind at 1.
  destruct (IH (k + 1) ops' (bump_entropy (bump_entropy w)) eq_refl) as (created & w' & Em & Hdb & Hf).
  assert (exists o, makeOperation d sdek a b (k, op) w = (inr o, bump_entropy (bump_entropy w))) as [o Eo] by (eexists; reflexivity).
  rewrite Eo in *. cbn in Hv. unfold bind. rewrite Em. exists (o :: created), w'. split_and!; [done|done|by constructor].
Qed.

(** ** The flush *)

Definition enabled_settings (w : World Srv App) : Prop :=
  let '(r, x) := fetchSettings false (w_db w, w_app w) in x.1 = w_db w /\
  match r with inr settings => not_off (syncHistory settings) = true | inl _ => True end.

Lemma enabled_run (w : World Srv App) : enabled_settings w -> exists w', isHistorySyncEnabled w = (inr true, w') /\ w_db w' = w_db w /\ w_sdek w' = w_sdek w.
Proof.
  unfold enabled_settings, isHistorySyncEnabled, try_catch, bind, browser. destruct (fetchSettings false _) as [[e|settings] x]; intros [Hx He].
  - by eexists.
  - unfold ret. rewrite He. by eexists.
Qed.

(** Live capture uploads each of the user's visits, and leaves the import's
    to the import. Flushing queued visits puts one sealed operation into the
    upload queue for each visit at or after the import's end boundary, in
    order, with an id that depends only on the URL, the time and the device;
    each of them is later than every visit any import of the device holds. *)
Theorem flushVisitEvents_exact items (w : World Srv App) d endMs sdek :
  db_device (w_db w) = Some d -> historyBulkEndMs d = Some endMs ->
  deriveSdek (accountKey d) (accountKeyVersion d) = Some sdek -> cache_ok (w_sdek w) -> enabled_settings w ->
  (forall item, item ∈ fresh_events d items -> is_Some (makeVisitOperation (qv_url item) (qv_title item) (qv_visitTime item) (deviceId d))) ->
  exists w' ops createdAt, flushVisitEvents items w = (inr tt, w') /\ Forall2 (visit_upload d) (fresh_events d items) ops /\
    pending_operations (w_db w') = foldl (fun m op => put_queued createdAt op m) (pending_operations (w_db w)) ops /\
    forall item view cutoffMs gs g t, item ∈ fresh_events d items -> covers view cutoffMs endMs gs -> g ∈ gs -> t ∈ cg_times g ->
      t < qv_visitTime item.
Proof.
  intros Hd Hend Hk Hok He Hdates.
  assert (forall item view cutoffMs gs g t, item ∈ fresh_events d items -> covers view cutoffMs endMs gs -> g ∈ gs -> t ∈ cg_times g ->
    t < qv_visitTime item) as Hlater.
  { intros item view cutoffMs gs g t Hi Hc Hg Ht. unfold fresh_events in Hi. rewrite Hend in Hi.
    apply list_elem_of_In, filter_In in Hi as [_ Hi%Z.leb_le]. destruct (cv_sound _ _ _ _ Hc g Hg) as (h & _ & ->).
    enough (t < endMs) by lia. by apply (times_below cutoffMs endMs h t). }
  destruct (enabled_run w He) as (w1 & E1 & Hdb1 & Hs1). unfold flushVisitEvents, bind at 1. rewrite E1. cbn [negb].
  unfold bind at 1, getDeviceM, db_read. rewrite Hdb1, Hd.
  destruct (mapM (fun item => makeVisitOperation (qv_url item) (qv_title item) (qv_visitTime item) (deviceId d)) (fresh_events d items)) as [ops|] eqn:Eops.
  2:{ apply mapM_None in Eops. apply Exists_exists in Eops as (item & Hi & Hn). destruct (Hdates item Hi) as [? Hx]. by rewrite Hn in Hx. }
  destruct (fresh_events d items) as [|item fresh] eqn:Ef; [exists w1, [], ""; split_and!; [done|constructor|by rewrite Hdb1|exact Hlater]|].
  unfold bind at 1. rewrite pending_visits, slices_concat, Eops by (unfold VISIT_UUID_CONCURRENCY; lia). cbn [app].
  destruct ops as [|op ops]; [by apply mapM_Some_1, Forall2_length in Eops|]. unfold bind at 1, createLocalOperationsBatch, bind at 1, db_read. rewrite Hdb1, Hd.
  unfold bind at 1, db_run, reserveSequenceBatch. set (w2 := set_db _ w1). cbv beta iota zeta.
  unfold bind at 1. pose proof (getSdek_spec (accountKey d) (accountKeyVersion d) (w_sdek w2)) as Hg. unfold getSdekM.
  assert (w_sdek w2 = w_sdek w) as Hs2 by done. rewrite Hs2 in *. specialize (Hg Hok).
  destruct (getSdek _ _ _ _) as [[sdek' cache]|]; [|by rewrite Hk in Hg]. destruct Hg as [Hg _]. rewrite Hk in Hg. injection Hg as <-.
  set (w3 := set_sdek cache w2). match goal with |- context [map_m (makeOperation d sdek ?a ?b) _] =>
    destruct (make_visits d sdek a b 0 _ _ w3 Hk Eops) as (created & w4 & E4 & Hdb4 & Hf) end.
  unfold bind at 1. rewrite E4. unfold bind, iso_next, Engine.fresh, db_update, modify, ret. eexists _, created, (env_iso (w_entropy w4)).
  split; [reflexivity|]. split; [exact Hf|]. split; [|exact Hlater]. cbn [w_db set_db enqueueOperationsBatch pending_operations set_pending].
  rewrite putAllChunked_map. cbn [bump_entropy w_db]. rewrite Hdb4. unfold w3, w2. cbn. by rewrite Hdb1.
Qed.
End capture.
