(* ===== verification/HistorySyncExample.v ===== *)
(** * Two devices

    A peer's visit and a chunk of its import arrive at a device that knows one
    of the URLs; the theorems of the history files are instantiated here. *)

From S2P Require Import Prelude JsMap Types Util Json Scheduling Dates Storage StorageFacts Crypto CryptoFacts Engine EngineDownload RestorePoints History HistoryEnumFacts HistoryPagingFacts HistoryUploadFacts HistoryBulkFacts HistoryReplay HistoryReplayFacts HistoryEchoFacts HistorySync HistorySyncFacts.

Open Scope Z_scope.
Open Scope js_scope.

#[local] Existing Instances toy_crypto toy_laws example_url_parser default_sizes.
#[local] Instance marking_codec : Deflate := {|
  supportsDeflateRaw := true;
  deflateRaw b := 0 :: b;
  inflateRaw b := match b with 0 :: b => Some b | _ => None end;
|}.
#[local] Instance marking_laws : DeflateLaws.
Proof. split; [done|]. intros b Hb. constructor; [unfold is_byte; lia|done]. Qed.
#[local] Instance iso_dates : DatePlatform := {| parse_other _ := None |}.

#[local] Instance quiet_engine {App} : EngineEnv unit App := {|
  env_crypto := toy_crypto;
  env_uuid n := "u" +:+ json_num (Z.of_nat n);
  env_nonce n := [7];
  env_now n := 1000 + Z.of_nat n;
  env_iso n := "now";
  uploadOperations srv ops := (inl NetworkError, srv);
  downloadChanges srv c := (inl NetworkError, srv);
  fetchSnapshot srv := (inl NetworkError, srv);
  appliers t := None;
  batchAppliers t := None;
  preSnapshotHooks := [];
|}.

(** ** The application's state *)

Record Desk := mkDesk {
  dk_visits : list (string * list VisitItem);
  dk_asked : list string;
  dk_replay : ReplayState;
  dk_capture : CaptureState;
}.

#[local] Instance desk_browser : HistoryBrowser Desk := {|
  history_search _ _ _ x := (inr [], x);
  history_getVisits url x := (inr (default [] (jm_get (dk_visits x.2) url)), x);
  history_addUrl url x := (inr tt, (x.1, mkDesk (dk_visits x.2) (dk_asked x.2 ++ [url]) (dk_replay x.2) (dk_capture x.2)));
|}.
#[local] Instance desk_replay : ReplayApp Desk := {|
  replay_get := dk_replay;
  replay_set st a := mkDesk (dk_visits a) (dk_asked a) st (dk_capture a);
  replay_get_set s a := eq_refl;
|}.
#[local] Instance desk_capture : CaptureApp Desk := {|
  capture_get := dk_capture;
  capture_set st a := mkDesk (dk_visits a) (dk_asked a) (dk_replay a) st;
|}.
#[local] Instance desk_settings : SettingsApi sync_error (DB * Desk) := {|
  fetchSettings _ x := (inr (mkSettings None (Some true) None None None None (Some "30d") None None), x);
|}.

Definition known_visits : list (string * list VisitItem) := [("https://known.example/", [mkVisitItem (Some 5) None])].
Definition desk_dev : DeviceRecord :=
  mkDevice "" "me" "" "" "" "" "" "AAAA" 1 None (Some 0) (Some 100) None None None None None None None None.
Definition desk0 : World unit Desk :=
  mkWorld (set_device (Some desk_dev) emptyDB)
    (mkDesk known_visits [] (mkReplay [] 0) (mkCapture true true 1 emptyQueue)) tt [] 0 0 0 [] [] [].

(** ** A batch from a peer *)

Definition peer_sdek : bytes := default [] (deriveSdek "AAAA" 1).
Definition peer_segment : list CollectedGroup :=
  [mkCollectedGroup "https://old.example/" (Some "Old") [10; 30]; mkCollectedGroup "https://known.example/" None [20]].
Definition peer_chunk : LocalOperation :=
  let ids := deterministicBulkIds (Srv := unit) (App := Desk) "peer" 0 0 in
  mkLocalOperation ids.1 1 1 OtHistoryVisit ids.2 OpBulkImport 1
    (container_jsval true 3 [encryptBytesWithSdek None [7] (segment_plain peer_segment) peer_sdek 1
       (buildOperationAad "historyVisit" ids.2 "bulkImport")])
    (Some 3) (count_hours [10; 30; 20] []).

Lemma peer_chunk_for : chunk_for (Srv := unit) (App := Desk) "peer" 0 1 peer_sdek 0 [peer_segment] peer_chunk.
Proof.
  split.
  - unfold peer_chunk. cbn [operationId objectId]. by destruct (deterministicBulkIds _ _ _).
  - done.
  - reflexivity.
  - eexists. split; [reflexivity|]. split; vm_compute; reflexivity.
  - eexists. split; [reflexivity|]. constructor; [|constructor]. by exists 0%nat.
Qed.

Definition single_visit (url at_ : string) : jsval := JObj [("url", JStr url); ("visitedAt", JStr at_)].
Definition peer_op (device object : string) (ot : OperationType) (payload : jsval) : OperationOut * jsval :=
  (mkOperationOut "o" device 1 1 OtHistoryVisit object ot 1 JNull 1 "now", payload).

Definition arriving : list (OperationOut * jsval) :=
  let chunk := json_strip (payload peer_chunk) in
  [peer_op "peer" "v" OpVisit (single_visit "https://new.example/" "1970-01-01T00:00:00.015Z");
   peer_op "me" "w" OpVisit (single_visit "https://own.example/" "1970-01-01T00:00:00.016Z");
   peer_op "peer" (objectId peer_chunk) OpBulkImport chunk;
   peer_op "forger" "another" OpBulkImport chunk].

(** The peer's two URLs this browser does not know, the older one first. *)
Example arriving_run : let '(r, w) := HistorySync.applyRemoteBatch arriving desk0 in
  r = inr tt /\ dk_asked (w_app w) = ["https://new.example/"; "https://old.example/"].
Proof. vm_compute. split; reflexivity. Qed.

Definition desk_known (url : string) : bool := Nat.ltb 0 (length (default [] (jm_get known_visits url))).
Definition desk_valid (x : DB * Desk) : Prop :=
  dk_visits x.2 = known_visits /\ exists d, db_device x.1 = Some d /\ is_me "me" "AAAA" d.

Lemma desk_nonces (n : nat) : Forall is_byte (env_nonce (EngineEnv := quiet_engine (App := Desk)) n).
Proof. constructor; [unfold is_byte; lia|constructor]. Qed.

Lemma desk_ready : peer_ready (Srv := unit) "me" "AAAA" dk_asked desk_known desk_valid.
Proof.
  split.
  - split.
    + intros u x [Hv Hd]. cbn. split; [done|]. split; [done|]. unfold desk_known. by rewrite Hv.
    + intros u x [Hv Hd]. done.
    + intros st s a [Hv Hd]. done.
    + intros w [Hv (d & Hd & _)]. exists false. unfold device_gone, bind, getDeviceM, db_read. cbn in Hd. by rewrite Hd.
  - intros s a [_ Hd]. exact Hd.
  - intros d now s a [Hv (d' & Hd' & Hm)] Hd. split; [exact Hv|]. cbn in *. rewrite Hd in Hd'. injection Hd' as <-. by eexists.
  - intros b x [Hv Hd]. done.
Qed.

Definition arriving_visits : list (list (string * option Z)) :=
  [[("https://new.example/", Some 15)];
   [("https://old.example/", Some 10); ("https://old.example/", Some 30); ("https://known.example/", Some 20)];
   []].

Lemma holds_chunk op : out_operationType op = OpBulkImport ->
  holds (Srv := unit) (App := Desk) "AAAA" (op, json_strip (payload peer_chunk))
    (if decide (objectId peer_chunk = out_objectId op) then segment_visits [peer_segment] else []).
Proof.
  intros Hop. eapply (holds_bulk "AAAA" op _ "peer" 0 1 peer_sdek 0 [peer_segment] peer_chunk Hop).
  - vm_compute. reflexivity.
  - exact peer_chunk_for.
  - unfold MAX_SAFE. cbn. lia.
  - vm_compute. discriminate.
  - repeat constructor; unfold MAX_SAFE; cbn; lia.
  - vm_compute. reflexivity.
Qed.

Lemma arriving_holds : Forall2 (holds (Srv := unit) (App := Desk) "AAAA")
  (List.filter (fun item => negb (String.eqb (out_deviceId item.1) "me")) arriving) arriving_visits.
Proof.
  unfold arriving, arriving_visits. cbn [List.filter peer_op fst out_deviceId String.eqb Ascii.eqb Bool.eqb negb].
  apply List.Forall2_cons; [|apply List.Forall2_cons; [|apply List.Forall2_cons; [|apply List.Forall2_nil]]].
  - replace [("https://new.example/", Some 15)] with (payload_visits (single_visit "https://new.example/" "1970-01-01T00:00:00.015Z"))
      by (vm_compute; reflexivity). apply holds_visit. reflexivity.
  - pose proof (holds_chunk (nth 2 arriving (peer_op "" "" OpVisit JNull)).1 eq_refl) as H.
    rewrite decide_True in H by reflexivity. exact H.
  - pose proof (holds_chunk (nth 3 arriving (peer_op "" "" OpVisit JNull)).1 eq_refl) as H.
    rewrite decide_False in H by (vm_compute; discriminate). exact H.
Qed.


(** ** A replay and its echo

    The call starts at 100, the browser stamps the visit at 103, the call
    returns, the user visits another page and later this one, and only then
    the echo arrives. *)

Definition echo_trace : list visit_event :=
  [NoEvent; NoEvent; NoEvent; NoEvent; UserVisit "https://b.example/" 150 false; UserVisit "https://a.example/" 400 false;
   Echo "https://a.example/" 103 true].

Lemma step_user st fl due now url t : Forall (fun w => in_echo_window t w = false) (windows_at st (canonicalUrl url)) ->
  echo_step (mkEcho st fl due now) (UserVisit url t false) (mkEcho st fl due now).
Proof. intros Hw. pose proof (es_user st fl due now url t Hw) as Hs. by rewrite consume_user in Hs. Qed.

Lemma step_event st st' b fl d due now url : canonicalUrl url = du_key d -> consumeReplayEcho url (Some (du_time d)) st = (b, st') ->
  echo_step (mkEcho st fl (d :: due) now) (Echo url (du_time d) b) (mkEcho st' fl due now).
Proof. intros Hu E. pose proof (es_event st fl [] d due now url ltac:(constructor) Hu) as Hs. by rewrite E in Hs. Qed.

Lemma echo_trace_runs : exists x, echo_run (mkEcho (mkReplay [] 0) None [] 100) echo_trace x.
Proof.
  eexists. unfold echo_trace.
  eapply er_cons; [apply (es_call _ _ _ "https://a.example/")|].
  eapply er_cons; [apply (es_tick _ _ _ 100 103); lia|].
  eapply er_cons; [apply es_stamp|].
  eapply er_cons; [apply es_return|].
  eapply er_cons; [apply step_user; apply (bool_decide_unpack _); vm_compute; exact I|].
  eapply er_cons; [apply step_user; apply (bool_decide_unpack _); vm_compute; exact I|].
  eapply er_cons; [|apply er_nil].
  eapply (step_event _ _ true _ (mkDue "https://a.example/" 103 100)); reflexivity.
Qed.


(** ** Live capture *)

Definition desk_events : list QueuedVisitEvent :=
  [mkVisitEvent "https://a.example/" (Some "A") 99; mkVisitEvent "https://b.example/" None 100; mkVisitEvent "https://a.example/" None 7200000].

Lemma flushVisitEvents_exact_witness :
  exists w' ops createdAt, flushVisitEvents desk_events desk0 = (inr tt, w') /\
    Forall2 (visit_upload (Srv := unit) (App := Desk) desk_dev) (fresh_events desk_dev desk_events) ops /\
    pending_operations (w_db w') = foldl (fun m op => put_queued createdAt op m) (pending_operations (w_db desk0)) ops /\
    forall item view cutoffMs gs g t, item ∈ fresh_events desk_dev desk_events -> covers view cutoffMs 100 gs -> g ∈ gs -> t ∈ cg_times g ->
      t < qv_visitTime item.
Proof.
  apply (flushVisitEvents_exact desk_events desk0 desk_dev 100 peer_sdek); [reflexivity|reflexivity|vm_compute; reflexivity|apply empty_cache_ok|done|].
  intros item Hi. apply list_elem_of_In in Hi. cbn in Hi. destruct Hi as [<-|[<-|[]]]; vm_compute; eexists; reflexivity.
Defined.
