(* ===== verification/Tabs.v ===== *)
(** * The tab adapter: state, titles, coalescing (extension/src/tabs/index.ts, tabs/groupSync.ts)

    chrome.tabs and chrome.tabGroups are behind the class [ChromeTabs]. [TabApp]
    is the browser with the adapter's module variables; the listeners and
    timers are functions on them, run one event at a time. *)

From S2P Require Import Prelude JsMap Types Util Json Scheduling Storage Conflict Engine.

Open Scope Z_scope.
Open Scope js_scope.

(** ** The browser *)

Record Tab := mkTab {
  tab_id : option Z;
  tab_windowId : option Z;
  tab_url : option string;
  tab_title : option string;
  tab_pinned : bool;
  tab_index : Z;
  tab_active : bool;
  tab_groupId : option Z;
}.

Record Group := mkGroup {
  gr_id : Z;
  gr_title : option string;
  gr_color : string;
  gr_collapsed : bool;
}.

Record Window := mkWindow {
  win_id : option Z;
  win_focused : bool;
  win_incognito : bool;
  win_state : option string;
}.

Record TabChangeInfo := mkTabChange {
  tc_url : option string;
  tc_title : option string;
  tc_pinned : option bool;
  tc_groupId : option Z;
}.

Record TabActiveInfo := mkActive { ai_tabId : Z; ai_windowId : Z }.

(** One function per method; a number that may be [NaN] is an option. The
    second argument of [tabs_group] is the group to join, if any. *)
Class ChromeTabs (Br : Type) := {
  tabGroupsSupported : Br -> bool;
  tabs_query : Br -> sync_error + list Tab;
  tabs_create : string -> jsval -> Br -> (sync_error + Tab) * Br;
  tabs_update : Z -> string -> jsval -> Br -> (sync_error + unit) * Br;
  tabs_group : option Z -> option (option Z) -> Br -> (sync_error + Z) * Br;
  tabGroups_update : option Z -> jsval -> Br -> (sync_error + unit) * Br;
}.

Definition WINDOW_ID_NONE : Z := -1.
Definition TAB_GROUP_ID_NONE : Z := -1.
Definition WINDOW_TYPE : ObjectType := OtWindow.
Definition TAB_TYPE : ObjectType := OtTab.
Definition GROUP_TYPE : ObjectType := OtTabGroup.

(** ** Events and staged operations *)

Inductive QueuedTabEvent :=
  | TabCreated (tab : Tab)
  | TabUpdated (tabId : Z) (tab : Tab) (titleOnly : bool)
  | TabActivated (activeInfo : TabActiveInfo)
  | TabRemoved (tabId : Z)
  | GroupUpdated (group : Group)
  | GroupRemoved (group : Group)
  | WindowCreated (win : Window)
  | WindowRemoved (windowId : Z).

Record StagedTabOp := mkStagedTab {
  sg_objectType : ObjectType;
  sg_objectId : string;
  sg_operationType : OperationType;
  sg_payload : jsval;
  sg_fields : list (string * jsval);
  sg_titleOnly : bool;
  sg_windowId : option Z;
}.

(** ** Coalescing *)

Definition is_activate (op : StagedTabOp) : bool := bool_decide (sg_operationType op = OpActivate).

Definition last_activations (staged : list (nat * StagedTabOp)) : jmap Z nat :=
  foldl (fun m iop =>
    match sg_windowId iop.2 with
    | Some w => if is_activate iop.2 then jm_set m w iop.1 else m
    | None => m
    end) [] staged.

Definition numbered {A} (l : list A) : list (nat * A) := zip (seq 0 (length l)) l.

Definition keep_last_per_window (staged : list StagedTabOp) : list StagedTabOp :=
  let lastActivateIdxByWindow := last_activations (numbered staged) in
  match lastActivateIdxByWindow with
  | [] => staged
  | _ => map snd (List.filter (fun iop =>
      negb (is_activate iop.2) ||
      match sg_windowId iop.2 with
      | None => true
      | Some w => bool_decide (jm_get lastActivateIdxByWindow w = Some iop.1)
      end) (numbered staged))
  end.

(** The walk from the last to the first, on the reversed list. *)
Fixpoint coalesce_walk (discardEarlierUpdate discardEarlierActivate : jset string) (ops : list StagedTabOp) : list StagedTabOp :=
  match ops with
  | [] => []
  | op :: ops =>
      let o := sg_objectId op in
      match sg_operationType op with
      | OpClose => op :: coalesce_walk (js_add discardEarlierUpdate o) (js_add discardEarlierActivate o) ops
      | OpUpdate =>
          if js_has discardEarlierUpdate o then coalesce_walk discardEarlierUpdate discardEarlierActivate ops
          else op :: coalesce_walk (js_add discardEarlierUpdate o) discardEarlierActivate ops
      | OpActivate =>
          if js_has discardEarlierActivate o then coalesce_walk discardEarlierUpdate discardEarlierActivate ops
          else op :: coalesce_walk discardEarlierUpdate (js_add discardEarlierActivate o) ops
      | _ => op :: coalesce_walk discardEarlierUpdate discardEarlierActivate ops
      end
  end.

Definition coalesceStagedOps (staged : list StagedTabOp) : list StagedTabOp :=
  rev (coalesce_walk [] [] (rev (keep_last_per_window staged))).

(** ** Module variables *)

Record TabState := mkTabState {
  tabsCaptureEnabled : bool;
  tabGroupsCaptureEnabled : bool;
  pendingTitleTabs : jmap Z Tab;
  pendingTitleDebounce : jmap Z nat;
  armed_timers : jmap nat (Z * Tab);    (** by timer id: what the callback holds *)
  next_timer : nat;
  titleRearmCount : jmap Z Z;
  materializingTabIds : jset Z;
  captureRegistered : bool;
  groupCaptureRegistered : bool;
  lastActiveTabId : option Z;
  tabQueue : MicroBatch QueuedTabEvent;
}.

Definition initialTabState : TabState := mkTabState true true [] [] [] 0 [] [] false false None emptyQueue.

Definition set_toggles (tabs groups : bool) (s : TabState) : TabState :=
  mkTabState tabs groups (pendingTitleTabs s) (pendingTitleDebounce s) (armed_timers s) (next_timer s) (titleRearmCount s)
    (materializingTabIds s) (captureRegistered s) (groupCaptureRegistered s) (lastActiveTabId s) (tabQueue s).
Definition set_titles (tabs : jmap Z Tab) (debounce : jmap Z nat) (s : TabState) : TabState :=
  mkTabState (tabsCaptureEnabled s) (tabGroupsCaptureEnabled s) tabs debounce (armed_timers s) (next_timer s) (titleRearmCount s)
    (materializingTabIds s) (captureRegistered s) (groupCaptureRegistered s) (lastActiveTabId s) (tabQueue s).
Definition set_timers (timers : jmap nat (Z * Tab)) (next : nat) (s : TabState) : TabState :=
  mkTabState (tabsCaptureEnabled s) (tabGroupsCaptureEnabled s) (pendingTitleTabs s) (pendingTitleDebounce s) timers next (titleRearmCount s)
    (materializingTabIds s) (captureRegistered s) (groupCaptureRegistered s) (lastActiveTabId s) (tabQueue s).
Definition set_rearms (counts : jmap Z Z) (s : TabState) : TabState :=
  mkTabState (tabsCaptureEnabled s) (tabGroupsCaptureEnabled s) (pendingTitleTabs s) (pendingTitleDebounce s) (armed_timers s) (next_timer s)
    counts (materializingTabIds s) (captureRegistered s) (groupCaptureRegistered s) (lastActiveTabId s) (tabQueue s).
Definition set_materializing (ids : jset Z) (s : TabState) : TabState :=
  mkTabState (tabsCaptureEnabled s) (tabGroupsCaptureEnabled s) (pendingTitleTabs s) (pendingTitleDebounce s) (armed_timers s) (next_timer s)
    (titleRearmCount s) ids (captureRegistered s) (groupCaptureRegistered s) (lastActiveTabId s) (tabQueue s).
Definition set_registered (tabs groups : bool) (s : TabState) : TabState :=
  mkTabState (tabsCaptureEnabled s) (tabGroupsCaptureEnabled s) (pendingTitleTabs s) (pendingTitleDebounce s) (armed_timers s) (next_timer s)
    (titleRearmCount s) (materializingTabIds s) tabs groups (lastActiveTabId s) (tabQueue s).
Definition set_lastActive (id : option Z) (s : TabState) : TabState :=
  mkTabState (tabsCaptureEnabled s) (tabGroupsCaptureEnabled s) (pendingTitleTabs s) (pendingTitleDebounce s) (armed_timers s) (next_timer s)
    (titleRearmCount s) (materializingTabIds s) (captureRegistered s) (groupCaptureRegistered s) id (tabQueue s).
Definition set_tabQueue (q : MicroBatch QueuedTabEvent) (s : TabState) : TabState :=
  mkTabState (tabsCaptureEnabled s) (tabGroupsCaptureEnabled s) (pendingTitleTabs s) (pendingTitleDebounce s) (armed_timers s) (next_timer s)
    (titleRearmCount s) (materializingTabIds s) (captureRegistered s) (groupCaptureRegistered s) (lastActiveTabId s) q.

Definition enqueueTabEvent (e : QueuedTabEvent) (s : TabState) : TabState := set_tabQueue (enqueue e (tabQueue s)) s.
Definition setTabsCaptureEnabled (enabled : bool) (s : TabState) : TabState := set_toggles enabled (tabGroupsCaptureEnabled s) s.
Definition setTabGroupsCaptureEnabled (enabled : bool) (s : TabState) : TabState := set_toggles (tabsCaptureEnabled s) enabled s.

(** ** Title changes

    [Tab] has just the fields [slimTabForDebounce] keeps. *)

Definition TAB_TITLE_DEBOUNCE_MS : Z := 500.
Definition MAX_TITLE_REARMS : Z := 10.
Definition MAX_STASHED_TITLES : Z := 200.

Definition clearTimeout (timer : nat) (s : TabState) : TabState := set_timers (jm_delete (armed_timers s) timer) (next_timer s) s.
Definition forget_title (tabId : Z) (s : TabState) : TabState :=
  set_titles (jm_delete (pendingTitleTabs s) tabId) (jm_delete (pendingTitleDebounce s) tabId) s.
Definition title_event (tabId : Z) (tab : Tab) : QueuedTabEvent := TabUpdated tabId tab true.

Definition stashTitleTab (tabId : Z) (tab : Tab) (s : TabState) : TabState :=
  let s1 :=
    if negb (jm_has (pendingTitleTabs s) tabId) && (MAX_STASHED_TITLES <=? Z.of_nat (length (pendingTitleTabs s)))
    then match jm_keys (pendingTitleTabs s) with oldest :: _ => forget_title oldest s | [] => s end
    else s in
  set_titles (jm_set (pendingTitleTabs s1) tabId tab) (pendingTitleDebounce s1) s1.

(** With the tab's timer, if it has one: stop it and forget the title. *)
Definition stop_title_timer (tabId : Z) (s : TabState) : TabState :=
  match jm_get (pendingTitleDebounce s) tabId with
  | Some timer => forget_title tabId (clearTimeout timer s)
  | None => s
  end.

Definition clearTitleDebounce (tabId : Z) (s : TabState) : TabState :=
  stop_title_timer tabId (set_rearms (jm_delete (titleRearmCount s) tabId) s).

Definition clearAllTitleDebounce (s : TabState) : TabState :=
  set_rearms [] (set_titles [] [] (foldl (fun s timer => clearTimeout timer s) s (jm_values (pendingTitleDebounce s)))).

Definition flush_title (s : TabState) (entry : Z * Tab) : TabState :=
  let '(tabId, tab) := entry in
  let s1 := match jm_get (pendingTitleDebounce s) tabId with Some timer => clearTimeout timer s | None => s end in
  enqueueTabEvent (title_event tabId tab) (forget_title tabId s1).
Definition flushPendingTitleDebounces (s : TabState) : TabState := foldl flush_title s (pendingTitleTabs s).

Definition is_stashed (s : TabState) (entry : Z * Tab) : bool := negb (jm_has (pendingTitleDebounce s) entry.1).
Definition drainStashedBackgroundTitles (s : TabState) : list QueuedTabEvent * TabState :=
  let stashed := List.filter (is_stashed s) (pendingTitleTabs s) in
  (map (fun e => title_event e.1 e.2) stashed,
   set_titles (foldl (fun m e => jm_delete m e.1) (pendingTitleTabs s) stashed) (pendingTitleDebounce s) s).

(** ** Listeners

    [suppressed]: [guard.isSuppressed()] as the event fires. *)

Definition is_some {A} (x : option A) : bool := match x with Some _ => true | None => false end.

Definition setTimeout (tabId : Z) (tab : Tab) (s : TabState) : nat * TabState :=
  (next_timer s, set_timers (jm_set (armed_timers s) (next_timer s) (tabId, tab)) (S (next_timer s)) s).

Definition handleTabUpdated (suppressed : bool) (tabId : Z) (changeInfo : TabChangeInfo) (tab : Tab) (s : TabState) : TabState :=
  let other := is_some (tc_url changeInfo) || is_some (tc_pinned changeInfo) || is_some (tc_groupId changeInfo) in
  if negb (other || is_some (tc_title changeInfo)) then s
  else if negb (tabsCaptureEnabled s) then s
  else if suppressed then s
  else
    let isPureTitle := is_some (tc_title changeInfo) && negb other in
    let priorRearms := default 0 (jm_get (titleRearmCount s) tabId) in
    let s1 := stop_title_timer tabId s in
    if negb isPureTitle then
      enqueueTabEvent (TabUpdated tabId tab false) (set_rearms (jm_delete (titleRearmCount s1) tabId) s1)
    else
      let rearms := priorRearms + 1 in
      let s2 := set_rearms (jm_set (titleRearmCount s1) tabId rearms) s1 in
      if MAX_TITLE_REARMS <? rearms then s2
      else if negb (tab_active tab) then stashTitleTab tabId tab s2
      else
        let '(timer, s3) := setTimeout tabId tab s2 in
        set_titles (jm_set (pendingTitleTabs s3) tabId tab) (jm_set (pendingTitleDebounce s3) tabId timer) s3.

(** The callback of an armed timer. *)
Definition title_timer_fires (timer : nat) (s : TabState) : TabState :=
  match jm_get (armed_timers s) timer with
  | Some (tabId, tab) =>
      let s1 := forget_title tabId (clearTimeout timer s) in
      enqueueTabEvent (title_event tabId tab) (set_rearms (jm_delete (titleRearmCount s1) tabId) s1)
  | None => s
  end.

Definition handleTabRemoved (tabId : Z) (s : TabState) : TabState :=
  let s1 := clearTitleDebounce tabId s in
  let s2 := if decide (lastActiveTabId s1 = Some tabId) then set_lastActive None s1 else s1 in
  if tabsCaptureEnabled s2 then enqueueTabEvent (TabRemoved tabId) s2 else s2.

Definition onWindowCreated (win : Window) (s : TabState) : TabState :=
  if negb (tabsCaptureEnabled s) then s
  else match win_id win with
       | None => s
       | Some id => if id =? WINDOW_ID_NONE then s else enqueueTabEvent (WindowCreated win) s
       end.
Definition onWindowRemoved (id : Z) (s : TabState) : TabState :=
  if tabsCaptureEnabled s then enqueueTabEvent (WindowRemoved id) s else s.
Definition onTabCreated (suppressed : bool) (tab : Tab) (s : TabState) : TabState :=
  if negb (tabsCaptureEnabled s) || suppressed then s else enqueueTabEvent (TabCreated tab) s.
Definition onTabActivated (info : TabActiveInfo) (s : TabState) : TabState :=
  if negb (tabsCaptureEnabled s) then s
  else if decide (lastActiveTabId s = Some (ai_tabId info)) then s
  else enqueueTabEvent (TabActivated info) (set_lastActive (Some (ai_tabId info)) s).
Definition onGroupUpdated (suppressed : bool) (group : Group) (s : TabState) : TabState :=
  if negb (tabGroupsCaptureEnabled s) || suppressed then s else enqueueTabEvent (GroupUpdated group) s.
Definition onGroupRemoved (group : Group) (s : TabState) : TabState :=
  if tabGroupsCaptureEnabled s then enqueueTabEvent (GroupRemoved group) s else s.

(** The listeners are added once; then every open tab is looked at. *)
Definition registerGroupCapture (supported : bool) (s : TabState) : TabState :=
  if groupCaptureRegistered s || negb supported then s else set_registered (captureRegistered s) true s.
Definition open_tab_event (s : TabState) (tab : Tab) : TabState :=
  match tab_id tab with Some id => enqueueTabEvent (TabUpdated id tab false) s | None => s end.
Definition registerCapture (supported : bool) (openTabs : sync_error + list Tab) (s : TabState) : TabState :=
  let s1 := registerGroupCapture supported s in
  if captureRegistered s1 then s1
  else
    let s2 := set_registered true (groupCaptureRegistered s1) s1 in
    match openTabs with inr tabs => foldl open_tab_event s2 tabs | inl _ => s2 end.
