(* ===== verification/TabsCapture.v ===== *)
(** * Capturing tabs, windows and groups (extension/src/tabs/index.ts)

    A burst of events becomes staged operations, with lookups answered from
    what one prefetch read; the staged operations become one encrypted batch.
    Logging is left out. *)

From S2P Require Import Prelude JsMap Types Util Json Scheduling Storage Conflict Engine Tabs.

Open Scope Z_scope.
Open Scope js_scope.

(** ** State *)

(** Identifiers, clock, and the order in which calls in flight take their
    steps, by the number of reads so far. *)
Class TabEnv (Br : Type) := {
  te_chrome :: ChromeTabs Br;
  te_urls :: UrlParser;
  te_numbers :: NumberParser;
  te_uuid : nat -> string;
  te_now : nat -> Z;
  te_schedule : nat -> list nat;
}.

Record TabApp (Br : Type) := mkTabApp {
  ta_browser : Br;
  ta_tabs : TabState;
  ta_guard : SuppressionGuard;
  ta_groupSyncLock : KeyedLock;
  ta_entropy : nat;
}.
#[global] Arguments mkTabApp {Br}. #[global] Arguments ta_browser {Br}. #[global] Arguments ta_tabs {Br}.
#[global] Arguments ta_guard {Br}. #[global] Arguments ta_groupSyncLock {Br}. #[global] Arguments ta_entropy {Br}.

Section capture.
Context {Br : Type} `{Env : TabEnv Br}.

Definition TbState : Type := DB * TabApp Br.
Definition Tb (A : Type) : Type := M TbState sync_error A.

Definition set_tabs (t : TabState) (a : TabApp Br) : TabApp Br :=
  mkTabApp (ta_browser a) t (ta_guard a) (ta_groupSyncLock a) (ta_entropy a).
Definition set_browser (b : Br) (a : TabApp Br) : TabApp Br :=
  mkTabApp b (ta_tabs a) (ta_guard a) (ta_groupSyncLock a) (ta_entropy a).
Definition set_guard (g : SuppressionGuard) (a : TabApp Br) : TabApp Br :=
  mkTabApp (ta_browser a) (ta_tabs a) g (ta_groupSyncLock a) (ta_entropy a).
Definition set_lock (l : KeyedLock) (a : TabApp Br) : TabApp Br :=
  mkTabApp (ta_browser a) (ta_tabs a) (ta_guard a) l (ta_entropy a).
Definition bump (a : TabApp Br) : TabApp Br :=
  mkTabApp (ta_browser a) (ta_tabs a) (ta_guard a) (ta_groupSyncLock a) (S (ta_entropy a)).

Definition store_get {A} (f : DB -> A) : Tb A := fun s => (inr (f s.1), s).
Definition store_put (f : DB -> DB) : Tb unit := modify (fun s => (f s.1, s.2)).
Definition store_run {A} (f : DB -> A * DB) : Tb A := fun s => let '(a, db) := f s.1 in (inr a, (db, s.2)).
Definition get_app {A} (f : TabApp Br -> A) : Tb A := fun s => (inr (f s.2), s).
Definition tabs_modify (f : TabState -> TabState) : Tb unit := modify (fun s => (s.1, set_tabs (f (ta_tabs s.2)) s.2)).
Definition draw {A} (f : nat -> A) : Tb A := fun s => (inr (f (ta_entropy s.2)), (s.1, bump s.2)).

Definition getOrCreate (t : ObjectType) (chromiumLocalId : string) : Tb string :=
  Engine.getOrCreateObjectId (draw te_uuid) t chromiumLocalId.

(** [undefined] without a record. *)
Definition field_value (objectId field : string) (db : DB) : jsval := from_option fs_value JUndef (getFieldState objectId field db).

(** ** Flush caches *)

Record TabFlushCaches := mkFlushCaches {
  fc_tab : jmap string string;
  fc_window : jmap string string;
  fc_group : jmap string string;
  fc_overlay : jmap string jsval;
}.
Definition emptyTabFlushCaches : TabFlushCaches := mkFlushCaches [] [] [] [].

Definition cache_of (t : ObjectType) (c : TabFlushCaches) : jmap string string :=
  match t with OtTab => fc_tab c | OtWindow => fc_window c | _ => fc_group c end.
Definition set_cache (t : ObjectType) (m : jmap string string) (c : TabFlushCaches) : TabFlushCaches :=
  match t with
  | OtTab => mkFlushCaches m (fc_window c) (fc_group c) (fc_overlay c)
  | OtWindow => mkFlushCaches (fc_tab c) m (fc_group c) (fc_overlay c)
  | _ => mkFlushCaches (fc_tab c) (fc_window c) m (fc_overlay c)
  end.
Definition set_overlay (m : jmap string jsval) (c : TabFlushCaches) : TabFlushCaches :=
  mkFlushCaches (fc_tab c) (fc_window c) (fc_group c) m.

(** Staging runs over the adapter's state and the caches of the flush. *)
Definition Fl (A : Type) : Type := M (TbState * TabFlushCaches) sync_error A.
Definition tb {A} (m : Tb A) : Fl A := fun s => let '(r, x) := m s.1 in (r, (x, s.2)).
Definition caches {A} (f : TabFlushCaches -> A) : Fl A := fun s => (inr (f s.2), s).
Definition cache_put (f : TabFlushCaches -> TabFlushCaches) : Fl unit := modify (fun s => (s.1, f s.2)).

(** [if (hit) return hit] *)
Definition nonempty (x : option string) : option string :=
  match x with Some s => if String.eqb s "" then None else Some s | None => None end.

Definition cachedLookupObjectId (t : ObjectType) (id : string) : Fl (option string) :=
  let! hit := caches (fun c => nonempty (jm_get (cache_of t c) id)) in
  match hit with
  | Some o => ret (Some o)
  | None =>
      let! found := tb (lookupObjectId t id) in
      do! (match nonempty found with
           | Some o => cache_put (fun c => set_cache t (jm_set (cache_of t c) id o) c)
           | None => ret tt
           end) in
      ret (nonempty found)
  end.

Definition cachedGetOrCreateObjectId (t : ObjectType) (id : string) : Fl string :=
  let! hit := caches (fun c => nonempty (jm_get (cache_of t c) id)) in
  match hit with
  | Some o => ret o
  | None =>
      let! o := tb (getOrCreate t id) in
      do! cache_put (fun c => set_cache t (jm_set (cache_of t c) id o) c) in ret o
  end.

Definition cachedForgetMapping (t : ObjectType) (id : string) : Fl unit :=
  do! cache_put (fun c => set_cache t (jm_delete (cache_of t c) id) c) in
  tb (forgetMapping t id).

Definition overlayKey (objectId field : string) : string := objectId +:+ ":" +:+ field.

Definition overlayOrFieldState (objectId field : string) : Fl jsval :=
  let key := overlayKey objectId field in
  let! hit := caches (fun c => jm_get (fc_overlay c) key) in
  match hit with
  | Some v => ret v
  | None =>
      let! v := tb (store_get (field_value objectId field)) in
      do! cache_put (fun c => set_overlay (jm_set (fc_overlay c) key v) c) in ret v
  end.
Definition overlay_set (objectId field : string) (v : jsval) : Fl unit :=
  cache_put (fun c => set_overlay (jm_set (fc_overlay c) (overlayKey objectId field) v) c).

(** ** Payloads *)

Definition hasTabGroup (supported : bool) (tab : Tab) : option Z :=
  match tab_groupId tab with
  | Some g => if supported && negb (g =? TAB_GROUP_ID_NONE) then Some g else None
  | None => None
  end.

Definition tab_payload (tab : Tab) (url windowObjectId : string) (groupObjectId : option string) : jsval :=
  JObj [("url", JStr url); ("title", of_opt_str (tab_title tab)); ("pinned", JBool (tab_pinned tab)); ("index", JNum (tab_index tab));
        ("windowObjectId", JStr windowObjectId); ("active", JBool (tab_active tab)); ("groupObjectId", of_null_str groupObjectId)].
Definition window_payload (win : Window) : jsval :=
  JObj [("focused", JBool (win_focused win)); ("incognito", JBool (win_incognito win)); ("state", of_opt_str (win_state win))].
Definition group_payload (group : Group) : jsval :=
  JObj [("title", of_opt_str (gr_title group)); ("color", JStr (gr_color group)); ("collapsed", JBool (gr_collapsed group))].

(** [a === b], for values that are not the same object. *)
Definition js_same (a b : jsval) : bool :=
  match a, b with
  | JUndef, JUndef | JNull, JNull => true
  | JBool x, JBool y => Bool.eqb x y
  | JNum x, JNum y => x =? y
  | JStr x, JStr y => String.eqb x y
  | _, _ => false
  end.
Definition same_fields (fields : list string) (a b : jsval) : bool := forallb (fun f => js_same (jget a f) (jget b f)) fields.
Definition tabPayloadsEqual : jsval -> jsval -> bool :=
  same_fields ["url"; "title"; "pinned"; "index"; "windowObjectId"; "active"; "groupObjectId"].
Definition tabGroupPayloadsEqual : jsval -> jsval -> bool := same_fields ["title"; "color"; "collapsed"].

(** [current !== undefined && equal(current, payload)]; a [null] has no
    properties to read. *)
Definition unchanged (equal : jsval -> jsval -> bool) (current payload : jsval) : sync_error + bool :=
  match current with
  | JUndef => inr false
  | JNull => inl (OtherError "TypeError")
  | _ => inr (equal current payload)
  end.
Definition lift_result {S A} (r : sync_error + A) : M S sync_error A := fun s => (r, s).

Definition tabPayload (tab : Tab) : Fl (option jsval) :=
  match tab_id tab, tab_windowId tab, nonempty (tab_url tab) with
  | Some _, Some windowId, Some url =>
      let! windowObjectId := cachedGetOrCreateObjectId WINDOW_TYPE (json_num windowId) in
      let! supported := tb (get_app (fun a => tabGroupsSupported (ta_browser a))) in
      let! groupObjectId := (match hasTabGroup supported tab with
        | Some g => let! o := cachedGetOrCreateObjectId GROUP_TYPE (json_num g) in ret (Some o)
        | None => ret None
        end) in
      ret (Some (tab_payload tab url windowObjectId groupObjectId))
  | _, _, _ => ret None
  end.

(** ** Staging *)

Definition stageRemoval (t : ObjectType) (id : string) (operationType : OperationType) : Fl (option StagedTabOp) :=
  let! objectId := cachedLookupObjectId t id in
  match objectId with
  | None => ret None
  | Some objectId =>
      do! cachedForgetMapping t id in
      ret (Some (mkStagedTab t objectId operationType (JObj []) [("liveness", JStr "deleted")] false None))
  end.

Definition stageWindowCreated (win : Window) : Fl (option StagedTabOp) :=
  match win_id win with
  | None => ret None
  | Some id =>
      if id =? WINDOW_ID_NONE then ret None
      else
        let! objectId := cachedGetOrCreateObjectId WINDOW_TYPE (json_num id) in
        ret (Some (mkStagedTab WINDOW_TYPE objectId OpCreate (window_payload win) [("liveness", JStr "live")] false None))
  end.
Definition stageWindowRemoved (windowId : Z) : Fl (option StagedTabOp) := stageRemoval WINDOW_TYPE (json_num windowId) OpClose.

Definition stageTabCreated (tab : Tab) : Fl (option StagedTabOp) :=
  match tab_id tab with
  | None => ret None
  | Some id =>
      let! payload := tabPayload tab in
      match payload with
      | None => ret None
      | Some payload =>
          let! objectId := cachedGetOrCreateObjectId TAB_TYPE (json_num id) in
          do! overlay_set objectId "state" payload in
          ret (Some (mkStagedTab TAB_TYPE objectId OpCreate payload [("state", payload); ("liveness", JStr "live")] false None))
      end
  end.

Definition stageTabUpdated (tabId : Z) (tab : Tab) (titleOnly : bool) : Fl (option StagedTabOp) :=
  let! objectId := cachedLookupObjectId TAB_TYPE (json_num tabId) in
  match objectId with
  | None =>
      let! opening := tb (get_app (fun a => js_has (materializingTabIds (ta_tabs a)) tabId)) in
      if (opening : bool) then ret None else stageTabCreated tab
  | Some objectId =>
      let! payload := tabPayload tab in
      match payload with
      | None => ret None
      | Some payload =>
          let! current := overlayOrFieldState objectId "state" in
          let! same := lift_result (unchanged tabPayloadsEqual current payload) in
          if (same : bool) then ret None
          else
            do! overlay_set objectId "state" payload in
            ret (Some (mkStagedTab TAB_TYPE objectId OpUpdate payload [("state", payload)] titleOnly None))
      end
  end.

Definition stageTabActivated (activeInfo : TabActiveInfo) : Fl (option StagedTabOp) :=
  let! objectId := cachedLookupObjectId TAB_TYPE (json_num (ai_tabId activeInfo)) in
  match objectId with
  | None => ret None
  | Some objectId =>
      let! current := overlayOrFieldState objectId "active" in
      match current with
      | JBool true => ret None
      | _ =>
          do! overlay_set objectId "active" (JBool true) in
          ret (Some (mkStagedTab TAB_TYPE objectId OpActivate (JObj [("active", JBool true)]) [("active", JBool true)] false
            (Some (ai_windowId activeInfo))))
      end
  end.

Definition stageTabRemoved (tabId : Z) : Fl (option StagedTabOp) :=
  do! tb (tabs_modify (clearTitleDebounce tabId)) in
  stageRemoval TAB_TYPE (json_num tabId) OpClose.

Definition stageGroupUpdated (group : Group) : Fl (option StagedTabOp) :=
  let! objectId := cachedGetOrCreateObjectId GROUP_TYPE (json_num (gr_id group)) in
  let payload := group_payload group in
  let! current := overlayOrFieldState objectId "state" in
  let! same := lift_result (unchanged tabGroupPayloadsEqual current payload) in
  if (same : bool) then ret None
  else
    do! overlay_set objectId "state" payload in
    do! overlay_set objectId "liveness" (JStr "live") in
    ret (Some (mkStagedTab GROUP_TYPE objectId (match current with JUndef => OpCreate | _ => OpUpdate end) payload
      [("state", payload); ("liveness", JStr "live")] false None)).
Definition stageGroupRemoved (group : Group) : Fl (option StagedTabOp) := stageRemoval GROUP_TYPE (json_num (gr_id group)) OpDelete.

Definition stageEvent (event : QueuedTabEvent) : Fl (option StagedTabOp) :=
  match event with
  | TabCreated tab => stageTabCreated tab
  | TabUpdated tabId tab titleOnly => stageTabUpdated tabId tab titleOnly
  | TabActivated activeInfo => stageTabActivated activeInfo
  | TabRemoved tabId => stageTabRemoved tabId
  | GroupUpdated group => stageGroupUpdated group
  | GroupRemoved group => stageGroupRemoved group
  | WindowCreated win => stageWindowCreated win
  | WindowRemoved windowId => stageWindowRemoved windowId
  end.

(** An event that fails is left out; what it did stays. *)
Fixpoint stage_all (events : list QueuedTabEvent) : Fl (list StagedTabOp) :=
  match events with
  | [] => ret []
  | event :: events =>
      let! op := try_catch (stageEvent event) (fun _ => ret None) in
      let! ops := stage_all events in
      ret (match op with Some op => op :: ops | None => ops end)
  end.
End capture.

(** ** One prefetch per flush *)

Section prefetch.
Context {Br : Type} `{Env : TabEnv Br}.
Abbreviation Tb := (Tb (Br := Br)).

(** The ids an event looks up: tabs, windows and groups. *)
Definition tab_refs (supported : bool) (tab : Tab) : list Z * list Z * list Z :=
  (option_list (tab_id tab), option_list (tab_windowId tab), option_list (hasTabGroup supported tab)).
Definition event_refs (supported : bool) (event : QueuedTabEvent) : list Z * list Z * list Z :=
  match event with
  | TabCreated tab => tab_refs supported tab
  | TabUpdated tabId tab _ => let '(tabs, windows, groups) := tab_refs supported tab in (tabId :: tabs, windows, groups)
  | TabActivated activeInfo => ([ai_tabId activeInfo], [], [])
  | TabRemoved tabId => ([tabId], [], [])
  | WindowCreated win => ([], option_list (win_id win), [])
  | WindowRemoved windowId => ([], [windowId], [])
  | GroupUpdated group | GroupRemoved group => ([], [], [gr_id group])
  end.

Definition id_set (ids : list Z) : jset string := js_of_list (map json_num ids).
Definition toObjectIdCache (records : jmap string ObjectMappingRecord) : jmap string string :=
  foldl (fun m kr => jm_set m kr.1 (om_objectId kr.2)) [] records.
Definition read_cache (t : ObjectType) (ids : jset string) (db : DB) : jmap string string :=
  match ids with [] => [] | _ => toObjectIdCache (getMappingsByLocalIds t ids db) end.

Definition prefetchTabFlushCaches (events : list QueuedTabEvent) : Tb TabFlushCaches :=
  let! supported := get_app (fun a => tabGroupsSupported (ta_browser a)) in
  let refs := map (event_refs supported) events in
  store_get (fun db => mkFlushCaches
    (read_cache TAB_TYPE (id_set (concat (map (fun r => r.1.1) refs))) db)
    (read_cache WINDOW_TYPE (id_set (concat (map (fun r => r.1.2) refs))) db)
    (read_cache GROUP_TYPE (id_set (concat (map snd refs))) db) []).

Definition seed_field (field : string) (ids : list string) (found : jmap string FieldStateRecord) (overlay : jmap string jsval) : jmap string jsval :=
  foldl (fun m id => jm_set m (overlayKey id field) (from_option fs_value JUndef (jm_get found id))) overlay ids.
Definition read_states (ids : list string) (field : string) (db : DB) : jmap string FieldStateRecord :=
  match ids with [] => [] | _ => getFieldStatesForObjects ids field db end.

Definition seedOverlay (c : TabFlushCaches) : Tb TabFlushCaches :=
  store_get (fun db =>
    let tabIds := js_of_list (jm_values (fc_tab c)) in
    let groupIds := js_of_list (jm_values (fc_group c)) in
    let stateIds := js_of_list (tabIds ++ groupIds) in
    let overlay := seed_field "state" stateIds (read_states stateIds "state" db) (fc_overlay c) in
    set_overlay (seed_field "active" tabIds (read_states tabIds "active" db) overlay) c).

(** What the flush starts from: live reads for one event, one prefetch for
    more. *)
Definition flush_caches (events : list QueuedTabEvent) : Tb TabFlushCaches :=
  match events with
  | [_] => ret emptyTabFlushCaches
  | _ => let! c := prefetchTabFlushCaches events in seedOverlay c
  end.

Definition stageFlush (events : list QueuedTabEvent) : Tb (list StagedTabOp) := fun s =>
  match flush_caches events s with
  | (inl e, s) => (inl e, s)
  | (inr c, s) => let '(r, x) := stage_all events (s, c) in (r, x.1)
  end.
End prefetch.

(** ** The flush *)

Section flush.
Context {Srv Br : Type} `{Env : TabEnv Br} `{EEnv : EngineEnv Srv (TabApp Br)}.
Context `{SA : SettingsApi sync_error (DB * TabApp Br)}.
Abbreviation Sync := (Sync Srv (TabApp Br)).
(** engine's [scheduleLocalSync] *)
Variable scheduleLocalSync : Sync unit.

Definition adapter {A} (m : Tb (Br := Br) A) : Sync A := fun w =>
  let '(r, x) := m (w_db w, w_app w) in (r, set_db_app x w).

Definition readCaptureToggles : Sync (bool * bool) :=
  try_catch
    (let! settings := adapter (fetchSettings false) in ret (not_off (syncTabs settings), not_off (syncTabGroups settings)))
    (fun _ => ret (true, true)).

Definition is_group_event (e : QueuedTabEvent) : bool :=
  match e with GroupUpdated _ | GroupRemoved _ => true | _ => false end.

Definition opKey (created : LocalOperation * string) : OrderingKey :=
  mkOrderingKey (lamportTimestamp created.1) created.2 (operationId created.1).

Definition flushLoneActivation (activeInfo : TabActiveInfo) : Sync unit :=
  let! objectId := adapter (lookupObjectId TAB_TYPE (json_num (ai_tabId activeInfo))) in
  match nonempty objectId with
  | None => ret tt
  | Some objectId =>
      let! current := adapter (store_get (field_value objectId "active")) in
      match current with
      | JBool true => ret tt
      | _ =>
          let! created := createLocalOperationsBatch
            [mkPendingLocal TAB_TYPE objectId OpActivate (JObj [("active", JBool true)]) None] true in
          match created with
          | c :: _ =>
              let! now := now_next in
              db_update (recordLocalFieldState now objectId "active" (opKey c) OpActivate (JBool true))
          | [] => throw (OtherError "TypeError")
          end
      end
  end.

Definition pending_of_staged (op : StagedTabOp) : PendingLocalOperation :=
  mkPendingLocal (sg_objectType op) (sg_objectId op) (sg_operationType op) (sg_payload op) None.
Definition staged_entries (created : LocalOperation * string) (op : StagedTabOp) : list LocalFieldStateEntry :=
  map (fun f => mkLocalFieldState (sg_objectId op) f.1 (opKey created) (sg_operationType op) f.2) (sg_fields op).

Definition is_meaningful (op : StagedTabOp) : bool :=
  negb (is_activate op) && negb (bool_decide (sg_operationType op = OpUpdate) && sg_titleOnly op).

(** From the staged operations on. *)
Definition commit_staged (staged : list StagedTabOp) : Sync unit :=
  match coalesceStagedOps staged with
  | [] => ret tt
  | coalesced =>
      let! created := createLocalOperationsBatch (map pending_of_staged coalesced) true in
      let! now := now_next in
      do! db_update (recordLocalFieldStatesBatch now (concat (zip_with staged_entries created coalesced))) in
      if existsb is_meaningful coalesced then scheduleLocalSync else ret tt
  end.

Definition flush_burst (events : list QueuedTabEvent) : Sync unit :=
  let! staged := adapter (stageFlush events) in commit_staged staged.

Definition flushTabEvents (events : list QueuedTabEvent) : Sync unit :=
  let! toggles := readCaptureToggles in
  let '(tabsOn, groupsOn) := (toggles : bool * bool) in
  if negb tabsOn then adapter (tabs_modify clearAllTitleDebounce)
  else
    let kept := if groupsOn then events else List.filter (fun e => negb (is_group_event e)) events in
    match negb groupsOn, kept with
    | true, [] => ret tt
    | _, _ =>
        let! stashed := adapter (fun s => let '(l, t) := drainStashedBackgroundTitles (ta_tabs s.2) in (inr l, (s.1, set_tabs t s.2))) in
        match stashed ++ kept with
        | [TabActivated activeInfo] => flushLoneActivation activeInfo
        | events => flush_burst events
        end
    end.

(** The queue's [flushNow]: the batch leaves the queue whatever comes of it. *)
Definition flushTabQueue : Sync unit :=
  let! batch := adapter (fun s =>
    let '(batch, q) := flushNow (tabQueue (ta_tabs s.2)) in (inr batch, (s.1, set_tabs (set_tabQueue q (ta_tabs s.2)) s.2))) in
  match batch with
  | Some events => try_catch (flushTabEvents events) (fun _ => ret tt)
  | None => ret tt
  end.
End flush.
