(* ===== verification/TabsApply.v ===== *)
(** * Applying remote tabs, windows and groups (extension/src/tabs/index.ts, tabs/groupSync.ts)

    What other devices have open is recorded; under the "automatic" policy, or
    on the user's request, it is opened here. Opening several is concurrent:
    each call is a thread of Threads, a step per [await]. *)

From S2P Require Import Prelude JsMap Types Util Json Scheduling Threads Storage Conflict Engine Tabs TabsCapture.

Open Scope Z_scope.
Open Scope js_scope.

(** ** groupSync.ts *)

Definition tabGroupUpdateProps (payload : jsval) : jsval :=
  JObj ([("collapsed", jget payload "collapsed")] ++
        (match jget payload "title" with JUndef => [] | v => [("title", v)] end) ++
        (match jget payload "color" with JUndef => [] | v => [("color", v)] end)).

(** The group to join, if any. *)
Definition tabsGroupOptions `{NumberParser} (existingChromiumGroupId : option string) : option (option Z) :=
  js_Number <$> existingChromiumGroupId.

Section apply.
Context {Br : Type} `{Env : TabEnv Br} `{PA : PolicyApi sync_error (DB * TabApp Br)}.
Abbreviation Tb := (Tb (Br := Br)).
Abbreviation State := (DB * TabApp Br)%type.
Definition Call (A : Type) : Type := Th (S := State) (E := sync_error) A.

Notation "'let*' x ':=' m 'in' k" := (th_bind m (fun x => k)) (at level 10, x name, m at level 100, k at level 200).
Notation "'do*' m 'in' k" := (th_bind m (fun _ => k)) (at level 10, m at level 100, k at level 200).

(** ** Calls *)

Definition later {A} (m : Tb A) : Call A := th_do m.

(** A browser call inside [guard.run]: it is made, then its answer arrives. *)
Definition guarded {A} (call : Br -> (sync_error + A) * Br) : Call A :=
  let* r := later (fun s =>
    let '(r, b) := call (ta_browser s.2) in
    (inr r, (s.1, set_browser b (set_guard (guard_step (ta_guard s.2) RunStarted) s.2)))) in
  later (fun s => (r, (s.1, set_guard (guard_step (ta_guard s.2) RunEnded) s.2))).

Definition on_lock (f : KeyedLock -> KeyedLock) (s : State) : State := (s.1, set_lock (f (ta_groupSyncLock s.2)) s.2).

(** The task's turn has come. *)
Definition may_start (task : nat) (l : KeyedLock) : bool :=
  match lk_tasks l !! task with
  | Some t => match tk_prior t with Some p => is_settled l p | None => true end
  | None => false
  end.
Definition settle_task (task : nat) (l : KeyedLock) : KeyedLock := mkLock (queues l) (set_status task Settled l).
Definition clean_task (key : string) (task : nat) (l : KeyedLock) : KeyedLock :=
  mkLock (if decide (jm_get (queues l) key = Some task) then jm_delete (queues l) key else queues l) (set_status task Cleaned l).

(** [groupSyncLock.run] *)
Definition locked (key : string) (body : Call unit) : Call unit :=
  let* task := later (fun s => (inr (length (lk_tasks (ta_groupSyncLock s.2))), on_lock (lock_run key) s)) in
  do* th_when (fun s => may_start task (ta_groupSyncLock s.2)) (on_lock (fun l => mkLock (queues l) (set_status task Running l))) in
  th_finally
    (th_finally body (th_when (fun _ => true) (on_lock (settle_task task))))
    (th_when (fun _ => true) (on_lock (clean_task key task))).

(** ** Opening *)

Definition type_error : sync_error := OtherError "TypeError".
Definition supported : Tb bool := get_app (fun a => tabGroupsSupported (ta_browser a)).

Definition syncTabGroup (chromiumTabId groupObjectId : string) : Call unit :=
  let* groups := later supported in
  if negb groups then th_ret tt
  else locked groupObjectId
    (let* existingGroupId := later (lookupChromiumLocalId groupObjectId) in
     let* groupId := guarded (tabs_group (js_Number chromiumTabId) (tabsGroupOptions existingGroupId)) in
     do* later (establishMapping GROUP_TYPE (json_num groupId) groupObjectId) in
     let* stored := later (store_get (field_value groupObjectId "state")) in
     if truthy stored then guarded (tabGroups_update (Some groupId) (tabGroupUpdateProps stored)) else th_ret tt).

(** [Number.isSafeInteger(tabId) && tabId >= 0] *)
Definition safe_tab_id (id : string) : option Z :=
  match js_Number id with Some n => if (0 <=? n) && (n <=? MAX_SAFE_INTEGER) then Some n else None | None => None end.

Definition set_opening (f : jset Z -> jset Z) (s : State) : State :=
  (s.1, set_tabs (set_materializing (f (materializingTabIds (ta_tabs s.2))) (ta_tabs s.2)) s.2).

(** A created tab is registered in the step that takes the answer. *)
Definition open_tab (objectId url : string) (pinned : jsval) : Call (option string) :=
  let* r := later (fun s =>
    let '(r, b) := tabs_create url pinned (ta_browser s.2) in
    (inr r, (s.1, set_browser b (set_guard (guard_step (ta_guard s.2) RunStarted) s.2)))) in
  let* created := later (fun s =>
    let s1 := (s.1, set_guard (guard_step (ta_guard s.2) RunEnded) s.2) in
    match r with
    | inr tab => (inr (tab_id tab), match tab_id tab with Some id => set_opening (fun ids => js_add ids id) s1 | None => s1 end)
    | inl e => (inl e, s1)
    end) in
  match created with
  | None => th_ret None
  | Some id =>
      do* th_finally (later (establishMapping TAB_TYPE (json_num id) objectId))
        (th_when (fun _ => true) (set_opening (List.filter (fun i => negb (i =? id))))) in
      th_ret (Some (json_num id))
  end.

(** Updates the mapped tab, or opens one; gives its id. *)
Definition place_tab (objectId url : string) (pinned : jsval) (existing : option string) : Call (option string) :=
  match nonempty existing with
  | Some id =>
      match safe_tab_id id with
      | None => th_throw (OtherError ("Invalid mapped Chromium tab ID: " +:+ id))
      | Some tabId => do* guarded (tabs_update tabId url pinned) in th_ret (Some id)
      end
  | None =>
      let* opened := open_tab objectId url pinned in
      th_ret (match opened with Some id => Some id | None => existing end)
  end.

Definition open_syncable (objectId url : string) (p : jsval) : Call unit :=
  let* existing := later (lookupChromiumLocalId objectId) in
  let* chromiumId := place_tab objectId url (jget p "pinned") existing in
  match nonempty chromiumId, nonempty (as_string (jget p "groupObjectId")) with
  | Some chromiumId, Some groupObjectId => syncTabGroup chromiumId groupObjectId
  | _, _ => th_ret tt
  end.

Definition materializeTab (objectId : string) (p : jsval) : Call unit :=
  match p with
  | JUndef | JNull => th_throw type_error
  | _ =>
      match as_string (jget p "url") with
      | None => th_ret tt
      | Some url => if isSyncableUrl url then open_syncable objectId url p else th_ret tt
      end
  end.

(** [await] of the calls together; the schedule is the environment's. *)
Definition await_all (calls : list (Call unit)) : Tb unit :=
  let! schedule := draw te_schedule in
  promise_all schedule (OtherError "deadlock") calls.

Definition REMOTE_APPLY_CONCURRENCY : nat := 10.

Fixpoint await_batches (batches : list (list (Call unit))) : Tb unit :=
  match batches with
  | [] => ret tt
  | batch :: batches => do! await_all batch in await_batches batches
  end.

Definition materializeAll (targets : list (string * jsval)) : Tb unit :=
  await_batches (slices (map (fun t => materializeTab t.1 t.2) targets) REMOTE_APPLY_CONCURRENCY).

Definition restoreTab (objectId : string) : Tb unit :=
  let! stored := store_get (field_value objectId "state") in
  if truthy stored then await_all [materializeTab objectId stored] else ret tt.

Definition restoreTabs (objectIds : list string) : Tb unit :=
  match objectIds with
  | [] => ret tt
  | _ =>
      let! states := store_get (getFieldStatesForObjects objectIds "state") in
      materializeAll (omap (fun o =>
        let value := from_option fs_value JUndef (jm_get states o) in if truthy value then Some (o, value) else None) objectIds)
  end.

(** ** Recording what other devices do *)

Definition remoteObjectRecord (op : OperationOut) (t : ObjectType) (p : jsval) (deleted : bool) : RemoteObjectRecord :=
  mkRemote (out_objectId op) t (out_deviceId op) p deleted (out_createdAt op).

Definition incoming (op : OperationOut) (value : jsval) : IncomingField :=
  mkIncoming (mkOrderingKey (out_lamportTimestamp op) (out_deviceId op) (out_operationId op)) (out_operationType op) value.

Definition restorePolicy : Tb string :=
  try_catch (let! policy := fetchTabRestorePolicy in ret (default "" policy)) (fun _ => ret "disabled").
Definition is_automatic (policy : string) : bool := String.eqb policy "automatic".

(** [value === "deleted"] and [value === "live"] *)
Definition is_deleted (v : jsval) : bool := js_eq_str v "deleted".
Definition is_live (v : jsval) : bool := js_eq_str v "live".

Definition resolveFieldsNow (objectId : string) (fields : list (string * IncomingField)) : Tb (list ResolveResult) :=
  let! now := draw te_now in store_run (resolveFields now objectId fields).
Definition no_result : ResolveResult := mkResolve false JUndef.
Definition nth_result (i : nat) (rs : list ResolveResult) : ResolveResult := nth i rs no_result.

Definition applyWindowRemote (op : OperationOut) (p : jsval) : Tb unit :=
  let liveValue := if bool_decide (out_operationType op = OpClose) then "deleted" else "live" in
  let! rs := resolveFieldsNow (out_objectId op) [("liveness", incoming op (JStr liveValue))] in
  if applied (nth_result 0 rs) then store_put (putRemoteObject (remoteObjectRecord op WINDOW_TYPE p (String.eqb liveValue "deleted")))
  else ret tt.

Definition applyTabRemote (op : OperationOut) (p : jsval) (cachedPolicy : option string) : Tb unit :=
  let o := out_objectId op in
  match out_operationType op with
  | OpClose =>
      let! rs := resolveFieldsNow o [("liveness", incoming op (JStr "deleted"))] in
      if applied (nth_result 0 rs) then
        do! store_put (putRemoteObject (remoteObjectRecord op TAB_TYPE JNull true)) in
        let! chromiumId := lookupChromiumLocalId o in
        match nonempty chromiumId with Some id => forgetMapping TAB_TYPE id | None => ret tt end
      else ret tt
  | OpActivate => do! resolveFieldsNow o [("active", incoming op (JBool true))] in ret tt
  | _ =>
      let! rs := resolveFieldsNow o [("state", incoming op p); ("liveness", incoming op (JStr "live"))] in
      let stateResult := nth_result 0 rs in
      let liveness := nth_result 1 rs in
      if negb (applied stateResult) then ret tt
      else
        do! store_put (putRemoteObject (remoteObjectRecord op TAB_TYPE (rr_value stateResult) (is_deleted (rr_value liveness)))) in
        if negb (is_live (rr_value liveness)) then ret tt
        else
          let! policy := (match cachedPolicy with Some policy => ret policy | None => restorePolicy end) in
          if negb (is_automatic policy) then ret tt
          else await_all [materializeTab o (rr_value stateResult)]
  end.

Definition update_group (id : string) (p : jsval) : Call unit :=
  match p with
  | JUndef | JNull => th_throw type_error
  | _ => guarded (tabGroups_update (js_Number id) (tabGroupUpdateProps p))
  end.

Definition applyGroupRemote (op : OperationOut) (p : jsval) : Tb unit :=
  let o := out_objectId op in
  match out_operationType op with
  | OpDelete =>
      let! rs := resolveFieldsNow o [("liveness", incoming op (JStr "deleted"))] in
      if applied (nth_result 0 rs) then store_put (putRemoteObject (remoteObjectRecord op GROUP_TYPE JNull true)) else ret tt
  | _ =>
      let! rs := resolveFieldsNow o [("state", incoming op p); ("liveness", incoming op (JStr "live"))] in
      let stateResult := nth_result 0 rs in
      if negb (applied stateResult) then ret tt
      else
        do! store_put (putRemoteObject (remoteObjectRecord op GROUP_TYPE (rr_value stateResult) false)) in
        let! groups := supported in
        if negb groups then ret tt
        else
          let! existingGroupId := lookupChromiumLocalId o in
          match existingGroupId with
          | Some id => await_all [update_group id (rr_value stateResult)]
          | None => ret tt
          end
  end.

(** ** Batches *)

Definition RemoteItem : Type := OperationOut * jsval.

(** The results of one item after the other, as many as it has fields. *)
Fixpoint split_results (counts : list nat) (rs : list ResolveResult) : list (list ResolveResult) :=
  match counts with
  | [] => []
  | n :: counts => take n rs :: split_results counts (drop n rs)
  end.

Definition resolveItems (fieldsFor : RemoteItem -> list (string * jsval)) (items : list RemoteItem) : Tb (list (list ResolveResult)) :=
  let entries := concat (map (fun item =>
    map (fun f => mkEntry (out_objectId item.1) f.1 (incoming item.1 f.2)) (fieldsFor item)) items) in
  let! now := draw te_now in
  let! rs := store_run (resolveFieldsBatch now entries) in
  ret (split_results (map (fun item => length (fieldsFor item)) items) rs).

Definition window_fields (item : RemoteItem) : list (string * jsval) :=
  [("liveness", JStr (if bool_decide (out_operationType item.1 = OpClose) then "deleted" else "live"))].
Definition tab_fields (item : RemoteItem) : list (string * jsval) :=
  match out_operationType item.1 with
  | OpClose => [("liveness", JStr "deleted")]
  | OpActivate => [("active", JBool true)]
  | _ => [("state", item.2); ("liveness", JStr "live")]
  end.
Definition group_fields (item : RemoteItem) : list (string * jsval) :=
  match out_operationType item.1 with
  | OpDelete => [("liveness", JStr "deleted")]
  | _ => [("state", item.2); ("liveness", JStr "live")]
  end.

Definition window_record (ir : RemoteItem * list ResolveResult) : option RemoteObjectRecord :=
  let '((op, p), rs) := ir in
  if applied (nth_result 0 rs) then Some (remoteObjectRecord op WINDOW_TYPE p (bool_decide (out_operationType op = OpClose))) else None.

Definition applyWindowRemoteBatch (items : list RemoteItem) : Tb unit :=
  match items with
  | [] => ret tt
  | _ =>
      let! results := resolveItems window_fields items in
      store_put (putRemoteObjectsBatch (omap window_record (zip items results)))
  end.

(** The record, the closed object, and what to open, of one item. *)
Definition tab_outcome (policy : string) (ir : RemoteItem * list ResolveResult) :
    option RemoteObjectRecord * option string * option (string * jsval) :=
  let '((op, p), rs) := ir in
  match out_operationType op with
  | OpClose =>
      if applied (nth_result 0 rs) then (Some (remoteObjectRecord op TAB_TYPE JNull true), Some (out_objectId op), None)
      else (None, None, None)
  | OpActivate => (None, None, None)
  | _ =>
      let stateResult := nth_result 0 rs in
      let liveness := nth_result 1 rs in
      if negb (applied stateResult) then (None, None, None)
      else
        (Some (remoteObjectRecord op TAB_TYPE (rr_value stateResult) (is_deleted (rr_value liveness))), None,
         if is_live (rr_value liveness) && is_automatic policy then Some (out_objectId op, rr_value stateResult) else None)
  end.

Definition forget_closed (closedObjectIds : list string) (db : DB) : DB :=
  match closedObjectIds with
  | [] => db
  | _ => deleteMappingsBatch TAB_TYPE (map Storage.chromiumLocalId (jm_values (getMappingsByObjectIds closedObjectIds db))) db
  end.

Definition applyTabRemoteBatch (items : list RemoteItem) : Tb unit :=
  match items with
  | [] => ret tt
  | _ =>
      let! policy := restorePolicy in
      let! results := resolveItems tab_fields items in
      let outcomes := map (tab_outcome policy) (zip items results) in
      do! store_put (putRemoteObjectsBatch (omap (fun o => o.1.1) outcomes)) in
      do! store_put (forget_closed (omap (fun o => o.1.2) outcomes)) in
      materializeAll (omap snd outcomes)
  end.

Definition group_outcome (ir : RemoteItem * list ResolveResult) : option RemoteObjectRecord * option (string * jsval) :=
  let '((op, p), rs) := ir in
  match out_operationType op with
  | OpDelete => (if applied (nth_result 0 rs) then Some (remoteObjectRecord op GROUP_TYPE JNull true) else None, None)
  | _ =>
      let stateResult := nth_result 0 rs in
      if applied stateResult
      then (Some (remoteObjectRecord op GROUP_TYPE (rr_value stateResult) false), Some (out_objectId op, rr_value stateResult))
      else (None, None)
  end.

Definition applyGroupRemoteBatch (items : list RemoteItem) : Tb unit :=
  match items with
  | [] => ret tt
  | _ =>
      let! results := resolveItems group_fields items in
      let outcomes := map group_outcome (zip items results) in
      do! store_put (putRemoteObjectsBatch (omap fst outcomes)) in
      let metadataUpdates := omap snd outcomes in
      let! groups := supported in
      match groups, metadataUpdates with
      | true, _ :: _ =>
          let! mappings := store_get (getMappingsByObjectIds (map fst metadataUpdates)) in
          let runnable := omap (fun u => (fun r => update_group (Storage.chromiumLocalId r) u.2) <$> jm_get mappings u.1) metadataUpdates in
          await_batches (slices runnable REMOTE_APPLY_CONCURRENCY)
      | _, _ => ret tt
      end
  end.
End apply.
