(* ===== verification/TabsCoalesceFacts.v ===== *)
(** * Coalescing staged tab operations

    What of a burst is left out, and that nothing that matters is. *)

From S2P Require Import Prelude JsMap Types Util Storage Conflict Engine Tabs.

Open Scope Z_scope.
Open Scope js_scope.

(** ** Leaving out what something later makes pointless *)

Fixpoint prune {A} (gone : A -> list A -> bool) (l : list A) : list A :=
  match l with
  | [] => []
  | a :: l => if gone a l then prune gone l else a :: prune gone l
  end.

Definition activates_window (w : Z) (op : StagedTabOp) : bool := is_activate op && bool_decide (sg_windowId op = Some w).
(** An activation with a later one in its window. *)
Definition outshone (op : StagedTabOp) (later : list StagedTabOp) : bool :=
  is_activate op && match sg_windowId op with Some w => existsb (activates_window w) later | None => false end.

Definition is_update (op : StagedTabOp) : bool := bool_decide (sg_operationType op = OpUpdate).
Definition is_close (op : StagedTabOp) : bool := bool_decide (sg_operationType op = OpClose).
Definition same_object (op op' : StagedTabOp) : bool := String.eqb (sg_objectId op) (sg_objectId op').
(** An update or activation with a later one, or a close, of its object. *)
Definition superseded (op : StagedTabOp) (later : list StagedTabOp) : bool :=
  (is_update op && existsb (fun op' => same_object op op' && (is_update op' || is_close op')) later) ||
  (is_activate op && existsb (fun op' => same_object op op' && (is_activate op' || is_close op')) later).

(** ** The walk *)

Lemma existsb_false_filter {A} (f : A -> bool) l : existsb f l = false -> List.filter f l = [].
Proof. induction l as [|a l IH]; [done|]. cbn. destruct (f a); [done|exact IH]. Qed.

Lemma js_has_add (s : jset string) k k' : js_has (js_add s k) k' = js_has s k' || String.eqb k' k.
Proof.
  unfold js_has. destruct (String.eqb_spec k' k) as [->|Hne].
  - rewrite orb_true_r. apply bool_decide_eq_true_2, js_add_elem. by right.
  - rewrite orb_false_r. apply bool_decide_ext. rewrite js_add_elem. tauto.
Qed.

(** Whether [op] goes, when [later] has been walked from the sets. *)
Definition goes (upd act : jset string) (op : StagedTabOp) (later : list StagedTabOp) : bool :=
  (is_update op && (js_has upd (sg_objectId op) || existsb (fun op' => same_object op op' && (is_update op' || is_close op')) later)) ||
  (is_activate op && (js_has act (sg_objectId op) || existsb (fun op' => same_object op op' && (is_activate op' || is_close op')) later)).

Lemma walk_snoc upd act later op :
  coalesce_walk upd act (later ++ [op]) = coalesce_walk upd act later ++ (if goes upd act op later then [] else [op]).
Proof.
  revert upd act. induction later as [|x later IH]; intros upd act; cbn [app coalesce_walk].
  - unfold goes, is_update, is_activate, is_close. cbn. rewrite !orb_false_r.
    destruct (sg_operationType op) eqn:Ht; cbn; rewrite ?Ht; cbn; try done; by destruct (js_has _ _).
  - unfold goes in *. cbn [existsb]. unfold same_object, is_update, is_close, is_activate in *.
    destruct (sg_operationType x) eqn:Hx; cbn; rewrite ?andb_false_r, ?andb_true_r, ?orb_false_r; cbn; rewrite ?IH; try done.
    all: try (destruct (js_has _ (sg_objectId x)) eqn:Hin); rewrite ?IH, ?js_has_add; cbn; rewrite ?orb_assoc; try done.
    all: destruct (String.eqb_spec (sg_objectId op) (sg_objectId x)) as [->|]; by rewrite ?Hin, ?orb_false_r.
Qed.

Lemma existsb_rev {A} (f : A -> bool) l : existsb f (rev l) = existsb f l.
Proof.
  induction l as [|a l IH]; [done|]. cbn. rewrite existsb_app, IH. cbn. rewrite orb_false_r. apply orb_comm.
Qed.

Lemma walk_prune l : rev (coalesce_walk [] [] (rev l)) = prune superseded l.
Proof.
  induction l as [|op l IH]; [done|]. cbn [rev prune]. rewrite walk_snoc, rev_app_distr, IH.
  assert (goes [] [] op (rev l) = superseded op l) as -> by (unfold goes, superseded; cbn; by rewrite !existsb_rev).
  by destruct (superseded op l).
Qed.

(** ** The last activation of a window *)

Lemma last_activations_get w l start :
  jm_get (last_activations (zip (seq start (length l)) l)) w =
  match last (List.filter (fun iop => activates_window w iop.2) (zip (seq start (length l)) l)) with Some iop => Some iop.1 | None => None end.
Proof.
  unfold last_activations. induction l as [|op l IH] using rev_ind; [done|].
  rewrite length_app, seq_app, zip_with_app by by rewrite length_seq. cbn. rewrite foldl_app, List.filter_app. cbn.
  destruct (activates_window w op) eqn:Haw.
  - unfold activates_window in Haw. apply andb_true_iff in Haw as [Ha Hw%bool_decide_eq_true_1]. rewrite Hw, Ha, jm_get_set_eq.
    by rewrite last_snoc.
  - rewrite app_nil_r, <- IH. unfold activates_window in Haw. destruct (sg_windowId op) as [w'|]; [|done].
    destruct (is_activate op); [|done]. cbn in Haw. apply bool_decide_eq_false_1 in Haw. rewrite jm_get_set_ne by congruence. done.
Qed.

Lemma prune_numbered {A} (gone : A -> list A -> bool) (keep : nat * A -> bool) l start :
  (forall i a, l !! i = Some a -> keep ((start + i)%nat, a) = negb (gone a (drop (S i) l))) ->
  map snd (List.filter keep (zip (seq start (length l)) l)) = prune gone l.
Proof.
  revert start. induction l as [|a l IH]; intros start H; [done|]. cbn [length seq zip_with List.filter prune].
  pose proof (H 0%nat a eq_refl) as H0. rewrite Nat.add_0_r in H0. rewrite H0.
  assert (map snd (List.filter keep (zip (seq (S start) (length l)) l)) = prune gone l) as E.
  { apply IH. intros i b Hb. rewrite Nat.add_succ_comm. by apply (H (S i) b). }
  cbn [drop]. rewrite ?drop_0. destruct (gone a l); cbn; [exact E|]. by rewrite E.
Qed.

Lemma numbered_lookup {A} (l : list A) i : numbered l !! i = (fun a => (i, a)) <$> l !! i.
Proof.
  unfold numbered. rewrite lookup_zip_with. destruct (l !! i) as [a|] eqn:Hi; [|by destruct (seq _ _ !! i)].
  rewrite lookup_seq_lt by (by eapply lookup_lt_Some). done.
Qed.

(** The number recorded for a window is [i] exactly where no later operation
    activates it. *)
Lemma last_activation_iff w l i op : l !! i = Some op -> activates_window w op = true ->
  bool_decide (jm_get (last_activations (numbered l)) w = Some i) = negb (existsb (activates_window w) (drop (S i) l)).
Proof.
  intros Hi Hw. unfold numbered. rewrite last_activations_get. fold (numbered l).
  assert (numbered l = take i (numbered l) ++ (i, op) :: drop (S i) (numbered l)) as E.
  { symmetry. apply take_drop_middle. by rewrite numbered_lookup, Hi. }
  rewrite E, List.filter_app. cbn [List.filter snd]. rewrite Hw.
  assert (existsb (activates_window w) (drop (S i) l) = existsb (fun iop => activates_window w iop.2) (drop (S i) (numbered l))) as ->.
  { assert (drop (S i) l = (drop (S i) (numbered l)).*2) as ->.
    { unfold numbered. rewrite fmap_drop, snd_zip; [done|by rewrite length_seq]. }
    generalize (drop (S i) (numbered l)). intros k. induction k as [|x k IH]; [done|]. cbn. by rewrite IH. }
  assert (forall iop, iop ∈ drop (S i) (numbered l) -> iop.1 <> i) as Hne.
  { intros iop (j & Hj)%list_elem_of_lookup. rewrite lookup_drop, numbered_lookup in Hj.
    apply fmap_Some in Hj as (b & _ & ->). cbn. lia. }
  destruct (existsb _ _) eqn:Hex; cbn.
  - apply bool_decide_eq_false_2. apply existsb_exists in Hex as (x & Hx & Hax).
    rewrite last_app. cbn [last]. destruct (List.filter _ (drop (S i) (numbered l))) as [|y k] eqn:Hf.
    { assert (In x []) as [] . rewrite <- Hf. by apply filter_In. }
    rewrite last_cons. destruct (last (y :: k)) as [z|] eqn:Hz; [|by apply last_None in Hz].
    apply last_Some_elem_of in Hz. rewrite <- Hf in Hz. apply list_elem_of_In, filter_In in Hz as [Hz _].
    apply list_elem_of_In, Hne in Hz. congruence.
  - apply bool_decide_eq_true_2. rewrite last_app.
    assert (List.filter (fun iop => activates_window w iop.2) (drop (S i) (numbered l)) = []) as ->; [|done].
    apply (existsb_false_filter _ _ Hex).
Qed.

Lemma keep_last_prune staged : keep_last_per_window staged = prune outshone staged.
Proof.
  unfold keep_last_per_window. destruct (last_activations (numbered staged)) as [|x m] eqn:Hm.
  - assert (forall w, existsb (activates_window w) staged = false) as Hno.
    { intros w. apply not_true_is_false. intros (op & Hin & Hw)%existsb_exists.
      apply list_elem_of_In, list_elem_of_lookup in Hin as (i & Hi).
      pose proof (last_activations_get w staged 0) as Hg. fold (numbered staged) in Hg. rewrite Hm in Hg. cbn in Hg.
      destruct (last _) as [y|] eqn:Hl; [done|]. apply last_None in Hl.
      assert ((i, op) ∈ numbered staged) as Hel by (apply (list_elem_of_lookup_2 _ i); by rewrite numbered_lookup, Hi).
      apply list_elem_of_In in Hel. assert (In (i, op) []) as []. rewrite <- Hl. by apply filter_In. }
    symmetry. clear Hm. induction staged as [|op l IH]; [done|]. cbn [prune].
    assert (forall w, existsb (activates_window w) l = false) as Hl.
    { intros w. specialize (Hno w). cbn in Hno. by apply orb_false_iff in Hno as [_ ?]. }
    assert (outshone op l = false) as -> by (unfold outshone; destruct (sg_windowId op); rewrite ?Hl; apply andb_false_r).
    by rewrite IH.
  - rewrite <- Hm. clear Hm x m. unfold numbered at 2. apply prune_numbered. intros i op Hi. cbn [fst snd Nat.add].
    unfold outshone. destruct (is_activate op) eqn:Ha; [|done]. cbn. destruct (sg_windowId op) as [w|] eqn:Hw; [|done].
    apply (last_activation_iff w staged i op Hi). unfold activates_window. by rewrite Ha, Hw, bool_decide_eq_true_2.
Qed.

(** ** What is kept *)

Definition sets (o field : string) (op : StagedTabOp) : bool :=
  String.eqb (sg_objectId op) o && existsb (fun f => String.eqb f.1 field) (sg_fields op).
(** The operation whose value of the field stands in the end. *)
Definition last_setter (o field : string) (ops : list StagedTabOp) : option StagedTabOp := last (List.filter (sets o field) ops).

Lemma last_setter_cons o field op ops :
  last_setter o field (op :: ops) = match last_setter o field ops with
                                    | Some x => Some x
                                    | None => if sets o field op then Some op else None
                                    end.
Proof. unfold last_setter. cbn. destruct (sets o field op); [by rewrite last_cons|]. by destruct (last _). Qed.

Lemma last_setter_exists o field ops : existsb (sets o field) ops = true -> last_setter o field ops <> None.
Proof.
  unfold last_setter. intros (op & Hin & Hs)%existsb_exists Hn. apply last_None in Hn.
  assert (In op []) as []. rewrite <- Hn. by apply filter_In.
Qed.

Lemma last_setter_prune gone o field ops :
  (forall op later, (op :: later) `suffix_of` ops -> gone op later = true -> sets o field op = true -> existsb (sets o field) later = true) ->
  last_setter o field (prune gone ops) = last_setter o field ops.
Proof.
  induction ops as [|op ops IH]; intros H; [done|]. cbn [prune]. rewrite last_setter_cons.
  assert (last_setter o field (prune gone ops) = last_setter o field ops) as E by (apply IH; intros; eapply H; eauto using suffix_cons_r).
  destruct (gone op ops) eqn:Hg; [|by rewrite last_setter_cons, E].
  rewrite E. destruct (last_setter o field ops) eqn:Hl; [done|]. destruct (sets o field op) eqn:Hs; [|done].
  by destruct (last_setter_exists _ _ _ (H op ops (reflexivity _) Hg Hs)).
Qed.

Lemma prune_sub {A} (gone : A -> list A -> bool) l : prune gone l `sublist_of` l.
Proof. induction l as [|a l IH]; [done|]. cbn. destruct (gone a l); [by apply sublist_cons|by apply sublist_skip]. Qed.

Lemma prune_filter {A} (gone : A -> list A -> bool) (f : A -> bool) l :
  (forall a later, f a = true -> gone a later = false) -> List.filter f (prune gone l) = List.filter f l.
Proof.
  intros H. induction l as [|a l IH]; [done|]. cbn. destruct (f a) eqn:Hf.
  - rewrite (H a l Hf). cbn. by rewrite Hf, IH.
  - destruct (gone a l); cbn; [done|]. by rewrite Hf.
Qed.

(** As the stage functions make them: the updates of an object set the same
    fields, and an activation sets [active] only. *)
Record uniform (staged : list StagedTabOp) : Prop := {
  un_update : forall op op', op ∈ staged -> op' ∈ staged -> is_update op = true -> is_update op' = true ->
    sg_objectId op = sg_objectId op' -> map fst (sg_fields op) = map fst (sg_fields op');
  un_activate : forall op, op ∈ staged -> is_activate op = true -> map fst (sg_fields op) = ["active"];
}.

Definition closes (o : string) (op : StagedTabOp) : bool := is_close op && String.eqb (sg_objectId op) o.

Lemma sets_same_fields o field op op' : sg_objectId op = sg_objectId op' -> map fst (sg_fields op) = map fst (sg_fields op') ->
  sets o field op = true -> sets o field op' = true.
Proof.
  unfold sets. intros <- Hf. assert (forall l, existsb (fun f : string * jsval => String.eqb f.1 field) l = existsb (fun k => String.eqb k field) (map fst l)) as Hm
    by (intros l; induction l as [|x l IH]; [done|]; cbn; by rewrite IH).
  by rewrite !Hm, Hf.
Qed.

Lemma activate_sets o field op : is_activate op = true -> map fst (sg_fields op) = ["active"] -> field <> "active" -> sets o field op = false.
Proof.
  intros _ Hf Hne. unfold sets. destruct (sg_fields op) as [|[k v] [|]]; try done. cbn in Hf. injection Hf as ->. cbn [existsb fst].
  assert (String.eqb "active" field = false) as -> by (apply String.eqb_neq; congruence). by rewrite andb_false_r.
Qed.

(** Coalescing a burst leaves out exactly the activations that have a later
    one in their window and then the updates and activations that have a later
    one, or a close, of their object, and keeps the order. Creates, deletes and
    closes all stay; and the last value staged for any field but [active] of an
    object that is not closed in the burst is the last value kept. *)
Theorem coalesce_exact staged : uniform staged ->
  coalesceStagedOps staged = prune superseded (prune outshone staged) /\
  List.filter (fun op => negb (is_update op || is_activate op)) (coalesceStagedOps staged) =
    List.filter (fun op => negb (is_update op || is_activate op)) staged /\
  forall o field, field <> "active" -> existsb (closes o) staged = false ->
    last_setter o field (coalesceStagedOps staged) = last_setter o field staged.
Proof.
  intros Hu. assert (coalesceStagedOps staged = prune superseded (prune outshone staged)) as E
    by (unfold coalesceStagedOps; by rewrite walk_prune, keep_last_prune).
  rewrite E. split; [done|]. split.
  - rewrite !prune_filter; [done|..]; intros op later; unfold outshone, superseded; destruct (is_update op), (is_activate op); done.
  - intros o field Hne Hc. assert (forall op, op ∈ prune outshone staged -> op ∈ staged) as Hsub
      by (intros op Hop; eapply elem_of_sublist; [exact Hop|apply prune_sub]).
    rewrite !last_setter_prune; [done|..]; intros op later Hsuf Hg Hs.
    + unfold outshone in Hg. apply andb_true_iff in Hg as [Ha _].
      assert (op ∈ staged) as Hop by (destruct Hsuf as [k ->]; apply elem_of_app; right; left).
      rewrite (activate_sets o field op Ha (un_activate _ Hu op Hop Ha) Hne) in Hs. done.
    + assert (forall x, x ∈ op :: later -> x ∈ staged) as Hin by (intros x Hx; apply Hsub; destruct Hsuf as [k ->]; apply elem_of_app; by right).
      unfold superseded in Hg. apply orb_true_iff in Hg as [[Hup (x & Hx & Hsx)%existsb_exists]%andb_true_iff|[Ha _]%andb_true_iff].
      2:{ rewrite (activate_sets o field op Ha (un_activate _ Hu op (Hin op (list_elem_of_here _ _)) Ha) Hne) in Hs. done. }
      apply list_elem_of_In in Hx. apply andb_true_iff in Hsx as [Hso Hk]. apply String.eqb_eq in Hso.
      apply existsb_exists. exists x. split; [by apply list_elem_of_In|].
      apply orb_true_iff in Hk as [Hk|Hk].
      * eapply sets_same_fields; [exact Hso| |exact Hs]. apply (un_update _ Hu); auto; [apply Hin; left|apply Hin; by right].
      * exfalso. apply not_true_iff_false in Hc. apply Hc, existsb_exists. exists x.
        split; [apply list_elem_of_In, Hin; by right|]. unfold closes. rewrite Hk, <- Hso. cbn.
        unfold sets in Hs. by apply andb_true_iff in Hs as [? _].
Qed.
