(* ===== verification/TabsFlushFacts.v ===== *)
(** * The flush's prefetch is invisible

    Staging a burst from what one prefetch read gives the same operations, and
    leaves the same state, as staging it with live reads throughout. *)

From S2P Require Import Prelude JsMap Types Util Json Scheduling Storage StorageFacts Conflict Crypto Engine EngineKeeps Tabs TabsCapture TabsCoalesceFacts.

Open Scope Z_scope.
Open Scope js_scope.

Section prefetch.
Context {Br : Type} `{Env : TabEnv Br}.
Abbreviation State := (TbState (Br := Br)).

(** ** Caches that agree with the database *)

Definition cached_types : list ObjectType := [TAB_TYPE; WINDOW_TYPE; GROUP_TYPE].

(** [staged]: the values this flush has staged; anything else in the overlay
    is what the database holds. *)
Record coherent (db : DB) (staged : string -> option jsval) (c : TabFlushCaches) : Prop := {
  co_cache : forall t id o, t ∈ cached_types -> jm_get (cache_of t c) id = Some o ->
    om_objectId <$> getMappingByLocalId t id db = Some o;
  co_wf : forall t, t ∈ cached_types -> jm_wf (cache_of t c);
  co_staged : forall key v, staged key = Some v -> jm_get (fc_overlay c) key = Some v;
  co_stored : forall o f v, staged (overlayKey o f) = None -> jm_get (fc_overlay c) (overlayKey o f) = Some v -> v = field_value o f db;
}.

(** Run from two coherent caches, it does the same. *)
Definition steady {A} (m : Fl (Br := Br) A) : Prop := forall (s : State) c1 c2 staged,
  coherent s.1 staged c1 -> coherent s.1 staged c2 ->
  let '(r1, (s1, d1)) := m (s, c1) in
  let '(r2, (s2, d2)) := m (s, c2) in
  r1 = r2 /\ s1 = s2 /\ exists staged', coherent s1.1 staged' d1 /\ coherent s1.1 staged' d2.

Lemma steady_ret {A} (a : A) : steady (ret a).
Proof. intros s c1 c2 staged H1 H2. cbn. eauto 6. Qed.
Lemma steady_lift {A} (r : sync_error + A) : steady (lift_result r).
Proof. intros s c1 c2 staged H1 H2. cbn. eauto 6. Qed.

Lemma steady_bind {A B} (m : Fl A) (f : A -> Fl B) : steady m -> (forall a, steady (f a)) -> steady (bind m f).
Proof.
  intros Hm Hf s c1 c2 staged H1 H2. specialize (Hm s c1 c2 staged H1 H2). unfold bind.
  destruct (m (s, c1)) as [r1 [s1 d1]], (m (s, c2)) as [r2 [s2 d2]]. destruct Hm as (-> & -> & staged' & H1' & H2').
  destruct r2 as [e|a]; [eauto 6|]. exact (Hf a s2 d1 d2 staged' H1' H2').
Qed.

Lemma steady_try {A} (m : Fl A) h : steady m -> (forall e, steady (h e)) -> steady (try_catch m h).
Proof.
  intros Hm Hh s c1 c2 staged H1 H2. specialize (Hm s c1 c2 staged H1 H2). unfold try_catch.
  destruct (m (s, c1)) as [r1 [s1 d1]], (m (s, c2)) as [r2 [s2 d2]]. destruct Hm as (-> & -> & staged' & H1' & H2').
  destruct r2 as [e|a]; [|eauto 6]. exact (Hh e s2 d1 d2 staged' H1' H2').
Qed.

(** What leaves mappings and field states alone. *)
Lemma coherent_db db db' staged c : object_mappings db' = object_mappings db -> field_state db' = field_state db ->
  coherent db staged c -> coherent db' staged c.
Proof.
  intros Hm Hf [H1 H2 H3 H4]. split; [|done..|].
  - intros t id o Ht Hg. unfold getMappingByLocalId. rewrite Hm. by apply H1.
  - intros o f v Hs Hg. unfold field_value, getFieldState. rewrite Hf. by apply H4.
Qed.

Lemma steady_tb {A} (m : Tb (Br := Br) A) : (forall s, object_mappings (m s).2.1 = object_mappings s.1 /\ field_state (m s).2.1 = field_state s.1) ->
  steady (tb m).
Proof.
  intros Hm s c1 c2 staged H1 H2. unfold tb. cbn. destruct (Hm s) as [Hom Hfs]. destruct (m s) as [r x]. cbn in *.
  split_and!; [done..|]. exists staged. split; by apply (coherent_db s.1).
Qed.

(** ** Lookups *)

Lemma coherent_hit db staged c t id : t ∈ cached_types -> coherent db staged c ->
  match nonempty (jm_get (cache_of t c) id) with
  | Some o => om_objectId <$> getMappingByLocalId t id db = Some o /\ o <> ""
  | None => True
  end.
Proof.
  intros Ht Hc. destruct (jm_get (cache_of t c) id) as [o|] eqn:Hg; [|done]. cbn. destruct (String.eqb_spec o ""); [done|].
  split; [by eapply co_cache|done].
Qed.

Lemma cached_types_inv t : t ∈ cached_types -> t = TAB_TYPE \/ t = WINDOW_TYPE \/ t = GROUP_TYPE.
Proof. unfold cached_types. rewrite !elem_of_cons, elem_of_nil. tauto. Qed.

Lemma cache_of_set t u m c : t ∈ cached_types -> u ∈ cached_types ->
  cache_of u (set_cache t m c) = if decide (t = u) then m else cache_of u c.
Proof.
  intros Ht Hu. apply cached_types_inv in Ht as [-> |[-> | ->]], Hu as [-> |[-> | ->]]; done.
Qed.
Lemma overlay_set_cache t m c : fc_overlay (set_cache t m c) = fc_overlay c.
Proof. by destruct t. Qed.

(** Caching what the database has. *)
Lemma coherent_cache db staged c t id o : t ∈ cached_types -> om_objectId <$> getMappingByLocalId t id db = Some o ->
  coherent db staged c -> coherent db staged (set_cache t (jm_set (cache_of t c) id o) c).
Proof.
  intros Ht Ho [H1 H2 H3 H4]. split; rewrite ?overlay_set_cache; [|..|done|done].
  - intros u i o' Hu. rewrite cache_of_set by done. case_decide as E; [subst u|by apply H1].
    rewrite jm_get_set. case_decide; [intros [= <-]; by subst|by apply H1].
  - intros u Hu. rewrite cache_of_set by done. case_decide; [apply jm_set_wf|]; by apply H2.
Qed.

Lemma steady_lookup t id : t ∈ cached_types -> steady (cachedLookupObjectId t id).
Proof.
  intros Ht s c1 c2 staged H1 H2.
  assert (forall c, coherent s.1 staged c -> exists d, cachedLookupObjectId t id (s, c) =
    (inr (nonempty (om_objectId <$> getMappingByLocalId t id s.1)), (s, d)) /\ coherent s.1 staged d) as Hone.
  { intros c Hc. pose proof (coherent_hit _ _ _ t id Ht Hc) as Hhit. unfold cachedLookupObjectId, bind, caches. cbn [snd].
    destruct (nonempty (jm_get (cache_of t c) id)) as [o|].
    - destruct Hhit as [Ho Hne]. exists c. rewrite Ho. cbn. assert (String.eqb o "" = false) as -> by by apply String.eqb_neq. done.
    - unfold tb, lookupObjectId. cbn [fst snd]. destruct (nonempty (om_objectId <$> getMappingByLocalId t id s.1)) as [o|] eqn:Ho; [|by exists c].
      eexists. split; [done|]. cbn. apply coherent_cache; [done| |done].
      destruct (om_objectId <$> _) as [o'|] eqn:E; [|done]. cbn in Ho. destruct (String.eqb o' ""); congruence. }
  destruct (Hone c1 H1) as (d1 & -> & Hd1), (Hone c2 H2) as (d2 & -> & Hd2). eauto 6.
Qed.

(** Overlay entries survive what changes mappings only. *)
Lemma coherent_put db r staged c t id : t ∈ cached_types -> om_key r = mappingKey t id ->
  getMappingByLocalId t id db = None -> coherent db staged c ->
  coherent (putMapping r db) staged (set_cache t (jm_set (cache_of t c) id (om_objectId r)) c).
Proof.
  intros Ht Hk Hn [H1 H2 H3 H4]. split; rewrite ?overlay_set_cache; [|..|done|done].
  - intros u i o Hu. rewrite cache_of_set by done. unfold getMappingByLocalId. cbn. unfold put_mapping. rewrite Hk.
    case_decide as E.
    + subst u. rewrite jm_get_set. case_decide as Ei; [subst i; rewrite lookup_insert_eq; by intros [= <-]|].
      intros Hg. rewrite lookup_insert_ne; [by apply H1|]. intros K. by apply mappingKey_inj in K.
    + intros Hg. rewrite lookup_insert_ne; [by apply H1|]. intros K. by apply mappingKey_type_inj in K.
  - intros u Hu. rewrite cache_of_set by done. case_decide; [apply jm_set_wf|]; by apply H2.
Qed.

Lemma steady_getOrCreate t id : t ∈ cached_types -> steady (cachedGetOrCreateObjectId t id).
Proof.
  intros Ht s c1 c2 staged H1 H2.
  assert (forall c, coherent s.1 staged c -> exists d, cachedGetOrCreateObjectId t id (s, c) =
    (let '(r, s') := getOrCreate t id s in (r, (s', d))) /\ coherent (getOrCreate t id s).2.1 staged d) as Hone.
  { intros c Hc. pose proof (coherent_hit _ _ _ t id Ht Hc) as Hhit. unfold cachedGetOrCreateObjectId, bind, caches. cbn [snd].
    unfold getOrCreate, getOrCreateObjectId, bind. 
    destruct (nonempty (jm_get (cache_of t c) id)) as [o|].
    - destruct Hhit as [Ho Hne]. exists c. destruct (getMappingByLocalId t id s.1) as [r|]; [|done]. cbn in *. by simplify_eq.
    - unfold tb, bind. cbn [fst snd]. destruct (getMappingByLocalId t id s.1) as [r|] eqn:Ho.
      + eexists. split; [done|]. cbn. apply coherent_cache; [done|by rewrite Ho|done].
      + eexists. split; [done|]. cbn. by apply (coherent_put s.1 (mkMapping (mappingKey t id) t id _)). }
  destruct (Hone c1 H1) as (d1 & -> & Hd1), (Hone c2 H2) as (d2 & -> & Hd2).
  destruct (getOrCreate t id s) as [r s']. cbn in *. eauto 6.
Qed.

Lemma steady_forget t id : t ∈ cached_types -> steady (cachedForgetMapping t id).
Proof.
  intros Ht s c1 c2 staged H1 H2. cbn. split_and!; [done..|]. exists staged.
  assert (forall c, coherent s.1 staged c -> coherent (deleteMappingByLocalId t id s.1) staged (set_cache t (jm_delete (cache_of t c) id) c)) as Hone; [|auto].
  intros c [K1 K2 K3 K4]. split; rewrite ?overlay_set_cache; [|..|done|done].
  - intros u i o Hu. rewrite cache_of_set by done. unfold getMappingByLocalId. cbn. case_decide as E.
    + subst u. rewrite jm_get_delete by by apply K2. case_decide as Ei; [done|]. intros Hg.
      rewrite lookup_delete_ne; [by apply K1|]. intros K. by apply mappingKey_inj in K.
    + intros Hg. rewrite lookup_delete_ne; [by apply K1|]. intros K. by apply mappingKey_type_inj in K.
  - intros u Hu. rewrite cache_of_set by done. case_decide; [apply jm_delete_wf|]; by apply K2.
Qed.

(** ** The overlay *)

Lemma field_value_key o f o' f' db : overlayKey o f = overlayKey o' f' -> field_value o f db = field_value o' f' db.
Proof. unfold overlayKey, field_value, getFieldState, fieldStateKey. by intros ->. Qed.

Lemma cache_of_overlay t m c : cache_of t (set_overlay m c) = cache_of t c.
Proof. by destruct t. Qed.

Lemma steady_overlay_set o f v : steady (overlay_set o f v).
Proof.
  intros s c1 c2 staged H1 H2. cbn. split_and!; [done..|].
  exists (fun key => if decide (overlayKey o f = key) then Some v else staged key).
  assert (forall c, coherent s.1 staged c -> coherent s.1 (fun key => if decide (overlayKey o f = key) then Some v else staged key)
    (set_overlay (jm_set (fc_overlay c) (overlayKey o f) v) c)) as Hone; [|auto].
  intros c [K1 K2 K3 K4]. split.
  - intros t id o' Ht. rewrite cache_of_overlay. by apply K1.
  - intros t Ht. rewrite cache_of_overlay. by apply K2.
  - intros key v'. cbn. rewrite jm_get_set. case_decide; [done|]. apply K3.
  - intros o' f' v'. cbn. rewrite jm_get_set. case_decide; [done|]. apply K4.
Qed.

Lemma steady_overlay_get o f : steady (overlayOrFieldState o f).
Proof.
  intros s c1 c2 staged H1 H2. set (v0 := match staged (overlayKey o f) with Some v => v | None => field_value o f s.1 end).
  assert (forall c, coherent s.1 staged c -> exists d, overlayOrFieldState o f (s, c) = (inr v0, (s, d)) /\ coherent s.1 staged d) as Hone.
  { intros c Hc. unfold overlayOrFieldState, bind, caches. cbn [snd]. destruct (jm_get (fc_overlay c) (overlayKey o f)) as [v|] eqn:Hg.
    - exists c. split; [|done]. assert (v = v0) as ->; [|done]. unfold v0. destruct (staged (overlayKey o f)) as [v'|] eqn:Hs.
      + pose proof (co_staged _ _ _ Hc _ _ Hs) as K. rewrite Hg in K. by injection K.
      + by apply (co_stored _ _ _ Hc o f).
    - destruct Hc as [K1 K2 K3 K4]. assert (staged (overlayKey o f) = None) as Hs.
      { destruct (staged _) as [v|] eqn:Hs; [|done]. apply K3 in Hs. congruence. }
      eexists. split; [cbn; unfold v0; by rewrite Hs|]. split.
      + intros t id o' Ht. rewrite cache_of_overlay. by apply K1.
      + intros t Ht. rewrite cache_of_overlay. by apply K2.
      + intros key v Hv. cbn. rewrite jm_get_set. case_decide as E; [subst key; congruence|by apply K3].
      + intros o' f' v Hs'. cbn. rewrite jm_get_set. case_decide as E; [intros [= <-]; by apply field_value_key|by apply K4]. }
  destruct (Hone c1 H1) as (d1 & -> & Hd1), (Hone c2 H2) as (d2 & -> & Hd2). eauto 6.
Qed.

(** ** Staging *)

Lemma in_TAB : TAB_TYPE ∈ cached_types. Proof. by left. Qed.
Lemma in_WINDOW : WINDOW_TYPE ∈ cached_types. Proof. right. by left. Qed.
Lemma in_GROUP : GROUP_TYPE ∈ cached_types. Proof. right. right. by left. Qed.

Lemma steady_get_app {A} (f : TabApp Br -> A) : steady (tb (get_app f)).
Proof. by apply steady_tb. Qed.
Lemma steady_tabs_modify f : steady (tb (tabs_modify f)).
Proof. by apply steady_tb. Qed.
End prefetch.

Create HintDb steady.
#[local] Hint Resolve steady_ret steady_lift steady_lookup steady_getOrCreate steady_forget steady_overlay_set steady_overlay_get
  steady_get_app steady_tabs_modify in_TAB in_WINDOW in_GROUP : steady.
(** Through the steps of a stage function. *)
Ltac steady_tac :=
  repeat (intros; first
    [ solve [auto with steady]
    | apply steady_bind
    | match goal with
      | |- steady (match ?x with _ => _ end) => destruct x
      | |- steady (if ?x then _ else _) => destruct x
      end ]).

Section staging.
Context {Br : Type} `{Env : TabEnv Br}.

Lemma steady_payload tab : steady (Br := Br) (tabPayload tab).
Proof. unfold tabPayload. steady_tac. Qed.
Lemma steady_removal t id ot : t ∈ cached_types -> steady (Br := Br) (stageRemoval t id ot).
Proof. intros Ht. unfold stageRemoval. steady_tac. Qed.
Hint Resolve steady_payload steady_removal : steady.
Lemma steady_created tab : steady (Br := Br) (stageTabCreated tab).
Proof. unfold stageTabCreated. steady_tac. Qed.
Hint Resolve steady_created : steady.

Lemma steady_event e : steady (Br := Br) (stageEvent e).
Proof.
  destruct e; cbn [stageEvent]; unfold stageTabUpdated, stageTabActivated, stageTabRemoved, stageGroupUpdated, stageGroupRemoved,
    stageWindowCreated, stageWindowRemoved; steady_tac.
Qed.

Lemma steady_all events : steady (Br := Br) (stage_all events).
Proof.
  induction events as [|e es IH]; cbn; [apply steady_ret|]. apply steady_bind; [apply steady_try; [apply steady_event|intros; apply steady_ret]|].
  intros op. apply steady_bind; [exact IH|]. intros ops. apply steady_ret.
Qed.

(** ** The prefetched caches *)

Lemma foldl_cache (l : jmap string ObjectMappingRecord) (m : jmap string string) id o : jm_wf l ->
  jm_get (foldl (fun m kr => jm_set m kr.1 (om_objectId kr.2)) m l) id = Some o ->
  jm_get m id = Some o \/ om_objectId <$> jm_get l id = Some o.
Proof.
  revert m. induction l as [|[k r] l IH]; intros m Hwf Hg; cbn in *; [by left|].
  apply NoDup_cons in Hwf as [Hk Hwf]. destruct (IH _ Hwf Hg) as [H|H].
  - rewrite jm_get_set in H. case_decide as E; [subst k; simplify_eq; rewrite decide_True by done; by right|by left].
  - right. case_decide as E; [|done]. subst k. exfalso. apply Hk. destruct (jm_get l id) as [x|] eqn:Hx; [|done].
    apply jm_get_Some_elem in Hx. apply list_elem_of_fmap. by exists (id, x).
Qed.

Lemma foldl_cache_wf (l : jmap string ObjectMappingRecord) (m : jmap string string) : jm_wf m ->
  jm_wf (foldl (fun m kr => jm_set m kr.1 (om_objectId kr.2)) m l).
Proof. revert m. induction l as [|kr l IH]; intros m Hm; [done|]. cbn. by apply IH, jm_set_wf. Qed.

Lemma read_cache_ok t ids db id o : jm_get (read_cache t ids db) id = Some o -> om_objectId <$> getMappingByLocalId t id db = Some o.
Proof.
  unfold read_cache. destruct ids as [|i ids]; [done|]. unfold toObjectIdCache. intros [H|H]%foldl_cache; [done| |apply getMappingsByLocalIds_wf].
  rewrite getMappingsByLocalIds_get in H. by case_decide.
Qed.
Lemma read_cache_wf t ids db : jm_wf (read_cache t ids db).
Proof. unfold read_cache. destruct ids; [apply jm_nil_wf|]. apply foldl_cache_wf, jm_nil_wf. Qed.

(** Every entry is what the database holds. *)
Definition stored_overlay (db : DB) (m : jmap string jsval) : Prop :=
  forall o f v, jm_get m (overlayKey o f) = Some v -> v = field_value o f db.

Lemma seed_stored db field ids found m : (forall id, id ∈ ids -> jm_get found id = getFieldState id field db) ->
  stored_overlay db m -> stored_overlay db (seed_field field ids found m).
Proof.
  unfold seed_field. revert m. induction ids as [|id ids IH]; intros m Hf Hm; [done|]. cbn. apply IH; [intros i Hi; apply Hf; by right|].
  intros o f v. rewrite jm_get_set. case_decide as E; [intros [= <-]|apply Hm].
  rewrite (Hf id) by left. by apply (field_value_key id field o f db).
Qed.

Lemma read_states_ok ids field db id : id ∈ ids -> jm_get (read_states ids field db) id = getFieldState id field db.
Proof.
  intros Hid. unfold read_states. destruct ids as [|i ids]; [by apply not_elem_of_nil in Hid|].
  by rewrite getFieldStatesForObjects_get, decide_True.
Qed.

Lemma empty_coherent db : coherent db (fun _ => None) emptyTabFlushCaches.
Proof.
  split; [|intros t Ht; apply cached_types_inv in Ht as [-> |[-> | ->]]; apply jm_nil_wf|done..].
  intros t id o Ht. apply cached_types_inv in Ht as [-> |[-> | ->]]; done.
Qed.

Lemma flush_caches_ok events (s : TbState (Br := Br)) : exists c, flush_caches events s = (inr c, s) /\ coherent s.1 (fun _ => None) c.
Proof.
  pose proof (empty_coherent s.1) as H0.
  assert (exists c, (let! c := prefetchTabFlushCaches events in seedOverlay c) s = (inr c, s) /\ coherent s.1 (fun _ => None) c) as Hmany.
  { eexists. split; [reflexivity|]. split; [..|done|].
    - intros t id o Ht. rewrite cache_of_overlay. apply cached_types_inv in Ht as [-> |[-> | ->]]; apply read_cache_ok.
    - intros t Ht. rewrite cache_of_overlay. apply cached_types_inv in Ht as [-> |[-> | ->]]; apply read_cache_wf.
    - intros o f v _. cbn [fc_overlay set_overlay]. revert o f v. apply seed_stored; [intros; by apply read_states_ok|].
      apply seed_stored; [intros; by apply read_states_ok|]. done. }
  unfold flush_caches. destruct events as [|e [|e' es]]; [exact Hmany| |exact Hmany]. by exists emptyTabFlushCaches.
Qed.

(** Live reads throughout. *)
Definition stage_live (events : list QueuedTabEvent) : Tb (Br := Br) (list StagedTabOp) := fun s =>
  let '(r, x) := stage_all events (s, emptyTabFlushCaches) in (r, x.1).

Lemma stageFlush_live events (s : TbState (Br := Br)) : stageFlush events s = stage_live events s.
Proof.
  unfold stageFlush, stage_live. destruct (flush_caches_ok events s) as (c & -> & Hc).
  pose proof (empty_coherent s.1) as H0.
  generalize (steady_all events s c emptyTabFlushCaches _ Hc H0).
  destruct (stage_all events (s, c)) as [r1 [s1 d1]], (stage_all events (s, emptyTabFlushCaches)) as [r2 [s2 d2]].
  cbn beta iota. intros (-> & -> & _). done.
Qed.
End staging.

Section paths.
Context {Srv Br : Type} `{Env : TabEnv Br} `{EEnv : EngineEnv Srv (TabApp Br)}.
Variable scheduleLocalSync : Sync Srv (TabApp Br) unit.

(** The flush without its shortcuts. *)
Definition flush_live (events : list QueuedTabEvent) : Sync Srv (TabApp Br) unit :=
  let! staged := adapter (stage_live events) in commit_staged scheduleLocalSync staged.

Lemma coalesce_one op : coalesceStagedOps [op] = [op].
Proof.
  unfold coalesceStagedOps. rewrite walk_prune, keep_last_prune. cbn.
  assert (outshone op [] = false) as -> by (unfold outshone; destruct (sg_windowId op); apply andb_false_r).
  cbn. unfold superseded. cbn. by rewrite !andb_false_r.
Qed.

Definition activation_of (o : string) (ai : TabActiveInfo) : StagedTabOp :=
  mkStagedTab TAB_TYPE o OpActivate (JObj [("active", JBool true)]) [("active", JBool true)] false (Some (ai_windowId ai)).

Lemma stage_live_activation ai (s : TbState (Br := Br)) : stage_live [TabActivated ai] s =
  (inr (match nonempty (om_objectId <$> getMappingByLocalId TAB_TYPE (json_num (ai_tabId ai)) s.1) with
        | None => []
        | Some o => match field_value o "active" s.1 with JBool true => [] | _ => [activation_of o ai] end
        end), s).
Proof.
  unfold stage_live. cbn [stage_all stageEvent]. unfold stageTabActivated, cachedLookupObjectId, bind, try_catch, caches, tb, lookupObjectId.
  cbn [fst snd cache_of emptyTabFlushCaches fc_tab jm_get nonempty TAB_TYPE].
  destruct (nonempty (om_objectId <$> _)) as [o|]; [|done]. cbn. by destruct (field_value o "active" s.1) as [| |[]| | | |].
Qed.

(** The one operation's field state, by the single write or the batched one. *)
Lemma activation_committed o ai (w : World Srv (TabApp Br)) :
  (let! created := createLocalOperationsBatch [mkPendingLocal TAB_TYPE o OpActivate (JObj [("active", JBool true)]) None] true in
   match created with
   | c :: _ => let! now := now_next in db_update (recordLocalFieldState now o "active" (opKey c) OpActivate (JBool true))
   | [] => throw (OtherError "TypeError")
   end) w =
  (let! created := createLocalOperationsBatch [mkPendingLocal TAB_TYPE o OpActivate (JObj [("active", JBool true)]) None] true in
   let! now := now_next in
   do! db_update (recordLocalFieldStatesBatch now (concat (zip_with staged_entries created [activation_of o ai]))) in
   if existsb is_meaningful [activation_of o ai] then scheduleLocalSync else ret tt) w.
Proof.
  unfold bind. pose proof (createLocalOperationsBatch_created [mkPendingLocal TAB_TYPE o OpActivate (JObj [("active", JBool true)]) None] true w) as Hc.
  destruct (createLocalOperationsBatch _ _ w) as [[e|created] w1]; [done|]. apply Forall2_length in Hc.
  destruct created as [|c [|c' l]]; [done| |done]. reflexivity.
Qed.

(** C36. A flush stages the same operations, writes the same field states and
    leaves the same state whichever way it reads: one event with live reads, a
    burst with one prefetch, a lone activation on its own short path. *)
Theorem flush_paths_agree w :
  (forall events, flush_burst scheduleLocalSync events w = flush_live events w) /\
  (forall activeInfo, flushLoneActivation activeInfo w = flush_live [TabActivated activeInfo] w).
Proof.
  assert (forall events, flush_burst scheduleLocalSync events w = flush_live events w) as Hburst.
  { intros events. unfold flush_burst, flush_live, bind, adapter. by rewrite stageFlush_live. }
  split; [exact Hburst|]. intros ai.
  unfold flushLoneActivation, flush_live, adapter, bind. rewrite stage_live_activation. cbn [lookupObjectId fst snd].
  assert (set_db_app (w_db w, w_app w) w = w) as Hw by by destruct w.
  rewrite Hw. destruct (nonempty _) as [o|]; [|done]. cbn [store_get fst snd]. rewrite Hw.
  unfold commit_staged. destruct (field_value o "active" (w_db w)) as [| |[]| | | |]; try done; rewrite coalesce_one; cbn [map pending_of_staged activation_of
    sg_objectType sg_objectId sg_operationType sg_payload]; apply activation_committed.
Qed.
End paths.
