(* ===== verification/TabsRemoteFacts.v ===== *)
(** * A batch of remote tab operations is the sequence of its items

    While nothing is to be opened here, the batched applier leaves the database
    the one-at-a-time applier leaves. *)

From S2P Require Import Prelude JsMap Types Util Json Scheduling Threads Storage StorageFacts Conflict ConflictFacts Engine Tabs TabsCapture TabsApply.

Open Scope Z_scope.
Open Scope js_scope.

(** ** Results, item by item *)

Definition item_entries (fieldsFor : RemoteItem -> list (string * jsval)) (item : RemoteItem) : list BatchFieldResolution :=
  map (fun f => mkEntry (out_objectId item.1) f.1 (incoming item.1 f.2)) (fieldsFor item).

Fixpoint item_results (now : Z) (m : gmap string FieldStateRecord) (ess : list (list BatchFieldResolution)) : list (list ResolveResult) :=
  match ess with
  | [] => []
  | es :: ess => store_results now m es :: item_results now (foldl (store_step now) m es) ess
  end.

Lemma store_results_app now m es1 es2 :
  store_results now m (es1 ++ es2) = store_results now m es1 ++ store_results now (foldl (store_step now) m es1) es2.
Proof. revert m. induction es1 as [|e es1 IH]; intros m; cbn; [done|]. by rewrite IH. Qed.
Lemma store_results_length now m es : length (store_results now m es) = length es.
Proof. revert m. induction es as [|e es IH]; intros m; cbn; [done|]. by rewrite IH. Qed.

Lemma split_results_each now m ess :
  split_results (map length ess) (store_results now m (concat ess)) = item_results now m ess.
Proof.
  revert m. induction ess as [|es ess IH]; intros m; cbn; [done|].
  rewrite store_results_app, take_app_length', drop_app_length' by by rewrite store_results_length. by rewrite IH.
Qed.

(** ** Mappings of closed objects *)

Definition find_mapping (o : string) (m : gmap string ObjectMappingRecord) : option ObjectMappingRecord :=
  getMappingByObjectId o (set_mappings m emptyDB).

(** Under its own key, one per object; a tab, with a browser id, where it is
    one of [objects]. *)
Record tidy (objects : list string) (m : gmap string ObjectMappingRecord) : Prop := {
  td_key : forall k r, m !! k = Some r -> k = mappingKey (om_objectType r) (chromiumLocalId r);
  td_one : forall k1 k2 r1 r2, m !! k1 = Some r1 -> m !! k2 = Some r2 -> om_objectId r1 = om_objectId r2 -> k1 = k2;
  td_tab : forall k r, m !! k = Some r -> om_objectId r ∈ objects -> om_objectType r = TAB_TYPE /\ chromiumLocalId r <> "";
}.

Lemma find_mapping_spec objects m o r : tidy objects m ->
  find_mapping o m = Some r <-> exists k, m !! k = Some r /\ om_objectId r = o.
Proof.
  intros Ht. unfold find_mapping, getMappingByObjectId. cbn [object_mappings set_mappings].
  assert (forall k r, (k, r) ∈ filter (fun r : string * ObjectMappingRecord => om_objectId r.2 = o) (rows m) <-> m !! k = Some r /\ om_objectId r = o) as Hin.
  { intros k r'. rewrite list_elem_of_filter, (index_elem _ m _ _ (rows_perm _)). cbn. tauto. }
  split.
  - intros ([k r'] & Hh & [= ->])%fmap_Some. apply head_Some_elem_of, Hin in Hh as [Hk Ho]. by exists k.
  - intros (k & Hk & Ho). destruct (filter _ (rows m)) as [|[k' r'] l] eqn:Hf.
    { exfalso. apply (not_elem_of_nil (k, r)), Hin. done. }
    cbn. destruct (proj1 (Hin k' r')) as [Hk' Ho']; [left|].
    assert (k = k') as -> by (eapply (td_one _ _ Ht); [done..|congruence]). congruence.
Qed.

(** One object at a time. *)
Definition forget_in (m : gmap string ObjectMappingRecord) (o : string) : gmap string ObjectMappingRecord :=
  match nonempty (chromiumLocalId <$> find_mapping o m) with
  | Some id => delete (mappingKey TAB_TYPE id) m
  | None => m
  end.

Lemma forget_in_lookup objects m o k : tidy objects m -> o ∈ objects ->
  forget_in m o !! k = match m !! k with Some r => if decide (om_objectId r = o) then None else Some r | None => None end.
Proof.
  intros Ht Ho. unfold forget_in. destruct (find_mapping o m) as [r|] eqn:Hf.
  - apply (find_mapping_spec _ _ _ _ Ht) in Hf as (k0 & Hk0 & Hr). destruct (td_tab _ _ Ht _ _ Hk0) as [Hty Hne]; [by rewrite Hr|].
    cbn. apply String.eqb_neq in Hne. rewrite Hne. pose proof (td_key _ _ Ht _ _ Hk0) as Hk. rewrite Hty in Hk. rewrite <- Hk.
    destruct (decide (k0 = k)) as [<-|Hd].
    + by rewrite lookup_delete_eq, Hk0, decide_True.
    + rewrite lookup_delete_ne by done. destruct (m !! k) as [r'|] eqn:Hk'; [|done]. rewrite decide_False; [done|].
      intros Hr'. apply Hd. eapply (td_one _ _ Ht); [done..|congruence].
  - cbn. destruct (m !! k) as [r|] eqn:Hk; [|done]. rewrite decide_False; [done|]. intros Hr.
    assert (find_mapping o m = Some r) as E by (apply (find_mapping_spec _ _ _ _ Ht); eauto). congruence.
Qed.

Lemma tidy_sub objects m m' : (forall k r, m' !! k = Some r -> m !! k = Some r) -> tidy objects m -> tidy objects m'.
Proof. intros Hs [H1 H2 H3]. split; eauto. Qed.

Lemma forget_all_lookup objects m closed k : tidy objects m -> (forall o, o ∈ closed -> o ∈ objects) ->
  foldl forget_in m closed !! k = match m !! k with Some r => if decide (om_objectId r ∈ closed) then None else Some r | None => None end.
Proof.
  revert m. induction closed as [|o closed IH]; intros m Ht Hsub; cbn [foldl].
  - destruct (m !! k) as [r|]; [|done]. by rewrite decide_False by apply not_elem_of_nil.
  - assert (o ∈ objects) as Ho by (apply Hsub; left).
    rewrite IH; [| |intros; apply Hsub; by right].
    + rewrite (forget_in_lookup objects) by done. destruct (m !! k) as [r|]; [|done].
      destruct (decide (om_objectId r = o)) as [->|Hne]; [by rewrite decide_True by left|].
      destruct (decide (om_objectId r ∈ closed)); [by rewrite decide_True by by right|]. rewrite decide_False; [done|].
      intros [?|?]%elem_of_cons; done.
    + apply (tidy_sub _ m); [|done]. intros k' r. rewrite (forget_in_lookup objects) by done.
      destruct (m !! k') as [r'|]; [|done]. by case_decide.
Qed.

(** All at once. *)
Lemma forget_closed_lookup objects db closed k : tidy objects (object_mappings db) -> (forall o, o ∈ closed -> o ∈ objects) ->
  object_mappings (forget_closed closed db) !! k =
  match object_mappings db !! k with Some r => if decide (om_objectId r ∈ closed) then None else Some r | None => None end.
Proof.
  intros Ht Hsub. unfold forget_closed. destruct closed as [|o l]; [by destruct (object_mappings db !! k); [rewrite decide_False by apply not_elem_of_nil|]|].
  remember (o :: l) as closed. assert (closed <> []) as Hne by by subst. clear Heqclosed o l.
  set (found := getMappingsByObjectIds closed db).
  assert (forall r, r ∈ jm_values found <-> exists k, object_mappings db !! k = Some r /\ om_objectId r ∈ closed) as Hfound.
  { assert (forall o, jm_get found o = if decide (o ∈ closed) then find_mapping o (object_mappings db) else None) as Hget.
    { intros o. unfold found, getMappingsByObjectIds. destruct closed; [done|]. apply (getAllChunked_get _ (fun id => getMappingByObjectId id db)). }
    assert (jm_wf found) as Hwf by (unfold found, getMappingsByObjectIds; destruct closed; [done|apply getAllChunked_wf]).
    intros r. unfold jm_values. split.
    - intros ([o r'] & -> & Hin)%list_elem_of_fmap. apply (jm_get_elem _ _ _ Hwf) in Hin. rewrite Hget in Hin. case_decide; [|done].
      apply (find_mapping_spec _ _ _ _ Ht) in Hin as (k0 & Hk0 & Hr). exists k0. cbn. by rewrite Hr.
    - intros (k0 & Hk0 & Hr). apply list_elem_of_fmap. exists (om_objectId r, r). split; [done|]. apply jm_get_Some_elem.
      rewrite Hget, decide_True by done. apply (find_mapping_spec _ _ _ _ Ht). eauto. }
  assert (object_mappings (deleteMappingsBatch TAB_TYPE (map chromiumLocalId (jm_values found)) db) !! k =
    if decide (k ∈ map (mappingKey TAB_TYPE) (map chromiumLocalId (jm_values found))) then None else object_mappings db !! k) as ->.
  { unfold deleteMappingsBatch. destruct (map chromiumLocalId (jm_values found)) as [|i b]; [by rewrite decide_False by apply not_elem_of_nil|].
    cbn [object_mappings set_mappings]. rewrite putAllChunked_foldl.
    rewrite <- (lookup_foldl_delete (map (mappingKey TAB_TYPE) (i :: b))). f_equal.
    generalize (object_mappings db). generalize (i :: b). intros l. induction l as [|x l IHl]; intros m'; cbn; [done|]. apply IHl. }
  case_decide as Hd.
  - apply list_elem_of_fmap in Hd as (id & -> & Hid). apply list_elem_of_fmap in Hid as (r & -> & Hr). apply Hfound in Hr as (k0 & Hk0 & Hr).
    destruct (td_tab _ _ Ht _ _ Hk0 (Hsub _ Hr)) as [Hty _]. pose proof (td_key _ _ Ht _ _ Hk0) as E. rewrite Hty in E. rewrite <- E.
    by rewrite Hk0, decide_True.
  - destruct (object_mappings db !! k) as [r|] eqn:Hk; [|done]. rewrite decide_False; [done|]. intros Hr. apply Hd.
    destruct (td_tab _ _ Ht _ _ Hk (Hsub _ Hr)) as [Hty _]. pose proof (td_key _ _ Ht _ _ Hk) as E. rewrite Hty in E. rewrite E.
    apply list_elem_of_fmap_2, list_elem_of_fmap_2, Hfound. eauto.
Qed.

(** ** One item *)

Definition forget_object (o : string) (db : DB) : DB := set_mappings (forget_in (object_mappings db) o) db.

(** What one operation does to the database, where nothing is opened. *)
Definition apply_one (now : Z) (policy : string) (db : DB) (item : RemoteItem) : DB :=
  let es := item_entries tab_fields item in
  let out := tab_outcome policy (item, store_results now (field_state db) es) in
  let db1 := set_field_state (foldl (store_step now) (field_state db) es) db in
  let db2 := match out.1.1 with Some r => putRemoteObject r db1 | None => db1 end in
  match out.1.2 with Some o => forget_object o db2 | None => db2 end.

Section remote.
Context {Br : Type} `{Env : TabEnv Br} `{PA : PolicyApi sync_error (DB * TabApp Br)}.
Abbreviation State := (TbState (Br := Br)).

Lemma set_mappings_eta db : set_mappings (object_mappings db) db = db.
Proof. by destruct db. Qed.

Lemma applyTabRemote_one policy op p (s : State) : is_automatic policy = false ->
  applyTabRemote op p (Some policy) s = (inr tt, (apply_one (te_now (ta_entropy s.2)) policy s.1 (op, p), bump s.2)).
Proof.
  intros Hpol. unfold applyTabRemote, apply_one, item_entries, tab_outcome, tab_fields, resolveFieldsNow, resolveFields, bind, draw, store_run, store_put, modify.
  cbn [fst snd]. destruct (out_operationType op) eqn:Ht; cbn [map fst snd]; rewrite resolveEntriesInTx_spec; cbn [fst snd]; try done;
    set (rs := store_results _ _ _); (destruct (applied (nth_result 0 rs)); cbn; rewrite ?Hpol, ?andb_false_r; [|done]);
    try (destruct (is_live _); cbn; rewrite ?Hpol; done).
  unfold forget_object, forget_in. cbn.
  match goal with |- context[getMappingByObjectId ?o ?db] => change (getMappingByObjectId o db) with (find_mapping o (object_mappings s.1)) end.
  destruct (nonempty _) as [id|]; done.
Qed.

Fixpoint apply_each (policy : string) (items : list RemoteItem) : Tb (Br := Br) unit :=
  match items with
  | [] => ret tt
  | item :: items => do! applyTabRemote item.1 item.2 (Some policy) in apply_each policy items
  end.

Lemma apply_each_foldl policy now items (s : State) : is_automatic policy = false -> (forall n, te_now n = now) ->
  (apply_each policy items s).1 = inr tt /\ (apply_each policy items s).2.1 = foldl (apply_one now policy) s.1 items.
Proof.
  intros Hpol Hnow. revert s. induction items as [|[op p] items IH]; intros s; [done|]. cbn [apply_each foldl fst snd].
  unfold bind. rewrite applyTabRemote_one by done. rewrite Hnow. apply (IH (_, _)).
Qed.

(** The whole sequence, store by store. *)
Lemma apply_all now policy items db :
  let ess := map (item_entries tab_fields) items in
  let outs := map (tab_outcome policy) (zip items (item_results now (field_state db) ess)) in
  foldl (apply_one now policy) db items =
  set_mappings (foldl forget_in (object_mappings db) (omap (fun o => o.1.2) outs))
    (set_remote (foldl (fun m r => <[ro_objectId r := r]> m) (remote_objects db) (omap (fun o => o.1.1) outs))
      (set_field_state (foldl (store_step now) (field_state db) (concat ess)) db)).
Proof.
  cbv zeta. revert db. induction items as [|item items IH]; intros db; [by destruct db|].
  cbn [map concat foldl item_results zip_with omap list_omap]. rewrite IH. clear IH. rewrite foldl_app.
  set (es := item_entries tab_fields item). set (out := tab_outcome policy (item, store_results now (field_state db) es)).
  assert (field_state (apply_one now policy db item) = foldl (store_step now) (field_state db) es) as ->.
  { unfold apply_one. fold es. fold out. by destruct out as [[[r|] [o|]] ?]. }
  generalize (map (tab_outcome policy) (zip items (item_results now (foldl (store_step now) (field_state db) es) (map (item_entries tab_fields) items)))).
  intros outs. unfold apply_one. fold es. fold out. destruct out as [[[r|] [o|]] ?]; reflexivity.
Qed.

Lemma putRemoteObjectsBatch_foldl rs db :
  putRemoteObjectsBatch rs db = set_remote (foldl (fun m r => <[ro_objectId r := r]> m) (remote_objects db) rs) db.
Proof.
  unfold putRemoteObjectsBatch. destruct rs as [|r rs]; [by destruct db|]. rewrite (putAllChunked_map (fun r m => <[ro_objectId r := r]> m)). done.
Qed.

Lemma outcomes_quiet policy irs : is_automatic policy = false -> omap snd (map (tab_outcome policy) irs) = [].
Proof.
  intros Hp. induction irs as [|[[op p] rs] irs IH]; [done|]. cbn [map omap list_omap].
  match goal with |- context[match ?x with Some _ => _ | None => _ end] => assert (x = None) as ->; [|exact IH] end.
  unfold tab_outcome. destruct (out_operationType op); try done; destruct (applied _); cbn; rewrite ?Hp, ?andb_false_r; done.
Qed.

Lemma closed_objects policy items irs o : o ∈ omap (fun o => o.1.2) (map (tab_outcome policy) (zip items irs)) ->
  o ∈ map (fun item => out_objectId item.1) items.
Proof.
  revert irs. induction items as [|[op p] items IH]; intros [|rs irs]; cbn [zip_with map omap list_omap]; [by intros ?%not_elem_of_nil..|].
  cbn [fst snd]. match goal with |- context[match ?x with Some _ => _ | None => _ end] => assert (x = None \/ x = Some (out_objectId op)) as [-> | ->] end.
  { unfold tab_outcome. destruct (out_operationType op); try (by left); destruct (applied _); cbn; by (left + right). }
  - intros H. right. by eapply IH.
  - intros [->|H]%elem_of_cons; [by left|right; by eapply IH].
Qed.

Lemma resolveItems_spec fieldsFor items (s : State) :
  resolveItems fieldsFor items s =
  let ess := map (item_entries fieldsFor) items in
  (inr (item_results (te_now (ta_entropy s.2)) (field_state s.1) ess),
   (set_field_state (foldl (store_step (te_now (ta_entropy s.2))) (field_state s.1) (concat ess)) s.1, bump s.2)).
Proof.
  cbv zeta. unfold resolveItems, bind, draw, store_run. cbn [fst snd]. fold (item_entries fieldsFor).
  assert (forall es, resolveFieldsBatch (te_now (ta_entropy s.2)) es s.1 = (store_results (te_now (ta_entropy s.2)) (field_state s.1) es,
    set_field_state (foldl (store_step (te_now (ta_entropy s.2))) (field_state s.1) es) s.1)) as ->.
  { intros [|e es]; [cbn; by destruct s as [[] ?]|apply resolveEntriesInTx_spec]. }
  unfold ret. change (map (fun item : RemoteItem => map (fun f => mkEntry (out_objectId item.1) f.1 (incoming item.1 f.2)) (fieldsFor item)) items)
    with (map (item_entries fieldsFor) items).
  assert (map (fun item : RemoteItem => length (fieldsFor item)) items = map length (map (item_entries fieldsFor) items)) as ->.
  { rewrite map_map. apply map_ext. intros item. unfold item_entries. by rewrite length_map. }
  by rewrite split_results_each.
Qed.

Lemma forget_closed_mappings closed db : forget_closed closed db = set_mappings (object_mappings (forget_closed closed db)) db.
Proof.
  unfold forget_closed, deleteMappingsBatch. destruct closed as [|o l]; [by rewrite set_mappings_eta|].
  destruct (map chromiumLocalId _); [by rewrite set_mappings_eta|done].
Qed.

(** C35. As long as nothing is to be opened here, applying a batch of tab
    operations leaves the database that applying them one after the other
    leaves: the one resolution transaction, the one write of remote objects and
    the one cleanup of the closed tabs' mappings are invisible. Browser and
    module state are not touched. *)
Theorem applyTabRemoteBatch_sequential policy now items (s : State) :
  restorePolicy s = (inr policy, s) -> is_automatic policy = false -> (forall n, te_now n = now) ->
  tidy (map (fun item => out_objectId item.1) items) (object_mappings s.1) ->
  (applyTabRemoteBatch items s).1 = inr tt /\ (apply_each policy items s).1 = inr tt /\
  (applyTabRemoteBatch items s).2.1 = (apply_each policy items s).2.1 /\
  ta_browser (applyTabRemoteBatch items s).2.2 = ta_browser s.2 /\ ta_tabs (applyTabRemoteBatch items s).2.2 = ta_tabs s.2.
Proof.
  intros Hpol Hquiet Hnow Ht. destruct (apply_each_foldl policy now items s Hquiet Hnow) as [Hr ->]. rewrite apply_all. cbv zeta.
  unfold applyTabRemoteBatch. destruct items as [|item items]; [by destruct s as [[] ?]|]. remember (item :: items) as l eqn:Hl. clear Hl item items.
  unfold bind. rewrite Hpol, resolveItems_spec. cbv zeta. rewrite Hnow. cbn [fst snd]. unfold store_put, modify. cbn [fst snd].
  rewrite outcomes_quiet by done. cbn. split_and!; try done.
  rewrite putRemoteObjectsBatch_foldl. cbn [remote_objects set_field_state].
  set (closed := omap (fun o => o.1.2) _). set (db1 := set_remote _ _).
  assert (object_mappings db1 = object_mappings s.1) as Hm by done.
  assert (forall o, o ∈ closed -> o ∈ map (fun item => out_objectId item.1) l) as Hsub by (intros o; apply closed_objects).
  assert (forget_closed closed db1 = set_mappings (object_mappings (forget_closed closed db1)) db1) as ->.
  { apply forget_closed_mappings. }
  f_equal. apply map_eq. intros k.
  rewrite (forget_closed_lookup (map (fun item => out_objectId item.1) l)), (forget_all_lookup (map (fun item => out_objectId item.1) l)); rewrite ?Hm; done.
Qed.
End remote.

(** * Opening remote tabs spares the user's own

    However the calls interleave, a batch of remote tab operations changes no
    tab of the browser but those mapped to its objects and those it opens. *)

Section spare.
Context {Br : Type} `{Env : TabEnv Br} `{PA : PolicyApi sync_error (DB * TabApp Br)}.
Abbreviation State := (TbState (Br := Br)).
(** What must stay true of the browser, the browser ids the batch may touch,
    and its objects. *)
Variables (P : Br -> Prop) (mine : string -> Prop) (objects : list string).

(** Changing a tab of [mine], opening one, and changing groups, keep [P]; what
    the browser opens is [mine]. *)
Record spares : Prop := {
  sp_create : forall url pinned b, P b -> P (tabs_create url pinned b).2 /\
    forall tab id, (tabs_create url pinned b).1 = inr tab -> tab_id tab = Some id -> mine (json_num id);
  sp_update : forall id n url pinned b, mine id -> safe_tab_id id = Some n -> P b -> P (tabs_update n url pinned b).2;
  sp_group : forall id g b, mine id -> P b -> P (tabs_group (js_Number id) g b).2;
  sp_groupUpdate : forall g props b, P b -> P (tabGroups_update g props b).2;
}.
Hypothesis Hsp : spares.

Definition spared (s : State) : Prop :=
  P (ta_browser s.2) /\
  forall k r, object_mappings s.1 !! k = Some r -> om_objectId r ∈ objects -> mine (chromiumLocalId r).

Abbreviation ok := (th_safe spared).
Definition anything {A} : sync_error + A -> Prop := fun _ => True.

Lemma spared_db (s : State) db a : object_mappings db = object_mappings s.1 -> ta_browser a = ta_browser s.2 -> spared s -> spared (db, a).
Proof. intros Hm Hb [H1 H2]. split; cbn; [by rewrite Hb|by rewrite Hm]. Qed.

Lemma safe_guarded {A} (call : Br -> (sync_error + A) * Br) (Q : sync_error + A -> Prop) :
  (forall b, P b -> P (call b).2 /\ Q (call b).1) -> ok (guarded call) Q.
Proof.
  intros Hc. unfold guarded. apply (th_safe_bind _ _ _ (fun r => match r with inr x => Q x | inl _ => False end)).
  - apply th_safe_do. intros [db a] [Hp Hm]. cbn in *. specialize (Hc _ Hp). destruct (call (ta_browser a)) as [r b]. by destruct Hc.
  - done.
  - intros r Hr. apply th_safe_do. intros [db a] Hi. cbn. split; [|exact Hr]. by apply (spared_db (db, a)).
Qed.

Lemma safe_get {A} (f : State -> A) (Q : A -> Prop) : (forall s, spared s -> Q (f s)) ->
  ok (later (fun s => (inr (f s), s))) (fun r => match r with inr a => Q a | inl _ => False end).
Proof. intros H. apply th_safe_do. intros s Hs. split; [done|by apply H]. Qed.

Lemma safe_lock (f : KeyedLock -> KeyedLock) (s : State) : spared s -> spared (on_lock f s).
Proof. destruct s as [db a]. by apply (spared_db (db, a)). Qed.

Lemma safe_locked key body : ok body anything -> ok (locked key body) anything.
Proof.
  intros Hb. unfold locked. apply (th_safe_bind _ _ _ (fun r => match r with inr _ => True | inl _ => True end)); [| |].
  - apply th_safe_do. intros s Hs. split; [by apply safe_lock|done].
  - done.
  - intros task _. apply (th_safe_bind _ _ _ (fun r => r = inr tt)).
    + apply th_safe_when. intros s Hs. by apply safe_lock.
    + done.
    + intros _ _. apply th_safe_finally; [apply th_safe_finally; [exact Hb|]|]; apply th_safe_when; intros s Hs; by apply safe_lock.
Qed.

Lemma safe_establish t id o : (o ∈ objects -> mine id) ->
  ok (later (establishMapping t id o)) (fun r => r = inr tt).
Proof.
  intros Ho. apply th_safe_do. intros [db a] [Hp Hm]. split; [|done]. split; [exact Hp|]. cbn. intros k r.
  unfold put_mapping. cbn. intros [[_ <-]|[_ Hk]]%lookup_insert_Some Hr; [by apply Ho|by eapply Hm].
Qed.

Lemma safe_syncTabGroup id g : mine id -> g ∉ objects -> ok (syncTabGroup id g) anything.
Proof.
  intros Hid Hg. unfold syncTabGroup, supported, get_app. eapply th_safe_bind; [by apply (safe_get _ (fun _ => True))|done|].
  intros groups _. destruct (negb groups); [by apply th_safe_ret|]. apply safe_locked. unfold lookupChromiumLocalId, store_get.
  eapply th_safe_bind; [by apply (safe_get _ (fun _ => True))|done|]. intros existing _.
  eapply th_safe_bind; [apply (safe_guarded _ anything); intros b Hb; split; [by apply (sp_group Hsp)|done]|done|]. intros gid _.
  eapply th_safe_bind; [by apply safe_establish|done|]. intros _ _.
  eapply th_safe_bind; [by apply (safe_get _ (fun _ => True))|done|]. intros stored _.
  destruct (truthy stored); [|by apply th_safe_ret]. apply safe_guarded. intros b Hb. split; [by apply (sp_groupUpdate Hsp)|done].
Qed.

Lemma safe_opening f (s : State) : spared s -> spared (set_opening f s).
Proof. destruct s as [db a]. by apply (spared_db (db, a)). Qed.

(** What comes out of a call that opens or updates a tab. *)
Definition result_mine (r : sync_error + option string) : Prop := match r with inr (Some id) => mine id | _ => True end.

Lemma safe_open_tab o url pinned : ok (open_tab o url pinned) result_mine.
Proof.
  unfold open_tab.
  apply (th_safe_bind _ _ _ (fun r => match r with
    | inr (inr tab) => match tab_id tab with Some id => mine (json_num id) | None => True end
    | _ => True end)); [| done|].
  - apply th_safe_do. intros [db a] [Hp Hm]. cbn in *. pose proof (sp_create Hsp url pinned _ Hp) as [Hp' Hid].
    destruct (tabs_create url pinned (ta_browser a)) as [[e|tab] b]; cbn in *; (split; [by split|done || idtac]).
    destruct (tab_id tab) as [id|] eqn:Ht; [|done]. by eapply Hid.
  - intros r Hr. apply (th_safe_bind _ _ _ (fun r => match r with inr (Some id) => mine (json_num id) | _ => True end)); [|done|].
    + apply th_safe_do. intros s Hs. assert (spared (s.1, set_guard (guard_step (ta_guard s.2) RunEnded) s.2)) as Hs1
        by (destruct s as [db a]; by apply (spared_db (db, a))).
      destruct r as [e|tab]; [by split|]. cbn. destruct (tab_id tab) as [id|]; [|by split]. split; [by apply safe_opening|done].
    + intros [id|] Hid; [|by apply th_safe_ret]. apply (th_safe_bind _ _ _ (fun _ => True)); [|done|by intros; apply th_safe_ret].
      apply th_safe_finally; [|apply th_safe_when; intros s Hs; by apply safe_opening].
      eapply th_safe_weaken; [|apply safe_establish; intros _; exact Hid]. done.
Qed.

(** Groups and tabs do not share object ids. *)
Definition group_apart (p : jsval) : Prop := forall g, as_string (jget p "groupObjectId") = Some g -> g ∉ objects.

Lemma nonempty_Some x s : nonempty x = Some s -> x = Some s.
Proof. unfold nonempty. destruct x as [s'|]; [|done]. by destruct (String.eqb s' ""). Qed.

Lemma safe_place_tab o url pinned existing : o ∈ objects -> (forall id, existing = Some id -> mine id) ->
  ok (place_tab o url pinned existing) result_mine.
Proof.
  intros Ho He. unfold place_tab. destruct (nonempty existing) as [id|] eqn:Hn.
  - apply nonempty_Some, He in Hn. destruct (safe_tab_id id) as [n|] eqn:Hid; [|by apply th_safe_throw].
    eapply th_safe_bind; [apply (safe_guarded _ anything); intros b Hb; split; [by eapply (sp_update Hsp)|done]|done|].
    intros _ _. by apply th_safe_ret.
  - eapply th_safe_bind; [apply safe_open_tab|done|]. intros [id|] Hid; apply th_safe_ret; [exact Hid|]. cbn.
    destruct existing as [id|]; [by apply He|done].
Qed.

Lemma safe_materializeTab o p : o ∈ objects -> group_apart p -> ok (materializeTab o p) anything.
Proof.
  intros Ho Hg. unfold materializeTab.
  assert (forall url, ok (open_syncable o url p) anything) as Hopen.
  { intros url. unfold open_syncable, lookupChromiumLocalId. eapply th_safe_bind.
    - apply (safe_get (fun s => chromiumLocalId <$> getMappingByObjectId o s.1) (fun x => forall id, x = Some id -> mine id)).
      intros s [_ Hm] id (r & Hr & ->)%fmap_Some. unfold getMappingByObjectId in Hr. apply fmap_Some in Hr as ([k r'] & Hh & ->).
      apply head_Some_elem_of, list_elem_of_filter in Hh as [Ho' Hk]. apply (index_elem _ (object_mappings s.1) _ _ (rows_perm _)) in Hk.
      apply (Hm k); [exact Hk|]. rewrite Ho'. exact Ho.
    - done.
    - intros existing He. eapply th_safe_bind; [by apply safe_place_tab|done|]. intros chromiumId Hid.
      destruct (nonempty chromiumId) as [id|] eqn:E1; [|by apply th_safe_ret].
      destruct (nonempty (as_string (jget p "groupObjectId"))) as [g|] eqn:E2; [|by apply th_safe_ret].
      apply nonempty_Some in E1 as ->. apply nonempty_Some in E2. apply safe_syncTabGroup; [exact Hid|by apply Hg]. }
  destruct p; try (by apply th_safe_throw); (destruct (as_string _) as [url|]; [|by apply th_safe_ret];
    destruct (isSyncableUrl url); [apply Hopen|by apply th_safe_ret]).
Qed.

(** ** Batches *)

Lemma spared_batches calls (s : State) : Forall (fun m => ok m anything) (concat calls) -> spared s -> spared (await_batches calls s).2.
Proof.
  revert s. induction calls as [|batch calls IH]; intros s Hc Hs; [done|]. cbn [await_batches concat] in *. apply Forall_app in Hc as [Hb Hc].
  unfold bind, await_all, draw, bind. assert (spared (s.1, bump s.2)) as Hs1 by (destruct s as [db a]; by apply (spared_db (db, a))).
  pose proof (promise_all_safe spared (te_schedule (ta_entropy s.2)) (OtherError "deadlock") batch _ Hs1 Hb) as H.
  cbn [fst snd]. destruct (promise_all _ _ _ _) as [[e|u] s2]; [exact H|]. by apply IH.
Qed.

Lemma spared_materializeAll targets (s : State) : Forall (fun t => t.1 ∈ objects /\ group_apart t.2) targets ->
  spared s -> spared (materializeAll targets s).2.
Proof.
  intros Ht Hs. apply spared_batches; [|exact Hs]. rewrite slices_concat by (unfold REMOTE_APPLY_CONCURRENCY; lia).
  apply Forall_fmap. eapply Forall_impl; [exact Ht|]. intros [o p] [Ho Hg]. by apply safe_materializeTab.
Qed.

Lemma forget_closed_sub closed db k r : object_mappings (forget_closed closed db) !! k = Some r -> object_mappings db !! k = Some r.
Proof.
  unfold forget_closed, deleteMappingsBatch. destruct closed as [|c closed]; [done|]. destruct (map chromiumLocalId _) as [|i b]; [done|].
  cbn [object_mappings set_mappings]. rewrite putAllChunked_foldl. generalize (object_mappings db). generalize (i :: b). intros l.
  induction l as [|x l IH]; intros m; cbn; [done|]. intros Hk%IH. by apply lookup_delete_Some in Hk as [_ Hk].
Qed.

(** What is opened is what an item says. *)
Lemma outcome_target now m policy op p o v :
  (tab_outcome policy ((op, p), store_results now m (item_entries tab_fields (op, p)))).2 = Some (o, v) -> o = out_objectId op /\ v = p.
Proof.
  unfold tab_outcome, item_entries, tab_fields. cbn [fst snd].
  assert (forall e es, applied (nth_result 0 (store_results now m (e :: es))) = true ->
    rr_value (nth_result 0 (store_results now m (e :: es))) = in_value (en_incoming e)) as Hv.
  { intros e es. cbn. unfold store_result, arbitrateField. destruct (m !! entry_key e); [|done]. repeat (destruct (_ && _); [done|]). by destruct (0 <? _). }
  destruct (out_operationType op); try done; try (by destruct (applied _)); cbn [map fst snd];
    (destruct (applied _) eqn:Ha; cbn [negb]; [|done]); cbn [snd]; destruct (_ && _); try done; intros [= <- <-]; (split; [done|exact (Hv _ _ Ha)]).
Qed.

Lemma outcome_targets now m policy items : Forall (fun t => exists item, item ∈ items /\ t = (out_objectId item.1, item.2))
  (omap snd (map (tab_outcome policy) (zip items (item_results now m (map (item_entries tab_fields) items))))).
Proof.
  apply Forall_forall. intros t ([[rec closed] target] & Hin & Ht)%list_elem_of_omap. cbn in Ht. subst target.
  apply list_elem_of_fmap in Hin as ([[op p] rs] & Hout & Hz).
  assert (exists m', rs = store_results now m' (item_entries tab_fields (op, p)) /\ (op, p) ∈ items) as (m' & -> & Hin).
  { revert m Hz. induction items as [|[op' p'] items IH]; intros m; cbn; [by intros ?%not_elem_of_nil|].
    intros [E|H]%elem_of_cons; [injection E as -> -> ->; eexists; split; [reflexivity|left]|].
    destruct (IH _ H) as (m' & E & Hi). exists m'. split; [exact E|by right]. }
  exists (op, p). split; [done|]. destruct t as [o v].
  apply (f_equal snd) in Hout. cbn [snd] in Hout. symmetry in Hout. by destruct (outcome_target _ _ _ _ _ _ _ Hout) as [-> ->].
Qed.
End spare.

(** Whatever other devices send, whatever the policy says, and however the
    calls to the browser interleave: applying a batch of remote tab operations
    keeps every property of the browser that is kept by opening tabs, by changing
    the tabs mapped to the batch's objects or just opened for it, and by
    changing groups. So it closes, navigates or moves no other tab. *)
Theorem applyTabRemoteBatch_spares {Br} `{Env : TabEnv Br} `{PA : PolicyApi sync_error (DB * TabApp Br)}
    (P : Br -> Prop) (mine : string -> Prop) items (s : TbState (Br := Br)) :
  let objects := map (fun item : RemoteItem => out_objectId item.1) items in
  spares P mine -> (forall s, spared P mine objects s -> spared P mine objects (fetchTabRestorePolicy s).2) ->
  Forall (fun item => group_apart objects item.2) items ->
  spared P mine objects s -> P (ta_browser (applyTabRemoteBatch items s).2.2).
Proof.
  intros objects Hsp Hpol Hg Hs. enough (spared P mine objects (applyTabRemoteBatch items s).2) as H by apply H.
  unfold applyTabRemoteBatch. destruct items as [|item l]; [exact Hs|]. remember (item :: l) as items eqn:Hl. clear Hl item l.
  unfold bind at 1. assert (exists policy, (restorePolicy s).1 = inr policy /\ spared P mine objects (restorePolicy s).2) as (policy & Hp & Hs1).
  { specialize (Hpol s Hs). unfold restorePolicy, try_catch, bind. destruct (fetchTabRestorePolicy s) as [[e|policy] s1]; eauto. }
  destruct (restorePolicy s) as [r s1]. cbn in Hp, Hs1. subst r.
  unfold bind. rewrite resolveItems_spec. cbv zeta. unfold store_put, modify. cbn [fst snd].
  apply (spared_materializeAll P mine objects Hsp).
  - eapply Forall_impl; [apply outcome_targets|]. intros t (item & Hin & ->). cbn.
    split; [by apply (list_elem_of_fmap_2 (fun item : RemoteItem => out_objectId item.1))|by apply (proj1 (Forall_forall _ _) Hg)].
  - destruct Hs1 as [H1 H2]. split; [exact H1|]. intros k r. cbn [fst snd]. rewrite putRemoteObjectsBatch_foldl.
    intros Hk%forget_closed_sub. by apply (H2 k).
Qed.
