(* ===== verification/TabsExample.v ===== *)
(** * The tab adapter on a small browser

    Witnesses for the tab theorems, and what the adapter does with a tab opened
    and changed in one batch, with the echo of a tab it opened, and with a title
    pushed out of the stash. *)

From S2P Require Import Prelude JsMap Types Util Json Scheduling Threads Storage Conflict Engine Tabs TabsCapture TabsApply TabsCoalesceFacts TabsFlushFacts TabsRemoteFacts.

Open Scope Z_scope.
Open Scope js_scope.

(** ** A browser

    Tabs by id with their address, the groups made, and the addresses tabs were
    sent to, newest first. *)
Record Desk := mkDesk { dk_tabs : list (Z * string); dk_next : Z; dk_groups : Z; dk_sent : list (Z * string) }.

Definition desk_tab (id : Z) (url : string) : Tab := mkTab (Some id) (Some 1) (Some url) None false 0 false None.

#[local] Instance desk_chrome : ChromeTabs Desk := {|
  tabGroupsSupported _ := true;
  tabs_query b := inr (map (fun t => desk_tab t.1 t.2) (dk_tabs b));
  tabs_create url _ b :=
    if dk_next b <? 1000
    then (inr (desk_tab (dk_next b) url), mkDesk (dk_tabs b ++ [(dk_next b, url)]) (dk_next b + 1) (dk_groups b) (dk_sent b))
    else (inl (OtherError "too many tabs"), b);
  tabs_update id url _ b :=
    (inr tt, mkDesk (map (fun t => if t.1 =? id then (id, url) else t) (dk_tabs b)) (dk_next b) (dk_groups b) ((id, url) :: dk_sent b));
  tabs_group _ g b := (inr (match g with Some (Some g) => g | _ => dk_groups b end),
    mkDesk (dk_tabs b) (dk_next b) (match g with Some (Some _) => dk_groups b | _ => dk_groups b + 1 end) (dk_sent b));
  tabGroups_update _ _ b := (inr tt, b);
|}.

(** Calls in flight together take turns. *)
#[local] Instance desk_env : TabEnv Desk := {|
  te_chrome := desk_chrome;
  te_urls := example_url_parser;
  te_numbers := {| number_other := fun _ => None |};
  te_uuid := fun n => "uuid-" +:+ json_num (Z.of_nat n);
  te_now := fun _ => 0;
  te_schedule := fun _ => concat (replicate 20 [0; 1]%nat);
|}.
Definition policy_of (p : string) : PolicyApi sync_error (DB * TabApp Desk) := {| fetchTabRestorePolicy := fun s => (inr (Some p), s) |}.

Definition desk (tabs : list (Z * string)) (next : Z) : TabApp Desk :=
  mkTabApp (mkDesk tabs next 0 []) initialTabState createSuppressionGuard createKeyedLock 0.
Definition mapped (entries : list (ObjectType * string * string)) : DB :=
  foldl (fun db e => putMapping (mkMapping (mappingKey e.1.1 e.1.2) e.1.1 e.1.2 e.2) db) emptyDB entries.

Definition remote (lamport : Z) (t : OperationType) (o : string) : OperationOut :=
  mkOperationOut ("op-" +:+ json_num lamport) "dev-a" lamport lamport OtTab o t 1 JUndef lamport "2026-01-01".
Definition page (url window : string) : jsval :=
  JObj [("url", JStr url); ("title", JUndef); ("pinned", JBool false); ("index", JNum 0); ("windowObjectId", JStr window);
        ("active", JBool false); ("groupObjectId", JNull)].

(** ** Coalescing *)

Definition staged (t : OperationType) (o : string) (v : jsval) : StagedTabOp :=
  mkStagedTab OtTab o t v [match t with OpActivate => ("active", v) | OpClose => ("liveness", JStr "deleted") | _ => ("state", v) end] false
    (match t with OpActivate => Some 1 | _ => None end).
Definition burst : list StagedTabOp :=
  [staged OpUpdate "a" (JNum 1); staged OpActivate "a" (JBool true); staged OpUpdate "b" (JNum 2); staged OpActivate "b" (JBool true);
   staged OpUpdate "a" (JNum 3); staged OpClose "b" JNull].

Lemma burst_uniform : uniform burst.
Proof.
  split.
  - intros op op' H H'. unfold burst in H, H'. rewrite !elem_of_cons, elem_of_nil in H.
    assert (forall x, x ∈ burst -> is_update x = true -> map fst (sg_fields x) = ["state"]) as Hall; [|intros U U' _; rewrite (Hall op), (Hall op'); auto].
    + intros x Hx. apply list_elem_of_In in Hx. cbn in Hx. by repeat destruct Hx as [<-|Hx].
    + unfold burst. rewrite !elem_of_cons, elem_of_nil. exact H.
  - intros x Hx. apply list_elem_of_In in Hx. cbn in Hx. by repeat destruct Hx as [<-|Hx].
Qed.

Lemma coalesce_exact_witness : map (fun op => (sg_operationType op, sg_objectId op)) (coalesceStagedOps burst) =
    [(OpUpdate, "a"); (OpClose, "b")] /\
  last_setter "a" "state" (coalesceStagedOps burst) = Some (staged OpUpdate "a" (JNum 3)).
Proof.
  destruct (coalesce_exact burst burst_uniform) as (E & _ & Hlast). split; [rewrite E; reflexivity|].
  rewrite (Hlast "a" "state"); [reflexivity|discriminate|reflexivity].
Defined.

(** ** Batches *)

(** Tab "closed" is mapped here; tab "new" is not. *)
Definition batch : list RemoteItem :=
  [(remote 1 OpCreate "new", page "https://new" "w-a"); (remote 2 OpClose "closed", JObj []); (remote 3 OpActivate "new", JObj [])].
Definition before : TbState (Br := Desk) := (mapped [(OtTab, "5", "closed"); (OtTab, "7", "kept")], desk [(5, "https://c"); (7, "https://k")] 20).

Lemma before_tidy objects : tidy objects (object_mappings before.1).
Proof.
  assert (forall k r, object_mappings before.1 !! k = Some r ->
    (k, r) = ("tab:7", mkMapping "tab:7" OtTab "7" "kept") \/ (k, r) = ("tab:5", mkMapping "tab:5" OtTab "5" "closed")) as Hall.
  { intros k r. cbn. unfold put_mapping. cbn. rewrite !lookup_insert_Some. intros [[<- <-]|[_ [[<- <-]|[_ H]]]]; [by left|by right|by apply lookup_empty_Some in H]. }
  split; [intros k r|intros k1 k2 r1 r2|intros k r]; repeat intros [[= -> ->]|[= -> ->]]%Hall; by cbn.
Qed.

Lemma applyTabRemoteBatch_sequential_witness :
  (applyTabRemoteBatch (PA := policy_of "ask") batch before).2.1 = (apply_each (PA := policy_of "ask") "ask" batch before).2.1 /\
  object_mappings (applyTabRemoteBatch (PA := policy_of "ask") batch before).2.1 !! "tab:5" = None.
Proof.
  destruct (applyTabRemoteBatch_sequential (PA := policy_of "ask") "ask" 0 batch before) as (_ & _ & H & _);
    [reflexivity|reflexivity|reflexivity|apply before_tidy|].
  split; [exact H|]. vm_compute. reflexivity.
Defined.

(** The user's tab 7 is mapped to another object. *)
Definition unrelated (b : Desk) : Prop := (7, "https://k") ∈ dk_tabs b /\ 7 < dk_next b.
Definition not_seven (id : string) : Prop := safe_tab_id id <> Some 7.

Lemma safe_tab_id_json n : 0 <= n < 1000 -> safe_tab_id (json_num n) = Some n.
Proof.
  intros Hn. unfold safe_tab_id, js_Number. destruct (parse_number_json n "" ltac:(unfold MAX_SAFE; lia) eq_refl) as [Hp _].
  rewrite str_app_nil_r in Hp. rewrite Hp. destruct (Z.leb_spec 0 n), (Z.leb_spec n MAX_SAFE_INTEGER); try done; unfold MAX_SAFE_INTEGER in *; lia.
Qed.

Lemma desk_spares : spares unrelated not_seven.
Proof.
  split.
  - intros url pinned b [H1 H2]. cbn. destruct (Z.ltb_spec (dk_next b) 1000) as [Hl|Hl]; cbn; [|split; [by split|done]].
    split; [split; cbn; [set_solver|lia]|]. intros tab id [= <-] [= <-]. unfold not_seven. rewrite safe_tab_id_json by lia. intros [=]. lia.
  - intros id n url pinned b Hid Hn [H1 H2]. split; [|exact H2]. cbn. apply list_elem_of_fmap. exists (7, "https://k"). split; [|done].
    cbn [fst]. destruct (Z.eqb_spec 7 n) as [<-|]; [by exfalso; apply Hid|reflexivity].
  - intros id g b _ H. exact H.
  - intros g props b H. exact H.
Qed.

Lemma applyTabRemoteBatch_spares_witness :
  unrelated (ta_browser (applyTabRemoteBatch (PA := policy_of "automatic") batch before).2.2) /\
  dk_tabs (ta_browser (applyTabRemoteBatch (PA := policy_of "automatic") batch before).2.2) =
    [(5, "https://c"); (7, "https://k"); (20, "https://new")].
Proof.
  split; [|vm_compute; reflexivity].
  apply (applyTabRemoteBatch_spares (PA := policy_of "automatic") unrelated not_seven batch before).
  - exact desk_spares.
  - intros s Hs. exact Hs.
  - repeat (apply List.Forall_cons; [intros g [=]|]). apply List.Forall_nil.
  - split; [split; [vm_compute; set_solver|reflexivity]|]. intros k r Hk Ho.
    assert (k = "tab:7" /\ r = mkMapping "tab:7" OtTab "7" "kept" \/ r = mkMapping "tab:5" OtTab "5" "closed") as [[-> ->]| ->].
    + revert Hk. cbn. unfold put_mapping. cbn. rewrite !lookup_insert_Some. intros [[<- <-]|[_ [[<- <-]|[_ H]]]]; [by left|by right|by apply lookup_empty_Some in H].
    + cbn in Ho. by rewrite !elem_of_cons, elem_of_nil in Ho; repeat destruct Ho as [Ho|Ho].
    + intros H. vm_compute in H. discriminate H.
Defined.

(** ** What the tests do not show *)

(** A tab created and changed in one page is opened twice: both calls look the
    mapping up before either has made the tab. *)
Theorem opened_twice :
  let page1 := page "https://new" "w-a" in
  let s := (applyTabRemoteBatch (PA := policy_of "automatic") [(remote 1 OpCreate "new", page1); (remote 2 OpUpdate "new", page1)] before).2 in
  dk_tabs (ta_browser s.2) = [(5, "https://c"); (7, "https://k"); (20, "https://new"); (21, "https://new")] /\
  omap (fun r => if String.eqb (om_objectId r) "new" then Some (Storage.chromiumLocalId r) else None)
    (map snd (map_to_list (object_mappings s.1))) = ["21"; "20"].
Proof. vm_compute. repeat split. Qed.

(** One item after the other, the tab is opened once and then navigated. *)
Example opened_once :
  let page1 := page "https://new" "w-a" in
  dk_tabs (ta_browser (apply_each (PA := policy_of "automatic") "automatic" [(remote 1 OpCreate "new", page1); (remote 2 OpUpdate "new", page1)] before).2.2) =
    [(5, "https://c"); (7, "https://k"); (20, "https://new")].
Proof. vm_compute. reflexivity. Qed.

Definition opened : TbState (Br := Desk) :=
  (applyTabRemoteBatch (PA := policy_of "automatic") [(remote 1 OpCreate "new", page "https://new" "w-a")] before).2.

(** The event Chromium sends for tab 20 once the guard is down. *)
Definition loaded : QueuedTabEvent := TabUpdated 20 (mkTab (Some 20) (Some 1) (Some "https://new") None false 0 false None) false.

(** The tab just opened is in a local window, so what it says differs from what
    was recorded and it is staged as the user's change. *)
Theorem echo_is_staged :
  match (stageFlush [loaded] opened).1 with
  | inr staged => map (fun op => (sg_operationType op, sg_objectId op, jget (sg_payload op) "windowObjectId")) staged = [(OpUpdate, "new", JStr "uuid-2")]
  | inl _ => False
  end.
Proof. vm_compute. reflexivity. Qed.

(** On the device the tab came from, that update navigates the user's tab. *)
Theorem echo_navigates_origin :
  let origin := (mapped [(OtTab, "7", "new")], desk [(7, "https://new")] 20) in
  let s := (applyTabRemote (PA := policy_of "automatic") (remote 9 OpUpdate "new") (page "https://new" "uuid-2") None origin).2 in
  dk_sent (ta_browser s.2) = [(7, "https://new")].
Proof. vm_compute. reflexivity. Qed.

(** A tab's activation is captured once: its "active" field is never unset. *)
Theorem activated_once :
  let events := [TabActivated (mkActive 7 1); TabActivated (mkActive 5 1); TabActivated (mkActive 7 1)] in
  match (stageFlush events before).1 with
  | inr staged => map (fun op => (sg_operationType op, sg_objectId op)) staged = [(OpActivate, "kept"); (OpActivate, "closed")] /\
      map sg_objectId (coalesceStagedOps staged) = ["closed"]
  | inl _ => False
  end.
Proof. vm_compute. repeat split. Qed.

(** Two hundred background titles push tab 7's title out of the stash and its
    timer is no longer known; closing the tab does not stop it. *)
Definition evicted : TabState :=
  let title (active : bool) (id : Z) := mkTab (Some id) (Some 1) (Some "https://t") (Some "t") false 0 active None in
  let info := mkTabChange None (Some "t") None None in
  foldl (fun s n => handleTabUpdated false (100 + Z.of_nat n) info (title false (100 + Z.of_nat n)) s)
    (handleTabUpdated false 7 info (title true 7) initialTabState) (seq 0 200).

Theorem evicted_title_fires :
  let closed := handleTabRemoved 7 evicted in
  map fst (armed_timers closed) = [0%nat] /\
  mb_queue (tabQueue (title_timer_fires 0 closed)) =
    [TabRemoved 7; TabUpdated 7 (mkTab (Some 7) (Some 1) (Some "https://t") (Some "t") false 0 true None) true].
Proof. vm_compute. repeat split. Qed.
