(* ===== verification/WebSocket.v ===== *)
(** * The notification socket (extension/src/api/websocket.ts)

    One worker's socket as a state machine. An event is what the browser may
    deliver next: a call of an exported function, an answer to something asked
    of storage, the database or the server, a timer, or an event of a socket.
    Its handler runs as far as the next answer it has to wait for; an [await] of
    a settled promise is no stop. [ws_events] says which event can come in which
    state. Warnings are left out. *)

From S2P Require Import Prelude JsMap Types Util Json Dates Storage.

Open Scope Z_scope.
Open Scope js_scope.

Definition INITIAL_RECONNECT_DELAY_MS : Z := 1000.
Definition MAX_RECONNECT_DELAY_MS : Z := 60000.
Definition SHORT_RECONNECT_HOLD_MS : Z := 30000.
Definition MIN_UNAUTHENTICATED_CLOSE_BACKOFF_MS : Z := 15000.
Definition TOKEN_EXPIRY_SAFETY_MARGIN_MS : Z := 5000.

(** ** The platform

    [URL] objects are of the abstract type [url]. [random n], out of 2^53, is
    what the n-th call of [Math.random] gives; [constructs n] whether the n-th
    [new WebSocket] succeeds. *)
Class WsPlatform := {
  url : Type;
  new_url : string -> option url;
  get_protocol : url -> string;
  get_pathname : url -> string;
  set_protocol : string -> url -> url;
  set_pathname : string -> url -> url;
  set_search : string -> url -> url;
  url_toString : url -> string;
  random : nat -> Z;
  constructs : nat -> bool;
  ws_dates :: DatePlatform;
}.

(** [pathname.replace(/\/$/, "")] *)
Definition drop_final_slash (s : string) : string :=
  match rev (list_ascii_of_string s) with
  | "/"%char :: cs => string_of_list_ascii (rev cs)
  | _ => s
  end.

Definition wsUrlFor `{WsPlatform} (serverUrl : string) : option string :=
  u ← new_url serverUrl;
  let u := set_protocol (if String.eqb (get_protocol u) "https:" then "wss:" else "ws:") u in
  let u := set_pathname (drop_final_slash (get_pathname u) +:+ "/api/v1/ws") u in
  Some (url_toString (set_search "" u)).

(** ** State *)

Inductive ReadyState := CONNECTING | OPEN | CLOSING | CLOSED.
#[global] Instance ReadyState_eq_dec : EqDecision ReadyState.
Proof. solve_decision. Defined.

(** A socket with what the listeners of its attempt share, and its frames. *)
Record Sock := mkSock {
  sk_readyState : ReadyState;
  sk_url : string;
  sk_accessToken : string;
  sk_receivedConnected : bool;
  sk_wasRateLimited : bool;
  sk_sent : list string;
}.

(** What a call of [connect] waits for. *)
Inductive Attempt := AwaitsHydration | AwaitsDevice | AwaitsRefresh (device : DeviceRecord) | Ended.
(** What a call of [disconnect] waits for. *)
Inductive Disconnecting := SavesDelay | SavesDeadline | Disconnected.
Inductive Hydration := Unread | Reading | Hydrated | Unreadable.
Inductive Waiter := EnsureWaits | ConnectWaits (attempt : nat).
Inductive StorageKey := DelayKey | BlockedUntilKey.
(** Calls of other modules. *)
Inductive HandlerCall := ChangesHandler | AuthRequestHandler | RereadSettings.

(** A timer while it is armed: since when and for when. *)
Record Timer := mkTimer { ti_armedAt : Z; ti_due : Z }.

(** Attempts, sockets, timers and calls of [disconnect] are known by their
    number. A write that [disconnect] waits for carries its number. *)
Record WsState := mkWs {
  ws_now : Z;
  ws_socket : option nat;
  ws_reconnectTimer : option nat;
  ws_reconnectDelayMs : Z;
  ws_reconnectBlockedUntil : Z;
  ws_disconnectRequested : bool;
  ws_hydration : Hydration;
  ws_waiters : list Waiter;
  ws_connectPromise : option nat;
  ws_sockets : list Sock;
  ws_timers : list (option Timer);
  ws_attempts : list Attempt;
  ws_disconnects : list Disconnecting;
  ws_saved : option Z * option Z;
  ws_writes : list (StorageKey * Z * option nat);
  ws_handlers : bool * bool;
  ws_calls : list HandlerCall;
  ws_draws : nat;
}.

Definition initialWs (now : Z) (saved : option Z * option Z) : WsState :=
  mkWs now None None INITIAL_RECONNECT_DELAY_MS 0 false Unread [] None [] [] [] [] saved [] (false, false) [] 0.

Definition set_socket (x : option nat) (s : WsState) : WsState :=
  mkWs (ws_now s) x (ws_reconnectTimer s) (ws_reconnectDelayMs s) (ws_reconnectBlockedUntil s) (ws_disconnectRequested s) (ws_hydration s)
    (ws_waiters s) (ws_connectPromise s) (ws_sockets s) (ws_timers s) (ws_attempts s) (ws_disconnects s) (ws_saved s) (ws_writes s) (ws_handlers s) (ws_calls s) (ws_draws s).
Definition set_timer (x : option nat) (ts : list (option Timer)) (s : WsState) : WsState :=
  mkWs (ws_now s) (ws_socket s) x (ws_reconnectDelayMs s) (ws_reconnectBlockedUntil s) (ws_disconnectRequested s) (ws_hydration s)
    (ws_waiters s) (ws_connectPromise s) (ws_sockets s) ts (ws_attempts s) (ws_disconnects s) (ws_saved s) (ws_writes s) (ws_handlers s) (ws_calls s) (ws_draws s).
Definition set_backoff (delay blocked : Z) (s : WsState) : WsState :=
  mkWs (ws_now s) (ws_socket s) (ws_reconnectTimer s) delay blocked (ws_disconnectRequested s) (ws_hydration s)
    (ws_waiters s) (ws_connectPromise s) (ws_sockets s) (ws_timers s) (ws_attempts s) (ws_disconnects s) (ws_saved s) (ws_writes s) (ws_handlers s) (ws_calls s) (ws_draws s).
Definition set_requested (b : bool) (s : WsState) : WsState :=
  mkWs (ws_now s) (ws_socket s) (ws_reconnectTimer s) (ws_reconnectDelayMs s) (ws_reconnectBlockedUntil s) b (ws_hydration s)
    (ws_waiters s) (ws_connectPromise s) (ws_sockets s) (ws_timers s) (ws_attempts s) (ws_disconnects s) (ws_saved s) (ws_writes s) (ws_handlers s) (ws_calls s) (ws_draws s).
Definition set_hydration (h : Hydration) (l : list Waiter) (s : WsState) : WsState :=
  mkWs (ws_now s) (ws_socket s) (ws_reconnectTimer s) (ws_reconnectDelayMs s) (ws_reconnectBlockedUntil s) (ws_disconnectRequested s) h
    l (ws_connectPromise s) (ws_sockets s) (ws_timers s) (ws_attempts s) (ws_disconnects s) (ws_saved s) (ws_writes s) (ws_handlers s) (ws_calls s) (ws_draws s).
Definition set_promise (x : option nat) (l : list Attempt) (s : WsState) : WsState :=
  mkWs (ws_now s) (ws_socket s) (ws_reconnectTimer s) (ws_reconnectDelayMs s) (ws_reconnectBlockedUntil s) (ws_disconnectRequested s) (ws_hydration s)
    (ws_waiters s) x (ws_sockets s) (ws_timers s) l (ws_disconnects s) (ws_saved s) (ws_writes s) (ws_handlers s) (ws_calls s) (ws_draws s).
Definition set_sockets (l : list Sock) (s : WsState) : WsState :=
  mkWs (ws_now s) (ws_socket s) (ws_reconnectTimer s) (ws_reconnectDelayMs s) (ws_reconnectBlockedUntil s) (ws_disconnectRequested s) (ws_hydration s)
    (ws_waiters s) (ws_connectPromise s) l (ws_timers s) (ws_attempts s) (ws_disconnects s) (ws_saved s) (ws_writes s) (ws_handlers s) (ws_calls s) (ws_draws s).
Definition set_disconnects (l : list Disconnecting) (s : WsState) : WsState :=
  mkWs (ws_now s) (ws_socket s) (ws_reconnectTimer s) (ws_reconnectDelayMs s) (ws_reconnectBlockedUntil s) (ws_disconnectRequested s) (ws_hydration s)
    (ws_waiters s) (ws_connectPromise s) (ws_sockets s) (ws_timers s) (ws_attempts s) l (ws_saved s) (ws_writes s) (ws_handlers s) (ws_calls s) (ws_draws s).
Definition set_saved (saved : option Z * option Z) (l : list (StorageKey * Z * option nat)) (s : WsState) : WsState :=
  mkWs (ws_now s) (ws_socket s) (ws_reconnectTimer s) (ws_reconnectDelayMs s) (ws_reconnectBlockedUntil s) (ws_disconnectRequested s) (ws_hydration s)
    (ws_waiters s) (ws_connectPromise s) (ws_sockets s) (ws_timers s) (ws_attempts s) (ws_disconnects s) saved l (ws_handlers s) (ws_calls s) (ws_draws s).
Definition set_calls (l : list HandlerCall) (s : WsState) : WsState :=
  mkWs (ws_now s) (ws_socket s) (ws_reconnectTimer s) (ws_reconnectDelayMs s) (ws_reconnectBlockedUntil s) (ws_disconnectRequested s) (ws_hydration s)
    (ws_waiters s) (ws_connectPromise s) (ws_sockets s) (ws_timers s) (ws_attempts s) (ws_disconnects s) (ws_saved s) (ws_writes s) (ws_handlers s) l (ws_draws s).
Definition set_handlers (h : bool * bool) (s : WsState) : WsState :=
  mkWs (ws_now s) (ws_socket s) (ws_reconnectTimer s) (ws_reconnectDelayMs s) (ws_reconnectBlockedUntil s) (ws_disconnectRequested s) (ws_hydration s)
    (ws_waiters s) (ws_connectPromise s) (ws_sockets s) (ws_timers s) (ws_attempts s) (ws_disconnects s) (ws_saved s) (ws_writes s) h (ws_calls s) (ws_draws s).
Definition ws_tick (ms : Z) (s : WsState) : WsState :=
  mkWs (ws_now s + ms) (ws_socket s) (ws_reconnectTimer s) (ws_reconnectDelayMs s) (ws_reconnectBlockedUntil s) (ws_disconnectRequested s) (ws_hydration s)
    (ws_waiters s) (ws_connectPromise s) (ws_sockets s) (ws_timers s) (ws_attempts s) (ws_disconnects s) (ws_saved s) (ws_writes s) (ws_handlers s) (ws_calls s) (ws_draws s).
Definition ws_draw (s : WsState) : WsState :=
  mkWs (ws_now s) (ws_socket s) (ws_reconnectTimer s) (ws_reconnectDelayMs s) (ws_reconnectBlockedUntil s) (ws_disconnectRequested s) (ws_hydration s)
    (ws_waiters s) (ws_connectPromise s) (ws_sockets s) (ws_timers s) (ws_attempts s) (ws_disconnects s) (ws_saved s) (ws_writes s) (ws_handlers s) (ws_calls s) (S (ws_draws s)).

Section socket.
Context `{WsPlatform}.

(** ** Backoff *)

Definition write (key : StorageKey) (value : Z) (waiter : option nat) (s : WsState) : WsState :=
  set_saved (ws_saved s) (ws_writes s ++ [(key, value, waiter)]) s.
Definition setReconnectDelayMs (value : Z) (waiter : option nat) (s : WsState) : WsState :=
  write DelayKey value waiter (set_backoff value (ws_reconnectBlockedUntil s) s).
Definition setReconnectBlockedUntil (value : Z) (waiter : option nat) (s : WsState) : WsState :=
  write BlockedUntilKey value waiter (set_backoff (ws_reconnectDelayMs s) value s).

Definition armReconnectTimer (delayMs : Z) (s : WsState) : WsState :=
  match ws_reconnectTimer s with
  | Some _ => s
  | None => set_timer (Some (length (ws_timers s))) (ws_timers s ++ [Some (mkTimer (ws_now s) (ws_now s + Z.max delayMs 0))]) s
  end.

(** [delay * (0.5 + Math.random() * 0.5)], in the whole milliseconds
    [setTimeout] counts. *)
Definition jittered (delay r : Z) : Z := delay * (2 ^ 53 + r) / 2 ^ 54.

Definition scheduleReconnect (s : WsState) : WsState :=
  match ws_reconnectTimer s with
  | Some _ => s
  | None =>
      let delay := ws_reconnectDelayMs s in
      let s := setReconnectBlockedUntil (ws_now s + delay) None s in
      let s := setReconnectDelayMs (Z.min (delay * 2) MAX_RECONNECT_DELAY_MS) None s in
      if SHORT_RECONNECT_HOLD_MS <? delay then s
      else armReconnectTimer (jittered delay (random (ws_draws s))) (ws_draw s)
  end.

(** ** Connecting *)

Definition set_attempt (a : nat) (x : Attempt) (s : WsState) : WsState := set_promise (ws_connectPromise s) (<[a := x]> (ws_attempts s)) s.

(** The [finally] of [startConnect]; [failed]: the [catch] before it. *)
Definition end_attempt (a : nat) (failed : bool) (s : WsState) : WsState :=
  let s := if failed then scheduleReconnect s else s in
  set_promise None (<[a := Ended]> (ws_attempts s)) s.

(** [connect] from the token on. A failure that is caught inside schedules the
    reconnect itself. *)
Definition open_socket (a : nat) (device : DeviceRecord) (accessToken : string) (s : WsState) : WsState :=
  let s := ws_draw s in
  match wsUrlFor (serverUrl device) with
  | Some u =>
      if constructs (ws_draws s)
      then end_attempt a false (set_socket (Some (length (ws_sockets s)))
             (set_sockets (ws_sockets s ++ [mkSock CONNECTING u accessToken false false []]) s))
      else end_attempt a false (scheduleReconnect s)
  | None => end_attempt a false (scheduleReconnect s)
  end.

(** [Date.now() >= expiresAt - margin], [false] for an unreadable date. *)
Definition expires_soon (now : Z) (device : DeviceRecord) : bool :=
  match Date_parse (accessTokenExpiresAt device) with
  | Some expiresAt => expiresAt - TOKEN_EXPIRY_SAFETY_MARGIN_MS <=? now
  | None => false
  end.

Definition connect_device (a : nat) (device : option DeviceRecord) (s : WsState) : WsState :=
  match device with
  | None => end_attempt a false s
  | Some device =>
      let s := set_requested false s in
      if expires_soon (ws_now s) device then set_attempt a (AwaitsRefresh device) s
      else open_socket a device (accessToken device) s
  end.

Definition connect_refreshed (a : nat) (device : DeviceRecord) (r : option string) (s : WsState) : WsState :=
  match r with
  | Some accessToken => open_socket a device accessToken s
  | None => end_attempt a false (scheduleReconnect s)
  end.

(** [connect] up to its first answer from outside. *)
Definition connect (a : nat) (s : WsState) : WsState :=
  match ws_hydration s with
  | Unread => set_hydration Reading (ws_waiters s ++ [ConnectWaits a]) s
  | Reading => set_hydration Reading (ws_waiters s ++ [ConnectWaits a]) s
  | Hydrated => set_attempt a AwaitsDevice s
  | Unreadable => end_attempt a true s
  end.

Definition startConnect (s : WsState) : WsState :=
  match ws_connectPromise s with
  | Some _ => s
  | None =>
      let a := length (ws_attempts s) in
      connect a (set_promise (Some a) (ws_attempts s ++ [AwaitsHydration]) s)
  end.

Definition readyState (i : nat) (s : WsState) : ReadyState := from_option sk_readyState CLOSED (ws_sockets s !! i).
Definition is_up (st : ReadyState) : bool := match st with CONNECTING | OPEN => true | _ => false end.

(** [ensureConnected] after hydration. *)
Definition ensure_hydrated (s : WsState) : WsState :=
  if ws_now s <? ws_reconnectBlockedUntil s then
    if ws_reconnectBlockedUntil s - ws_now s <=? SHORT_RECONNECT_HOLD_MS
    then armReconnectTimer (ws_reconnectBlockedUntil s - ws_now s) s
    else s
  else startConnect s.

Definition ensureConnected (s : WsState) : WsState :=
  if from_option (fun i => is_up (readyState i s)) false (ws_socket s) then s
  else match ws_connectPromise s, ws_reconnectTimer s with
       | Some _, _ | _, Some _ => s
       | None, None =>
           match ws_hydration s with
           | Unread | Reading => set_hydration Reading (ws_waiters s ++ [EnsureWaits]) s
           | Hydrated => ensure_hydrated s
           | Unreadable => s
           end
       end.

Definition wake (s : WsState) (w : Waiter) : WsState :=
  match w with
  | EnsureWaits => ensure_hydrated s
  | ConnectWaits a => set_attempt a AwaitsDevice s
  end.
Definition wake_failed (s : WsState) (w : Waiter) : WsState :=
  match w with
  | EnsureWaits => s
  | ConnectWaits a => end_attempt a true s
  end.

(** The answer to the read of the backoff; those who wait go on in turn. *)
Definition hydrate (ok : bool) (s : WsState) : WsState :=
  let waiters := ws_waiters s in
  if ok then
    let s := set_backoff (default (ws_reconnectDelayMs s) (ws_saved s).1) (default (ws_reconnectBlockedUntil s) (ws_saved s).2) s in
    foldl wake (set_hydration Hydrated [] s) waiters
  else foldl wake_failed (set_hydration Unreadable [] s) waiters.

(** ** Socket events *)

Definition update_sock (i : nat) (f : Sock -> Sock) (s : WsState) : WsState := set_sockets (alter f i (ws_sockets s)) s.
Definition set_state (st : ReadyState) (k : Sock) : Sock :=
  mkSock st (sk_url k) (sk_accessToken k) (sk_receivedConnected k) (sk_wasRateLimited k) (sk_sent k).
Definition note_connected (k : Sock) : Sock :=
  mkSock (sk_readyState k) (sk_url k) (sk_accessToken k) true (sk_wasRateLimited k) (sk_sent k).
Definition note_limited (k : Sock) : Sock :=
  mkSock (sk_readyState k) (sk_url k) (sk_accessToken k) (sk_receivedConnected k) true (sk_sent k).
Definition opened (k : Sock) : Sock :=
  mkSock OPEN (sk_url k) (sk_accessToken k) (sk_receivedConnected k) (sk_wasRateLimited k) (sk_sent k ++ [sk_accessToken k]).
(** [ws.close()] *)
Definition close_sock (k : Sock) : Sock := if is_up (sk_readyState k) then set_state CLOSING k else k.

Definition call_handler (registered : bool) (c : HandlerCall) (s : WsState) : WsState :=
  if registered then set_calls (c :: ws_calls s) s else s.

Definition onMessage (i : nat) (msg : option jsval) (s : WsState) : WsState :=
  match msg with
  | None | Some JUndef | Some JNull => s
  | Some msg =>
      let type := jget msg "type" in
      if js_eq_str type "connected" then
        update_sock i note_connected (setReconnectBlockedUntil 0 None (setReconnectDelayMs INITIAL_RECONNECT_DELAY_MS None s))
      else if js_eq_str type "changes_available" then call_handler (ws_handlers s).1 ChangesHandler s
      else if js_eq_str type "auth_request" then call_handler (ws_handlers s).2 AuthRequestHandler s
      else if js_eq_str type "auth_error" then update_sock i close_sock (call_handler true RereadSettings s)
      else if js_eq_str type "rate_limited" then
        match jget msg "retryAfterMs" with
        | JNum retryAfterMs =>
            if 0 <? retryAfterMs then
              let bumped := Z.min (Z.max (ws_reconnectDelayMs s) retryAfterMs) MAX_RECONNECT_DELAY_MS in
              update_sock i note_limited (setReconnectBlockedUntil (ws_now s + bumped) None (setReconnectDelayMs bumped None s))
            else s
        | _ => s
        end
      else s
  end.

Definition onClose (i : nat) (s : WsState) : WsState :=
  match ws_sockets s !! i with
  | None => s
  | Some k =>
      let s := update_sock i (set_state CLOSED) s in
      let s := if decide (ws_socket s = Some i) then set_socket None s else s in
      if ws_disconnectRequested s then s
      else
        let s := if negb (sk_receivedConnected k) && negb (sk_wasRateLimited k)
                 then setReconnectDelayMs (Z.max (ws_reconnectDelayMs s) MIN_UNAUTHENTICATED_CLOSE_BACKOFF_MS) None s else s in
        scheduleReconnect s
  end.

(** ** Disconnecting *)

Definition disconnect (s : WsState) : WsState :=
  let s := set_requested true s in
  let s := match ws_reconnectTimer s with Some t => set_timer None (<[t := None]> (ws_timers s)) s | None => s end in
  let s := set_promise None (ws_attempts s) s in
  setReconnectDelayMs INITIAL_RECONNECT_DELAY_MS (Some (length (ws_disconnects s))) (set_disconnects (ws_disconnects s ++ [SavesDelay]) s).

(** [disconnect] goes on when a write of its ended. *)
Definition continue_disconnect (n : nat) (s : WsState) : WsState :=
  match ws_disconnects s !! n with
  | Some SavesDelay => setReconnectBlockedUntil 0 (Some n) (set_disconnects (<[n := SavesDeadline]> (ws_disconnects s)) s)
  | Some SavesDeadline =>
      let s := set_disconnects (<[n := Disconnected]> (ws_disconnects s)) s in
      let s := match ws_socket s with Some i => update_sock i close_sock s | None => s end in
      set_socket None s
  | _ => s
  end.

Definition put_saved (key : StorageKey) (value : Z) (saved : option Z * option Z) : option Z * option Z :=
  match key with DelayKey => (Some value, saved.2) | BlockedUntilKey => (saved.1, Some value) end.

(** The oldest write has ended, well or not. *)
Definition end_write (ok : bool) (s : WsState) : WsState :=
  match ws_writes s with
  | [] => s
  | (key, value, waiter) :: writes =>
      let s := set_saved (if ok then put_saved key value (ws_saved s) else ws_saved s) writes s in
      match waiter with Some n => continue_disconnect n s | None => s end
  end.

Definition isConnected (s : WsState) : bool := from_option (fun i => bool_decide (readyState i s = OPEN)) false (ws_socket s).
Definition onChangesAvailable (s : WsState) : WsState := set_handlers (true, (ws_handlers s).2) s.
Definition onAuthRequest (s : WsState) : WsState := set_handlers ((ws_handlers s).1, true) s.

(** The worker is stopped and starts anew: only what was written, or is being
    written, is left. *)
Definition restart (s : WsState) : WsState :=
  set_saved (ws_saved s) (map (fun w => (w.1, None)) (ws_writes s)) (initialWs (ws_now s) (ws_saved s)).

(** ** Events *)

Inductive Event :=
  | Tick (ms : Z)
  | CallEnsureConnected
  | CallDisconnect
  | HydrationRead (ok : bool)
  | DeviceRead (attempt : nat) (device : option (option DeviceRecord))
  | Refreshed (attempt : nat) (accessToken : option string)
  | WriteEnds (ok : bool)
  | TimerFires (timer : nat)
  | SocketOpens (socket : nat)
  | SocketMessage (socket : nat) (msg : option jsval)
  | SocketCloses (socket : nat)
  | WorkerRestarts.

Definition ws_event (e : Event) (s : WsState) : option WsState :=
  match e with
  | Tick ms => if 0 <=? ms then Some (ws_tick ms s) else None
  | CallEnsureConnected => Some (ensureConnected s)
  | CallDisconnect => Some (disconnect s)
  | HydrationRead ok => match ws_hydration s with Reading => Some (hydrate ok s) | _ => None end
  | DeviceRead a r =>
      match ws_attempts s !! a with
      | Some AwaitsDevice => Some (match r with Some device => connect_device a device s | None => end_attempt a true s end)
      | _ => None
      end
  | Refreshed a r => match ws_attempts s !! a with Some (AwaitsRefresh device) => Some (connect_refreshed a device r s) | _ => None end
  | WriteEnds ok => match ws_writes s with [] => None | _ => Some (end_write ok s) end
  | TimerFires t =>
      match ws_timers s !! t with
      | Some (Some timer) => if ti_due timer <=? ws_now s then Some (startConnect (set_timer None (<[t := None]> (ws_timers s)) s)) else None
      | _ => None
      end
  | SocketOpens i => if decide (readyState i s = CONNECTING) then Some (update_sock i opened s) else None
  | SocketMessage i msg => if decide (readyState i s = OPEN) then Some (onMessage i msg s) else None
  | SocketCloses i => if decide (readyState i s = CLOSED) then None else Some (onClose i s)
  | WorkerRestarts => Some (restart s)
  end.

Inductive ws_events : WsState -> list Event -> WsState -> Prop :=
  | ws_events_nil s : ws_events s [] s
  | ws_events_snoc s l s1 e s2 : ws_events s l s1 -> ws_event e s1 = Some s2 -> ws_events s (l ++ [e]) s2.

Fixpoint run_events (l : list Event) (s : WsState) : option WsState :=
  match l with
  | [] => Some s
  | e :: l => ws_event e s ≫= run_events l
  end.
End socket.
