(* ===== verification/WebSocketFacts.v ===== *)
(** * The notification socket: backoff, reconnection, one connection

    Invariants of every run of WebSocket's machine, by induction on its events. *)

From S2P Require Import Prelude JsMap Types Util Json Dates Storage WebSocket.

Open Scope Z_scope.
Open Scope js_scope.

Section facts.
Context `{WsPlatform}.
(** [0 <= Math.random() < 1] *)
Hypothesis random_range : forall n, 0 <= random n < 2 ^ 53.

(** ** Every run *)

Definition in_range (delay : Z) : Prop := INITIAL_RECONNECT_DELAY_MS <= delay <= MAX_RECONNECT_DELAY_MS.
Definition saved_ok (now : Z) (key : StorageKey) (value : Z) : Prop :=
  match key with DelayKey => in_range value | BlockedUntilKey => value <= now + MAX_RECONNECT_DELAY_MS end.
Definition timer_ok (now : Z) (x : Timer) : Prop :=
  ti_armedAt x <= now /\ ti_armedAt x <= ti_due x <= ti_armedAt x + SHORT_RECONNECT_HOLD_MS.
Definition waits_outside (x : Attempt) : Prop := match x with AwaitsDevice | AwaitsRefresh _ => True | _ => False end.

Record ws_inv (s : WsState) : Prop := {
  wi_now : 0 <= ws_now s;
  wi_delay : in_range (ws_reconnectDelayMs s);
  wi_blocked : ws_reconnectBlockedUntil s <= ws_now s + MAX_RECONNECT_DELAY_MS;
  wi_saved : (forall v, (ws_saved s).1 = Some v -> saved_ok (ws_now s) DelayKey v) /\
             (forall v, (ws_saved s).2 = Some v -> saved_ok (ws_now s) BlockedUntilKey v);
  wi_writes : Forall (fun w => saved_ok (ws_now s) w.1.1 w.1.2) (ws_writes s);
  wi_timers : forall t x, ws_timers s !! t = Some (Some x) -> ws_reconnectTimer s = Some t /\ timer_ok (ws_now s) x;
  wi_timer : forall t, ws_reconnectTimer s = Some t -> exists x, ws_timers s !! t = Some (Some x);
  wi_promise : forall a, ws_connectPromise s = Some a -> exists x, ws_attempts s !! a = Some x /\ waits_outside x;
  wi_attempts : forall a, ws_attempts s !! a <> Some AwaitsHydration;
  wi_cold : ws_hydration s <> Hydrated ->
    ws_attempts s = [] /\ ws_sockets s = [] /\ ws_timers s = [] /\ Forall (eq EnsureWaits) (ws_waiters s);
}.

Lemma in_range_initial : in_range INITIAL_RECONNECT_DELAY_MS.
Proof. done. Qed.

Lemma inv_delay v w s : in_range v -> ws_inv s -> ws_inv (setReconnectDelayMs v w s).
Proof. intros Hv []. split; cbn; try done. apply Forall_app_2; [done|by apply List.Forall_cons]. Qed.

Lemma inv_blocked v w s : v <= ws_now s + MAX_RECONNECT_DELAY_MS -> ws_inv s -> ws_inv (setReconnectBlockedUntil v w s).
Proof. intros Hv []. split; cbn; try done. apply Forall_app_2; [done|by apply List.Forall_cons]. Qed.

Lemma inv_arm d s : ws_hydration s = Hydrated -> d <= SHORT_RECONNECT_HOLD_MS -> ws_inv s -> ws_inv (armReconnectTimer d s).
Proof.
  intros Hh Hd Hi. unfold armReconnectTimer. destruct (ws_reconnectTimer s) as [t|] eqn:Ht; [done|]. destruct Hi. split; cbn; try done.
  - intros t x Hx. apply lookup_app_Some in Hx as [Hx|[Hl Hx]]; [apply wi_timers0 in Hx as [E _]; congruence|].
    destruct (t - length (ws_timers s))%nat as [|n] eqn:En; [|done]. cbn in Hx. injection Hx as <-.
    split; [f_equal; lia|]. unfold timer_ok, SHORT_RECONNECT_HOLD_MS in *. cbn. lia.
  - intros t [= <-]. rewrite lookup_app_r, Nat.sub_diag by lia. by eexists.
Qed.

Lemma hydration_arm d s : ws_hydration (armReconnectTimer d s) = ws_hydration s.
Proof. unfold armReconnectTimer. by destruct (ws_reconnectTimer s). Qed.

Lemma hydration_schedule s : ws_hydration (scheduleReconnect s) = ws_hydration s.
Proof. unfold scheduleReconnect. destruct (ws_reconnectTimer s); [done|]. destruct (_ <? _); [done|]. by rewrite hydration_arm. Qed.

Lemma inv_draw s : ws_inv s -> ws_inv (ws_draw s).
Proof. by intros []. Qed.

Lemma jittered_bounds delay n : 0 <= delay -> delay / 2 <= jittered delay (random n) <= delay.
Proof.
  intros Hd. pose proof (random_range n) as Hr. unfold jittered. split.
  - rewrite <- (Z.div_mul_cancel_r delay 2 (2 ^ 53)) by lia. apply Z.div_le_mono; [lia|]. nia.
  - apply Z.div_le_upper_bound; [lia|]. nia.
Qed.

Lemma inv_schedule s : ws_hydration s = Hydrated -> ws_inv s -> ws_inv (scheduleReconnect s).
Proof.
  intros Hh Hi. unfold scheduleReconnect. destruct (ws_reconnectTimer s) as [t|]; [done|].
  assert (in_range (ws_reconnectDelayMs s)) as Hd by apply Hi.
  set (s1 := setReconnectBlockedUntil _ _ s). set (s2 := setReconnectDelayMs _ _ s1).
  assert (ws_inv s2) as H2.
  { apply inv_delay; [unfold in_range, INITIAL_RECONNECT_DELAY_MS, MAX_RECONNECT_DELAY_MS in *; lia|].
    apply inv_blocked; [unfold in_range, MAX_RECONNECT_DELAY_MS in *; lia|done]. }
  destruct (Z.ltb_spec SHORT_RECONNECT_HOLD_MS (ws_reconnectDelayMs s)); [done|].
  apply inv_arm; [done| |by apply inv_draw].
  destruct (jittered_bounds (ws_reconnectDelayMs s) (ws_draws s2)); [unfold in_range, INITIAL_RECONNECT_DELAY_MS in Hd; lia|lia].
Qed.

Lemma inv_promise_none (l : list Attempt) s : ws_hydration s = Hydrated -> (forall a, l !! a <> Some AwaitsHydration) ->
  ws_inv s -> ws_inv (set_promise None l s).
Proof. intros Hh Hl []. split; cbn; try done. Qed.

Lemma no_hydration_insert a x (l : list Attempt) : x <> AwaitsHydration -> (forall a, l !! a <> Some AwaitsHydration) ->
  forall b, <[a := x]> l !! b <> Some AwaitsHydration.
Proof. intros Hx Hl b. rewrite list_lookup_insert. case_decide; [congruence|apply Hl]. Qed.

Lemma inv_end a failed s : ws_hydration s = Hydrated -> ws_inv s -> ws_inv (end_attempt a failed s).
Proof.
  intros Hh Hi. unfold end_attempt. set (s1 := if failed then scheduleReconnect s else s).
  assert (ws_inv s1 /\ ws_hydration s1 = Hydrated) as [H1 Hh1]
    by (unfold s1; destruct failed; [split; [by apply inv_schedule|by rewrite hydration_schedule]|done]).
  apply inv_promise_none; [done| |done]. apply no_hydration_insert; [done|apply H1].
Qed.

Lemma inv_open a d token s : ws_hydration s = Hydrated -> ws_inv s -> ws_inv (open_socket a d token s).
Proof.
  intros Hh Hi%inv_draw. unfold open_socket.
  assert (ws_inv (end_attempt a false (scheduleReconnect (ws_draw s)))) as Hf
    by (apply inv_end; [by rewrite hydration_schedule|by apply inv_schedule]).
  destruct (wsUrlFor _) as [u|]; [|done]. destruct (constructs _); [|done]. apply inv_end; [done|]. destruct Hi. by split.
Qed.

Lemma inv_set_attempt a x s : ws_hydration s = Hydrated -> waits_outside x -> ws_inv s -> ws_inv (set_attempt a x s).
Proof.
  intros Hh Hx []. split; cbn; try done.
  - intros b Hb. apply wi_promise0 in Hb as (y & Hy & Hw). rewrite list_lookup_insert. case_decide as E; [by eexists|by eexists].
  - apply no_hydration_insert; [by intros ->|done].
Qed.

Lemma inv_requested b s : ws_inv s -> ws_inv (set_requested b s).
Proof. by intros []. Qed.

Lemma inv_connect_device a d s : ws_hydration s = Hydrated -> ws_inv s -> ws_inv (connect_device a d s).
Proof.
  intros Hh Hi. unfold connect_device. destruct d as [d|]; [|by apply inv_end].
  destruct (expires_soon _ d); [apply inv_set_attempt|apply inv_open]; try done; by apply inv_requested.
Qed.

Lemma inv_connect_refreshed a d r s : ws_hydration s = Hydrated -> ws_inv s -> ws_inv (connect_refreshed a d r s).
Proof.
  intros Hh Hi. unfold connect_refreshed. destruct r as [token|]; [by apply inv_open|].
  apply inv_end; [by rewrite hydration_schedule|by apply inv_schedule].
Qed.

Lemma start_connect_hydrated s : ws_hydration s = Hydrated -> ws_connectPromise s = None ->
  startConnect s = set_promise (Some (length (ws_attempts s))) (ws_attempts s ++ [AwaitsDevice]) s.
Proof.
  intros Hh Hp. unfold startConnect, connect. rewrite Hp. cbn [ws_hydration set_promise]. rewrite Hh.
  unfold set_attempt. cbn. rewrite insert_app_r_alt, Nat.sub_diag by lia. reflexivity.
Qed.

Lemma ws_inv_start s : ws_hydration s = Hydrated -> ws_inv s -> ws_inv (startConnect s).
Proof.
  intros Hh Hi. destruct (ws_connectPromise s) as [a|] eqn:Hp; [by unfold startConnect; rewrite Hp|].
  rewrite start_connect_hydrated by done. destruct Hi. split; cbn; try done.
  - intros a [= <-]. exists AwaitsDevice. by rewrite lookup_app_r, Nat.sub_diag by lia.
  - intros a Ha. apply lookup_app_Some in Ha as [Ha|[_ Ha]]; [by apply wi_attempts0 in Ha|].
    by apply list_lookup_singleton_Some in Ha as [_ ?].
Qed.

Lemma hydration_start s : ws_hydration s = Hydrated -> ws_hydration (startConnect s) = Hydrated.
Proof.
  intros Hh. destruct (ws_connectPromise s) as [a|] eqn:Hp; [by unfold startConnect; rewrite Hp|]. by rewrite start_connect_hydrated.
Qed.

Lemma inv_ensure_hydrated s : ws_hydration s = Hydrated -> ws_inv s ->
  ws_inv (ensure_hydrated s) /\ ws_hydration (ensure_hydrated s) = Hydrated.
Proof.
  intros Hh Hi. unfold ensure_hydrated. destruct (_ <? _); [|by split; [apply ws_inv_start|apply hydration_start]].
  destruct (Z.leb_spec (ws_reconnectBlockedUntil s - ws_now s) SHORT_RECONNECT_HOLD_MS); [|done].
  split; [by apply inv_arm|by rewrite hydration_arm].
Qed.

Lemma inv_waiters h l s : ws_hydration s <> Hydrated -> h <> Hydrated -> Forall (eq EnsureWaits) l ->
  ws_inv s -> ws_inv (set_hydration h l s).
Proof.
  intros Hn Hn' Hl []. split; cbn; try done. intros _. destruct (wi_cold0 Hn) as (? & ? & ? & _). done.
Qed.

Lemma inv_ensure s : ws_inv s -> ws_inv (ensureConnected s).
Proof.
  intros Hi. unfold ensureConnected. destruct (from_option _ _ _); [done|].
  destruct (ws_connectPromise s); [done|]. destruct (ws_reconnectTimer s); [done|].
  destruct (ws_hydration s) eqn:Hh; try done; [..|by apply inv_ensure_hydrated];
    (apply inv_waiters; [congruence|done| |done]; apply Forall_app_2; [apply Hi; congruence|by apply List.Forall_cons]).
Qed.

Lemma inv_hydrate ok s : ws_hydration s = Reading -> ws_inv s -> ws_inv (hydrate ok s).
Proof.
  intros Hh Hi. assert (ws_hydration s <> Hydrated) as Hn by congruence. destruct (wi_cold s Hi Hn) as (Ha & Hs & Ht & Hw).
  unfold hydrate. destruct ok.
  - assert (forall l s', Forall (eq EnsureWaits) l -> ws_hydration s' = Hydrated -> ws_inv s' -> ws_inv (foldl wake s' l)) as Hl.
    { intros l. induction l as [|w l IH]; intros s' Hl Hh' Hi'; [done|]. apply Forall_cons in Hl as [<- Hl]. cbn.
      destruct (inv_ensure_hydrated s' Hh' Hi') as [Hi2 Hh2]. by apply IH. }
    apply Hl; [done|done|]. destruct Hi as [N D B [S1 S2] W T T' P A C]. split; cbn; try done.
    + destruct ((ws_saved s).1) as [v|]; [by apply S1|done].
    + destruct ((ws_saved s).2) as [v|]; [by apply S2|done].
  - replace (foldl wake_failed _ (ws_waiters s)) with (set_hydration Unreadable [] s); [by apply inv_waiters|].
    generalize (set_hydration Unreadable [] s). induction (ws_waiters s) as [|w l IH]; intros s'; [done|].
    apply Forall_cons in Hw as [<- Hw]. cbn. by rewrite <- IH.
Qed.

Lemma inv_update_sock i f s : ws_inv s -> ws_inv (update_sock i f s).
Proof. intros []. split; cbn; try done. intros Hh. destruct (wi_cold0 Hh) as (? & -> & ? & ?). done. Qed.

Lemma ws_inv_call b c s : ws_inv s -> ws_inv (call_handler b c s).
Proof. intros []. by destruct b. Qed.

Lemma inv_message i msg s : ws_inv s -> ws_inv (onMessage i msg s).
Proof.
  intros Hi. unfold onMessage. destruct msg as [msg|]; [|done].
  assert (forall r, ws_inv (if 0 <? r then let bumped := Z.min (Z.max (ws_reconnectDelayMs s) r) MAX_RECONNECT_DELAY_MS in
    update_sock i note_limited (setReconnectBlockedUntil (ws_now s + bumped) None (setReconnectDelayMs bumped None s)) else s)) as Hl.
  { intros r. destruct (_ <? _); [|done]. cbv zeta. assert (in_range (ws_reconnectDelayMs s)) as Hd by apply Hi.
    apply inv_update_sock, inv_blocked, inv_delay; [..|done]; cbn; unfold in_range, INITIAL_RECONNECT_DELAY_MS, MAX_RECONNECT_DELAY_MS in *; lia. }
  destruct (js_eq_str _ "connected") eqn:E1.
  { assert (ws_inv (update_sock i note_connected (setReconnectBlockedUntil 0 None (setReconnectDelayMs INITIAL_RECONNECT_DELAY_MS None s)))) as Hc.
    { apply inv_update_sock, inv_blocked; [|by apply inv_delay]. cbn. pose proof (wi_now s Hi). unfold MAX_RECONNECT_DELAY_MS. lia. }
    by destruct msg. }
  destruct msg; try done; repeat (destruct (js_eq_str _ _); [solve [by apply ws_inv_call|by apply inv_update_sock, ws_inv_call|destruct (jget _ _); done]|]); done.
Qed.

Lemma inv_close i s : ws_inv s -> ws_inv (onClose i s).
Proof.
  intros Hi. unfold onClose. destruct (ws_sockets s !! i) as [k|] eqn:Hk; [|done].
  assert (ws_hydration s = Hydrated) as Hh.
  { destruct (ws_hydration s) eqn:E; [..|done|]; (destruct (wi_cold s Hi ltac:(congruence)) as (_ & Hs & _); by rewrite Hs in Hk). }
  set (s1 := update_sock i (set_state CLOSED) s). set (s2 := if decide _ then _ else s1).
  assert (ws_inv s2 /\ ws_hydration s2 = Hydrated) as [H2 Hh2].
  { assert (ws_inv s1) as H1 by by apply inv_update_sock. unfold s2. destruct (decide _); [|done]. split; [by destruct H1|done]. }
  destruct (ws_disconnectRequested s2); [done|]. destruct (negb _ && negb _); [|by apply inv_schedule].
  apply inv_schedule; [done|]. apply inv_delay; [|done].
  pose proof (wi_delay s2 H2). unfold in_range, INITIAL_RECONNECT_DELAY_MS, MAX_RECONNECT_DELAY_MS, MIN_UNAUTHENTICATED_CLOSE_BACKOFF_MS in *. lia.
Qed.

Lemma inv_unarm t s : ws_inv s -> ws_reconnectTimer s = Some t -> ws_inv (set_timer None (<[t := None]> (ws_timers s)) s).
Proof.
  intros [] Ht. split; cbn; try done.
  - intros t' x. rewrite list_lookup_insert. case_decide as E; [done|]. intros Hx. destruct (wi_timers0 _ _ Hx) as [E' _].
    exfalso. apply E. split; [congruence|]. apply lookup_lt_Some in Hx. congruence.
  - intros Hh. destruct (wi_cold0 Hh) as (? & ? & -> & ?). done.
Qed.

Lemma inv_disconnect s : ws_inv s -> ws_inv (disconnect s).
Proof.
  intros Hi. unfold disconnect. apply inv_delay; [done|].
  set (s1 := set_requested true s). set (s2 := match ws_reconnectTimer s1 with Some _ => _ | None => s1 end).
  assert (ws_inv s2) as [] by (unfold s2; destruct (ws_reconnectTimer s1) eqn:E; [apply inv_unarm; [|done]|]; by apply inv_requested).
  by split.
Qed.

Lemma inv_continue n s : ws_inv s -> ws_inv (continue_disconnect n s).
Proof.
  intros Hi. unfold continue_disconnect. destruct (ws_disconnects s !! n) as [[]|]; try done.
  - apply inv_blocked; [|by destruct Hi]. cbn. pose proof (wi_now s Hi). unfold MAX_RECONNECT_DELAY_MS. lia.
  - set (s1 := set_disconnects _ s). set (s2 := match ws_socket s1 with Some _ => _ | None => s1 end).
    assert (ws_inv s1) as H1 by by destruct Hi.
    assert (ws_inv s2) as [] by (unfold s2; destruct (ws_socket s1); [by apply inv_update_sock|done]). by split.
Qed.

Lemma inv_end_write ok s : ws_inv s -> ws_inv (end_write ok s).
Proof.
  intros Hi. unfold end_write. destruct (ws_writes s) as [|[[key v] w] l] eqn:Hw; [done|].
  set (s1 := set_saved _ l s). assert (ws_inv s1) as H1.
  { destruct Hi as [N D B [S1 S2] W T T' P A C]. rewrite Hw in W. apply Forall_cons in W as [Hv Hl]. split; try done.
    cbn. destruct ok; [|done]. destruct key; cbn; (split; first [done|by intros v' [= <-]]). }
  destruct w; [by apply inv_continue|done].
Qed.

Lemma inv_restart s : ws_inv s -> ws_inv (restart s).
Proof.
  intros []. split; cbn; try done.
  - unfold MAX_RECONNECT_DELAY_MS. lia.
  - by apply Forall_fmap.
Qed.

Lemma inv_tick ms s : 0 <= ms -> ws_inv s -> ws_inv (ws_tick ms s).
Proof.
  intros Hms [N D B [S1 S2] W T T' P A C]. assert (forall k v, saved_ok (ws_now s) k v -> saved_ok (ws_now s + ms) k v) as Hk
    by (intros [] v; cbn; [done|lia]). split; cbn; try done; try lia.
  - split; intros v Hv; [by apply (Hk DelayKey), S1|by apply (Hk BlockedUntilKey), S2].
  - eapply Forall_impl; [exact W|]. intros w. apply Hk.
  - intros t x Hx. destruct (T _ _ Hx) as [E [? ?]]. split; [done|]. split; [lia|done].
Qed.

Lemma hydrated_attempt a x s : ws_inv s -> ws_attempts s !! a = Some x -> ws_hydration s = Hydrated.
Proof.
  intros Hi Ha. destruct (ws_hydration s) eqn:E; [..|done|]; (destruct (wi_cold s Hi ltac:(congruence)) as (Hs & _); by rewrite Hs in Ha).
Qed.

Lemma ws_inv_event e s s' : ws_event e s = Some s' -> ws_inv s -> ws_inv s'.
Proof.
  intros He Hi. destruct e as [ms| | |ok|a r|a r|ok|t|i|i msg|i|]; cbn in He.
  - destruct (Z.leb_spec 0 ms); [|done]. injection He as <-. by apply inv_tick.
  - injection He as <-. by apply inv_ensure.
  - injection He as <-. by apply inv_disconnect.
  - destruct (ws_hydration s) eqn:Hh; try done. injection He as <-. by apply inv_hydrate.
  - destruct (ws_attempts s !! a) as [[]|] eqn:Ha; try done. injection He as <-. pose proof (hydrated_attempt _ _ _ Hi Ha).
    destruct r; [by apply inv_connect_device|by apply inv_end].
  - destruct (ws_attempts s !! a) as [[]|] eqn:Ha; try done. injection He as <-. pose proof (hydrated_attempt _ _ _ Hi Ha).
    by apply inv_connect_refreshed.
  - destruct (ws_writes s) eqn:Hw; [done|]. injection He as <-. by apply inv_end_write.
  - destruct (ws_timers s !! t) as [[x|]|] eqn:Ht; [|done..]. destruct (_ <=? _); [|done]. injection He as <-.
    destruct (wi_timers s Hi _ _ Ht) as [Hr _]. apply ws_inv_start; [|by apply inv_unarm].
    cbn. destruct (ws_hydration s) eqn:E; [..|done|]; (destruct (wi_cold s Hi ltac:(congruence)) as (_ & _ & Hs & _); by rewrite Hs in Ht).
  - destruct (decide _); [|done]. injection He as <-. by apply inv_update_sock.
  - destruct (decide _); [|done]. injection He as <-. by apply inv_message.
  - destruct (decide _); [done|]. injection He as <-. by apply inv_close.
  - injection He as <-. by apply inv_restart.
Qed.

Lemma ws_inv_run l now s : 0 <= now -> ws_events (initialWs now (None, None)) l s -> ws_inv s.
Proof.
  intros Hn Hr. remember (initialWs now (None, None)) as s0 eqn:E. induction Hr as [s|s l s1 e s2 _ IH He]; subst.
  - split; cbn; try done. unfold MAX_RECONNECT_DELAY_MS. lia.
  - eapply ws_inv_event; [exact He|by apply IH].
Qed.

(** C38. The wait between connections stays between one second and one minute,
    its deadline at most a minute ahead, and no more than one timer is armed, for
    at most half a minute, however often the worker is stopped and whatever the
    server sends. A connection that drops sets the deadline by the wait, which is
    fifteen seconds or more when the server never accepted the token, doubles it
    for the next time, and arms a timer for between half the wait and all of it,
    unless that would hold the worker for too long. *)
Theorem backoff_bounded now l s : 0 <= now -> ws_events (initialWs now (None, None)) l s ->
  in_range (ws_reconnectDelayMs s) /\ ws_reconnectBlockedUntil s <= ws_now s + MAX_RECONNECT_DELAY_MS /\
  (forall t x, ws_timers s !! t = Some (Some x) -> ws_reconnectTimer s = Some t /\ ti_due x <= ti_armedAt x + SHORT_RECONNECT_HOLD_MS) /\
  forall i k, ws_sockets s !! i = Some k -> ws_disconnectRequested s = false -> ws_reconnectTimer s = None ->
    let wait := if sk_receivedConnected k || sk_wasRateLimited k then ws_reconnectDelayMs s
                else Z.max (ws_reconnectDelayMs s) MIN_UNAUTHENTICATED_CLOSE_BACKOFF_MS in
    let s' := onClose i s in
    ws_reconnectBlockedUntil s' = ws_now s + wait /\ ws_reconnectDelayMs s' = Z.min (wait * 2) MAX_RECONNECT_DELAY_MS /\
    if SHORT_RECONNECT_HOLD_MS <? wait then ws_reconnectTimer s' = None
    else exists t x, ws_reconnectTimer s' = Some t /\ ws_timers s' !! t = Some (Some x) /\ ws_now s + wait / 2 <= ti_due x <= ws_now s + wait.
Proof.
  intros Hn Hr. pose proof (ws_inv_run _ _ _ Hn Hr) as Hi. split_and!; [apply Hi|apply Hi|..].
  { intros t x Hx. destruct (wi_timers s Hi t x Hx) as (E & _ & ?). split; [done|lia]. }
  intros i k Hk Hd Ht wait s'. pose proof (wi_delay s Hi) as Hdelay.
  assert (0 <= wait) as Hw by (unfold wait, in_range, INITIAL_RECONNECT_DELAY_MS in *; destruct (_ || _); lia).
  assert (exists s1, s' = scheduleReconnect s1 /\ ws_reconnectDelayMs s1 = wait /\ ws_now s1 = ws_now s /\ ws_reconnectTimer s1 = None) as (s1 & -> & E1 & E2 & E3).
  { unfold s', onClose, wait. rewrite Hk. set (s1 := if decide _ then _ else _).
    assert (ws_disconnectRequested s1 = false /\ ws_reconnectDelayMs s1 = ws_reconnectDelayMs s /\ ws_now s1 = ws_now s /\ ws_reconnectTimer s1 = None)
      as (-> & E1 & E2 & E3) by (unfold s1; by destruct (decide _)).
    destruct (sk_receivedConnected k), (sk_wasRateLimited k); cbn [negb andb orb]; eexists; (split; [reflexivity|cbn; rewrite E1; done]). }
  unfold scheduleReconnect. rewrite E3, E1, E2. destruct (SHORT_RECONNECT_HOLD_MS <? wait); [done|].
  set (s2 := ws_draw _). assert (ws_reconnectTimer s2 = None) as E4 by done. unfold armReconnectTimer. rewrite E4. cbn. split_and!; [done..|].
  exists (length (ws_timers s1)). eexists. rewrite lookup_app_r, Nat.sub_diag by lia. split_and!; [done|reflexivity|..]; cbn; rewrite E2;
    destruct (jittered_bounds wait (ws_draws s1) Hw); pose proof (Z.div_pos wait 2); lia.
Qed.
End facts.

(** * The notification socket comes back

    From every state a worker can be in, one minute, a wake and answers from
    outside are enough for a connection. *)

Section live.
Context `{WsPlatform}.
Hypothesis random_range : forall n, 0 <= random n < 2 ^ 53.
Hypothesis constructs_always : forall n, constructs n = true.
Variables (device : DeviceRecord) (address : string).
Hypothesis device_address : wsUrlFor (serverUrl device) = Some address.

(** What the surroundings do on the way back: time passes, the worker is woken,
    and what is asked for is answered. *)
Definition helpful (e : Event) : Prop :=
  match e with
  | Tick _ | CallEnsureConnected | HydrationRead true | Refreshed _ _ | TimerFires _ | SocketOpens _ => True
  | DeviceRead _ r => r = Some (Some device)
  | _ => False
  end.
Definition ticks (e : Event) : Z := match e with Tick ms => ms | _ => 0 end.
Definition total_ticks (l : list Event) : Z := foldr Z.add 0 (map ticks l).

Lemma total_ticks_app l1 l2 : total_ticks (l1 ++ l2) = total_ticks l1 + total_ticks l2.
Proof. unfold total_ticks. induction l1 as [|e l1 IH]; cbn; [done|]. rewrite IH. lia. Qed.

(** The socket is open after helpful events that take at most [ms]. *)
Definition reaches (ms : Z) (s : WsState) : Prop :=
  exists l s', run_events l s = Some s' /\ isConnected s' = true /\ Forall helpful l /\ 0 <= total_ticks l <= ms.

Lemma reaches_event e s s' ms : ws_event e s = Some s' -> helpful e -> 0 <= ticks e -> reaches ms s' -> reaches (ticks e + ms) s.
Proof.
  intros He Hh Ht (l & s2 & Hr & Hc & Hl & Hms). exists (e :: l), s2. cbn [run_events]. rewrite He. split_and!; [done..|by constructor| |];
    unfold total_ticks in *; cbn; lia.
Qed.

Lemma reaches_now e s s' ms : ws_event e s = Some s' -> helpful e -> ticks e = 0 -> reaches ms s' -> reaches ms s.
Proof. intros He Hh Ht Hr. replace ms with (ticks e + ms) by lia. eapply reaches_event; [exact He|done|lia|done]. Qed.

Lemma reaches_weaken ms ms' s : ms <= ms' -> reaches ms s -> reaches ms' s.
Proof. intros Hm (l & s' & ? & ? & ? & ?). exists l, s'. split_and!; try done; lia. Qed.

Lemma reaches_up i s : ws_socket s = Some i -> is_up (readyState i s) = true -> reaches 0 s.
Proof.
  intros Hs Hu. destruct (readyState i s) eqn:Hr; try done.
  - assert (exists k, ws_sockets s !! i = Some k) as [k Hk].
    { unfold readyState in Hr. destruct (ws_sockets s !! i) as [k|]; [by eexists|]. cbn in Hr. discriminate Hr. }
    exists [SocketOpens i], (update_sock i opened s). cbn [run_events ws_event]. rewrite Hr. split_and!; [done| |repeat constructor|done..].
    unfold isConnected. cbn. rewrite Hs. cbn. unfold readyState. cbn. rewrite list_lookup_alter_eq, Hk. done.
  - exists [], s. split_and!; try done. unfold isConnected. rewrite Hs. cbn. by rewrite Hr.
Qed.

Lemma reaches_open a d token s : wsUrlFor (serverUrl d) <> None -> reaches 0 (open_socket a d token s).
Proof.
  intros Hu. unfold open_socket. destruct (wsUrlFor (serverUrl d)) as [u|]; [|done]. rewrite constructs_always.
  eapply reaches_up; [reflexivity|]. unfold readyState. cbn. by rewrite lookup_app_r, Nat.sub_diag by lia.
Qed.

Lemma reaches_await a s : ws_attempts s !! a = Some AwaitsDevice -> reaches 0 s.
Proof.
  intros Ha. eapply (reaches_now (DeviceRead a (Some (Some device)))); [cbn; by rewrite Ha|done..|].
  unfold connect_device. destruct (expires_soon _ _); [|by apply reaches_open; rewrite device_address].
  eapply (reaches_now (Refreshed a (Some "token"))); [|done..|].
  - cbn. rewrite list_lookup_insert_eq by (by eapply lookup_lt_Some). reflexivity.
  - by apply reaches_open; rewrite device_address.
Qed.

Lemma reaches_start s : ws_hydration s = Hydrated -> ws_connectPromise s = None -> reaches 0 (startConnect s).
Proof.
  intros Hh Hp. rewrite start_connect_hydrated by done. apply (reaches_await (length (ws_attempts s))).
  cbn. by rewrite lookup_app_r, Nat.sub_diag by lia.
Qed.

Lemma reaches_idle s : ws_hydration s = Hydrated -> ws_connectPromise s = None -> ws_inv s -> reaches MAX_RECONNECT_DELAY_MS s.
Proof.
  intros Hh Hp Hi. destruct (from_option (fun i => is_up (readyState i s)) false (ws_socket s)) eqn:Hu.
  { destruct (ws_socket s) as [i|] eqn:Hs; [|done]. apply (reaches_weaken 0); [done|]. by eapply reaches_up. }
  destruct (ws_reconnectTimer s) as [t|] eqn:Ht.
  - destruct (wi_timer s Hi t Ht) as [x Hx]. destruct (wi_timers s Hi t x Hx) as (_ & Hn & Hd).
    unfold SHORT_RECONNECT_HOLD_MS, MAX_RECONNECT_DELAY_MS in *. set (ms := Z.max 0 (ti_due x - ws_now s)).
    apply (reaches_weaken (ticks (Tick ms) + 0)); [cbn; lia|]. eapply (reaches_event (Tick ms)); [cbn; rewrite (proj2 (Z.leb_le 0 ms)) by lia; reflexivity|done|cbn; lia|].
    eapply (reaches_now (TimerFires t)); [|done..|].
    + cbn. rewrite Hx, (proj2 (Z.leb_le _ _)) by lia. reflexivity.
    + by apply reaches_start.
  - pose proof (wi_blocked s Hi) as Hb. unfold MAX_RECONNECT_DELAY_MS in *. set (ms := Z.max 0 (ws_reconnectBlockedUntil s - ws_now s)).
    apply (reaches_weaken (ticks (Tick ms) + 0)); [cbn; lia|]. eapply (reaches_event (Tick ms)); [cbn; rewrite (proj2 (Z.leb_le 0 ms)) by lia; reflexivity|done|cbn; lia|].
    eapply (reaches_now CallEnsureConnected); [reflexivity|done..|].
    unfold ensureConnected. cbn [ws_tick ws_socket ws_connectPromise ws_reconnectTimer ws_hydration]. rewrite Hp, Ht, Hh.
    replace (from_option (fun i => is_up (readyState i (ws_tick ms s))) false (ws_socket s)) with false by by destruct (ws_socket s).
    unfold ensure_hydrated. cbn [ws_tick ws_now ws_reconnectBlockedUntil]. rewrite (proj2 (Z.ltb_ge _ _)) by lia. by apply reaches_start.
Qed.

Lemma schedule_promise s : ws_connectPromise (scheduleReconnect s) = ws_connectPromise s.
Proof.
  unfold scheduleReconnect, armReconnectTimer. destruct (ws_reconnectTimer s) as [t|] eqn:E; [done|]. destruct (_ <? _); [done|]. cbn.
  by rewrite E.
Qed.

Lemma reaches_hydrated s : ws_hydration s = Hydrated -> ws_inv s -> reaches MAX_RECONNECT_DELAY_MS s.
Proof.
  intros Hh Hi. destruct (ws_connectPromise s) as [a|] eqn:Hp; [|by apply reaches_idle].
  destruct (wi_promise s Hi a Hp) as ([| |d|] & Ha & Hw); try done; [by apply (reaches_weaken 0); [done|eapply reaches_await]|].
  eapply (reaches_now (Refreshed a None)); [cbn; rewrite Ha; reflexivity|done..|].
  apply reaches_idle; [|done|by apply (inv_connect_refreshed random_range a d None)]. cbn. by rewrite hydration_schedule.
Qed.

Lemma wakes_hydrated l s : ws_hydration s = Hydrated -> ws_hydration (foldl wake s l) = Hydrated.
Proof.
  revert s. induction l as [|w l IH]; intros s Hh; [done|]. cbn. apply IH. destruct w as [|a]; [|done]. cbn. unfold ensure_hydrated.
  destruct (_ <? _); [|by apply hydration_start]. destruct (_ <=? _); [by rewrite hydration_arm|done].
Qed.

Lemma reaches_reading s : ws_hydration s = Reading -> ws_inv s -> reaches MAX_RECONNECT_DELAY_MS s.
Proof.
  intros Hh Hi. apply (reaches_now (HydrationRead true) s (hydrate true s)); [cbn [ws_event]; by rewrite Hh|done..|].
  apply reaches_hydrated; [|by apply inv_hydrate]. unfold hydrate. by apply wakes_hydrated.
Qed.

(** C37. From every state a worker can be in, unless its one read of the stored
    backoff failed, it can be connected again within a minute: time, one wake
    and answers to what the worker asks for are all it takes. *)
Theorem can_reconnect now l s : 0 <= now -> ws_events (initialWs now (None, None)) l s -> ws_hydration s <> Unreadable ->
  exists l' s', run_events l' s = Some s' /\ isConnected s' = true /\ Forall helpful l' /\ 0 <= total_ticks l' <= MAX_RECONNECT_DELAY_MS.
Proof.
  intros Hn Hr Hu. pose proof (ws_inv_run random_range _ _ _ Hn Hr) as Hi. change (reaches MAX_RECONNECT_DELAY_MS s).
  destruct (ws_hydration s) eqn:Hh; [|by apply reaches_reading|by apply reaches_hydrated|done].
  destruct (wi_cold s Hi ltac:(congruence)) as (Ha & Hs & Ht & Hw).
  assert (ws_connectPromise s = None) as Hp.
  { destruct (ws_connectPromise s) as [a|] eqn:E; [|done]. destruct (wi_promise s Hi a E) as (x & Hx & _). by rewrite Ha in Hx. }
  assert (ws_reconnectTimer s = None) as Hp'.
  { destruct (ws_reconnectTimer s) as [a|] eqn:E; [|done]. destruct (wi_timer s Hi a E) as (x & Hx). by rewrite Ht in Hx. }
  eapply (reaches_now CallEnsureConnected); [reflexivity|done..|]. pose proof (inv_ensure s Hi) as Hi'. revert Hi'.
  unfold ensureConnected. rewrite Hp, Hp', Hh. replace (from_option _ false (ws_socket s)) with false; [intros Hi'; by apply reaches_reading|].
  destruct (ws_socket s) as [i|]; [|done]. cbn. unfold readyState. by rewrite Hs.
Qed.
End live.
