(* ===== verification/WebSocketOnceFacts.v ===== *)
(** * One connection at a time

    As long as the closing handshakes the client starts end before the worker
    looks again, there is at most one connection, attempt or reconnect timer;
    examples of what happens otherwise. *)

From S2P Require Import Prelude JsMap Types Util Json Dates Storage WebSocket WebSocketFacts.

Open Scope Z_scope.
Open Scope js_scope.

Section once.
Context `{WsPlatform}.
Hypothesis random_range : forall n, 0 <= random n < 2 ^ 53.

(** The device is disconnected while no attempt is under way, and the worker is
    woken while no closing handshake is. *)
Definition orderly (e : Event) (s : WsState) : Prop :=
  match e with
  | CallDisconnect => forall a x, ws_attempts s !! a = Some x -> x = Ended
  | CallEnsureConnected => forall i, readyState i s <> CLOSING
  | _ => True
  end.

Inductive orderly_events : WsState -> list Event -> WsState -> Prop :=
  | orderly_nil s : orderly_events s [] s
  | orderly_snoc s l s1 e s2 : orderly_events s l s1 -> orderly e s1 -> ws_event e s1 = Some s2 -> orderly_events s (l ++ [e]) s2.

Lemma orderly_run s l s' : orderly_events s l s' -> ws_events s l s'.
Proof. induction 1; [constructor|by econstructor]. Qed.

Lemma orderly_cons e s s1 l s2 : orderly e s -> ws_event e s = Some s1 -> orderly_events s1 l s2 -> orderly_events s (e :: l) s2.
Proof.
  intros Hor He Hr. induction Hr as [s1|s1 l s2 e' s3 _ IH Hor' He'].
  - eapply (orderly_snoc s []); [constructor|done..].
  - rewrite app_comm_cons. eapply orderly_snoc; [by apply IH|done..].
Qed.

Record once (s : WsState) : Prop := {
  on_sock : forall i j, readyState i s <> CLOSED -> readyState j s <> CLOSED -> i = j;
  on_up : forall i, is_up (readyState i s) = true -> ws_socket s = Some i;
  on_attempt : forall a x, ws_attempts s !! a = Some x -> x <> Ended -> ws_connectPromise s = Some a;
  on_free : forall i, readyState i s <> CLOSED -> ws_connectPromise s = None /\ ws_reconnectTimer s = None;
  on_promise : forall a, ws_connectPromise s = Some a -> ws_reconnectTimer s = None;
}.
Definition no_socket (s : WsState) : Prop := forall i, readyState i s = CLOSED.

Lemma once_promise_socket s a : once s -> ws_connectPromise s = Some a -> no_socket s.
Proof. intros Ho Ha i. destruct (decide (readyState i s = CLOSED)) as [|Hn]; [done|]. destruct (on_free s Ho i Hn). congruence. Qed.

Lemma once_timer_socket s t : once s -> ws_reconnectTimer s = Some t -> no_socket s.
Proof. intros Ho Ha i. destruct (decide (readyState i s = CLOSED)) as [|Hn]; [done|]. destruct (on_free s Ho i Hn). congruence. Qed.

(** Changes that leave sockets, attempts and the timer alone. *)
Lemma once_same s s' : ws_sockets s' = ws_sockets s -> ws_socket s' = ws_socket s -> ws_attempts s' = ws_attempts s ->
  ws_connectPromise s' = ws_connectPromise s -> ws_reconnectTimer s' = ws_reconnectTimer s -> once s -> once s'.
Proof. intros E1 E2 E3 E4 E5 []. split; unfold readyState in *; rewrite ?E1, ?E2, ?E3, ?E4, ?E5; done. Qed.

Lemma arm_shape d s : ws_sockets (armReconnectTimer d s) = ws_sockets s /\ ws_socket (armReconnectTimer d s) = ws_socket s /\
  ws_attempts (armReconnectTimer d s) = ws_attempts s /\ ws_connectPromise (armReconnectTimer d s) = ws_connectPromise s.
Proof. unfold armReconnectTimer. by destruct (ws_reconnectTimer s). Qed.

Lemma schedule_shape s : ws_sockets (scheduleReconnect s) = ws_sockets s /\ ws_socket (scheduleReconnect s) = ws_socket s /\
  ws_attempts (scheduleReconnect s) = ws_attempts s /\ ws_connectPromise (scheduleReconnect s) = ws_connectPromise s.
Proof.
  unfold scheduleReconnect. destruct (ws_reconnectTimer s); [done|]. destruct (_ <? _); [done|].
  match goal with |- ws_sockets (armReconnectTimer ?d ?s') = _ /\ _ => apply (arm_shape d s') end.
Qed.

(** Without a socket, attempts and timer are what is left to show. *)
Lemma once_bare s : no_socket s -> (forall a x, ws_attempts s !! a = Some x -> x <> Ended -> ws_connectPromise s = Some a) ->
  (forall a, ws_connectPromise s = Some a -> ws_reconnectTimer s = None) -> once s.
Proof. intros Hn Ha Hp. split; [intros i j Hi; by rewrite (Hn i) in Hi|intros i Hi; by rewrite (Hn i) in Hi|done|intros i Hi; by rewrite (Hn i) in Hi|done]. Qed.

(** With no socket and no attempt, a timer may be set. *)
Lemma once_timer s s' : ws_sockets s' = ws_sockets s -> ws_socket s' = ws_socket s -> ws_attempts s' = ws_attempts s ->
  ws_connectPromise s' = ws_connectPromise s -> no_socket s -> ws_connectPromise s = None -> once s -> once s'.
Proof.
  intros E1 E2 E3 E4 Hn Hp []. assert (no_socket s') as Hn' by (intros i; unfold readyState; rewrite E1; apply Hn).
  apply once_bare; [done|by rewrite E3, E4|congruence].
Qed.

Lemma once_arm d s : no_socket s -> ws_connectPromise s = None -> once s -> once (armReconnectTimer d s).
Proof. intros Hn Hp Ho. destruct (arm_shape d s) as (? & ? & ? & ?). by apply (once_timer s). Qed.

Lemma once_schedule s : no_socket s -> ws_connectPromise s = None -> once s -> once (scheduleReconnect s).
Proof. intros Hn Hp Ho. destruct (schedule_shape s) as (? & ? & ? & ?). by apply (once_timer s). Qed.

(** The attempt under way ends, with or without a socket or a timer. *)
Lemma once_end a s s' : once s -> ws_connectPromise s = Some a ->
  ws_attempts s' = <[a := Ended]> (ws_attempts s) -> ws_connectPromise s' = None ->
  (ws_sockets s' = ws_sockets s \/ ws_reconnectTimer s' = None /\ exists k, ws_sockets s' = ws_sockets s ++ [k] /\ ws_socket s' = Some (length (ws_sockets s))) ->
  once s'.
Proof.
  intros Ho Ha Hat Hp Hs. pose proof (once_promise_socket s a Ho Ha) as Hn.
  assert (forall b x, ws_attempts s' !! b = Some x -> x = Ended) as Hended.
  { intros b x. rewrite Hat, list_lookup_insert. case_decide as E; [by intros [= <-]|]. intros Hx. assert (x = Ended \/ x <> Ended) as [|Hne] by (destruct x; auto; by right); [done|].
    pose proof (on_attempt s Ho b x Hx Hne) as Hb. rewrite Ha in Hb. injection Hb as <-. apply lookup_lt_Some in Hx. by exfalso; apply E. }
  assert (forall i, readyState i s' <> CLOSED -> ws_reconnectTimer s' = None /\ i = length (ws_sockets s) /\ ws_socket s' = Some i) as Hup.
  { intros i. destruct Hs as [Hs|(Ht & k & Hs & Hk)]; unfold readyState; rewrite Hs; [intros Hi; exfalso; exact (Hi (Hn i))|].
    intros Hi. destruct (decide (i < length (ws_sockets s))%nat) as [Hl|Hl].
    - rewrite lookup_app_l in Hi by done. exfalso. exact (Hi (Hn i)).
    - rewrite lookup_app_r in Hi by lia. destruct (i - length (ws_sockets s))%nat as [|n] eqn:E; [|done].
      assert (i = length (ws_sockets s)) as -> by lia. done. }
  split.
  - intros i j Hi Hj. destruct (Hup i Hi) as (_ & -> & _), (Hup j Hj) as (_ & -> & _). done.
  - intros i Hi. apply Hup. by intros E; rewrite E in Hi.
  - intros b x Hx Hne. by apply Hended in Hx.
  - intros i Hi. by destruct (Hup i Hi).
  - congruence.
Qed.

Lemma once_open a d token s : once s -> ws_connectPromise s = Some a -> once (open_socket a d token s).
Proof.
  intros Ho Ha. unfold open_socket. pose proof (on_promise s Ho a Ha) as Ht.
  assert (once (end_attempt a false (scheduleReconnect (ws_draw s)))) as Hf.
  { destruct (schedule_shape (ws_draw s)) as (E1 & E2 & E3 & E4). apply (once_end a s); [done|done| |done|left; exact E1].
    cbn. by rewrite E3. }
  destruct (wsUrlFor _) as [u|]; [|done]. destruct (constructs _); [|done].
  apply (once_end a s); [done..|]. right. split; [done|]. by eexists.
Qed.

Lemma once_failed a s : once s -> ws_connectPromise s = Some a -> once (end_attempt a false (scheduleReconnect s)).
Proof.
  intros Ho Ha. destruct (schedule_shape s) as (E1 & E2 & E3 & E4). apply (once_end a s); [done|done| |done|left; exact E1]. cbn. by rewrite E3.
Qed.

Lemma once_start s : ws_hydration s = Hydrated -> no_socket s -> ws_connectPromise s = None -> ws_reconnectTimer s = None ->
  once s -> once (startConnect s).
Proof.
  intros Hh Hn Hp Ht Ho. rewrite start_connect_hydrated by done. apply once_bare; [exact Hn| |done]. cbn. intros a x Hx Hne.
  apply lookup_app_Some in Hx as [Hx|[Hl Hx]]; [by rewrite (on_attempt s Ho a x Hx Hne) in Hp|].
  apply list_lookup_singleton_Some in Hx as [Hx _]. f_equal. lia.
Qed.

Lemma once_ensure_hydrated s : ws_hydration s = Hydrated -> no_socket s -> ws_connectPromise s = None -> ws_reconnectTimer s = None ->
  once s -> once (ensure_hydrated s).
Proof.
  intros Hh Hn Hp Ht Ho. unfold ensure_hydrated. destruct (_ <? _); [|by apply once_start]. destruct (_ <=? _); [by apply once_arm|done].
Qed.

Lemma readyState_update i f j s : readyState j (update_sock i f s) =
  from_option (fun k => sk_readyState (if decide (i = j) then f k else k)) CLOSED (ws_sockets s !! j).
Proof.
  unfold readyState. cbn. destruct (decide (i = j)) as [->|Hne]; [rewrite list_lookup_alter_eq|rewrite list_lookup_alter_ne by done]; by destruct (ws_sockets s !! _).
Qed.

(** A socket event that keeps the socket's state, or takes it down. *)
Lemma once_update i f s : once s ->
  (forall k, ws_sockets s !! i = Some k -> sk_readyState (f k) = sk_readyState k \/ is_up (sk_readyState (f k)) = false /\ sk_readyState k <> CLOSED \/
     is_up (sk_readyState (f k)) = true /\ is_up (sk_readyState k) = true) -> once (update_sock i f s).
Proof.
  intros Ho Hf. assert (forall j, readyState j (update_sock i f s) <> CLOSED -> readyState j s <> CLOSED) as Hc.
  { intros j. rewrite readyState_update. unfold readyState. destruct (ws_sockets s !! j) as [k|] eqn:Hk; [|done]. cbn. case_decide as E; [subst j|done].
    destruct (Hf k Hk) as [->|[[_ ?]|[_ Hu]]]; [done..|]. intros _ E. by rewrite E in Hu. }
  split.
  - intros j j' Hj Hj'. apply (on_sock s Ho); by apply Hc.
  - intros j Hj. cbn. apply (on_up s Ho). revert Hj. rewrite readyState_update. unfold readyState. destruct (ws_sockets s !! j) as [k|] eqn:Hk; [|done]. cbn.
    case_decide as E; [subst j|done]. destruct (Hf k Hk) as [->|[[-> _]|[_ Hu]]]; done.
  - apply Ho.
  - intros j Hj. apply (on_free s Ho j). by apply Hc.
  - apply Ho.
Qed.

Lemma once_unarm s : once s -> once (set_timer None (match ws_reconnectTimer s with Some t => <[t := None]> (ws_timers s) | None => ws_timers s end) s).
Proof.
  intros []. split; cbn; try done. intros i Hi. by destruct (on_free0 i Hi).
Qed.

Lemma arm_arm d d' s : armReconnectTimer d (armReconnectTimer d' s) = armReconnectTimer d' s.
Proof. unfold armReconnectTimer at 2 3. destruct (ws_reconnectTimer s) eqn:E; [|done]. unfold armReconnectTimer. by rewrite E. Qed.

Lemma start_start s : ws_hydration s = Hydrated -> startConnect (startConnect s) = startConnect s.
Proof.
  intros Hh. assert (forall s', ws_connectPromise s' <> None -> startConnect s' = s') as Hs
    by (intros s' Hs'; unfold startConnect; by destruct (ws_connectPromise s')).
  apply Hs. destruct (ws_connectPromise s) as [a|] eqn:E; [by rewrite Hs; rewrite E|by rewrite start_connect_hydrated].
Qed.

Lemma ensure_hydrated_idem s : ws_hydration s = Hydrated -> ensure_hydrated (ensure_hydrated s) = ensure_hydrated s.
Proof.
  intros Hh. unfold ensure_hydrated at 2 3. destruct (ws_now s <? ws_reconnectBlockedUntil s) eqn:Hb.
  - destruct (ws_reconnectBlockedUntil s - ws_now s <=? SHORT_RECONNECT_HOLD_MS) eqn:Hb'; unfold ensure_hydrated; [|by rewrite Hb, Hb'].
    set (s1 := armReconnectTimer _ s). assert (ws_now s1 = ws_now s /\ ws_reconnectBlockedUntil s1 = ws_reconnectBlockedUntil s) as [-> ->]
      by (unfold s1, armReconnectTimer; by destruct (ws_reconnectTimer s)).
    rewrite Hb, Hb'. apply arm_arm.
  - set (s1 := startConnect s). assert (ws_now s1 = ws_now s /\ ws_reconnectBlockedUntil s1 = ws_reconnectBlockedUntil s) as [E1 E2].
    { unfold s1. destruct (ws_connectPromise s) as [a|] eqn:E; [by unfold startConnect; rewrite E|by rewrite start_connect_hydrated]. }
    unfold ensure_hydrated. rewrite E1, E2, Hb. by apply start_start.
Qed.

Lemma once_hydrate ok s : ws_inv s -> ws_hydration s = Reading -> once s -> once (hydrate ok s).
Proof.
  intros Hi Hh Ho. assert (ws_hydration s <> Hydrated) as Hc by congruence. destruct (wi_cold s Hi Hc) as (Ha & Hs & Ht & Hw).
  assert (no_socket s) as Hn by (intros i; unfold readyState; by rewrite Hs).
  assert (ws_connectPromise s = None) as Hp.
  { destruct (ws_connectPromise s) as [a|] eqn:E; [|done]. destruct (wi_promise s Hi a E) as (x & Hx & _). by rewrite Ha in Hx. }
  assert (ws_reconnectTimer s = None) as Hr.
  { destruct (ws_reconnectTimer s) as [t|] eqn:E; [|done]. destruct (wi_timer s Hi t E) as (x & Hx). by rewrite Ht in Hx. }
  unfold hydrate. destruct ok.
  - set (s1 := set_hydration Hydrated [] _).
    assert (once s1) as H1 by by apply (once_same s).
    destruct (ws_waiters s) as [|w l]; [done|]. apply Forall_cons in Hw as [<- Hl]. cbn [foldl wake].
    replace (foldl wake (ensure_hydrated s1) l) with (ensure_hydrated s1); [by apply once_ensure_hydrated|].
    induction l as [|w l IH]; [done|]. apply Forall_cons in Hl as [<- Hl]. cbn. by rewrite ensure_hydrated_idem, <- IH.
  - replace (foldl wake_failed _ (ws_waiters s)) with (set_hydration Unreadable [] s); [by apply (once_same s)|].
    generalize (set_hydration Unreadable [] s). induction (ws_waiters s) as [|w l IH]; intros s'; [done|].
    apply Forall_cons in Hw as [<- Hw]. cbn. by rewrite <- IH.
Qed.

Lemma once_message i msg s : once s -> once (onMessage i msg s).
Proof.
  intros Ho. unfold onMessage. destruct msg as [msg|]; [|done].
  assert (forall f s', once s' -> (forall k, sk_readyState (f k) = sk_readyState k) -> once (update_sock i f s')) as Hk
    by (intros f s' Hs' Hf; apply once_update; auto).
  assert (forall s', once s' -> once (update_sock i close_sock s')) as Hclose.
  { intros s' Hs'. apply once_update; [done|]. intros k _. unfold close_sock. destruct (sk_readyState k) eqn:E; cbn; auto; by right; left; rewrite E. }
  assert (forall key b1 b2 v w, once (write key v w (set_backoff b1 b2 s))) as Hw by (intros; by apply (once_same s)).
  assert (forall r, once (if 0 <? r then let bumped := Z.min (Z.max (ws_reconnectDelayMs s) r) MAX_RECONNECT_DELAY_MS in
    update_sock i note_limited (setReconnectBlockedUntil (ws_now s + bumped) None (setReconnectDelayMs bumped None s)) else s)) as Hl
    by (intros r; destruct (_ <? _); [|done]; apply Hk; [by apply (once_same s)|done]).
  assert (once (update_sock i note_connected (setReconnectBlockedUntil 0 None (setReconnectDelayMs INITIAL_RECONNECT_DELAY_MS None s)))) as Hc
    by (apply Hk; [by apply (once_same s)|done]).
  assert (forall b c, once (call_handler b c s)) as Hcall by (intros [] c; by apply (once_same s)).
  destruct msg; try done; repeat (destruct (js_eq_str _ _); [solve [done|by apply Hcall|by apply Hclose, Hcall|destruct (jget _ _); done]|]); done.
Qed.

Lemma once_close i s : readyState i s <> CLOSED -> once s -> once (onClose i s).
Proof.
  intros Hup Ho. unfold onClose. destruct (ws_sockets s !! i) as [k|] eqn:Hk; [|done].
  destruct (on_free s Ho i Hup) as [Hp Ht]. set (s1 := update_sock i (set_state CLOSED) s). set (s2 := if decide _ then _ else s1).
  assert (no_socket s1) as Hn.
  { intros j. unfold s1. rewrite readyState_update. destruct (ws_sockets s !! j) as [k'|] eqn:Hk'; [|done]. cbn. case_decide as E; [done|].
    destruct (decide (readyState j s = CLOSED)) as [Hc|Hc]; [unfold readyState in Hc; by rewrite Hk' in Hc|].
    exfalso. apply E. by apply (on_sock s Ho). }
  assert (once s2 /\ no_socket s2 /\ ws_connectPromise s2 = None) as (H2 & Hn2 & Hp2).
  { assert (no_socket s2) as Hn2 by (unfold s2; destruct (decide _); exact Hn).
    assert (ws_connectPromise s2 = None) as Hp2 by (unfold s2; destruct (decide _); done).
    split_and!; try done. assert (ws_reconnectTimer s2 = None /\ ws_attempts s2 = ws_attempts s) as [Ht2 Ha2] by (unfold s2; destruct (decide _); done).
    apply once_bare; [done| |congruence].
    intros a x. rewrite Ha2, Hp2, <- Hp. apply Ho. }
  destruct (ws_disconnectRequested s2); [done|]. destruct (negb _ && negb _); [|by apply once_schedule].
  apply once_schedule; [done..|]. by apply (once_same s2).
Qed.

Lemma once_disconnect s : (forall a x, ws_attempts s !! a = Some x -> x = Ended) -> once s -> once (disconnect s).
Proof.
  intros Ha Ho. unfold disconnect. set (s1 := set_requested true s). set (s2 := match ws_reconnectTimer s1 with Some _ => _ | None => s1 end).
  assert (ws_sockets s2 = ws_sockets s /\ ws_socket s2 = ws_socket s /\ ws_attempts s2 = ws_attempts s /\ ws_reconnectTimer s2 = None) as (E1 & E2 & E3 & E4)
    by (unfold s2; destruct (ws_reconnectTimer s1) eqn:E; done).
  destruct Ho. split; unfold readyState; cbn; rewrite ?E1, ?E2, ?E3, ?E4; try done. intros a x Hx Hne. by apply Ha in Hx.
Qed.

Lemma once_socket_gone s : (forall i, is_up (readyState i s) = false) -> once s -> once (set_socket None s).
Proof. intros Hd []. split; try done. intros i Hi. unfold readyState in *. cbn in Hi. by rewrite Hd in Hi. Qed.

Lemma once_continue n s : once s -> once (continue_disconnect n s).
Proof.
  intros Ho. unfold continue_disconnect. destruct (ws_disconnects s !! n) as [[]|]; [by apply (once_same s)| |done..].
  set (s1 := set_disconnects _ s). assert (once s1) as H1 by by apply (once_same s).
  destruct (ws_socket s1) as [i|] eqn:Hs.
  - apply once_socket_gone.
    + intros j. rewrite readyState_update. destruct (ws_sockets s1 !! j) as [k|] eqn:Hk; [|done]. cbn. case_decide as E.
      * unfold close_sock. by destruct (sk_readyState k) eqn:Er; cbn; rewrite ?Er.
      * destruct (is_up (sk_readyState k)) eqn:Eu; [|done]. exfalso. apply E.
        assert (ws_socket s1 = Some j) as Hj by (apply (on_up s1 H1); unfold readyState; by rewrite Hk). congruence.
    + apply once_update; [done|]. intros k _. unfold close_sock. destruct (sk_readyState k) eqn:E; cbn; rewrite ?E; auto.
  - apply once_socket_gone; [|done]. intros j. destruct (is_up (readyState j s1)) eqn:E; [|done]. apply (on_up s1 H1) in E. congruence.
Qed.

Lemma once_ensure s : ws_inv s -> (forall i, readyState i s <> CLOSING) -> once s -> once (ensureConnected s).
Proof.
  intros Hi Hc Ho. unfold ensureConnected. destruct (from_option _ false (ws_socket s)) eqn:Hu; [done|].
  destruct (ws_connectPromise s) eqn:Hp; [done|]. destruct (ws_reconnectTimer s) eqn:Ht; [done|].
  assert (no_socket s) as Hn.
  { intros i. destruct (readyState i s) eqn:E; try done; [..|by apply Hc in E];
      (assert (ws_socket s = Some i) as Hs by (apply (on_up s Ho); by rewrite E); rewrite Hs in Hu; cbn in Hu; by rewrite E in Hu). }
  destruct (ws_hydration s) eqn:Hh; try done; [by apply (once_same s)..|by apply once_ensure_hydrated].
Qed.

Lemma once_connect_device a d s : once s -> ws_connectPromise s = Some a -> once (connect_device a d s).
Proof.
  intros Ho Ha. unfold connect_device. destruct d as [d|]; [|apply (once_end a s); try done; by left].
  assert (once (set_requested false s)) as Ho' by by apply (once_same s).
  destruct (expires_soon _ d); [|by apply once_open]. destruct Ho'. split; cbn in *; try done.
  intros b x. rewrite list_lookup_insert. case_decide as E; [by destruct E as [<- _]|apply on_attempt0].
Qed.

Lemma once_restart s : once (restart s).
Proof. split; cbn; done. Qed.

Lemma once_event e s s' : ws_inv s -> orderly e s -> ws_event e s = Some s' -> once s -> once s'.
Proof.
  intros Hi Hor He Ho. destruct e as [ms| | |ok|a r|a r|ok|t|i|i msg|i|]; cbn in He, Hor.
  - destruct (Z.leb_spec 0 ms); [|done]. injection He as <-. by apply (once_same s).
  - injection He as <-. by apply once_ensure.
  - injection He as <-. by apply once_disconnect.
  - destruct (ws_hydration s) eqn:Hh; try done. injection He as <-. by apply once_hydrate.
  - destruct (ws_attempts s !! a) as [[]|] eqn:Ha; try done. injection He as <-. assert (ws_connectPromise s = Some a) as Hp by by apply (on_attempt s Ho a _ Ha).
    destruct r; [by apply once_connect_device|]. unfold end_attempt. by apply once_failed.
  - destruct (ws_attempts s !! a) as [[]|] eqn:Ha; try done. injection He as <-. assert (ws_connectPromise s = Some a) as Hp by by apply (on_attempt s Ho a _ Ha).
    destruct r; [by apply once_open|by apply once_failed].
  - destruct (ws_writes s) as [|[[key v] w] l] eqn:Hw; [done|]. injection He as <-. unfold end_write. rewrite Hw.
    destruct w; [apply once_continue|]; by apply (once_same s).
  - destruct (ws_timers s !! t) as [[x|]|] eqn:Ht; [|done..]. destruct (_ <=? _); [|done]. injection He as <-.
    destruct (wi_timers s Hi _ _ Ht) as [Hr _]. assert (ws_connectPromise s = None) as Hp.
    { destruct (ws_connectPromise s) as [a|] eqn:E; [|done]. apply (on_promise s Ho) in E. congruence. }
    apply once_start; [|exact (once_timer_socket s t Ho Hr)|done..|].
    + cbn. destruct (ws_hydration s) eqn:E; [..|done|]; (destruct (wi_cold s Hi ltac:(congruence)) as (_ & _ & Hs & _); by rewrite Hs in Ht).
    + pose proof (once_unarm s Ho) as Hu. by rewrite Hr in Hu.
  - destruct (decide _) as [Hr|]; [|done]. injection He as <-. apply once_update; [done|]. intros k Hk. right. right.
    unfold readyState in Hr. rewrite Hk in Hr. cbn in Hr. by rewrite Hr.
  - destruct (decide _); [|done]. injection He as <-. by apply once_message.
  - destruct (decide _) as [|Hup]; [done|]. injection He as <-. by apply once_close.
  - injection He as <-. apply once_restart.
Qed.

Lemma once_run now l s : 0 <= now -> orderly_events (initialWs now (None, None)) l s -> once s.
Proof.
  intros Hn Hr. remember (initialWs now (None, None)) as s0 eqn:E. induction Hr as [s|s l s1 e s2 Hr IH Hor He]; subst.
  - split; cbn; done.
  - eapply once_event; [|exact Hor|exact He|by apply IH]. eapply ws_inv_run; [done|exact Hn|by apply orderly_run].
Qed.

(** ** In numbers *)

Lemma filter_unique {A} (f : A -> bool) (l : list A) :
  (forall i j x y, l !! i = Some x -> l !! j = Some y -> f x = true -> f y = true -> i = j) -> (length (List.filter f l) <= 1)%nat.
Proof.
  induction l as [|x l IH]; intros Hu; cbn; [lia|]. destruct (f x) eqn:Hx.
  - replace (List.filter f l) with (@nil A); [cbn; lia|]. symmetry.
    destruct (List.filter f l) as [|y l'] eqn:E; [done|]. assert (y ∈ List.filter f l) as Hy by (rewrite E; left).
    apply list_elem_of_In, List.filter_In in Hy as [Hy Hfy]. apply list_elem_of_In, list_elem_of_lookup in Hy as [j Hj].
    by specialize (Hu 0%nat (S j) x y eq_refl Hj Hx Hfy).
  - apply IH. intros i j y z Hi Hj Hy Hz. specialize (Hu (S i) (S j) y z Hi Hj Hy Hz). lia.
Qed.

Lemma filter_found {A} (f : A -> bool) (l : list A) : length (List.filter f l) = 0%nat \/ exists i x, l !! i = Some x /\ f x = true.
Proof.
  destruct (List.filter f l) as [|x l'] eqn:E; [by left|right]. assert (x ∈ List.filter f l) as Hx by (rewrite E; left).
  apply list_elem_of_In, List.filter_In in Hx as [Hx Hf]. apply list_elem_of_In, list_elem_of_lookup in Hx as [i Hi]. by exists i, x.
Qed.

Definition sock_exists (k : Sock) : bool := match sk_readyState k with CLOSED => false | _ => true end.
Definition attempt_runs (x : Attempt) : bool := match x with Ended => false | _ => true end.
Definition timer_armed (x : option Timer) : bool := match x with Some _ => true | None => false end.

(** C23. As long as a device is disconnected only between attempts, and the
    worker is woken only when no closing handshake of its own is still under
    way, the sockets not closed, the attempts under way and the armed reconnect
    timers of a worker are together at most one, whatever the server sends and
    in whatever order events come: so the server's limit on connections of a
    device is not used twice. *)
Theorem one_connection now l s : 0 <= now -> orderly_events (initialWs now (None, None)) l s ->
  (length (List.filter sock_exists (ws_sockets s)) + length (List.filter attempt_runs (ws_attempts s)) +
   length (List.filter timer_armed (ws_timers s)) <= 1)%nat.
Proof.
  intros Hn Hr. pose proof (once_run _ _ _ Hn Hr) as Ho. pose proof (ws_inv_run random_range _ _ _ Hn (orderly_run _ _ _ Hr)) as Hi.
  assert (forall i k, ws_sockets s !! i = Some k -> sock_exists k = true -> readyState i s <> CLOSED) as Hsock
    by (intros i k Hk; unfold readyState, sock_exists; rewrite Hk; cbn; by destruct (sk_readyState k)).
  assert (forall a x, ws_attempts s !! a = Some x -> attempt_runs x = true -> ws_connectPromise s = Some a) as Hatt
    by (intros a x Hx Hr'; apply (on_attempt s Ho a x Hx); by intros ->).
  assert (forall t x, ws_timers s !! t = Some x -> timer_armed x = true -> ws_reconnectTimer s = Some t) as Htim
    by (intros t [x|] Hx; [by destruct (wi_timers s Hi t x Hx)|done]).
  assert (length (List.filter sock_exists (ws_sockets s)) <= 1)%nat as L1
    by (apply filter_unique; intros i j x y Hx Hy Ex Ey; apply (on_sock s Ho); eauto).
  assert (length (List.filter attempt_runs (ws_attempts s)) <= 1)%nat as L2
    by (apply filter_unique; intros i j x y Hx Hy Ex Ey; apply (Hatt i) in Hx; [|done]; apply (Hatt j) in Hy; [congruence|done]).
  assert (length (List.filter timer_armed (ws_timers s)) <= 1)%nat as L3
    by (apply filter_unique; intros i j x y Hx Hy Ex Ey; apply (Htim i) in Hx; [|done]; apply (Htim j) in Hy; [congruence|done]).
  destruct (filter_found sock_exists (ws_sockets s)) as [E1|(i & k & Hk & Ek)].
  - destruct (filter_found attempt_runs (ws_attempts s)) as [E2|(a & x & Hx & Ex)]; [lia|].
    destruct (filter_found timer_armed (ws_timers s)) as [E3|(t & y & Hy & Ey)]; [lia|].
    pose proof (on_promise s Ho a (Hatt a x Hx Ex)). pose proof (Htim t y Hy Ey). congruence.
  - destruct (on_free s Ho i (Hsock i k Hk Ek)) as [Hp Ht].
    destruct (filter_found attempt_runs (ws_attempts s)) as [E2|(a & x & Hx & Ex)]; [|pose proof (Hatt a x Hx Ex); congruence].
    destruct (filter_found timer_armed (ws_timers s)) as [E3|(t & y & Hy & Ey)]; [lia|pose proof (Htim t y Hy Ey); congruence].
Qed.
End once.

(** ** Runs *)

#[local] Instance plain_dates : DatePlatform := {| parse_other := fun _ => None |}.
#[local] Instance plain_platform : WsPlatform := {|
  url := string * string;
  new_url u := Some ("https:", u);
  get_protocol := fst; get_pathname := snd;
  set_protocol p u := (p, u.2); set_pathname p u := (u.1, p); set_search _ u := u;
  url_toString u := u.1 +:+ "//host" +:+ u.2;
  random _ := 0; constructs _ := true;
|}.

Lemma plain_random n : 0 <= random n < 2 ^ 53.
Proof. done. Qed.

Definition paired (expiresAt : string) : DeviceRecord :=
  mkDevice "/" "dev" "user" "mail" "access" expiresAt "refresh" "key" 1 None None None None None None None None None None None.
Definition lasting : DeviceRecord := paired "2100-01-01T00:00:00.000Z".
Definition expired : DeviceRecord := paired "1970-01-01T00:00:00.000Z".
Definition frame (type : string) (fields : list (string * jsval)) : option jsval := Some (JObj (("type", JStr type) :: fields)).

Definition connecting : list Event := [CallEnsureConnected; HydrationRead true; DeviceRead 0 (Some (Some lasting))].
Definition connected : list Event := connecting ++ [SocketOpens 0; SocketMessage 0 (frame "connected" [])].
Definition after (l : list Event) : WsState := default (initialWs 0 (None, None)) (run_events l (initialWs 0 (None, None))).

Lemma run_snoc e l s : run_events (l ++ [e]) s = run_events l s ≫= ws_event e.
Proof. revert s. induction l as [|e' l IH]; intros s; cbn; [by destruct (ws_event e s)|]. destruct (ws_event e' s); [apply IH|done]. Qed.

Lemma run_events_run l s s' : run_events l s = Some s' -> ws_events s l s'.
Proof.
  revert s'. induction l as [|e l IH] using rev_ind; intros s' Hr; [injection Hr as <-; constructor|].
  rewrite run_snoc in Hr. destruct (run_events l s) as [s1|] eqn:E; [|done]. econstructor; [by apply IH|exact Hr].
Qed.

Example frames_sent : map (fun k => (sk_url k, sk_sent k)) (ws_sockets (after connected)) = [("wss://host/api/v1/ws", ["access"])].
Proof. vm_compute. reflexivity. Qed.

Lemma after_run l : match run_events l (initialWs 0 (None, None)) with Some _ => True | None => False end ->
  ws_events (initialWs 0 (None, None)) l (after l).
Proof. intros Hl. apply run_events_run. unfold after. by destruct (run_events l _). Qed.

Lemma backoff_bounded_witness : ws_reconnectBlockedUntil (onClose 0 (after connecting)) = 15000.
Proof.
  pose proof (backoff_bounded plain_random 0 connecting (after connecting)) as Hb.
  assert (ws_events (initialWs 0 (None, None)) connecting (after connecting)) as Hr by (apply after_run; vm_compute; exact I).
  destruct (Hb (Z.le_refl 0) Hr) as (_ & _ & _ & Hc).
  destruct (Hc 0%nat (mkSock CONNECTING "wss://host/api/v1/ws" "access" false false [])) as (-> & _); vm_compute; reflexivity.
Defined.

Lemma can_reconnect_witness : exists l s, run_events l (onClose 0 (after connecting)) = Some s /\ isConnected s = true.
Proof.
  assert (ws_events (initialWs 0 (None, None)) (connecting ++ [SocketCloses 0]) (onClose 0 (after connecting))) as Hr.
  { eapply ws_events_snoc; [apply after_run; vm_compute; exact I|vm_compute; reflexivity]. }
  destruct (can_reconnect plain_random (fun _ => eq_refl) lasting "wss://host/api/v1/ws" eq_refl 0 _ _ (Z.le_refl 0) Hr) as (l & s & H1 & H2 & _);
    [vm_compute; discriminate|by exists l, s].
Defined.

Lemma one_connection_witness : length (List.filter sock_exists (ws_sockets (after connected))) = 1%nat /\
  (length (List.filter sock_exists (ws_sockets (after connected))) + length (List.filter attempt_runs (ws_attempts (after connected))) +
   length (List.filter timer_armed (ws_timers (after connected))) <= 1)%nat.
Proof.
  split; [vm_compute; reflexivity|]. apply (one_connection plain_random 0 connected (after connected) (Z.le_refl 0)).
  unfold connected, connecting. cbn [app].
  repeat (eapply orderly_cons; [first [exact I|intros i; discriminate]|vm_compute; reflexivity|]).
  vm_compute. apply orderly_nil.
Defined.

(** The closing handshake that follows an [auth_error] still under way, a wake
    connects anew; when the old socket is closed it arms a timer, and the timer
    opens a third socket beside the second. *)
Theorem closing_socket_doubles :
  let l := connected ++ [SocketMessage 0 (frame "auth_error" []); CallEnsureConnected; DeviceRead 1 (Some (Some lasting)); SocketOpens 1;
    SocketCloses 0; Tick 1000; TimerFires 0; DeviceRead 2 (Some (Some lasting)); SocketOpens 2] in
  option_map (fun s => map sk_readyState (ws_sockets s)) (run_events l (initialWs 0 (None, None))) = Some [CLOSED; OPEN; OPEN].
Proof. vm_compute. reflexivity. Qed.

(** The device is disconnected while an attempt waits for a fresh token: the
    attempt goes on, and its failure sets a deadline and a timer after the reset. *)
Theorem disconnect_keeps_attempt :
  let l := [CallEnsureConnected; HydrationRead true; DeviceRead 0 (Some (Some expired)); CallDisconnect; WriteEnds true; WriteEnds true;
    Refreshed 0 None; WriteEnds true; WriteEnds true] in
  option_map (fun s => (ws_disconnects s, ws_saved s, ws_reconnectTimer s)) (run_events l (initialWs 0 (None, None))) =
    Some ([Disconnected], (Some 2000, Some 1000), Some 0%nat).
Proof. vm_compute. reflexivity. Qed.

(** Told to wait twenty seconds, the client connects again after ten. *)
Theorem instructed_wait_halved :
  let l := connecting ++ [SocketOpens 0; SocketMessage 0 (frame "rate_limited" [("retryAfterMs", JNum 20000)]); SocketCloses 0; Tick 10000; TimerFires 0] in
  option_map (fun s => (ws_now s, ws_reconnectBlockedUntil s, last (ws_attempts s))) (run_events l (initialWs 0 (None, None))) =
    Some (10000, 20000, Some AwaitsDevice).
Proof. vm_compute. reflexivity. Qed.

(** One failed read of the backoff, and no wake of this worker connects. *)
Theorem failed_read_remembered :
  let s := after [CallEnsureConnected; HydrationRead false] in
  ensureConnected s = s /\ ws_attempts s = [] /\ forall ms, ensureConnected (ws_tick ms s) = ws_tick ms s.
Proof. vm_compute. repeat split. Qed.
