(* ===== verification/Background.v ===== *)
(** * The worker's wiring (extension/src/background/index.ts)

    What runs when: the first import, settings changes, the periodic sync, daily
    maintenance, the badge and the popup's messages. The components called are
    the class [WorkerParts] over one state; storage is theirs and Storage's.
    Calls not waited for run where they are started; logging is left out. *)

From S2P Require Import Prelude JsMap Types Util Json Dates Storage Maintenance Engine.

Open Scope Z_scope.
Open Scope js_scope.

Inductive Capture := CaptureBookmarks | CaptureHistory | CaptureTabs | CaptureTabGroups.

(** Messages the restore point service answers. *)
Inductive ServiceMessage :=
  | LIST_RESTORE_POINTS
  | CREATE_RESTORE_POINT
  | GET_RESTORE_POINT_TREE (pointId : string)
  | PREVIEW_RESTORE (pointId mode scope : string)
  | START_RESTORE (pointId mode scope : string)
  | GET_RESTORE_PROGRESS
  | SET_RESTORE_POINT_PINNED (pointId : string) (pinned : bool)
  | DELETE_RESTORE_POINT (pointId : string).

Inductive PopupMessage :=
  | SYNC_NOW
  | RESTORE_TAB (objectId : string)
  | RESTORE_ALL_TABS
  | GET_STATUS
  | REFRESH_CAPTURE_CONFIG
  | IMPORT_OLDER_HISTORY
  | DEVICE_DISCONNECTED
  | ServiceRequest (m : ServiceMessage)
  | UnknownMessage.

(** The components, over their joint state [St]. [elsewhere n] is what the popup
    does to the database while the worker waits for the n-th time; a badge set
    may fail. *)
Class WorkerParts (St : Type) := {
  wp_db : St -> DB;
  wp_set_db : DB -> St -> St;
  wp_settings :: SettingsApi sync_error St;
  wp_policy :: PolicyApi sync_error St;
  wp_dates :: DatePlatform;
  wp_now : nat -> Z;
  elsewhere : nat -> DB -> DB;
  listAuthRequests : St -> (sync_error + list jsval) * St;
  setBadgeText : string -> St -> (sync_error + unit) * St;
  downloadEverything : St -> (sync_error + unit) * St;
  runSyncCycle : St -> (sync_error + unit) * St;
  createPreImportPoint : St -> (sync_error + unit) * St;
  backfillBookmarks : St -> (sync_error + unit) * St;
  backfillHistory : St -> (sync_error + unit) * St;
  importOlderHistory : St -> (sync_error + unit) * St;
  drainRestorePointOutbox : St -> (sync_error + unit) * St;
  resumeInterruptedRestore : St -> (sync_error + unit) * St;
  sweepStaleBookmarkMappingsOnce : St -> (sync_error + unit) * St;
  ensureCryptoReady : St -> (sync_error + unit) * St;
  restoreTabsOf : list string -> St -> (sync_error + unit) * St;
  restoreTabOf : string -> St -> (sync_error + unit) * St;
  restorePointService : ServiceMessage -> St -> (sync_error + jsval) * St;
  disconnectWebSocket : St -> (sync_error + unit) * St;
  clearTriggerState : St -> (sync_error + unit) * St;
  setLinkExistingBookmarks : bool -> St -> St;
  ensureWebSocketConnected : St -> St;
  registerCapture : Capture -> St -> St;
  setCaptureEnabled : Capture -> bool -> St -> St;
  clearSyncBlockedState : St -> (sync_error + unit) * St;
  clearLoadedRestorePoint : St -> St;
  notifyPeerChanges : St -> St;
  scheduleLocalSync : St -> St;
  invalidateMemoryCaches : St -> St;
}.

Record Badge := mkBadge { lastBadgeAt : Z; lastBadgeText : string; pendingAuthRequestCount : Z }.

Record Worker (St : Type) := mkWorker {
  wk_parts : St;
  wk_badge : Badge;
  wk_importing : bool;                        (** [initialImportInFlight] *)
  wk_status : string * option string * option string;
  wk_awaits : nat;
}.
#[global] Arguments mkWorker {St}. #[global] Arguments wk_parts {St}. #[global] Arguments wk_badge {St}.
#[global] Arguments wk_importing {St}. #[global] Arguments wk_status {St}. #[global] Arguments wk_awaits {St}.

Definition newWorker {St} (parts : St) (awaits : nat) : Worker St := mkWorker parts (mkBadge 0 "" 0) false ("idle", None, None) awaits.

Section worker.
Context {St : Type} `{Parts : WorkerParts St}.

Definition Wk (A : Type) : Type := M (Worker St) sync_error A.

Definition set_parts (x : St) (w : Worker St) : Worker St := mkWorker x (wk_badge w) (wk_importing w) (wk_status w) (wk_awaits w).
Definition set_badge (b : Badge) (w : Worker St) : Worker St := mkWorker (wk_parts w) b (wk_importing w) (wk_status w) (wk_awaits w).
Definition set_importing (b : bool) (w : Worker St) : Worker St := mkWorker (wk_parts w) (wk_badge w) b (wk_status w) (wk_awaits w).
Definition set_status (x : string * option string * option string) (w : Worker St) : Worker St :=
  mkWorker (wk_parts w) (wk_badge w) (wk_importing w) x (wk_awaits w).
Definition worker_db (w : Worker St) : DB := wp_db (wk_parts w).
Definition on_db (f : DB -> DB) (w : Worker St) : Worker St := set_parts (wp_set_db (f (worker_db w)) (wk_parts w)) w.

(** Each wait lets the popup act. *)
Definition wait : Wk unit := modify (fun w =>
  let w' := on_db (elsewhere (wk_awaits w)) w in mkWorker (wk_parts w') (wk_badge w') (wk_importing w') (wk_status w') (S (wk_awaits w'))).
Definition part {A} (m : St -> (sync_error + A) * St) : Wk A := do! wait in fun w => let '(r, x) := m (wk_parts w) in (r, set_parts x w).
Definition at_once (f : St -> St) : Wk unit := modify (fun w => set_parts (f (wk_parts w)) w).
Definition read_db {A} (f : DB -> A) : Wk A := do! wait in fun w => (inr (f (worker_db w)), w).
(** [getSyncState], which writes the first row when there is none. *)
Definition sync_state_row : Wk SyncStateRecord :=
  do! wait in fun w => let '(row, db) := getSyncState (worker_db w) in (inr row, on_db (fun _ => db) w).
Definition write_db (f : DB -> DB) : Wk unit := do! wait in modify (on_db f).
(** A store walk that may run out of fuel, which MaintenanceFacts excludes. *)
Definition walk_db (f : DB -> option DB) : Wk unit := do! wait in fun w =>
  match f (worker_db w) with Some db => (inr tt, on_db (fun _ => db) w) | None => (inl (OtherError "fuel"), w) end.
Definition date_now : Wk Z := fun w => (inr (wp_now (wk_awaits w)), w).
Definition badge : Wk Badge := fun w => (inr (wk_badge w), w).
Definition put_badge (b : Badge) : Wk unit := modify (set_badge b).
(** [void m.catch(...)] *)
Definition detached (m : Wk unit) : Wk unit := try_catch m (fun _ => ret tt).

(** ** Status and badge *)

Definition onStatus (status : string) (detail code : option string) (w : Worker St) : Worker St := set_status (status, detail, code) w.

Definition BADGE_THROTTLE_MS : Z := 5 * 60000.
Definition AUTH_REQUEST_BADGE : string := "!".

Definition refreshPendingAuthRequests : Wk bool :=
  let! device := read_db db_device in
  match device with
  | None => ret false
  | Some _ =>
      try_catch
        (let! requests := part listAuthRequests in
         let count := Z.of_nat (length requests) in
         let! b := badge in
         do! put_badge (mkBadge (lastBadgeAt b) (lastBadgeText b) count) in
         ret (negb (count =? pendingAuthRequestCount b)))
        (fun _ => ret false)
  end.

Definition show_badge (text : string) : Wk unit :=
  let! b := badge in
  do! put_badge (mkBadge (lastBadgeAt b) text (pendingAuthRequestCount b)) in
  part (setBadgeText text).
Definition note_badge (now : Z) : Wk unit :=
  let! b := badge in put_badge (mkBadge now (lastBadgeText b) (pendingAuthRequestCount b)).

Definition count_text (count : Z) : string := if 0 <? count then json_num count else "".

(** [updateBadge] past the throttle. *)
Definition refresh_badge (force : bool) (now : Z) : Wk unit :=
  let! b := badge in
  if 0 <? pendingAuthRequestCount b then
    do! note_badge now in
    if negb (String.eqb (lastBadgeText b) AUTH_REQUEST_BADGE) || force then show_badge AUTH_REQUEST_BADGE else ret tt
  else
    let! policy := part fetchTabRestorePolicy in
    if bool_decide (policy = Some "ask") then
      let! count := read_db countPendingTabRestores in
      do! note_badge now in
      let text := count_text (default 0 count) in
      let! b := badge in
      if negb (String.eqb text (lastBadgeText b)) || force then show_badge text else ret tt
    else
      let! b := badge in
      do! (if String.eqb (lastBadgeText b) "" then ret tt else show_badge "") in
      note_badge now.

Definition updateBadge (force : bool) : Wk unit :=
  try_catch
    (let! now := date_now in
     let! b := badge in
     if negb force && (now - lastBadgeAt b <? BADGE_THROTTLE_MS) then ret tt else refresh_badge force now)
    (fun _ => ret tt).

(** The handlers [onChangesAvailable] and [onAuthRequest] are given. *)
Definition changes_available : Wk unit :=
  do! at_once notifyPeerChanges in do! at_once scheduleLocalSync in detached (updateBadge false).
Definition auth_request : Wk unit :=
  detached (let! changed := refreshPendingAuthRequests in if (changed : bool) then updateBadge true else ret tt).

(** ** Importing *)

Definition applyCaptureToggles (settings : UserSettingsDto) : Wk unit :=
  do! at_once (setCaptureEnabled CaptureBookmarks (not_off (syncBookmarks settings))) in
  do! at_once (setCaptureEnabled CaptureHistory (not_off (syncHistory settings))) in
  do! at_once (setCaptureEnabled CaptureTabs (not_off (syncTabs settings))) in
  at_once (setCaptureEnabled CaptureTabGroups (not_off (syncTabGroups settings))).

Definition with_completed (at_ : string) (d : DeviceRecord) : DeviceRecord :=
  mkDevice (serverUrl d) (deviceId d) (userId d) (email d) (accessToken d) (accessTokenExpiresAt d) (refreshToken d) (accountKey d)
    (accountKeyVersion d) (Some at_) (historyBulkCutoffMs d) (historyBulkEndMs d) (historyBulkOperationId d) (historyBulkObjectId d)
    (historyBulkUploadedChunks d) (historyBulkUploadedVisits d) (historyOlderCutoffMs d) (historyOlderEndMs d) (historyOlderUploadedChunks d)
    (historyOlderUploadedVisits d).
Definition with_bulk_end (now : Z) (d : DeviceRecord) : DeviceRecord :=
  mkDevice (serverUrl d) (deviceId d) (userId d) (email d) (accessToken d) (accessTokenExpiresAt d) (refreshToken d) (accountKey d)
    (accountKeyVersion d) (initialImportCompletedAt d) (historyBulkCutoffMs d) (Some now) (historyBulkOperationId d) (historyBulkObjectId d)
    (historyBulkUploadedChunks d) (historyBulkUploadedVisits d) (historyOlderCutoffMs d) (historyOlderEndMs d) (historyOlderUploadedChunks d)
    (historyOlderUploadedVisits d).

(** [!device.initialImportCompletedAt] *)
Definition not_imported (d : DeviceRecord) : bool :=
  match initialImportCompletedAt d with Some s => String.eqb s "" | None => true end.

(** [new Date().toISOString()] *)
Definition iso_now : Wk string := let! now := date_now in ret (default "" (toISOString now)).

(** The account first, then this browser. *)
Definition import_all : Wk unit :=
  do! at_once (setLinkExistingBookmarks true) in
  do! (fun w => match part downloadEverything w with
                | (r, w') => (r, set_parts (setLinkExistingBookmarks false (wk_parts w')) w')
                end) in
  do! part createPreImportPoint in
  do! part backfillBookmarks in
  part backfillHistory.

(** The stamp, on the device read last, if it is still the one. *)
Definition stamp_import (device : DeviceRecord) : Wk unit :=
  let! current := read_db db_device in
  match current with
  | Some current =>
      if String.eqb (deviceId current) (deviceId device) then
        let! at_ := iso_now in write_db (set_device (Some (with_completed at_ current)))
      else ret tt
  | None => ret tt
  end.

Definition runInitialImport (device : DeviceRecord) : Wk unit := fun w =>
  if wk_importing w then (inr tt, w)
  else
    let '(_, w) := try_catch (do! import_all in stamp_import device) (fun _ => ret tt) (set_importing true w) in
    (inr tt, set_importing false w).

(** Behind [singleFlight]; an import in flight is waited for. *)
Definition runOlderHistoryImport : Wk unit := detached (part importOlderHistory).

(** The boundary between import and live capture, set once. *)
Definition fix_history_boundary (device : DeviceRecord) : Wk unit :=
  if not_imported device && bool_decide (historyBulkEndMs device = None) then
    let! current := read_db db_device in
    match current with
    | Some current =>
        if bool_decide (historyBulkEndMs current = None) then
          let! now := date_now in write_db (set_device (Some (with_bulk_end now current)))
        else ret tt
    | None => ret tt
    end
  else ret tt.

Definition initializeCaptureForSettings : Wk unit :=
  let! device := read_db db_device in
  match device with
  | None => ret tt
  | Some device =>
      do! at_once ensureWebSocketConnected in
      do! fix_history_boundary device in
      do! at_once (registerCapture CaptureBookmarks) in
      do! at_once (registerCapture CaptureHistory) in
      let! settings := try_catch (let! settings := part (fetchSettings false) in ret (Some settings)) (fun _ => ret None) in
      match settings with
      | None => ret tt
      | Some settings =>
          do! applyCaptureToggles settings in
          do! (if default false (syncTabs settings) then at_once (registerCapture CaptureTabs) else ret tt) in
          if not_imported device then
            do! runInitialImport device in detached (part runSyncCycle)
          else if bool_decide (historyOlderCutoffMs device = None) then ret tt else runOlderHistoryImport
      end
  end.

(** ** Maintenance *)

Definition MAINTENANCE_INTERVAL_MS : Z := 24 * 60 * 60 * 1000.
Definition REMOTE_OBJECT_CAPS : list (ObjectType * nat) := [(OtTab, 500%nat); (OtWindow, 200%nat); (OtTabGroup, 200%nat)].
Definition CONFLICTS_CAP : nat := 500.
Definition DEFERRED_MATERIALIZATION_RETENTION_MS : Z := 30 * 24 * 60 * 60 * 1000.

Definition maintenance_due (now : Z) (last : option string) : bool :=
  match last with
  | Some s => String.eqb s "" || match Date_parse s with Some t => negb (now - t <? MAINTENANCE_INTERVAL_MS) | None => true end
  | None => true
  end.

Definition timed (f : Z -> DB -> option DB) : Wk unit := let! now := date_now in walk_db (f now).

Definition runMaintenanceIfDue : Wk unit :=
  let! state := sync_state_row in
  let! now := date_now in
  if negb (maintenance_due now (lastMaintenanceAt state)) then ret tt
  else
    do! timed (pruneAppliedOperations (fun t => default "" (toISOString t))) in
    do! for_each REMOTE_OBJECT_CAPS (fun tc => walk_db (pruneRemoteObjectsByType tc.1 tc.2)) in
    do! write_db (pruneConflicts CONFLICTS_CAP) in
    do! timed (fun now => pruneDeferredMaterializations Date_parse now DEFERRED_MATERIALIZATION_RETENTION_MS) in
    do! timed gcFieldStates in
    let! at_ := iso_now in
    write_db (updateSyncState (mkPatch None None (Some at_))).

Definition runPeriodicSync : Wk unit :=
  let! device := read_db db_device in
  match device with
  | None => ret tt
  | Some _ =>
      do! at_once ensureWebSocketConnected in
      detached
        (do! part runSyncCycle in
         let! changed := refreshPendingAuthRequests in
         do! updateBadge changed in
         do! detached runMaintenanceIfDue in
         part drainRestorePointOutbox)
  end.

(** ** Messages *)

Definition ok_reply : jsval := JObj [("ok", JBool true)].

Definition handleMessage (message : PopupMessage) : Wk jsval :=
  match message with
  | SYNC_NOW => do! part runSyncCycle in do! updateBadge true in ret ok_reply
  | RESTORE_TAB objectId => do! part (restoreTabOf objectId) in do! updateBadge true in ret ok_reply
  | RESTORE_ALL_TABS =>
      let! pending := read_db getPendingTabRestores in
      do! part (restoreTabsOf (map ptr_objectId pending)) in
      do! updateBadge true in ret ok_reply
  | GET_STATUS =>
      let! pendingCount := read_db countPendingOperations in
      let! state := sync_state_row in
      fun w =>
        let '(status, detail, code) := wk_status w in
        (inr (JObj [("status", JStr status); ("errorDetail", of_opt_str detail); ("errorCode", of_opt_str code);
                    ("pendingCount", JNum pendingCount); ("lastSyncAt", of_opt_str (lastSyncAt state))]), w)
  | REFRESH_CAPTURE_CONFIG => do! at_once invalidateMemoryCaches in do! initializeCaptureForSettings in ret ok_reply
  | IMPORT_OLDER_HISTORY => do! runOlderHistoryImport in ret ok_reply
  | ServiceRequest m => part (restorePointService m)
  | DEVICE_DISCONNECTED =>
      do! part disconnectWebSocket in
      do! part clearSyncBlockedState in
      do! part clearTriggerState in
      do! at_once clearLoadedRestorePoint in
      do! write_db clearAllLocalData in
      do! at_once invalidateMemoryCaches in ret ok_reply
  | UnknownMessage => ret (JObj [("error", JStr "unknown_message_type")])
  end.

(** The listener: only the extension's own pages are answered. *)
Definition onMessage (own : bool) (message : PopupMessage) : Wk jsval :=
  if negb own then ret (JObj [("error", JStr "untrusted_sender")])
  else try_catch (handleMessage message) (fun _ => ret (JObj [("error", JStr "internal_error")])).

(** ** Start *)

Definition startup : Wk unit :=
  do! write_db resetInFlightOperations in
  detached
    (do! part ensureCryptoReady in
     do! initializeCaptureForSettings in
     let! device := read_db db_device in
     do! (match device with
          | Some device =>
              if not_imported device then ret tt
              else
                do! detached (part sweepStaleBookmarkMappingsOnce) in
                do! detached (part resumeInterruptedRestore) in
                part drainRestorePointOutbox
          | None => ret tt
          end) in
     updateBadge false).
End worker.
