(* ===== verification/BackgroundFacts.v ===== *)
(** * The worker's wiring: maintenance and badge

    What a run of the daily maintenance leaves of every store, and what the
    badge shows, for any components; then a worker whose popup acts between
    two of its steps. *)

From S2P Require Import Prelude JsMap Types Util Json Dates Storage StorageFacts Maintenance MaintenanceFacts Engine Background.

Open Scope Z_scope.
Open Scope js_scope.

(** The rows of a type the run keeps. *)
Definition capped (done : list (ObjectType * nat)) (m0 m : gmap string RemoteObjectRecord) : Prop :=
  (forall t cap, (t, cap) ∈ done -> by_type_updated t m = drop (length (by_type_updated t m0) - cap) (by_type_updated t m0)) /\
  (forall t, t ∉ done.*1 -> by_type_updated t m = by_type_updated t m0).

Definition iso (t : Z) : string := default "" (toISOString t).

Section facts.
Context {St : Type} `{Parts : WorkerParts St}.

Hypothesis db_law : forall db s, wp_db (wp_set_db db s) = db.
Hypothesis undisturbed : forall n db, elsewhere n db = db.

(** ** Steps on the database *)

(** A run that ends, and how. *)
Definition runs {A} (m : Wk (St := St) A) (w : Worker St) (Q : A -> Worker St -> Prop) : Prop :=
  exists x w', m w = (inr x, w') /\ Q x w'.

Lemma runs_bind {A B} (m : Wk (St := St) A) (k : A -> Wk (St := St) B) w Q : runs m w (fun x w1 => runs (k x) w1 Q) -> runs (bind m k) w Q.
Proof. intros (x & w1 & E & y & w2 & E' & HQ). exists y, w2. unfold bind. by rewrite E. Qed.

(** [w'] is a later state of the worker, with the database [db]. *)
Definition after (w w' : Worker St) (db : DB) : Prop := (wk_awaits w < wk_awaits w')%nat /\ worker_db w' = db.

(** A wait the popup leaves alone. *)
Lemma runs_wait {A} (m : Wk (St := St) A) w Q : (forall w1, wk_awaits w1 = S (wk_awaits w) -> worker_db w1 = worker_db w -> wk_badge w1 = wk_badge w -> runs m w1 Q) ->
  runs (do! wait in m) w Q.
Proof.
  intros H. apply runs_bind. eexists tt, _. split; [reflexivity|]. apply H; [done| |done].
  unfold worker_db at 1. cbn. by rewrite db_law, undisturbed.
Qed.

Lemma runs_walk f w db Q : f (worker_db w) = Some db -> (forall w', after w w' db -> Q tt w') -> runs (walk_db f) w Q.
Proof.
  intros Hf HQ. apply runs_wait. intros w1 Hw1 Hdb1 _. eexists tt, _. split; [by rewrite Hdb1, Hf|].
  apply HQ. split; [cbn; lia|]. unfold worker_db. cbn. by rewrite db_law.
Qed.

Lemma runs_write f w Q : (forall w', after w w' (f (worker_db w)) -> Q tt w') -> runs (write_db f) w Q.
Proof.
  intros HQ. apply runs_wait. intros w1 Hw1 Hdb1 _. eexists tt, _. split; [reflexivity|].
  apply HQ. split; [cbn; lia|]. unfold worker_db at 1. cbn. by rewrite db_law, Hdb1.
Qed.

Lemma runs_row w Q : (forall w', wk_awaits w' = S (wk_awaits w) -> worker_db w' = (getSyncState (worker_db w)).2 -> Q (getSyncState (worker_db w)).1 w') ->
  runs sync_state_row w Q.
Proof.
  intros HQ. apply runs_wait. intros w1 Hw1 Hdb1 _. eexists _, _. split; [by rewrite Hdb1, (surjective_pairing (getSyncState (worker_db w)))|].
  apply HQ; [done|]. unfold worker_db at 1. cbn. by rewrite db_law.
Qed.

Lemma runs_timed f w db Q : f (wp_now (wk_awaits w)) (worker_db w) = Some db -> (forall w', after w w' db -> Q tt w') -> runs (timed f) w Q.
Proof. intros Hf HQ. apply runs_bind. eexists _, w. split; [reflexivity|]. by eapply runs_walk. Qed.

(** ** Maintenance *)

Lemma prune_remote_frame t cap db : exists m, pruneRemoteObjectsByType t cap db = Some (set_remote m db) /\
  by_type_updated t m = drop (length (by_type_updated t (remote_objects db)) - cap) (by_type_updated t (remote_objects db)) /\
  forall t', t' <> t -> by_type_updated t' m = by_type_updated t' (remote_objects db).
Proof.
  unfold pruneRemoteObjectsByType. rewrite prune_remote_loop_spec by lia. eexists. split; [reflexivity|]. split.
  - apply by_type_delete.
  - intros t' Ht. unfold by_type_updated at 1. rewrite sindex_delete_rows, filter_comm. apply filter_true. apply Forall_forall.
    intros [k r] [Ht' Hin]%list_elem_of_filter. cbn in *. intros ([k' r'] & -> & Hin')%list_elem_of_fmap. cbn in Ht'.
    assert ((k', r') ∈ by_type_updated t (remote_objects db)) as Hin2 by (eapply elem_of_sublist; [exact Hin'|apply sublist_take]).
    apply list_elem_of_filter in Hin2 as [Ht2 Hin2].
    apply (index_elem _ (remote_objects db)) in Hin; [|apply sindex_perm]. apply (index_elem _ (remote_objects db)) in Hin2; [|apply sindex_perm].
    cbn in *. congruence.
Qed.

(** The prunes of several types, one after another. *)
Lemma prune_types todo : forall done m0 w Q, NoDup (done ++ todo).*1 -> capped done m0 (remote_objects (worker_db w)) ->
  (forall w' m, (wk_awaits w <= wk_awaits w')%nat -> worker_db w' = set_remote m (worker_db w) -> capped (done ++ todo) m0 m -> Q tt w') ->
  runs (for_each todo (fun tc => walk_db (pruneRemoteObjectsByType tc.1 tc.2))) w Q.
Proof.
  induction todo as [|[t cap] todo IH]; intros done m0 w Q Hnd Hc HQ; cbn [for_each].
  - eexists tt, w. split; [done|]. rewrite app_nil_r in HQ. apply (HQ w (remote_objects (worker_db w))); [done|by destruct (worker_db w)|done].
  - destruct (prune_remote_frame t cap (worker_db w)) as (m & E & Hm1 & Hm2), Hc as [Hc1 Hc2].
    apply runs_bind. eapply runs_walk; [exact E|]. intros w1 [Hw1 Hdb].
    replace (done ++ (t, cap) :: todo) with ((done ++ [(t, cap)]) ++ todo) in * by (by rewrite <- app_assoc).
    assert (t ∉ done.*1) as Hfresh by (rewrite <- app_assoc, fmap_app in Hnd; apply NoDup_app in Hnd as (_ & Hnd & _); set_solver).
    apply (IH (done ++ [(t, cap)]) m0); [done| |].
    + rewrite Hdb. split.
      * intros t' cap' [Hin|[= -> ->]%list_elem_of_singleton]%elem_of_app; cbn; [|by rewrite Hm1, Hc2].
        rewrite Hm2; [by apply Hc1|]. intros ->. apply Hfresh. by apply (list_elem_of_fmap_2 fst) in Hin.
      * intros t'. rewrite fmap_app, elem_of_app. cbn. intros Hn. rewrite Hm2; [apply Hc2; tauto|]. intros ->. apply Hn. right. by apply list_elem_of_singleton.
    + intros w' m' Hw' Hdb'. apply HQ; [lia|]. by rewrite Hdb', Hdb.
Qed.

(** What the run does to the rows of each store, at the times [t1], [t2], [t3]. *)
Definition maintained (t1 t2 t3 : Z) (db db' : DB) : Prop :=
  (forall k a, applied_operations db' !! k = Some a <->
    applied_operations db !! k = Some a /\ iso (t1 - APPLIED_OPERATIONS_RETENTION_MS) <s a) /\
  capped REMOTE_OBJECT_CAPS (remote_objects db) (remote_objects db') /\
  conflicts db' = drop (length (conflicts db) - CONFLICTS_CAP) (conflicts db) /\
  (forall k r, deferred_materializations db' !! k = Some r <-> deferred_materializations db !! k = Some r /\
    ~ exists r0, r0 ∈ (rows (deferred_materializations db)).*2 /\
        isStale Date_parse (t2 - DEFERRED_MATERIALIZATION_RETENTION_MS) (df_createdAt r0) = true /\ df_objectId r0 = k) /\
  (forall k r, field_state db' !! k = Some r <->
    field_state db !! k = Some r /\ ~ gc_object (t3 - FIELD_STATE_GC_RETENTION_MS) (field_state db) (fs_objectId r)).

(** What it never touches: the device, the queue, the mappings, restore data
    and every counter of the sync state. *)
Definition kept_by_maintenance (db db' : DB) : Prop :=
  db_device db' = db_device db /\ pending_operations db' = pending_operations db /\ object_mappings db' = object_mappings db /\
  restore_point_outbox db' = restore_point_outbox db /\ restore_job db' = restore_job db /\
  (let st := sync_or_initial db in let st' := sync_or_initial db' in
   cursor st' = cursor st /\ lamportClock st' = lamportClock st /\ ss_deviceSequence st' = ss_deviceSequence st /\ lastSyncAt st' = lastSyncAt st).

(** The body of the run, past the check. *)
Definition maintenance_body : Wk (St := St) unit :=
  do! timed (pruneAppliedOperations (fun t => default "" (toISOString t))) in
  do! for_each REMOTE_OBJECT_CAPS (fun tc => walk_db (pruneRemoteObjectsByType tc.1 tc.2)) in
  do! write_db (pruneConflicts CONFLICTS_CAP) in
  do! timed (fun now => pruneDeferredMaterializations Date_parse now DEFERRED_MATERIALIZATION_RETENTION_MS) in
  do! timed gcFieldStates in
  let! at_ := iso_now in
  write_db (updateSyncState (mkPatch None None (Some at_))).

(** The whole body, started with [db0]. *)
Definition body_done (a : nat) (db db' : DB) : Prop :=
  exists n1 n2 n3 n4, (a <= n1 < n2)%nat /\ (n2 < n3 < n4)%nat /\
    maintained (wp_now n1) (wp_now n2) (wp_now n3) db db' /\ kept_by_maintenance db db' /\
    lastMaintenanceAt (sync_or_initial db') = Some (iso (wp_now n4)).

Lemma body_ok w : runs maintenance_body w (fun _ w' => body_done (wk_awaits w) (worker_db w) (worker_db w')).
Proof.
  set (db := worker_db w). apply runs_bind.
  destruct (pruneAppliedOperations_exact (fun t => default "" (toISOString t)) (wp_now (wk_awaits w)) db) as (am & E1 & Ham).
  eapply runs_timed; [exact E1|]. intros w1 [Hw1 Hdb1].
  apply runs_bind, (prune_types REMOTE_OBJECT_CAPS [] (remote_objects db)); [by apply (bool_decide_unpack _)|by rewrite Hdb1; split; [intros ?? []%not_elem_of_nil|]|].
  intros w2 rm Hw2 Hdb2 Hrm. apply runs_bind, runs_write. intros w3 [Hw3 Hdb3]. apply runs_bind.
  destruct (pruneDeferredMaterializations_exact Date_parse (wp_now (wk_awaits w3)) DEFERRED_MATERIALIZATION_RETENTION_MS (worker_db w3)) as (dm & E4 & Hdm).
  eapply runs_timed; [exact E4|]. intros w4 [Hw4 Hdb4]. apply runs_bind.
  destruct (gcFieldStates_exact (wp_now (wk_awaits w4)) (worker_db w4)) as (fm & E5 & Hfm).
  eapply runs_timed; [exact E5|]. intros w5 [Hw5 Hdb5]. apply runs_bind. eexists _, w5. split; [reflexivity|].
  apply runs_write. intros w6 [Hw6 Hdb6]. rewrite Hdb4 in Hfm. rewrite Hdb3, Hdb2, Hdb1 in Hdm.
  rewrite Hdb6, Hdb5, Hdb4, Hdb3, Hdb2, Hdb1 in *.
  exists (wk_awaits w), (wk_awaits w3), (wk_awaits w4), (wk_awaits w5). split_and!; try lia.
  - by split_and!.
  - by split_and!.
  - done.
Qed.

Lemma body_done_from a db db' : body_done a (getSyncState db).2 db' -> body_done a db db'.
Proof. unfold body_done, maintained, kept_by_maintenance, getSyncState, sync_or_initial. destruct db as [? [row|] ? ? ? ? ? ? ? ? ? ?]; exact id. Qed.

(** C26. The daily run ends without error. When it is due it leaves exactly the
    applied-operation guards younger than their retention, at most the cap of
    each capped type's objects and at most the cap of conflicts, the newest of
    each in their order, no deferred row and no field of an object deleted
    before their retention, and stamps itself; the device, the queue, the
    mappings, restore data and the counters are untouched. When it is not due
    it changes nothing. *)
Theorem maintenance_exact w :
  exists w', runMaintenanceIfDue w = (inr tt, w') /\
    if maintenance_due (wp_now (S (wk_awaits w))) (lastMaintenanceAt (sync_or_initial (worker_db w)))
    then body_done (wk_awaits w) (worker_db w) (worker_db w')
    else worker_db w' = (getSyncState (worker_db w)).2.
Proof.
  assert (runs runMaintenanceIfDue w (fun _ w' => if maintenance_due (wp_now (S (wk_awaits w))) (lastMaintenanceAt (sync_or_initial (worker_db w)))
    then body_done (wk_awaits w) (worker_db w) (worker_db w') else worker_db w' = (getSyncState (worker_db w)).2)) as ([] & w' & E & H); [|by exists w'].
  apply runs_bind, runs_row. intros w1 Hw1 Hdb1. apply runs_bind. eexists _, w1. split; [reflexivity|].
  replace (wp_now (wk_awaits w1)) with (wp_now (S (wk_awaits w))) by (by rewrite Hw1).
  replace (lastMaintenanceAt (getSyncState (worker_db w)).1) with (lastMaintenanceAt (sync_or_initial (worker_db w)))
    by (unfold sync_or_initial, getSyncState; by destruct (sync_state _)).
  destruct (maintenance_due _ _); cbn [negb]; [|by exists tt, w1].
  destruct (body_ok w1) as (x & w2 & E2 & Hdone). exists x, w2. split; [exact E2|]. rewrite Hdb1 in Hdone.
  apply body_done_from. destruct Hdone as (n1 & n2 & n3 & n4 & ? & ? & H). exists n1, n2, n3, n4. split; [lia|]. by split; [lia|].
Qed.
End facts.

(** ** The badge *)

Section badge.
Context {St : Type} `{Parts : WorkerParts St}.

(** What the toolbar shows, and the answers of a reachable settings service. *)
Variable shown : St -> string.
Variable policy : option string.
Hypothesis db_law : forall db s, wp_db (wp_set_db db s) = db.
Hypothesis shown_db : forall db s, shown (wp_set_db db s) = shown s.
Hypothesis undisturbed : forall n db, elsewhere n db = db.
Hypothesis set_shows : forall text s, exists s', setBadgeText text s = (inr tt, s') /\ shown s' = text /\ wp_db s' = wp_db s.
Hypothesis policy_answers : forall s, exists s', fetchTabRestorePolicy s = (inr policy, s') /\ shown s' = shown s /\ wp_db s' = wp_db s.

(** The worker remembers what is shown. *)
Definition badge_true (w : Worker St) : Prop := lastBadgeText (wk_badge w) = shown (wk_parts w).

(** The text the state asks for: requests waiting for approval come first. *)
Definition wanted (w : Worker St) : string :=
  if 0 <? pendingAuthRequestCount (wk_badge w) then AUTH_REQUEST_BADGE
  else if bool_decide (policy = Some "ask") then count_text (default 0 (countPendingTabRestores (worker_db w))) else "".

(** A later worker, with the badge [b] remembered, [text] shown, the database as it was. *)
Definition then_badge (w w' : Worker St) (b : Badge) (text : string) : Prop :=
  wk_badge w' = b /\ shown (wk_parts w') = text /\ worker_db w' = worker_db w.

Lemma runs_part {A} (m : St -> (sync_error + A) * St) w Q :
  (forall s, wp_db s = worker_db w -> shown s = shown (wk_parts w) -> exists a s', m s = (inr a, s') /\
     forall w', wk_badge w' = wk_badge w -> wk_parts w' = s' -> Q a w') -> runs (part m) w Q.
Proof.
  intros H. apply runs_bind. eexists tt, _. split; [reflexivity|].
  edestruct H as (a & s' & E & HQ); [| |eexists a, _; split; [unfold part; cbn; by rewrite E|by apply HQ]]; unfold worker_db; cbn.
  - by rewrite db_law, undisturbed.
  - by rewrite shown_db.
Qed.

Lemma runs_show text w : runs (show_badge text) w (fun _ w' =>
  then_badge w w' (mkBadge (lastBadgeAt (wk_badge w)) text (pendingAuthRequestCount (wk_badge w))) text).
Proof.
  apply runs_bind. eexists _, w. split; [reflexivity|]. apply runs_bind. eexists tt, _. split; [reflexivity|].
  apply runs_part. intros s Hdb _. destruct (set_shows text s) as (s' & E & Hs & Hdb'). exists tt, s'. split; [done|].
  intros w' Hb Hp. split_and!; [done|by rewrite Hp|]. unfold worker_db in *. by rewrite Hp, Hdb', Hdb.
Qed.

Lemma runs_note now (w : Worker St) Q : Q tt (set_badge (mkBadge now (lastBadgeText (wk_badge w)) (pendingAuthRequestCount (wk_badge w))) w) -> runs (note_badge now) w Q.
Proof. intros HQ. by eexists tt, _. Qed.

Lemma runs_read {A} (f : DB -> A) (w : Worker St) Q : (forall w', wk_badge w' = wk_badge w -> shown (wk_parts w') = shown (wk_parts w) -> worker_db w' = worker_db w -> Q (f (worker_db w)) w') ->
  runs (read_db f) w Q.
Proof.
  intros HQ. apply runs_bind. eexists tt, _. split; [reflexivity|]. set (w1 := (wait w).2).
  assert (worker_db w1 = worker_db w) as Hdb by (unfold worker_db; cbn; by rewrite db_law, undisturbed).
  exists (f (worker_db w1)), w1. split; [reflexivity|]. rewrite Hdb. apply HQ; [done|unfold w1; cbn; by rewrite shown_db|done].
Qed.

(** Stamping the update, then showing a text unless it is already shown. *)
Lemma runs_noted force text w now : badge_true w ->
  runs (if negb (String.eqb text (lastBadgeText (wk_badge w))) || force then show_badge text else ret tt)
    (set_badge (mkBadge now (lastBadgeText (wk_badge w)) (pendingAuthRequestCount (wk_badge w))) w)
    (fun _ w' => then_badge w w' (mkBadge now text (pendingAuthRequestCount (wk_badge w))) text).
Proof.
  intros Ht. set (w0 := set_badge _ w). destruct (_ || _) eqn:Hb; [exact (runs_show text w0)|].
  apply orb_false_iff in Hb as [Hb%negb_false_iff%String.eqb_eq _]. exists tt, w0. split; [done|]. rewrite Hb. by split_and!.
Qed.

Lemma runs_refresh force now w : badge_true w ->
  runs (refresh_badge force now) w (fun _ w' => then_badge w w' (mkBadge now (wanted w) (pendingAuthRequestCount (wk_badge w))) (wanted w)).
Proof.
  intros Ht. unfold wanted. apply runs_bind. eexists _, w. split; [reflexivity|]. destruct (0 <? _).
  - apply runs_bind, runs_note. rewrite String.eqb_sym. by apply (runs_noted force AUTH_REQUEST_BADGE w now).
  - apply runs_bind, runs_part. intros s Hdb Hs. destruct (policy_answers s) as (s' & E & Hs' & Hdb'). exists policy, s'. split; [done|].
    intros w1 Hb1 Hp1. assert (shown (wk_parts w1) = shown (wk_parts w)) as Hs1 by congruence.
    assert (worker_db w1 = worker_db w) as Hd1 by (unfold worker_db in *; by rewrite Hp1, Hdb', Hdb). case_bool_decide.
    + apply runs_bind, runs_read. intros w2 Hb2 Hs2 Hd2. apply runs_bind, runs_note. apply runs_bind. eexists _, _. split; [reflexivity|].
      rewrite Hd1. destruct (runs_noted force (count_text (default 0 (countPendingTabRestores (worker_db w)))) w2 now) as (x & w3 & E3 & Hb3 & Hs3 & Hd3).
      { unfold badge_true in *. by rewrite Hb2, Hb1, Hs2, Hs1. }
      exists x, w3. split; [exact E3|]. split_and!; [by rewrite Hb3, Hb2, Hb1|done|by rewrite Hd3, Hd2].
    + apply runs_bind. eexists _, w1. split; [reflexivity|]. apply runs_bind.
      destruct (String.eqb_spec (lastBadgeText (wk_badge w1)) "") as [E0|].
      * eexists tt, w1. split; [done|]. apply runs_note. unfold then_badge, worker_db in *. cbn. rewrite E0, Hb1. split_and!; [done| |done].
        unfold badge_true in Ht. by rewrite Hs1, <- Ht, <- Hb1.
      * destruct (runs_show "" w1) as (x & w3 & E3 & Hb3 & Hs3 & Hd3). exists x, w3. split; [exact E3|]. apply runs_note.
        unfold then_badge, worker_db in *. cbn. rewrite Hb3. cbn. rewrite Hb1. split_and!; [done|done|by rewrite Hd3].
Qed.

(** Past its throttle, or forced, an update of the badge leaves the toolbar
    showing what the state asks for: "!" while requests wait for approval, else
    the number of tabs waiting under the "ask" policy, else nothing; and the
    worker keeps remembering what is shown. Within the throttle nothing
    changes. *)
Theorem updateBadge_shows force w : badge_true w ->
  exists w', updateBadge force w = (inr tt, w') /\ badge_true w' /\
    if negb force && (wp_now (wk_awaits w) - lastBadgeAt (wk_badge w) <? BADGE_THROTTLE_MS) then w' = w
    else shown (wk_parts w') = wanted w /\ lastBadgeAt (wk_badge w') = wp_now (wk_awaits w) /\
      pendingAuthRequestCount (wk_badge w') = pendingAuthRequestCount (wk_badge w) /\ worker_db w' = worker_db w.
Proof.
  intros Ht. unfold updateBadge, try_catch, bind at 1 2, date_now, badge. cbn.
  destruct (_ && _) eqn:Hthr; [by exists w|].
  destruct (runs_refresh force (wp_now (wk_awaits w)) w Ht) as ([] & w' & -> & Hb & Hs & Hd). exists w'.
  unfold badge_true. by rewrite Hb, Hs.
Qed.
End badge.

(** ** A worker *)

(** Its database, its badge, and whether the browser refuses to set one. *)
Record Toolbar := mkToolbar { tb_db : DB; tb_text : string; tb_refuses : bool }.
Definition no_op (s : Toolbar) : (sync_error + unit) * Toolbar := (inr tt, s).
Definition all_on : UserSettingsDto := mkSettings None None None None None (Some "never") None None None.

(** The worker with what the popup does at each wait, in a browser that may refuse. *)
Definition toolbar_parts (popup : nat -> DB -> DB) (may_refuse : bool) : WorkerParts Toolbar := {|
  wp_db := tb_db;
  wp_set_db db s := mkToolbar db (tb_text s) (tb_refuses s);
  wp_settings := {| fetchSettings _ s := (inr all_on, s) |};
  wp_policy := {| fetchTabRestorePolicy s := (inr (Some "never"), s) |};
  wp_dates := {| parse_other _ := None |};
  wp_now n := 1800000000000 + Z.of_nat n;
  elsewhere := popup;
  listAuthRequests s := (inr [], s);
  setBadgeText text s := if may_refuse && tb_refuses s then (inl (OtherError "badge"), s) else (inr tt, mkToolbar (tb_db s) text false);
  downloadEverything := no_op; runSyncCycle := no_op; createPreImportPoint := no_op; backfillBookmarks := no_op;
  backfillHistory := no_op; importOlderHistory := no_op; drainRestorePointOutbox := no_op; resumeInterruptedRestore := no_op;
  sweepStaleBookmarkMappingsOnce := no_op; ensureCryptoReady := no_op; restoreTabsOf _ := no_op; restoreTabOf _ := no_op;
  restorePointService _ s := (inr JNull, s); disconnectWebSocket := no_op; clearTriggerState := no_op;
  setLinkExistingBookmarks _ s := s; ensureWebSocketConnected s := s; registerCapture _ s := s; setCaptureEnabled _ _ s := s;
  clearSyncBlockedState := no_op; clearLoadedRestorePoint s := s; notifyPeerChanges s := s; scheduleLocalSync s := s;
  invalidateMemoryCaches s := s;
|}.

Definition calm_parts : WorkerParts Toolbar := toolbar_parts (fun _ db => db) false.
Definition touchy_parts : WorkerParts Toolbar := toolbar_parts (fun _ db => db) true.

(** A database with 502 conflicts, pruned long ago. *)
Definition crowded : DB :=
  set_sync_state (mkSyncState 7 8 9 None (Some "2020-01-01T00:00:00.000Z"))
    (set_conflicts (map (fun n => (Z.of_nat n, mkConflict OtTab "o" "moved" "at" false)) (seq 1 502)) 503 emptyDB).
Definition paired_device : DeviceRecord :=
  mkDevice "/" "dev" "user" "mail" "access" "" "refresh" "key" 1 None None None None None None None None None None None.
Definition paired_db : DB := set_device (Some paired_device) emptyDB.
Definition worker_with (db : DB) (text : string) (refuses : bool) : Worker Toolbar := newWorker (mkToolbar db text refuses) 0.

Lemma maintenance_exact_witness :
  exists w', runMaintenanceIfDue (Parts := calm_parts) (worker_with crowded "" false) = (inr tt, w') /\
    length (conflicts (worker_db (Parts := calm_parts) w')) = 500%nat /\
    ss_deviceSequence (sync_or_initial (worker_db (Parts := calm_parts) w')) = 9.
Proof.
  destruct (maintenance_exact (Parts := calm_parts)) with (w := worker_with crowded "" false) as (w' & E & H); [done|done|].
  exists w'. split; [exact E|].
  replace (maintenance_due _ _) with true in H by (by vm_compute).
  destruct H as (n1 & n2 & n3 & n4 & _ & _ & (_ & _ & Hc & _) & (_ & _ & _ & _ & _ & _ & _ & Hs & _) & _).
  rewrite Hc, Hs. split; vm_compute; reflexivity.
Defined.

(** A worker that remembers "!", with no request left, clears it. *)
Definition answered (refuses : bool) : Worker Toolbar := set_badge (mkBadge 0 "!" 0) (worker_with emptyDB "!" refuses).

Lemma updateBadge_shows_witness :
  exists w', updateBadge (Parts := calm_parts) true (answered false) = (inr tt, w') /\ tb_text (wk_parts w') = "".
Proof.
  destruct (updateBadge_shows (Parts := calm_parts) tb_text (Some "never")) with (force := true) (w := answered false) as (w' & E & _ & H & _).
  - done.
  - done.
  - done.
  - intros text s. by exists (mkToolbar (tb_db s) text false).
  - intros s. by exists s.
  - done.
  - exists w'. split; [exact E|]. rewrite H. by vm_compute.
Defined.

(** The wipe between the last read and the write of the stamp: the worker brings
    the device back. *)
Theorem stamp_resurrects_device :
  let popup n db := if Nat.eqb n 5 then clearAllLocalData db else db in
  db_device (worker_db (Parts := toolbar_parts popup false)
    (runInitialImport (Parts := toolbar_parts popup false) paired_device (worker_with paired_db "" false)).2)
  = Some (with_completed "2027-01-15T08:00:00.005Z" paired_device).
Proof. by vm_compute. Qed.

(** After a restart the worker does not know that "!" is shown: no update clears it. *)
Theorem restarted_badge_stays force :
  tb_text (wk_parts (updateBadge (Parts := calm_parts) force (worker_with emptyDB "!" false)).2) = "!".
Proof. by destruct force; vm_compute. Qed.

(** A text the browser refused is remembered as shown: the next update, which
    the browser would accept, does not set it. *)
Theorem refused_badge_remembered :
  let w := (updateBadge (Parts := touchy_parts) true (answered true)).2 in
  let w' := set_parts (mkToolbar emptyDB (tb_text (wk_parts w)) false) w in
  tb_text (wk_parts (updateBadge (Parts := touchy_parts) true w').2) = "!".
Proof. by vm_compute. Qed.
