(* ===== verification/BookmarkListeners.v ===== *)
(** * Bookmark listeners (extension/src/bookmarks/index.ts)

    What the listeners take of the browser's events, between the guard that
    hides the adapter's own changes and the queue that hands bursts to
    [flushBookmarkEvents]. A restore of a stand-in root is started and not
    waited for: it is listed. *)

From S2P Require Import Prelude JsMap Types Util Scheduling Storage Engine RestorePoints Bookmarks BookmarkApply BookmarkCapture.

Open Scope Z_scope.
Open Scope js_scope.

Section listeners.
Context {Br : Type} `{Env : BookmarkEnv Br}.

Record Listening := mkListening {
  captureRegistered : bool;
  bookmarkCaptureEnabled : bool;
  guard : SuppressionGuard;
  bookmarkQueue : MicroBatch QueuedBookmarkEvent;
  ls_app : BmApp (Br := Br);
  ls_restores : list (string * BookmarkRemoveInfo);   (** [restoreIfStandInRoot] calls started *)
}.

Definition initialListening (app : BmApp (Br := Br)) : Listening :=
  mkListening false true createSuppressionGuard emptyQueue app [].

Definition set_queue (q : MicroBatch QueuedBookmarkEvent) (s : Listening) : Listening :=
  mkListening (captureRegistered s) (bookmarkCaptureEnabled s) (guard s) q (ls_app s) (ls_restores s).
Definition set_app (a : BmApp (Br := Br)) (s : Listening) : Listening :=
  mkListening (captureRegistered s) (bookmarkCaptureEnabled s) (guard s) (bookmarkQueue s) a (ls_restores s).

Definition registerCapture (s : Listening) : Listening :=
  mkListening true (bookmarkCaptureEnabled s) (guard s) (bookmarkQueue s) (ls_app s) (ls_restores s).
Definition setBookmarkCaptureEnabled (enabled : bool) (s : Listening) : Listening :=
  mkListening (captureRegistered s) enabled (guard s) (bookmarkQueue s) (ls_app s) (ls_restores s).
Definition guard_event (e : Scheduling.guard_event) (s : Listening) : Listening :=
  mkListening (captureRegistered s) (bookmarkCaptureEnabled s) (guard_step (guard s) e) (bookmarkQueue s) (ls_app s) (ls_restores s).
Definition start_restore (id : string) (info : BookmarkRemoveInfo) (s : Listening) : Listening :=
  mkListening (captureRegistered s) (bookmarkCaptureEnabled s) (guard s) (bookmarkQueue s) (ls_app s) (ls_restores s ++ [(id, info)]).

Definition enqueueBookmarkEvent (e : QueuedBookmarkEvent) (s : Listening) : Listening :=
  set_queue (enqueue e (bookmarkQueue s)) s.

(** [bookmarkLayoutGeneration++] *)
Definition bump_layout (s : Listening) : Listening :=
  let a := ls_app s in
  set_app (mkBmApp (ba_browser a) (ba_standIns a) (ba_sweepDone a) (ba_roots a) (ba_entropy a) (linkExistingBookmarks a)
    (bookmarkLayoutGeneration a + 1)) s.
Definition forget_roots (s : Listening) : Listening := set_app (set_roots None (ls_app s)) s.

Definition is_root (id : string) : bool := jm_has ROOT_OBJECT_IDS id.

Definition onCreated (id : string) (node : BookmarkTreeNode) (s : Listening) : Listening :=
  if is_root id then forget_roots s
  else if negb (bookmarkCaptureEnabled s) then s
  else if isSuppressed (guard s) then s
  else enqueueBookmarkEvent (EvCreated id node) (bump_layout s).

Definition onRemoved (id : string) (info : BookmarkRemoveInfo) (s : Listening) : Listening :=
  if is_root id then forget_roots s
  else if isSuppressed (guard s) then s
  else
    let s := start_restore id info s in
    if negb (bookmarkCaptureEnabled s) then s
    else enqueueBookmarkEvent (EvRemoved id info) (bump_layout s).

Definition onChanged (id : string) (info : BookmarkChangeInfo) (s : Listening) : Listening :=
  if negb (bookmarkCaptureEnabled s) then s
  else if isSuppressed (guard s) then s
  else enqueueBookmarkEvent (EvChanged id info) s.

Definition onMoved (id : string) (info : BookmarkMoveInfo) (s : Listening) : Listening :=
  if negb (bookmarkCaptureEnabled s) then s
  else if isSuppressed (guard s) then s
  else enqueueBookmarkEvent (EvMoved id info) (bump_layout s).

(** ** What can happen

    A browser event, to whichever listeners are added; the guard around a call
    of the adapter's own; the setting; a timer or a flush from outside. *)
Inductive ListenerEvent :=
  | Fires (e : QueuedBookmarkEvent)
  | Guarded (e : Scheduling.guard_event)
  | CaptureSet (enabled : bool)
  | Registered
  | QueueTimer
  | QueueFlushed.

Definition on_event (e : QueuedBookmarkEvent) (s : Listening) : Listening :=
  if negb (captureRegistered s) then s
  else match e with
       | EvCreated id node => onCreated id node s
       | EvRemoved id info => onRemoved id info s
       | EvChanged id info => onChanged id info s
       | EvMoved id info => onMoved id info s
       end.

(** The step, and the burst it hands to [flushBookmarkEvents], if any. *)
Definition listen (e : ListenerEvent) (s : Listening) : option (list QueuedBookmarkEvent) * Listening :=
  match e with
  | Fires e => (None, on_event e s)
  | Guarded e => (None, guard_event e s)
  | CaptureSet enabled => (None, setBookmarkCaptureEnabled enabled s)
  | Registered => (None, registerCapture s)
  | QueueTimer => let '(batch, q) := batch_step (bookmarkQueue s) TimerFired in (batch, set_queue q s)
  | QueueFlushed => let '(batch, q) := batch_step (bookmarkQueue s) Flushed in (batch, set_queue q s)
  end.

Fixpoint listen_all (es : list ListenerEvent) (s : Listening) : list (list QueuedBookmarkEvent) * Listening :=
  match es with
  | [] => ([], s)
  | e :: es =>
      let '(batch, s) := listen e s in
      let '(batches, s) := listen_all es s in
      (match batch with Some b => b :: batches | None => batches end, s)
  end.

(** ** What is taken *)

Definition structural (e : QueuedBookmarkEvent) : bool := match e with EvChanged _ _ => false | _ => true end.
Definition of_root (e : QueuedBookmarkEvent) : bool :=
  match e with EvCreated id _ | EvRemoved id _ => is_root id | _ => false end.

(** The events a user of the adapter expects to be captured: those that fire
    once the listeners are there, with capture on, outside the adapter's own
    calls, and not of a built-in root shown or hidden. *)
Fixpoint taken (registered enabled : bool) (g : SuppressionGuard) (es : list ListenerEvent) : list QueuedBookmarkEvent :=
  match es with
  | [] => []
  | Fires e :: es =>
      (if registered && enabled && negb (isSuppressed g) && negb (of_root e) then [e] else []) ++ taken registered enabled g es
  | Guarded e :: es => taken registered enabled (guard_step g e) es
  | CaptureSet b :: es => taken registered b g es
  | Registered :: es => taken true enabled g es
  | (QueueTimer | QueueFlushed) :: es => taken registered enabled g es
  end.

(** One event: what it hands over and leaves queued, and what it counts. *)
Lemma listen_spec e s : armed (bookmarkQueue s) ->
  let out := listen e s in let now := taken (captureRegistered s) (bookmarkCaptureEnabled s) (guard s) [e] in
  default [] out.1 ++ mb_queue (bookmarkQueue out.2) = mb_queue (bookmarkQueue s) ++ now /\
  armed (bookmarkQueue out.2) /\ out.1 <> Some [] /\
  bookmarkLayoutGeneration (ls_app out.2) = bookmarkLayoutGeneration (ls_app s) + Z.of_nat (length (List.filter structural now)) /\
  forall es, taken (captureRegistered s) (bookmarkCaptureEnabled s) (guard s) (e :: es) =
    now ++ taken (captureRegistered out.2) (bookmarkCaptureEnabled out.2) (guard out.2) es.
Proof.
  intros Ha. destruct e as [e|e|b| | |]; cbn [listen taken].
  - rewrite app_nil_r. unfold on_event. destruct (captureRegistered s) eqn:Hr; cbn [negb andb fst snd default app].
    2: { rewrite app_nil_r. split_and!; [done|done|done|cbn; lia|by rewrite Hr]. }
    assert (forall item, armed (enqueue item (bookmarkQueue s))) as Hq by (intros item; split; cbn; [intros _; by destruct (mb_queue (bookmarkQueue s))|done]).
    destruct e as [id node|id info|id info|id info]; cbn [of_root];
      unfold onCreated, onRemoved, onChanged, onMoved; try destruct (is_root id); cbn [negb andb];
      destruct (bookmarkCaptureEnabled s) eqn:He, (isSuppressed (guard s)) eqn:Hs; cbn -[Z.of_nat];
      rewrite ?He, ?Hs, ?Hr; cbn -[Z.of_nat]; rewrite ?He, ?Hr, ?app_nil_r; cbn -[Z.of_nat]; split_and!; try done; try lia; by rewrite ?Hr, ?He.
  - cbn. rewrite !app_nil_r. split_and!; [done|done|done|lia|done].
  - cbn. rewrite !app_nil_r. split_and!; [done|done|done|lia|done].
  - cbn. rewrite !app_nil_r. split_and!; [done|done|done|lia|done].
  - destruct (batch_step_spec (bookmarkQueue s) TimerFired Ha) as (E & Ha' & Hne). destruct (batch_step _ _) as [batch q]. cbn in *.
    rewrite app_nil_r in *. split_and!; [done|done|done|lia|done].
  - destruct (batch_step_spec (bookmarkQueue s) Flushed Ha) as (E & Ha' & Hne). destruct (batch_step _ _) as [batch q]. cbn in *.
    rewrite app_nil_r in *. split_and!; [done|done|done|lia|done].
Qed.

(** Whatever fires in whatever order: the bursts handed to the flush, one after
    the other, and what is still queued are exactly the events to capture, in
    the order they fired; no burst is empty and something queued has a timer;
    and the layout of the tree counts as changed exactly when a captured event
    changed it, so that a plan made before is not used. *)
Theorem captured_exact es app : let '(batches, s) := listen_all es (initialListening app) in
  let captured := taken false true createSuppressionGuard es in
  concat batches ++ mb_queue (bookmarkQueue s) = captured /\ Forall (fun b => b <> []) batches /\ armed (bookmarkQueue s) /\
  bookmarkLayoutGeneration (ls_app s) = bookmarkLayoutGeneration app + Z.of_nat (length (List.filter structural captured)).
Proof.
  assert (forall s, armed (bookmarkQueue s) -> let '(batches, s') := listen_all es s in
    let captured := taken (captureRegistered s) (bookmarkCaptureEnabled s) (guard s) es in
    concat batches ++ mb_queue (bookmarkQueue s') = mb_queue (bookmarkQueue s) ++ captured /\ Forall (fun b => b <> []) batches /\
    armed (bookmarkQueue s') /\
    bookmarkLayoutGeneration (ls_app s') = bookmarkLayoutGeneration (ls_app s) + Z.of_nat (length (List.filter structural captured))) as H.
  { induction es as [|e es IH]; intros s Ha; cbn [listen_all].
    { cbn. rewrite app_nil_r. split_and!; [done|constructor|done|lia]. }
    destruct (listen_spec e s Ha) as (E & Ha' & Hne & Hg & Ht). rewrite Ht. destruct (listen e s) as [batch s1]. cbn [fst snd] in *.
    specialize (IH s1 Ha'). destruct (listen_all es s1) as [batches s2]. destruct IH as (IH1 & IH2 & IH3 & IH4). cbn zeta in *.
    rewrite app_assoc, <- E, <- app_assoc, <- IH1, IH4, Hg, List.filter_app, length_app. split_and!; [| |done|lia].
    - destruct batch as [b|]; cbn; by rewrite <- ?app_assoc.
    - destruct batch as [b|]; [|done]. constructor; [congruence|done]. }
  by apply (H (initialListening app)).
Qed.

(** A change the user makes while a call of the adapter's own is awaited is
    taken for the adapter's: it is never captured. *)
Theorem user_event_lost (app : BmApp (Br := Br)) id node :
  let out := listen_all [Registered; Guarded RunStarted; Fires (EvCreated id node); Guarded RunEnded; QueueTimer; QueueFlushed] (initialListening app) in
  out.1 = [] /\ mb_queue (bookmarkQueue out.2) = [].
Proof. cbn. unfold onCreated. cbn. by destruct (is_root id). Qed.
End listeners.
