(* ===== verification/DeviceMirror.v ===== *)
(** * The device record and its mirrors (extension/src/storage/db.ts)

    The device record lies in IndexedDB with two of its fields encrypted under a
    key that lies beside it, is mirrored in chrome.storage.session, and again in
    the memory of every JavaScript context. [getDevice], [putDevice] and
    [clearAllLocalData] are threads, a step per effect, in any of the contexts.
    Storage's [db_device] is the register they implement. *)

From S2P Require Import Prelude JsMap Types Util Json Threads Storage StorageFacts Crypto CryptoFacts Engine.

Open Scope Z_scope.
Open Scope js_scope.

(** ** The platform

    AES-GCM under keys that cannot be exported: the n-th key made, the n-th
    random vector. *)
Class DeviceCrypto := {
  skey : Type;
  generateKey : nat -> skey;
  random_iv : nat -> bytes;
  gcm_encrypt : skey -> bytes -> bytes -> bytes;
  gcm_decrypt : skey -> bytes -> bytes -> option bytes;
}.

Class DeviceCryptoLaws `{DeviceCrypto} : Prop := {
  gcm_opens k iv p : gcm_decrypt k iv (gcm_encrypt k iv p) = Some p;
  gcm_bytes k iv p : Forall is_byte p -> Forall is_byte (gcm_encrypt k iv p);
  iv_bytes n : Forall is_byte (random_iv n);
}.

Section mirror.
Context `{DeviceCrypto}.

(** ** State *)

(** A context's memory. [cx_key] is [deviceSecretKeyPromise], known by its
    number among the promises made. *)
Record Memory := mkMemory {
  deviceCache : option DeviceRecord;
  deviceCacheLoaded : bool;
  deviceSecretKeyPromise : option nat;
}.
Definition fresh_memory : Memory := mkMemory None false None.

Record Mirrors := mkMirrors {
  mr_device : option DeviceRecord;          (** as stored, two fields encrypted *)
  mr_secret_key : option skey;
  mr_session : option DeviceRecord;
  mr_memory : nat -> Memory;
  mr_promises : list (option skey);         (** settled with a key, or still open *)
  mr_drawn : nat;
  mr_results : list (nat * option DeviceRecord);   (** what calls of [getDevice] gave *)
}.

Definition set_stored (d : option DeviceRecord) (s : Mirrors) : Mirrors :=
  mkMirrors d (mr_secret_key s) (mr_session s) (mr_memory s) (mr_promises s) (mr_drawn s) (mr_results s).
Definition set_secret_key (k : option skey) (s : Mirrors) : Mirrors :=
  mkMirrors (mr_device s) k (mr_session s) (mr_memory s) (mr_promises s) (mr_drawn s) (mr_results s).
Definition set_session (d : option DeviceRecord) (s : Mirrors) : Mirrors :=
  mkMirrors (mr_device s) (mr_secret_key s) d (mr_memory s) (mr_promises s) (mr_drawn s) (mr_results s).
Definition set_memory (c : nat) (m : Memory) (s : Mirrors) : Mirrors :=
  mkMirrors (mr_device s) (mr_secret_key s) (mr_session s) (fun c' => if Nat.eqb c' c then m else mr_memory s c') (mr_promises s) (mr_drawn s) (mr_results s).
Definition set_promises (l : list (option skey)) (s : Mirrors) : Mirrors :=
  mkMirrors (mr_device s) (mr_secret_key s) (mr_session s) (mr_memory s) l (mr_drawn s) (mr_results s).
Definition bump_drawn (s : Mirrors) : Mirrors :=
  mkMirrors (mr_device s) (mr_secret_key s) (mr_session s) (mr_memory s) (mr_promises s) (S (mr_drawn s)) (mr_results s).
Definition add_result (c : nat) (d : option DeviceRecord) (s : Mirrors) : Mirrors :=
  mkMirrors (mr_device s) (mr_secret_key s) (mr_session s) (mr_memory s) (mr_promises s) (mr_drawn s) (mr_results s ++ [(c, d)]).

Definition cache_device (c : nat) (d : option DeviceRecord) (s : Mirrors) : Mirrors :=
  set_memory c (mkMemory d true (deviceSecretKeyPromise (mr_memory s c))) s.
Definition set_key_promise (c : nat) (p : option nat) (s : Mirrors) : Mirrors :=
  set_memory c (mkMemory (deviceCache (mr_memory s c)) (deviceCacheLoaded (mr_memory s c)) p) s.

(** [invalidateDeviceMemory], which the listener on session storage calls too. *)
Definition invalidateDeviceMemory (c : nat) (s : Mirrors) : Mirrors :=
  set_memory c (mkMemory None false (deviceSecretKeyPromise (mr_memory s c))) s.

(** ** Programs *)

Definition Dm (A : Type) : Type := Th (S := Mirrors) (E := sync_error) A.
Definition look {A} (f : Mirrors -> A) : Dm A := th_do (fun s => (inr (f s), s)).
Definition act (f : Mirrors -> Mirrors) : Dm unit := th_do (modify f).

(** The call that makes the promise does its work; others wait for it. *)
Definition await_key (p : nat) : Dm skey :=
  th_bind (th_when (fun s => match mr_promises s !! p with Some (Some _) => true | _ => false end) id) (fun _ =>
  th_do (fun s => match mr_promises s !! p with Some (Some k) => (inr k, s) | _ => (inl (OtherError "pending"), s) end)).

Definition settle_key (p : nat) (k : skey) : Dm skey :=
  th_bind (act (fun s => set_promises (<[p := Some k]> (mr_promises s)) s)) (fun _ => th_ret k).

Definition getDeviceSecretKey (c : nat) : Dm skey :=
  th_bind (th_do (fun s =>
    match deviceSecretKeyPromise (mr_memory s c) with
    | Some p => (inr (p, false), s)
    | None => let p := length (mr_promises s) in (inr (p, true), set_key_promise c (Some p) (set_promises (mr_promises s ++ [None]) s))
    end)) (fun pn =>
  let '(p, mine) := pn in
  if negb (mine : bool) then await_key p
  else
    th_bind (look mr_secret_key) (fun existing =>
    match existing with
    | Some key => settle_key p key
    | None =>
        th_bind (th_do (fun s => (inr (generateKey (mr_drawn s)), bump_drawn s))) (fun key =>
        th_bind (act (set_secret_key (Some key))) (fun _ => settle_key p key))
    end)).

Definition secret_envelope (key : skey) (iv : bytes) (plaintext : string) : string :=
  JSON_stringify (JObj [("iv", JStr (toB64 None iv)); ("ciphertext", JStr (toB64 None (gcm_encrypt key iv (utf8_encode plaintext))))]).

Definition encryptDeviceSecret (c : nat) (plaintext : string) : Dm string :=
  th_bind (getDeviceSecretKey c) (fun key =>
  th_do (fun s => (inr (secret_envelope key (random_iv (mr_drawn s)) plaintext), bump_drawn s))).

Definition open_secret (key : skey) (stored : string) : option string :=
  envelope ← JSON_parse stored;
  match jget envelope "iv", jget envelope "ciphertext" with
  | JStr iv, JStr ciphertext =>
      iv ← fromB64 None iv; ciphertext ← fromB64 None ciphertext;
      utf8_decode <$> gcm_decrypt key iv ciphertext
  | _, _ => None
  end.

Definition decryptDeviceSecret (c : nat) (stored : string) : Dm string :=
  th_bind (getDeviceSecretKey c) (fun key =>
  th_do (fun s => (match open_secret key stored with Some plaintext => inr plaintext | None => inl (OtherError "OperationError") end, s))).

Definition with_secrets (ak rt : string) (d : DeviceRecord) : DeviceRecord :=
  mkDevice (serverUrl d) (deviceId d) (userId d) (email d) (accessToken d) (accessTokenExpiresAt d) rt ak
    (accountKeyVersion d) (initialImportCompletedAt d) (historyBulkCutoffMs d) (historyBulkEndMs d) (historyBulkOperationId d) (historyBulkObjectId d)
    (historyBulkUploadedChunks d) (historyBulkUploadedVisits d) (historyOlderCutoffMs d) (historyOlderEndMs d) (historyOlderUploadedChunks d)
    (historyOlderUploadedVisits d).

(** [return deviceCache] *)
Definition cached (c : nat) : Dm (option DeviceRecord) := look (fun s => deviceCache (mr_memory s c)).

Definition getDevice (c : nat) : Dm (option DeviceRecord) :=
  th_bind (look (fun s => mr_memory s c)) (fun m =>
  if deviceCacheLoaded m then th_ret (deviceCache m)
  else
    th_bind (look mr_session) (fun sessionCached =>
    match sessionCached with
    | Some d => th_bind (act (cache_device c (Some d))) (fun _ => th_ret (Some d))
    | None =>
        th_bind (look mr_device) (fun storedRecord =>
        match storedRecord with
        | None => th_bind (act (cache_device c None)) (fun _ => th_ret None)
        | Some d =>
            th_bind (decryptDeviceSecret c (accountKey d)) (fun ak =>
            th_bind (decryptDeviceSecret c (refreshToken d)) (fun rt =>
            th_bind (act (cache_device c (Some (with_secrets ak rt d)))) (fun _ =>
            th_bind (act (set_session (Some (with_secrets ak rt d)))) (fun _ => cached c))))
        end)
    end)).

Definition putDevice (c : nat) (record : DeviceRecord) : Dm unit :=
  th_bind (encryptDeviceSecret c (accountKey record)) (fun ak =>
  th_bind (encryptDeviceSecret c (refreshToken record)) (fun rt =>
  th_bind (act (set_stored (Some (with_secrets ak rt record)))) (fun _ =>
  th_bind (act (cache_device c (Some record))) (fun _ =>
  act (set_session (Some record)))))).

(** Of the stores it wipes, the two kept here. *)
Definition clearAllLocalData (c : nat) : Dm unit :=
  th_bind (act (fun s => set_stored None (set_secret_key None s))) (fun _ =>
  th_bind (act (fun s => set_memory c (mkMemory None true None) s)) (fun _ =>
  act (set_session None))).

(** A call of [getDevice], its answer noted. *)
Definition asks (c : nat) : Dm unit := th_bind (getDevice c) (fun d => act (add_result c d)).

(** The event of a change of session storage, in the context it reaches. *)
Definition notified (c : nat) : Dm unit := act (invalidateDeviceMemory c).

(** ** Calls one at a time *)

(** A thread run with nothing in between, as far as it gets. *)
Fixpoint run_thread (t : thread (S := Mirrors) (E := sync_error)) (s : Mirrors) : thread (S := Mirrors) (E := sync_error) * Mirrors :=
  match t with
  | TDone r => (TDone r, s)
  | TStep f => match f s with Some (t, s) => run_thread t s | None => (TStep f, s) end
  end.

(** Whether the call returned, and the state it left. *)
Definition run_call (m : Dm unit) (s : Mirrors) : bool * Mirrors :=
  let '(t, s) := run_thread (spawn m) s in (match t with TDone (inr _) => true | _ => false end, s).

Variable contexts : list nat.

(** A disconnect wipes in the popup and in the worker. A change of session
    storage reaches every context before the next call. *)
Inductive DeviceEvent :=
  | Asked (c : nat)
  | Stored (c : nat) (record : DeviceRecord)
  | Disconnected
  | ContextRestarted (c : nat)
  | BrowserRestarted.

Fixpoint run_calls (l : list (Dm unit)) (s : Mirrors) : bool * Mirrors :=
  match l with
  | [] => (true, s)
  | m :: l => let '(ok, s) := run_call m s in if ok then run_calls l s else (false, s)
  end.

Definition run_event (e : DeviceEvent) (s : Mirrors) : bool * Mirrors :=
  match e with
  | Asked c => run_calls (asks c :: map notified contexts) s
  | Stored c record => run_calls (putDevice c record :: map notified contexts) s
  | Disconnected => run_calls (map clearAllLocalData contexts) s
  | ContextRestarted c => (true, set_memory c fresh_memory s)
  | BrowserRestarted => (true, set_session None (foldr (fun c => set_memory c fresh_memory) s contexts))
  end.

Fixpoint run_events (l : list DeviceEvent) (s : Mirrors) : bool * Mirrors :=
  match l with
  | [] => (true, s)
  | e :: l => let '(ok, s) := run_event e s in if ok then run_events l s else (false, s)
  end.

(** ** The register *)

Definition register_after (e : DeviceEvent) (d : option DeviceRecord) : option DeviceRecord :=
  match e with Stored _ record => Some record | Disconnected => None | _ => d end.

Fixpoint register_answers (l : list DeviceEvent) (d : option DeviceRecord) : list (nat * option DeviceRecord) :=
  match l with
  | [] => []
  | e :: l => (match e with Asked c => [(c, d)] | _ => [] end) ++ register_answers l (register_after e d)
  end.
End mirror.

(** ** The mirrors implement the register *)

Section facts.
Context `{DeviceCryptoLaws} (contexts : list nat).

Lemma open_secret_envelope key iv plaintext : Forall is_byte iv -> open_secret key (secret_envelope key iv plaintext) = Some plaintext.
Proof.
  intros Hiv. unfold open_secret, secret_envelope. rewrite JSON_parse_stringify by (generalize (toB64 None iv), (toB64 None (gcm_encrypt key iv (utf8_encode plaintext))); intros; reflexivity).
  cbn [mbind option_bind]. replace (jget _ "iv") with (JStr (toB64 None iv)) by done.
  replace (jget _ "ciphertext") with (JStr (toB64 None (gcm_encrypt key iv (utf8_encode plaintext)))) by done.
  cbn [fromB64 toB64]. rewrite (fromB64Fallback_toB64Fallback iv) by done. cbn [mbind option_bind].
  rewrite fromB64Fallback_toB64Fallback by apply gcm_bytes, utf8_encode_bytes. cbn [mbind option_bind].
  by rewrite gcm_opens; cbn; rewrite utf8_decode_encode.
Qed.

(** The call [m] run from [s] gives [r] and leaves [s']. *)
Definition ends {A} (m : Dm A) (s : Mirrors) (r : A) (s' : Mirrors) : Prop :=
  forall k, run_thread (m k) s = run_thread (k (inr r)) s'.

Lemma ends_ret {A} (a : A) s : ends (th_ret a) s a s.
Proof. done. Qed.
Lemma ends_bind {A B} (m : Dm A) (f : A -> Dm B) s a s1 b s2 : ends m s a s1 -> ends (f a) s1 b s2 -> ends (th_bind m f) s b s2.
Proof. intros Hm Hf k. unfold th_bind. rewrite Hm. apply Hf. Qed.
Lemma ends_do {A} (m : M Mirrors sync_error A) s a s' : m s = (inr a, s') -> ends (th_do m) s a s'.
Proof. intros Hm k. unfold th_do. cbn. by rewrite Hm. Qed.
Lemma ends_look {A} (f : Mirrors -> A) s : ends (look f) s (f s) s.
Proof. by apply ends_do. Qed.
Lemma ends_act f s : ends (act f) s tt (f s).
Proof. by apply ends_do. Qed.
Lemma ends_call (m : Dm unit) s s' : ends m s tt s' -> run_call m s = (true, s').
Proof. intros Hm. unfold run_call, spawn. by rewrite Hm. Qed.

(** The keys the contexts hold are the one stored. *)
Definition keys_ok (s : Mirrors) : Prop := forall c p, c ∈ contexts -> deviceSecretKeyPromise (mr_memory s c) = Some p ->
  exists k, mr_promises s !! p = Some (Some k) /\ mr_secret_key s = Some k.

(** What is stored is [d]. *)
Definition stored_is (s : Mirrors) (d : option DeviceRecord) : Prop :=
  match mr_device s with
  | None => d = None
  | Some sd => exists key ak rt, mr_secret_key s = Some key /\ d = Some (with_secrets ak rt sd) /\
      open_secret key (accountKey sd) = Some ak /\ open_secret key (refreshToken sd) = Some rt
  end.

(** All mirrors show [d], as far as they show anything. *)
Record mirrors (s : Mirrors) (d : option DeviceRecord) : Prop := {
  mi_keys : keys_ok s;
  mi_stored : stored_is s d;
  mi_session : forall r, mr_session s = Some r -> d = Some r;
  mi_memory : forall c, c ∈ contexts -> deviceCacheLoaded (mr_memory s c) = true -> deviceCache (mr_memory s c) = d;
}.

(** What a call on the secrets may change: promises and draws, and a key where
    there was none. *)
Record beside (s s' : Mirrors) : Prop := {
  bs_keys : keys_ok s';
  bs_key : forall k, mr_secret_key s = Some k -> mr_secret_key s' = Some k;
  bs_device : mr_device s' = mr_device s;
  bs_session : mr_session s' = mr_session s;
  bs_results : mr_results s' = mr_results s;
  bs_memory : forall c, deviceCache (mr_memory s' c) = deviceCache (mr_memory s c) /\ deviceCacheLoaded (mr_memory s' c) = deviceCacheLoaded (mr_memory s c);
}.

Lemma beside_refl s : keys_ok s -> beside s s.
Proof. by split. Qed.
Lemma beside_trans s1 s2 s3 : beside s1 s2 -> beside s2 s3 -> beside s1 s3.
Proof.
  intros [? ? ? ? ? Hm1] [? ? ? ? ? Hm2]. split; [done|auto|congruence..|].
  intros c. destruct (Hm1 c), (Hm2 c). split; congruence.
Qed.
Lemma beside_bump s : keys_ok s -> beside s (bump_drawn s).
Proof. by split. Qed.

(** A context that makes the promise settles it with the stored key. *)
Lemma beside_settled c s key : deviceSecretKeyPromise (mr_memory s c) = None -> keys_ok s -> (forall k, mr_secret_key s = Some k -> key = k) ->
  let p := length (mr_promises s) in
  let s1 := set_key_promise c (Some p) (set_promises (mr_promises s ++ [None]) s) in
  beside s (set_promises (<[p := Some key]> (mr_promises s ++ [None])) (set_secret_key (Some key) s1)).
Proof.
  intros Hc Hk Hkey p s1. split; cbn; try done.
  - intros c' p' Hc'. cbn. destruct (Nat.eqb_spec c' c) as [->|Hne]; cbn.
    + intros [= <-]. exists key. split; [|done]. apply list_lookup_insert_eq. rewrite length_app. cbn. unfold p. lia.
    + intros Hp. destruct (Hk c' p' Hc' Hp) as (k & Hl & Hs). exists k. rewrite (Hkey k Hs). split; [|done].
      apply lookup_lt_Some in Hl as Hlt. rewrite list_lookup_insert_ne by (unfold p; lia). by rewrite lookup_app_l.
  - intros k Hs. by rewrite (Hkey k Hs).
  - intros c'. by destruct (Nat.eqb_spec c' c) as [->|].
Qed.

(** The key call, in a context that holds the stored key or none. *)
Lemma ends_key c s : c ∈ contexts -> keys_ok s -> exists key s', ends (getDeviceSecretKey c) s key s' /\ beside s s' /\ mr_secret_key s' = Some key.
Proof.
  intros Hc Hk. destruct (deviceSecretKeyPromise (mr_memory s c)) as [p|] eqn:Hp.
  - destruct (Hk c p Hc Hp) as (key & Hl & Hs). exists key, s. split; [|by split; [apply beside_refl|]].
    eapply ends_bind; [apply ends_do; by rewrite Hp|]. intros k. unfold await_key, th_bind, th_when, th_do. cbn. by rewrite Hl; cbn; rewrite Hl.
  - destruct (mr_secret_key s) as [key|] eqn:Hs.
    + exists key. eexists. split; [|split; [apply (beside_settled c s key Hp Hk); rewrite Hs; by intros ? [= ->]|done]].
      eapply ends_bind; [apply ends_do; by rewrite Hp|]. eapply ends_bind; [apply ends_look|]. cbn. rewrite Hs. cbn.
      eapply ends_bind; [apply ends_act|]. cbn. rewrite <- Hs. by destruct s.
    + exists (generateKey (mr_drawn s)). eexists. split; [|split; [|]].
      * eapply ends_bind; [apply ends_do; by rewrite Hp|]. eapply ends_bind; [apply ends_look|]. cbn. rewrite Hs. cbn.
        eapply ends_bind; [by apply ends_do|]. eapply ends_bind; [apply ends_act|]. eapply ends_bind; [apply ends_act|]. apply ends_ret.
      * eapply beside_trans; [apply (beside_settled c s (generateKey (mr_drawn s)) Hp Hk); by rewrite Hs|]. split; try done.
        intros c' p' Hc'. by apply (bs_keys _ _ (beside_settled c s (generateKey (mr_drawn s)) Hp Hk ltac:(by rewrite Hs))).
      * done.
Qed.

Lemma ends_encrypt c s plaintext : c ∈ contexts -> keys_ok s -> exists key ct s', ends (encryptDeviceSecret c plaintext) s ct s' /\ beside s s' /\
  mr_secret_key s' = Some key /\ open_secret key ct = Some plaintext.
Proof.
  intros Hc Hk. destruct (ends_key c s Hc Hk) as (key & s1 & Hends & Hb & Hs). exists key. eexists _, _.
  split; [eapply ends_bind; [exact Hends|by apply ends_do]|]. split; [|split; [done|apply open_secret_envelope, iv_bytes]].
  eapply beside_trans; [exact Hb|]. apply beside_bump, Hb.
Qed.

Lemma ends_decrypt c s key stored plaintext : c ∈ contexts -> keys_ok s -> mr_secret_key s = Some key -> open_secret key stored = Some plaintext ->
  exists s', ends (decryptDeviceSecret c stored) s plaintext s' /\ beside s s'.
Proof.
  intros Hc Hk Hs Ho. destruct (ends_key c s Hc Hk) as (key' & s1 & Hends & Hb & Hs'). exists s1. split; [|done].
  eapply ends_bind; [exact Hends|]. apply ends_do. pose proof (bs_key _ _ Hb key Hs) as Hs2. replace key' with key by congruence. by rewrite Ho.
Qed.

(** ** The three calls *)

Lemma with_secrets_with ak rt ak' rt' d : with_secrets ak rt (with_secrets ak' rt' d) = with_secrets ak rt d.
Proof. done. Qed.
Lemma with_secrets_own d : with_secrets (accountKey d) (refreshToken d) d = d.
Proof. by destruct d. Qed.

Lemma mirrors_beside s s' d : mirrors s d -> beside s s' -> mirrors s' d.
Proof.
  intros [? Hst Hse Hme] [? Hkey Hd Hs _ Hm]. split; [done|..].
  - unfold stored_is in *. rewrite Hd. destruct (mr_device s); [|done]. destruct Hst as (k & ak & rt & Hk & ?). exists k, ak, rt. auto.
  - by rewrite Hs.
  - intros c Hc. destruct (Hm c) as [-> ->]. by apply Hme.
Qed.

(** The mirrors of one context and of session storage brought up to date. *)
Lemma mirrors_cached c s d : mirrors s d -> mirrors (cache_device c d s) d.
Proof.
  intros [Hk Hst Hse Hme]. split; cbn; [|done..|].
  - intros c' p Hc'. cbn. destruct (Nat.eqb_spec c' c) as [->|]; cbn; by apply Hk.
  - intros c' Hc'. destruct (Nat.eqb_spec c' c); [done|by apply Hme].
Qed.
Lemma mirrors_session s d : mirrors s d -> mirrors (set_session d s) d.
Proof. intros [Hk Hst Hse Hme]. split; [exact Hk|exact Hst|by intros r|exact Hme]. Qed.

Lemma ends_cached c s d : deviceCache (mr_memory s c) = d -> ends (cached c) s d s.
Proof. intros <-. exact (ends_look (fun s => deviceCache (mr_memory s c)) s). Qed.

Lemma ends_get c s d : c ∈ contexts -> mirrors s d -> exists s', ends (getDevice c) s d s' /\ mirrors s' d /\ mr_results s' = mr_results s.
Proof.
  intros Hc Hm. destruct (deviceCacheLoaded (mr_memory s c)) eqn:Hl.
  { exists s. split; [|done]. eapply ends_bind; [apply ends_look|]. rewrite Hl, <- (mi_memory _ _ Hm c Hc Hl). apply ends_ret. }
  destruct (mr_session s) as [r|] eqn:Hs.
  { pose proof (mi_session _ _ Hm r Hs) as ->. eexists. split; [|split; [by apply mirrors_cached|done]].
    eapply ends_bind; [apply ends_look|]. rewrite Hl. eapply ends_bind; [apply ends_look|]. rewrite Hs. eapply ends_bind; [apply ends_act|apply ends_ret]. }
  pose proof (mi_stored _ _ Hm) as Hst. unfold stored_is in Hst. destruct (mr_device s) as [sd|] eqn:Hd.
  - destruct Hst as (key & ak & rt & Hkey & -> & Hak & Hrt).
    destruct (ends_decrypt c s key (accountKey sd) ak Hc (mi_keys _ _ Hm) Hkey Hak) as (s1 & E1 & Hb1).
    destruct (ends_decrypt c s1 key (refreshToken sd) rt Hc (bs_keys _ _ Hb1) (bs_key _ _ Hb1 _ Hkey) Hrt) as (s2 & E2 & Hb2).
    set (d := with_secrets ak rt sd) in *. exists (set_session (Some d) (cache_device c (Some d) s2)). split_and!.
    + eapply ends_bind; [apply ends_look|]. rewrite Hl. eapply ends_bind; [apply ends_look|]. rewrite Hs. eapply ends_bind; [apply ends_look|]. rewrite Hd.
      eapply ends_bind; [exact E1|]. eapply ends_bind; [exact E2|]. eapply ends_bind; [apply ends_act|]. eapply ends_bind; [apply ends_act|].
      apply ends_cached. cbn. by rewrite Nat.eqb_refl.
    + apply mirrors_session, mirrors_cached. eapply mirrors_beside; [|exact Hb2]. by eapply mirrors_beside.
    + cbn. by rewrite (bs_results _ _ Hb2), (bs_results _ _ Hb1).
  - subst d. eexists. split; [|split; [by apply mirrors_cached|done]].
    eapply ends_bind; [apply ends_look|]. rewrite Hl. eapply ends_bind; [apply ends_look|]. rewrite Hs. eapply ends_bind; [apply ends_look|]. rewrite Hd.
    eapply ends_bind; [apply ends_act|apply ends_ret].
Qed.

(** A put leaves other contexts with what they had in memory, until they hear of it. *)
Definition forgotten (s : Mirrors) : Mirrors := foldl (fun s c => invalidateDeviceMemory c s) s contexts.

Lemma ends_put c s d record : c ∈ contexts -> mirrors s d -> exists s', ends (putDevice c record) s tt s' /\ mr_results s' = mr_results s /\
  keys_ok s' /\ stored_is s' (Some record) /\ mr_session s' = Some record.
Proof.
  intros Hc Hm. destruct (ends_encrypt c s (accountKey record) Hc (mi_keys _ _ Hm)) as (key & ak & s1 & E1 & Hb1 & Hk1 & Ho1).
  destruct (ends_encrypt c s1 (refreshToken record) Hc (bs_keys _ _ Hb1)) as (key' & rt & s2 & E2 & Hb2 & Hk2 & Ho2).
  assert (key' = key) as -> by (pose proof (bs_key _ _ Hb2 key Hk1); congruence).
  eexists. split; [|split; [|split; [|split]]].
  - eapply ends_bind; [exact E1|]. eapply ends_bind; [exact E2|]. eapply ends_bind; [apply ends_act|]. eapply ends_bind; [apply ends_act|apply ends_act].
  - cbn. by rewrite (bs_results _ _ Hb2), (bs_results _ _ Hb1).
  - intros c' p Hc'. cbn. destruct (Nat.eqb_spec c' c) as [->|]; cbn; by apply (bs_keys _ _ Hb2).
  - exists key, (accountKey record), (refreshToken record). cbn. by rewrite with_secrets_with, with_secrets_own.
  - done.
Qed.

Lemma run_calls_app l1 l2 s : run_calls (l1 ++ l2) s = let '(ok, s1) := run_calls l1 s in if ok then run_calls l2 s1 else (false, s1).
Proof.
  revert s. induction l1 as [|m l1 IH]; intros s; cbn; [done|]. destruct (run_call m s) as [[] s1]; [apply IH|done].
Qed.

(** Notices make every context read anew. *)
Lemma run_notices l s : exists s', run_calls (map notified l) s = (true, s') /\ mr_results s' = mr_results s /\ mr_device s' = mr_device s /\
  mr_secret_key s' = mr_secret_key s /\ mr_session s' = mr_session s /\ mr_promises s' = mr_promises s /\
  forall c, deviceSecretKeyPromise (mr_memory s' c) = deviceSecretKeyPromise (mr_memory s c) /\
    deviceCacheLoaded (mr_memory s' c) = (if decide (c ∈ l) then false else deviceCacheLoaded (mr_memory s c)) /\
    (deviceCacheLoaded (mr_memory s' c) = true -> deviceCache (mr_memory s' c) = deviceCache (mr_memory s c)).
Proof.
  revert s. induction l as [|c0 l IH]; intros s; cbn [map run_calls].
  { exists s. split_and!; try done. }
  rewrite (ends_call (notified c0) s (invalidateDeviceMemory c0 s)) by apply ends_act.
  destruct (IH (invalidateDeviceMemory c0 s)) as (s' & E & Hr & Hd & Hk & Hs & Hp & Hc). exists s'. rewrite E. split_and!; try done.
  intros c. destruct (Hc c) as (H1 & H2 & H3). revert H1 H2 H3. unfold invalidateDeviceMemory. cbn.
  destruct (Nat.eqb_spec c c0) as [->|Hne]; cbn.
  - intros -> H2 H3. split; [done|]. rewrite decide_True by left. rewrite H2. by case_decide.
  - intros -> H2 H3. split; [done|]. rewrite H2. split; [|by rewrite H2 in H3].
    destruct (decide (c ∈ l)); [by rewrite decide_True by (by right)|]. rewrite decide_False; [done|]. by intros [->|?]%elem_of_cons.
Qed.

Lemma notified_mirrors s s' d : keys_ok s -> stored_is s d -> (forall r, mr_session s = Some r -> d = Some r) ->
  run_calls (map notified contexts) s = (true, s') -> mirrors s' d.
Proof.
  intros Hk Hst Hse E. destruct (run_notices contexts s) as (s2 & E2 & _ & Hd & Hkey & Hs & Hp & Hc). rewrite E2 in E. injection E as <-. split.
  - intros c p Hin. destruct (Hc c) as (-> & _). rewrite Hp, Hkey. by apply Hk.
  - unfold stored_is in *. by rewrite Hd, Hkey.
  - by rewrite Hs.
  - intros c Hin. destruct (Hc c) as (_ & -> & _). by rewrite decide_True.
Qed.

Lemma run_clears l s : exists s', run_calls (map clearAllLocalData l) s = (true, s') /\ mr_results s' = mr_results s /\
  (forall c, mr_memory s' c = if decide (c ∈ l) then mkMemory None true None else mr_memory s c) /\
  (l <> [] -> mr_device s' = None /\ mr_session s' = None).
Proof.
  revert s. induction l as [|c0 l IH]; intros s; cbn [map run_calls]; [by exists s|].
  set (s1 := set_session None (set_memory c0 (mkMemory None true None) (set_stored None (set_secret_key None s)))).
  rewrite (ends_call (clearAllLocalData c0) s s1) by (eapply ends_bind; [apply ends_act|]; eapply ends_bind; [apply ends_act|apply ends_act]).
  destruct (IH s1) as (s' & E & Hr & Hm & Hd). exists s'. rewrite E. split_and!; [done|done| |].
  - intros c. rewrite Hm. destruct (decide (c ∈ l)); [by rewrite decide_True by (by right)|]. cbn.
    destruct (Nat.eqb_spec c c0) as [->|]; [by rewrite decide_True by left|]. rewrite decide_False; [done|]. by intros [->|?]%elem_of_cons.
  - intros _. destruct l as [|c1 l]; [|by apply Hd]. cbn in E. by injection E as <-.
Qed.

Lemma memory_restarted l s c : mr_memory (foldr (fun c => set_memory c fresh_memory) s l) c = if decide (c ∈ l) then fresh_memory else mr_memory s c.
Proof.
  induction l as [|c0 l IH]; cbn; [by rewrite decide_False by apply not_elem_of_nil|]. destruct (Nat.eqb_spec c c0) as [->|].
  - by rewrite decide_True by left.
  - rewrite IH. destruct (decide (c ∈ l)); [by rewrite decide_True by (by right)|]. rewrite decide_False; [done|]. by intros [->|?]%elem_of_cons.
Qed.
Lemma rest_restarted l s : let s' := foldr (fun c => set_memory c fresh_memory) s l in
  mr_device s' = mr_device s /\ mr_secret_key s' = mr_secret_key s /\ mr_session s' = mr_session s /\ mr_promises s' = mr_promises s /\
  mr_results s' = mr_results s.
Proof. induction l as [|c0 l IH]; [done|exact IH]. Qed.

(** The context of an event is one of those there are. *)
Definition event_context (e : DeviceEvent) : Prop :=
  match e with Asked c | Stored c _ | ContextRestarted c => c ∈ contexts | _ => True end.

Lemma run_event_refines e s d : contexts <> [] -> event_context e -> mirrors s d ->
  exists s', run_event contexts e s = (true, s') /\ mirrors s' (register_after e d) /\
    mr_results s' = mr_results s ++ match e with Asked c => [(c, d)] | _ => [] end.
Proof.
  intros Hne Hc Hm. destruct e as [c|c record| |c|]; cbn [run_event run_calls register_after event_context] in *.
  - destruct (ends_get c s d Hc Hm) as (s1 & E1 & Hm1 & Hr1). set (s2 := add_result c d s1).
    rewrite (ends_call (asks c) s s2) by (eapply ends_bind; [exact E1|apply ends_act]).
    destruct (run_notices contexts s2) as (s3 & E3 & Hr3 & _). exists s3. rewrite E3. split_and!; [done| |by rewrite Hr3; cbn; rewrite Hr1].
    by apply (notified_mirrors s2); [apply Hm1|apply Hm1|apply Hm1|].
  - destruct (ends_put c s d record Hc Hm) as (s2 & E2 & Hr2 & Hk2 & Hst2 & Hse2). rewrite (ends_call _ s s2 E2).
    destruct (run_notices contexts s2) as (s3 & E3 & Hr3 & _). exists s3. rewrite E3. split_and!; [done| |by rewrite app_nil_r, Hr3].
    apply (notified_mirrors s2); [done|done| |done]. rewrite Hse2. by intros r [= <-].
  - destruct (run_clears contexts s) as (s' & E & Hr & Hmem & Hd). destruct (Hd Hne) as [Hd1 Hd2]. exists s'.
    split_and!; [done| |by rewrite app_nil_r]. split.
    + intros c p Hin. by rewrite Hmem, decide_True.
    + unfold stored_is. by rewrite Hd1.
    + by rewrite Hd2.
    + intros c Hin. by rewrite Hmem, decide_True.
  - eexists. split; [done|]. split; [|by rewrite app_nil_r]. destruct Hm as [Hk Hst Hse Hme]. split; [|exact Hst|exact Hse|].
    + intros c' p Hin. cbn. destruct (Nat.eqb c' c); [done|by apply Hk].
    + intros c' Hin. cbn. destruct (Nat.eqb c' c); [done|by apply Hme].
  - eexists. split; [done|]. destruct (rest_restarted contexts s) as (Hd & Hkey & _ & Hp & Hr). cbn in *.
    split; [|by rewrite app_nil_r]. destruct Hm as [Hk Hst Hse Hme]. split; cbn.
    + intros c p Hin. cbn. by rewrite memory_restarted, decide_True.
    + unfold stored_is in *. cbn. by rewrite Hd, Hkey.
    + done.
    + intros c Hin. cbn. by rewrite memory_restarted, decide_True.
Qed.

(** C22. The device record with its two mirrors and its encrypted fields is one
    register: as long as calls do not overlap and a disconnect wipes in every
    context, every call ends without an error, and every [getDevice], in
    whichever context, gives the record stored last, or none since the last
    disconnect, however often the contexts or the whole browser are restarted
    in between. *)
Theorem device_register_refined l s d : contexts <> [] -> Forall event_context l -> mirrors s d ->
  exists s', run_events contexts l s = (true, s') /\ mr_results s' = mr_results s ++ register_answers l d.
Proof.
  intros Hne Hl. revert s d. induction Hl as [|e l He _ IH]; intros s d Hm; cbn [run_events register_answers].
  - exists s. by rewrite app_nil_r.
  - destruct (run_event_refines e s d Hne He Hm) as (s1 & E1 & Hm1 & Hr1). rewrite E1.
    destruct (IH s1 _ Hm1) as (s2 & E2 & Hr2). exists s2. rewrite E2. split; [done|]. by rewrite Hr2, Hr1, <- app_assoc.
Qed.

(** A first start: nothing stored, nothing remembered. *)
Definition first_start : Mirrors := mkMirrors None None None (fun _ => fresh_memory) [] 0 [].
Lemma first_start_mirrors : mirrors first_start None.
Proof. by split. Qed.
End facts.

(** ** Calls that overlap

    A cipher that only marks its key, a popup (context 0) and a worker (1). *)

#[local] Instance marking_crypto : DeviceCrypto := {|
  skey := Z;
  generateKey n := Z.of_nat n;
  random_iv n := [0];
  gcm_encrypt k iv p := k mod 256 :: p;
  gcm_decrypt k iv c := match c with x :: p => if x =? k mod 256 then Some p else None | [] => None end;
|}.
#[local] Instance marking_laws : DeviceCryptoLaws.
Proof.
  split.
  - intros k iv p. cbn. by rewrite Z.eqb_refl.
  - intros k iv p Hp. constructor; [|exact Hp]. unfold is_byte. pose proof (Z.mod_pos_bound k 256). lia.
  - intros n. repeat constructor; lia.
Qed.

Definition known_device : DeviceRecord :=
  mkDevice "/" "dev" "user" "mail" "access" "" "refresh" "key" 1 None None None None None None None None None None None.

Lemma device_register_refined_witness :
  exists s', run_events [0; 1]%nat [Stored 0 known_device; Asked 1; BrowserRestarted; Asked 1; Disconnected; Asked 0] first_start = (true, s') /\
    mr_results s' = [(1%nat, Some known_device); (1%nat, Some known_device); (0%nat, None)].
Proof.
  apply (device_register_refined [0; 1]%nat [Stored 0 known_device; Asked 1; BrowserRestarted; Asked 1; Disconnected; Asked 0] first_start None).
  - done.
  - repeat constructor; apply (bool_decide_unpack _); exact I.
  - apply first_start_mirrors.
Defined.

(** The browser has been restarted with a device stored. *)
Definition cold : Mirrors := (run_events [0; 1]%nat [Stored 0 known_device; BrowserRestarted] first_start).2.

(** The worker's first [getDevice] is decrypting when the user disconnects: when
    it goes on, the wiped device is back in the worker's memory and in session
    storage. *)
Theorem wiped_device_remembered :
  let c := run_schedule (replicate 10 0%nat ++ replicate 3 1%nat ++ replicate 3 2%nat ++ replicate 10 0%nat)
    (mkCrowd (map spawn [asks 1; clearAllLocalData 0; clearAllLocalData 1]) cold None) in
  (mr_device (cr_state c), mr_session (cr_state c), mr_results (cr_state c), all_done c) =
  (None, Some known_device, [(1%nat, Some known_device)], true).
Proof. vm_compute. reflexivity. Qed.

(** The worker stores a refreshed token while the user disconnects: the record
    is written after the wipe, under a key that is gone, and once the browser
    has been restarted every [getDevice] is rejected. *)
Theorem undone_disconnect_locks :
  let warm := (run_events [0; 1]%nat [Stored 1 known_device] first_start).2 in
  let c := run_schedule (replicate 8 0%nat ++ replicate 3 1%nat ++ replicate 3 2%nat ++ replicate 3 0%nat)
    (mkCrowd (map spawn [putDevice 1 (with_secrets "key" "refreshed" known_device); clearAllLocalData 0; clearAllLocalData 1]) warm None) in
  let restarted := (run_events [0; 1]%nat [BrowserRestarted] (cr_state c)).2 in
  all_done c = true /\ bool_decide (mr_device restarted = None) = false /\ (run_call (asks 0) restarted).1 = false.
Proof. vm_compute. repeat split. Qed.
