(* ===== verification/WebCrypto.v ===== *)
(** * The dashboard's keys and recovery codes (web/src/crypto/index.ts)

    What the web dashboard derives, wraps and seals: the account key under the
    password or the recovery code, the recovery code's text, the account key a
    second device sends, and the recovery code under a passkey. The primitives
    are those of Crypto; the extension's side of each exchange is Crypto's. *)

From S2P Require Import Prelude JsMap Types Util Json Storage StorageFacts Crypto CryptoFacts.

Open Scope Z_scope.
Open Scope js_scope.

(** ** Text

    On ASCII text the case mappings, [\s] and [trim] are written out; what they
    make of other text is the platform's. *)
Class TextPlatform := {
  normalized_other : string -> string;    (** of [parseRecoveryCode] *)
  folded_other : string -> string;        (** [trim().toLowerCase()] *)
}.

Definition is_ascii (s : string) : bool := forallb (fun c => (Nat.ltb (nat_of_ascii c) 128)) (list_ascii_of_string s).
Definition between (lo hi : nat) (c : ascii) : bool := Nat.leb lo (nat_of_ascii c) && Nat.leb (nat_of_ascii c) hi.
Definition toUpperCase (c : ascii) : ascii := if between 97 122 c then ascii_of_nat (nat_of_ascii c - 32) else c.
Definition toLowerCase (c : ascii) : ascii := if between 65 90 c then ascii_of_nat (nat_of_ascii c + 32) else c.
(** [\s] *)
Definition is_space (c : ascii) : bool := between 9 13 c || Ascii.eqb c " ".

Fixpoint drop_spaces (cs : list ascii) : list ascii :=
  match cs with
  | c :: cs' => if is_space c then drop_spaces cs' else cs
  | [] => []
  end.
Definition trim (cs : list ascii) : list ascii := rev (drop_spaces (rev (drop_spaces cs))).

(** ** Errors *)

Inductive web_error := KdfUnsafe | CodeRejected | UnsupportedKey | UnsupportedSeal | Unreadable.

Definition or_unreadable {A} (o : option A) : web_error + A := match o with Some a => inr a | None => inl Unreadable end.
Definition then_ {A B} (r : web_error + A) (f : A -> web_error + B) : web_error + B := match r with inr a => f a | inl e => inl e end.

(** ** base64url *)

Definition toB64 (b : bytes) : string := base64UrlEncode b.

Definition fromB64 (value : string) : option bytes :=
  let normalized := map std_char (list_ascii_of_string value) in
  let n := length normalized in
  atob (normalized ++ replicate ((4 - n mod 4) mod 4) "="%char).

(** ** Key derivation parameters *)

Definition assertSaneKdfParams (k : KdfParams) (salt : bytes) : web_error + unit :=
  let n := Z.of_nat (length salt) in
  if (19456 <=? kdf_m k) && (kdf_m k <=? 262144) && (2 <=? kdf_t k) && (kdf_t k <=? 10)
     && (1 <=? kdf_p k) && (kdf_p k <=? 4) && (16 <=? n) && (n <=? 64)
  then inr tt else inl KdfUnsafe.

(** ** Recovery codes *)

Definition RECOVERY_CODE_BYTES : nat := 20.
Definition RECOVERY_CODE_CHARS : nat := 32.

Definition toCrockford (b : bytes) : list ascii :=
  let '(_, _, text) := foldl crock_byte (0, 0, []) b in text.

(** [text.match(/.{1,4}/g)] *)
Fixpoint groups_upto4 (cs : list ascii) : list (list ascii) :=
  match cs with
  | a :: b :: c :: d :: cs => [a; b; c; d] :: groups_upto4 cs
  | [] => []
  | rest => [rest]
  end.
Definition groupsOfFour (cs : list ascii) : string := String.concat "-" (map string_of_list_ascii (groups_upto4 cs)).

Definition formatRecoveryCode (b : bytes) : string := groupsOfFour (toCrockford b).

(** [random] is [randomBytes(20)]. *)
Definition generateRecoveryCode (random : bytes) : string := groupsOfFour (toCrockford random).

Definition read_as (c : ascii) : ascii :=
  if Ascii.eqb c "I" || Ascii.eqb c "L" then "1"%char else if Ascii.eqb c "O" then "0"%char else c.

Section text.
Context `{TextPlatform}.

(** [toUpperCase], then [\s] and dashes dropped, then I and L read as 1, O as 0. *)
Definition normalized (input : string) : list ascii :=
  if is_ascii input
  then map read_as (List.filter (fun c => negb (is_space c || Ascii.eqb c "-")) (map toUpperCase (list_ascii_of_string input)))
  else list_ascii_of_string (normalized_other input).

Definition digit_of (c : ascii) : option Z := Z.of_nat <$> find_index (fun d => Ascii.eqb c d) CROCKFORD_ALPHABET.

Definition crock_digit (st : Z * Z * bytes) (digit : Z) : Z * Z * bytes :=
  let '(bits, value, out) := st in
  let value := Z.land (or32 (shl32 value 5) digit) 4095 in
  let bits := bits + 5 in
  if 8 <=? bits then (bits - 8, value, out ++ [Z.land (ushr32 value (bits - 8)) 255]) else (bits, value, out).

(** [None] where it throws. *)
Definition parseRecoveryCode (input : string) : option bytes :=
  let cs := normalized input in
  if negb (Nat.eqb (length cs) RECOVERY_CODE_CHARS) then None
  else
    digits ← mapM digit_of cs;
    let '(_, _, out) := foldl crock_digit (0, 0, []) digits in Some out.

Definition recoveryCodesMatch (typed expected : string) : bool :=
  match parseRecoveryCode typed, parseRecoveryCode expected with
  | Some a, Some b => foldl (fun diff xy => or32 diff (Z.lxor xy.1 xy.2)) 0 (zip a b) =? 0
  | _, _ => false
  end.

(** [email.trim().toLowerCase()] *)
Definition folded (email : string) : string :=
  if is_ascii email then string_of_list_ascii (map toLowerCase (trim (list_ascii_of_string email))) else folded_other email.

Definition newline : string := String (ascii_of_nat 10) "".
Definition sealAad (email credentialId : string) : bytes := utf8_encode (folded email +:+ newline +:+ credentialId).

(** ** Keys *)

Context `{CryptoLib}.

Definition deriveMasterKey (password kdfSaltB64 : string) (kdfParams : KdfParams) : web_error + bytes :=
  then_ (or_unreadable (fromB64 kdfSaltB64)) (fun salt =>
  then_ (assertSaneKdfParams kdfParams salt) (fun _ => inr (argon2id password salt (kdf_t kdfParams) (kdf_m kdfParams) (kdf_p kdfParams)))).

Definition deriveAuthKey (masterKey : bytes) : string := toB64 (hkdf masterKey "helixsync-auth-v1" 256).
Definition deriveKek (masterKey : bytes) : bytes := hkdf masterKey "helixsync-kek-v1" 256.

(** The authentication key and the key-encryption key of a recovery code. *)
Definition deriveRecoveryKeys (code : bytes) : string * bytes :=
  (toB64 (hkdf code "helixsync-recovery-auth-v1" 256), hkdf code "helixsync-recovery-kek-v1" 256).

(** An envelope of version 1. *)
Definition envelope (nonce ciphertext : bytes) : string :=
  JSON_stringify (JObj [("v", JNum 1); ("alg", JStr "xchacha20poly1305"); ("nonce", JStr (toB64 nonce)); ("ciphertext", JStr (toB64 ciphertext))]).

Definition envelope_field (e : jsval) (name : string) : web_error + bytes :=
  match jget e name with JStr s => or_unreadable (fromB64 s) | _ => inl Unreadable end.

Definition open_v1 (key aad : bytes) (e : jsval) : web_error + bytes :=
  then_ (envelope_field e "nonce") (fun nonce =>
  then_ (envelope_field e "ciphertext") (fun ciphertext => or_unreadable (aead_decrypt key nonce aad ciphertext))).

Definition wrapAccountKey (nonce kek accountKey : bytes) : string := envelope nonce (aead_encrypt kek nonce [] accountKey).

Definition unwrapAccountKey (kek : bytes) (wrapped : string) : web_error + bytes :=
  then_ (or_unreadable (JSON_parse wrapped)) (open_v1 kek []).

Definition authRequestFingerprint (publicKeyB64 : string) : option string :=
  (fun publicKey => groupsOfFour (toCrockford (take 10 (sha256 (utf8_encode AUTH_REQUEST_LABEL ++ publicKey))))) <$> fromB64 publicKeyB64.

Definition accountKeyCheckPhrase (accountKey : bytes) : string :=
  groupsOfFour (toCrockford (hkdf accountKey "helixsync-key-check-v1" 80)).

(** [v !== 1 || alg !== "xchacha20poly1305"], reading [null] throwing. *)
Definition supported (unsupported : web_error) (e : jsval) : web_error + unit :=
  match e with
  | JNull => inl Unreadable
  | _ => if negb (js_eq_num (jget e "v") 1) || negb (js_eq_str (jget e "alg") "xchacha20poly1305") then inl unsupported else inr tt
  end.

Definition decryptAccountKeyFromApproval (privateKey : bytes) (approverPublicKeyB64 encryptedAccountKey requestId : string) : web_error + bytes :=
  then_ (or_unreadable (fromB64 approverPublicKeyB64)) (fun peer =>
  let key := hkdf (ecdh privateKey peer) AUTH_REQUEST_LABEL 256 in
  then_ (or_unreadable (JSON_parse encryptedAccountKey)) (fun e =>
  then_ (supported UnsupportedKey e) (fun _ => open_v1 key (utf8_encode requestId) e))).

Definition PASSKEY_SEAL_LABEL : string := "helixsync-passkey-seal-v1".

Definition sealRecoveryCode (nonce prfOutput : bytes) (recoveryCode email credentialId : string) : web_error + string :=
  let key := hkdf prfOutput PASSKEY_SEAL_LABEL 256 in
  match parseRecoveryCode recoveryCode with
  | None => inl CodeRejected
  | Some code => inr (envelope nonce (aead_encrypt key nonce (sealAad email credentialId) code))
  end.

Definition unsealRecoveryCode (prfOutput : bytes) (sealed email credentialId : string) : web_error + string :=
  let key := hkdf prfOutput PASSKEY_SEAL_LABEL 256 in
  then_ (or_unreadable (JSON_parse sealed)) (fun e =>
  then_ (supported UnsupportedSeal e) (fun _ =>
  then_ (open_v1 key (sealAad email credentialId) e) (fun code => inr (formatRecoveryCode code)))).
End text.

(** ** Thirty-two bits *)

Lemma to_uint32_mod z : to_uint32 z = z mod 2 ^ 32.
Proof. unfold to_uint32. by rewrite Z.land_ones. Qed.

Lemma to_int32_eq z : exists q, to_int32 z = z + q * 2 ^ 32.
Proof.
  unfold to_int32. rewrite to_uint32_mod. pose proof (Z.div_mod z (2 ^ 32) ltac:(lia)).
  destruct (Z.testbit _ _); [exists (- (z / 2 ^ 32) - 1)|exists (- (z / 2 ^ 32))]; lia.
Qed.

Lemma small_bits b j n : 0 <= b < 2 ^ j -> j <= n -> Z.testbit b n = false.
Proof.
  intros Hb Hn. destruct (Z.eqb_spec b 0) as [->|]; [apply Z.bits_0|].
  apply Z.bits_above_log2; [lia|]. apply Z.lt_le_trans with j; [apply Z.log2_lt_pow2; lia|done].
Qed.

(** The low bits after shifting [j] new ones in. *)
Lemma shift_in v b j : 0 <= j <= 8 -> 0 <= b < 2 ^ j -> exists q, or32 (shl32 v j) b = v * 2 ^ j + b + q * 2 ^ 32.
Proof.
  intros Hj Hb. unfold or32, shl32. rewrite Z.shiftl_mul_pow2 by lia. destruct (to_int32_eq v) as [q1 ->].
  destruct (to_int32_eq ((v + q1 * 2 ^ 32) * 2 ^ j)) as [q2 ->].
  assert (2 ^ 32 = 2 ^ (32 - j) * 2 ^ j) as Hp by (rewrite <- Z.pow_add_r by lia; f_equal; lia).
  destruct (to_int32_eq ((v + q1 * 2 ^ 32) * 2 ^ j + q2 * 2 ^ 32)) as [q3 ->]. destruct (to_int32_eq b) as [q4 Hq4].
  assert (to_int32 b = b) as ->.
  { unfold to_int32. rewrite to_uint32_mod, Z.mod_small by (pose proof (Z.pow_le_mono_r 2 j 8 ltac:(lia) ltac:(lia)); lia).
    by rewrite (small_bits b j) by lia. }
  set (a := (v + q1 * 2 ^ 32) * 2 ^ j + q2 * 2 ^ 32 + q3 * 2 ^ 32).
  assert (a = (v + q1 * 2 ^ 32 + q2 * 2 ^ (32 - j) + q3 * 2 ^ (32 - j)) * 2 ^ j) as Ha by (unfold a; rewrite Hp; ring).
  assert (Z.land a b = 0) as Hland.
  { rewrite Ha, <- Z.shiftl_mul_pow2 by lia. apply Z.bits_inj'. intros n Hn. rewrite Z.land_spec, Z.bits_0.
    destruct (Z.ltb_spec n j); [by rewrite Z.shiftl_spec_low|]. by rewrite (small_bits b j n), andb_false_r by lia. }
  pose proof (Z.add_lor_land a b) as Hadd. rewrite Hland, Z.add_0_r in Hadd. rewrite Hadd.
  destruct (to_int32_eq (a + b)) as [q5 ->]. exists (q1 * 2 ^ j + q2 + q3 + q5). unfold a. ring.
Qed.

(** The [j] bits above the lowest [k]. *)
Lemma bits_out v j k : 0 <= k -> 0 <= j -> k + j <= 32 -> Z.land (ushr32 v k) (Z.ones j) = v mod 2 ^ (k + j) / 2 ^ k.
Proof.
  intros Hk Hj Hkj. unfold ushr32. rewrite to_uint32_mod, Z.shiftr_div_pow2, Z.land_ones by lia.
  replace 32 with ((k + j) + (32 - (k + j))) by lia. apply Z.bits_inj'. intros n Hn.
  rewrite Z.div_pow2_bits by lia. destruct (Z.ltb_spec n j).
  - rewrite Z.mod_pow2_bits_low, Z.div_pow2_bits, !Z.mod_pow2_bits_low by lia. done.
  - rewrite Z.mod_pow2_bits_high by lia. by rewrite Z.mod_pow2_bits_high by lia.
Qed.

(** ** Five bytes are eight characters *)

Definition encode5 (b0 b1 b2 b3 b4 : Z) : list Z :=
  [b0 / 8; b0 mod 8 * 4 + b1 / 64; b1 / 2 mod 32; b1 mod 2 * 16 + b2 / 16; b2 mod 16 * 2 + b3 / 128; b3 / 4 mod 32; b3 mod 4 * 8 + b4 / 32; b4 mod 32].
Definition decode8 (d0 d1 d2 d3 d4 d5 d6 d7 : Z) : list Z :=
  [d0 * 8 + d1 / 4; d1 mod 4 * 64 + d2 * 2 + d3 / 16; d3 mod 16 * 16 + d4 / 2; d4 mod 2 * 128 + d5 * 4 + d6 / 8; d6 mod 8 * 32 + d7].

Lemma mod_pow2_mod v a b : 0 <= b <= a -> (v mod 2 ^ a) mod 2 ^ b = v mod 2 ^ b.
Proof.
  intros Hab. apply Z.bits_inj'. intros n Hn. destruct (Z.ltb_spec n b).
  - by rewrite !Z.mod_pow2_bits_low by lia.
  - by rewrite !Z.mod_pow2_bits_high by lia.
Qed.

(** [j] new bits behind the [r] that count. *)
Lemma low_shifted v b r j : 0 <= r <= 8 -> 0 <= j <= 8 -> 0 <= b < 2 ^ j ->
  or32 (shl32 v j) b mod 2 ^ (r + j) = v mod 2 ^ r * 2 ^ j + b.
Proof.
  intros Hr Hj Hb. destruct (shift_in v b j Hj Hb) as [q ->].
  replace (2 ^ 32) with (2 ^ (32 - (r + j)) * 2 ^ (r + j)) by (rewrite <- Z.pow_add_r by lia; f_equal; lia).
  pose proof (Z.pow_pos_nonneg 2 r). pose proof (Z.pow_pos_nonneg 2 j). pose proof (Z.mod_pos_bound v (2 ^ r)).
  rewrite Z.mul_assoc, Z.mod_add by (pose proof (Z.pow_pos_nonneg 2 (r + j)); lia).
  rewrite Z.pow_add_r by lia. symmetry. apply Z.mod_unique with (v / 2 ^ r); [left; nia|].
  pose proof (Z.div_mod v (2 ^ r) ltac:(lia)). nia.
Qed.

(** One byte in, with [r] bits left over from before. *)
Lemma crock_byte_one r v text b : 0 <= r <= 1 -> is_byte b -> let n := v mod 2 ^ r * 2 ^ 8 + b in exists v',
  crock_byte (r, v, text) b = (r + 3, v', text ++ [crockford_char (n / 2 ^ (r + 3))]) /\ v' mod 2 ^ (r + 3) = n mod 2 ^ (r + 3).
Proof.
  intros Hr Hb n. pose proof (low_shifted v b r 8 ltac:(lia) ltac:(lia) Hb) as Hlow. fold n in Hlow. exists (or32 (shl32 v 8) b).
  unfold crock_byte. cbn [crock_emit]. replace (5 <=? r + 8) with true by lia. replace (5 <=? r + 8 - 5) with false by lia.
  replace (r + 8 - 5) with (r + 3) by lia. split.
  - do 4 f_equal. change 31 with (Z.ones 5). rewrite bits_out by lia. replace (r + 3 + 5) with (r + 8) by lia. by rewrite Hlow.
  - rewrite <- Hlow. symmetry. apply mod_pow2_mod. lia.
Qed.

Lemma crock_byte_two r v text b : 2 <= r <= 4 -> is_byte b -> let n := v mod 2 ^ r * 2 ^ 8 + b in exists v',
  crock_byte (r, v, text) b = (r - 2, v', text ++ [crockford_char (n / 2 ^ (r + 3)); crockford_char (n mod 2 ^ (r + 3) / 2 ^ (r - 2))]) /\
  v' mod 2 ^ (r - 2) = n mod 2 ^ (r - 2).
Proof.
  intros Hr Hb n. pose proof (low_shifted v b r 8 ltac:(lia) ltac:(lia) Hb) as Hlow. fold n in Hlow. exists (or32 (shl32 v 8) b).
  unfold crock_byte. cbn [crock_emit]. replace (5 <=? r + 8) with true by lia. replace (5 <=? r + 8 - 5) with true by lia.
  replace (5 <=? r + 8 - 5 - 5) with false by lia. replace (r + 8 - 5 - 5) with (r - 2) by lia. replace (r + 8 - 5) with (r + 3) by lia. split.
  - rewrite <- app_assoc. cbn [app]. do 3 f_equal; change 31 with (Z.ones 5); rewrite bits_out by lia.
    + replace (r + 3 + 5) with (r + 8) by lia. by rewrite Hlow.
    + replace (r - 2 + 5) with (r + 3) by lia. rewrite <- Hlow, mod_pow2_mod by lia. done.
  - rewrite <- Hlow. symmetry. apply mod_pow2_mod. lia.
Qed.

(** One digit in. *)
Lemma crock_digit_in r v out d : 0 <= r <= 7 -> 0 <= d < 32 -> let n := v mod 2 ^ r * 2 ^ 5 + d in exists v',
  (forall k, 0 <= k <= r + 5 -> v' mod 2 ^ k = n mod 2 ^ k) /\
  crock_digit (r, v, out) d = (if 8 <=? r + 5 then (r - 3, v', out ++ [n / 2 ^ (r - 3)]) else (r + 5, v', out)).
Proof.
  intros Hr Hd n. pose proof (low_shifted v d r 5 ltac:(lia) ltac:(lia) Hd) as Hlow. fold n in Hlow.
  exists (Z.land (or32 (shl32 v 5) d) 4095). change 4095 with (Z.ones 12). rewrite Z.land_ones by lia. split.
  { intros k Hk. rewrite mod_pow2_mod, <- Hlow by lia. symmetry. apply mod_pow2_mod. lia. }
  unfold crock_digit. change 4095 with (Z.ones 12). rewrite Z.land_ones by lia. destruct (Z.leb_spec 8 (r + 5)); [|done].
  replace (r + 5 - 8) with (r - 3) by lia. do 4 f_equal. change 255 with (Z.ones 8). rewrite bits_out by lia.
  replace (r - 3 + 8) with (r + 5) by lia. by rewrite mod_pow2_mod, Hlow by lia.
Qed.

(** Divisions by powers of two as linear arithmetic. *)
Ltac pow2_lia :=
  unfold is_byte in *; change (2 ^ (0 + 3)) with 8 in *; change (2 ^ (1 + 3)) with 16 in *; change (2 ^ (2 + 3)) with 32 in *; change (2 ^ (3 + 3)) with 64 in *;
  change (2 ^ (4 + 3)) with 128 in *; change (2 ^ (2 - 2)) with 1 in *; change (2 ^ (3 - 2)) with 2 in *; change (2 ^ (4 - 2)) with 4 in *;
  change (2 ^ 0) with 1 in *; change (2 ^ 1) with 2 in *; change (2 ^ 2) with 4 in *; change (2 ^ 3) with 8 in *; change (2 ^ 4) with 16 in *;
  change (2 ^ 5) with 32 in *; change (2 ^ 6) with 64 in *; change (2 ^ 7) with 128 in *; change (2 ^ 8) with 256 in *;
  Z.to_euclidean_division_equations; lia.

Lemma encode_five v text b0 b1 b2 b3 b4 : Forall is_byte [b0; b1; b2; b3; b4] -> exists v',
  foldl crock_byte (0, v, text) [b0; b1; b2; b3; b4] = (0, v', text ++ map crockford_char (encode5 b0 b1 b2 b3 b4)).
Proof.
  rewrite !Forall_cons. intros (H0 & H1 & H2 & H3 & H4 & _).
  destruct (crock_byte_one 0 v text b0 ltac:(lia) H0) as (v1 & E1 & L1). cbn [foldl]. rewrite E1.
  destruct (crock_byte_two 3 v1 (text ++ [crockford_char ((v mod 2 ^ 0 * 2 ^ 8 + b0) / 2 ^ (0 + 3))]) b1 ltac:(lia) H1) as (v2 & E2 & L2).
  change (0 + 3) with 3 in *. rewrite E2. change (3 - 2) with 1 in *.
  edestruct (crock_byte_one 1 v2) as (v3 & E3 & L3); [lia|exact H2|]. rewrite E3. change (1 + 3) with 4 in *.
  edestruct (crock_byte_two 4 v3) as (v4 & E4 & L4); [lia|exact H3|]. rewrite E4. change (4 - 2) with 2 in *.
  edestruct (crock_byte_two 2 v4) as (v5 & E5 & L5); [lia|exact H4|]. rewrite E5. change (2 - 2) with 0 in *.
  exists v5. f_equal. rewrite <- !app_assoc. f_equal. unfold encode5. cbn [map app].
  rewrite L4, L3, L2, L1. clear -H0 H1 H2 H3 H4. repeat (apply (f_equal2 cons); [apply (f_equal crockford_char); pow2_lia|]). done.
Qed.

Lemma decode_eight v out d0 d1 d2 d3 d4 d5 d6 d7 : Forall (fun d => 0 <= d < 32) [d0; d1; d2; d3; d4; d5; d6; d7] -> exists v',
  foldl crock_digit (0, v, out) [d0; d1; d2; d3; d4; d5; d6; d7] = (0, v', out ++ decode8 d0 d1 d2 d3 d4 d5 d6 d7).
Proof.
  rewrite !Forall_cons. intros (H0 & H1 & H2 & H3 & H4 & H5 & H6 & H7 & _). cbn [foldl].
  edestruct (crock_digit_in 0 v) as (v1 & L1 & E1); [lia|exact H0|]. rewrite E1. change (8 <=? 0 + 5) with false. change (0 + 5) with 5 in *. cbn iota.
  edestruct (crock_digit_in 5 v1) as (v2 & L2 & E2); [lia|exact H1|]. rewrite E2. change (8 <=? 5 + 5) with true. change (5 - 3) with 2 in *. cbn iota.
  edestruct (crock_digit_in 2 v2) as (v3 & L3 & E3); [lia|exact H2|]. rewrite E3. change (8 <=? 2 + 5) with false. change (2 + 5) with 7 in *. cbn iota.
  edestruct (crock_digit_in 7 v3) as (v4 & L4 & E4); [lia|exact H3|]. rewrite E4. change (8 <=? 7 + 5) with true. change (7 - 3) with 4 in *. cbn iota.
  edestruct (crock_digit_in 4 v4) as (v5 & L5 & E5); [lia|exact H4|]. rewrite E5. change (8 <=? 4 + 5) with true. change (4 - 3) with 1 in *. cbn iota.
  edestruct (crock_digit_in 1 v5) as (v6 & L6 & E6); [lia|exact H5|]. rewrite E6. change (8 <=? 1 + 5) with false. change (1 + 5) with 6 in *. cbn iota.
  edestruct (crock_digit_in 6 v6) as (v7 & L7 & E7); [lia|exact H6|]. rewrite E7. change (8 <=? 6 + 5) with true. change (6 - 3) with 3 in *. cbn iota.
  edestruct (crock_digit_in 3 v7) as (v8 & L8 & E8); [lia|exact H7|]. rewrite E8. change (8 <=? 3 + 5) with true. change (3 - 3) with 0 in *. cbn iota.
  exists v8. f_equal. rewrite <- !app_assoc. f_equal. unfold decode8. cbn [app].
  rewrite (L7 3), (L6 6), (L5 1), (L4 4), (L3 7), (L2 2), (L1 5) by lia. clear -H0 H1 H2 H3 H4 H5 H6 H7.
  repeat (apply (f_equal2 cons); [pow2_lia|]). done.
Qed.

(** ** Any number of groups *)

Fixpoint encode_all (b : bytes) : list Z :=
  match b with
  | b0 :: b1 :: b2 :: b3 :: b4 :: b => encode5 b0 b1 b2 b3 b4 ++ encode_all b
  | _ => []
  end.
Fixpoint decode_all (d : list Z) : bytes :=
  match d with
  | d0 :: d1 :: d2 :: d3 :: d4 :: d5 :: d6 :: d7 :: d => decode8 d0 d1 d2 d3 d4 d5 d6 d7 ++ decode_all d
  | _ => []
  end.
Definition is_digit (d : Z) : Prop := 0 <= d < 32.

Lemma split5 (n : nat) (b : list Z) : length b = (5 * S n)%nat -> exists b0 b1 b2 b3 b4 b', b = [b0; b1; b2; b3; b4] ++ b' /\ length b' = (5 * n)%nat.
Proof.
  intros Hb. destruct b as [|b0 [|b1 [|b2 [|b3 [|b4 b]]]]]; cbn in Hb; try lia. exists b0, b1, b2, b3, b4, b. split; [done|]. cbn. lia.
Qed.
Lemma split8 (n : nat) (d : list Z) : length d = (8 * S n)%nat ->
  exists d0 d1 d2 d3 d4 d5 d6 d7 d', d = [d0; d1; d2; d3; d4; d5; d6; d7] ++ d' /\ length d' = (8 * n)%nat.
Proof.
  intros Hd. destruct d as [|d0 [|d1 [|d2 [|d3 [|d4 [|d5 [|d6 [|d7 d]]]]]]]]; cbn in Hd; try lia.
  exists d0, d1, d2, d3, d4, d5, d6, d7, d. split; [done|]. cbn. lia.
Qed.

Lemma encode_spec n b v text : length b = (5 * n)%nat -> Forall is_byte b -> exists v',
  foldl crock_byte (0, v, text) b = (0, v', text ++ map crockford_char (encode_all b)).
Proof.
  revert b v text. induction n as [|n IH]; intros b v text Hl Hb.
  { destruct b; [|done]. exists v. cbn. by rewrite app_nil_r. }
  destruct (split5 n b Hl) as (b0 & b1 & b2 & b3 & b4 & b' & -> & Hl'). apply Forall_app in Hb as [Hb Hb'].
  destruct (encode_five v text b0 b1 b2 b3 b4 Hb) as (v1 & E1). rewrite foldl_app, E1.
  destruct (IH b' v1 (text ++ map crockford_char (encode5 b0 b1 b2 b3 b4)) Hl' Hb') as (v2 & E2). exists v2. etransitivity; [exact E2|].
  change (encode_all ([b0; b1; b2; b3; b4] ++ b')) with (encode5 b0 b1 b2 b3 b4 ++ encode_all b'). by rewrite map_app, app_assoc.
Qed.

Lemma decode_spec n d v out : length d = (8 * n)%nat -> Forall is_digit d -> exists v',
  foldl crock_digit (0, v, out) d = (0, v', out ++ decode_all d).
Proof.
  revert d v out. induction n as [|n IH]; intros d v out Hl Hd.
  { destruct d; [|done]. exists v. cbn. by rewrite app_nil_r. }
  destruct (split8 n d Hl) as (d0 & d1 & d2 & d3 & d4 & d5 & d6 & d7 & d' & -> & Hl'). apply Forall_app in Hd as [Hd Hd'].
  destruct (decode_eight v out d0 d1 d2 d3 d4 d5 d6 d7 Hd) as (v1 & E1). rewrite foldl_app, E1.
  destruct (IH d' v1 (out ++ decode8 d0 d1 d2 d3 d4 d5 d6 d7) Hl' Hd') as (v2 & E2). exists v2. etransitivity; [exact E2|].
  change (decode_all ([d0; d1; d2; d3; d4; d5; d6; d7] ++ d')) with (decode8 d0 d1 d2 d3 d4 d5 d6 d7 ++ decode_all d'). by rewrite app_assoc.
Qed.

Lemma decode_encode n b : length b = (5 * n)%nat -> Forall is_byte b ->
  decode_all (encode_all b) = b /\ Forall is_digit (encode_all b) /\ length (encode_all b) = (8 * n)%nat.
Proof.
  revert b. induction n as [|n IH]; intros b Hl Hb; [by destruct b|].
  destruct (split5 n b Hl) as (b0 & b1 & b2 & b3 & b4 & b' & -> & Hl'). apply Forall_app in Hb as [Hb Hb'].
  destruct (IH b' Hl' Hb') as (IH1 & IH2 & IH3). rewrite !Forall_cons in Hb. destruct Hb as (H0 & H1 & H2 & H3 & H4 & _).
  change (encode_all ([b0; b1; b2; b3; b4] ++ b')) with (encode5 b0 b1 b2 b3 b4 ++ encode_all b'). split_and!.
  - cbn [encode5 app decode_all decode8]. rewrite IH1. clear -H0 H1 H2 H3 H4. repeat (apply (f_equal2 cons); [pow2_lia|]). done.
  - apply Forall_app. split; [|done]. clear -H0 H1 H2 H3 H4. unfold is_digit. repeat constructor; pow2_lia.
  - rewrite length_app, IH3. cbn. lia.
Qed.

Lemma encode_decode n d : length d = (8 * n)%nat -> Forall is_digit d ->
  encode_all (decode_all d) = d /\ Forall is_byte (decode_all d) /\ length (decode_all d) = (5 * n)%nat.
Proof.
  revert d. induction n as [|n IH]; intros d Hl Hd; [by destruct d|].
  destruct (split8 n d Hl) as (d0 & d1 & d2 & d3 & d4 & d5 & d6 & d7 & d' & -> & Hl'). apply Forall_app in Hd as [Hd Hd'].
  destruct (IH d' Hl' Hd') as (IH1 & IH2 & IH3). rewrite !Forall_cons in Hd. destruct Hd as (H0 & H1 & H2 & H3 & H4 & H5 & H6 & H7 & _). unfold is_digit in *.
  change (decode_all ([d0; d1; d2; d3; d4; d5; d6; d7] ++ d')) with (decode8 d0 d1 d2 d3 d4 d5 d6 d7 ++ decode_all d'). split_and!.
  - cbn [encode5 app encode_all decode8]. rewrite IH1. clear -H0 H1 H2 H3 H4 H5 H6 H7. repeat (apply (f_equal2 cons); [pow2_lia|]). done.
  - apply Forall_app. split; [|done]. clear -H0 H1 H2 H3 H4 H5 H6 H7. repeat constructor; pow2_lia.
  - rewrite length_app, IH3. cbn. lia.
Qed.

(** ** The alphabet *)

(** A character of the alphabet is read as itself. *)
Definition plain (c : ascii) : bool :=
  Nat.ltb (nat_of_ascii c) 128 && Ascii.eqb (toUpperCase c) c && negb (is_space c || Ascii.eqb c "-") && Ascii.eqb (read_as c) c.

Lemma alphabet_facts : Forall (fun d => digit_of (crockford_char d) = Some d /\ plain (crockford_char d) = true) (map Z.of_nat (seq 0 32)).
Proof. repeat (constructor; [split; vm_compute; reflexivity|]). constructor. Qed.

Lemma crockford_char_digit d : is_digit d -> digit_of (crockford_char d) = Some d /\ plain (crockford_char d) = true.
Proof.
  intros Hd. pose proof alphabet_facts as H. rewrite Forall_forall in H. apply H. apply list_elem_of_fmap. exists (Z.to_nat d).
  unfold is_digit in Hd. split; [lia|]. apply elem_of_seq. lia.
Qed.

Lemma digit_of_char c d : digit_of c = Some d -> is_digit d /\ crockford_char d = c.
Proof.
  unfold digit_of. destruct (find_index _ _) as [i|] eqn:E; [|done]. intros [= <-].
  apply find_index_Some in E as [(c' & Hc & E) _]. apply Ascii.eqb_eq in E as ->.
  assert (i < 32)%nat by (by apply lookup_lt_Some in Hc). split; [unfold is_digit; lia|].
  unfold crockford_char. rewrite Nat2Z.id. by apply nth_lookup_Some.
Qed.

Lemma digits_of_chars ds : Forall is_digit ds -> mapM digit_of (map crockford_char ds) = Some ds.
Proof. induction 1 as [|d ds Hd _ IH]; [done|]. cbn -[digit_of crockford_char]. destruct (crockford_char_digit d Hd) as [-> _]. cbn -[digit_of crockford_char]. by rewrite IH. Qed.

Lemma chars_of_digits cs ds : mapM digit_of cs = Some ds -> Forall is_digit ds /\ map crockford_char ds = cs.
Proof.
  intros H%mapM_Some. induction H as [|c d cs ds Hd _ IH]; [done|]. destruct (digit_of_char c d Hd) as [? <-], IH as [? <-].
  split; [by constructor|done].
Qed.

Lemma toCrockford_20 b : Forall is_byte b -> length b = RECOVERY_CODE_BYTES -> toCrockford b = map crockford_char (encode_all b).
Proof. intros Hb Hl. unfold toCrockford. by destruct (encode_spec 4 b 0 [] Hl Hb) as (v & ->). Qed.

(** ** What a code is read as *)

Section codes.
Context `{TextPlatform}.

Lemma is_ascii_app s1 s2 : is_ascii (s1 +:+ s2) = is_ascii s1 && is_ascii s2.
Proof. unfold is_ascii. by rewrite chars_append, forallb_app. Qed.

(** What [normalized] makes of ASCII characters. *)
Definition read_ascii (cs : list ascii) : list ascii :=
  map read_as (List.filter (fun c => negb (is_space c || Ascii.eqb c "-")) (map toUpperCase cs)).

Lemma read_plain cs : Forall (fun c => plain c = true) cs -> read_ascii cs = cs /\ forallb (fun c => Nat.ltb (nat_of_ascii c) 128) cs = true.
Proof.
  induction 1 as [|c cs Hc _ [IH1 IH2]]; [done|]. unfold plain in Hc. rewrite !andb_true_iff in Hc. destruct Hc as [[[H1 H2] H3] H4].
  apply Ascii.eqb_eq in H2, H4. unfold read_ascii in *. cbn [map List.filter forallb]. rewrite H1, IH2, H2, H3. cbn [map andb]. by rewrite H4, IH1.
Qed.

Lemma read_ascii_app cs1 cs2 : read_ascii (cs1 ++ cs2) = read_ascii cs1 ++ read_ascii cs2.
Proof. unfold read_ascii. by rewrite map_app, List.filter_app, map_app. Qed.

Lemma read_concat gs : Forall (Forall (fun c => plain c = true)) gs ->
  read_ascii (list_ascii_of_string (String.concat "-" (map string_of_list_ascii gs))) = concat gs /\
  is_ascii (String.concat "-" (map string_of_list_ascii gs)) = true.
Proof.
  induction 1 as [|g gs Hg _ [IH1 IH2]]; [done|]. destruct (read_plain g Hg) as [Hr Ha]. destruct gs as [|g' gs].
  { cbn. unfold is_ascii. by rewrite list_ascii_of_string_of_list_ascii, app_nil_r. }
  change (String.concat "-" (map string_of_list_ascii (g :: g' :: gs))) with
    (string_of_list_ascii g +:+ "-" +:+ String.concat "-" (map string_of_list_ascii (g' :: gs))).
  change (concat (g :: g' :: gs)) with (g ++ concat (g' :: gs)). rewrite !is_ascii_app, IH2. split.
  - rewrite !chars_append, !read_ascii_app, IH1, list_ascii_of_string_of_list_ascii, Hr. done.
  - unfold is_ascii. by rewrite list_ascii_of_string_of_list_ascii, Ha.
Qed.

Lemma groups_concat n cs : (length cs <= n)%nat -> concat (groups_upto4 cs) = cs.
Proof.
  revert cs. induction n as [|n IH]; intros [|a [|b [|c [|d cs]]]] Hn; cbn in *; try done; try lia. by rewrite IH by lia.
Qed.

Lemma groups_plain n cs : (length cs <= n)%nat -> Forall (fun c => plain c = true) cs -> Forall (Forall (fun c => plain c = true)) (groups_upto4 cs).
Proof.
  revert cs. induction n as [|n IH]; intros [|a [|b [|c [|d cs]]]] Hn Hcs; cbn in *; try lia; repeat constructor; rewrite ?Forall_cons in Hcs; try tauto.
  apply IH; [lia|tauto].
Qed.

(** Grouped with dashes, the characters are read as they were. *)
Lemma normalized_grouped cs : Forall (fun c => plain c = true) cs -> normalized (groupsOfFour cs) = cs.
Proof.
  intros Hcs. destruct (read_concat (groups_upto4 cs) (groups_plain _ cs (le_n _) Hcs)) as [Hr Ha].
  unfold normalized, groupsOfFour. rewrite Ha. etransitivity; [exact Hr|]. by apply (groups_concat (length cs)).
Qed.

Lemma parse_spec s b : parseRecoveryCode s = Some b <->
  length b = RECOVERY_CODE_BYTES /\ Forall is_byte b /\ normalized s = normalized (formatRecoveryCode b).
Proof.
  assert (forall ds, Forall is_digit ds -> Forall (fun c => plain c = true) (map crockford_char ds)) as Hplain.
  { intros ds Hds. apply Forall_map. eapply Forall_impl; [exact Hds|]. intros d Hd. by apply crockford_char_digit. }
  unfold parseRecoveryCode, formatRecoveryCode. split.
  - destruct (Nat.eqb_spec (length (normalized s)) RECOVERY_CODE_CHARS) as [Hl|]; [|done]. cbn [negb].
    destruct (mapM digit_of (normalized s)) as [ds|] eqn:Hds; [|done]. apply chars_of_digits in Hds as [Hd Hcs].
    assert (length ds = 8 * 4)%nat as Hld by (rewrite <- Hcs, length_map in Hl; exact Hl).
    cbn [mbind option_bind]. destruct (decode_spec 4 ds 0 [] Hld Hd) as (v & E). unfold bytes in *. rewrite E. intros [= <-].
    destruct (encode_decode 4 ds Hld Hd) as (Hed & Hb & Hlb). split_and!; [done|done|].
    rewrite toCrockford_20, Hed, normalized_grouped by auto. done.
  - intros (Hl & Hb & Hs). destruct (decode_encode 4 b Hl Hb) as (Hde & Hd & Hle).
    rewrite toCrockford_20, normalized_grouped in Hs by auto. rewrite Hs, length_map, Hle, digits_of_chars by done. cbn [Nat.eqb negb mbind option_bind].
    destruct (decode_spec 4 (encode_all b) 0 [] Hle Hd) as (v & E). unfold bytes in *. rewrite E. by rewrite Hde.
Qed.
(** C24. A recovery code is read exactly from its spellings: an input gives the
    twenty bytes [b] if and only if, without its spaces and dashes, in upper
    case and with I, L and O read as digits, it is the text made of them; so the
    text shown to the user is read back, and everything else is refused. *)
Theorem parseRecoveryCode_exact s b : parseRecoveryCode s = Some b <->
  length b = RECOVERY_CODE_BYTES /\ Forall is_byte b /\ normalized s = normalized (formatRecoveryCode b).
Proof. apply parse_spec. Qed.

(** ** Comparing codes *)

Lemma or32_small a b : 0 <= a < 256 -> 0 <= b < 256 -> or32 a b = Z.lor a b /\ 0 <= Z.lor a b < 256.
Proof.
  intros Ha Hb. assert (forall x, 0 <= x < 256 -> to_int32 x = x) as Hi.
  { intros x Hx. unfold to_int32. rewrite to_uint32_mod, Z.mod_small by lia. by rewrite (small_bits x 8) by lia. }
  assert (0 <= Z.lor a b < 256) as Hl.
  { assert (Z.lor a b = Z.lor a b mod 2 ^ 8) as ->; [|by apply Z.mod_pos_bound]. apply Z.bits_inj'. intros n Hn.
    destruct (Z.ltb_spec n 8); [by rewrite Z.mod_pow2_bits_low by lia|]. rewrite Z.mod_pow2_bits_high by lia.
    by rewrite Z.lor_spec, (small_bits a 8 n), (small_bits b 8 n) by lia. }
  split; [|done]. unfold or32. by rewrite (Hi a), (Hi b), Hi.
Qed.

Lemma xor_diff l d : 0 <= d < 256 -> Forall (fun xy => is_byte xy.1 /\ is_byte xy.2) l ->
  foldl (fun diff xy => or32 diff (Z.lxor xy.1 xy.2)) d l = 0 <-> d = 0 /\ Forall (fun xy => xy.1 = xy.2) l.
Proof.
  intros Hd Hl. revert d Hd. induction Hl as [|[x y] l [Hx Hy] _ IH]; intros d Hd; cbn [foldl fst snd].
  { split; [by intros ->|by intros [-> _]]. }
  unfold is_byte in *. cbn [fst snd] in *.
  assert (0 <= Z.lxor x y < 256) as Hxy.
  { assert (Z.lxor x y = Z.lxor x y mod 2 ^ 8) as ->; [|by apply Z.mod_pos_bound]. apply Z.bits_inj'. intros n Hn.
    destruct (Z.ltb_spec n 8); [by rewrite Z.mod_pow2_bits_low by lia|]. rewrite Z.mod_pow2_bits_high by lia.
    by rewrite Z.lxor_spec, (small_bits x 8 n), (small_bits y 8 n) by lia. }
  destruct (or32_small d (Z.lxor x y) Hd Hxy) as [-> Hor]. rewrite (IH _ Hor), Z.lor_eq_0_iff, Z.lxor_eq_0_iff, Forall_cons. cbn. tauto.
Qed.

(** Two inputs match exactly when they are spellings of one code. *)
Theorem recoveryCodesMatch_exact typed expected : recoveryCodesMatch typed expected = true <->
  exists b, parseRecoveryCode typed = Some b /\ parseRecoveryCode expected = Some b.
Proof.
  unfold recoveryCodesMatch. destruct (parseRecoveryCode typed) as [a|] eqn:Ha, (parseRecoveryCode expected) as [b|] eqn:Hb;
    try (split; [done|by intros (? & ? & ?)]).
  apply parse_spec in Ha as (Hla & Hba & _), Hb as (Hlb & Hbb & _). rewrite Z.eqb_eq, xor_diff; [|lia|].
  - split.
    + intros [_ Hall]. exists a. split; [done|]. f_equal. clear -Hall Hla Hlb. assert (length a = length b) as Hl by congruence. clear Hla Hlb.
      revert b Hl Hall. induction a as [|x a IH]; intros [|y b] Hl Hall; cbn in *; try done. rewrite Forall_cons in Hall. destruct Hall as [E Hall]. cbn in E.
      rewrite E. f_equal. apply IH; [lia|done].
    + intros (c & [= ->] & [= ->]). split; [done|]. clear. induction c as [|x c IH]; [constructor|]. by constructor.
  - clear -Hba Hbb. revert b Hbb. induction Hba as [|x a Hx _ IH]; intros [|y b] Hbb; cbn; [constructor|constructor|constructor|].
    rewrite Forall_cons in Hbb. constructor; [split; [done|apply Hbb]|apply IH, Hbb].
Qed.
End codes.

(** ** Keys sent and sealed *)

Section keys.
Context `{CryptoLaws}.

Lemma toB64_fromB64 b : Forall is_byte b -> fromB64 (toB64 b) = Some b.
Proof. intros Hb. unfold toB64. rewrite <- toB64Fallback_encode. by apply fromB64Fallback_toB64Fallback. Qed.

(** The two base64 codecs are one. *)
Lemma toB64_same b : toB64 b = Crypto.toB64 None b.
Proof. unfold toB64. by rewrite <- toB64Fallback_encode. Qed.

Definition envelope_value (nonce ciphertext : bytes) : jsval :=
  JObj [("v", JNum 1); ("alg", JStr "xchacha20poly1305"); ("nonce", JStr (toB64 nonce)); ("ciphertext", JStr (toB64 ciphertext))].

Lemma envelope_parsed nonce ciphertext : JSON_parse (envelope nonce ciphertext) = Some (envelope_value nonce ciphertext).
Proof.
  unfold envelope, envelope_value. apply JSON_parse_stringify. generalize (toB64 nonce), (toB64 ciphertext). intros s1 s2. reflexivity.
Qed.

Lemma envelope_opens key aad nonce ciphertext : Forall is_byte nonce -> Forall is_byte ciphertext ->
  open_v1 key aad (envelope_value nonce ciphertext) = or_unreadable (aead_decrypt key nonce aad ciphertext).
Proof.
  intros Hn Hc. unfold open_v1, envelope_field. replace (jget _ "nonce") with (JStr (toB64 nonce)) by done.
  replace (jget (envelope_value nonce ciphertext) "ciphertext") with (JStr (toB64 ciphertext)) by done. by rewrite !toB64_fromB64.
Qed.

(** What the dashboard derives from a password is what the extension does. *)
Theorem derivations_agree password kdfSaltB64 kdfParams masterKey :
  (deriveMasterKey password kdfSaltB64 kdfParams = inr masterKey <-> Crypto.deriveMasterKey None password kdfSaltB64 kdfParams = inr masterKey) /\
  deriveAuthKey masterKey = Crypto.deriveAuthKey None masterKey /\ deriveKek masterKey = Crypto.deriveKek masterKey.
Proof.
  split; [|split; [apply toB64_same|done]]. unfold deriveMasterKey, Crypto.deriveMasterKey, assertSaneKdfParams, Crypto.assertSaneKdfParams.
  change (fromB64 kdfSaltB64) with (Crypto.fromB64 None kdfSaltB64). destruct (Crypto.fromB64 None kdfSaltB64) as [salt|]; [|done]. cbn [or_unreadable then_].
  destruct (_ && _); cbn [then_]; [|done]. split; by intros [= <-].
Qed.

(** An account key wrapped by the dashboard opens in the extension, and the
    other way round. *)
Theorem wrapped_key_portable nonce kek accountKey : Forall is_byte nonce -> Forall is_byte accountKey ->
  unwrapAccountKey kek (Crypto.wrapAccountKey None nonce kek accountKey) = inr accountKey /\
  Crypto.unwrapAccountKey None kek (wrapAccountKey nonce kek accountKey) = inr accountKey.
Proof.
  intros Hn Hk. assert (Crypto.wrapAccountKey None nonce kek accountKey = wrapAccountKey nonce kek accountKey) as Hw
    by (unfold Crypto.wrapAccountKey, wrapAccountKey, envelope; by rewrite !toB64_same).
  pose proof (aead_bytes kek nonce [] accountKey (Forall_nil_2 _) Hk) as Hc. split.
  - rewrite Hw. unfold unwrapAccountKey, wrapAccountKey. rewrite envelope_parsed. cbn [or_unreadable then_]. by rewrite envelope_opens, aead_opens.
  - unfold Crypto.unwrapAccountKey, wrapAccountKey. rewrite envelope_parsed. unfold open_envelope, envelope_bytes.
    replace (jget _ "nonce") with (JStr (toB64 nonce)) by done.
    replace (jget (envelope_value _ _) "ciphertext") with (JStr (toB64 (aead_encrypt kek nonce [] accountKey))) by done.
    rewrite !toB64_same. cbn [Crypto.fromB64 Crypto.toB64]. by rewrite !fromB64Fallback_toB64Fallback, aead_opens.
Qed.

(** Elliptic-curve Diffie-Hellman: both sides get one secret, and a public key
    is made of bytes. *)
Hypothesis ecdh_agrees : forall a b, ecdh a (ecdh_public b) = ecdh b (ecdh_public a).
Hypothesis ecdh_public_bytes : forall a, Forall is_byte (ecdh_public a).

(** The account key an extension encrypts for a reset request arrives: the
    dashboard that made the request gets it, and any other request id, which is
    all a server that relays the message could change it to, is refused. *)
Theorem approved_key_arrives approver requester nonce accountKey requestId :
  Forall is_byte nonce -> Forall is_byte accountKey ->
  exists sent approverPublicKey,
    encryptAccountKeyForRequest None approver nonce (Crypto.toB64 None accountKey) (toB64 (ecdh_public requester)) requestId = Some (sent, approverPublicKey) /\
    forall requestId', decryptAccountKeyFromApproval requester approverPublicKey sent requestId' =
      if String.eqb requestId' requestId then inr accountKey else inl Unreadable.
Proof.
  intros Hn Hk. set (key := hkdf (ecdh approver (ecdh_public requester)) AUTH_REQUEST_LABEL 256).
  set (ct := aead_encrypt key nonce (utf8_encode requestId) accountKey).
  assert (Forall is_byte ct) as Hct by (apply aead_bytes; [apply utf8_encode_bytes|done]).
  exists (envelope nonce ct), (toB64 (ecdh_public approver)). split.
  - unfold encryptAccountKeyForRequest, authRequestKey. rewrite !toB64_same. cbn [Crypto.fromB64 Crypto.toB64].
    rewrite !fromB64Fallback_toB64Fallback by done. cbn [fmap option_fmap option_map]. unfold envelope. rewrite !toB64_same. done.
  - intros requestId'. unfold decryptAccountKeyFromApproval. rewrite toB64_fromB64, envelope_parsed by done. cbn [or_unreadable then_].
    replace (supported UnsupportedKey (envelope_value nonce ct)) with (inr tt : web_error + unit) by done. cbn [then_].
    rewrite envelope_opens, <- ecdh_agrees by done. fold key. destruct (String.eqb_spec requestId' requestId) as [->|Hne].
    + unfold ct. by rewrite aead_opens.
    + unfold ct. rewrite aead_rejects; [done|]. intros E. by apply utf8_encode_inj in E.
Qed.
End keys.

Section seals.
Context `{TextPlatform} `{CryptoLaws}.

Lemma sealAad_inj email credentialId email' credentialId' :
  str_has (ascii_of_nat 10) credentialId = false -> str_has (ascii_of_nat 10) credentialId' = false ->
  sealAad email credentialId = sealAad email' credentialId' -> folded email = folded email' /\ credentialId = credentialId'.
Proof. intros Hc Hc' E%utf8_encode_inj. by apply (split_last (ascii_of_nat 10)) in E. Qed.

(** A recovery code sealed under a passkey is got back, in its canonical
    spelling, with the same passkey output for the same account and credential,
    however the address was capitalised or spaced, and for no other account or
    credential. *)
Theorem sealed_code_opens nonce prfOutput recoveryCode b email credentialId :
  Forall is_byte nonce -> str_has (ascii_of_nat 10) credentialId = false -> parseRecoveryCode recoveryCode = Some b ->
  exists sealed, sealRecoveryCode nonce prfOutput recoveryCode email credentialId = inr sealed /\
    parseRecoveryCode (formatRecoveryCode b) = Some b /\
    forall email' credentialId', str_has (ascii_of_nat 10) credentialId' = false ->
      unsealRecoveryCode prfOutput sealed email' credentialId' =
        if decide (folded email' = folded email /\ credentialId' = credentialId) then inr (formatRecoveryCode b) else inl Unreadable.
Proof.
  intros Hn Hc Hp. pose proof Hp as (Hl & Hb & _)%parse_spec. unfold sealRecoveryCode. rewrite Hp. eexists. split; [reflexivity|].
  split; [by apply parse_spec|]. intros email' credentialId' Hc'. unfold unsealRecoveryCode. rewrite envelope_parsed. cbn [or_unreadable then_].
  replace (supported UnsupportedSeal (envelope_value _ _)) with (inr tt : web_error + unit) by done. cbn [then_].
  rewrite envelope_opens; [|done|by apply aead_bytes; [apply utf8_encode_bytes|]]. case_decide as Hd.
  - destruct Hd as [He ->]. replace (sealAad email' credentialId) with (sealAad email credentialId) by (unfold sealAad; by rewrite He).
    by rewrite aead_opens.
  - rewrite aead_rejects; [done|]. intros E. apply Hd. apply sealAad_inj in E as [? ?]; done.
Qed.
End seals.

(** ** Evaluated *)

#[local] Instance ascii_platform : TextPlatform := {| normalized_other s := s; folded_other s := s |}.
#[local] Instance marking_lib : CryptoLib := {|
  aead_encrypt _ _ a p := toy_header a ++ p;
  aead_decrypt _ _ a c := if bool_decide (take (length (toy_header a)) c = toy_header a) then Some (drop (length (toy_header a)) c) else None;
  hkdf ikm info bits := ikm;
  sha256 b := b;
  argon2id password salt t m p := salt;
  ecdh a p := [foldr Z.add 0 a mod 256 * foldr Z.add 0 p];
  ecdh_public a := [foldr Z.add 0 a mod 256];
|}.
#[local] Instance marking_cipher : CryptoLaws.
Proof. split; [apply toy_opens|apply toy_rejects|apply toy_bytes]. Qed.

Definition some_bytes (n : nat) : bytes := map (fun i => Z.of_nat (i * 37) mod 256) (seq 1 n).

(** Read back from the text shown, and from what a user may type for it. *)
Example ex_code : formatRecoveryCode (some_bytes 20) = "4N56-Z55S-VR1J-GKBJ-JYYE-21HB-A1TS-NFZ4" /\
  parseRecoveryCode "4n56 z55s vrij gkbj-jyye-2lhb-aits-nfz4" = Some (some_bytes 20) /\
  parseRecoveryCode "4N56-Z55S-VR1J-GKBJ-JYYE-21HB-A1TS-NFZU" = None.
Proof. vm_compute. done. Qed.

Lemma some_bytes_ok n : Forall is_byte (some_bytes n).
Proof. apply Forall_map, Forall_true. intros i. unfold is_byte. apply Z.mod_pos_bound. lia. Qed.

Lemma approved_key_arrives_witness :
  exists sent approverPublicKey,
    encryptAccountKeyForRequest None [5; 6] (some_bytes 24) (Crypto.toB64 None (some_bytes 32)) (toB64 (ecdh_public [7])) "request" = Some (sent, approverPublicKey) /\
    decryptAccountKeyFromApproval [7] approverPublicKey sent "request" = inr (some_bytes 32) /\
    decryptAccountKeyFromApproval [7] approverPublicKey sent "another" = inl Unreadable.
Proof.
  destruct (approved_key_arrives) with (approver := [5; 6]) (requester := [7]) (nonce := some_bytes 24) (accountKey := some_bytes 32) (requestId := "request")
    as (sent & pub & E & Hd).
  - intros a b. cbn. f_equal. rewrite !Z.add_0_r. apply Z.mul_comm.
  - intros a. constructor; [apply Z.mod_pos_bound; lia|constructor].
  - apply some_bytes_ok.
  - apply some_bytes_ok.
  - exists sent, pub. split; [exact E|]. split; [exact (Hd "request")|exact (Hd "another")].
Defined.

Lemma sealed_code_opens_witness :
  exists sealed, sealRecoveryCode (some_bytes 24) [1] "4N56-Z55S-VR1J-GKBJ-JYYE-21HB-A1TS-NFZ4" "Ann@Example.org" "credential" = inr sealed /\
    unsealRecoveryCode [1] sealed " ann@example.org" "credential" = inr (formatRecoveryCode (some_bytes 20)) /\
    unsealRecoveryCode [1] sealed "ann@example.org" "other" = inl Unreadable.
Proof.
  destruct (sealed_code_opens (some_bytes 24) [1] "4N56-Z55S-VR1J-GKBJ-JYYE-21HB-A1TS-NFZ4" (some_bytes 20) "Ann@Example.org" "credential")
    as (sealed & E & _ & Hu).
  - apply some_bytes_ok.
  - reflexivity.
  - vm_compute. reflexivity.
  - exists sealed. split; [exact E|]. split; [rewrite (Hu " ann@example.org" "credential") by reflexivity; by rewrite decide_True by done|].
    rewrite (Hu "ann@example.org" "other") by reflexivity. rewrite decide_False; [done|]. by intros [_ ?].
Defined.
