(* ===== verification/WebPasskey.v ===== *)
(** * The recovery code under a passkey (web/src/passkey/index.ts)

    The record kept in the browser, the rescue file, and sealing and unsealing
    with what the authenticator gives. The authenticator itself is the
    browser's: it is the fields of [Authenticator]. *)

From S2P Require Import Prelude JsMap Types Util Json Storage StorageFacts Crypto CryptoFacts WebCrypto.

Open Scope Z_scope.
Open Scope js_scope.

(** ** Errors *)

(** [name] and [message] of what WebAuthn rejects with. *)
Record DomError := mkDomError { de_name : string; de_message : string }.

Inductive passkey_error :=
  | LocalizedError (key : string)
  | Rejected (e : DomError)
  | CodeFailed (e : web_error).

Definition passkeyError (err : DomError) : passkey_error :=
  if String.eqb (de_name err) "NotAllowedError" then LocalizedError "errors.passkeyCancelled"
  else if String.eqb (de_name err) "InvalidStateError" then LocalizedError "errors.passkeyExists"
  else if String.eqb (de_name err) "NotSupportedError" then LocalizedError "errors.passkeyNotSupported"
  else if String.eqb (de_name err) "SecurityError" then LocalizedError "errors.passkeyInsecure"
  else if String.eqb (de_name err) "AbortError" then LocalizedError "errors.passkeyAborted"
  else if negb (String.eqb (de_message err) "") then Rejected err
  else LocalizedError "errors.passkeyUnused".

Definition ceremony {A} (r : DomError + A) : passkey_error + A := match r with inr a => inr a | inl err => inl (passkeyError err) end.
Definition of_web {A} (r : web_error + A) : passkey_error + A := match r with inr a => inr a | inl e => inl (CodeFailed e) end.
Definition chain {A B} (r : passkey_error + A) (f : A -> passkey_error + B) : passkey_error + B := match r with inr a => f a | inl e => inl e end.

(** ** Whether to offer passkeys *)

Record Browser := mkBrowser {
  br_secure : bool;                     (** a window, in a secure context *)
  br_webauthn : bool;                   (** [PublicKeyCredential] and [navigator.credentials] *)
  br_capabilities : option (option jsval);  (** of [getClientCapabilities], where there is one; [None] where it rejects *)
}.

Definition nullish (v w : jsval) : jsval := match v with JUndef | JNull => w | _ => v end.

Definition passkeySupported (b : Browser) : bool :=
  br_secure b && br_webauthn b &&
  match br_capabilities b with
  | None => true
  | Some None => true
  | Some (Some caps) => match nullish (jget caps "extension:prf") (jget caps "prf") with JBool false => false | _ => true end
  end.

(** ** The record *)

Definition RECORD_FIELDS : list string := ["email"; "serverUrl"; "credentialId"; "prfSalt"; "sealed"; "createdAt"].

Definition isRecord (value : jsval) : bool :=
  match value with
  | JObj _ | JArr _ =>
      js_eq_num (jget value "v") 1 &&
      forallb (fun k => match jget value k with JStr s => negb (String.eqb s "") | _ => false end) RECORD_FIELDS
  | _ => false
  end.

Definition parseRescueFile (text : string) : passkey_error + jsval :=
  match JSON_parse text with
  | Some value => if isRecord value then inr value else inl (LocalizedError "errors.rescueInvalid")
  | None => inl (LocalizedError "errors.rescueInvalid")
  end.

(** [localStorage]'s item; [None] when storage is blocked. *)
Definition LocalItem : Type := option (option string).

(** [Object.entries]; [None] where it throws. An index is never an address. *)
Definition entries_of (v : jsval) : option (list (string * jsval)) :=
  match v with
  | JObj fs => Some fs
  | JUndef | JNull => None
  | JArr l => Some (imap (fun i x => (json_num (Z.of_nat i), x)) l)
  | _ => Some []
  end.

Definition readAll (item : LocalItem) : jmap string jsval :=
  match item with
  | None => []
  | Some text =>
      match JSON_parse (default "{}" text) ≫= entries_of with
      | None => []
      | Some fs => foldl (fun out kv => if isRecord kv.2 then jm_set out kv.1 kv.2 else out) [] fs
      end
  end.

Section text.
Context `{TextPlatform}.

(** The names every object inherits are no addresses. *)
Definition loadPasskeyRecord (email : string) (item : LocalItem) : option jsval := jm_get (readAll item) (folded email).

Definition record_str (record : jsval) (k : string) : string := default "" (as_string (jget record k)).

(** [full]: the browser refuses to keep more. *)
Definition savePasskeyRecord (full : bool) (record : jsval) (item : LocalItem) : LocalItem :=
  let all := jm_set (readAll item) (folded (record_str record "email")) record in
  match item with
  | None => None
  | Some _ => if full then item else Some (Some (JSON_stringify (JObj all)))
  end.

(** ** The authenticator *)

Record Created := mkCreated {
  cr_rawId : bytes;
  cr_enabled : option bool;             (** [prf.enabled] *)
  cr_first : option bytes;              (** [prf.results.first] *)
}.

(** [pk_get]: the PRF output for a credential and a salt, after a prompt. *)
Class Authenticator := {
  pk_get : bytes -> bytes -> DomError + option bytes;
  pk_create : string -> DomError + option Created;
}.

Context `{CryptoLib} `{Authenticator}.

Definition bytes_of (s : string) : passkey_error + bytes := of_web (or_unreadable (fromB64 s)).

Definition getPasskeyPrf (credentialId prfSalt : string) : passkey_error + bytes :=
  chain (bytes_of credentialId) (fun id =>
  chain (bytes_of prfSalt) (fun salt =>
  chain (ceremony (pk_get id salt)) (fun first =>
  match first with Some prf => inr prf | None => inl (LocalizedError "errors.passkeyNoSecret") end))).

(** The credential's id, the salt and the PRF output. *)
Definition createPasskey (salt : bytes) (email : string) : passkey_error + (string * string * bytes) :=
  let prfSalt := toB64 salt in
  chain (ceremony (pk_create email)) (fun credential =>
  match credential with
  | None => inl (LocalizedError "errors.passkeyNotCreated")
  | Some c =>
      match cr_enabled c with
      | Some false => inl (LocalizedError "errors.passkeyNoPrf")
      | _ =>
          let credentialId := toB64 (cr_rawId c) in
          match cr_first c with
          | Some prfOutput => inr (credentialId, prfSalt, prfOutput)
          | None => chain (getPasskeyPrf credentialId prfSalt) (fun prfOutput => inr (credentialId, prfSalt, prfOutput))
          end
      end
  end).

Definition sealWithNewPasskey (salt nonce : bytes) (origin now email code : string) : passkey_error + jsval :=
  chain (createPasskey salt email) (fun '(credentialId, prfSalt, prfOutput) =>
  chain (of_web (sealRecoveryCode nonce prfOutput code email credentialId)) (fun sealed =>
  inr (JObj [("v", JNum 1); ("email", JStr (folded email)); ("serverUrl", JStr origin); ("credentialId", JStr credentialId);
             ("prfSalt", JStr prfSalt); ("sealed", JStr sealed); ("createdAt", JStr now)]))).

Definition with_field (record : jsval) (k : string) (v : jsval) : jsval := match record with JObj fs => JObj (jm_set fs k v) | _ => record end.

Definition resealWithPasskey (nonce : bytes) (now : string) (record : jsval) (code : string) : passkey_error + jsval :=
  chain (getPasskeyPrf (record_str record "credentialId") (record_str record "prfSalt")) (fun prfOutput =>
  chain (of_web (sealRecoveryCode nonce prfOutput code (record_str record "email") (record_str record "credentialId"))) (fun sealed =>
  inr (with_field (with_field record "sealed" (JStr sealed)) "createdAt" (JStr now)))).

Definition unsealWithPasskey (record : jsval) : passkey_error + string :=
  chain (getPasskeyPrf (record_str record "credentialId") (record_str record "prfSalt")) (fun prfOutput =>
  of_web (unsealRecoveryCode prfOutput (record_str record "sealed") (record_str record "email") (record_str record "credentialId"))).
End text.

(** ** The browser's copy *)

Section records.
Context `{TextPlatform}.

(** The item is one this browser can have written. *)
Definition local_ok (item : LocalItem) : Prop :=
  forall text, item = Some (Some text) -> exists v, JSON_parse text = Some v /\ json_clean v = true.

Definition clean_records (m : jmap string jsval) : Prop := jm_wf m /\ Forall (fun kv => json_clean kv.2 = true /\ isRecord kv.2 = true) m.

Lemma forallb_Forall {A} (f : A -> bool) l : forallb f l = true <-> Forall (fun x => f x = true) l.
Proof. rewrite forallb_forall, Forall_forall. by setoid_rewrite list_elem_of_In. Qed.

Lemma clean_records_set m k v : clean_records m -> json_clean v = true -> isRecord v = true -> clean_records (jm_set m k v).
Proof.
  intros [Hwf Hm] Hv Hr. split; [by apply jm_set_wf|]. clear Hwf. induction Hm as [|[k' v'] m Hkv Hm IH]; cbn; [by constructor|].
  case_decide; by constructor.
Qed.

Lemma keep_records_clean fs out : clean_records out -> Forall (fun kv => json_clean kv.2 = true) fs ->
  clean_records (foldl (fun out kv => if isRecord kv.2 then jm_set out kv.1 kv.2 else out) out fs).
Proof.
  intros Hout Hfs. revert out Hout. induction Hfs as [|[k v] fs Hv _ IH]; intros out Hout; [done|]. cbn [foldl fst snd].
  apply IH. destruct (isRecord v) eqn:E; [by apply clean_records_set|done].
Qed.

Lemma keep_records m fs : clean_records (m ++ fs) -> foldl (fun out kv => if isRecord kv.2 then jm_set out kv.1 kv.2 else out) m fs = m ++ fs.
Proof.
  revert m. induction fs as [|[k v] fs IH]; intros m Hm; [by rewrite app_nil_r|]. cbn [foldl fst snd].
  destruct Hm as [Hwf Hall]. pose proof Hall as [_ [[_ Hr] _]%Forall_cons]%Forall_app. cbn [snd] in Hr. rewrite Hr, jm_set_fresh.
  - rewrite IH; rewrite <- app_assoc; [done|by split].
  - unfold jm_wf, jm_keys in Hwf. rewrite fmap_app in Hwf. apply NoDup_app in Hwf as (_ & Hd & _). intros Hk. apply (Hd k Hk). left.
Qed.

Lemma readAll_clean item : local_ok item -> clean_records (readAll item).
Proof.
  intros Hok. unfold readAll. destruct item as [text|]; [|by split; constructor].
  assert (forall v, json_clean v = true -> match entries_of v with None => True | Some fs => Forall (fun kv => json_clean kv.2 = true) fs end) as He.
  { intros [| | | | |l|fs]; cbn; try done.
    - intros Hl%forallb_Forall. apply Forall_lookup. intros i [k x] Hi. apply list_lookup_imap_Some in Hi as (y & Hy & [= _ ->]).
      rewrite Forall_lookup in Hl. by apply (Hl i).
    - by intros [_ Hf%forallb_Forall]%andb_true_iff. }
  destruct text as [text|].
  - change (default "{}" (Some text)) with text. destruct (Hok text eq_refl) as (v & -> & Hv). cbn. specialize (He v Hv). destruct (entries_of v); [|by split; constructor].
    apply keep_records_clean; [by split; constructor|done].
  - by split; constructor.
Qed.

Lemma stored_reads all : clean_records all -> readAll (Some (Some (JSON_stringify (JObj all)))) = all /\ local_ok (Some (Some (JSON_stringify (JObj all)))).
Proof.
  intros Hall. assert (json_clean (JObj all) = true) as Hc.
  { cbn. apply andb_true_iff. split; [apply bool_decide_eq_true, Hall|]. apply forallb_Forall. destruct Hall as [_ Hall].
    eapply Forall_impl; [exact Hall|]. by intros kv [Hkv _]. }
  split.
  - unfold readAll. change (default "{}" (Some (JSON_stringify (JObj all)))) with (JSON_stringify (JObj all)). rewrite JSON_parse_stringify by done. cbn [mbind option_bind entries_of]. by apply (keep_records []).
  - intros text [= <-]. exists (JObj all). split; [exact (JSON_parse_stringify (JObj all) Hc)|done].
Qed.

(** A saved record is found under every spelling of its address, and the
    others are kept; a browser that keeps nothing changes nothing. *)
Theorem savePasskeyRecord_exact full record item email : local_ok item -> json_clean record = true -> isRecord record = true ->
  local_ok (savePasskeyRecord full record item) /\
  loadPasskeyRecord email (savePasskeyRecord full record item) =
    if decide (item <> None /\ full = false /\ folded email = folded (record_str record "email")) then Some record else loadPasskeyRecord email item.
Proof.
  intros Hok Hc Hr. unfold savePasskeyRecord. cbv zeta. destruct item as [text|]; [|split; [done|by rewrite decide_False by naive_solver]].
  destruct full; [split; [done|by rewrite decide_False by naive_solver]|].
  destruct (stored_reads (jm_set (readAll (Some text)) (folded (record_str record "email")) record)) as [Hread Hok'];
    [by apply clean_records_set; [apply readAll_clean|..]|]. split; [done|].
  unfold loadPasskeyRecord. rewrite Hread, jm_get_set. case_decide as E; [rewrite decide_True by done|rewrite decide_False by naive_solver]; done.
Qed.
End records.

(** ** Sealing and unsealing *)

Section passkeys.
Context `{TextPlatform} `{CryptoLaws} `{Authenticator}.

Lemma toB64_one_line b : Forall is_byte b -> str_has (ascii_of_nat 10) (toB64 b) = false.
Proof.
  intros Hb. unfold toB64. rewrite base64UrlEncode_sextets by done. pose proof (sextets_range b Hb) as Hs.
  induction Hs as [|n sx Hn _ IH]; [done|]. cbn [map string_of_list_ascii str_has]. rewrite IH, orb_false_r.
  apply negb_true_iff, (sextet_ind (fun n => negb (Ascii.eqb (ascii_of_nat 10) (url_char (b64_char n))))); [vm_compute; reflexivity|done].
Qed.

Lemma toB64_nonempty b : b <> [] -> Forall is_byte b -> String.eqb (toB64 b) "" = false.
Proof.
  intros Hne Hb. unfold toB64. rewrite base64UrlEncode_sextets by done. apply String.eqb_neq. by destruct b as [|x [|y [|z b]]].
Qed.

Lemma getPasskeyPrf_gives id salt prf : Forall is_byte id -> Forall is_byte salt -> pk_get id salt = inr (Some prf) ->
  getPasskeyPrf (toB64 id) (toB64 salt) = inr prf.
Proof. intros Hi Hs Hg. unfold getPasskeyPrf, bytes_of. rewrite !toB64_fromB64 by done. cbn [or_unreadable of_web chain]. by rewrite Hg. Qed.

(** The record of a passkey. *)
Definition passkey_record (id salt : bytes) (origin now email sealed : string) : jsval :=
  JObj [("v", JNum 1); ("email", JStr email); ("serverUrl", JStr origin); ("credentialId", JStr (toB64 id));
        ("prfSalt", JStr (toB64 salt)); ("sealed", JStr sealed); ("createdAt", JStr now)].

Lemma passkey_record_unseals id salt prf origin now email sealed code : Forall is_byte id -> Forall is_byte salt -> pk_get id salt = inr (Some prf) ->
  unsealRecoveryCode prf sealed email (toB64 id) = inr code -> unsealWithPasskey (passkey_record id salt origin now email sealed) = inr code.
Proof.
  intros Hi Hs Hg Hu. unfold unsealWithPasskey. change (record_str (passkey_record _ _ _ _ _ _) "credentialId") with (toB64 id).
  change (record_str (passkey_record _ _ _ _ _ _) "prfSalt") with (toB64 salt). rewrite (getPasskeyPrf_gives id salt prf) by done.
  cbn [chain]. change (of_web (unsealRecoveryCode prf sealed email (toB64 id)) = inr code). by rewrite Hu.
Qed.

Lemma sealed_nonempty nonce prf code email id sealed : sealRecoveryCode nonce prf code email id = inr sealed -> String.eqb sealed "" = false.
Proof. unfold sealRecoveryCode. destruct (parseRecoveryCode code); [|done]. intros [= <-]. done. Qed.

(** C40. A recovery code sealed under a new passkey is not lost: the record is
    one the rescue file's reader and the browser's storage take back, whatever
    the spelling of the address, and it unseals, with the same passkey, to the
    code in its canonical spelling; sealing a later code under the same record
    makes it unseal to that one. *)
Theorem passkey_returns_code salt nonce origin now email code b id enabled first prf :
  folded (folded email) = folded email -> folded email <> "" -> origin <> "" -> now <> "" ->
  id <> [] -> salt <> [] -> Forall is_byte id -> Forall is_byte salt -> Forall is_byte nonce ->
  parseRecoveryCode code = Some b ->
  pk_create email = inr (Some (mkCreated id enabled first)) -> enabled <> Some false ->
  pk_get id salt = inr (Some prf) -> first = None \/ first = Some prf ->
  exists record, sealWithNewPasskey salt nonce origin now email code = inr record /\
    parseRescueFile (JSON_stringify record) = inr record /\
    (forall item email', local_ok item -> item <> None -> folded email' = folded email ->
      loadPasskeyRecord email' (savePasskeyRecord false record item) = Some record) /\
    unsealWithPasskey record = inr (formatRecoveryCode b) /\
    (forall nonce' now' code' b', Forall is_byte nonce' -> parseRecoveryCode code' = Some b' ->
      exists record', resealWithPasskey nonce' now' record code' = inr record' /\ unsealWithPasskey record' = inr (formatRecoveryCode b')).
Proof.
  intros Hfold Hemail Horigin Hnow Hid Hsalt Hidb Hsaltb Hnonce Hcode Hcreate Henabled Hget Hfirst.
  pose proof (toB64_one_line id Hidb) as Hline.
  destruct (sealed_code_opens nonce prf code b email (toB64 id) Hnonce Hline Hcode) as (sealed & Hseal & _ & Hopen).
  assert (createPasskey salt email = inr (toB64 id, toB64 salt, prf)) as Hcp.
  { unfold createPasskey. rewrite Hcreate. cbn [ceremony chain cr_enabled cr_first cr_rawId]. destruct enabled as [[]|]; [|done|];
      (destruct Hfirst as [->| ->]; [by rewrite (getPasskeyPrf_gives id salt prf)|done]). }
  exists (passkey_record id salt origin now (folded email) sealed).
  assert (isRecord (passkey_record id salt origin now (folded email) sealed) = true) as Hrec.
  { change (true && (negb (folded email =? "") && (negb (origin =? "") && (negb (toB64 id =? "") && (negb (toB64 salt =? "") &&
      (negb (sealed =? "") && (negb (now =? "") && true)))))) = true)%string.
    rewrite (proj2 (String.eqb_neq _ _) Hemail), (proj2 (String.eqb_neq _ _) Horigin), (proj2 (String.eqb_neq _ _) Hnow).
    by rewrite !toB64_nonempty, (sealed_nonempty _ _ _ _ _ _ Hseal) by done. }
  assert (json_clean (passkey_record id salt origin now (folded email) sealed) = true) as Hclean by reflexivity.
  split; [unfold sealWithNewPasskey; rewrite Hcp; cbn [chain]; by rewrite Hseal|].
  split; [unfold parseRescueFile; by rewrite JSON_parse_stringify, Hrec|].
  split; [|split].
  - intros item email' Hok Hitem He. destruct (savePasskeyRecord_exact false _ item email' Hok Hclean Hrec) as [_ ->].
    apply decide_True. split_and!; [done|done|]. change (record_str _ "email") with (folded email). congruence.
  - eapply passkey_record_unseals; [done|done|done|]. rewrite Hopen by done. by rewrite decide_True.
  - intros nonce' now' code' b' Hnonce' Hcode'.
    destruct (sealed_code_opens nonce' prf code' b' (folded email) (toB64 id) Hnonce' Hline Hcode') as (sealed' & Hseal' & _ & Hopen').
    exists (passkey_record id salt origin now' (folded email) sealed'). split.
    + unfold resealWithPasskey. change (record_str (passkey_record _ _ _ _ _ _) "credentialId") with (toB64 id).
      change (record_str (passkey_record _ _ _ _ _ _) "prfSalt") with (toB64 salt). rewrite (getPasskeyPrf_gives id salt prf) by done.
      cbn [chain]. change (record_str (passkey_record _ _ _ _ _ _) "email") with (folded email). by rewrite Hseal'.
    + eapply passkey_record_unseals; [done|done|done|]. rewrite Hopen' by done. by rewrite decide_True.
Qed.
End passkeys.

(** ** Evaluated *)

#[local] Existing Instances ascii_platform marking_lib marking_cipher.
(** An authenticator that says nothing of its secret when it is enrolled. *)
#[local] Instance example_authenticator : Authenticator := {|
  pk_get id salt := inr (Some (id ++ salt));
  pk_create _ := inr (Some (mkCreated (some_bytes 16) None None));
|}.

Definition ex_record : passkey_error + jsval :=
  sealWithNewPasskey (some_bytes 32) (some_bytes 24) "https://sync.example.org" "2026-11-05T10:00:00.000Z" " Ann@example.org" "4n56 z55s vrij gkbj-jyye-2lhb-aits-nfz4".

(** A file that is not a record is refused, and so is a cancelled prompt. *)
Example ex_refused : parseRescueFile "[]" = inl (LocalizedError "errors.rescueInvalid") /\
  passkeyError (mkDomError "NotAllowedError" "cancelled") = LocalizedError "errors.passkeyCancelled" /\
  loadPasskeyRecord "ann@example.org" None = None.
Proof. vm_compute. done. Qed.

Lemma passkey_returns_code_witness : exists record, ex_record = inr record /\
  loadPasskeyRecord "ANN@example.org" (savePasskeyRecord false record (Some None)) = Some record /\
  unsealWithPasskey record = inr (formatRecoveryCode (some_bytes 20)).
Proof.
  destruct (passkey_returns_code (some_bytes 32) (some_bytes 24) "https://sync.example.org" "2026-11-05T10:00:00.000Z" " Ann@example.org"
    "4n56 z55s vrij gkbj-jyye-2lhb-aits-nfz4" (some_bytes 20) (some_bytes 16) None None (some_bytes 16 ++ some_bytes 32))
    as (record & E & _ & Hload & Hu & _);
    [vm_compute; reflexivity|vm_compute; discriminate|discriminate|discriminate|discriminate|discriminate|apply some_bytes_ok|apply some_bytes_ok|apply some_bytes_ok|
     vm_compute; reflexivity|reflexivity|discriminate|reflexivity|by left|].
  exists record. split; [exact E|]. split; [apply Hload; [discriminate|discriminate|vm_compute; reflexivity]|exact Hu].
Defined.
