(* ===== verification/WebClient.v ===== *)
(** * The dashboard's API client (web/src/api/client.ts)

    Every call is a program: a tree of the requests it sends and of its reads
    and writes of the page's CSRF token, each with what follows. Random bytes
    are arguments, in the order they are drawn. A request's body is the value
    it is made of, and what the JSON answers hold is read as it comes; fields
    declared as strings are read as strings. *)

From S2P Require Import Prelude JsMap Types Util Json Storage StorageFacts Crypto CryptoFacts ApiClient WebCrypto.

Open Scope Z_scope.
Open Scope js_scope.

(** ** Requests and errors *)

(** Sent with the session's cookies. *)
Record WebRequest := mkWebRequest {
  wr_path : string;
  wr_method : string;
  wr_headers : jmap string string;
  wr_body : option jsval;
}.

Inductive client_error :=
  | ApiError (message : string) (status : Z) (code : jsval)
  | CryptoFailed (e : web_error)
  | TypeFailed.                         (** a [TypeError] or [SyntaxError], a failed [fetch] included *)

Inductive wprog (A : Type) : Type :=
  | Done (a : A)
  | Fails (e : client_error)
  | Fetch (r : WebRequest) (k : option Response -> wprog A)
  | GetCsrf (k : jsval -> wprog A)
  | SetCsrf (v : jsval) (k : wprog A).
#[global] Arguments Done {A}. #[global] Arguments Fails {A}. #[global] Arguments Fetch {A}.
#[global] Arguments GetCsrf {A}. #[global] Arguments SetCsrf {A}.

Fixpoint wbind {A B} (m : wprog A) (f : A -> wprog B) : wprog B :=
  match m with
  | Done a => f a
  | Fails e => Fails e
  | Fetch r k => Fetch r (fun o => wbind (k o) f)
  | GetCsrf k => GetCsrf (fun v => wbind (k v) f)
  | SetCsrf v k => SetCsrf v (wbind k f)
  end.

Notation "'wait' x ':=' m 'in' k" := (wbind m (fun x => k))
  (at level 10, x name, m at level 100, k at level 200) : js_scope.
Notation "'wait_' m 'in' k" := (wbind m (fun _ => k))
  (at level 10, m at level 100, k at level 200) : js_scope.

Definition of_crypto {A} (r : web_error + A) : wprog A := match r with inr a => Done a | inl e => Fails (CryptoFailed e) end.
Definition of_option {A} (e : web_error) (o : option A) : wprog A := match o with Some a => Done a | None => Fails (CryptoFailed e) end.

(** [v.k], which throws on [undefined] and [null]. *)
Definition field (v : jsval) (k : string) : wprog jsval :=
  match v with JUndef | JNull => Fails TypeFailed | _ => Done (jget v k) end.

(** What a template literal or an error's message makes of a value. *)
Definition text_of (v : jsval) : string := match v with JStr s => s | v => JSON_stringify v end.

Definition setCsrfToken (token : jsval) : wprog unit := SetCsrf token (Done tt).

(** [{ method, headers, body: JSON.stringify(body) }] *)
Record Init := mkInit { in_method : option string; in_headers : jmap string string; in_body : option jsval }.
Definition POST (body : jsval) : Init := mkInit (Some "POST") [] (Some body).
Definition PATCH (body : jsval) : Init := mkInit (Some "PATCH") [] (Some body).

Definition upper (s : string) : string := string_of_list_ascii (map toUpperCase (list_ascii_of_string s)).

Section client.
Context `{TextPlatform} `{CryptoLib} (API_BASE : string).

(** From the outcome of [fetch]. *)
Definition received (outcome : option Response) : wprog jsval :=
  match outcome with
  | None => Fails TypeFailed
  | Some res =>
      if negb (res_ok res) then
        match default (JObj []) (rs_body res) with
        | JNull => Fails TypeFailed
        | body =>
            let message := match jget body "message" with
              | JUndef | JNull => "request failed (" +:+ json_num (rs_status res) +:+ ")"
              | v => text_of v
              end in
            Fails (ApiError message (rs_status res) (jget body "error"))
        end
      else if rs_status res =? 204 then Done JUndef
      else match rs_body res with Some body => Done body | None => Fails TypeFailed end
  end.

Definition request (path : string) (init : Init) : wprog jsval :=
  let method := upper (default "GET" (in_method init)) in
  GetCsrf (fun csrfToken =>
  let headers := if in_body init is Some _ then jm_set (in_headers init) "Content-Type" "application/json" else in_headers init in
  let headers := if negb (String.eqb method "GET") && truthy csrfToken then jm_set headers "X-CSRF-Token" (text_of csrfToken) else headers in
  Fetch (mkWebRequest (API_BASE +:+ path) method headers (in_body init)) received).

Definition get (path : string) : wprog jsval := request path (mkInit None [] None).

(** ** Keys from what the server keeps *)

Definition integer_of (v : jsval) : Z := match v with JNum n => n | _ => 0 end.
(** What is not an integer is out of bounds, like 0. *)
Definition kdf_of (v : jsval) : KdfParams := mkKdfParams (integer_of (jget v "m")) (integer_of (jget v "t")) (integer_of (jget v "p")).
Definition kdf_jsval (k : KdfParams) : jsval := JObj [("m", JNum (kdf_m k)); ("t", JNum (kdf_t k)); ("p", JNum (kdf_p k))].

Definition master_from (password : string) (kdfSalt kdfParams : jsval) : wprog bytes :=
  match kdfSalt with
  | JStr salt =>
      match fromB64 salt, kdfParams with
      | Some _, JUndef | Some _, JNull => Fails TypeFailed
      | _, _ => of_crypto (deriveMasterKey password salt (kdf_of kdfParams))
      end
  | _ => Fails TypeFailed
  end.

Definition unwrap_from (kek : bytes) (wrapped : jsval) : web_error + bytes :=
  match wrapped with JStr s => unwrapAccountKey kek s | _ => inl Unreadable end.

(** ** Signing in *)

Definition prelogin (email : string) : wprog jsval :=
  request "/api/v1/auth/prelogin" (POST (JObj [("email", JStr email)])).

(** The user and the CSRF token. *)
Definition signed_in (result : jsval) : wprog (jsval * jsval) :=
  wait csrfToken := field result "csrfToken" in
  wait_ setCsrfToken csrfToken in
  wait user := field result "user" in
  Done (user, csrfToken).

Definition login (email password : string) : wprog (jsval * jsval) :=
  wait pre := prelogin email in
  wait kdfSalt := field pre "kdfSalt" in
  wait kdfParams := field pre "kdfParams" in
  wait masterKey := master_from password kdfSalt kdfParams in
  let authKey := deriveAuthKey masterKey in
  wait result := request "/api/v1/auth/login" (POST (JObj [("email", JStr email); ("authKey", JStr authKey)])) in
  signed_in result.

(** A new code's bytes and the nonce of its wrap. *)
Record CodeRandom := mkCodeRandom { cr_code : bytes; cr_nonce : bytes }.
Record RecoveryCode := mkRecoveryCode { rc_code : string; rc_authKey : string; rc_wrappedAk : string }.

Definition newRecoveryCode (rnd : CodeRandom) (accountKey : bytes) : wprog RecoveryCode :=
  let code := generateRecoveryCode (cr_code rnd) in
  wait parsed := of_option CodeRejected (parseRecoveryCode code) in
  let '(authKey, kek) := deriveRecoveryKeys parsed in
  Done (mkRecoveryCode code authKey (wrapAccountKey (cr_nonce rnd) kek accountKey)).

Definition generateKdfSalt (random : bytes) : string := toB64 random.

(** What a password gives for an account key: [salt] and [nonce] are random. *)
Record PasswordWrap := mkPasswordWrap { pw_authKey : string; pw_kdfSalt : string; pw_kdfParams : KdfParams; pw_wrappedAk : string }.

Definition wrap_under (salt nonce : bytes) (password : string) (accountKey : bytes) : wprog PasswordWrap :=
  let kdfSalt := generateKdfSalt salt in
  wait masterKey := of_crypto (deriveMasterKey password kdfSalt DEFAULT_KDF_PARAMS) in
  Done (mkPasswordWrap (deriveAuthKey masterKey) kdfSalt DEFAULT_KDF_PARAMS (wrapAccountKey nonce (deriveKek masterKey) accountKey)).

(** The salt, the account key, the nonce of its wrap and the code's. *)
Definition register (salt accountKey nonce : bytes) (rnd : CodeRandom) (email password : string) : wprog (jsval * jsval * string) :=
  wait w := wrap_under salt nonce password accountKey in
  wait recovery := newRecoveryCode rnd accountKey in
  wait result := request "/api/v1/auth/register" (POST (JObj [
    ("email", JStr email); ("authKey", JStr (pw_authKey w)); ("kdfSalt", JStr (pw_kdfSalt w));
    ("kdfParams", kdf_jsval (pw_kdfParams w)); ("wrappedAk", JStr (pw_wrappedAk w));
    ("recoveryAuthKey", JStr (rc_authKey recovery)); ("recoveryWrappedAk", JStr (rc_wrappedAk recovery))])) in
  wait session := signed_in result in
  Done (session, rc_code recovery).

(** ** Resets *)

(** The fields both resets send. *)
Definition reset_fields (w : PasswordWrap) (next : RecoveryCode) : list (string * jsval) :=
  [("newAuthKey", JStr (pw_authKey w)); ("newKdfSalt", JStr (pw_kdfSalt w)); ("newKdfParams", kdf_jsval (pw_kdfParams w));
   ("newWrappedAk", JStr (pw_wrappedAk w)); ("newRecoveryAuthKey", JStr (rc_authKey next));
   ("newRecoveryWrappedAk", JStr (rc_wrappedAk next))].

Definition recoverAccount (salt nonce : bytes) (rnd : CodeRandom) (email recoveryCode newPassword : string) : wprog string :=
  wait parsed := of_option CodeRejected (parseRecoveryCode recoveryCode) in
  let '(recoveryAuthKey, recoveryKek) := deriveRecoveryKeys parsed in
  wait prepared := request "/api/v1/auth/recover/prepare"
    (POST (JObj [("email", JStr email); ("recoveryAuthKey", JStr recoveryAuthKey)])) in
  wait recoveryWrappedAk := field prepared "recoveryWrappedAk" in
  wait accountKey := of_crypto (unwrap_from recoveryKek recoveryWrappedAk) in
  wait w := wrap_under salt nonce newPassword accountKey in
  wait next := newRecoveryCode rnd accountKey in
  wait_ request "/api/v1/auth/recover/complete"
    (POST (JObj (("email", JStr email) :: ("recoveryAuthKey", JStr recoveryAuthKey) :: reset_fields w next))) in
  Done (rc_code next).

Definition createAuthRequest (email publicKey : string) : wprog jsval :=
  request "/api/v1/auth/requests" (POST (JObj [("email", JStr email); ("kind", JStr "web"); ("publicKey", JStr publicKey)])).

Definition poll_path (id : string) : string := "/api/v1/auth/requests/" +:+ encodeURIComponent id +:+ "/poll".

(** The status, and the user once it is ["approved"]. *)
Definition pollAuthRequest (id secret : string) : wprog (jsval * option jsval) :=
  wait result := request (poll_path id) (POST (JObj [("secret", JStr secret)])) in
  wait status := field result "status" in
  if js_eq_str status "approved" then
    wait_ setCsrfToken (jget result "csrfToken") in
    Done (status, Some (jget result "user"))
  else Done (status, None).

Definition createResetRequest (email publicKey : string) : wprog jsval :=
  request "/api/v1/auth/requests" (POST (JObj [("email", JStr email); ("kind", JStr "reset"); ("publicKey", JStr publicKey)])).

Definition pollResetRequest (id secret : string) : wprog jsval := request (poll_path id) (POST (JObj [("secret", JStr secret)])).

Definition accountKeyFromReset (privateKey : bytes) (requestId : string) (approval : jsval) : wprog bytes :=
  wait approverPublicKey := field approval "approverPublicKey" in
  wait encryptedAccountKey := field approval "encryptedAccountKey" in
  match approverPublicKey, encryptedAccountKey with
  | JStr pk, JStr encrypted => of_crypto (decryptAccountKeyFromApproval privateKey pk encrypted requestId)
  | _, _ => Fails TypeFailed
  end.

Definition reset_path (id : string) : string := "/api/v1/auth/requests/" +:+ encodeURIComponent id +:+ "/reset".

Definition completeReset (salt nonce : bytes) (rnd : CodeRandom) (id secret : string) (accountKey : bytes) (newPassword : string) : wprog string :=
  wait w := wrap_under salt nonce newPassword accountKey in
  wait next := newRecoveryCode rnd accountKey in
  wait_ request (reset_path id) (POST (JObj (("secret", JStr secret) :: reset_fields w next))) in
  Done (rc_code next).

(** ** Signed in *)

Definition logout : wprog unit :=
  wait_ request "/api/v1/auth/logout" (mkInit (Some "POST") [] None) in
  setCsrfToken JNull.

Record UserPublic := mkUserPublic { up_id : jsval; up_email : jsval; up_recoveryCodeConfirmed : jsval }.

Definition me : wprog UserPublic :=
  wait result := get "/api/v1/auth/me" in
  wait id := field result "id" in
  Done (mkUserPublic id (jget result "email") (jget result "recoveryCodeConfirmed")).

Definition confirmRecoveryCode (code : string) : wprog unit :=
  wait parsed := of_option CodeRejected (parseRecoveryCode code) in
  let '(authKey, _) := deriveRecoveryKeys parsed in
  wait_ request "/api/v1/auth/recovery-code/confirm" (POST (JObj [("recoveryAuthKey", JStr authKey)])) in
  Done tt.

Definition currentKeyMaterial : wprog jsval := get "/api/v1/auth/me".

Definition WRONG_PASSWORD : client_error := ApiError "current password is incorrect" 401 (JStr "unauthorized").

(** The current authentication key, and the account key. *)
Definition unlocked (currentPassword : string) : wprog (string * bytes) :=
  wait current := currentKeyMaterial in
  wait kdfSalt := field current "kdfSalt" in
  wait oldMasterKey := master_from currentPassword kdfSalt (jget current "kdfParams") in
  let currentAuthKey := deriveAuthKey oldMasterKey in
  match unwrap_from (deriveKek oldMasterKey) (jget current "wrappedAk") with
  | inr accountKey => Done (currentAuthKey, accountKey)
  | inl _ => Fails WRONG_PASSWORD
  end.

Definition changePassword (salt nonce : bytes) (currentPassword newPassword : string) : wprog unit :=
  wait current := unlocked currentPassword in
  let '(currentAuthKey, accountKey) := current in
  wait w := wrap_under salt nonce newPassword accountKey in
  wait_ request "/api/v1/auth/password" (PATCH (JObj [
    ("currentAuthKey", JStr currentAuthKey); ("newAuthKey", JStr (pw_authKey w)); ("newKdfSalt", JStr (pw_kdfSalt w));
    ("newKdfParams", kdf_jsval (pw_kdfParams w)); ("newWrappedAk", JStr (pw_wrappedAk w))])) in
  Done tt.

Definition regenerateRecoveryCode (rnd : CodeRandom) (currentPassword : string) : wprog string :=
  wait current := unlocked currentPassword in
  let '(currentAuthKey, accountKey) := current in
  wait next := newRecoveryCode rnd accountKey in
  wait_ request "/api/v1/auth/recovery-code" (PATCH (JObj [
    ("currentAuthKey", JStr currentAuthKey); ("recoveryAuthKey", JStr (rc_authKey next));
    ("recoveryWrappedAk", JStr (rc_wrappedAk next))])) in
  Done (rc_code next).

Definition deleteAccount (password : string) : wprog unit :=
  wait current := currentKeyMaterial in
  wait kdfSalt := field current "kdfSalt" in
  wait masterKey := master_from password kdfSalt (jget current "kdfParams") in
  let authKey := deriveAuthKey masterKey in
  wait_ request "/api/v1/auth/account" (mkInit (Some "DELETE") [] (Some (JObj [("authKey", JStr authKey)]))) in
  setCsrfToken JNull.

(** ** Devices, settings, sessions *)

Definition done_ (m : wprog jsval) : wprog unit := wait_ m in Done tt.

Definition listDevices : wprog jsval := get "/api/v1/devices".
Definition renameDevice (id name : string) : wprog jsval :=
  request ("/api/v1/devices/" +:+ id) (PATCH (JObj [("name", JStr name)])).
Definition revokeDevice (id : string) : wprog jsval :=
  request ("/api/v1/devices/" +:+ id +:+ "/revoke") (mkInit (Some "POST") [] None).
Definition getSettings : wprog jsval := get "/api/v1/sync/settings".
Definition updateSettings (patch : jsval) : wprog jsval := request "/api/v1/sync/settings" (PATCH patch).
Definition getServerVersion : wprog jsval := get "/api/v1/version".
Definition getSyncStats : wprog jsval := get "/api/v1/sync/stats".
Definition listSessions : wprog jsval := get "/api/v1/auth/sessions".
Definition revokeSession (id : string) : wprog unit :=
  done_ (request ("/api/v1/auth/sessions/" +:+ id +:+ "/revoke") (mkInit (Some "POST") [] None)).

Definition PROTOCOL_VERSION_HEADERS : jmap string string := [("X-Protocol-Version", "1")].
Definition restore_point_path (id : string) : string := "/api/v1/restore-points/" +:+ encodeURIComponent id.

Definition listRestorePoints : wprog jsval := wait result := get "/api/v1/restore-points" in field result "points".
Definition setRestorePointPinned (id : string) (pinned : bool) : wprog jsval :=
  request (restore_point_path id) (mkInit (Some "PATCH") PROTOCOL_VERSION_HEADERS (Some (JObj [("pinned", JBool pinned)]))).
Definition deleteRestorePoint (id : string) : wprog unit :=
  done_ (request (restore_point_path id) (mkInit (Some "DELETE") PROTOCOL_VERSION_HEADERS None)).
End client.
