(* ===== verification/WebAccount.v ===== *)
(** * The account on the server, and the dashboards that use it
    (server/src/auth/routes.rs and requests.rs, web/src/pages/ResetWithDevices.tsx)

    The row the server keeps for one account and the rows of the requests to
    sign in or reset, with the routes of the dashboard that read or write them.
    What a route does before it reads the row (session, CSRF token, rate limit)
    lets the request through or answers it with an error; each route is then one
    step, as its single statement or transaction is. What the server draws at
    random comes with the request. *)

From S2P Require Import Prelude JsMap Types Util Json Storage StorageFacts Crypto CryptoFacts ApiClient WebCrypto WebClient.

Open Scope Z_scope.
Open Scope js_scope.

(** ** Hashes *)

(** Argon2id as the server's library has it, with a random salt. *)
Class PasswordHasher := {
  hash_password : string -> string -> string;
  verify_password : string -> string -> bool;
}.
Class PasswordHasherLaws `{PasswordHasher} : Prop := {
  verify_hashed salt authKey : verify_password authKey (hash_password salt authKey) = true;
}.

(** ** The rows *)

Record UserRow := mkUser {
  u_email : string;
  u_password_hash : string;
  u_kdf_salt : string;
  u_kdf_params : jsval;
  u_wrapped_account_key : string;
  u_recovery_auth_hash : string;
  u_recovery_wrapped_account_key : string;
  u_recovery_code_confirmed : bool;
}.

Inductive auth_kind := KWeb | KReset.
Inductive auth_status := APending | AApproved | ADenied.

Record AuthRow := mkAuthRow {
  a_id : string;
  a_kind : auth_kind;
  a_secret_hash : string;
  a_public_key : string;
  a_expires_at : Z;
  a_status : auth_status;
  a_approvals : list string;
  a_encrypted_account_key : option string;
  a_approver_public_key : option string;
  a_consumed : bool;
}.

Record Service := mkService {
  sv_user : option UserRow;
  sv_requests : list AuthRow;
  sv_now : Z;                           (** seconds *)
  sv_devices : list string;             (** not revoked *)
}.

Inductive AppError := Unauthorized | NotFound | Validation (what : string) | Conflict (reason : string) | Unprocessable.

Definition error_body (e : AppError) : Z * string * string :=
  match e with
  | Unauthorized => (401, "unauthorized", "unauthorized")
  | NotFound => (404, "not_found", "not found")
  | Validation what => (400, "validation_error", "validation error: " +:+ what)
  | Conflict reason => (409, reason, "conflict: " +:+ reason)
  | Unprocessable => (422, "", "")
  end.

(** A body that does not have the route's fields is refused by the framework,
    with a text. *)
Definition into_response (e : AppError) : Response :=
  match e with
  | Unprocessable => mkResponse 422 None None
  | _ => let '(status, code, message) := error_body e in
         mkResponse status (Some (JObj [("error", JStr code); ("message", JStr message)])) None
  end.

Definition AppResult (A : Type) : Type := AppError + A.
Definition try_ {A B} (r : AppResult A) (f : A -> AppResult B) : AppResult B := match r with inr a => f a | inl e => inl e end.
Notation "'try!' x ':=' m 'in' k" := (try_ m (fun x => k)) (at level 10, x name, m at level 100, k at level 200) : js_scope.
Notation "'try_!' m 'in' k" := (try_ m (fun _ => k)) (at level 10, m at level 100, k at level 200) : js_scope.

Definition ensure (b : bool) (e : AppError) : AppResult unit := if b then inr tt else inl e.

Definition str_field (body : jsval) (k : string) : AppResult string :=
  match jget body k with JStr s => inr s | _ => inl Unprocessable end.
Definition val_field (body : jsval) (k : string) : AppResult jsval :=
  match jget body k with JUndef => inl Unprocessable | v => inr v end.

(** ** Checks of what is sent *)

(** The library's strict decoder: no padding, no stray bits. *)
Definition url_safe_decode (s : string) : option bytes :=
  b ← fromB64 s; if String.eqb (toB64 b) s then Some b else None.

Definition validate_auth_key (auth_key : string) : bool :=
  match url_safe_decode auth_key with Some b => Nat.eqb (length b) 32 | None => false end.
Definition validate_request_auth_key (auth_key : string) : AppResult unit := ensure (validate_auth_key auth_key) (Validation "authKey").

Definition validate_kdf_salt (name salt : string) : AppResult unit :=
  ensure (match url_safe_decode salt with Some b => Nat.eqb (length b) 16 | None => false end)
    (Validation (name +:+ " must be 16 bytes of base64url")).

Definition validate_kdf_params (name : string) (params : jsval) : AppResult unit :=
  let within k lo hi := match jget params k with JNum v => (lo <=? v) && (v <=? hi) | _ => false end in
  ensure (match params with JObj fs => Nat.eqb (length fs) 3 | _ => false end &&
          within "m" 19456 262144 && within "t" 2 10 && within "p" 1 4)
    (Validation (name +:+ " must be { m, t, p } integers within bounds")).

Definition MAX_WRAPPED_KEY_LEN : nat := 1024.
Definition validate_wrapped_key (name wrapped : string) : AppResult unit :=
  ensure (Nat.leb (String.length wrapped) MAX_WRAPPED_KEY_LEN) (Validation (name +:+ " is too long")).

Definition MAX_EMAIL_LEN : nat := 320.
Definition AUTH_REQUEST_TTL_SECS : Z := 15 * 60.
Definition MAX_ENCRYPTED_ACCOUNT_KEY_LEN : nat := 1024.

(** An uncompressed point: 65 bytes, the first 4. *)
Definition validate_ecdh_public_key (public_key : string) : AppResult unit :=
  ensure (match url_safe_decode public_key with Some (x :: b) => Nat.eqb (length b) 64 && (x =? 4) | _ => false end)
    (Validation "publicKey").

(** What the server draws at random for one request. *)
Record Fresh := mkFresh { fr_id : string; fr_token : string; fr_salt : string }.

Section server.
Context `{TextPlatform} `{CryptoLib} `{PasswordHasher}.

Definition hash_token (token : string) : string := String.concat "" (map HEX_TABLE (sha256 (utf8_encode token))).

Definition token_hash_matches (token stored_hash : string) : bool :=
  let a := utf8_encode (hash_token token) in
  let b := utf8_encode stored_hash in
  Nat.eqb (length a) (length b) && (foldl (fun diff xy => Z.lor diff (Z.lxor xy.1 xy.2)) 0 (zip a b) =? 0).

Definition normalize_email (email : string) : string := folded email.
Definition request_email (email : string) : AppResult string :=
  let email := normalize_email email in
  try_! ensure (Nat.leb (String.length email) MAX_EMAIL_LEN) (Validation "invalid email") in
  inr email.

(** The account behind an email. *)
Definition user_by_email (s : Service) (email : string) : option UserRow :=
  match sv_user s with Some u => if String.eqb (u_email u) email then Some u else None | None => None end.

Definition set_user (u : option UserRow) (s : Service) : Service := mkService u (sv_requests s) (sv_now s) (sv_devices s).
Definition set_requests (rs : list AuthRow) (s : Service) : Service := mkService (sv_user s) rs (sv_now s) (sv_devices s).

Definition OK : jsval := JObj [("ok", JBool true)].
(** [StatusCode::NO_CONTENT] *)
Definition no_content : Response := mkResponse 204 None None.
Definition answer_json (v : jsval) : Response := mkResponse 200 (Some v) None.

Definition auth_response (u : UserRow) (csrf : string) : jsval :=
  JObj [("user", JObj [("id", JStr "user"); ("email", JStr (u_email u))]); ("csrfToken", JStr csrf);
        ("wrappedAk", JStr (u_wrapped_account_key u)); ("kdfSalt", JStr (u_kdf_salt u)); ("kdfParams", u_kdf_params u);
        ("accountKeyVersion", JNum 1)].

(** ** Routes *)

(** A route's answer, and the rows after it. *)
Definition Route : Type := jsval -> Service -> AppResult (Response * Service).

(** The salt for an address without an account is the key's keyed hash. *)
Definition prelogin_route (fake_salt : string -> string) : Route := fun body s =>
  try! email := str_field body "email" in
  try! email := request_email email in
  let '(salt, params) := match user_by_email s email with
    | Some u => (u_kdf_salt u, u_kdf_params u)
    | None => (fake_salt email, kdf_jsval (mkKdfParams 19456 2 1))
    end in
  inr (answer_json (JObj [("kdfSalt", JStr salt); ("kdfParams", params)]), s).

(** A second registration of the account's address breaks the unique index;
    another address has a row of its own, which is not kept here. *)
Definition register_route (fresh : Fresh) : Route := fun body s =>
  try! email := str_field body "email" in
  try! auth_key := str_field body "authKey" in
  try! kdf_salt := str_field body "kdfSalt" in
  try! kdf_params := val_field body "kdfParams" in
  try! wrapped_ak := str_field body "wrappedAk" in
  try! recovery_auth_key := str_field body "recoveryAuthKey" in
  try! recovery_wrapped_ak := str_field body "recoveryWrappedAk" in
  try! email := request_email email in
  try_! ensure (str_has "@" email) (Validation "invalid email") in
  try_! validate_request_auth_key auth_key in
  try_! validate_request_auth_key recovery_auth_key in
  try_! validate_kdf_salt "kdfSalt" kdf_salt in
  try_! validate_kdf_params "kdfParams" kdf_params in
  try_! validate_wrapped_key "wrappedAk" wrapped_ak in
  try_! validate_wrapped_key "recoveryWrappedAk" recovery_wrapped_ak in
  try_! ensure (if user_by_email s email is Some _ then false else true) (Validation "registration failed") in
  let u := mkUser email (hash_password (fr_salt fresh) auth_key) kdf_salt kdf_params wrapped_ak
    (hash_token recovery_auth_key) recovery_wrapped_ak false in
  inr (answer_json (auth_response u (fr_token fresh)), if sv_user s is Some _ then s else set_user (Some u) s).

Definition login_route (fresh : Fresh) : Route := fun body s =>
  try! email := str_field body "email" in
  try! auth_key := str_field body "authKey" in
  try! email := request_email email in
  try_! validate_request_auth_key auth_key in
  match user_by_email s email with
  | None => inl Unauthorized
  | Some u =>
      try_! ensure (verify_password auth_key (u_password_hash u)) Unauthorized in
      inr (answer_json (auth_response u (fr_token fresh)), s)
  end.

(** With a session, the account's. *)
Definition with_user (s : Service) (f : UserRow -> AppResult (Response * Service)) : AppResult (Response * Service) :=
  match sv_user s with Some u => f u | None => inl Unauthorized end.

Definition me_route : Route := fun _ s => with_user s (fun u =>
  inr (answer_json (JObj [("id", JStr "user"); ("email", JStr (u_email u)); ("wrappedAk", JStr (u_wrapped_account_key u));
    ("kdfSalt", JStr (u_kdf_salt u)); ("kdfParams", u_kdf_params u); ("accountKeyVersion", JNum 1);
    ("recoveryCodeConfirmed", JBool (u_recovery_code_confirmed u))]), s)).

Definition change_password (fresh : Fresh) : Route := fun body s => with_user s (fun u =>
  try! current_auth_key := str_field body "currentAuthKey" in
  try! new_auth_key := str_field body "newAuthKey" in
  try! new_kdf_salt := str_field body "newKdfSalt" in
  try! new_kdf_params := val_field body "newKdfParams" in
  try! new_wrapped_ak := str_field body "newWrappedAk" in
  try_! validate_request_auth_key current_auth_key in
  try_! validate_request_auth_key new_auth_key in
  try_! validate_kdf_salt "newKdfSalt" new_kdf_salt in
  try_! validate_kdf_params "newKdfParams" new_kdf_params in
  try_! validate_wrapped_key "newWrappedAk" new_wrapped_ak in
  try_! ensure (verify_password current_auth_key (u_password_hash u)) Unauthorized in
  let u' := mkUser (u_email u) (hash_password (fr_salt fresh) new_auth_key) new_kdf_salt new_kdf_params new_wrapped_ak
    (u_recovery_auth_hash u) (u_recovery_wrapped_account_key u) (u_recovery_code_confirmed u) in
  inr (answer_json OK, set_user (Some u') s)).

Definition regenerate_recovery_code : Route := fun body s => with_user s (fun u =>
  try! current_auth_key := str_field body "currentAuthKey" in
  try! recovery_auth_key := str_field body "recoveryAuthKey" in
  try! recovery_wrapped_ak := str_field body "recoveryWrappedAk" in
  try_! validate_request_auth_key current_auth_key in
  try_! validate_request_auth_key recovery_auth_key in
  try_! validate_wrapped_key "recoveryWrappedAk" recovery_wrapped_ak in
  try_! ensure (verify_password current_auth_key (u_password_hash u)) Unauthorized in
  let u' := mkUser (u_email u) (u_password_hash u) (u_kdf_salt u) (u_kdf_params u) (u_wrapped_account_key u)
    (hash_token recovery_auth_key) recovery_wrapped_ak false in
  inr (answer_json OK, set_user (Some u') s)).

Definition confirm_recovery_code : Route := fun body s => with_user s (fun u =>
  try! recovery_auth_key := str_field body "recoveryAuthKey" in
  try_! validate_request_auth_key recovery_auth_key in
  try_! ensure (token_hash_matches recovery_auth_key (u_recovery_auth_hash u)) Unauthorized in
  let u' := mkUser (u_email u) (u_password_hash u) (u_kdf_salt u) (u_kdf_params u) (u_wrapped_account_key u)
    (u_recovery_auth_hash u) (u_recovery_wrapped_account_key u) true in
  inr (answer_json OK, set_user (Some u') s)).

Definition verify_recovery_code (s : Service) (email recovery_auth_key : string) : option UserRow :=
  match user_by_email s email with
  | Some u => if token_hash_matches recovery_auth_key (u_recovery_auth_hash u) then Some u else None
  | None => None
  end.

Definition recover_prepare : Route := fun body s =>
  try! email := str_field body "email" in
  try! recovery_auth_key := str_field body "recoveryAuthKey" in
  try! email := request_email email in
  try_! validate_request_auth_key recovery_auth_key in
  match verify_recovery_code s email recovery_auth_key with
  | None => inl Unauthorized
  | Some u => inr (answer_json (JObj [("recoveryWrappedAk", JStr (u_recovery_wrapped_account_key u))]), s)
  end.

(** The new fields both resets carry. *)
Record NewFields := mkNewFields {
  nf_auth_key : string;
  nf_kdf_salt : string;
  nf_kdf_params : jsval;
  nf_wrapped_ak : string;
  nf_recovery_auth_key : string;
  nf_recovery_wrapped_ak : string;
}.

Definition new_fields (body : jsval) : AppResult NewFields :=
  try! new_auth_key := str_field body "newAuthKey" in
  try! new_kdf_salt := str_field body "newKdfSalt" in
  try! new_kdf_params := val_field body "newKdfParams" in
  try! new_wrapped_ak := str_field body "newWrappedAk" in
  try! new_recovery_auth_key := str_field body "newRecoveryAuthKey" in
  try! new_recovery_wrapped_ak := str_field body "newRecoveryWrappedAk" in
  inr (mkNewFields new_auth_key new_kdf_salt new_kdf_params new_wrapped_ak new_recovery_auth_key new_recovery_wrapped_ak).

Definition check_new_fields (n : NewFields) : AppResult unit :=
  try_! validate_request_auth_key (nf_auth_key n) in
  try_! validate_request_auth_key (nf_recovery_auth_key n) in
  try_! validate_kdf_salt "newKdfSalt" (nf_kdf_salt n) in
  try_! validate_kdf_params "newKdfParams" (nf_kdf_params n) in
  try_! validate_wrapped_key "newWrappedAk" (nf_wrapped_ak n) in
  validate_wrapped_key "newRecoveryWrappedAk" (nf_recovery_wrapped_ak n).

Definition store_new_fields (fresh : Fresh) (n : NewFields) (u : UserRow) : UserRow :=
  mkUser (u_email u) (hash_password (fr_salt fresh) (nf_auth_key n)) (nf_kdf_salt n) (nf_kdf_params n) (nf_wrapped_ak n)
    (hash_token (nf_recovery_auth_key n)) (nf_recovery_wrapped_ak n) false.

Definition recover_complete (fresh : Fresh) : Route := fun body s =>
  try! email := str_field body "email" in
  try! recovery_auth_key := str_field body "recoveryAuthKey" in
  try! n := new_fields body in
  try! email := request_email email in
  try_! validate_request_auth_key recovery_auth_key in
  try_! check_new_fields n in
  match verify_recovery_code s email recovery_auth_key with
  | None => inl Unauthorized
  | Some u => inr (no_content, set_user (Some (store_new_fields fresh n u)) s)
  end.

Definition delete_account : Route := fun body s => with_user s (fun u =>
  try! auth_key := str_field body "authKey" in
  try_! validate_request_auth_key auth_key in
  try_! ensure (verify_password auth_key (u_password_hash u)) Unauthorized in
  inr (no_content, mkService None [] (sv_now s) [])).

(** *** Requests approved from other browsers *)

Definition create_auth_request (fresh : Fresh) : Route := fun body s =>
  try! email := str_field body "email" in
  try! kind := str_field body "kind" in
  try! public_key := str_field body "publicKey" in
  try! kind := (if String.eqb kind "web" then inr KWeb else if String.eqb kind "reset" then inr KReset else inl Unprocessable) in
  try! email := request_email email in
  try_! validate_ecdh_public_key public_key in
  let expires_at := sv_now s + AUTH_REQUEST_TTL_SECS in
  let row := mkAuthRow (fr_id fresh) kind (hash_token (fr_token fresh)) public_key expires_at APending [] None None false in
  let s' := if user_by_email s email is Some _ then set_requests (row :: sv_requests s) s else s in
  inr (answer_json (JObj [("id", JStr (fr_id fresh)); ("secret", JStr (fr_token fresh)); ("expiresAt", JNum expires_at)]), s').

Definition request_of (s : Service) (id : string) : option AuthRow := List.find (fun a => String.eqb (a_id a) id) (sv_requests s).
Definition update_request (id : string) (f : AuthRow -> AuthRow) (s : Service) : Service :=
  set_requests (map (fun a => if String.eqb (a_id a) id then f a else a) (sv_requests s)) s.

Definition status_only (status : string) : Response := answer_json (JObj [("status", JStr status)]).
Definition status_str (st : auth_status) : string := match st with APending => "pending" | AApproved => "approved" | ADenied => "denied" end.

Definition consume (a : AuthRow) : AuthRow :=
  mkAuthRow (a_id a) (a_kind a) (a_secret_hash a) (a_public_key a) (a_expires_at a) (a_status a) (a_approvals a)
    (a_encrypted_account_key a) (a_approver_public_key a) true.

Definition with_status (status : string) (v : jsval) : jsval := match v with JObj fs => JObj (jm_set fs "status" (JStr status)) | _ => v end.

Definition poll_auth_request (fresh : Fresh) (id : string) : Route := fun body s =>
  try! secret := str_field body "secret" in
  match request_of s id with
  | None => inr (status_only "pending", s)
  | Some a =>
      if negb (token_hash_matches secret (a_secret_hash a)) then inr (status_only "pending", s)
      else if a_consumed a || (a_expires_at a <=? sv_now s) then inr (status_only "expired", s)
      else match a_status a, a_kind a with
      | AApproved, KWeb => with_user s (fun u =>
          inr (answer_json (with_status "approved" (auth_response u (fr_token fresh))), update_request id consume s))
      | AApproved, KReset =>
          match a_encrypted_account_key a, a_approver_public_key a with
          | Some encrypted, Some pk => inr (answer_json (with_status "approved"
              (JObj [("encryptedAccountKey", JStr encrypted); ("approverPublicKey", JStr pk)])), s)
          | _, _ => inr (status_only "expired", s)
          end
      | st, _ => inr (status_only (status_str st), s)
      end
  end.

(** Consumed only when approved by two devices that are still active. *)
Definition complete_reset (fresh : Fresh) (id : string) : Route := fun body s =>
  try! secret := str_field body "secret" in
  try! n := new_fields body in
  try_! check_new_fields n in
  match request_of s id with
  | None => inl Unauthorized
  | Some a =>
      let active := List.filter (fun d => existsb (String.eqb d) (sv_devices s)) (remove_dups (a_approvals a)) in
      if match a_kind a with KReset => true | KWeb => false end && token_hash_matches secret (a_secret_hash a) &&
         match a_status a with AApproved => true | _ => false end && negb (a_consumed a) && (sv_now s <? a_expires_at a) &&
         Nat.leb 2 (length active)
      then with_user s (fun u => inr (no_content, update_request id consume (set_user (Some (store_new_fields fresh n u)) s)))
      else inl Unauthorized
  end.

(** *** A device's answer *)

Definition answered (st : auth_status) (material : option (string * string)) (approvals : list string) (a : AuthRow) : AuthRow :=
  mkAuthRow (a_id a) (a_kind a) (a_secret_hash a) (a_public_key a) (a_expires_at a) st (approvals ++ a_approvals a)
    (fst <$> material) (snd <$> material) (a_consumed a).

Definition require_key_material (material : option (string * string)) : AppResult (string * string) :=
  match material with
  | None => inl (Validation "needs encryptedAccountKey and approverPublicKey")
  | Some (encrypted, pk) =>
      try_! ensure (negb (String.eqb encrypted "") && Nat.leb (String.length encrypted) MAX_ENCRYPTED_ACCOUNT_KEY_LEN)
        (Validation "invalid encryptedAccountKey") in
      try_! validate_ecdh_public_key pk in
      inr (encrypted, pk)
  end.

(** The first approval carries no key and leaves the request pending; a second
    device's carries it. *)
Definition approve_reset (device id : string) (material : option (string * string)) (s : Service) : AppResult Service :=
  match request_of s id with
  | Some a =>
      if match a_kind a, a_status a with KReset, APending => sv_now s <? a_expires_at a | _, _ => false end then
        if existsb (String.eqb device) (a_approvals a) then inl (Conflict "already_approved")
        else if match a_approvals a with [] => true | _ => false end then
          match material with
          | Some _ => inl (Validation "the first approval of a password reset carries no key")
          | None => inr (update_request id (answered APending None [device]) s)
          end
        else try! m := require_key_material material in inr (update_request id (answered AApproved (Some m) [device]) s)
      else inl NotFound
  | None => inl NotFound
  end.

(** For the dashboard's kinds. *)
Definition respond_auth_request (device id : string) (approve : bool) (material : option (string * string)) (s : Service) : AppResult Service :=
  match request_of s id with
  | Some a =>
      if match a_status a with APending => sv_now s <? a_expires_at a | _ => false end then
        match approve, a_kind a with
        | true, KReset => approve_reset device id material s
        | _, _ =>
            match material with
            | Some _ => inl (Validation "only an approved new browser receives the account key")
            | None => inr (update_request id (answered (if approve then AApproved else ADenied) None []) s)
            end
        end
      else inl NotFound
  | None => inl NotFound
  end.

(** ** Answering a request *)

(** [{id}] of [/api/v1/auth/requests/{id}/...]: one segment. Ids are UUIDs,
    which no encoding changes. *)
Definition request_segment (action path : string) : option string :=
  let pre := "/api/v1/auth/requests/" in
  let n := (String.length path - String.length pre - String.length action)%nat in
  let id := substring (String.length pre) n path in
  if String.eqb path (pre +:+ id +:+ action) && negb (str_has "/" id) then Some id else None.

(** The routes of this file; [None] for any other. *)
Definition route (fake_salt : string -> string) (fresh : Fresh) (method path : string) : option Route :=
  let on m p := String.eqb method m && String.eqb path p in
  if on "POST" "/api/v1/auth/prelogin" then Some (prelogin_route fake_salt)
  else if on "POST" "/api/v1/auth/register" then Some (register_route fresh)
  else if on "POST" "/api/v1/auth/login" then Some (login_route fresh)
  else if on "GET" "/api/v1/auth/me" then Some me_route
  else if on "PATCH" "/api/v1/auth/password" then Some (change_password fresh)
  else if on "PATCH" "/api/v1/auth/recovery-code" then Some regenerate_recovery_code
  else if on "POST" "/api/v1/auth/recovery-code/confirm" then Some confirm_recovery_code
  else if on "POST" "/api/v1/auth/recover/prepare" then Some recover_prepare
  else if on "POST" "/api/v1/auth/recover/complete" then Some (recover_complete fresh)
  else if on "DELETE" "/api/v1/auth/account" then Some delete_account
  else if on "POST" "/api/v1/auth/requests" then Some (create_auth_request fresh)
  else if negb (String.eqb method "POST") then None
  else match request_segment "/poll" path, request_segment "/reset" path with
  | Some id, _ => Some (poll_auth_request fresh id)
  | None, Some id => Some (complete_reset fresh id)
  | None, None => None
  end.

Definition serve (fake_salt : string -> string) (fresh : Fresh) (r : WebRequest) (s : Service) : Response * Service :=
  match route fake_salt fresh (wr_method r) (wr_path r) with
  | None => (into_response NotFound, s)
  | Some h =>
      match h (default JUndef (wr_body r)) s with
      | inr (res, s') => (res, s')
      | inl e => (into_response e, s)
      end
  end.

(** What becomes of a request: lost on the way, answered with an error before
    its route runs, served, or served with the answer lost. *)
Inductive delivery := Lost | TurnedAway (res : Response) | Served (fresh : Fresh) | Unheard (fresh : Fresh).

Definition deliver (fake_salt : string -> string) (d : delivery) (r : WebRequest) (s : Service) : option Response * Service :=
  match d with
  | Lost => (None, s)
  | TurnedAway res => (if res_ok res then None else Some res, s)
  | Served fresh => let '(res, s') := serve fake_salt fresh r s in (Some res, s')
  | Unheard fresh => (None, snd (serve fake_salt fresh r s))
  end.

(** A program on its own; what becomes of each request in turn, the last ones
    being lost when the list ends. *)
Fixpoint run {A} (fake_salt : string -> string) (ds : list delivery) (m : wprog A) (csrf : jsval) (s : Service) : (client_error + A) * jsval * Service :=
  match m with
  | Done a => (inr a, csrf, s)
  | Fails e => (inl e, csrf, s)
  | Fetch r k => let '(o, s') := deliver fake_salt (hd Lost ds) r s in run fake_salt (tl ds) (k o) csrf s'
  | GetCsrf k => run fake_salt ds (k csrf) csrf s
  | SetCsrf v k => run fake_salt ds k v s
  end.
End server.

(** ** Pages *)

Section page.
Context `{TextPlatform} `{CryptoLib}.

(** One poll: the account key once two devices have approved. *)
Definition reset_tick (privateKey : bytes) (id secret : string) : wprog (option bytes) :=
  wait result := pollResetRequest "" id secret in
  wait status := field result "status" in
  if js_eq_str status "approved" then
    wait accountKey := accountKeyFromReset privateKey id result in
    Done (Some accountKey)
  else Done None.

(** The poll that finds the approval, and the form's submission. *)
Definition reset_with_devices (privateKey salt nonce : bytes) (rnd : CodeRandom) (id secret newPassword : string) : wprog (option string) :=
  wait approved := reset_tick privateKey id secret in
  match approved with
  | Some accountKey =>
      wait code := completeReset "" salt nonce rnd id secret accountKey newPassword in
      Done (Some code)
  | None => Done None
  end.

(** A page's call, its result shown and forgotten. *)
Definition shown {A} (m : wprog A) : wprog unit := wait_ m in Done tt.

(** What a page of the dashboard calls on the account, [newPassword] being one
    the user types. *)
Inductive dashboard_call (typed : string -> Prop) : wprog unit -> Prop :=
  | CallLogin email password : dashboard_call typed (shown (login "" email password))
  | CallRecover salt nonce rnd email code newPassword :
      Forall is_byte nonce -> Forall is_byte (cr_nonce rnd) -> typed newPassword ->
      dashboard_call typed (shown (recoverAccount "" salt nonce rnd email code newPassword))
  | CallAuthRequest email publicKey : dashboard_call typed (shown (createAuthRequest "" email publicKey))
  | CallPoll id secret : dashboard_call typed (shown (pollAuthRequest "" id secret))
  | CallResetRequest email publicKey : dashboard_call typed (shown (createResetRequest "" email publicKey))
  | CallReset privateKey salt nonce rnd id secret newPassword :
      Forall is_byte nonce -> Forall is_byte (cr_nonce rnd) -> typed newPassword ->
      dashboard_call typed (shown (reset_with_devices privateKey salt nonce rnd id secret newPassword))
  | CallLogout : dashboard_call typed (logout "")
  | CallMe : dashboard_call typed (shown (me ""))
  | CallConfirm code : dashboard_call typed (confirmRecoveryCode "" code)
  | CallChangePassword salt nonce currentPassword newPassword :
      Forall is_byte nonce -> typed newPassword -> dashboard_call typed (changePassword "" salt nonce currentPassword newPassword)
  | CallRegenerate rnd currentPassword :
      Forall is_byte (cr_nonce rnd) -> dashboard_call typed (shown (regenerateRecoveryCode "" rnd currentPassword))
  | CallDelete password : dashboard_call typed (deleteAccount "" password).

(** ** Everything at once *)

Record System := mkSystem { sys_service : Service; sys_pages : list (wprog unit) }.

Context `{PasswordHasher} (fake_salt : string -> string).

(** A page makes a call; a page's request is delivered somehow and the page goes
    on; a page reads or writes its CSRF token; a connected extension, which
    holds the account key [K], answers a request to sign in or reset; time
    passes; devices are connected or revoked. *)
Inductive step (K : bytes) (typed : string -> Prop) : System -> System -> Prop :=
  | StepCall s ps m : dashboard_call typed m -> step K typed (mkSystem s ps) (mkSystem s (m :: ps))
  | StepFetch s ps i r k d : ps !! i = Some (Fetch r k) ->
      step K typed (mkSystem s ps)
        (mkSystem (deliver fake_salt d r s).2 (<[i := k (deliver fake_salt d r s).1]> ps))
  | StepGetCsrf s ps i k v : ps !! i = Some (GetCsrf k) -> step K typed (mkSystem s ps) (mkSystem s (<[i := k v]> ps))
  | StepSetCsrf s ps i v k : ps !! i = Some (SetCsrf v k) -> step K typed (mkSystem s ps) (mkSystem s (<[i := k]> ps))
  | StepAnswer s ps device a approve hands_over approver nonce s' :
      a ∈ sv_requests s -> device ∈ sv_devices s -> Forall is_byte nonce ->
      respond_auth_request device (a_id a) approve
        (if hands_over : bool then encryptAccountKeyForRequest None approver nonce (Crypto.toB64 None K) (a_public_key a) (a_id a) else None) s = inr s' ->
      step K typed (mkSystem s ps) (mkSystem s' ps)
  | StepTime s ps now : sv_now s <= now ->
      step K typed (mkSystem s ps) (mkSystem (mkService (sv_user s) (sv_requests s) now (sv_devices s)) ps)
  | StepDevices s ps devices :
      step K typed (mkSystem s ps) (mkSystem (mkService (sv_user s) (sv_requests s) (sv_now s) devices) ps).
End page.
