(* ===== verification/WebAccountFacts.v ===== *)
(** * The account key is never lost (web/src/api/client.ts against server/src/auth)

    Whatever dashboards do, however their requests interleave and whichever are
    lost, the account's row opens to the same account key, with a password the
    user typed and with a recovery code. And the recovery code does what it is
    for. *)

From S2P Require Import Prelude JsMap Types Util Json Storage StorageFacts Crypto CryptoFacts ApiClient WebCrypto WebClient WebAccount.

Open Scope Z_scope.
Open Scope js_scope.

(** What is documented of the cipher and the key derivation: a ciphertext opens
    to nothing but what was sealed, its tag is sixteen bytes, and a derived key
    has the length asked for. *)
Class KeyLaws `{CryptoLib} : Prop := {
  aead_authentic k k' n n' a a' p q : aead_decrypt k' n' a' (aead_encrypt k n a p) = Some q -> q = p;
  aead_length k n p : length (aead_encrypt k n [] p) = (length p + 16)%nat;
  hkdf_bytes ikm info : Forall is_byte (hkdf ikm info 256);
  hkdf_length ikm info : length (hkdf ikm info 256) = 32%nat;
}.

Section account.
Context `{TextPlatform} `{CryptoLaws} `{!KeyLaws} `{PasswordHasherLaws}.

(** ** What opens the row *)

Definition password_opens (K : bytes) (password : string) (u : UserRow) : Prop :=
  exists masterKey, deriveMasterKey password (u_kdf_salt u) (kdf_of (u_kdf_params u)) = inr masterKey /\
    verify_password (deriveAuthKey masterKey) (u_password_hash u) = true /\
    unwrapAccountKey (deriveKek masterKey) (u_wrapped_account_key u) = inr K.

Definition code_opens (K : bytes) (code : string) (u : UserRow) : Prop :=
  exists b, parseRecoveryCode code = Some b /\
    token_hash_matches (deriveRecoveryKeys b).1 (u_recovery_auth_hash u) = true /\
    unwrapAccountKey (deriveRecoveryKeys b).2 (u_recovery_wrapped_account_key u) = inr K.

(** ** Wraps *)

Definition wraps (K : bytes) (w : string) : Prop := forall kek k, unwrapAccountKey kek w = inr k -> k = K.
Definition seals (K : bytes) (e : string) : Prop := forall priv pk id k, decryptAccountKeyFromApproval priv pk e id = inr k -> k = K.

Lemma wrap_opens nonce kek K : Forall is_byte nonce -> Forall is_byte K -> unwrapAccountKey kek (wrapAccountKey nonce kek K) = inr K.
Proof.
  intros Hn HK. unfold unwrapAccountKey, wrapAccountKey. rewrite envelope_parsed. cbn [or_unreadable then_].
  rewrite envelope_opens; [by rewrite aead_opens|done|by apply aead_bytes].
Qed.

Lemma wrap_wraps nonce kek K : Forall is_byte nonce -> Forall is_byte K -> wraps K (wrapAccountKey nonce kek K).
Proof.
  intros Hn HK kek' k. unfold unwrapAccountKey, wrapAccountKey. rewrite envelope_parsed. cbn [or_unreadable then_].
  rewrite envelope_opens; [|done|by apply aead_bytes]. destruct (aead_decrypt _ _ _ _) eqn:E; [|done].
  intros [= <-]. by eapply aead_authentic.
Qed.

Lemma envelope_seals key nonce aad K : Forall is_byte nonce -> Forall is_byte aad -> Forall is_byte K ->
  seals K (envelope nonce (aead_encrypt key nonce aad K)).
Proof.
  intros Hn Ha HK priv pk id k. unfold decryptAccountKeyFromApproval. rewrite envelope_parsed.
  destruct (fromB64 pk); [|done]. cbn [or_unreadable then_].
  replace (supported UnsupportedKey (envelope_value _ _)) with (inr tt : web_error + unit) by done. cbn [then_].
  rewrite envelope_opens; [|done|by apply aead_bytes]. destruct (aead_decrypt _ _ _ _) eqn:E; [|done].
  intros [= <-]. by eapply aead_authentic.
Qed.

Lemma matches_hashed token : token_hash_matches token (hash_token token) = true.
Proof.
  unfold token_hash_matches. rewrite Nat.eqb_refl. cbn [andb]. apply Z.eqb_eq. generalize (utf8_encode (hash_token token)) as b.
  induction b as [|x b IH]; [done|]. cbn [zip zip_with foldl fst snd]. by rewrite Z.lxor_nilpotent.
Qed.

(** ** What is kept of the row, and of what is sent and answered *)

Section kept.
Context (K : bytes) (HK : Forall is_byte K) (typed : string -> Prop).

Record kept (u : UserRow) : Prop := {
  kept_password : exists p, typed p /\ password_opens K p u;
  kept_code : exists code, code_opens K code u;
  kept_wrapped : wraps K (u_wrapped_account_key u);
  kept_recovery : wraps K (u_recovery_wrapped_account_key u);
}.

Definition row_kept (s : Service) : Prop :=
  (forall u, sv_user s = Some u -> kept u) /\
  Forall (fun a => forall e, a_encrypted_account_key a = Some e -> seals K e) (sv_requests s).

(** A password's fields and a code's, in the body of a request. *)
Definition password_fields (body : jsval) (w : string) : Prop :=
  exists p masterKey salt, typed p /\ jget body "newKdfSalt" = JStr salt /\
    deriveMasterKey p salt (kdf_of (jget body "newKdfParams")) = inr masterKey /\
    jget body "newAuthKey" = JStr (deriveAuthKey masterKey) /\ unwrapAccountKey (deriveKek masterKey) w = inr K /\ wraps K w.

Definition code_fields (body : jsval) (name w : string) : Prop :=
  exists code b, parseRecoveryCode code = Some b /\ jget body name = JStr (deriveRecoveryKeys b).1 /\
    unwrapAccountKey (deriveRecoveryKeys b).2 w = inr K /\ wraps K w.

Definition honest_body (body : jsval) : Prop :=
  (forall w, jget body "newWrappedAk" = JStr w -> password_fields body w) /\
  (forall w, jget body "newRecoveryWrappedAk" = JStr w -> code_fields body "newRecoveryAuthKey" w) /\
  (forall w, jget body "recoveryWrappedAk" = JStr w -> code_fields body "recoveryAuthKey" w).

Definition honest_request (r : WebRequest) : Prop :=
  wr_path r <> "/api/v1/auth/register" /\ honest_body (default JUndef (wr_body r)).

Definition honest_value (path : string) (v : jsval) : Prop :=
  (path = "/api/v1/auth/me" -> forall w, jget v "wrappedAk" = JStr w -> wraps K w) /\
  (path = "/api/v1/auth/recover/prepare" -> forall w, jget v "recoveryWrappedAk" = JStr w -> wraps K w) /\
  (forall e, jget v "encryptedAccountKey" = JStr e -> seals K e).

Definition honest_answer (path : string) (o : option Response) : Prop :=
  forall res v, o = Some res -> res_ok res = true -> rs_body res = Some v -> honest_value path v.

(** ** The routes *)

Lemma try_inr {A B} (m : AppResult A) (f : A -> AppResult B) b : try_ m f = inr b -> exists a, m = inr a /\ f a = inr b.
Proof. destruct m as [e|a]; [done|]. intros E. by exists a. Qed.

Lemma str_field_inr body k s : str_field body k = inr s -> jget body k = JStr s.
Proof. unfold str_field. destruct (jget body k); by intros [= <-]. Qed.
Lemma val_field_inr body k v : val_field body k = inr v -> jget body k = v.
Proof. unfold val_field. destruct (jget body k); by intros [= <-]. Qed.

(** Through the checks of a route, the fields read being kept as equations. *)
Ltac through :=
  repeat match goal with
  | E : try_ _ _ = inr _ |- _ => let E' := fresh "E" in apply try_inr in E as (? & ? & E')
  | E : str_field _ _ = inr _ |- _ => apply str_field_inr in E
  | E : val_field _ _ = inr _ |- _ => apply val_field_inr in E
  | E : inr (_, _) = inr (_, _) |- _ => injection E as <- <-
  | E : inr (mkNewFields _ _ _ _ _ _) = inr _ |- _ => injection E as <-
  end.

(** A route that answers with a value the dashboards read nothing from. *)
Lemma plain_value path v : jget v "wrappedAk" = JUndef -> jget v "recoveryWrappedAk" = JUndef -> jget v "encryptedAccountKey" = JUndef ->
  honest_value path v.
Proof. intros E1 E2 E3. split_and!; [intros _ w|intros _ w|intros e]; by rewrite ?E1, ?E2, ?E3. Qed.
Lemma bodiless path st : honest_answer path (Some (mkResponse st None None)).
Proof. by intros res v [= <-]. Qed.
Lemma value_answer path v : honest_value path v -> honest_answer path (Some (answer_json v)).
Proof. intros Hv res v' [= <-] _ [= <-]. done. Qed.

Lemma row_same_user s s' : sv_user s' = sv_user s -> sv_requests s' = sv_requests s -> row_kept s -> row_kept s'.
Proof. unfold row_kept. by intros -> ->. Qed.

Lemma kept_set_user s u : row_kept s -> kept u -> row_kept (set_user (Some u) s).
Proof. intros [_ Hr] Hu. split; [|done]. by intros u' [= <-]. Qed.

Lemma kept_new_code u hash w confirmed : kept u -> (exists code, code_opens K code (mkUser (u_email u) (u_password_hash u) (u_kdf_salt u)
    (u_kdf_params u) (u_wrapped_account_key u) hash w confirmed)) -> wraps K w ->
  kept (mkUser (u_email u) (u_password_hash u) (u_kdf_salt u) (u_kdf_params u) (u_wrapped_account_key u) hash w confirmed).
Proof. intros [[p [Hp Ho]] _ Hw _] Hc Hw'. split; [by exists p|done|done|done]. Qed.

Definition route_kept (path : string) (h : Route) : Prop := forall body s res s',
  honest_body body -> row_kept s -> h body s = inr (res, s') -> row_kept s' /\ honest_answer path (Some res).

Lemma code_fields_open body name key w email hash salt params wrapped confirmed : code_fields body name w -> jget body name = JStr key ->
  exists code, code_opens K code (mkUser email hash salt params wrapped (hash_token key) w confirmed).
Proof. intros (code & b & Hp & Hn & Hu & _) Hk. exists code, b. rewrite Hn in Hk. injection Hk as <-. split; [done|split; [apply matches_hashed|done]]. Qed.

Lemma password_fields_open body fresh auth salt params w email rhash rw confirmed : password_fields body w ->
  jget body "newAuthKey" = JStr auth -> jget body "newKdfSalt" = JStr salt -> jget body "newKdfParams" = params ->
  exists p, typed p /\ password_opens K p (mkUser email (hash_password (fr_salt fresh) auth) salt params w rhash rw confirmed).
Proof.
  intros (p & m & salt' & Hp & Hs & Hm & Ha & Hu & _) Ha' Hs' <-. exists p. split; [done|]. exists m. rewrite Ha in Ha'. rewrite Hs in Hs'.
  injection Ha' as <-. injection Hs' as <-. split; [done|split; [apply verify_hashed|done]].
Qed.

(** The account's row, of a route that needs it. *)
Ltac with_row Hk :=
  lazymatch goal with E : with_user ?s _ = _ |- _ => unfold with_user in E; destruct (sv_user s) as [u|] eqn:Eu; [|done]; pose proof (proj1 Hk u Eu) as Hu end.

Lemma change_password_kept path fresh : path <> "/api/v1/auth/me" -> route_kept path (change_password fresh).
Proof.
  intros Hpath body s res s' (Hb & _ & _) Hk E. unfold change_password in E. with_row Hk. through.
  split; [|by apply value_answer, plain_value]. apply kept_set_user; [done|].
  match goal with Hw : jget body "newWrappedAk" = JStr ?w |- _ => pose proof (Hb w Hw) as Hf end.
  split; [by eapply password_fields_open| |by destruct Hf as (? & ? & ? & _ & _ & _ & _ & _ & ?)|apply Hu].
  destruct Hu as [_ [code Hc] _ _]. by exists code.
Qed.
Lemma password_fields_wraps body w : password_fields body w -> wraps K w.
Proof. by intros (? & ? & ? & _ & _ & _ & _ & _ & ?). Qed.
Lemma code_fields_wraps body name w : code_fields body name w -> wraps K w.
Proof. by intros (? & ? & _ & _ & _ & ?). Qed.

Lemma regenerate_recovery_code_kept path : path <> "/api/v1/auth/me" -> route_kept path regenerate_recovery_code.
Proof.
  intros Hpath body s res s' (_ & _ & Hb) Hk E. unfold regenerate_recovery_code in E. with_row Hk. through.
  split; [|by apply value_answer, plain_value]. apply kept_set_user; [done|].
  match goal with Hw : jget body "recoveryWrappedAk" = JStr ?w |- _ => pose proof (Hb w Hw) as Hf end.
  apply kept_new_code; [done|by eapply code_fields_open|by eapply code_fields_wraps].
Qed.

Lemma confirm_recovery_code_kept path : route_kept path confirm_recovery_code.
Proof.
  intros body s res s' _ Hk E. unfold confirm_recovery_code in E. with_row Hk. through.
  split; [|by apply value_answer, plain_value]. apply kept_set_user; [done|].
  apply kept_new_code; [done|apply Hu|apply Hu].
Qed.

Lemma me_kept path : path <> "/api/v1/auth/recover/prepare" -> route_kept path me_route.
Proof.
  intros Hpath body s res s' _ Hk E. unfold me_route in E. with_row Hk. through. split; [done|]. apply value_answer.
  split_and!; [intros _ w [= <-]; apply Hu|done|done].
Qed.

Lemma user_by_email_kept s email u : row_kept s -> user_by_email s email = Some u -> kept u.
Proof.
  intros [Hu _]. unfold user_by_email. destruct (sv_user s) as [u'|]; [|done]. destruct (String.eqb _ _); [|done].
  intros [= ->]. by apply Hu.
Qed.
Lemma verify_recovery_code_kept s email key u : row_kept s -> verify_recovery_code s email key = Some u -> kept u.
Proof.
  intros Hk. unfold verify_recovery_code. destruct (user_by_email s email) as [u'|] eqn:E; [|done].
  destruct (token_hash_matches _ _); [|done]. intros [= ->]. by eapply user_by_email_kept.
Qed.

Lemma recover_prepare_kept path : path <> "/api/v1/auth/me" -> route_kept path recover_prepare.
Proof.
  intros Hpath body s res s' _ Hk E. unfold recover_prepare in E. through.
  destruct (verify_recovery_code _ _ _) as [u|] eqn:Hv; [|done]. through. split; [done|]. apply value_answer.
  apply verify_recovery_code_kept in Hv as Hu; [|done]. split_and!; [done|intros _ w [= <-]; apply Hu|done].
Qed.

Lemma store_new_fields_kept body fresh n u : honest_body body -> new_fields body = inr n -> kept u -> kept (store_new_fields fresh n u).
Proof.
  intros (Hp & Hc & _) En _. unfold new_fields in En. through.
  match goal with Hw : jget body "newWrappedAk" = JStr ?w |- _ => pose proof (Hp w Hw) as Hpf end.
  match goal with Hw : jget body "newRecoveryWrappedAk" = JStr ?w |- _ => pose proof (Hc w Hw) as Hcf end.
  split; [by eapply password_fields_open|by eapply code_fields_open|by eapply password_fields_wraps|by eapply code_fields_wraps].
Qed.

Lemma recover_complete_kept path fresh : route_kept path (recover_complete fresh).
Proof.
  intros body s res s' Hb Hk E. unfold recover_complete in E. through.
  destruct (verify_recovery_code _ _ _) as [u|] eqn:Hv; [|done]. through. split; [|apply bodiless].
  apply kept_set_user; [done|]. eapply store_new_fields_kept; [done|done|]. by eapply verify_recovery_code_kept.
Qed.

Lemma delete_account_kept path : route_kept path delete_account.
Proof. intros body s res s' _ Hk E. unfold delete_account in E. with_row Hk. through. split; [by split|apply bodiless]. Qed.

Lemma prelogin_kept path fake : route_kept path (prelogin_route fake).
Proof.
  intros body s res s' _ Hk E. unfold prelogin_route in E. through. destruct (user_by_email _ _); through; (split; [done|]);
    by apply value_answer, plain_value.
Qed.

Lemma login_kept path fresh : path <> "/api/v1/auth/recover/prepare" -> route_kept path (login_route fresh).
Proof.
  intros Hpath body s res s' _ Hk E. unfold login_route in E. through. destruct (user_by_email _ _) as [u|] eqn:Hu; [|done]. through.
  split; [done|]. apply value_answer. apply user_by_email_kept in Hu; [|done]. split_and!; [intros _ w [= <-]; apply Hu|done|done].
Qed.

(** *** Requests *)

Lemma update_request_kept id f s : (forall a, a_encrypted_account_key (f a) = a_encrypted_account_key a \/
    (forall e, a_encrypted_account_key (f a) = Some e -> seals K e)) -> row_kept s -> row_kept (update_request id f s).
Proof.
  intros Hf [Hu Hr]. split; [done|]. apply Forall_map. eapply Forall_impl; [exact Hr|]. intros a Ha. cbn. destruct (String.eqb _ _); [|done].
  destruct (Hf a) as [->|?]; done.
Qed.

Lemma consume_kept id s : row_kept s -> row_kept (update_request id consume s).
Proof. apply update_request_kept. by left. Qed.

Lemma create_auth_request_kept path fresh : route_kept path (create_auth_request fresh).
Proof.
  intros body s res s' _ Hk E. unfold create_auth_request in E. through. split; [|by apply value_answer, plain_value].
  destruct (user_by_email _ _); [|done]. destruct Hk as [Hu Hr]. split; [done|]. by apply Forall_cons.
Qed.

Lemma request_of_kept s id a : row_kept s -> request_of s id = Some a -> forall e, a_encrypted_account_key a = Some e -> seals K e.
Proof. intros [_ Hr] [Ha _]%find_some. rewrite Forall_forall in Hr. apply Hr. by apply list_elem_of_In. Qed.

Lemma poll_kept path fresh id : path <> "/api/v1/auth/me" -> path <> "/api/v1/auth/recover/prepare" -> route_kept path (poll_auth_request fresh id).
Proof.
  intros Hme Hprep body s res s' _ Hk E. unfold poll_auth_request in E. through.
  destruct (request_of s id) as [a|] eqn:Ha; [|through; split; [done|by apply value_answer, plain_value]].
  destruct (negb _); [through; split; [done|by apply value_answer, plain_value]|].
  destruct (_ || _); [through; split; [done|by apply value_answer, plain_value]|].
  pose proof (request_of_kept s id a Hk Ha) as Hseal.
  destruct (a_status a); try (through; split; [done|by apply value_answer, plain_value]). destruct (a_kind a).
  - with_row Hk. through. split; [by apply consume_kept|]. apply value_answer. split_and!; [done|done|done].
  - destruct (a_encrypted_account_key a) as [e|]; [|through; split; [done|by apply value_answer, plain_value]].
    destruct (a_approver_public_key a); through; (split; [done|]); apply value_answer; [|by apply plain_value].
    split_and!; [done|done|]. intros e' [= <-]. by apply Hseal.
Qed.

Lemma complete_reset_kept path fresh id : route_kept path (complete_reset fresh id).
Proof.
  intros body s res s' Hb Hk E. unfold complete_reset in E. through. destruct (request_of s id) as [a|]; [|done].
  destruct (_ && _); [|done]. with_row Hk. through. split; [|apply bodiless]. apply consume_kept, kept_set_user; [done|].
  by eapply store_new_fields_kept.
Qed.
(** ** Requests delivered *)

Lemma refused_answer path e : honest_answer path (Some (into_response e)).
Proof. intros res v [= <-]. destruct e; done. Qed.

Lemma request_segment_path action path id : request_segment action path = Some id -> path = "/api/v1/auth/requests/" +:+ id +:+ action.
Proof.
  unfold request_segment. cbv zeta. destruct (_ && _) eqn:E; [|done]. intros [= <-].
  by apply andb_true_iff in E as [E%String.eqb_eq _].
Qed.

Lemma route_is_kept fake fresh method path h : path <> "/api/v1/auth/register" -> route fake fresh method path = Some h -> route_kept path h.
Proof.
  intros Hreg. unfold route. cbv zeta.
  repeat match goal with |- (if String.eqb method ?m && String.eqb path ?p then _ else _) = _ -> _ =>
    destruct (String.eqb method m && String.eqb path p) eqn:?E; [apply andb_true_iff in E as [_ ->%String.eqb_eq]; intros [= <-]|clear E]
  end; [apply prelogin_kept|done|by apply login_kept|by apply me_kept|by apply change_password_kept|by apply regenerate_recovery_code_kept|
        apply confirm_recovery_code_kept|by apply recover_prepare_kept|apply recover_complete_kept|apply delete_account_kept|
        apply create_auth_request_kept|].
  destruct (negb _); [done|]. destruct (request_segment "/poll" path) as [id|] eqn:E.
  - apply request_segment_path in E as ->. intros [= <-]. by apply poll_kept.
  - destruct (request_segment "/reset" path) as [id|]; [|done]. intros [= <-]. apply complete_reset_kept.
Qed.

Lemma serve_kept fake fresh r s : honest_request r -> row_kept s ->
  row_kept (serve fake fresh r s).2 /\ honest_answer (wr_path r) (Some (serve fake fresh r s).1).
Proof.
  intros [Hreg Hb] Hk. unfold serve. destruct (route _ _ _ _) as [h|] eqn:Eh; [|by split; [|apply refused_answer]].
  destruct (h _ s) as [e|[res s']] eqn:E; [by split; [|apply refused_answer]|]. eapply route_is_kept; eauto.
Qed.

Lemma deliver_kept fake d r s : honest_request r -> row_kept s ->
  row_kept (deliver fake d r s).2 /\ honest_answer (wr_path r) (deliver fake d r s).1.
Proof.
  intros Hr Hk. destruct d as [|res|fresh|fresh]; cbn.
  - by split.
  - split; [done|]. destruct (res_ok res) eqn:E; [done|]. intros res' v [= <-]. congruence.
  - pose proof (serve_kept fake fresh r s Hr Hk) as [? ?]. by destruct (serve _ _ _ _).
  - by split; [apply serve_kept|].
Qed.

(** ** Programs *)

(** Every request is honest if the answers were, and the result is [Q]. *)
Fixpoint safe {A} (Q : A -> Prop) (m : wprog A) : Prop :=
  match m with
  | Done a => Q a
  | Fails _ => True
  | Fetch r k => honest_request r /\ forall o, honest_answer (wr_path r) o -> safe Q (k o)
  | GetCsrf k => forall v, safe Q (k v)
  | SetCsrf _ k => safe Q k
  end.

Lemma safe_bind {A B} (Q : A -> Prop) (R : B -> Prop) m f : safe Q m -> (forall a, Q a -> safe R (f a)) -> safe R (wbind m f).
Proof.
  intros Hm Hf. induction m as [a|e|r k IH|k IH|v k IH]; cbn in *; [by apply Hf|done| |by intros v; apply IH|by apply IH].
  split; [apply Hm|]. intros o Ho. by apply IH, Hm.
Qed.

Lemma safe_weaken {A} (Q R : A -> Prop) m : safe Q m -> (forall a, Q a -> R a) -> safe R m.
Proof.
  intros Hm Hf. induction m as [a|e|r k IH|k IH|v k IH]; cbn in *; [by apply Hf|done| |by intros v; apply IH|by apply IH].
  split; [apply Hm|]. intros o Ho. by apply IH, Hm.
Qed.

Definition any {A} (_ : A) : Prop := True.

Lemma safe_of_crypto {A} (r : web_error + A) : safe (fun a => r = inr a) (of_crypto r).
Proof. by destruct r. Qed.
Lemma safe_of_option {A} e (o : option A) : safe (fun a => o = Some a) (of_option e o).
Proof. by destruct o. Qed.
Lemma safe_field v k : safe (fun x => x = jget v k) (field v k).
Proof. by destruct v. Qed.

Lemma safe_request path init : path <> "/api/v1/auth/register" -> honest_body (default JUndef (in_body init)) ->
  safe (honest_value path) (request "" path init).
Proof.
  intros Hreg Hb csrf. split; [by split|]. intros o Ho. cbn [wr_path] in Ho. change ("" +:+ path) with path in Ho. unfold received. destruct o as [res|]; [|done]. destruct (res_ok res) eqn:Eok; cbn [negb].
  - destruct (_ =? _); [by apply plain_value|]. destruct (rs_body res) as [v|] eqn:Ev; [|done]. by apply (Ho res).
  - destruct (default (JObj []) _); exact I.
Qed.

(** A body that carries no wrapped key. *)
Lemma plain_body v : jget v "newWrappedAk" = JUndef -> jget v "newRecoveryWrappedAk" = JUndef -> jget v "recoveryWrappedAk" = JUndef ->
  honest_body v.
Proof. intros E1 E2 E3. split_and!; intros w; by rewrite ?E1, ?E2, ?E3. Qed.

Lemma safe_plain {A} path init (f : jsval -> wprog A) (Q : A -> Prop) :
  path <> "/api/v1/auth/register" -> honest_body (default JUndef (in_body init)) -> (forall v, safe Q (f v)) -> safe Q (wbind (request "" path init) f).
Proof. intros Hp Hb Hf. eapply safe_bind; [by apply safe_request|]. intros v _. apply Hf. Qed.
Definition password_wrapped (password : string) (w : PasswordWrap) : Prop :=
  exists m, deriveMasterKey password (pw_kdfSalt w) (pw_kdfParams w) = inr m /\ pw_authKey w = deriveAuthKey m /\
    unwrapAccountKey (deriveKek m) (pw_wrappedAk w) = inr K /\ wraps K (pw_wrappedAk w).
Definition code_wrapped (c : RecoveryCode) : Prop :=
  exists b, parseRecoveryCode (rc_code c) = Some b /\ rc_authKey c = (deriveRecoveryKeys b).1 /\
    unwrapAccountKey (deriveRecoveryKeys b).2 (rc_wrappedAk c) = inr K /\ wraps K (rc_wrappedAk c).

Lemma safe_wrap_under salt nonce password : Forall is_byte nonce -> safe (password_wrapped password) (wrap_under salt nonce password K).
Proof.
  intros Hn. unfold wrap_under. eapply safe_bind; [apply safe_of_crypto|]. intros m Hm. exists m. cbn.
  split_and!; [done|done|by apply wrap_opens|by apply wrap_wraps].
Qed.

Lemma safe_newRecoveryCode rnd : Forall is_byte (cr_nonce rnd) -> safe code_wrapped (newRecoveryCode rnd K).
Proof.
  intros Hn. unfold newRecoveryCode. eapply safe_bind; [apply safe_of_option|]. intros b Hb. exists b. cbn.
  split_and!; [done|done|by apply wrap_opens|by apply wrap_wraps].
Qed.

Lemma kdf_of_jsval k : kdf_of (kdf_jsval k) = k.
Proof. by destruct k. Qed.

Lemma password_fields_of body password w : typed password -> password_wrapped password w ->
  jget body "newAuthKey" = JStr (pw_authKey w) -> jget body "newKdfSalt" = JStr (pw_kdfSalt w) ->
  jget body "newKdfParams" = kdf_jsval (pw_kdfParams w) -> password_fields body (pw_wrappedAk w).
Proof.
  intros Hp (m & Hm & Ha & Hu & Hw) E1 E2 E3. exists password, m, (pw_kdfSalt w). rewrite E1, E3, kdf_of_jsval, Ha. split_and!; done.
Qed.

Lemma code_fields_of body name c : code_wrapped c -> jget body name = JStr (rc_authKey c) -> code_fields body name (rc_wrappedAk c).
Proof. intros (b & Hb & Ha & Hu & Hw) E. exists (rc_code c), b. rewrite E, Ha. split_and!; done. Qed.

Definition reset_names : list string :=
  ["newAuthKey"; "newKdfSalt"; "newKdfParams"; "newWrappedAk"; "newRecoveryAuthKey"; "newRecoveryWrappedAk"; "recoveryWrappedAk"].

(** The fields of a reset, after those that say which. *)
Lemma reset_get fs w next k : Forall (fun kv => kv.1 ∉ reset_names) fs -> k ∈ reset_names ->
  jget (JObj (fs ++ reset_fields w next)) k = jget (JObj (reset_fields w next)) k.
Proof.
  intros Hfs Hk. induction Hfs as [|[k' v] fs Hk' _ IH]; [done|]. cbn [app]. rewrite jget_skip; [exact IH|].
  apply String.eqb_neq. intros ->. by apply Hk'.
Qed.

Lemma reset_body fs password w next : typed password -> password_wrapped password w -> code_wrapped next ->
  Forall (fun kv => kv.1 ∉ reset_names) fs -> honest_body (JObj (fs ++ reset_fields w next)).
Proof.
  intros Hp Hw Hc Hfs. assert (forall k, k ∈ reset_names -> jget (JObj (fs ++ reset_fields w next)) k = jget (JObj (reset_fields w next)) k) as E
    by (intros k; by apply reset_get).
  split_and!; intros x; rewrite E by set_solver; [intros [= <-]|intros [= <-]|done].
  - eapply password_fields_of; rewrite ?E by set_solver; done.
  - apply code_fields_of; [done|]. by rewrite E by set_solver.
Qed.

Lemma unwrap_from_wraps kek v k : (forall w, v = JStr w -> wraps K w) -> unwrap_from kek v = inr k -> k = K.
Proof. intros Hw. destruct v; try done. intros E. by eapply Hw. Qed.

Lemma safe_master_from p salt params : safe any (master_from p salt params).
Proof.
  unfold master_from. destruct salt as [| | | |s| |]; try exact I. destruct (fromB64 s), params; try exact I; cbn; by destruct (deriveMasterKey _ _ _).
Qed.

Lemma safe_recoverAccount salt nonce rnd email code newPassword : Forall is_byte nonce -> Forall is_byte (cr_nonce rnd) -> typed newPassword ->
  safe any (recoverAccount "" salt nonce rnd email code newPassword).
Proof.
  intros Hn Hc Hp. unfold recoverAccount. eapply safe_bind; [apply safe_of_option|]. intros b _. destruct (deriveRecoveryKeys b) as [auth kek].
  eapply safe_bind; [by apply safe_request, plain_body|]. intros prepared Hv.
  eapply safe_bind; [apply safe_field|]. intros v Ev. eapply safe_bind; [apply safe_of_crypto|]. intros k Hk.
  assert (k = K) as ->. { eapply unwrap_from_wraps; [|exact Hk]. intros w ->. destruct Hv as (_ & Hv & _). by apply Hv. }
  eapply safe_bind; [by apply safe_wrap_under|]. intros w Hw. eapply safe_bind; [by apply safe_newRecoveryCode|]. intros next Hnext.
  apply safe_plain; [done| |done]. apply (reset_body [_; _] newPassword w next Hp Hw Hnext). repeat constructor; cbn; set_solver.
Qed.

Lemma safe_completeReset salt nonce rnd id secret newPassword : Forall is_byte nonce -> Forall is_byte (cr_nonce rnd) -> typed newPassword ->
  safe any (completeReset "" salt nonce rnd id secret K newPassword).
Proof.
  intros Hn Hc Hp. unfold completeReset. eapply safe_bind; [by apply safe_wrap_under|]. intros w Hw.
  eapply safe_bind; [by apply safe_newRecoveryCode|]. intros next Hnext. apply safe_plain; [done| |done].
  apply (reset_body [_] newPassword w next Hp Hw Hnext). repeat constructor; cbn; set_solver.
Qed.

Lemma safe_unlocked password : safe (fun r => r.2 = K) (unlocked "" password).
Proof.
  unfold unlocked. eapply safe_bind; [by apply safe_request, plain_body|]. intros current Hv.
  eapply safe_bind; [apply safe_field|]. intros salt _. eapply safe_bind; [apply safe_master_from|]. intros m _.
  destruct (unwrap_from _ _) as [e|k] eqn:Hk; [done|]. cbn. eapply unwrap_from_wraps; [|exact Hk]. intros w E. destruct Hv as (Hv & _ & _). by apply Hv.
Qed.

Lemma safe_changePassword salt nonce current newPassword : Forall is_byte nonce -> typed newPassword ->
  safe any (changePassword "" salt nonce current newPassword).
Proof.
  intros Hn Hp. unfold changePassword. eapply safe_bind; [apply safe_unlocked|]. intros [auth k] Hk. cbn in Hk. subst k.
  eapply safe_bind; [by apply safe_wrap_under|]. intros w Hw. apply safe_plain; [done| |done]. split_and!; [|done|done].
  intros x [= <-]. by eapply password_fields_of.
Qed.

Lemma safe_regenerateRecoveryCode rnd current : Forall is_byte (cr_nonce rnd) -> safe any (regenerateRecoveryCode "" rnd current).
Proof.
  intros Hn. unfold regenerateRecoveryCode. eapply safe_bind; [apply safe_unlocked|]. intros [auth k] Hk. cbn in Hk. subst k.
  eapply safe_bind; [by apply safe_newRecoveryCode|]. intros next Hnext. apply safe_plain; [done| |done]. split_and!; [done|done|].
  intros x [= <-]. by apply code_fields_of.
Qed.

Lemma safe_reset_tick priv id secret : safe (fun r => forall k, r = Some k -> k = K) (reset_tick priv id secret).
Proof.
  unfold reset_tick. eapply safe_bind; [by apply safe_request, plain_body|]. intros result (_ & _ & Hv).
  eapply safe_bind; [apply safe_field|]. intros status _. destruct (js_eq_str _ _); [|done].
  unfold accountKeyFromReset. eapply safe_bind.
  { eapply safe_bind; [apply safe_field|]. intros pk _. eapply safe_bind; [apply safe_field|]. intros e Ee.
    instantiate (1 := fun k => k = K). destruct pk, e as [| | | |e| |]; try exact I. eapply safe_weaken; [apply safe_of_crypto|]. intros k Hk.
    exact (Hv e (eq_sym Ee) _ _ _ _ Hk). }
  intros k ->. by intros k [= ->].
Qed.

Lemma safe_reset_with_devices priv salt nonce rnd id secret newPassword : Forall is_byte nonce -> Forall is_byte (cr_nonce rnd) -> typed newPassword ->
  safe any (reset_with_devices priv salt nonce rnd id secret newPassword).
Proof.
  intros Hn Hc Hp. unfold reset_with_devices. eapply safe_bind; [apply safe_reset_tick|].
  intros [k|] Hk; [|done]. rewrite (Hk k eq_refl). by eapply safe_bind; [apply safe_completeReset|].
Qed.

Lemma safe_shown {A} (m : wprog A) : safe any m -> safe any (shown m).
Proof. intros Hm. by eapply safe_bind. Qed.

Lemma dashboard_call_safe m : dashboard_call typed m -> safe any m.
Proof.
  destruct 1; try apply safe_shown.
  - unfold login. apply safe_plain; [done|by apply plain_body|]. intros v.
    eapply safe_bind; [apply safe_field|]. intros salt _. eapply safe_bind; [apply safe_field|]. intros params _.
    eapply safe_bind; [apply safe_master_from|]. intros m _. apply safe_plain; [done|by apply plain_body|]. intros result.
    unfold signed_in. eapply safe_bind; [apply safe_field|]. intros csrf _. cbn. by destruct result.
  - by apply safe_recoverAccount.
  - eapply safe_weaken; [by apply safe_request, plain_body|done].
  - unfold pollAuthRequest. apply safe_plain; [done|by apply plain_body|]. intros result. eapply safe_bind; [apply safe_field|].
    intros status _. by destruct (js_eq_str _ _).
  - eapply safe_weaken; [by apply safe_request, plain_body|done].
  - by apply safe_reset_with_devices.
  - by apply safe_plain; [|apply plain_body|].
  - unfold me. apply safe_plain; [done|by apply plain_body|]. intros result. by eapply safe_bind; [apply safe_field|].
  - unfold confirmRecoveryCode. eapply safe_bind; [apply safe_of_option|]. intros b _. destruct (deriveRecoveryKeys b).
    by apply safe_plain; [|apply plain_body|].
  - by apply safe_changePassword.
  - by apply safe_regenerateRecoveryCode.
  - unfold deleteAccount. apply safe_plain; [done|by apply plain_body|]. intros current. eapply safe_bind; [apply safe_field|].
    intros salt _. eapply safe_bind; [apply safe_master_from|]. intros m _. by apply safe_plain; [|apply plain_body|].
Qed.

(** ** Extensions *)

Lemma handed_over_seals approver nonce pk id e pk' : Forall is_byte nonce ->
  encryptAccountKeyForRequest None approver nonce (Crypto.toB64 None K) pk id = Some (e, pk') -> seals K e.
Proof.
  intros Hn. unfold encryptAccountKeyForRequest. destruct (authRequestKey None approver pk) as [key|]; [|done].
  rewrite <- toB64_same. change (Crypto.fromB64 None (toB64 K)) with (fromB64 (toB64 K)). rewrite toB64_fromB64 by done.
  rewrite <- !toB64_same. intros [= <- <-]. apply envelope_seals; [done|apply utf8_encode_bytes|done].
Qed.

Lemma respond_kept device id approve material s s' : (forall e pk, material = Some (e, pk) -> seals K e) ->
  respond_auth_request device id approve material s = inr s' -> row_kept s -> row_kept s'.
Proof.
  intros Hm E Hk.
  assert (forall st m l, (forall e pk, m = Some (e, pk) -> seals K e) -> row_kept (update_request id (answered st m l) s)) as Hup.
  { intros st m l Hs. apply update_request_kept; [|done]. intros a. right. intros e He. destruct m as [[e' pk]|]; [|done]. cbn in He. injection He as <-. by eapply Hs. }
  assert (respond_auth_request device id approve material s = inr s' -> approve_reset device id material s = inr s' \/ row_kept s') as Hcases.
  { unfold respond_auth_request. destruct (request_of s id) as [a|]; [|done].
    destruct (match a_status a with APending => _ | _ => _ end); [|done].
    destruct approve, (a_kind a); try by left.
    all: destruct material; [done|]; intros [= <-]; right; by apply Hup. }
  destruct (Hcases E) as [E'|?]; [|done]. clear -E' Hm Hup Hk. unfold approve_reset in E'. destruct (request_of s id) as [a|]; [|done].
  destruct (match a_kind a with KWeb => _ | KReset => _ end); [|done]. destruct (existsb _ _); [done|].
  destruct (a_approvals a); [destruct material; [done|injection E' as <-; by apply Hup]|].
  apply try_inr in E' as ([e pk] & Em & E'). injection E' as <-. apply Hup. intros e' pk' [= -> ->].
  destruct material as [[e'' pk'']|]; [|done]. cbn in Em. through. by eapply Hm.
Qed.

Definition system_kept (sys : System) : Prop := row_kept (sys_service sys) /\ Forall (safe any) (sys_pages sys).

Lemma step_kept fake sys sys' : step fake K typed sys sys' -> system_kept sys -> system_kept sys'.
Proof.
  destruct 1 as [s ps m Hm|s ps i r k d Hi|s ps i k v Hi|s ps i v k Hi|s ps device a approve hands approver nonce s' _ _ Hn E|s ps now _|s ps devices];
    intros [Hs Hps]; cbn in *; split; cbn; try done.
  - constructor; [by apply dashboard_call_safe|done].
  - pose proof (Forall_lookup_1 _ _ _ _ Hps Hi) as [Hr _]. by apply deliver_kept.
  - pose proof (Forall_lookup_1 _ _ _ _ Hps Hi) as [Hr Hk]. apply Forall_insert; [done|]. apply Hk. by apply deliver_kept.
  - apply Forall_insert; [done|]. exact (Forall_lookup_1 _ _ _ _ Hps Hi v).
  - apply Forall_insert; [done|]. exact (Forall_lookup_1 _ _ _ _ Hps Hi).
  - eapply respond_kept; [|exact E|done]. destruct hands; [|done]. intros e pk Ee. by eapply handed_over_seals.
Qed.
(** ** Registering *)

(** A request that is served, whether or not the answer is heard. *)
Lemma run_request {A} fake (heard : bool) fresh ds path init (f : jsval -> wprog A) csrf s h :
  route fake fresh (upper (default "GET" (in_method init))) path = Some h ->
  run fake ((if heard then Served fresh else Unheard fresh) :: ds) (wbind (request "" path init) f) csrf s =
  match h (default JUndef (in_body init)) s with
  | inr (res, s') => run fake ds (wbind (received (if heard then Some res else None)) f) csrf s'
  | inl e => run fake ds (wbind (received (if heard then Some (into_response e) else None)) f) csrf s
  end.
Proof.
  intros Hroute. unfold request. cbn [wbind run hd tl]. change ("" +:+ path) with path.
  destruct heard; cbn [deliver]; unfold serve; cbn [wr_path wr_method wr_body]; rewrite Hroute;
    by destruct (h _ s) as [e|[res s']].
Qed.

Definition registered (password code : string) (s : Service) : Prop :=
  exists u, sv_user s = Some u /\ sv_requests s = [] /\ password_opens K password u /\ code_opens K code u /\
    wraps K (u_wrapped_account_key u) /\ wraps K (u_recovery_wrapped_account_key u).

Lemma refused_fails {A} fake ds e (f : jsval -> wprog A) csrf s a csrf' s' :
  run fake ds (wbind (received (Some (into_response e))) f) csrf s <> (inr a, csrf', s').
Proof.
  unfold received. replace (res_ok (into_response e)) with false by (by destruct e). cbn [negb].
  by destruct (default (JObj []) _).
Qed.

Lemma register_route_stores fresh body s res s' : sv_user s = None -> register_route fresh body s = inr (res, s') ->
  exists email auth_key kdf_salt wrapped_ak recovery_auth_key recovery_wrapped_ak,
    let u := mkUser email (hash_password (fr_salt fresh) auth_key) kdf_salt (jget body "kdfParams") wrapped_ak
      (hash_token recovery_auth_key) recovery_wrapped_ak false in
    jget body "authKey" = JStr auth_key /\ jget body "kdfSalt" = JStr kdf_salt /\ jget body "wrappedAk" = JStr wrapped_ak /\
    jget body "recoveryAuthKey" = JStr recovery_auth_key /\ jget body "recoveryWrappedAk" = JStr recovery_wrapped_ak /\
    res = answer_json (auth_response u (fr_token fresh)) /\ s' = set_user (Some u) s.
Proof.
  intros Hs E. unfold register_route in E. rewrite Hs in E. through. subst. do 6 eexists. split_and!; try eassumption; reflexivity.
Qed.

Lemma register_registers fake fresh salt nonce rnd email password session code csrf now devices s :
  Forall is_byte nonce -> Forall is_byte (cr_nonce rnd) ->
  run fake [Served fresh] (register "" salt K nonce rnd email password) JNull (mkService None [] now devices) = (inr (session, code), csrf, s) ->
  registered password code s.
Proof.
  intros Hn Hc. unfold register, wrap_under. destruct (deriveMasterKey _ _ _) as [e|m] eqn:Hm; [done|]. cbn [of_crypto wbind].
  unfold newRecoveryCode. destruct (parseRecoveryCode _) as [b|] eqn:Hb; [|done]. cbn [of_option wbind]. destruct (deriveRecoveryKeys b) as [auth kek] eqn:Hk.
  cbn [wbind pw_authKey pw_kdfSalt pw_kdfParams pw_wrappedAk rc_authKey rc_wrappedAk rc_code].
  rewrite (run_request fake true fresh [] _ _ _ _ _ (register_route fresh)) by reflexivity.
  destruct (register_route _ _ _) as [e|[res s']] eqn:E; [by intros ?%refused_fails|]. 
  apply register_route_stores in E as (em & a & ks & w & ra & rw & [= <-] & [= <-] & [= <-] & [= <-] & [= <-] & -> & ->); [|done].
  intros [= _ <- _ <-]. eexists. split; [reflexivity|]. split; [done|]. cbn [u_wrapped_account_key u_recovery_wrapped_account_key].
  split_and!; [| |by apply wrap_wraps..].
  - exists m. cbn. split; [done|]. split; [apply verify_hashed|by apply wrap_opens].
  - exists b. cbn [u_recovery_auth_hash u_recovery_wrapped_account_key]. rewrite Hk. cbn [fst snd].
    split; [done|]. split; [apply matches_hashed|by apply wrap_opens].
Qed.

Lemma registered_kept password code s : typed password -> registered password code s -> row_kept s.
Proof.
  intros Hp (u & Hu & Hr & Hpo & Hco & Hw & Hw'). split; [|by rewrite Hr]. rewrite Hu. intros u' [= <-]. split; eauto.
Qed.

Lemma steps_kept fake sys sys' : rtc (step fake K typed) sys sys' -> system_kept sys -> system_kept sys'.
Proof. induction 1 as [|sys1 sys2 sys3 Hs _ IH]; [done|]. intros Hk. apply IH. by eapply step_kept. Qed.
End kept.

(** C20. Whatever happens to an account after it is registered, its account key
    is kept: however many dashboards sign in, change the password, replace the
    recovery code, reset with a code or with two devices, their requests
    interleaved, lost, refused or answered without the answer arriving, the row
    the server keeps, while there is one, opens to the account key of the
    registration with a password the user typed, and with a recovery code. *)
Theorem account_key_kept fake K typed salt nonce rnd fresh email password session code csrf now devices s sys :
  Forall is_byte K -> Forall is_byte nonce -> Forall is_byte (cr_nonce rnd) -> typed password ->
  run fake [Served fresh] (register "" salt K nonce rnd email password) JNull (mkService None [] now devices) = (inr (session, code), csrf, s) ->
  rtc (step fake K typed) (mkSystem s []) sys ->
  forall u, sv_user (sys_service sys) = Some u ->
    (exists p, typed p /\ password_opens K p u) /\ (exists c, code_opens K c u).
Proof.
  intros HK Hn Hc Hp Hrun Hsteps. assert (system_kept K typed sys) as [[Hkept _] _].
  { eapply steps_kept; [done|exact Hsteps|]. split; [|constructor].
    eapply registered_kept; [exact Hp|]. eapply register_registers; [..|exact Hrun]; done. }
  intros u Hu. destruct (Hkept u Hu). done.
Qed.
(** ** What the server checks, dashboards send *)

Lemma escape_length c : (String.length (json_escape c) <= 6)%nat.
Proof. destruct c as [[] [] [] [] [] [] [] []]; vm_compute; lia. Qed.

Lemma json_string_length s : (String.length (json_string s) <= 6 * String.length s + 2)%nat.
Proof.
  unfold json_string. rewrite !str_length_app. assert (String.length (json_chars s) <= 6 * String.length s)%nat as Hl.
  { induction s as [|c s IH]; [done|]. cbn [json_chars String.length]. rewrite str_length_app. pose proof (escape_length c). lia. }
  change (String.length dquote) with 1%nat. lia.
Qed.

Lemma btoa_length b : (length (btoa b) <= 2 * length b + 4)%nat.
Proof.
  assert (forall n b, (length b <= n)%nat -> (length (btoa b) <= 2 * length b + 4)%nat) as Hall; [|by eapply Hall].
  clear b. intros n. induction n as [|n IH]; intros [|x [|y [|z b]]] Hn; cbn in *; try lia. pose proof (IH b ltac:(lia)). lia.
Qed.

Lemma strip_pad_length n cs : (length (strip_pad n cs) <= length cs)%nat.
Proof.
  revert n. induction cs as [|c cs IH]; intros [|n]; cbn; try lia. destruct (Ascii.eqb c "="); cbn; [|lia].
  pose proof (IH n). lia.
Qed.

Lemma string_of_list_length cs : String.length (string_of_list_ascii cs) = length cs.
Proof. induction cs as [|c cs IH]; [done|]. cbn. by rewrite IH. Qed.

Lemma toB64_length b : (String.length (toB64 b) <= 2 * length b + 4)%nat.
Proof.
  unfold toB64, base64UrlEncode. cbv zeta. rewrite string_of_list_length, length_rev. etrans; [apply strip_pad_length|].
  rewrite length_rev, length_map. apply btoa_length.
Qed.

Lemma wrap_length nonce kek K : length nonce = 24%nat -> length K = 32%nat -> (String.length (wrapAccountKey nonce kek K) <= MAX_WRAPPED_KEY_LEN)%nat.
Proof.
  intros Hn HK. unfold wrapAccountKey, envelope. rewrite stringify_obj. cbn [json_members].
  pose proof (json_string_length (toB64 nonce)) as H1'. pose proof (toB64_length nonce) as H2'.
  pose proof (json_string_length (toB64 (aead_encrypt kek nonce [] K))) as H3'. pose proof (toB64_length (aead_encrypt kek nonce [] K)) as H4'.
  rewrite aead_length in H4'.
  change (JSON_stringify (JStr (toB64 nonce))) with (json_string (toB64 nonce)).
  change (JSON_stringify (JStr (toB64 (aead_encrypt kek nonce [] K)))) with (json_string (toB64 (aead_encrypt kek nonce [] K))).
  rewrite !str_length_app.
  revert H1' H3'. generalize (String.length (json_string (toB64 nonce))), (String.length (json_string (toB64 (aead_encrypt kek nonce [] K)))).
  intros n1 n2 H1' H3'. cbn [String.length sep].
  replace (String.length (json_string "v")) with 3%nat by reflexivity.
  replace (String.length (json_string "alg")) with 5%nat by reflexivity.
  replace (String.length (json_string "nonce")) with 7%nat by reflexivity.
  replace (String.length (json_string "ciphertext")) with 12%nat by reflexivity.
  replace (String.length (JSON_stringify (JNum 1))) with 1%nat by reflexivity.
  replace (String.length (JSON_stringify (JStr "xchacha20poly1305"))) with 19%nat by reflexivity.
  unfold MAX_WRAPPED_KEY_LEN. lia.
Qed.

Lemma derived_key_accepted ikm info : validate_request_auth_key (toB64 (hkdf ikm info 256)) = inr tt.
Proof.
  unfold validate_request_auth_key, validate_auth_key, url_safe_decode. rewrite toB64_fromB64 by apply hkdf_bytes. cbn [mbind option_bind].
  by rewrite String.eqb_refl, hkdf_length.
Qed.

Lemma salt_accepted name salt : Forall is_byte salt -> length salt = 16%nat -> validate_kdf_salt name (generateKdfSalt salt) = inr tt.
Proof.
  intros Hs Hl. unfold validate_kdf_salt, generateKdfSalt, url_safe_decode. rewrite toB64_fromB64 by done. cbn [mbind option_bind].
  by rewrite String.eqb_refl, Hl.
Qed.

Lemma wrap_accepted name nonce kek K : length nonce = 24%nat -> length K = 32%nat -> validate_wrapped_key name (wrapAccountKey nonce kek K) = inr tt.
Proof. intros Hn HK. unfold validate_wrapped_key. pose proof (wrap_length nonce kek K Hn HK). by rewrite (proj2 (Nat.leb_le _ _)). Qed.
(** ** Using the recovery code *)

(** Random bytes as they are drawn. *)
Record drawn (salt nonce : bytes) (rnd : CodeRandom) : Prop := {
  drawn_salt : Forall is_byte salt /\ length salt = 16%nat;
  drawn_nonce : Forall is_byte nonce /\ length nonce = 24%nat;
  drawn_code : Forall is_byte (cr_code rnd) /\ length (cr_code rnd) = RECOVERY_CODE_BYTES;
  drawn_code_nonce : Forall is_byte (cr_nonce rnd) /\ length (cr_nonce rnd) = 24%nat;
}.

Lemma new_salt_derives password salt : Forall is_byte salt -> length salt = 16%nat ->
  exists m, deriveMasterKey password (generateKdfSalt salt) DEFAULT_KDF_PARAMS = inr m.
Proof.
  intros Hs Hl. unfold deriveMasterKey, generateKdfSalt. rewrite toB64_fromB64 by done. cbn [or_unreadable then_].
  unfold assertSaneKdfParams. rewrite Hl. by eexists.
Qed.

Lemma new_code_parses b : Forall is_byte b -> length b = RECOVERY_CODE_BYTES -> parseRecoveryCode (generateRecoveryCode b) = Some b.
Proof. intros Hb Hl. by apply parse_spec. Qed.

(** The row after a reset with these new fields. *)
Definition reset_row (fresh : Fresh) (salt nonce : bytes) (rnd : CodeRandom) (m K : bytes) (u : UserRow) : UserRow :=
  let '(auth, kek) := deriveRecoveryKeys (cr_code rnd) in
  mkUser (u_email u) (hash_password (fr_salt fresh) (deriveAuthKey m)) (generateKdfSalt salt) (kdf_jsval DEFAULT_KDF_PARAMS)
    (wrapAccountKey nonce (deriveKek m) K) (hash_token auth) (wrapAccountKey (cr_nonce rnd) kek K) false.

Lemma reset_row_opens fresh salt nonce rnd m K u password : drawn salt nonce rnd -> Forall is_byte K ->
  deriveMasterKey password (generateKdfSalt salt) DEFAULT_KDF_PARAMS = inr m ->
  password_opens K password (reset_row fresh salt nonce rnd m K u) /\
  code_opens K (generateRecoveryCode (cr_code rnd)) (reset_row fresh salt nonce rnd m K u).
Proof.
  intros [[Hs Hls] [Hn Hln] [Hc Hlc] [Hcn Hlcn]] HK Hm. split.
  - exists m. cbn. split; [done|]. split; [apply verify_hashed|by apply wrap_opens].
  - exists (cr_code rnd). cbn [deriveRecoveryKeys reset_row u_recovery_auth_hash u_recovery_wrapped_account_key fst snd].
    split; [by apply new_code_parses|]. split; [apply matches_hashed|by apply wrap_opens].
Qed.

Lemma request_email_folded email u : folded email = u_email u -> (String.length (u_email u) <= MAX_EMAIL_LEN)%nat ->
  request_email email = inr (u_email u).
Proof. intros He Hl. unfold request_email, normalize_email. rewrite He. cbv zeta. by rewrite (proj2 (Nat.leb_le _ _) Hl). Qed.

Lemma new_fields_sent fresh fs salt nonce rnd m K u : drawn salt nonce rnd -> length K = 32%nat ->
  Forall (fun kv => kv.1 ∉ reset_names) fs ->
  let body := JObj (fs ++ reset_fields (mkPasswordWrap (deriveAuthKey m) (generateKdfSalt salt) DEFAULT_KDF_PARAMS (wrapAccountKey nonce (deriveKek m) K))
    (mkRecoveryCode (generateRecoveryCode (cr_code rnd)) (deriveRecoveryKeys (cr_code rnd)).1
      (wrapAccountKey (cr_nonce rnd) (deriveRecoveryKeys (cr_code rnd)).2 K))) in
  exists n, new_fields body = inr n /\ check_new_fields n = inr tt /\ store_new_fields fresh n u = reset_row fresh salt nonce rnd m K u.
Proof.
  intros [[Hs Hls] [Hn Hln] [Hc Hlc] [Hcn Hlcn]] HK Hfs body. subst body. unfold new_fields, str_field, val_field.
  rewrite !(reset_get fs) by (done || set_solver).
  eexists (mkNewFields (deriveAuthKey m) (generateKdfSalt salt) (kdf_jsval DEFAULT_KDF_PARAMS) (wrapAccountKey nonce (deriveKek m) K)
    (deriveRecoveryKeys (cr_code rnd)).1 (wrapAccountKey (cr_nonce rnd) (deriveRecoveryKeys (cr_code rnd)).2 K)).
  split; [reflexivity|split; [|reflexivity]]. unfold check_new_fields. cbn [nf_auth_key nf_kdf_salt nf_kdf_params nf_wrapped_ak nf_recovery_auth_key nf_recovery_wrapped_ak].
  unfold deriveAuthKey, deriveRecoveryKeys. cbn [fst snd]. rewrite !derived_key_accepted, salt_accepted, !wrap_accepted by done. reflexivity.
Qed.

Lemma recover_prepare_answers email auth u s : sv_user s = Some u -> folded email = u_email u -> (String.length (u_email u) <= MAX_EMAIL_LEN)%nat ->
  validate_request_auth_key auth = inr tt -> token_hash_matches auth (u_recovery_auth_hash u) = true ->
  recover_prepare (JObj [("email", JStr email); ("recoveryAuthKey", JStr auth)]) s =
    inr (answer_json (JObj [("recoveryWrappedAk", JStr (u_recovery_wrapped_account_key u))]), s).
Proof.
  intros Hu He Hl Hv Hm. unfold recover_prepare. cbn [try_ str_field jget].
  replace (str_field _ "email") with (inr email : AppResult string) by done. cbn [try_].
  replace (str_field _ "recoveryAuthKey") with (inr auth : AppResult string) by done. cbn [try_].
  rewrite (request_email_folded email u) by done. cbn [try_]. rewrite Hv. cbn [try_].
  unfold verify_recovery_code, user_by_email. by rewrite Hu, String.eqb_refl, Hm.
Qed.

Lemma recover_complete_stores fresh email auth u s salt nonce rnd m K :
  sv_user s = Some u -> folded email = u_email u -> (String.length (u_email u) <= MAX_EMAIL_LEN)%nat ->
  validate_request_auth_key auth = inr tt -> token_hash_matches auth (u_recovery_auth_hash u) = true ->
  drawn salt nonce rnd -> length K = 32%nat ->
  recover_complete fresh (JObj (("email", JStr email) :: ("recoveryAuthKey", JStr auth) ::
      reset_fields (mkPasswordWrap (deriveAuthKey m) (generateKdfSalt salt) DEFAULT_KDF_PARAMS (wrapAccountKey nonce (deriveKek m) K))
        (mkRecoveryCode (generateRecoveryCode (cr_code rnd)) (deriveRecoveryKeys (cr_code rnd)).1
          (wrapAccountKey (cr_nonce rnd) (deriveRecoveryKeys (cr_code rnd)).2 K)))) s =
    inr (no_content, set_user (Some (reset_row fresh salt nonce rnd m K u)) s).
Proof.
  intros Hu He Hl Hv Hm Hd HK. unfold recover_complete.
  replace (str_field _ "email") with (inr email : AppResult string) by done. cbn [try_].
  replace (str_field _ "recoveryAuthKey") with (inr auth : AppResult string) by done. cbn [try_].
  destruct (new_fields_sent fresh [("email", JStr email); ("recoveryAuthKey", JStr auth)] salt nonce rnd m K u Hd HK) as (n & En & Ec & Es).
  { repeat constructor; cbn; set_solver. }
  cbn [app] in En. rewrite En. cbn [try_]. rewrite (request_email_folded email u) by done. cbn [try_]. rewrite Hv. cbn [try_]. rewrite Ec. cbn [try_].
  unfold verify_recovery_code, user_by_email. by rewrite Hu, String.eqb_refl, Hm, Es.
Qed.

Lemma received_json v : received (Some (answer_json v)) = Done v.
Proof. reflexivity. Qed.
Lemma received_nothing : received (Some no_content) = Done JUndef.
Proof. reflexivity. Qed.

(** C21. A recovery code that opens the account, however it is spelled, resets
    it: the server takes everything the dashboard sends, and the row opens to
    the same account key with the new password and with a new code. That code is
    shown only if the last answer arrives; if it does not, the old code is gone
    and nobody has seen the new one. *)
Theorem recovery_works fake (heard : bool) K u s email code newPassword salt nonce rnd fresh1 fresh2 csrf :
  sv_user s = Some u -> code_opens K code u -> folded email = u_email u -> (String.length (u_email u) <= MAX_EMAIL_LEN)%nat ->
  Forall is_byte K -> length K = 32%nat -> drawn salt nonce rnd ->
  exists u', u_email u' = u_email u /\ password_opens K newPassword u' /\ code_opens K (generateRecoveryCode (cr_code rnd)) u' /\
    run fake [Served fresh1; if heard then Served fresh2 else Unheard fresh2] (recoverAccount "" salt nonce rnd email code newPassword) csrf s =
      (if heard then inr (generateRecoveryCode (cr_code rnd)) else inl TypeFailed, csrf, set_user (Some u') s).
Proof.
  intros Hu (b & Hb & Hmatch & Hopen) He Hl HK HlK Hd. pose proof Hd as [[Hs Hls] [Hn Hln] [Hc Hlc] [Hcn Hlcn]].
  destruct (new_salt_derives newPassword salt Hs Hls) as [m Hm]. exists (reset_row fresh2 salt nonce rnd m K u).
  split; [done|]. split; [by eapply reset_row_opens|]. split; [by eapply reset_row_opens|].
  unfold recoverAccount. rewrite Hb. cbn [of_option wbind].
  destruct (deriveRecoveryKeys b) as [auth kek] eqn:Hkeys. cbn [fst snd] in Hmatch, Hopen.
  assert (validate_request_auth_key auth = inr tt) as Hv by (injection Hkeys as <- _; apply derived_key_accepted).
  rewrite (run_request fake true fresh1 _ _ _ _ _ _ recover_prepare) by reflexivity.
  match goal with |- context [default JUndef (in_body (POST ?v))] => change (default JUndef (in_body (POST v))) with v end.
  rewrite (recover_prepare_answers email auth u s) by done.
  rewrite received_json. cbn [wbind]. unfold field at 1. cbn [wbind].
  replace (jget _ "recoveryWrappedAk") with (JStr (u_recovery_wrapped_account_key u)) by reflexivity. unfold unwrap_from. rewrite Hopen.
  cbn [of_crypto wbind]. unfold wrap_under. rewrite Hm. cbn [of_crypto wbind]. unfold newRecoveryCode. rewrite new_code_parses by done.
  cbn [of_option wbind]. rewrite (surjective_pairing (deriveRecoveryKeys (cr_code rnd))). cbn [wbind].
  rewrite (run_request fake heard fresh2 _ _ _ _ _ _ (recover_complete fresh2)) by reflexivity.
  match goal with |- context [default JUndef (in_body (POST ?v))] => change (default JUndef (in_body (POST v))) with v end.
  rewrite (recover_complete_stores fresh2 email auth u) by done. destruct heard; [by rewrite received_nothing|reflexivity].
Qed.
(** ** A program on its own is a sequence of steps *)

Lemma run_steps fake K typed ds m csrf s : exists m', rtc (step fake K typed) (mkSystem s [m]) (mkSystem (run fake ds m csrf s).2 [m']).
Proof.
  revert ds csrf s. induction m as [a|e|r k IH|k IH|v k IH]; intros ds csrf s; cbn [run].
  - exists (Done a). apply rtc_refl.
  - exists (Fails e). apply rtc_refl.
  - destruct (deliver fake (hd Lost ds) r s) as [o s'] eqn:E. destruct (IH o (tl ds) csrf s') as [m' Hm'].
    exists m'. eapply rtc_l; [|exact Hm']. pose proof (StepFetch fake K typed s [Fetch r k] 0 r k (hd Lost ds) eq_refl) as Hs. by rewrite E in Hs.
  - destruct (IH csrf ds csrf s) as [m' Hm']. exists m'. eapply rtc_l; [|exact Hm']. by apply (StepGetCsrf fake K typed s [GetCsrf k] 0).
  - destruct (IH ds v s) as [m' Hm']. exists m'. eapply rtc_l; [|exact Hm']. by apply (StepSetCsrf fake K typed s [SetCsrf v k] 0 v).
Qed.
End account.

(** ** Evaluated *)

(** Sixteen bytes more than the text without associated data, fifteen of them
    for the key. *)
Definition key_tag (k : bytes) : bytes := map (fun z => z mod 256) (take 15 (k ++ replicate 15 0)).
Definition marked (k a : bytes) : bytes := toy_header a ++ key_tag k.

Lemma key_tag_length k : length (key_tag k) = 15%nat.
Proof. unfold key_tag. rewrite length_map, length_take, length_app, length_replicate. lia. Qed.

#[local] Existing Instances ascii_platform.
#[local] Instance tagging_lib : CryptoLib := {|
  aead_encrypt k _ a p := marked k a ++ p;
  aead_decrypt k _ a c := if bool_decide (take (length (marked k a)) c = marked k a) then Some (drop (length (marked k a)) c) else None;
  hkdf ikm info bits := map (fun i => (foldr Z.add 0 (ikm ++ utf8_encode info) + Z.of_nat i) mod 256) (seq 0 32);
  sha256 b := b;
  argon2id password salt t m p := utf8_encode password ++ salt;
  ecdh a p := [foldr Z.add 0 a mod 256 * foldr Z.add 0 p];
  ecdh_public a := [foldr Z.add 0 a mod 256];
|}.
#[local] Instance plain_hasher : PasswordHasher := {| hash_password salt authKey := authKey; verify_password := String.eqb |}.
#[local] Instance plain_hasher_laws : PasswordHasherLaws.
Proof. split. intros salt authKey. apply String.eqb_refl. Qed.

Lemma marked_inj k k' a a' p : take (length (marked k' a')) (marked k a ++ p) = marked k' a' -> a = a'.
Proof.
  intros E. apply (toy_header_inj a a' (key_tag k ++ p)). unfold marked in E. rewrite <- app_assoc in E.
  apply (f_equal (take (length (toy_header a')))) in E.
  rewrite take_take, take_app_length, Nat.min_l in E by (rewrite length_app; lia). exact E.
Qed.

#[local] Instance tagging_laws : CryptoLaws.
Proof.
  split.
  - intros k n a p. cbn. by rewrite take_app_length, bool_decide_true, drop_app_length.
  - intros k n a a' p Hne. cbn. rewrite bool_decide_false; [done|]. intros E. by apply marked_inj in E.
  - intros k n a p Ha Hp. cbn. unfold marked. rewrite !Forall_app. split_and!; [|apply Forall_map, Forall_true|done].
    + unfold toy_header. rewrite Forall_app, Forall_cons. split_and!; [by apply Forall_replicate|done|done].
    + intros z. unfold is_byte. apply Z.mod_pos_bound. lia.
Qed.
#[local] Instance tagging_key_laws : KeyLaws.
Proof.
  split.
  - intros k k' n n' a a' p q. cbn. case_bool_decide as E; [|done]. apply marked_inj in E as Ea. subst a'.
    replace (length (marked k' a)) with (length (marked k a)) by (unfold marked; by rewrite !length_app, !key_tag_length).
    rewrite drop_app_length. by intros [= <-].
  - intros k n p. unfold aead_encrypt, tagging_lib, marked. rewrite !length_app, key_tag_length. cbn. lia.
  - intros ikm info. apply Forall_map, Forall_true. intros i. unfold is_byte. apply Z.mod_pos_bound. lia.
  - intros ikm info. unfold hkdf, tagging_lib. by rewrite length_map, length_seq.
Qed.

Definition ex_fresh : Fresh := mkFresh "request" "token" "salt".
Definition ex_code_random : CodeRandom := mkCodeRandom (some_bytes 20) (some_bytes 24).
Definition ex_registered : (client_error + jsval * jsval * string) * jsval * Service :=
  run (fun _ => "") [Served ex_fresh] (register "" (some_bytes 16) (some_bytes 32) (some_bytes 24) ex_code_random "Ann@example.org" "first") JNull
    (mkService None [] 0 ["laptop"; "phone"]).
Definition ex_change : wprog unit := changePassword "" (some_bytes 16) (some_bytes 24) "first" "second".
(** The change's last answer is lost. *)
Definition ex_changed : (client_error + unit) * jsval * Service :=
  run (fun _ => "") [Served ex_fresh; Unheard ex_fresh] ex_change (JStr "token") ex_registered.2.

(** The page is told of a failure, and the new password is the one that works. *)
Example ex_password_changed : ex_changed.1.1 = inl TypeFailed /\
  (run (fun _ => "") [Served ex_fresh; Served ex_fresh] (login "" "ann@example.org" "second") JNull ex_changed.2).1.1 =
    inr (JObj [("id", JStr "user"); ("email", JStr "ann@example.org")], JStr "token") /\
  (run (fun _ => "") [Served ex_fresh; Served ex_fresh] (login "" "ann@example.org" "first") JNull ex_changed.2).1.1 =
    inl (ApiError "unauthorized" 401 (JStr "unauthorized")) /\
  (run (fun _ => "") [Served ex_fresh; Served ex_fresh] (changePassword "" (some_bytes 16) (some_bytes 24) "first" "third") JNull ex_changed.2).1.1 =
    inl WRONG_PASSWORD.
Proof. vm_compute. done. Qed.

Lemma account_key_kept_witness :
  exists u, sv_user ex_changed.2 = Some u /\
    (exists p, (p = "first" \/ p = "second") /\ password_opens (some_bytes 32) p u) /\ (exists c, code_opens (some_bytes 32) c u).
Proof.
  assert (exists u, sv_user ex_changed.2 = Some u) as [u Hu] by (eexists; vm_compute; reflexivity).
  exists u. split; [exact Hu|].
  destruct (run_steps (fun _ => "") (some_bytes 32) (fun p => p = "first" \/ p = "second") [Served ex_fresh; Unheard ex_fresh] ex_change (JStr "token") ex_registered.2)
    as [m' Hm'].
  apply (account_key_kept (fun _ => "") (some_bytes 32) (fun p => p = "first" \/ p = "second") (some_bytes 16) (some_bytes 24) ex_code_random ex_fresh
    "Ann@example.org" "first" (JObj [("id", JStr "user"); ("email", JStr "ann@example.org")], JStr "token") (generateRecoveryCode (some_bytes 20))
    (JStr "token") 0 ["laptop"; "phone"] ex_registered.2 (mkSystem ex_changed.2 [m'])).
  - apply some_bytes_ok.
  - apply some_bytes_ok.
  - apply some_bytes_ok.
  - by left.
  - vm_compute. reflexivity.
  - eapply rtc_l; [|exact Hm']. apply StepCall. constructor; [apply some_bytes_ok|by right].
  - exact Hu.
Defined.

Lemma recovery_works_witness : exists u, sv_user ex_registered.2 = Some u /\ exists u',
    password_opens (some_bytes 32) "third" u' /\
    run (fun _ => "") [Served ex_fresh; Unheard ex_fresh] (recoverAccount "" (some_bytes 16) (some_bytes 24) (mkCodeRandom (some_bytes 20) (some_bytes 24))
      " ann@example.org" "4n56 z55s vrij gkbj-jyye-2lhb-aits-nfz4" "third") JNull ex_registered.2 =
      (inl TypeFailed, JNull, set_user (Some u') ex_registered.2).
Proof.
  assert (exists u, sv_user ex_registered.2 = Some u /\ code_opens (some_bytes 32) "4n56 z55s vrij gkbj-jyye-2lhb-aits-nfz4" u /\
    folded " ann@example.org" = u_email u /\ (String.length (u_email u) <= MAX_EMAIL_LEN)%nat) as (u & Hu & Hc & He & Hl).
  { eexists. split; [vm_compute; reflexivity|]. split; [|split; [vm_compute; reflexivity|cbn; unfold MAX_EMAIL_LEN; lia]].
    exists (some_bytes 20). split; [|split]; vm_compute; reflexivity. }
  exists u. split; [exact Hu|].
  destruct (recovery_works (fun _ => "") false (some_bytes 32) u ex_registered.2 " ann@example.org" "4n56 z55s vrij gkbj-jyye-2lhb-aits-nfz4" "third"
    (some_bytes 16) (some_bytes 24) (mkCodeRandom (some_bytes 20) (some_bytes 24)) ex_fresh ex_fresh JNull Hu Hc He Hl) as (u' & _ & Hp & _ & Hrun).
  - apply some_bytes_ok.
  - reflexivity.
  - split; (split; [apply some_bytes_ok|reflexivity]).
  - exists u'. split; [exact Hp|exact Hrun].
Defined.
